(* ===== verification/_CoqProject ===== *)
-Q . S2P
Prelude.v
Errors.v
Json.v
Effects.v
Policy.v
Auth.v
PolicyEngine.v
PolicyConcurrency.v
SecretPath.v
KvStore.v
Lease.v
Envelope.v
Seal.v
KeyStore.v
KekStore.v
CryptoService.v
KeyDurability.v
LeaseDb.v
Cluster.v
RegionHealth.v
SecretDb.v
Rotation.v
Transit.v
TransitDb.v
AuditTrail.v
SecretEngine.v
SecretAccess.v
Replication.v
IdentityDb.v
ApiKeys.v
Mfa.v
SigningKeys.v
Tokens.v
Invitations.v
Tenants.v
Scim.v
Pki.v
Federation.v
AuthMethods.v
Operator.v
