(* ===== verification/Prelude.v ===== *)
(** * WSLVault: a verification library for the vault's services

    WSLVault is a multi-tenant secrets vault made of small services over one
    PostgreSQL database. A request reaches a service with a token (or with headers a
    trusted gateway set); the service learns who is calling ([wslvault-core]'s
    [auth.rs]), asks the policy engine whether the caller's policies allow the action,
    does its work on its own store, and leaves an audit event. Secrets are kept as
    ciphertexts under data keys, data keys under a root key, and the root key exists
    only while the vault is unsealed by a quorum of share holders. Tokens and dynamic
    secrets are leased, and a sweep ends what has expired. The identity service turns
    API keys, with a second factor where one is demanded, invitations and federated
    credentials into tokens, and keeps tenants and provisioned users. Transit keys
    encrypt for callers, a certificate authority per tenant issues certificates, audit
    records form a hash chain per tenant, background jobs run on an elected leader, and
    regions replicate to each other through an outbox of events.

    ** The files

    In dependency order; a definition keeps the name of the function, type or method it
    models where there is no clash.

    Shared:
    - [Prelude] (this file): [Result] as the monad [result], machine integers and their
      wrap-around, database instants, the [str] methods the sources call ([Module Str]:
      strings are UTF-8 byte sequences), decimal integers ([Module Dec]), the tactics
      [res_inv], [res_case] and [bools], the hint database [vault].
    - [Errors]: [VaultError] of [crates/wslvault-core/src/error.rs].
    - [Json]: [serde_json::Value] and its accessors.
    - [Effects]: the monad of stateful computations that fail without undoing what they
      did, with the judgements [stable] and [triple].

    Authorisation and authentication:
    - [Policy]: [services/policy-engine/src/model.rs] and [evaluator.rs] ([Module Glob],
      [Module Evaluator]).
    - [Auth]: [crates/wslvault-core/src/auth.rs].
    - [PolicyEngine]: the policy service, [store.rs], [pg_store.rs], [grpc.rs],
      [http.rs], its requests and rebuilds one after the other; [PolicyStoreBackend] is
      the trait, [LawfulBackend] and [PolicyTable] what the theorems ask of a store,
      without and with failures. [PolicyConcurrency]: the same handlers and the rebuild
      of [main.rs], phase by phase and interleaved.

    Secrets:
    - [SecretPath], [KvStore]: [path.rs] and [kv_store.rs] of
      [services/secret-engine/src].
    - [SecretDb]: [wslvault-storage/src/secret_store.rs] with the stored functions and
      triggers of the schema, and [secret-engine/src/pg_store.rs].
    - [Rotation]: [services/lease-manager/src/rotation.rs] over those tables.
    - [SecretEngine]: the native and the Vault-compatible handlers, the router and the
      RPCs, against the interfaces [SecretStoreBackend], [CryptoApi], [PolicyService]
      and [Authenticator]; [SecretAccess]: what they guarantee, by a small calculus
      [wp].

    Keys:
    - [Envelope]: [crates/wslvault-core/src/crypto]; [Primitives] and [PrimitiveLaws]
      are the interface to the cryptographic crates.
    - [Seal]: [crates/wslvault-core/src/seal.rs]; [Sharing] and [SharingLaws].
    - [KeyStore]: the tables of key descriptors ([key_store.rs], [seal_store.rs]).
    - [KekStore]: [services/crypto-service/src]; [CryptoService] and [KeyDurability]:
      what its callers rely on within a process and across restarts.
    - [Transit], [TransitDb]: [services/transit-engine/src] with its handlers, in memory
      and in PostgreSQL.
    - [Pki]: [services/pki-engine/src], against the interface [PkiStore].

    Leases, clusters, regions, audit:
    - [Lease], [LeaseDb]: [services/lease-manager/src], in memory and in PostgreSQL.
    - [Cluster]: [crates/wslvault-cluster/src]; [RegionHealth]:
      [services/region-health/src].
    - [AuditTrail]: [services/audit-service] over [audit_store.rs] ([Module Trail],
      [Module Appends], [Module Evidence]).
    - [Replication]: [services/replication-agent/src] ([Module Conflict], [Module
      Outbox], [Module Applier]).

    Identity ([services/identity-service/src]):
    - [IdentityDb]: the tables of keys and factors; [ApiKeys]: [api_keys.rs]; [Mfa]:
      [mfa.rs] and the logins; [SigningKeys]: [signing_keys.rs]; [Tokens]: [token.rs],
      [store.rs], [grpc.rs]; [Invitations]: [invitations.rs]; [Tenants]:
      [tenant_handlers.rs] and [quota_handlers.rs]; [Scim]: [scim/], against the
      interface [ScimStore].
    - [Federation]: the logins with credentials of others behind the RPCs of [Tokens]
      ([Module Oidc]: [oidc.rs], [Module Aws]: [aws_iam.rs], [Module Azure]:
      [azure_workload.rs], [Module Mtls]: [mtls.rs]); [AuthMethods]: the ones over HTTP,
      [auth_methods/] ([Module Kubernetes], [Module Ldap], [Module Device]).

    Clients:
    - [Operator]: [services/k8s-operator/src] ([Module Secrets]: [controller.rs],
      [Module Policies]: [policy_controller.rs]), against the interface [Outside], and
      attached to the policy engine of [PolicyEngine].

    ** How code becomes definitions

    A pure function is a function. A handler takes the state it locks, the clock, and
    what the outside answers, and returns its response with the new state; every early
    return is a branch. Errors are values of [result]; where the code can panic (a date
    out of range, a missing version) the result says so. Long handlers are written in
    the monad of [Effects]. A service's state is a record; what it can do over time is
    a step relation ([Inductive]) closed under [rtc], and invariants are proved by
    induction over it, so a theorem about a reachable state quantifies over every
    sequence of requests, of clock readings and of failures. SQL statements are
    functions on tables with their WHERE clauses and the constraints they can violate;
    a statement may fail, and a write may fail after its effect. Where a method uses
    several transactions or locks, what happens between them is explicit: phases that
    interleave ([PolicyConcurrency], [LeaseDb], [AuditTrail], [TransitDb], [KekStore]'s
    budget), two
    snapshots ([Seal]) or an arbitrary change made by others ([Mfa]).

    Recursion is structural or by well-founded recursion with [Equations] (the glob
    matcher, on the length of pattern and path), so nothing holds merely because a
    computation ran out. Four functions have fuel. [TransitDb.finish] runs a request
    without interference: it has the four phases the longest request has, and
    [run_alone_answers] shows that it always answers; likewise
    [PolicyConcurrency.run_phases], with the three of a policy request
    ([uninterrupted_handler]). [Federation.Mtls.parse_blocks]
    reads PEM blocks, each of which uses up input ([X509Laws]), and
    [AuthMethods.replace_all] replaces the occurrences of a pattern that is not empty:
    the length of the input bounds both ([parse_blocks_fuel], [replace_enough]).
    Integers keep their width where it matters: version counters wrap at [u32], share
    counts at [u8], the base32 buffer at [u16].

    ** What the theorems show

    - Authorisation and authentication: [evaluate] allows exactly when the declarative
      reading of the policies does and deny wins (C1); the glob matcher decides its
      specification (C4); with requests and rebuilds interleaved, decisions follow the
      stored documents from the first rebuild that begins after the last change of a
      policy (C8), while a change that overlaps a rebuild may be undone in the snapshot
      until the next ([rebuild_revives_deleted]); superuser authority comes only from a
      signed claim (C6).
    - Secrets: isolation of tenants (C2), stable reads (C16), one audit event and one
      permission per change over HTTP, though a confirmation's permission may be for
      another path (C19), what is written is read (C40), and how a rotation
      nobody confirms locks a secret (C36) and none ever becomes due (C35).
    - Keys: the budget of a data key (C3), no ciphertext is lost within a process (C9)
      nor, with two provisos, across restarts (C11; [rotation_is_not_durable]
      is one of them); no quorum, no key (C25); any quorum, the key (C26); transit under
      the policy engine's consent, on the caller's key alone (C29), and over shared
      tables (C28); certificates issued within their role, signed requests only in part
      (C22), and final revocation (C7).
    - Leases: the life cycle (C20), a well-formed table (C17) that refines the store in
      memory (C23), a sweep that catches up where nothing fails (C13). Leadership: at most one (C33).
    - Audit: what is recorded (C24), what reads back as intact (C14), what an intact log
      proves even where the table was tampered with while the service went on (C15), and that appends never fork a chain (C18).
    - Identity: the life of an API key (C27) and a way around it (C32); a token needs
      its second factor and carries the key's authority (C38), each factor used once
      (C39); signed tokens verify (C37) and tokens revoked for the first time do not
      (C31); an ID token of a provider is accepted only where the provider
      vouches for it (C30), and likewise for Azure, certificates, service accounts and
      directories, but not for AWS ([forged_aws_login]); an invitation is redeemed once
      (C12), for what it grants ([acceptance_mints_as_granted]); a new tenant is usable
      (C5), a deleted one's keys outlive it (C21); provisioned principals hold the
      policies of their groups (C10).
    - The operator: a policy it reports as synced is in force under the name its URL
      carries (C34), and what else its
      reconcilers do, whatever they are answered ([policy_reconcile_runs],
      [secret_reconcile_runs]).

    Some theorems state that the code does not do what it means to (C14 in part, C21,
    C32, C35, C36 and others without a number); each says so in its comment.

    ** What is assumed

    Code from other crates and other processes is a parameter, with the behaviour the
    proofs rely on as a named class or hypothesis: AES-GCM and base64 ([PrimitiveLaws],
    and [Authentic] where a forgery would matter), secret sharing ([SharingLaws]),
    digests and HMAC ([DigestLaws], [MacLaws], [TagLaws]), what chrono, JSON and the database do to
    a value ([PlatformLaws]), Ed25519 and JWT encoding ([SigningLaws]), case mapping
    ([CaseLaws]), date arithmetic ([add_seconds] and its law, [PkiLaws]), UUIDs and ids
    drawn ([Uuids], [IdLaws]), the certificate libraries ([PkiLibs],
    [X509Laws]), the checks of jsonwebtoken ([JwtLaws]), a directory ([LdapLaws]), error
    texts ([SqlText]), serde. The laws of the services' own interfaces ([LawfulBackend],
    [PolicyTable], [StoreLaws], [CryptoLaws], [PolicyService]) are not assumed but proved of their
    implementations. Each class of laws has a concrete instance, and every numbered
    theorem with hypotheses has a witness that applies it to concrete data.

    ** What is not modelled

    The mail the identity service sends; the exporters to other stores and the scheduler
    that runs them; the MCP server, the command line and the SDKs, which call the
    services modelled here and keep nothing the vault relies on. Left out of the services that are modelled: start-up and
    servers, health probes, metrics, logging, OpenAPI pages, and the rejection of
    malformed bodies by the HTTP framework. Row-level security does not apply to the
    owner the services connect as, so it is no filter here. *)

From Stdlib Require Import ZArith Lia Ascii String.
From stdpp Require Export base decidable list strings gmap sets.
From stdpp Require Import countable pretty.

#[global] Open Scope Z_scope.
#[global] Arguments String.append !_ _ / : simpl nomatch.

(** ** Results

    Rust's [Result<T, E>], with the error type first so that [result E] is a
    monad for stdpp's [x ← c; k] notation, which models the [?] operator. *)

Inductive result (E A : Type) : Type :=
| Ok (a : A)
| Err (e : E).
Arguments Ok {E A} _.
Arguments Err {E A} _.

#[global] Instance result_ret E : MRet (result E) := fun A => @Ok E A.
#[global] Instance result_bind E : MBind (result E) := fun A B f m =>
  match m with Ok a => f a | Err e => Err e end.
#[global] Instance result_fmap E : FMap (result E) := fun A B f m =>
  match m with Ok a => Ok (f a) | Err e => Err e end.

(** [Option::ok_or_else]. *)
Definition ok_or {E A} (o : option A) (e : E) : result E A :=
  match o with Some a => Ok a | None => Err e end.

(** [Result::ok]. *)
Definition result_ok {E A} (r : result E A) : option A :=
  match r with Ok a => Some a | Err _ => None end.

Definition is_ok {E A} (r : result E A) : bool :=
  match r with Ok _ => true | Err _ => false end.

#[global] Instance result_eq_dec {E A} `{!EqDecision E, !EqDecision A} :
  EqDecision (result E A).
Proof. solve_decision. Defined.

Lemma result_bind_ok {E A B} (m : result E A) (f : A -> result E B) b :
  (m ≫= f) = Ok b <-> exists a, m = Ok a /\ f a = Ok b.
Proof. destruct m; cbn; naive_solver. Qed.

Lemma result_bind_err {E A B} (m : result E A) (f : A -> result E B) e :
  (m ≫= f) = Err e <-> m = Err e \/ exists a, m = Ok a /\ f a = Err e.
Proof. destruct m; cbn; naive_solver. Qed.

(** A value with the equation that names it, for definitions by well-founded
    recursion. *)
Definition inspect {A} (a : A) : { b : A | a = b } := exist _ a eq_refl.

(** ** Machine integers

    An unsigned integer of width [w] is a [Z] in [0 .. 2^w); a cast or an
    addition in a release build wraps. *)

Definition wrap (w z : Z) : Z := z mod 2 ^ w.
Definition as_u8 : Z -> Z := wrap 8.
Definition as_u16 : Z -> Z := wrap 16.
Definition as_u32 : Z -> Z := wrap 32.

Lemma wrap_small w z : 0 <= z < 2 ^ w -> wrap w z = z.
Proof. apply Z.mod_small. Qed.

Lemma wrap_bounds w z : 0 <= w -> 0 <= wrap w z < 2 ^ w.
Proof. intros. apply Z.mod_pos_bound, Z.pow_pos_nonneg; lia. Qed.

(** The length of a vector or slice, as an integer. *)
Definition len {A} (l : list A) : Z := Z.of_nat (List.length l).

Lemma len_app {A} (l k : list A) : len (l ++ k) = len l + len k.
Proof. unfold len. rewrite length_app. lia. Qed.

Lemma len_nonneg {A} (l : list A) : 0 <= len l.
Proof. unfold len. lia. Qed.

(** A database column keeps whole microseconds, and the driver binds an instant
    as such from 2000-01-01. *)
Definition PG_EPOCH : Z := 946684800 * 10 ^ 9.
Definition timestamptz (ns : Z) : Z := PG_EPOCH + Z.quot (ns - PG_EPOCH) 1000 * 1000.

Lemma timestamptz_mono a b : a <= b -> timestamptz a <= timestamptz b.
Proof. intros Hab. unfold timestamptz. pose proof (Z.quot_le_mono (a - PG_EPOCH) (b - PG_EPOCH) 1000). lia. Qed.

Lemma timestamptz_idem a : timestamptz (timestamptz a) = timestamptz a.
Proof.
  unfold timestamptz. set (q := Z.quot (a - PG_EPOCH) 1000).
  replace (PG_EPOCH + q * 1000 - PG_EPOCH) with (q * 1000) by lia. by rewrite Z.quot_mul.
Qed.

(** A stored instant moved by whole seconds is still one. *)
Lemma timestamptz_shift a n : timestamptz (timestamptz a + n * 10 ^ 9) = timestamptz a + n * 10 ^ 9.
Proof.
  unfold timestamptz. set (q := Z.quot (a - PG_EPOCH) 1000).
  replace (PG_EPOCH + q * 1000 + n * 10 ^ 9 - PG_EPOCH) with ((q + n * 10 ^ 6) * 1000) by lia.
  rewrite Z.quot_mul by lia. lia.
Qed.

(** Binding an instant some seconds later than another keeps at most that distance. *)
Lemma timestamptz_later a n : 0 <= n -> timestamptz (a + n * 10 ^ 9) <= timestamptz a + n * 10 ^ 9.
Proof.
  intros Hn. unfold timestamptz. replace (a + n * 10 ^ 9 - PG_EPOCH) with (a - PG_EPOCH + n * 10 ^ 9) by lia.
  generalize (a - PG_EPOCH). intros x. Z.to_euclidean_division_equations. lia.
Qed.

(** ** Strings

    A Rust [str] is its UTF-8 byte sequence, one [ascii] per byte. The
    functions below are the [str] methods the sources call; each delimiter
    they search for is an ASCII character, so working on bytes and working on
    characters agree. *)

Module Str.

Definition is_empty (s : string) : bool := bool_decide (s = "").

(** [s.find(c)] followed by the slices [&s[..pos]] and [&s[pos + 1..]]. *)
Fixpoint split_once (c : ascii) (s : string) : option (string * string) :=
  match s with
  | EmptyString => None
  | String a s' =>
      if decide (a = c) then Some ("", s')
      else match split_once c s' with
           | Some (p, r) => Some (String a p, r)
           | None => None
           end
  end.

(** [s.split(c)]: never empty. *)
Fixpoint split (c : ascii) (s : string) : list string :=
  match s with
  | EmptyString => [""]
  | String a s' =>
      if decide (a = c) then "" :: split c s'
      else match split c s' with
           | h :: t => String a h :: t
           | [] => [String a ""]
           end
  end.

(** [parts.join(c)]. *)
Fixpoint join (c : ascii) (l : list string) : string :=
  match l with
  | [] => ""
  | [s] => s
  | s :: l' => s +:+ String c (join c l')
  end.

(** Whether a byte of [s] is [c]. *)
Fixpoint mem (c : ascii) (s : string) : bool :=
  match s with
  | EmptyString => false
  | String a s' => bool_decide (a = c) || mem c s'
  end.

Fixpoint rev_append (s acc : string) : string :=
  match s with
  | EmptyString => acc
  | String a s' => rev_append s' (String a acc)
  end.

Definition rev (s : string) : string := rev_append s "".

(** [s.trim_start_matches(c)] and [s.trim_matches(c)]. *)
Fixpoint trim_start (c : ascii) (s : string) : string :=
  match s with
  | EmptyString => ""
  | String a s' => if decide (a = c) then trim_start c s' else s
  end.

Definition trim_end (c : ascii) (s : string) : string := rev (trim_start c (rev s)).

Definition trim_matches (c : ascii) (s : string) : string := trim_end c (trim_start c s).

(** [s.strip_prefix(p)]. *)
Fixpoint strip_prefix (p s : string) : option string :=
  match p, s with
  | EmptyString, _ => Some s
  | String a p', String b s' => if decide (a = b) then strip_prefix p' s' else None
  | String _ _, EmptyString => None
  end.

Definition starts_with (p s : string) : bool :=
  match strip_prefix p s with Some _ => true | None => false end.

(** All suffixes, longest first: [s[start..]] for [start] in [0..=s.len()]. *)
Fixpoint suffixes (s : string) : list string :=
  match s with
  | EmptyString => [""]
  | String _ s' => s :: suffixes s'
  end.

Fixpoint map_ascii (f : ascii -> ascii) (s : string) : string :=
  match s with
  | EmptyString => ""
  | String a s' => String (f a) (map_ascii f s')
  end.

Fixpoint forallb (f : ascii -> bool) (s : string) : bool :=
  match s with
  | EmptyString => true
  | String a s' => f a && forallb f s'
  end.

Fixpoint filter (f : ascii -> bool) (s : string) : string :=
  match s with
  | EmptyString => ""
  | String a s' => if f a then String a (filter f s') else filter f s'
  end.

(** ASCII case mapping and white space. *)
Definition ascii_in (lo hi : nat) (a : ascii) : bool :=
  (lo <=? nat_of_ascii a)%nat && (nat_of_ascii a <=? hi)%nat.

Definition is_ascii_upper : ascii -> bool := ascii_in 65 90.
Definition is_ascii_lower : ascii -> bool := ascii_in 97 122.
Definition is_ascii_digit : ascii -> bool := ascii_in 48 57.
Definition is_ascii_alphanumeric (a : ascii) : bool :=
  is_ascii_upper a || is_ascii_lower a || is_ascii_digit a.

Definition to_lower_ascii (a : ascii) : ascii :=
  if is_ascii_upper a then ascii_of_nat (nat_of_ascii a + 32) else a.
Definition to_upper_ascii (a : ascii) : ascii :=
  if is_ascii_lower a then ascii_of_nat (nat_of_ascii a - 32) else a.

Definition to_ascii_lowercase : string -> string := map_ascii to_lower_ascii.
Definition to_ascii_uppercase : string -> string := map_ascii to_upper_ascii.

(** [char::is_whitespace], on the UTF-8 encoding of one, two and three bytes:
    U+0009..U+000D and U+0020; U+0085 and U+00A0; U+1680, U+2000..U+200A,
    U+2028, U+2029, U+202F, U+205F and U+3000. *)
Definition is_space (a : ascii) : bool := ascii_in 9 13 a || ascii_in 32 32 a.

Definition is_space2 (a b : ascii) : bool :=
  ascii_in 194 194 a && (ascii_in 133 133 b || ascii_in 160 160 b).

Definition is_space3 (a b c : ascii) : bool :=
  (ascii_in 225 225 a && ascii_in 154 154 b && ascii_in 128 128 c)
  || (ascii_in 226 226 a && ascii_in 128 128 b
      && (ascii_in 128 138 c || ascii_in 168 169 c || ascii_in 175 175 c))
  || (ascii_in 226 226 a && ascii_in 129 129 b && ascii_in 159 159 c)
  || (ascii_in 227 227 a && ascii_in 128 128 b && ascii_in 128 128 c).

(** Drop the leading white space; [sp2] and [sp3] recognise the characters of
    two and of three bytes in the order the bytes are met. *)
Fixpoint drop_space (sp2 : ascii -> ascii -> bool) (sp3 : ascii -> ascii -> ascii -> bool)
    (s : string) : string :=
  match s with
  | EmptyString => ""
  | String a s1 =>
      if is_space a then drop_space sp2 sp3 s1
      else match s1 with
           | EmptyString => s
           | String b s2 =>
               if sp2 a b then drop_space sp2 sp3 s2
               else match s2 with
                    | EmptyString => s
                    | String c s3 => if sp3 a b c then drop_space sp2 sp3 s3 else s
                    end
           end
  end.

Definition trim_start_space : string -> string := drop_space is_space2 is_space3.

Definition trim_end_space (s : string) : string :=
  rev (drop_space (fun b a => is_space2 a b) (fun c b a => is_space3 a b c) (rev s)).

(** [s.trim()]. *)
Definition trim (s : string) : string := trim_end_space (trim_start_space s).

(** An ASCII character other than white space. *)
Definition is_visible (a : ascii) : bool := negb (is_space a) && ascii_in 0 127 a.

(** The first character: a byte and its UTF-8 continuation bytes. *)
Fixpoint continuation (s : string) : string :=
  match s with
  | String a s' => if ascii_in 128 191 a then String a (continuation s') else ""
  | EmptyString => ""
  end.

Definition first_char (s : string) : string :=
  match s with String a s' => String a (continuation s') | EmptyString => "" end.

(** [String::from_utf8] accepts the byte vector. *)
Definition cont (a : ascii) : bool := ascii_in 128 191 a.

Fixpoint utf8_valid (s : string) : bool :=
  match s with
  | EmptyString => true
  | String a s1 =>
      if ascii_in 0 127 a then utf8_valid s1
      else match s1 with
      | EmptyString => false
      | String b s2 =>
          if ascii_in 194 223 a && cont b then utf8_valid s2
          else match s2 with
          | EmptyString => false
          | String c s3 =>
              if (ascii_in 224 224 a && ascii_in 160 191 b || ascii_in 225 236 a && cont b
                  || ascii_in 237 237 a && ascii_in 128 159 b || ascii_in 238 239 a && cont b)
                 && cont c
              then utf8_valid s3
              else match s3 with
              | EmptyString => false
              | String d s4 =>
                  (ascii_in 240 240 a && ascii_in 144 191 b || ascii_in 241 243 a && cont b
                   || ascii_in 244 244 a && ascii_in 128 143 b)
                  && cont c && cont d && utf8_valid s4
              end
          end
      end
  end.

(** [n] copies of [c]. *)
Fixpoint repeat (c : ascii) (n : nat) : string :=
  match n with O => "" | S n' => String c (repeat c n') end.

(** Neither starts nor ends with [c]. *)
Definition bare (c : ascii) (s : string) : Prop :=
  (forall t, s <> String c t) /\ (forall t, s <> t +:+ String c "").

(** *** Laws of the string functions *)

Lemma app_nil_r s : s +:+ "" = s.
Proof. induction s as [|a s IH]; cbn; [done|by rewrite IH]. Qed.

Lemma app_assoc s t u : s +:+ (t +:+ u) = (s +:+ t) +:+ u.
Proof. induction s as [|a s IH]; cbn; [done|by rewrite IH]. Qed.

Lemma length_app s t : String.length (s +:+ t) = (String.length s + String.length t)%nat.
Proof. induction s as [|a s IH]; cbn; [done|by rewrite IH]. Qed.

Lemma app_inv_head p s t : p +:+ s = p +:+ t -> s = t.
Proof. induction p; cbn; intros H; simplify_eq; auto. Qed.

Lemma split_once_Some c s p r :
  split_once c s = Some (p, r) <-> s = p +:+ String c r /\ mem c p = false.
Proof.
  revert p r. induction s as [|a s IH]; intros p r; cbn.
  - split; [done|]. intros [H _]. destruct p; discriminate.
  - destruct (decide (a = c)) as [->|Hne].
    + split; [intros [= <- <-]; done|]. intros [H Hm]. destruct p as [|b p]; cbn in *.
      * congruence.
      * injection H as <- _. rewrite bool_decide_true in Hm by done. discriminate.
    + split.
      * destruct (split_once c s) as [[p' r']|]; [|discriminate]. intros [= <- <-].
        destruct (proj1 (IH p' r') eq_refl) as [-> Hm]. cbn.
        rewrite bool_decide_false; auto.
      * intros [H Hm]. destruct p as [|b p]; cbn in *; [congruence|].
        injection H as <- ->. apply orb_false_elim in Hm as [_ Hm].
        rewrite (proj2 (IH p r) (conj eq_refl Hm)). done.
Qed.

Lemma split_once_None c s : split_once c s = None <-> mem c s = false.
Proof.
  induction s as [|a s IH]; cbn; [done|].
  destruct (decide (a = c)) as [->|Hne].
  - rewrite bool_decide_true by done. done.
  - rewrite bool_decide_false by done. cbn.
    destruct (split_once c s) as [[]|]; naive_solver.
Qed.

Lemma split_once_length c s p r :
  split_once c s = Some (p, r) -> (String.length r < String.length s)%nat.
Proof. intros [-> _]%split_once_Some. rewrite length_app. cbn. lia. Qed.

Lemma split_nonempty c s : split c s <> [].
Proof. destruct s; cbn; [done|]. case_decide; [done|]. by destruct (split c s). Qed.

Lemma join_cons c s l : l <> [] -> join c (s :: l) = s +:+ String c (join c l).
Proof. destruct l; done. Qed.

Lemma join_cons_char c a h t : join c (String a h :: t) = String a (join c (h :: t)).
Proof. destruct t; done. Qed.

Lemma join_split c s : join c (split c s) = s.
Proof.
  induction s as [|a s IH]; [done|]. cbn [split]. case_decide; subst.
  - rewrite join_cons by apply split_nonempty. cbn. by rewrite IH.
  - destruct (split c s) as [|h t] eqn:E; [by destruct (split_nonempty c s)|].
    rewrite join_cons_char. by rewrite IH.
Qed.

Lemma split_no_delim c s : Forall (fun p => mem c p = false) (split c s).
Proof.
  induction s as [|a s IH]; cbn; [by repeat constructor|].
  case_decide; [by constructor|].
  destruct (split c s) as [|h t]; inversion IH; subst; repeat constructor; auto.
  all: cbn; rewrite bool_decide_false by done; auto.
Qed.

Lemma mem_app c s t : mem c (s +:+ t) = mem c s || mem c t.
Proof. induction s; cbn; [done|]. rewrite IHs. by rewrite orb_assoc. Qed.

Lemma split_join c l :
  l <> [] -> Forall (fun p => mem c p = false) l -> split c (join c l) = l.
Proof.
  intros Hne Hl. induction Hl as [|p l Hp Hl IH]; [done|].
  assert (Hpre : forall u, mem c p = false -> split c (p +:+ String c u) = p :: split c u).
  { clear. intros u. induction p as [|a p IH]; cbn; intros Hp.
    - by rewrite decide_True.
    - apply orb_false_elim in Hp as [Ha Hp]. apply bool_decide_eq_false in Ha.
      rewrite decide_False by done. by rewrite IH. }
  destruct l as [|q l].
  - cbn. clear Hpre IH Hne. induction p as [|a p IH]; cbn in *; [done|].
    apply orb_false_elim in Hp as [Ha Hp]. apply bool_decide_eq_false in Ha.
    rewrite decide_False by done. by rewrite IH.
  - rewrite join_cons by done. rewrite Hpre by done. by rewrite IH.
Qed.

Lemma strip_prefix_Some p s r : strip_prefix p s = Some r <-> s = p +:+ r.
Proof.
  revert s. induction p as [|a p IH]; intros [|b s]; cbn; try naive_solver.
  case_decide; subst; [rewrite IH|]; naive_solver.
Qed.

Lemma starts_with_true p s : starts_with p s = true <-> exists r, s = p +:+ r.
Proof.
  unfold starts_with. split.
  - destruct (strip_prefix p s) eqn:E; [|done]. apply strip_prefix_Some in E. eauto.
  - intros [r H]. apply strip_prefix_Some in H. by rewrite H.
Qed.

Lemma elem_of_suffixes s t : t ∈ suffixes s <-> exists p, s = p +:+ t.
Proof.
  induction s as [|a s IH]; cbn.
  - rewrite list_elem_of_singleton. split; [intros ->; by exists ""|].
    intros [[|] H]; cbn in H; congruence.
  - rewrite elem_of_cons, IH. split.
    + intros [->|[p ->]]; [by exists ""|by exists (String a p)].
    + intros [[|b p] H]; cbn in H; [by left|]. injection H as _ H. right. eauto.
Qed.

Lemma rev_append_spec s acc : rev_append s acc = rev s +:+ acc.
Proof.
  unfold rev. revert acc. induction s as [|a s IH]; intros acc; cbn; [done|].
  rewrite IH, (IH (String a "")). by rewrite <- app_assoc.
Qed.

Lemma rev_cons a s : rev (String a s) = rev s +:+ String a "".
Proof. unfold rev at 1. cbn. by rewrite rev_append_spec. Qed.

Lemma rev_app s t : rev (s +:+ t) = rev t +:+ rev s.
Proof.
  induction s as [|a s IH]; [by rewrite app_nil_r|].
  change (String a s +:+ t) with (String a (s +:+ t)).
  by rewrite !rev_cons, IH, app_assoc.
Qed.

Lemma split_app c s t : split c (s +:+ String c t) = split c s ++ split c t.
Proof.
  induction s as [|a s IH]; cbn; [by rewrite decide_True|].
  case_decide; [by rewrite IH|]. rewrite IH.
  destruct (split c s) eqn:E; [by destruct (split_nonempty c s)|done].
Qed.

Lemma repeat_snoc c n : repeat c n +:+ String c "" = String c (repeat c n).
Proof. induction n; cbn; [done|]. by rewrite IHn. Qed.

Lemma rev_repeat c n : rev (repeat c n) = repeat c n.
Proof. induction n; [done|]. cbn [repeat]. by rewrite rev_cons, IHn, repeat_snoc. Qed.

Lemma trim_start_decompose c s : exists n, s = repeat c n +:+ trim_start c s.
Proof.
  induction s as [|a s [n IH]]; [by exists 0%nat|]. cbn. case_decide; subst.
  - exists (S n). cbn. by rewrite <- IH.
  - by exists 0%nat.
Qed.

Lemma trim_start_repeat c n s : (forall t, s <> String c t) -> trim_start c (repeat c n +:+ s) = s.
Proof.
  intros Hs. induction n; cbn; [|by rewrite decide_True].
  destruct s as [|a s]; [done|]. cbn. rewrite decide_False; [done|]. intros ->. by apply (Hs s).
Qed.

Lemma rev_involutive s : rev (rev s) = s.
Proof. induction s as [|a s IH]; [done|]. by rewrite rev_cons, rev_app, IH. Qed.

Lemma visible_not_space a b c :
  is_visible a = true ->
  is_space a = false /\ is_space2 a b = false /\ is_space2 b a = false /\
  is_space3 a b c = false /\ is_space3 c b a = false.
Proof.
  unfold is_visible, is_space2, is_space3, ascii_in. intros [Hs Ha]%andb_prop.
  apply negb_true_iff in Hs. apply andb_prop in Ha as [_ Ha]. apply Nat.leb_le in Ha.
  assert (forall n, 127 < n -> (n <=? nat_of_ascii a)%nat = false)%nat as Hn
    by (intros; apply Nat.leb_gt; lia).
  rewrite !Hn by lia. rewrite !andb_false_r. done.
Qed.

Lemma drop_space_id sp2 sp3 s :
  (forall a b c, is_visible a = true -> sp2 a b = false /\ sp3 a b c = false) ->
  forallb is_visible s = true -> drop_space sp2 sp3 s = s.
Proof.
  intros Hsp. destruct s as [|a s]; cbn; [done|]. intros [Ha _]%andb_prop.
  destruct (visible_not_space a a a Ha) as [-> _].
  destruct s as [|b s]; [done|]. rewrite (proj1 (Hsp a b a Ha)).
  destruct s as [|c s]; [done|]. by rewrite (proj2 (Hsp a b c Ha)).
Qed.

Lemma forallb_app f s t : forallb f (s +:+ t) = forallb f s && forallb f t.
Proof. induction s as [|a s IH]; cbn; [done|]. by rewrite IH, andb_assoc. Qed.

Lemma forallb_rev f s : forallb f (rev s) = forallb f s.
Proof.
  induction s as [|a s IH]; [done|]. rewrite rev_cons, forallb_app, IH. cbn.
  by rewrite andb_true_r, andb_comm.
Qed.

Lemma trim_id s : forallb is_visible s = true -> trim s = s.
Proof.
  intros Hs. unfold trim, trim_end_space, trim_start_space.
  rewrite (drop_space_id is_space2 is_space3 s), drop_space_id; rewrite ?forallb_rev; auto.
  1: apply rev_involutive.
  all: intros a b c Ha; pose proof (visible_not_space a b c Ha); tauto.
Qed.

Lemma mem_rev c s : mem c (rev s) = mem c s.
Proof.
  induction s as [|a s IH]; [done|]. rewrite rev_cons, mem_app, IH. cbn [mem].
  by rewrite orb_false_r, orb_comm.
Qed.

Lemma drop_space_mem c sp2 sp3 s :
  is_space c = false -> (forall a b, sp2 a b = true -> a <> c /\ b <> c) ->
  (forall a b d, sp3 a b d = true -> a <> c /\ b <> c /\ d <> c) ->
  mem c (drop_space sp2 sp3 s) = mem c s.
Proof.
  intros H1 H2 H3. induction s as [s IH] using (induction_ltof1 _ String.length).
  unfold ltof in IH. destruct s as [|a s]; [done|]. cbn [drop_space].
  destruct (is_space a) eqn:Ha.
  { rewrite IH by (cbn; lia). cbn [mem]. by rewrite bool_decide_false by congruence. }
  destruct s as [|b s]; [done|]. destruct (sp2 a b) eqn:Hab.
  { destruct (H2 _ _ Hab). rewrite IH by (cbn; lia). cbn [mem]. by rewrite !bool_decide_false. }
  destruct s as [|d s]; [done|]. destruct (sp3 a b d) eqn:Hd; [|done].
  destruct (H3 _ _ _ Hd) as (? & ? & ?). rewrite IH by (cbn; lia). cbn [mem].
  by rewrite !bool_decide_false.
Qed.

(** Trimming removes no NUL. *)
Lemma mem_nul_trim s : mem "000" (trim s) = mem "000" s.
Proof.
  assert (H2 : forall a b, is_space2 a b = true -> a <> "000"%char /\ b <> "000"%char).
  { intros a b Hab. split; intros ->; [done|]. revert Hab. unfold is_space2.
    change (ascii_in _ _ "000") with false. by rewrite ?andb_false_r. }
  assert (H3 : forall a b d, is_space3 a b d = true ->
                a <> "000"%char /\ b <> "000"%char /\ d <> "000"%char).
  { intros a b d Hab. split_and!; intros ->; [done| |]; revert Hab; unfold is_space3;
      repeat change (ascii_in _ _ "000") with false; by rewrite ?andb_false_r. }
  unfold trim, trim_end_space, trim_start_space. rewrite mem_rev, drop_space_mem, mem_rev; [|done| |].
  - by apply drop_space_mem.
  - intros a b Hab. destruct (H2 _ _ Hab). by split.
  - intros a b d Hab. destruct (H3 _ _ _ Hab) as (? & ? & ?). by split_and!.
Qed.

Lemma trim_matches_decompose c s :
  exists m n, s = repeat c m +:+ trim_matches c s +:+ repeat c n.
Proof.
  destruct (trim_start_decompose c s) as [m Hm].
  destruct (trim_start_decompose c (rev (trim_start c s))) as [n Hn].
  exists m, n. rewrite Hm at 1. f_equal. unfold trim_matches, trim_end.
  rewrite <- (rev_involutive (trim_start c s)) at 1. rewrite Hn at 1.
  by rewrite rev_app, rev_repeat.
Qed.

Lemma trim_matches_bare c m n s :
  s <> "" -> bare c s -> trim_matches c (repeat c m +:+ s +:+ repeat c n) = s.
Proof.
  intros Hne [Hl Hr]. unfold trim_matches, trim_end. rewrite trim_start_repeat.
  - rewrite rev_app, rev_repeat, trim_start_repeat; [by rewrite rev_involutive|].
    intros t Ht. apply (Hr (rev t)). rewrite <- (rev_involutive s), Ht. by rewrite rev_cons.
  - intros t Ht. destruct s as [|a s]; [done|]. injection Ht as -> _. by apply (Hl s).
Qed.

End Str.

(** ** Decimal integers

    [u32::from_str] accepts an optional plus sign and at least one digit, and
    refuses a value that does not fit; [Display] prints the digits. *)

Module Dec.

Definition U32_MAX : N := 4294967295.

Definition digit (a : ascii) : option N :=
  if Str.is_ascii_digit a then Some (N.of_nat (nat_of_ascii a - 48)) else None.

Fixpoint parse_digits (acc : N) (s : string) : option N :=
  match s with
  | EmptyString => Some acc
  | String a s' =>
      d ← digit a;
      let acc' := (acc * 10 + d)%N in
      if (acc' <=? U32_MAX)%N then parse_digits acc' s' else None
  end.

Definition parse_u32 (s : string) : option N :=
  let digits := match s with String "+" s' => s' | _ => s end in
  if Str.is_empty digits then None else parse_digits 0 digits.

Definition is_digits (s : string) : bool := Str.forallb Str.is_ascii_digit s.

Lemma pretty_char_digit (x : N) : (x < 10)%N -> digit (pretty_N_char x) = Some x.
Proof.
  intros Hx. assert (x ∈ [0; 1; 2; 3; 4; 5; 6; 7; 8; 9]%N) as Hin.
  { rewrite !elem_of_cons. lia. }
  rewrite !elem_of_cons in Hin.
  destruct Hin as [->|[->|[->|[->|[->|[->|[->|[->|[->|[->|Hin]]]]]]]]]]; try reflexivity.
  by apply not_elem_of_nil in Hin.
Qed.

Lemma digit_is_digit a d : digit a = Some d -> Str.is_ascii_digit a = true.
Proof. unfold digit. by destruct (Str.is_ascii_digit a). Qed.

Lemma pretty_go_digits (x : N) s : is_digits s = true -> is_digits (pretty_N_go x s) = true.
Proof.
  revert s. induction (N.lt_wf_0 x) as [x _ IH]; intros s Hs.
  destruct (decide (x = 0)%N) as [->|Hne]; [by rewrite pretty_N_go_0|].
  rewrite pretty_N_go_step by lia. apply IH; [apply N.div_lt; lia|]. cbn.
  rewrite (digit_is_digit _ _ (pretty_char_digit (x mod 10) (N.mod_lt x 10 ltac:(lia)))).
  done.
Qed.

Lemma parse_pretty_go (x : N) s :
  (0 < x <= U32_MAX)%N -> parse_digits 0 (pretty_N_go x s) = parse_digits x s.
Proof.
  revert s. induction (N.lt_wf_0 x) as [x _ IH]; intros s Hx.
  rewrite pretty_N_go_step by lia.
  assert (Hmod : (x mod 10 < 10)%N) by (apply N.mod_lt; lia).
  pose proof (N.div_mod x 10 ltac:(lia)) as Hdm.
  assert (Hstep : forall acc, acc = (x / 10)%N ->
    parse_digits acc (String (pretty_N_char (x mod 10)) s) = parse_digits x s).
  { intros acc ->. cbn [parse_digits]. rewrite (pretty_char_digit _ Hmod). cbn.
    replace (x / 10 * 10 + x mod 10)%N with x by lia.
    by rewrite (proj2 (N.leb_le x U32_MAX)) by lia. }
  destruct (decide (x / 10 = 0)%N) as [Hz|Hnz].
  - rewrite Hz, pretty_N_go_0. by apply Hstep.
  - rewrite IH; [by apply Hstep|apply N.div_lt; lia|].
    split; [lia|]. pose proof (N.div_lt x 10 ltac:(lia) ltac:(lia)). lia.
Qed.

Lemma pretty_digits (x : N) : is_digits (pretty x) = true /\ pretty x <> "".
Proof.
  unfold pretty, pretty_N. case_decide as Hx; [done|]. split; [by apply pretty_go_digits|].
  rewrite pretty_N_go_step by lia. intros He.
  assert (Hlen : forall y s, (String.length s <= String.length (pretty_N_go y s))%nat).
  { clear. intros y. induction (N.lt_wf_0 y) as [y _ IH]; intros s.
    destruct (decide (y = 0)%N) as [->|Hne]; [by rewrite pretty_N_go_0|].
    rewrite pretty_N_go_step by lia. etrans; [|apply IH, N.div_lt; lia]. cbn. lia. }
  pose proof (Hlen (x / 10)%N (String (pretty_N_char (x mod 10)) "")) as H. rewrite He in H.
  cbn in H. lia.
Qed.

Lemma parse_u32_pretty (x : N) : (x <= U32_MAX)%N -> parse_u32 (pretty x) = Some x.
Proof.
  intros Hx. destruct (pretty_digits x) as [Hd Hne]. unfold parse_u32.
  assert (Hm : match pretty x with String "+" s' => s' | _ => pretty x end = pretty x).
  { destruct (pretty x) as [|a s]; [done|]. cbn in Hd. apply andb_true_iff in Hd as [Ha _].
    by destruct a as [[] [] [] [] [] [] [] []]. }
  rewrite Hm. unfold Str.is_empty. rewrite bool_decide_false by done.
  unfold pretty, pretty_N in *. case_decide as Hz; [by subst|].
  rewrite parse_pretty_go by lia. done.
Qed.

Lemma digits_no_char c s : Str.is_ascii_digit c = false -> is_digits s = true -> Str.mem c s = false.
Proof.
  intros Hc. induction s as [|a s IH]; cbn; [done|]. intros [Ha Hs]%andb_true_iff.
  rewrite bool_decide_false by (intros ->; congruence). by apply IH.
Qed.

End Dec.

(** ** Automation

    [res_case] splits on the next [match], [if] or [decide] of the goal or of a
    hypothesis and cleans up; [res_inv] turns an equation between results or
    options into equations between their contents. *)

Ltac res_inv := repeat match goal with
  | H : Ok _ = Ok _ |- _ => injection H as H; subst
  | H : Err _ = Err _ |- _ => injection H as H; subst
  | H : Ok _ = Err _ |- _ => discriminate H
  | H : Err _ = Ok _ |- _ => discriminate H
  | H : Some _ = Some _ |- _ => injection H as H; subst
  | H : Some _ = None |- _ => discriminate H
  | H : None = Some _ |- _ => discriminate H
  | H : (_, _) = (_, _) |- _ => injection H as H
  end; simplify_eq.

Ltac res_case := repeat (case_match; try discriminate; res_inv).

(** Boolean guards to propositions. *)
Ltac bools := repeat match goal with
  | H : _ && _ = true |- _ => apply andb_true_iff in H as [? ?]
  | H : _ || _ = false |- _ => apply orb_false_iff in H as [? ?]
  | H : negb _ = true |- _ => apply negb_true_iff in H
  | H : negb _ = false |- _ => apply negb_false_iff in H
  | H : bool_decide _ = true |- _ => apply bool_decide_eq_true in H
  | H : bool_decide _ = false |- _ => apply bool_decide_eq_false in H
  end.

Create HintDb vault.
Create Rewrite HintDb vault.
#[export] Hint Rewrite @len_app Str.app_nil_r Str.length_app : vault.
#[export] Hint Resolve len_nonneg Str.split_nonempty : vault.

(** ** Tables that only grow

    What a table keyed by text may become when entries appear with [Q], change
    along [P] and never disappear. *)

Section Moves.
Context {A : Type} (Q : string -> A -> Prop) (P : relation A).

Definition moves (m m' : gmap string A) : Prop :=
  forall id, match m !! id, m' !! id with
             | Some r, Some r' => P r r'
             | Some _, None => False
             | None, Some r' => Q id r'
             | None, None => True
             end.

Lemma moves_refl `{!Reflexive P} m : moves m m.
Proof. intros id. by destruct (m !! id). Qed.

Lemma moves_insert `{!Reflexive P} m id r r' : m !! id = Some r -> P r r' -> moves m (<[id := r']> m).
Proof.
  intros Hr HP id'. destruct (decide (id = id')) as [<-|Hne].
  - by rewrite Hr, lookup_insert_eq.
  - rewrite lookup_insert_ne by done. by destruct (m !! id').
Qed.

Lemma moves_fresh `{!Reflexive P} m id r' : m !! id = None -> Q id r' -> moves m (<[id := r']> m).
Proof.
  intros Hr HQ id'. destruct (decide (id = id')) as [<-|Hne]; [by rewrite Hr, lookup_insert_eq|].
  rewrite lookup_insert_ne by done. by destruct (m !! id').
Qed.

End Moves.

#[export] Hint Resolve moves_refl moves_insert moves_fresh : vault.
