(* ===== verification/Errors.v ===== *)
(** * The error hierarchy

    [VaultError] of [crates/wslvault-core/src/error.rs] with the codes and HTTP
    statuses the services answer with. *)

From stdpp Require Import pretty.
From S2P Require Import Prelude.

Inductive VaultError :=
| Sealed
| Unauthenticated (reason : string)
| PermissionDenied (resource reason : string)
| SecretNotFound (path : string) (version : option Z)
| TenantNotFound (tenant_id : string)
| KeyNotFound (key_id : string)
| LeaseNotFound (lease_id : string)
| EncryptionFailed (reason : string)
| DecryptionFailed
| KeyRotationFailed (reason : string)
| InvalidPath (path reason : string)
| CasConflict (expected actual : Z)
| VersionDestroyed (version : Z)
| ValidationError (field reason : string)
| InvalidOperation (reason : string)
| QuotaExceeded (reason : string)
| Database (reason : string)
| Storage (reason : string)
| ServiceUnavailable (service : string)
| LeaseExpired (lease_id : string)
| UnsupportedOperation (engine_type operation : string)
| Internal (reason : string)
| Other (reason : string).

#[global] Instance VaultError_eq_dec : EqDecision VaultError.
Proof. solve_decision. Defined.

Definition code (e : VaultError) : string :=
  match e with
  | Sealed => "sealed"
  | Unauthenticated _ => "unauthenticated"
  | PermissionDenied _ _ => "permission_denied"
  | SecretNotFound _ _ | TenantNotFound _ | KeyNotFound _ | LeaseNotFound _ => "not_found"
  | EncryptionFailed _ => "encryption_failed"
  | DecryptionFailed => "decryption_failed"
  | KeyRotationFailed _ => "key_rotation_failed"
  | InvalidPath _ _ => "invalid_path"
  | CasConflict _ _ => "cas_conflict"
  | VersionDestroyed _ => "version_destroyed"
  | ValidationError _ _ => "validation_error"
  | InvalidOperation _ => "invalid_operation"
  | QuotaExceeded _ => "quota_exceeded"
  | Database _ => "database_error"
  | Storage _ => "storage_error"
  | ServiceUnavailable _ => "service_unavailable"
  | LeaseExpired _ => "lease_expired"
  | UnsupportedOperation _ _ => "unsupported_operation"
  | Internal _ | Other _ => "internal_error"
  end.

Definition http_status (e : VaultError) : Z :=
  match e with
  | Sealed => 503
  | Unauthenticated _ => 401
  | PermissionDenied _ _ => 403
  | SecretNotFound _ _ | TenantNotFound _ | KeyNotFound _ | LeaseNotFound _ => 404
  | CasConflict _ _ => 409
  | VersionDestroyed _ => 410
  | QuotaExceeded _ => 429
  | ValidationError _ _ | InvalidPath _ _ | InvalidOperation _ => 400
  | ServiceUnavailable _ => 503
  | LeaseExpired _ => 403
  | _ => 500
  end.

Abbreviation vresult := (result VaultError).

(** [Display], as derived by thiserror. [debug_str] is Rust's [Debug] of a
    string, which quotes and escapes it. *)
Definition debug_version (v : option Z) : string :=
  match v with Some n => "Some(" +:+ pretty n +:+ ")" | None => "None" end.

Definition display (debug_str : string -> string) (e : VaultError) : string :=
  match e with
  | Sealed => "vault is sealed"
  | Unauthenticated reason => "authentication required: " +:+ reason
  | PermissionDenied resource reason => "permission denied on " +:+ resource +:+ ": " +:+ reason
  | SecretNotFound path version =>
      "secret not found at path " +:+ debug_str path +:+ " (version " +:+ debug_version version
      +:+ ")"
  | TenantNotFound tenant_id => "tenant not found: " +:+ tenant_id
  | KeyNotFound key_id => "key not found: " +:+ key_id
  | LeaseNotFound lease_id => "lease not found: " +:+ lease_id
  | EncryptionFailed reason => "encryption failed: " +:+ reason
  | DecryptionFailed => "decryption failed: invalid ciphertext or key"
  | KeyRotationFailed reason => "key rotation failed: " +:+ reason
  | InvalidPath path reason => "invalid path " +:+ debug_str path +:+ ": " +:+ reason
  | CasConflict expected actual =>
      "check-and-set conflict: expected version " +:+ pretty expected +:+ ", got " +:+ pretty actual
  | VersionDestroyed version => "secret version " +:+ pretty version +:+ " has been destroyed"
  | ValidationError field reason => "validation error: " +:+ field +:+ ": " +:+ reason
  | InvalidOperation reason => "invalid operation: " +:+ reason
  | QuotaExceeded reason => "quota exceeded: " +:+ reason
  | Database reason => "database error: " +:+ reason
  | Storage reason => "storage error: " +:+ reason
  | ServiceUnavailable service => "upstream service unavailable: " +:+ service
  | LeaseExpired lease_id => "lease expired: " +:+ lease_id
  | UnsupportedOperation engine_type operation =>
      "operation not supported by engine " +:+ engine_type +:+ ": " +:+ operation
  | Internal reason => "internal error: " +:+ reason
  | Other reason => reason
  end.
