(* ===== verification/Json.v ===== *)
(** * JSON values

    [serde_json::Value] and the accessors the services call on it. Parsing and
    printing are the library's and stay parameters where they are used. *)

From S2P Require Import Prelude.

#[local] Set Warnings "-register-all".

(** A [serde_json::Value]: a number is an integer that fits [i64] or [u64], or a
    double, which no code modelled here computes with. *)
Inductive Json :=
| JNull
| JBool (b : bool)
| JInt (n : Z)
| JFloat (repr : string)
| JStr (s : string)
| JArr (l : list Json)
| JObj (fields : list (string * Json)).

(** [value.get(k)] and [value[k]], which is null when the field is missing. *)
Fixpoint assoc {A} (k : string) (l : list (string * A)) : option A :=
  match l with
  | [] => None
  | (k', a) :: l' => if decide (k = k') then Some a else assoc k l'
  end.

Definition get_field (v : Json) (k : string) : option Json :=
  match v with JObj fields => assoc k fields | _ => None end.

Definition field (v : Json) (k : string) : Json := default JNull (get_field v k).

Definition as_str (v : Json) : option string := match v with JStr s => Some s | _ => None end.
Definition as_i64 (v : Json) : option Z :=
  match v with JInt n => if n <=? 2 ^ 63 - 1 then Some n else None | _ => None end.
Definition is_null (v : Json) : bool := match v with JNull => true | _ => false end.

(** [serde_json::from_value::<Vec<String>>(v).unwrap_or_default()]. *)
Definition string_list (v : Json) : list string :=
  match v with JArr l => default [] (mapM as_str l) | _ => [] end.
