(* ===== verification/Effects.v ===== *)
(** * Stateful computations that can fail

    The methods of a service that await locks, a database and a random source
    are written in one monad: a computation takes the state and returns a
    [result] together with the state it leaves. What a computation changed before
    it failed stays changed, as in the sources, where [?] returns and nothing is
    rolled back.

    [stable R m] says that running [m], whatever its outcome, moves the state
    along the preorder [R]; [triple] is the usual judgement about a successful
    and a failing outcome. The lemmas below let both be proved by following the
    text of the computation. *)

From S2P Require Import Prelude.

Definition eff (S E A : Type) : Type := S -> result E A * S.

Section Eff.
Context {S E : Type}.

#[global] Instance eff_ret : MRet (eff S E) := fun A a s => (Ok a, s).
#[global] Instance eff_bind : MBind (eff S E) := fun A B f m s =>
  match m s with
  | (Ok a, s') => f a s'
  | (Err e, s') => (Err e, s')
  end.
#[global] Instance eff_fmap : FMap (eff S E) := fun A B f m s =>
  match m s with
  | (Ok a, s') => (Ok (f a), s')
  | (Err e, s') => (Err e, s')
  end.

Definition throw {A} (e : E) : eff S E A := fun s => (Err e, s).
Definition gets {A} (f : S -> A) : eff S E A := fun s => (Ok (f s), s).
Definition modify (f : S -> S) : eff S E () := fun s => (Ok tt, f s).
Definition lift {A} (r : result E A) : eff S E A := fun s => (r, s).

(** [match m.await { Ok(..) => .., Err(e) => .. }] *)
Definition attempt {A} (m : eff S E A) : eff S E (result E A) := fun s =>
  let '(r, s') := m s in (Ok r, s').

(** [m.map_err(f)] *)
Definition map_err {A} (f : E -> E) (m : eff S E A) : eff S E A := fun s =>
  match m s with
  | (Ok a, s') => (Ok a, s')
  | (Err e, s') => (Err (f e), s')
  end.

Definition when (b : bool) (m : eff S E ()) : eff S E () := if b then m else mret tt.

(** ** Running a computation *)

Lemma run_bind {A B} (m : eff S E A) (f : A -> eff S E B) s :
  (m ≫= f) s = match m s with (Ok a, s') => f a s' | (Err e, s') => (Err e, s') end.
Proof. done. Qed.

Lemma run_lift_bind {A B} (r : result E A) (f : A -> eff S E B) s :
  (lift r ≫= f) s = match r with Ok a => f a s | Err e => (Err e, s) end.
Proof. done. Qed.

Lemma bind_ok {A B} (m : eff S E A) (f : A -> eff S E B) s b s' :
  (m ≫= f) s = (Ok b, s') <-> exists a s1, m s = (Ok a, s1) /\ f a s1 = (Ok b, s').
Proof.
  rewrite run_bind. destruct (m s) as [[a|e] s1]; split.
  - intros Hf. by exists a, s1.
  - intros (a' & s2 & [= -> ->] & Hf). exact Hf.
  - discriminate.
  - intros (a' & s2 & [=] & _).
Qed.

(** ** What a computation can do to the state *)

Definition stable (R : relation S) {A} (m : eff S E A) : Prop := forall s, R s (m s).2.

Definition triple {A} (P : S -> Prop) (m : eff S E A) (Q : A -> S -> Prop) (X : E -> S -> Prop) : Prop :=
  forall s, P s -> match m s with (Ok a, s') => Q a s' | (Err e, s') => X e s' end.

Section Stable.
Context (R : relation S) `{!PreOrder R}.

Lemma stable_ret {A} (a : A) : stable R (mret a : eff S E A).
Proof. intros s. reflexivity. Qed.

Lemma stable_throw {A} (e : E) : stable R (throw e : eff S E A).
Proof. intros s. reflexivity. Qed.

Lemma stable_gets {A} (f : S -> A) : stable R (gets f : eff S E A).
Proof. intros s. reflexivity. Qed.

Lemma stable_lift {A} (r : result E A) : stable R (lift r : eff S E A).
Proof. intros s. reflexivity. Qed.

Lemma stable_bind {A B} (m : eff S E A) (f : A -> eff S E B) :
  stable R m -> (forall a, stable R (f a)) -> stable R (m ≫= f).
Proof.
  intros Hm Hf s. specialize (Hm s). rewrite run_bind.
  destruct (m s) as [[a|e] s1]; [|exact Hm]. etransitivity; [exact Hm|apply Hf].
Qed.

Lemma stable_attempt {A} (m : eff S E A) : stable R m -> stable R (attempt m).
Proof. intros Hm s. unfold attempt. specialize (Hm s). by destruct (m s). Qed.

Lemma stable_map_err {A} f (m : eff S E A) : stable R m -> stable R (map_err f m).
Proof. intros Hm s. unfold map_err. specialize (Hm s). by destruct (m s) as [[|]]. Qed.

Lemma stable_when b (m : eff S E ()) : stable R m -> stable R (when b m).
Proof. destruct b; [done|]. intros _. apply stable_ret. Qed.

Lemma stable_modify (f : S -> S) : (forall s, R s (f s)) -> stable R (modify f : eff S E ()).
Proof. intros Hf s. apply Hf. Qed.

End Stable.

Section Triple.
Implicit Types P : S -> Prop.

Lemma triple_ret {A} (a : A) P : triple P (mret a) (fun b s => b = a /\ P s) (fun _ _ => False).
Proof. intros s HP. by split. Qed.

Lemma triple_bind {A B} P (m : eff S E A) (f : A -> eff S E B) Q1 Q X :
  triple P m Q1 X -> (forall a, triple (Q1 a) (f a) Q X) -> triple P (m ≫= f) Q X.
Proof.
  intros Hm Hf s HP. specialize (Hm s HP). rewrite run_bind.
  destruct (m s) as [[a|e] s1]; [by apply Hf|exact Hm].
Qed.

Lemma triple_weaken {A} P P' (m : eff S E A) Q Q' X X' :
  triple P' m Q' X' -> (forall s, P s -> P' s) -> (forall a s, Q' a s -> Q a s) ->
  (forall e s, X' e s -> X e s) -> triple P m Q X.
Proof.
  intros Hm HP HQ HX s Hs. specialize (Hm s (HP s Hs)). destruct (m s) as [[a|e] s1]; auto.
Qed.

End Triple.
End Eff.

Create HintDb effects.
#[export] Hint Resolve stable_ret stable_throw stable_gets stable_lift stable_attempt
  stable_map_err stable_when : effects.

(** Follows the text of a computation, leaving the primitive updates. *)
Ltac stable_auto :=
  repeat match goal with
    | |- forall _, stable _ _ => intros ?
    | |- stable _ _ => solve [eauto 2 with effects typeclass_instances]
    | |- stable _ (mbind _ _) => apply stable_bind; [typeclasses eauto| |]
    | |- stable _ (attempt _) => apply stable_attempt
    | |- stable _ (map_err _ _) => apply stable_map_err
    | |- stable _ (when _ _) => apply stable_when; [typeclasses eauto|]
    | |- stable _ (match ?x with _ => _ end) => destruct x
    end.
