(* ===== verification/Policy.v ===== *)
(** * Policy model and evaluator of the policy engine

    [Module Model] is [services/policy-engine/src/model.rs]; [Module Glob] is the
    path matcher and [Module Evaluator] the decision procedure of
    [services/policy-engine/src/evaluator.rs]. The matcher is related to a
    declarative semantics on segment lists and the decision procedure to a
    declarative allow relation. *)

From Stdlib Require Import Lia Ascii.
From Equations Require Import Equations.
From S2P Require Import Prelude.

(** ** Domain types *)

Module Model.

Inductive Capability :=
| Read | Write | Delete | List | Create | Update | Deny.

#[global] Instance Capability_eq_dec : EqDecision Capability.
Proof. solve_decision. Defined.

Definition capability_code (c : Capability) : nat :=
  match c with
  | Read => 0 | Write => 1 | Delete => 2 | List => 3 | Create => 4 | Update => 5 | Deny => 6
  end%nat.

Definition capability_decode (n : nat) : Capability :=
  match n with
  | 0 => Read | 1 => Write | 2 => Delete | 3 => List | 4 => Create | 5 => Update | _ => Deny
  end%nat.

#[global] Instance Capability_countable : Countable Capability.
Proof. refine (inj_countable' capability_code capability_decode _). by intros []. Defined.

Record PolicyRule := {
  paths : list string;
  capabilities : gset Capability;
}.

Record PolicyDocument := {
  name : string;
  rules : list PolicyRule;
}.

Inductive PolicyDecision :=
| Allow
| Denied (reason : string).

#[global] Instance PolicyDecision_eq_dec : EqDecision PolicyDecision.
Proof. solve_decision. Defined.

(** The verb table shared by [from_action] and the request parsers. *)
Definition capability_of_verb (verb : string) : option Capability :=
  if decide (verb = "read") then Some Read
  else if decide (verb = "write") then Some Write
  else if decide (verb = "delete") then Some Delete
  else if decide (verb = "list") then Some List
  else if decide (verb = "create") then Some Create
  else if decide (verb = "update") then Some Update
  else if decide (verb = "deny") then Some Deny
  else None.

(** [action.split(':').next_back()] is the part after the last colon. *)
Definition from_action (action : string) : option Capability :=
  capability_of_verb (default action (last (Str.split ":"%char action))).

End Model.

(** ** Path patterns *)

Module Glob.

(** [segment_match] after its [pattern == "*"] shortcut: the character loop. A
    [*] collects the rest of the pattern and tries it on every suffix of what
    is left of the segment. *)
Fixpoint segment_loop (pattern segment : string) : bool :=
  match pattern with
  | EmptyString => Str.is_empty segment
  | String p rest =>
      if decide (p = "*"%char) then
        existsb (fun suffix => bool_decide (rest = "*") || segment_loop rest suffix)
                (Str.suffixes segment)
      else match segment with
           | String s segment' => if decide (s = p) then segment_loop rest segment' else false
           | EmptyString => false
           end
  end.

Definition segment_match (pattern segment : string) : bool :=
  bool_decide (pattern = "*") || segment_loop pattern segment.

(** The [loop] of the [**] case: drop one path segment at a time and retry; when
    no slash is left, try the empty path and stop. *)
Equations? consume_segments (try_rest : string -> bool) (remaining : string) : bool
  by wf (String.length remaining) lt :=
consume_segments try_rest remaining with inspect (Str.split_once "/" remaining) => {
  | exist _ (Some (_, after)) _ := try_rest after || consume_segments try_rest after;
  | exist _ None _ := try_rest "" }.
Proof. by eapply Str.split_once_length. Qed.

(** [match s.find('/')]: the first segment and the rest, which is empty when
    there is no slash. *)
Definition first_segment (s : string) : string * string :=
  match Str.split_once "/" s with
  | Some (seg, rest) => (seg, rest)
  | None => (s, "")
  end.

(** [if pattern == "**" { "" } else { &pattern[3..] }], on a pattern that is
    [**] or starts with [**/]. *)
Definition double_star_rest (pattern : string) : option string :=
  if decide (pattern = "**") then Some "" else Str.strip_prefix "**/" pattern.

Equations? glob_match_recursive (pattern path : string) : bool
  by wf (String.length pattern) lt :=
glob_match_recursive pattern path with inspect (Str.is_empty pattern) => {
  | exist _ true _ := Str.is_empty path;
  | exist _ false Hne with inspect (double_star_rest pattern) => {
    | exist _ (Some rest_pattern) Hstar :=
        glob_match_recursive rest_pattern path
        || consume_segments (fun remaining => glob_match_recursive rest_pattern remaining) path;
    | exist _ None _ with inspect (first_segment pattern) => {
      | exist _ (pattern_segment, pattern_rest) Hseg with first_segment path => {
        | (path_segment, path_rest) :=
          if negb (segment_match pattern_segment path_segment) then false
          else if Str.is_empty pattern_rest then Str.is_empty path_rest
          else glob_match_recursive pattern_rest path_rest } } } }.
Proof.
  1-2: unfold double_star_rest in Hstar; case_decide; simplify_eq;
    [cbn; lia|apply Str.strip_prefix_Some in Hstar as ->; cbn; lia].
  unfold first_segment in Hseg; apply bool_decide_eq_false in Hne.
  destruct (Str.split_once "/" pattern) as [[seg rest]|] eqn:E; simplify_eq;
    [by eapply Str.split_once_length|destruct pattern_segment; cbn; [done|lia]].
Qed.

(** [glob_match]. *)
Definition glob_match (pattern path : string) : bool := glob_match_recursive pattern path.

(** *** Declarative semantics

    A pattern and a path are read as lists of segments; one trailing slash does
    not open a further segment. *)

Definition segments (s : string) : list string :=
  let l := Str.split "/" s in
  if decide (last l = Some "") then removelast l else l.

(** [*] stands for any characters of one segment. *)
Inductive star_match : string -> string -> Prop :=
| star_done : star_match "" ""
| star_literal c p s : c <> "*"%char -> star_match p s -> star_match (String c p) (String c s)
| star_wild p s t : star_match p t -> star_match (String "*" p) (s +:+ t).

(** [**] stands for any number of segments; a path that has run out of segments
    reads as an empty segment to every other pattern segment. *)
Inductive glob_spec : list string -> list string -> Prop :=
| gs_nil : glob_spec [] []
| gs_double_star rest skipped path :
    glob_spec rest path -> glob_spec ("**" :: rest) (skipped ++ path)
| gs_segment p rest s path :
    p <> "**" -> star_match p s -> glob_spec rest path -> glob_spec (p :: rest) (s :: path)
| gs_exhausted p rest :
    p <> "**" -> star_match p "" -> glob_spec rest [] -> glob_spec (p :: rest) [].

(** The same semantics as a function. *)
Fixpoint tails {A} (l : list A) : list (list A) :=
  l :: match l with [] => [] | _ :: l' => tails l' end.

Fixpoint match_segments (pattern path : list string) : bool :=
  match pattern with
  | [] => match path with [] => true | _ :: _ => false end
  | p :: rest =>
      if decide (p = "**") then existsb (match_segments rest) (tails path)
      else match path with
           | s :: path' => segment_match p s && match_segments rest path'
           | [] => segment_match p "" && match_segments rest []
           end
  end.

(** *** Correctness of the matcher *)

Lemma segment_loop_spec p s : segment_loop p s = true <-> star_match p s.
Proof.
  revert s. induction p as [|c p IH]; intros s; cbn.
  - unfold Str.is_empty. rewrite bool_decide_eq_true.
    split; [intros ->; constructor|by inversion 1].
  - case_decide as Hc; [subst c|].
    + rewrite existsb_exists. split.
      * intros (t & Ht%list_elem_of_In%Str.elem_of_suffixes & Hm). destruct Ht as [u ->].
        constructor. apply orb_true_iff in Hm as [Hm%bool_decide_eq_true|Hm].
        -- subst p. rewrite <- (Str.app_nil_r t). repeat constructor.
        -- by apply IH.
      * intros H. inversion H as [|? ? ? Hne|? u t Ht]; subst; [done|]. exists t. split.
        -- apply list_elem_of_In, Str.elem_of_suffixes. eauto.
        -- apply orb_true_iff. right. by apply IH.
    + destruct s as [|a s].
      * split; [done|]. by inversion 1.
      * case_decide as Ha; [subst a|split; [done|by inversion 1]].
        rewrite IH. split; [by constructor|by inversion 1].
Qed.

Lemma segment_match_spec p s : segment_match p s = true <-> star_match p s.
Proof.
  unfold segment_match. rewrite orb_true_iff, segment_loop_spec, bool_decide_eq_true.
  split; [|tauto]. intros [->|?]; [|done].
  rewrite <- (Str.app_nil_r s). repeat constructor.
Qed.

Lemma segments_nil : segments "" = [].
Proof. reflexivity. Qed.

Lemma split_first_segment s :
  Str.split "/" s = match Str.split_once "/" s with
                    | Some (seg, rest) => seg :: Str.split "/" rest
                    | None => [s]
                    end.
Proof.
  induction s as [|a s IH]; [done|]. cbn. case_decide; [done|]. rewrite IH.
  by destruct (Str.split_once "/" s) as [[]|].
Qed.

Lemma segments_cons s :
  s <> "" -> segments s = (first_segment s).1 :: segments (first_segment s).2.
Proof.
  intros Hs. unfold segments, first_segment. rewrite (split_first_segment s).
  destruct (Str.split_once "/" s) as [[seg rest]|] eqn:E; cbn.
  - pose proof (Str.split_nonempty "/" rest) as Hne.
    destruct (Str.split "/" rest) as [|h t] eqn:Es; [done|]. cbn.
    repeat case_decide; done.
  - rewrite decide_False by congruence. done.
Qed.

(** Unfolding equations, free of the recursion evidence. *)
Lemma consume_segments_eq f s :
  consume_segments f s = match Str.split_once "/" s with
                         | Some (_, after) => f after || consume_segments f after
                         | None => f ""
                         end.
Proof.
  simp consume_segments. destruct (inspect (Str.split_once "/" s)) as [o E].
  destruct o as [[]|]; cbn; by rewrite E.
Qed.

Lemma glob_match_recursive_eq p s :
  glob_match_recursive p s =
    if Str.is_empty p then Str.is_empty s
    else match double_star_rest p with
         | Some rest => glob_match_recursive rest s
                        || consume_segments (glob_match_recursive rest) s
         | None => segment_match (first_segment p).1 (first_segment s).1
                   && (if Str.is_empty (first_segment p).2 then Str.is_empty (first_segment s).2
                       else glob_match_recursive (first_segment p).2 (first_segment s).2)
         end.
Proof.
  rewrite glob_match_recursive_equation_1.
  destruct (inspect (Str.is_empty p)) as [b Eb]. destruct b.
  { rewrite glob_match_recursive_clause_1_equation_1. by rewrite Eb. }
  rewrite glob_match_recursive_clause_1_equation_2.
  destruct (inspect (double_star_rest p)) as [o Eo]. destruct o.
  { rewrite glob_match_recursive_clause_1_clause_2_equation_1. by rewrite Eb, Eo. }
  rewrite glob_match_recursive_clause_1_clause_2_equation_2.
  destruct (inspect (first_segment p)) as [[pseg prest] Ep].
  rewrite glob_match_recursive_clause_1_clause_2_clause_2_equation_1.
  destruct (first_segment s) as [sseg srest].
  rewrite glob_match_recursive_clause_1_clause_2_clause_2_clause_1_equation_1.
  rewrite Eb, Eo, Ep. by destruct (segment_match pseg sseg) eqn:E; cbn [fst snd]; rewrite E.
Qed.

Lemma consume_segments_spec (f : string -> bool) (g : list string -> bool) path :
  (forall s, f s = g (segments s)) ->
  f path || consume_segments f path = existsb g (tails (segments path)).
Proof.
  intros Hfg. induction path as [path IH] using (induction_ltof1 _ String.length).
  unfold ltof in IH. rewrite consume_segments_eq. destruct (decide (path = "")) as [->|Hne].
  { cbn. rewrite Hfg, orb_diag. symmetry. apply orb_false_r. }
  rewrite Hfg, (segments_cons _ Hne). unfold first_segment. cbn [tails existsb].
  destruct (Str.split_once "/" path) as [[seg after]|] eqn:E; cbn.
  - rewrite IH by by eapply Str.split_once_length. done.
  - rewrite (Hfg ""), segments_nil. cbn. by rewrite orb_false_r.
Qed.

Lemma double_star_rest_Some p rest :
  p <> "" -> double_star_rest p = Some rest -> segments p = "**" :: segments rest.
Proof.
  intros Hne. unfold double_star_rest. case_decide as Hp; [intros [= <-]; by subst p|].
  intros ->%Str.strip_prefix_Some. rewrite segments_cons by done. done.
Qed.

Lemma double_star_rest_None p : double_star_rest p = None -> (first_segment p).1 <> "**".
Proof.
  unfold double_star_rest, first_segment. case_decide; [done|].
  intros Hn. destruct (Str.split_once "/" p) as [[seg rest]|] eqn:E; cbn; [|done].
  intros ->. apply Str.split_once_Some in E as [-> _]. discriminate.
Qed.

Lemma double_star_rest_length p rest :
  p <> "" -> double_star_rest p = Some rest -> (String.length rest < String.length p)%nat.
Proof.
  intros Hne. unfold double_star_rest. case_decide; [intros [= <-]; subst; cbn; lia|].
  intros ->%Str.strip_prefix_Some. cbn. lia.
Qed.

Lemma first_segment_length p : p <> "" -> (String.length (first_segment p).2 < String.length p)%nat.
Proof.
  intros Hne. unfold first_segment. destruct (Str.split_once "/" p) as [[seg rest]|] eqn:E; cbn.
  - by eapply Str.split_once_length.
  - destruct p; cbn; [done|lia].
Qed.

Lemma is_empty_segments s : Str.is_empty s = match segments s with [] => true | _ => false end.
Proof. destruct s as [|a s]; [done|]. by rewrite segments_cons. Qed.

Lemma first_segment_nil s : segments s = [] -> first_segment s = ("", "").
Proof. destruct s as [|a s]; [done|]. by rewrite segments_cons. Qed.

(** The recursive matcher computes the segment-list semantics. *)
Lemma glob_match_segments p s : glob_match p s = match_segments (segments p) (segments s).
Proof.
  unfold glob_match. revert s.
  induction p as [p IH] using (induction_ltof1 _ String.length). unfold ltof in IH. intros s.
  rewrite glob_match_recursive_eq. destruct (decide (p = "")) as [->|Hne].
  { apply is_empty_segments. }
  unfold Str.is_empty at 1. rewrite bool_decide_false by done.
  destruct (double_star_rest p) as [rest|] eqn:Ed.
  - rewrite (double_star_rest_Some _ _ Hne Ed). cbn.
    apply consume_segments_spec. intros t. apply IH. by apply double_star_rest_length.
  - rewrite (segments_cons _ Hne). cbn.
    rewrite decide_False by by apply double_star_rest_None.
    rewrite IH by by apply first_segment_length. rewrite !is_empty_segments.
    destruct (decide (s = "")) as [->|Hs].
    + cbn. by destruct (segments (first_segment p).2).
    + rewrite (segments_cons _ Hs). by destruct (segments (first_segment p).2).
Qed.

Lemma elem_of_tails {A} (l t : list A) : t ∈ tails l <-> exists skipped, l = skipped ++ t.
Proof.
  induction l as [|a l IH]; cbn.
  - rewrite list_elem_of_singleton. split; [intros ->; by exists []|].
    by intros [[|] H]; cbn in H.
  - rewrite elem_of_cons, IH. split.
    + intros [->|[k ->]]; [by exists []|by exists (a :: k)].
    + intros [[|b k] H]; cbn in H; [by left|]. injection H as _ H. right. eauto.
Qed.

Lemma match_segments_spec p s : match_segments p s = true <-> glob_spec p s.
Proof.
  revert s. induction p as [|p rest IH]; intros s; cbn.
  - destruct s; split; try done; [constructor|by inversion 1].
  - case_decide as Hp.
    + subst p. rewrite existsb_exists. split.
      * intros (t & Ht%list_elem_of_In%elem_of_tails & Hm). destruct Ht as [k ->].
        constructor. by apply IH.
      * inversion 1 as [|? k t Ht| |]; subst; [|done..]. exists t. split; [|by apply IH].
        apply list_elem_of_In, elem_of_tails. eauto.
    + destruct s as [|a s]; rewrite andb_true_iff, segment_match_spec, IH; split.
      all: try (intros [? ?]; by constructor). all: by inversion 1.
Qed.

(** C4. The path matcher decides exactly the declarative semantics of policy
    patterns: [*] for any text inside one segment, [**] for any number of whole
    segments, everything else literally. *)
Theorem glob_match_correct pattern path :
  glob_match pattern path = true <-> glob_spec (segments pattern) (segments path).
Proof. by rewrite glob_match_segments, match_segments_spec. Qed.

(** A trailing [/*] also covers the directory itself. *)
Example star_matches_parent : glob_match "secret/*" "secret" = true.
Proof. vm_compute. reflexivity. Qed.

End Glob.

(** ** Decision procedure *)

Module Evaluator.
Import Model.

Record CompiledPolicies := {
  policies : gmap (string * string) (list PolicyRule);
}.

Definition new : CompiledPolicies := {| policies := ∅ |}.

Definition upsert (self : CompiledPolicies) (tenant_id name : string)
    (rules : list PolicyRule) : CompiledPolicies :=
  {| policies := <[(tenant_id, name) := rules]> self.(policies) |}.

Definition remove (self : CompiledPolicies) (tenant_id name : string) :
    bool * CompiledPolicies :=
  (bool_decide (is_Some (self.(policies) !! (tenant_id, name))),
   {| policies := delete (tenant_id, name) self.(policies) |}).

(** [rule.paths.iter().any(|pattern| glob_match(pattern, resource))]. *)
Definition path_matched (rule : PolicyRule) (resource : string) : bool :=
  existsb (fun pattern => Glob.glob_match pattern resource) rule.(paths).

(** The inner loop over one policy's rules. [inr] is an early return. *)
Fixpoint scan_rules (policy_name resource : string) (required : Capability)
    (rules : list PolicyRule) (any_allow : bool) : bool + PolicyDecision :=
  match rules with
  | [] => inl any_allow
  | rule :: rules' =>
      if negb (path_matched rule resource)
      then scan_rules policy_name resource required rules' any_allow
      else if bool_decide (Deny ∈ rule.(capabilities))
      then inr (Denied ("explicit deny in policy '" +:+ policy_name
                        +:+ "' for resource '" +:+ resource +:+ "'"))
      else scan_rules policy_name resource required rules'
             (if bool_decide (required ∈ rule.(capabilities)) then true else any_allow)
  end.

(** The outer loop over the caller's policy names. *)
Fixpoint scan_policies (compiled : CompiledPolicies) (tenant_id resource : string)
    (required : Capability) (names : list string) (any_allow : bool) : bool + PolicyDecision :=
  match names with
  | [] => inl any_allow
  | policy_name :: names' =>
      match compiled.(policies) !! (tenant_id, policy_name) with
      | None => scan_policies compiled tenant_id resource required names' any_allow
      | Some rules =>
          match scan_rules policy_name resource required rules any_allow with
          | inr decision => inr decision
          | inl any_allow' =>
              scan_policies compiled tenant_id resource required names' any_allow'
          end
      end
  end.

Definition evaluate (compiled : CompiledPolicies) (tenant_id : string)
    (names : list string) (action resource : string) : PolicyDecision :=
  match from_action action with
  | None => Denied ("unknown action: " +:+ action)
  | Some required =>
      match scan_policies compiled tenant_id resource required names false with
      | inr decision => decision
      | inl true => Allow
      | inl false => Denied ("no policy grants '" +:+ action
                             +:+ "' on resource '" +:+ resource +:+ "'")
      end
  end.

(** *** Declarative semantics

    [applies] says which rules a request consults: those of the caller's named
    policies, in the caller's tenant, with a pattern that matches. *)

Definition applies (compiled : CompiledPolicies) (tenant_id : string) (names : list string)
    (resource : string) (rule : PolicyRule) : Prop :=
  exists policy_name rules,
    policy_name ∈ names /\ compiled.(policies) !! (tenant_id, policy_name) = Some rules /\
    rule ∈ rules /\
    exists pattern, pattern ∈ rule.(paths) /\
      Glob.glob_spec (Glob.segments pattern) (Glob.segments resource).

Definition allows (compiled : CompiledPolicies) (tenant_id : string) (names : list string)
    (action resource : string) : Prop :=
  exists required, from_action action = Some required /\
    (exists rule, applies compiled tenant_id names resource rule /\
                  required ∈ rule.(capabilities)) /\
    (forall rule, applies compiled tenant_id names resource rule ->
                  Deny ∉ rule.(capabilities)).

(** Two snapshots a tenant cannot tell apart. *)
Definition same_tenant_view (tenant_id : string) (c1 c2 : CompiledPolicies) : Prop :=
  forall name, c1.(policies) !! (tenant_id, name) = c2.(policies) !! (tenant_id, name).

#[global] Instance same_tenant_view_equiv tenant_id : Equivalence (same_tenant_view tenant_id).
Proof. split; repeat intro; unfold same_tenant_view in *; congruence. Qed.

Lemma path_matched_spec rule resource :
  path_matched rule resource = true <->
  exists pattern, pattern ∈ rule.(paths) /\
    Glob.glob_spec (Glob.segments pattern) (Glob.segments resource).
Proof.
  unfold path_matched. rewrite existsb_exists.
  setoid_rewrite list_elem_of_In. setoid_rewrite Glob.glob_match_segments.
  by setoid_rewrite Glob.match_segments_spec.
Qed.

(** The rules a request consults, in scan order, and what a rule does to it. *)
Definition consulted (c : CompiledPolicies) (t : string) (names : list string) : list PolicyRule :=
  flat_map (fun n => default [] (c.(policies) !! (t, n))) names.

Definition denies (resource : string) (r : PolicyRule) : bool :=
  path_matched r resource && bool_decide (Deny ∈ r.(capabilities)).

Definition grants (resource : string) (req : Capability) (r : PolicyRule) : bool :=
  path_matched r resource && bool_decide (req ∈ r.(capabilities)).

Lemma applies_consulted c t names resource r :
  applies c t names resource r <->
  In r (consulted c t names) /\ path_matched r resource = true.
Proof.
  unfold applies, consulted. setoid_rewrite <- path_matched_spec. rewrite in_flat_map.
  setoid_rewrite list_elem_of_In. split.
  - intros (n & rules & Hn & Hl & Hr & Hm). split; [|done]. exists n. by rewrite Hl.
  - intros [(n & Hn & Hr) Hm]. destruct (c.(policies) !! (t, n)) eqn:El; [|done]. eauto 8.
Qed.

Lemma scan_rules_closed n resource req rules b :
  match scan_rules n resource req rules b with
  | inl b' => existsb (denies resource) rules = false /\
              b' = b || existsb (grants resource req) rules
  | inr d => existsb (denies resource) rules = true /\ d <> Allow
  end.
Proof.
  revert b. induction rules as [|r rules IH]; intros b; cbn; [by rewrite orb_false_r|].
  change (denies resource r)
    with (path_matched r resource && bool_decide (Deny ∈ r.(capabilities))).
  change (grants resource req r)
    with (path_matched r resource && bool_decide (req ∈ r.(capabilities))).
  destruct (path_matched r resource); cbn; [|apply IH].
  destruct (bool_decide (Deny ∈ _)); cbn; [done|].
  specialize (IH (if bool_decide (req ∈ r.(capabilities)) then true else b)).
  destruct (scan_rules _ _ _ _ _) as [b'|d]; destruct IH as [-> H]; split; auto.
  rewrite H. by destruct (bool_decide (req ∈ _)), b.
Qed.

Lemma scan_policies_closed c t resource req names b :
  match scan_policies c t resource req names b with
  | inl b' => existsb (denies resource) (consulted c t names) = false /\
              b' = b || existsb (grants resource req) (consulted c t names)
  | inr d => existsb (denies resource) (consulted c t names) = true /\ d <> Allow
  end.
Proof.
  unfold consulted. revert b.
  induction names as [|n names IH]; intros b; cbn; [by rewrite orb_false_r|].
  rewrite !existsb_app. destruct (c.(policies) !! (t, n)) as [rules|]; cbn; [|apply IH].
  pose proof (scan_rules_closed n resource req rules b) as Hr.
  destruct (scan_rules n resource req rules b) as [b1|d]; destruct Hr as [-> Hr]; [|done].
  specialize (IH b1). destruct (scan_policies _ _ _ _ _ _); [|done].
  destruct IH as [-> ->]. subst b1. by rewrite orb_assoc.
Qed.

Lemma existsb_forall_not {A} (f : A -> bool) l :
  existsb f l = false <-> forall x, In x l -> f x = false.
Proof.
  rewrite <- not_true_iff_false, existsb_exists. split.
  - intros H x Hx. apply not_true_iff_false. intros Hf. apply H. eauto.
  - intros H (x & Hx & Hf). rewrite H in Hf; done.
Qed.

Lemma evaluate_allow c t names action resource :
  evaluate c t names action resource = Allow <-> allows c t names action resource.
Proof.
  unfold evaluate, allows. setoid_rewrite applies_consulted.
  destruct (from_action action) as [req|]; [|split; [done|by intros (? & ? & _)]].
  pose proof (scan_policies_closed c t resource req names false) as Hc.
  assert (existsb (denies resource) (consulted c t names) = false <->
    forall r, In r (consulted c t names) /\ path_matched r resource = true ->
              Deny ∉ r.(capabilities)) as Hd.
  { rewrite existsb_forall_not. unfold denies. setoid_rewrite andb_false_iff.
    setoid_rewrite bool_decide_eq_false.
    split; intros H r; [intros [Hr Hm]|intros Hr]; specialize (H r).
    - by destruct (H Hr) as [|]; [congruence|].
    - destruct (path_matched r resource); auto. }
  assert (existsb (grants resource req) (consulted c t names) = true <->
    exists r, (In r (consulted c t names) /\ path_matched r resource = true) /\
              req ∈ r.(capabilities)) as Hg.
  { rewrite existsb_exists. unfold grants. setoid_rewrite andb_true_iff.
    setoid_rewrite bool_decide_eq_true. split; intros (r & H); exists r; tauto. }
  destruct (scan_policies c t resource req names false) as [b|d]; destruct Hc as [Hf Hb].
  - rewrite Hd in Hf. cbn in Hb. rewrite <- Hb in Hg. clear Hb Hd.
    destruct b; split; try done.
    + intros _. exists req. split; [done|]. split; [by apply Hg|done].
    + intros (? & [= <-] & Hr & _). by apply Hg in Hr.
  - split; [done|]. intros (? & _ & _ & Hn). rewrite (proj2 Hd Hn) in Hf. done.
Qed.

(** C1. Deny wins and the default is deny: a request is allowed exactly when its
    action is known, some rule of the caller's own policies in the caller's own
    tenant matches the resource and grants the capability, and no matching rule
    carries [Deny]. *)
Theorem evaluate_correct compiled tenant_id names action resource :
  evaluate compiled tenant_id names action resource = Allow <->
  allows compiled tenant_id names action resource.
Proof. apply evaluate_allow. Qed.

Lemma evaluate_tenant_view t c1 c2 names action resource :
  same_tenant_view t c1 c2 ->
  evaluate c1 t names action resource = evaluate c2 t names action resource.
Proof.
  intros Hv. unfold evaluate. destruct (from_action action) as [req|]; [|done].
  assert (forall b, scan_policies c1 t resource req names b
                    = scan_policies c2 t resource req names b) as ->; [|done].
  induction names as [|n names IH]; intros b; cbn; [done|].
  rewrite (Hv n). repeat case_match; auto.
Qed.

#[global] Instance evaluate_proper t :
  Proper (same_tenant_view t ==> (=) ==> (=) ==> (=) ==> (=)) (fun c => evaluate c t).
Proof. repeat intro; subst. by apply evaluate_tenant_view. Qed.

(** Tenant isolation: installing or removing any policy of another tenant
    leaves every decision of this tenant unchanged, reason included. *)
Theorem evaluate_tenant_isolation compiled t t' names action resource name rules :
  t <> t' ->
  evaluate (upsert compiled t' name rules) t names action resource
    = evaluate compiled t names action resource /\
  evaluate (snd (remove compiled t' name)) t names action resource
    = evaluate compiled t names action resource.
Proof.
  intros Hne. split; apply evaluate_tenant_view; intros n; cbn.
  - rewrite lookup_insert_ne; congruence.
  - rewrite lookup_delete_ne; congruence.
Qed.

(** The order in which a principal's policies are listed, and repetitions in
    that list, never change whether a request is allowed. *)
Theorem evaluate_order_irrelevant compiled t names names' action resource :
  (forall n, n ∈ names <-> n ∈ names') ->
  (evaluate compiled t names action resource = Allow <->
   evaluate compiled t names' action resource = Allow).
Proof.
  intros Hn. rewrite !evaluate_allow. unfold allows, applies.
  by setoid_rewrite Hn.
Qed.

(** *** Witnesses *)

Definition sample_rule : PolicyRule := {| paths := ["secret/**"]; capabilities := {[Read]} |}.
Definition sample_compiled : CompiledPolicies := upsert new "tenant-a" "admin" [sample_rule].

Lemma evaluate_tenant_isolation_witness :
  evaluate (upsert sample_compiled "tenant-b" "admin" []) "tenant-a" ["admin"] "read" "secret/db"
  = evaluate sample_compiled "tenant-a" ["admin"] "read" "secret/db".
Proof.
  apply (evaluate_tenant_isolation sample_compiled "tenant-a" "tenant-b" ["admin"] "read"
           "secret/db" "admin" []). discriminate.
Defined.

Lemma evaluate_order_irrelevant_witness :
  evaluate sample_compiled "tenant-a" ["none"; "admin"] "secret:read" "secret/db" = Allow.
Proof.
  apply (evaluate_order_irrelevant sample_compiled "tenant-a" ["none"; "admin"]
           ["admin"; "none"; "admin"] "secret:read" "secret/db").
  - intros n. set_solver.
  - vm_compute. reflexivity.
Defined.

End Evaluator.
