(* ===== verification/Auth.v ===== *)
(** * Caller authentication

    [crates/wslvault-core/src/auth.rs]: the one way a service learns who is
    calling. Token decoding ([jsonwebtoken]), the JWKS endpoint and the
    revocation list are parameters; the precedence order, the trust switch, the
    JWKS cache and its rate limit are the code's. *)

From Stdlib Require Import Lia Ascii Sorted.
From S2P Require Import Prelude.

(** ** Data *)

Record Identity := {
  tenant_id : string;
  principal_id : string;
  policies : list string;
  expires_at : option Z;
  superuser : bool;
}.

(** [AuthFailure(pub String)]. *)
Definition AuthFailure := string.

Record TokenClaims := {
  claim_sub : string;
  claim_tenant_id : string;
  claim_policies : list string;
  claim_superuser : bool;
  claim_exp : Z;
}.

(** The environment variables this module reads. *)
Record Env := {
  VAULT_JWT_SECRET : option string;
  VAULT_TRUST_GATEWAY_HEADERS : option string;
  VAULT_JWKS_URL : option string;
  VAULT_ADMIN_POLICY : option string;
}.

(** Header values that are valid text, by lower-case name. *)
Abbreviation HeaderMap := (gmap string string).

Inductive Algorithm := EdDSA | HS256 | OtherAlgorithm (alg_name : string).

Record JwkEntry := { kid : string; x : string }.

Record JwksCache := {
  keys : gmap string string;
  last_fetch : option Z;
}.

(** [Duration::from_secs(10)], in nanoseconds. *)
Definition JWKS_MIN_REFETCH : Z := 10 * 10 ^ 9.

(** ** Headers *)

Definition gateway_headers_trusted (env : Env) : bool :=
  let v := Str.to_ascii_lowercase (Str.trim (default "" env.(VAULT_TRUST_GATEWAY_HEADERS))) in
  bool_decide (v = "true") || bool_decide (v = "1") || bool_decide (v = "yes").

Definition header_value (headers : HeaderMap) (name : string) : option string :=
  match headers !! name with
  | Some s => if Str.is_empty s then None else Some s
  | None => None
  end.

Definition split_csv (raw : option string) : list string :=
  match raw with
  | Some s => List.filter (fun p => negb (Str.is_empty p)) (Str.trim <$> Str.split "," s)
  | None => []
  end.

Definition extract_token (headers : HeaderMap) : option string :=
  match header_value headers "x-vault-token" with
  | Some t => Some t
  | None =>
      a ← header_value headers "authorization";
      t ← match Str.strip_prefix "Bearer " a with
          | Some t => Some t
          | None => Str.strip_prefix "bearer " a
          end;
      let t := Str.trim t in
      if Str.is_empty t then None else Some t
  end.

(** ** Acting tenant and platform administration *)

Definition act_as_tenant (identity : Identity) (headers : HeaderMap) : string * bool :=
  if negb identity.(superuser) then (identity.(tenant_id), false)
  else match header_value headers "x-vault-act-tenant" with
       | Some t => if decide (t <> identity.(tenant_id)) then (t, true)
                   else (identity.(tenant_id), false)
       | None => (identity.(tenant_id), false)
       end.

Definition DEFAULT_ADMIN_POLICY : string := "wslvault:platform-admin".

Definition admin_policy_name (env : Env) : string :=
  match env.(VAULT_ADMIN_POLICY) with
  | Some s => if Str.is_empty s then DEFAULT_ADMIN_POLICY else s
  | None => DEFAULT_ADMIN_POLICY
  end.

Definition is_platform_admin (env : Env) (identity : Identity) : bool :=
  if identity.(superuser) then true
  else bool_decide (admin_policy_name env ∈ identity.(policies)).

(** ** Token verification *)

Section Verify.

(** [jsonwebtoken]: header decoding, and signature-and-expiry checking decoding
    under an Ed25519 public key or a shared secret. *)
Context (decode_header : string -> result string (Algorithm * option string)).
Context (decode_eddsa : string -> string -> result string TokenClaims).
Context (decode_hs256 : string -> string -> result string TokenClaims).
(** The JWKS endpoint's answer, and base64url decoding. *)
Context (fetch_jwks : string -> result AuthFailure (list JwkEntry)).
Context (b64url_decode : string -> option string).
(** The installed revocation checker, if any. *)
Context (token_revocation : option (string -> result AuthFailure bool)).
(** [{:?}] on a string. *)
Context (debug_fmt : string -> string).

(** The loop of [refresh] over the fetched document. *)
Definition install_keys (doc : list JwkEntry) (ks : gmap string string) : gmap string string :=
  fold_left (fun ks entry =>
    match b64url_decode entry.(x) with
    | Some raw => if (String.length raw =? 32)%nat then <[entry.(kid) := raw]> ks else ks
    | None => ks
    end) doc ks.

(** [refresh]; the flag says whether the endpoint was contacted. *)
Definition refresh (env : Env) (now : Z) (self : JwksCache) :
    result AuthFailure () * JwksCache * bool :=
  match env.(VAULT_JWKS_URL) with
  | None => (Err ("VAULT_JWKS_URL is not configured; "
                  +:+ "per-tenant token verification is unavailable"), self, false)
  | Some url =>
      let limited := match self.(last_fetch) with
                     | Some t => now - t <? JWKS_MIN_REFETCH
                     | None => false
                     end in
      if limited then (Ok tt, self, false)
      else
        let self := {| keys := self.(keys); last_fetch := Some now |} in
        match fetch_jwks url with
        | Err e => (Err e, self, true)
        | Ok doc => (Ok tt, {| keys := install_keys doc self.(keys);
                               last_fetch := self.(last_fetch) |}, true)
        end
  end.

Definition public_key_for (env : Env) (now : Z) (self : JwksCache) (k : string) :
    result AuthFailure string * JwksCache * bool :=
  match self.(keys) !! k with
  | Some key => (Ok key, self, false)
  | None =>
      match refresh env now self with
      | (Err e, self, fetched) => (Err e, self, fetched)
      | (Ok _, self, fetched) =>
          (ok_or (self.(keys) !! k) ("token signed by an unknown key " +:+ debug_fmt k),
           self, fetched)
      end
  end.

(** [verify_token]: the legacy shared-secret path. *)
Definition verify_token (env : Env) (token : string) : result AuthFailure TokenClaims :=
  match env.(VAULT_JWT_SECRET) with
  | None => Err "VAULT_JWT_SECRET is not configured; token authentication is unavailable"
  | Some secret =>
      if Str.is_empty secret
      then Err "VAULT_JWT_SECRET is empty; token authentication is unavailable"
      else match decode_hs256 secret token with
           | Ok claims => Ok claims
           | Err e => Err ("invalid token: " +:+ e)
           end
  end.

Definition verify_token_async (env : Env) (now : Z) (cache : JwksCache) (token : string) :
    result AuthFailure TokenClaims * JwksCache :=
  match decode_header token with
  | Err e => (Err ("malformed token header: " +:+ e), cache)
  | Ok (EdDSA, None) => (Err "EdDSA token carries no kid", cache)
  | Ok (EdDSA, Some k) =>
      match public_key_for env now cache k with
      | (Err e, cache, _) => (Err e, cache)
      | (Ok public_key, cache, _) =>
          (match decode_eddsa public_key token with
           | Ok claims => Ok claims
           | Err e => Err ("invalid token: " +:+ e)
           end, cache)
      end
  | Ok (HS256, _) => (verify_token env token, cache)
  | Ok (OtherAlgorithm a, _) => (Err ("unsupported token algorithm " +:+ a), cache)
  end.

Definition is_token_revoked (token : string) : result AuthFailure bool :=
  match token_revocation with
  | Some checker => checker token
  | None => Ok false
  end.

(** Tiers 1 and 2: the gateway's asserted headers, under one spelling. *)
Definition asserted_identity (headers : HeaderMap) (h_tenant h_principal h_policies : string) :
    option Identity :=
  tenant ← header_value headers h_tenant;
  Some {| tenant_id := tenant;
          principal_id := default "anonymous" (header_value headers h_principal);
          policies := split_csv (header_value headers h_policies);
          expires_at := None;
          superuser := false |}.

Definition resolve_identity (env : Env) (now : Z) (cache : JwksCache) (headers : HeaderMap) :
    result AuthFailure Identity * JwksCache :=
  let trust_headers := gateway_headers_trusted env in
  let tier1 := if trust_headers
               then asserted_identity headers "x-tenant-id" "x-principal-id" "x-policies"
               else None in
  match tier1 with
  | Some who => (Ok who, cache)
  | None =>
  let tier2 := if trust_headers
               then asserted_identity headers "x-vault-tenant-id" "x-vault-principal-id"
                      "x-vault-policies"
               else None in
  match tier2 with
  | Some who => (Ok who, cache)
  | None =>
  match extract_token headers with
  | None => (Err ("missing authentication: supply X-Vault-Token, "
                  +:+ "or X-Tenant-Id when behind the gateway"), cache)
  | Some token =>
      match verify_token_async env now cache token with
      | (Err e, cache) => (Err e, cache)
      | (Ok claims, cache) =>
          let who := {| tenant_id := claims.(claim_tenant_id);
                             principal_id := claims.(claim_sub);
                             policies := claims.(claim_policies);
                             expires_at := Some claims.(claim_exp);
                             superuser := claims.(claim_superuser) |} in
          match token_revocation with
          | None => (Ok who, cache)
          | Some checker =>
              match checker token with
              | Ok true => (Err "token has been revoked", cache)
              | Ok false => (Ok who, cache)
              | Err e => (Err e, cache)
              end
          end
      end
  end end end.

(** A sequence of key lookups, each at its own time; the times at which the
    endpoint was contacted, in order. *)
Fixpoint lookups (env : Env) (self : JwksCache) (requests : list (Z * string)) : list Z :=
  match requests with
  | [] => []
  | (now, k) :: requests' =>
      match public_key_for env now self k with
      | (_, self, fetched) => (if fetched then [now] else []) ++ lookups env self requests'
      end
  end.

(** ** Properties *)

(** What it takes for a token to speak for an identity. *)
Definition token_speaks_for (env : Env) (now : Z) (cache : JwksCache) (token : string)
    (identity : Identity) : Prop :=
  exists claims,
    fst (verify_token_async env now cache token) = Ok claims /\
    is_token_revoked token = Ok false /\
    identity = {| tenant_id := claims.(claim_tenant_id);
                  principal_id := claims.(claim_sub);
                  policies := claims.(claim_policies);
                  expires_at := Some claims.(claim_exp);
                  superuser := claims.(claim_superuser) |}.

Lemma asserted_identity_not_superuser h a b c i :
  asserted_identity h a b c = Some i -> superuser i = false /\ expires_at i = None.
Proof. unfold asserted_identity. destruct (header_value h a); cbn; naive_solver. Qed.

Lemma resolve_identity_untrusted env now cache h :
  gateway_headers_trusted env = false ->
  forall i, fst (resolve_identity env now cache h) = Ok i <->
  exists token, extract_token h = Some token /\ token_speaks_for env now cache token i.
Proof.
  intros Ht i. unfold resolve_identity, token_speaks_for, is_token_revoked. rewrite Ht. cbn.
  destruct (extract_token h) as [token|]; [|split; [done|by intros (? & ? & _)]].
  destruct (verify_token_async env now cache token) as [[claims|e] cache'] eqn:Ev; cbn.
  - destruct token_revocation as [checker|]; [destruct (checker token) as [[|]|] eqn:Er|];
      cbn; split; try done.
    all: try (intros [= <-]; exists token; split; [done|]; rewrite Ev, ?Er; eauto).
    all: intros (? & [= <-] & c & Hc & Hr & ->); rewrite Ev in Hc; cbn in Hc;
      rewrite ?Er in Hr; congruence.
  - split; [done|]. intros (? & [= <-] & c & Hc & _). rewrite Ev in Hc. done.
Qed.

(** With the gateway switch off, a caller is authenticated exactly by a token
    that verifies and is not revoked, and the whole identity (tenant, principal,
    policies, superuser flag, expiry) is that token's claims: no other header
    plays a part. *)
Theorem resolve_identity_token_only env now cache h1 h2 :
  gateway_headers_trusted env = false ->
  h1 !! "x-vault-token" = h2 !! "x-vault-token" ->
  h1 !! "authorization" = h2 !! "authorization" ->
  resolve_identity env now cache h1 = resolve_identity env now cache h2 /\
  (forall i, fst (resolve_identity env now cache h1) = Ok i <->
   exists token, extract_token h1 = Some token /\ token_speaks_for env now cache token i).
Proof.
  intros Ht H1 H2. split; [|by apply resolve_identity_untrusted].
  unfold resolve_identity, extract_token, header_value. by rewrite Ht, H1, H2.
Qed.

(** C6. Cross-tenant authority comes only from a signed claim: whatever the
    switch and the headers say, a resolved superuser carries a token that
    verified, was not revoked and claims the flag. *)
Theorem superuser_only_from_signed_claim env now cache h i :
  fst (resolve_identity env now cache h) = Ok i -> superuser i = true ->
  exists token, extract_token h = Some token /\ token_speaks_for env now cache token i.
Proof.
  destruct (gateway_headers_trusted env) eqn:Ht;
    [|intros Hr _; by apply resolve_identity_untrusted].
  unfold resolve_identity. rewrite Ht.
  destruct (asserted_identity h "x-tenant-id" _ _) eqn:E1.
  { intros [= <-] Hs. apply asserted_identity_not_superuser in E1 as [E1 _]. congruence. }
  destruct (asserted_identity h "x-vault-tenant-id" _ _) eqn:E2.
  { intros [= <-] Hs. apply asserted_identity_not_superuser in E2 as [E2 _]. congruence. }
  intros Hr _. set (env' := {| VAULT_JWT_SECRET := env.(VAULT_JWT_SECRET);
    VAULT_TRUST_GATEWAY_HEADERS := None; VAULT_JWKS_URL := env.(VAULT_JWKS_URL);
    VAULT_ADMIN_POLICY := env.(VAULT_ADMIN_POLICY) |}).
  apply (resolve_identity_untrusted env' now cache h); [done|].
  unfold resolve_identity. exact Hr.
Qed.

Lemma public_key_for_fetch env now self k r self' fetched :
  public_key_for env now self k = (r, self', fetched) ->
  if fetched
  then self'.(last_fetch) = Some now /\
       (forall t, self.(last_fetch) = Some t -> t + JWKS_MIN_REFETCH <= now)
  else self' = self.
Proof.
  unfold public_key_for, refresh. intros H.
  destruct (keys self !! k); [by simplify_eq|].
  destruct (VAULT_JWKS_URL env) as [url|]; [|by simplify_eq].
  destruct (last_fetch self) as [t|].
  - destruct (Z.ltb_spec (now - t) JWKS_MIN_REFETCH); [by simplify_eq|].
    destruct (fetch_jwks url); simplify_eq; split; auto; intros ? [= <-]; lia.
  - destruct (fetch_jwks url); by simplify_eq.
Qed.

Lemma lookups_spaced env self requests :
  StronglySorted (fun a b => a.1 <= b.1) requests ->
  StronglySorted (fun a b => a + JWKS_MIN_REFETCH <= b) (lookups env self requests) /\
  (forall t f, self.(last_fetch) = Some t -> f ∈ lookups env self requests ->
               t + JWKS_MIN_REFETCH <= f) /\
  (forall t, Forall (fun r => t <= r.1) requests -> Forall (fun f => t <= f) (lookups env self requests)).
Proof.
  intros Hs. revert self.
  induction Hs as [|[now k] requests Hs IH Hge]; intros self; cbn.
  { repeat split; [constructor|set_solver|by constructor]. }
  destruct (public_key_for env now self k) as [[r self'] fetched] eqn:E.
  apply public_key_for_fetch in E. destruct (IH self') as (IH1 & IH2 & IH3).
  destruct fetched; cbn; [destruct E as [El Ege]|subst self'; split_and!; auto].
  2: { intros t Ht. inversion Ht; auto. }
  split_and!.
  - constructor; [done|]. apply Forall_forall. intros f Hf. by apply IH2.
  - intros t f Ht [->|Hf]%elem_of_cons; [by apply Ege|].
    specialize (IH2 _ _ El Hf). specialize (Ege _ Ht). unfold JWKS_MIN_REFETCH in *. lia.
  - intros t Ht. inversion Ht; subst. constructor; auto.
Qed.

(** An unknown key id cannot be used to flood the identity service: over any
    sequence of lookups under a monotonic clock, two fetches of the key document
    are at least the rate limit apart. *)
Theorem jwks_fetches_rate_limited env self requests :
  StronglySorted (fun a b => a.1 <= b.1) requests ->
  StronglySorted (fun a b => a + JWKS_MIN_REFETCH <= b) (lookups env self requests).
Proof. intros Hs. by apply lookups_spaced. Qed.

End Verify.

(** A signed token is needed to leave the home tenant; the flag reports exactly
    the requests that did. *)
Lemma act_as_tenant_spec i h t crossed :
  act_as_tenant i h = (t, crossed) ->
  (superuser i = false -> t = tenant_id i) /\ (crossed = true <-> t <> tenant_id i).
Proof.
  unfold act_as_tenant. intros H.
  destruct (superuser i); cbn in *; [|by simplify_eq].
  destruct (header_value _ _) as [t'|]; [|by simplify_eq].
  case_decide; by simplify_eq.
Qed.

(** ** Interface

    What the request handlers of the other services rely on. *)
Class Authenticator := {
  resolve : HeaderMap -> result AuthFailure Identity;
}.

(** ** Witnesses *)

Definition closed_env : Env :=
  {| VAULT_JWT_SECRET := Some "secret"; VAULT_TRUST_GATEWAY_HEADERS := None;
     VAULT_JWKS_URL := Some "http://identity/jwks"; VAULT_ADMIN_POLICY := None |}.

Definition sample_claims : TokenClaims :=
  {| claim_sub := "alice"; claim_tenant_id := "tenant-a"; claim_policies := ["default"];
     claim_superuser := true; claim_exp := 100 |}.

Definition sample_resolve : Env -> Z -> JwksCache -> HeaderMap -> result AuthFailure Identity * JwksCache :=
  resolve_identity (fun t => if decide (t = "tok") then Ok (HS256, None) else Err "bad")
    (fun _ _ => Err "bad") (fun _ t => if decide (t = "tok") then Ok sample_claims else Err "bad")
    (fun _ => Err "down") (fun _ => None) (Some (fun _ => Ok false)) (fun s => s).

Definition empty_cache : JwksCache := {| keys := ∅; last_fetch := None |}.

Lemma resolve_identity_token_only_witness :
  sample_resolve closed_env 0 empty_cache {["x-vault-token" := "tok"; "x-tenant-id" := "victim"]}
  = sample_resolve closed_env 0 empty_cache {["x-vault-token" := "tok"]}.
Proof.
  apply (resolve_identity_token_only
    (fun t => if decide (t = "tok") then Ok (HS256, None) else Err "bad")
    (fun _ _ => Err "bad") (fun _ t => if decide (t = "tok") then Ok sample_claims else Err "bad")
    (fun _ => Err "down") (fun _ => None) (Some (fun _ => Ok false)) (fun s => s)
    closed_env 0 empty_cache {["x-vault-token" := "tok"; "x-tenant-id" := "victim"]}
    {["x-vault-token" := "tok"]}); vm_compute; reflexivity.
Defined.

Lemma superuser_only_from_signed_claim_witness :
  exists token, extract_token {["x-vault-token" := "tok"]} = Some token.
Proof.
  destruct (superuser_only_from_signed_claim
    (fun t => if decide (t = "tok") then Ok (HS256, None) else Err "bad")
    (fun _ _ => Err "bad") (fun _ t => if decide (t = "tok") then Ok sample_claims else Err "bad")
    (fun _ => Err "down") (fun _ => None) (Some (fun _ => Ok false)) (fun s => s)
    closed_env 0 empty_cache {["x-vault-token" := "tok"]}
    {| tenant_id := "tenant-a"; principal_id := "alice"; policies := ["default"];
       expires_at := Some 100; superuser := true |}) as (token & H & _).
  - vm_compute. reflexivity.
  - reflexivity.
  - exists token. exact H.
Defined.

Lemma jwks_fetches_rate_limited_witness :
  StronglySorted (fun a b => a + JWKS_MIN_REFETCH <= b)
    (lookups (fun _ => Ok []) (fun _ => None) (fun s => s) closed_env empty_cache
       [(0, "forged"); (1, "forged")]).
Proof.
  apply (jwks_fetches_rate_limited (fun _ => Ok []) (fun _ => None) (fun s => s)
           closed_env empty_cache).
  repeat constructor; cbn; lia.
Defined.
