(* ===== verification/PolicyEngine.v ===== *)
(** * The policy engine service

    Policy storage ([store.rs], [pg_store.rs]), the compiled snapshot and its
    background rebuild ([main.rs]), and the gRPC and HTTP handlers ([grpc.rs],
    [http.rs]) of [services/policy-engine/src]. The handlers are written against
    the backend interface, as in the source; its two implementations differ in
    what [delete_policy] returns, and the theorems show what follows from it. *)

From Stdlib Require Import Lia Ascii.
From S2P Require Import Prelude Policy Auth.
Import Model.

(** ** Storage backends *)

Abbreviation policy_map := (gmap (string * string) PolicyDocument).

Class PolicyStoreBackend (S : Type) := {
  put_policy : S -> string -> PolicyDocument -> option PolicyDocument * S;
  get_policy : S -> string -> string -> option PolicyDocument;
  delete_policy : S -> string -> string -> option PolicyDocument * S;
  list_policies : S -> string -> list string;
  get_all_for_tenant : S -> string -> list PolicyDocument;
  get_all : S -> list (string * PolicyDocument);
}.

(** *** In-memory store *)

Record PolicyStore := { inner : policy_map }.

Definition mem_put_policy (self : PolicyStore) (tenant_id : string) (document : PolicyDocument) :
    option PolicyDocument * PolicyStore :=
  let key := (tenant_id, document.(name)) in
  (self.(inner) !! key, {| inner := <[key := document]> self.(inner) |}).

Definition mem_get_policy (self : PolicyStore) (tenant_id policy_name : string) :
    option PolicyDocument := self.(inner) !! (tenant_id, policy_name).

Definition mem_delete_policy (self : PolicyStore) (tenant_id policy_name : string) :
    option PolicyDocument * PolicyStore :=
  let key := (tenant_id, policy_name) in
  (self.(inner) !! key, {| inner := delete key self.(inner) |}).

Definition mem_list_policies (self : PolicyStore) (tenant_id : string) : list string :=
  (fun e : string * string * PolicyDocument => e.1.2)
    <$> List.filter (fun e : string * string * PolicyDocument => bool_decide (e.1.1 = tenant_id))
                    (map_to_list self.(inner)).

Definition mem_get_all_for_tenant (self : PolicyStore) (tenant_id : string) :
    list PolicyDocument :=
  (fun e : string * string * PolicyDocument => e.2)
    <$> List.filter (fun e : string * string * PolicyDocument => bool_decide (e.1.1 = tenant_id))
                    (map_to_list self.(inner)).

Definition mem_get_all (self : PolicyStore) : list (string * PolicyDocument) :=
  (fun e : string * string * PolicyDocument => (e.1.1, e.2)) <$> map_to_list self.(inner).

#[global] Instance mem_backend : PolicyStoreBackend PolicyStore := {|
  put_policy := mem_put_policy; get_policy := mem_get_policy;
  delete_policy := mem_delete_policy; list_policies := mem_list_policies;
  get_all_for_tenant := mem_get_all_for_tenant; get_all := mem_get_all;
|}.

(** *** PostgreSQL backend

    The [shared.policies] rows by (canonical tenant id, name). [db_up = false]
    is a database that answers every query with an error, which each method
    logs and turns into an empty answer. *)

Record PgPolicyBackend := { rows : policy_map; db_up : bool }.

Section Pg.

(** [Uuid::parse_str] followed by [Uuid::to_string]. *)
Context (uuid_canon : string -> option string).

Definition pg_put_policy (self : PgPolicyBackend) (tenant_id : string)
    (document : PolicyDocument) : option PolicyDocument * PgPolicyBackend :=
  match uuid_canon tenant_id with
  | None => (None, self)
  | Some tenant_uuid =>
      (None, if self.(db_up)
             then {| rows := <[(tenant_uuid, document.(name)) := document]> self.(rows);
                     db_up := true |}
             else self)
  end.

Definition pg_get_policy (self : PgPolicyBackend) (tenant_id policy_name : string) :
    option PolicyDocument :=
  tenant_uuid ← uuid_canon tenant_id;
  if self.(db_up) then self.(rows) !! (tenant_uuid, policy_name) else None.

Definition pg_delete_policy (self : PgPolicyBackend) (tenant_id policy_name : string) :
    option PolicyDocument * PgPolicyBackend :=
  match uuid_canon tenant_id with
  | None => (None, self)
  | Some tenant_uuid =>
      (None, if self.(db_up)
             then {| rows := delete (tenant_uuid, policy_name) self.(rows); db_up := true |}
             else self)
  end.

Definition pg_get_all_for_tenant (self : PgPolicyBackend) (tenant_id : string) :
    list PolicyDocument :=
  match uuid_canon tenant_id with
  | Some tenant_uuid =>
      if self.(db_up) then mem_get_all_for_tenant {| inner := self.(rows) |} tenant_uuid else []
  | None => []
  end.

Definition pg_list_policies (self : PgPolicyBackend) (tenant_id : string) : list string :=
  match uuid_canon tenant_id with
  | Some tenant_uuid =>
      if self.(db_up) then mem_list_policies {| inner := self.(rows) |} tenant_uuid else []
  | None => []
  end.

Definition pg_get_all (self : PgPolicyBackend) : list (string * PolicyDocument) :=
  if self.(db_up) then mem_get_all {| inner := self.(rows) |} else [].

Definition pg_backend : PolicyStoreBackend PgPolicyBackend := {|
  put_policy := pg_put_policy; get_policy := pg_get_policy;
  delete_policy := pg_delete_policy; list_policies := pg_list_policies;
  get_all_for_tenant := pg_get_all_for_tenant; get_all := pg_get_all;
|}.

End Pg.

(** ** Wire documents *)

Record PolicyRuleDto := { dto_paths : list string; dto_capabilities : list string }.
Record PolicyDocumentDto := { dto_name : string; dto_rules : list PolicyRuleDto }.

Definition verb_of_capability (c : Capability) : string :=
  match c with
  | Read => "read" | Write => "write" | Delete => "delete" | List => "list"
  | Create => "create" | Update => "update" | Deny => "deny"
  end.

Definition doc_to_dto (doc : PolicyDocument) : PolicyDocumentDto :=
  {| dto_name := doc.(name);
     dto_rules := (fun r => {| dto_paths := r.(paths);
                               dto_capabilities := verb_of_capability <$> elements r.(capabilities) |})
                  <$> doc.(rules) |}.

(** The capability loop of one rule, stopping at the first unknown verb, whose
    message the two front ends word differently. [to_lowercase] is written for
    ASCII: no other character lowercases to a letter of a verb, so the accepted
    strings are the same. *)
Fixpoint parse_capabilities (unknown : string -> string) (raw : list string) :
    result string (gset Capability) :=
  match raw with
  | [] => Ok ∅
  | c :: raw' =>
      match capability_of_verb (Str.to_ascii_lowercase c) with
      | Some cap => caps ← parse_capabilities unknown raw'; Ok ({[cap]} ∪ caps)
      | None => Err (unknown (Str.to_ascii_lowercase c))
      end
  end.

Fixpoint parse_rules (unknown : string -> string) (rs : list PolicyRuleDto) :
    result string (list PolicyRule) :=
  match rs with
  | [] => Ok []
  | r :: rs' =>
      caps ← parse_capabilities unknown r.(dto_capabilities);
      rest ← parse_rules unknown rs';
      Ok ({| paths := r.(dto_paths); capabilities := caps |} :: rest)
  end.

Definition dto_to_doc (dto : PolicyDocumentDto) : result string PolicyDocument :=
  rs ← parse_rules (fun other => "unknown capability: " +:+ other) dto.(dto_rules);
  Ok {| name := dto.(dto_name); rules := rs |}.

Definition proto_to_domain_document (proto : PolicyDocumentDto) : result string PolicyDocument :=
  rs ← parse_rules (fun other => "unknown capability: '" +:+ other +:+ "'") proto.(dto_rules);
  Ok {| name := proto.(dto_name); rules := rs |}.

(** ** The service *)

Section Service.

Context {S : Type} {backend : PolicyStoreBackend S}.

Record AppState := { store : S; compiled : Evaluator.CompiledPolicies }.

(** The snapshot one pass of [run_compilation_task] builds from every document
    it reads. The same loop populates the first snapshot in [main]. *)
Definition compile (st : S) : Evaluator.CompiledPolicies :=
  fold_left (fun c (e : string * PolicyDocument) =>
               Evaluator.upsert c e.1 e.2.(name) e.2.(rules))
            (get_all st) Evaluator.new.

(** A pass that nothing interferes with: read, build, swap. *)
Definition run_compilation (state : AppState) : AppState :=
  {| store := state.(store); compiled := compile state.(store) |}.

(** *** gRPC *)

Inductive Status :=
| InvalidArgument (message : string)
| NotFound (message : string).

Definition grpc_authorize (state : AppState) (tenant_id : string) (names : list string)
    (action resource : string) : result Status (bool * string) :=
  if Str.is_empty tenant_id then Err (InvalidArgument "tenant_id must not be empty")
  else if Str.is_empty action then Err (InvalidArgument "action must not be empty")
  else if Str.is_empty resource then Err (InvalidArgument "resource must not be empty")
  else match Evaluator.evaluate state.(compiled) tenant_id names action resource with
       | Allow => Ok (true, "")
       | Denied reason => Ok (false, reason)
       end.

(** Store first, then the eager update of the snapshot, with nothing between. *)
Definition install (state : AppState) (tenant_id : string) (doc : PolicyDocument) : AppState :=
  {| store := (put_policy state.(store) tenant_id doc).2;
     compiled := Evaluator.upsert state.(compiled) tenant_id doc.(name) doc.(rules) |}.

Definition grpc_put_policy (state : AppState) (tenant_id : string)
    (policy : option PolicyDocumentDto) : result Status string * AppState :=
  if Str.is_empty tenant_id then (Err (InvalidArgument "tenant_id must not be empty"), state)
  else match policy with
       | None => (Err (InvalidArgument "policy document must be provided"), state)
       | Some proto_doc =>
           if Str.is_empty proto_doc.(dto_name)
           then (Err (InvalidArgument "policy name must not be empty"), state)
           else match proto_to_domain_document proto_doc with
                | Err e => (Err (InvalidArgument e), state)
                | Ok domain_doc => (Ok proto_doc.(dto_name), install state tenant_id domain_doc)
                end
       end.

Definition grpc_delete_policy (state : AppState) (tenant_id policy_name : string) :
    result Status () * AppState :=
  if Str.is_empty tenant_id then (Err (InvalidArgument "tenant_id must not be empty"), state)
  else if Str.is_empty policy_name
  then (Err (InvalidArgument "policy name must not be empty"), state)
  else match get_policy state.(store) tenant_id policy_name with
       | None => (Err (NotFound ("policy '" +:+ policy_name +:+ "' not found for tenant '"
                                 +:+ tenant_id +:+ "'")), state)
       | Some _ =>
           (Ok tt, {| store := (delete_policy state.(store) tenant_id policy_name).2;
                      compiled := (Evaluator.remove state.(compiled) tenant_id policy_name).2 |})
       end.

Definition grpc_list_policies (state : AppState) (tenant_id : string) :
    result Status (list string) :=
  if Str.is_empty tenant_id then Err (InvalidArgument "tenant_id must not be empty")
  else Ok (list_policies state.(store) tenant_id).

Definition grpc_get_policy (state : AppState) (tenant_id policy_name : string) :
    result Status PolicyDocumentDto :=
  if Str.is_empty tenant_id then Err (InvalidArgument "tenant_id must not be empty")
  else if Str.is_empty policy_name then Err (InvalidArgument "policy name must not be empty")
  else match get_policy state.(store) tenant_id policy_name with
       | Some doc => Ok (doc_to_dto doc)
       | None => Err (NotFound ("policy '" +:+ policy_name +:+ "' not found for tenant '"
                                +:+ tenant_id +:+ "'"))
       end.

(** *** HTTP *)

Inductive Body :=
| BMessage (message : string)
| BDocument (doc : PolicyDocumentDto)
| BDocuments (docs : list PolicyDocumentDto)
| BDecision (allowed : bool) (reason : string)
| BEmpty.

Definition Response : Type := Z * Body.

Context {auth : Authenticator} (env : Env).

Definition caller_tenant (headers : HeaderMap) : result Response string :=
  match resolve headers with
  | Ok id => Ok id.(tenant_id)
  | Err e => Err (401, BMessage e)
  end.

Definition TENANT_ADMIN_POLICIES : list string := ["root"; "admin"].

Definition may_manage_policies (id : Identity) : bool :=
  is_platform_admin env id
  || existsb (fun p => bool_decide (p ∈ TENANT_ADMIN_POLICIES)) id.(policies).

Definition admin_caller_tenant (headers : HeaderMap) : result Response string :=
  match resolve headers with
  | Err e => Err (401, BMessage e)
  | Ok id =>
      if negb (may_manage_policies id)
      then Err (403, BMessage ("changing policies requires the tenant's root or admin policy, "
                               +:+ "or platform administration"))
      else Ok id.(tenant_id)
  end.

Definition http_list_policies (state : AppState) (headers : HeaderMap) : Response :=
  match caller_tenant headers with
  | Err r => r
  | Ok tid => (200, BDocuments (doc_to_dto <$> get_all_for_tenant state.(store) tid))
  end.

Definition http_create_policy (state : AppState) (headers : HeaderMap) (body : PolicyDocumentDto) :
    Response * AppState :=
  match admin_caller_tenant headers with
  | Err r => (r, state)
  | Ok tid =>
      match dto_to_doc body with
      | Err e => ((422, BMessage e), state)
      | Ok doc => ((201, BDocument (doc_to_dto doc)), install state tid doc)
      end
  end.

Definition http_get_policy (state : AppState) (headers : HeaderMap) (policy_name : string) :
    Response :=
  match caller_tenant headers with
  | Err r => r
  | Ok tid =>
      match get_policy state.(store) tid policy_name with
      | Some doc => (200, BDocument (doc_to_dto doc))
      | None => (404, BMessage "policy not found")
      end
  end.

Definition http_upsert_policy (state : AppState) (headers : HeaderMap) (policy_name : string)
    (body : PolicyDocumentDto) : Response * AppState :=
  match admin_caller_tenant headers with
  | Err r => (r, state)
  | Ok tid =>
      match dto_to_doc {| dto_name := policy_name; dto_rules := body.(dto_rules) |} with
      | Err e => ((422, BMessage e), state)
      | Ok doc => ((200, BDocument (doc_to_dto doc)), install state tid doc)
      end
  end.

Definition http_delete_policy (state : AppState) (headers : HeaderMap) (policy_name : string) :
    Response * AppState :=
  match admin_caller_tenant headers with
  | Err r => (r, state)
  | Ok tid =>
      match delete_policy state.(store) tid policy_name with
      | (Some _, store') =>
          ((204, BEmpty),
           {| store := store';
              compiled := (Evaluator.remove state.(compiled) tid policy_name).2 |})
      | (None, store') =>
          ((404, BMessage "policy not found"),
           {| store := store'; compiled := state.(compiled) |})
      end
  end.

Definition http_authorize (state : AppState) (headers : HeaderMap) (names : list string)
    (action resource : string) : Response :=
  match caller_tenant headers with
  | Err r => r
  | Ok tid =>
      match Evaluator.evaluate state.(compiled) tid names action resource with
      | Allow => (200, BDecision true "allowed")
      | Denied reason => (200, BDecision false reason)
      end
  end.

(** *** The service as a transition system

    One request or rebuild after the other: each handler, and the rebuild, runs
    from its first access to the store to its last one to the snapshot before
    the next begins. [PolicyConcurrency] splits them at the points where the
    source awaits, lets them overlap, and shows that a handler nobody
    interferes with is the one written here. *)

Inductive service_step : AppState -> AppState -> Prop :=
| step_grpc_put state tid policy :
    service_step state (grpc_put_policy state tid policy).2
| step_grpc_delete state tid policy_name :
    service_step state (grpc_delete_policy state tid policy_name).2
| step_http_create state headers body :
    service_step state (http_create_policy state headers body).2
| step_http_upsert state headers policy_name body :
    service_step state (http_upsert_policy state headers policy_name body).2
| step_http_delete state headers policy_name :
    service_step state (http_delete_policy state headers policy_name).2
| step_compile state :
    service_step state (run_compilation state).

End Service.
Arguments AppState : clear implicits.

(** ** What a backend promises

    [docs] is the abstract content of a backend. The laws are what the handlers
    need of the store for the eager updates of the snapshot to be exact. *)

Class LawfulBackend (S : Type) `{PolicyStoreBackend S} := {
  docs : S -> policy_map;
  docs_get : forall s t n, get_policy s t n = docs s !! (t, n);
  docs_put : forall s t d, docs (put_policy s t d).2 = <[(t, d.(name)) := d]> (docs s);
  docs_delete : forall s t n, docs (delete_policy s t n).2 = delete (t, n) (docs s);
  delete_returns : forall s t n, (delete_policy s t n).1 = docs s !! (t, n);
  docs_all : forall s t d, (t, d) ∈ get_all s <-> exists n, docs s !! (t, n) = Some d;
}.

#[global] Instance mem_lawful : LawfulBackend PolicyStore.
Proof.
  refine {| docs := inner |}; try done.
  intros s t d. cbn. unfold mem_get_all. rewrite list_elem_of_fmap. split.
  - intros ([[t' n] d'] & [= -> ->] & Hin%elem_of_map_to_list). eauto.
  - intros [n Hn]. exists (t, n, d). split; [done|]. by apply elem_of_map_to_list.
Defined.

(** *** Under failures

    [table] is what is stored, [tenant_row] the tenant a tenant id is filed
    under and [answers] whether the store serves queries at the moment. A write
    to a store that does not answer, or for a tenant it does not know, is lost
    without an error. *)

Class PolicyTable (S : Type) `{PolicyStoreBackend S} := {
  tenant_row : string -> option string;
  table : S -> policy_map;
  answers : S -> bool;
  table_put : forall s t d,
    table (put_policy s t d).2 =
    match tenant_row t with
    | Some u => if answers s then <[(u, d.(name)) := d]> (table s) else table s
    | None => table s
    end;
  table_delete : forall s t n,
    table (delete_policy s t n).2 =
    match tenant_row t with
    | Some u => if answers s then delete (u, n) (table s) else table s
    | None => table s
    end;
  table_all : forall s t d,
    answers s = true -> (t, d) ∈ get_all s <-> exists n, table s !! (t, n) = Some d;
}.

#[global] Instance mem_table : PolicyTable PolicyStore.
Proof.
  refine {| tenant_row := Some; table := inner; answers := fun _ => true |}; try done.
  intros s t d _. exact (docs_all s t d).
Defined.

#[global] Instance pg_table (uuid_canon : string -> option string) :
  PolicyTable PgPolicyBackend (H := pg_backend uuid_canon).
Proof.
  refine {| tenant_row := uuid_canon; table := rows; answers := db_up |}.
  - intros [r up] t d. cbn. unfold pg_put_policy. by destruct (uuid_canon t), up.
  - intros [r up] t n. cbn. unfold pg_delete_policy. by destruct (uuid_canon t), up.
  - intros [r up] t d. cbn. intros ->. exact (docs_all {| inner := r |} t d).
Defined.

(** Every document is filed under its own name. *)
Definition named (m : policy_map) : Prop := forall t n d, m !! (t, n) = Some d -> d.(name) = n.

Lemma named_insert m t d : named m -> named (<[(t, d.(name)) := d]> m).
Proof. intros Hm t' n d' [[[= -> <-] ->]|[_ H]]%lookup_insert_Some; eauto. Qed.

Lemma named_delete m k : named m -> named (delete k m).
Proof. intros Hm t n d [_ H]%lookup_delete_Some. eauto. Qed.

Section Compilation.
Context {S : Type} `{PolicyStoreBackend S}.
Implicit Types (st : S).

(** The snapshot a store calls for. *)
Definition snapshot_of (m : policy_map) : gmap (string * string) (list PolicyRule) :=
  rules <$> m.

(** The fold of [compile] over a list of documents, from any accumulator. *)
Lemma compile_fold (l : list (string * PolicyDocument)) c k :
  (forall t d d', (t, d) ∈ l -> (t, d') ∈ l -> d.(name) = d'.(name) -> d = d') ->
  Evaluator.policies
    (fold_left (fun c (e : string * PolicyDocument) =>
                  Evaluator.upsert c e.1 e.2.(name) e.2.(rules)) l c) !! k =
  match List.find (fun e : string * PolicyDocument => bool_decide ((e.1, e.2.(name)) = k)) l with
  | Some e => Some e.2.(rules)
  | None => Evaluator.policies c !! k
  end.
Proof.
  revert c. induction l as [|[t d] l IH]; intros c Huniq; [done|]. cbn.
  rewrite IH by (intros; eapply Huniq; [right|right|]; eauto).
  destruct (List.find _ l) as [[t' d']|] eqn:E.
  - apply List.find_some in E as [Hin Hk]. cbn in Hk. bools. subst k.
    case_bool_decide as Hk; [|done]. injection Hk as <- Hn. cbn.
    apply list_elem_of_In in Hin.
    by rewrite (Huniq t d d') by (rewrite ?elem_of_cons; auto).
  - case_bool_decide as Hk; cbn; [subst k; by rewrite lookup_insert_eq|].
    by rewrite lookup_insert_ne by done.
Qed.

(** One compilation pass over a store that lists the documents of [m] produces
    exactly the snapshot of [m]. *)
Lemma compile_listed (m : policy_map) st :
  named m ->
  (forall t d, (t, d) ∈ get_all st <-> exists n, m !! (t, n) = Some d) ->
  Evaluator.policies (compile st) = snapshot_of m.
Proof.
  intros Hn Hall. apply map_eq. intros [t n]. unfold compile. rewrite compile_fold.
  - unfold snapshot_of. rewrite lookup_fmap.
    destruct (List.find _ (get_all st)) as [[t' d]|] eqn:E.
    + apply List.find_some in E as [Hin Hk]. cbn in Hk. bools. injection Hk as -> <-.
      apply list_elem_of_In, Hall in Hin as [n Hd].
      pose proof (Hn _ _ _ Hd). subst n. by rewrite Hd.
    + destruct (m !! (t, n)) as [d|] eqn:Hd; [|done]. exfalso.
      assert (Hin : (t, d) ∈ get_all st) by (apply Hall; eauto).
      pose proof (List.find_none _ _ E (t, d) (proj1 (list_elem_of_In _ _) Hin)) as Hf.
      cbn in Hf. bools. apply Hf. by rewrite (Hn _ _ _ Hd).
  - intros t' d d' [n1 Hd]%Hall [n2 Hd']%Hall He.
    pose proof (Hn _ _ _ Hd). pose proof (Hn _ _ _ Hd'). congruence.
Qed.

End Compilation.

Section Snapshot.
Context {S : Type} `{LawfulBackend S} {auth : Authenticator} (env : Env).
Implicit Types (state : AppState S) (st : S).

Lemma compile_spec st :
  named (docs st) -> Evaluator.policies (compile st) = snapshot_of (docs st).
Proof. intros Hn. apply compile_listed; [done|]. intros. apply docs_all. Qed.

(** The stored documents are well named and the snapshot is theirs. *)
Definition in_sync state : Prop :=
  named (docs state.(store)) /\
  Evaluator.policies state.(compiled) = snapshot_of (docs state.(store)).

Lemma install_in_sync state t d : in_sync state -> in_sync (install state t d).
Proof.
  intros [Hn Hc]. split; cbn; rewrite docs_put; [by apply named_insert|].
  rewrite Hc. unfold snapshot_of. by rewrite fmap_insert.
Qed.

Lemma evict_in_sync state t n :
  in_sync state ->
  in_sync {| store := (delete_policy state.(store) t n).2;
             compiled := (Evaluator.remove state.(compiled) t n).2 |}.
Proof.
  intros [Hn Hc]. split; cbn; rewrite docs_delete; [by apply named_delete|].
  rewrite Hc. unfold snapshot_of. by rewrite fmap_delete.
Qed.

Lemma run_compilation_in_sync state :
  named (docs state.(store)) -> in_sync (run_compilation state).
Proof. intros Hn. split; [done|]. cbn. by apply compile_spec. Qed.

#[local] Hint Resolve install_in_sync evict_in_sync run_compilation_in_sync : vault.

Lemma service_step_in_sync state state' :
  service_step env state state' -> in_sync state -> in_sync state'.
Proof.
  intros Hstep Hs. destruct Hstep.
  - unfold grpc_put_policy. repeat case_match; cbn; auto with vault.
  - unfold grpc_delete_policy. repeat case_match; cbn; auto with vault.
  - unfold http_create_policy. repeat case_match; cbn; auto with vault.
  - unfold http_upsert_policy. repeat case_match; cbn; auto with vault.
  - unfold http_delete_policy. destruct (admin_caller_tenant _ _) as [tid|r]; [|done].
    destruct (delete_policy _ _ _) as [[d|] store'] eqn:E; cbn.
    + replace store' with (delete_policy state.(store) tid policy_name).2 by by rewrite E.
      auto with vault.
    + pose proof (delete_returns state.(store) tid policy_name) as Hr.
      pose proof (docs_delete state.(store) tid policy_name) as Hd. rewrite E in Hr, Hd. cbn in *.
      destruct Hs as [Hn Hc]. unfold in_sync. cbn.
      rewrite Hd, delete_id by done. done.
  - destruct Hs. by apply run_compilation_in_sync.
Qed.

(** On a backend that keeps every law (the in-memory store), whatever requests
    and rebuilds have run one after the other since start-up, the live snapshot
    is the one a fresh compilation of the store would give. What is left of
    this when they overlap is the subject of [PolicyConcurrency]. *)
Theorem snapshot_never_stale state0 state :
  in_sync state0 ->
  rtc (service_step env) state0 state ->
  state.(compiled) = compile state.(store).
Proof.
  intros Hs Hsteps.
  assert (Hsync : in_sync state)
    by (induction Hsteps; eauto using service_step_in_sync).
  destruct Hsync as [Hn Hc]. apply compile_spec in Hn.
  destruct (compiled state), (compile (store state)). cbn in *. congruence.
Qed.

End Snapshot.

(** ** Wire round trip *)

Lemma capability_of_verb_of c :
  capability_of_verb (Str.to_ascii_lowercase (verb_of_capability c)) = Some c.
Proof. by destruct c. Qed.

Lemma parse_capabilities_verbs unknown (l : list Capability) :
  parse_capabilities unknown (verb_of_capability <$> l) = Ok (list_to_set l).
Proof.
  induction l as [|c l IH]; [done|]. cbn [fmap list_fmap parse_capabilities].
  rewrite capability_of_verb_of, IH. done.
Qed.

Lemma parse_rules_dto unknown (rs : list PolicyRule) :
  parse_rules unknown
    ((fun r => {| dto_paths := r.(paths);
                  dto_capabilities := verb_of_capability <$> elements r.(capabilities) |}) <$> rs)
  = Ok rs.
Proof.
  induction rs as [|[ps caps] rs IH]; [done|]. cbn [fmap list_fmap parse_rules].
  cbn [dto_capabilities dto_paths capabilities paths].
  rewrite parse_capabilities_verbs. cbn. setoid_rewrite IH. cbn.
  by rewrite list_to_set_elements_L.
Qed.

(** A policy document survives the wire format of both front ends: what an
    administrator reads back and submits again is the same document. *)
Theorem policy_wire_round_trip doc :
  dto_to_doc (doc_to_dto doc) = Ok doc /\ proto_to_domain_document (doc_to_dto doc) = Ok doc.
Proof.
  destruct doc as [n rs]. unfold dto_to_doc, proto_to_domain_document, doc_to_dto.
  cbn [dto_rules dto_name name rules]. by rewrite !parse_rules_dto.
Qed.

(** ** Who may change policies *)

Inductive HttpMutation :=
| MCreate (body : PolicyDocumentDto)
| MUpsert (policy_name : string) (body : PolicyDocumentDto)
| MDelete (policy_name : string).

Section Confinement.
Context {S : Type} `{LawfulBackend S} {auth : Authenticator} (env : Env).
Implicit Types (state : AppState S).

Definition http_mutate state (headers : HeaderMap) (m : HttpMutation) : Response * AppState S :=
  match m with
  | MCreate body => http_create_policy env state headers body
  | MUpsert policy_name body => http_upsert_policy env state headers policy_name body
  | MDelete policy_name => http_delete_policy env state headers policy_name
  end.

(** Two states that agree on every tenant but [t]. *)
Definition only_tenant_changed (t : string) state state' : Prop :=
  forall t' n, t' <> t ->
    docs state'.(store) !! (t', n) = docs state.(store) !! (t', n) /\
    Evaluator.policies state'.(compiled) !! (t', n) = Evaluator.policies state.(compiled) !! (t', n).

Lemma install_only_tenant state t d : only_tenant_changed t state (install state t d).
Proof.
  intros t' n Hne. cbn. rewrite docs_put, !lookup_insert_ne by congruence. done.
Qed.

Lemma delete_only_tenant (s : S) t n t' n' :
  t' <> t -> docs (delete_policy s t n).2 !! (t', n') = docs s !! (t', n').
Proof. intros. rewrite docs_delete, lookup_delete_ne by congruence. done. Qed.

(** An HTTP request that changes policies is refused with 401 when the
    caller is not authenticated and with 403 when it holds neither the tenant's
    root or admin policy nor platform administration, and then changes nothing;
    an administrator's request changes policies of its own tenant only. *)
Theorem http_mutation_confined state headers m :
  match resolve headers with
  | Err e => http_mutate state headers m = ((401, BMessage e), state)
  | Ok who =>
      if may_manage_policies env who
      then only_tenant_changed who.(tenant_id) state (http_mutate state headers m).2
      else (http_mutate state headers m).1.1 = 403 /\ (http_mutate state headers m).2 = state
  end.
Proof.
  assert (Hadm : admin_caller_tenant env headers = match resolve headers with
    | Err e => Err (401, BMessage e)
    | Ok who => if may_manage_policies env who then Ok who.(tenant_id)
                else admin_caller_tenant env headers end).
  { unfold admin_caller_tenant. destruct (resolve headers) as [who|e]; [|done].
    by destruct (may_manage_policies env who). }
  destruct (resolve headers) as [who|e] eqn:Hr.
  - destruct (may_manage_policies env who) eqn:Hm.
    + destruct m; cbn [http_mutate];
        unfold http_create_policy, http_upsert_policy, http_delete_policy; rewrite Hadm.
      1,2: case_match; cbn; [apply install_only_tenant|by intros ? ?].
      destruct (delete_policy _ _ _) as [o s'] eqn:E. intros t' n Hne.
      pose proof (delete_only_tenant state.(store) who.(tenant_id) policy_name t' n Hne) as Hd.
      rewrite E in Hd. destruct o; cbn in *; [|done].
      by rewrite lookup_delete_ne by congruence.
    + clear Hadm. destruct m; cbn [http_mutate];
        unfold http_create_policy, http_upsert_policy, http_delete_policy, admin_caller_tenant;
        by rewrite Hr, Hm.
  - destruct m; cbn [http_mutate];
      unfold http_create_policy, http_upsert_policy, http_delete_policy; by rewrite Hadm.
Qed.

End Confinement.

(** ** The PostgreSQL backend

    It satisfies every law but [delete_returns], and only for tenants whose id
    is a canonical UUID while the database answers. *)

Section PgService.
Context (uuid_canon : string -> option string) {auth : Authenticator} (env : Env).
Let backend : PolicyStoreBackend PgPolicyBackend := pg_backend uuid_canon.
#[local] Existing Instance backend.

(** An administrator's HTTP DELETE removes the row, answers 404 and leaves the
    snapshot as it was: the deleted policy keeps deciding requests until the
    next background rebuild. *)
Theorem pg_http_delete_keeps_snapshot (rws : policy_map) c headers tid u policy_name :
  admin_caller_tenant env headers = Ok tid -> uuid_canon tid = Some u ->
  http_delete_policy env {| store := {| rows := rws; db_up := true |}; compiled := c |}
    headers policy_name =
  ((404, BMessage "policy not found"),
   {| store := {| rows := delete (u, policy_name) rws; db_up := true |}; compiled := c |}).
Proof.
  intros Ha Hu. unfold http_delete_policy. rewrite Ha. cbn.
  unfold pg_delete_policy. by rewrite Hu.
Qed.

(** A database outage fails closed: the rebuild that runs while the database
    does not answer leaves an empty snapshot, under which both front ends deny
    every request of every tenant. *)
Theorem pg_outage_fails_closed (rws : policy_map) c tid names action resource :
  let state := run_compilation {| store := {| rows := rws; db_up := false |}; compiled := c |} in
  Evaluator.evaluate state.(compiled) tid names action resource <> Allow /\
  forall r, grpc_authorize state tid names action resource <> Ok (true, r).
Proof.
  set (state := run_compilation _).
  assert (Hd : Evaluator.evaluate state.(compiled) tid names action resource <> Allow).
  { rewrite Evaluator.evaluate_allow.
    intros (req & _ & (rule & (n & rs & _ & Hl & _) & _) & _). done. }
  split; [done|]. intros r. unfold grpc_authorize. repeat case_match; congruence.
Qed.

End PgService.

(** ** Witnesses *)

#[local] Instance sample_auth : Authenticator := {|
  resolve headers :=
    match headers !! "x-vault-token" with
    | Some "root-token" => Ok {| tenant_id := "t1"; principal_id := "ada"; policies := ["root"];
                                 expires_at := None; superuser := false |}
    | _ => Err "no token"
    end |}.

Definition sample_doc : PolicyDocument :=
  {| name := "readers"; rules := [Evaluator.sample_rule] |}.

Definition sample_service : AppState PolicyStore :=
  {| store := {| inner := ∅ |}; compiled := Evaluator.new |}.

Lemma snapshot_never_stale_witness :
  let s1 := (http_create_policy closed_env sample_service {["x-vault-token" := "root-token"]}
               (doc_to_dto sample_doc)).2 in
  let s2 := (grpc_delete_policy s1 "t1" "readers").2 in
  s2.(compiled) = compile s2.(store).
Proof.
  intros s1 s2. apply (snapshot_never_stale closed_env sample_service s2).
  - split; [by intros ? ? ?|]. vm_compute. reflexivity.
  - eapply rtc_l; [apply step_http_create|]. eapply rtc_l; [apply step_grpc_delete|].
    apply rtc_refl.
Defined.

Lemma pg_http_delete_keeps_snapshot_witness :
  http_delete_policy (backend := pg_backend Some) closed_env
    {| store := {| rows := {[("t1", "readers") := sample_doc]}; db_up := true |};
       compiled := Evaluator.upsert Evaluator.new "t1" "readers" [Evaluator.sample_rule] |}
    {["x-vault-token" := "root-token"]} "readers" =
  ((404, BMessage "policy not found"),
   {| store := {| rows := delete ("t1", "readers") {[("t1", "readers") := sample_doc]};
                  db_up := true |};
      compiled := Evaluator.upsert Evaluator.new "t1" "readers" [Evaluator.sample_rule] |}).
Proof.
  apply (pg_http_delete_keeps_snapshot Some closed_env _ _ _ "t1"); vm_compute; reflexivity.
Defined.
