(* ===== verification/PolicyConcurrency.v ===== *)
(** * The policy engine under concurrent requests

    The handlers of [grpc.rs] and [http.rs] await the store and then, as a
    separate step, the lock of the compiled snapshot; the background task of
    [main.rs] awaits [get_all] and then the same lock. Between two such steps
    anything else may run. This file splits each handler and the rebuild of
    [PolicyEngine] at those points, runs any number of them interleaved, with
    clients that go away, other replicas and outages of the database, and shows
    what a decision then still has to do with the stored documents. *)

From S2P Require Import Prelude Policy Auth PolicyEngine.
Import Model.

(** ** Handlers by phases *)

Inductive Reply :=
| GrpcPutReply (r : result Status string)
| GrpcDeleteReply (r : result Status ())
| HttpReply (r : Response).

(** What a handler does next, with the answer it will give at the end. *)
Inductive Phase :=
| WriteStore (tenant_id : string) (doc : PolicyDocument) (answer : Reply)
| UpdateSnapshot (tenant_id : string) (doc : PolicyDocument) (answer : Reply)
| HttpDelete (tenant_id policy_name : string)
| GrpcFind (tenant_id policy_name : string)
| GrpcDelete (tenant_id policy_name : string)
| EvictSnapshot (tenant_id policy_name : string) (answer : Reply).

(** The policy a handler is about. *)
Definition phase_key (p : Phase) : string * string :=
  match p with
  | WriteStore t d _ | UpdateSnapshot t d _ => (t, d.(name))
  | HttpDelete t n | GrpcFind t n | GrpcDelete t n | EvictSnapshot t n _ => (t, n)
  end.

Inductive Mutation :=
| PutPolicy (tenant_id : string) (policy : option PolicyDocumentDto)
| DeletePolicy (tenant_id policy_name : string)
| PostHttp (headers : HeaderMap) (body : PolicyDocumentDto)
| PutHttp (headers : HeaderMap) (policy_name : string) (body : PolicyDocumentDto)
| DeleteHttp (headers : HeaderMap) (policy_name : string).

Section Phases.
Context {S : Type} `{PolicyStoreBackend S} {auth : Authenticator} (env : Env).
Implicit Types (state : AppState S).

Definition grpc_put_begin (tenant_id : string) (policy : option PolicyDocumentDto) :
    result Reply Phase :=
  if Str.is_empty tenant_id
  then Err (GrpcPutReply (Err (InvalidArgument "tenant_id must not be empty")))
  else match policy with
       | None => Err (GrpcPutReply (Err (InvalidArgument "policy document must be provided")))
       | Some proto_doc =>
           if Str.is_empty proto_doc.(dto_name)
           then Err (GrpcPutReply (Err (InvalidArgument "policy name must not be empty")))
           else match proto_to_domain_document proto_doc with
                | Err e => Err (GrpcPutReply (Err (InvalidArgument e)))
                | Ok domain_doc =>
                    Ok (WriteStore tenant_id domain_doc (GrpcPutReply (Ok proto_doc.(dto_name))))
                end
       end.

Definition grpc_delete_begin (tenant_id policy_name : string) : result Reply Phase :=
  if Str.is_empty tenant_id
  then Err (GrpcDeleteReply (Err (InvalidArgument "tenant_id must not be empty")))
  else if Str.is_empty policy_name
  then Err (GrpcDeleteReply (Err (InvalidArgument "policy name must not be empty")))
  else Ok (GrpcFind tenant_id policy_name).

Definition http_write_begin (headers : HeaderMap) (status : Z) (body : PolicyDocumentDto) :
    result Reply Phase :=
  match admin_caller_tenant env headers with
  | Err r => Err (HttpReply r)
  | Ok tid =>
      match dto_to_doc body with
      | Err e => Err (HttpReply (422, BMessage e))
      | Ok doc => Ok (WriteStore tid doc (HttpReply (status, BDocument (doc_to_dto doc))))
      end
  end.

Definition http_delete_begin (headers : HeaderMap) (policy_name : string) : result Reply Phase :=
  match admin_caller_tenant env headers with
  | Err r => Err (HttpReply r)
  | Ok tid => Ok (HttpDelete tid policy_name)
  end.

(** From the arrival of a request to its first access to the store. *)
Definition begin_request (m : Mutation) : result Reply Phase :=
  match m with
  | PutPolicy tenant_id policy => grpc_put_begin tenant_id policy
  | DeletePolicy tenant_id policy_name => grpc_delete_begin tenant_id policy_name
  | PostHttp headers body => http_write_begin headers 201 body
  | PutHttp headers policy_name body =>
      http_write_begin headers 200 {| dto_name := policy_name; dto_rules := body.(dto_rules) |}
  | DeleteHttp headers policy_name => http_delete_begin headers policy_name
  end.

(** One phase: what it leaves and either the answer or what comes next. *)
Definition advance (p : Phase) (state : AppState S) : result Reply Phase * AppState S :=
  match p with
  | WriteStore t d answer =>
      (Ok (UpdateSnapshot t d answer),
       {| store := (put_policy state.(store) t d).2; compiled := state.(compiled) |})
  | UpdateSnapshot t d answer =>
      (Err answer, {| store := state.(store);
                      compiled := Evaluator.upsert state.(compiled) t d.(name) d.(rules) |})
  | HttpDelete t n =>
      match delete_policy state.(store) t n with
      | (Some _, store') =>
          (Ok (EvictSnapshot t n (HttpReply (204, BEmpty))),
           {| store := store'; compiled := state.(compiled) |})
      | (None, store') =>
          (Err (HttpReply (404, BMessage "policy not found")),
           {| store := store'; compiled := state.(compiled) |})
      end
  | GrpcFind t n =>
      match get_policy state.(store) t n with
      | None => (Err (GrpcDeleteReply (Err (NotFound ("policy '" +:+ n
                        +:+ "' not found for tenant '" +:+ t +:+ "'")))), state)
      | Some _ => (Ok (GrpcDelete t n), state)
      end
  | GrpcDelete t n =>
      (Ok (EvictSnapshot t n (GrpcDeleteReply (Ok tt))),
       {| store := (delete_policy state.(store) t n).2; compiled := state.(compiled) |})
  | EvictSnapshot t n answer =>
      (Err answer, {| store := state.(store);
                      compiled := (Evaluator.remove state.(compiled) t n).2 |})
  end.

(** A handler nobody interferes with: its phases back to back. *)
Fixpoint run_phases (fuel : nat) (p : Phase) (state : AppState S) : option Reply * AppState S :=
  match fuel with
  | O => (None, state)
  | Datatypes.S fuel' =>
      match advance p state with
      | (Ok p', state') => run_phases fuel' p' state'
      | (Err answer, state') => (Some answer, state')
      end
  end.

(** The handlers of [PolicyEngine]. *)
Definition serve (state : AppState S) (m : Mutation) : Reply * AppState S :=
  match m with
  | PutPolicy tenant_id policy =>
      let '(r, state') := grpc_put_policy state tenant_id policy in (GrpcPutReply r, state')
  | DeletePolicy tenant_id policy_name =>
      let '(r, state') := grpc_delete_policy state tenant_id policy_name in
      (GrpcDeleteReply r, state')
  | PostHttp headers body =>
      let '(r, state') := http_create_policy env state headers body in (HttpReply r, state')
  | PutHttp headers policy_name body =>
      let '(r, state') := http_upsert_policy env state headers policy_name body in
      (HttpReply r, state')
  | DeleteHttp headers policy_name =>
      let '(r, state') := http_delete_policy env state headers policy_name in
      (HttpReply r, state')
  end.

(** No handler has more than three phases, and one that runs alone is the
    handler of [PolicyEngine]. *)
Theorem uninterrupted_handler state m :
  serve state m =
  match begin_request m with
  | Err answer => (answer, state)
  | Ok p => let '(answer, state') := run_phases 3 p state in
            (default (HttpReply (500, BEmpty)) answer, state')
  end.
Proof.
  destruct m; cbn [serve begin_request].
  - unfold grpc_put_policy, grpc_put_begin. destruct (Str.is_empty tenant_id); [done|].
    destruct policy as [proto|]; [|done]. destruct (Str.is_empty (dto_name proto)); [done|].
    by destruct (proto_to_domain_document proto).
  - unfold grpc_delete_policy, grpc_delete_begin. destruct (Str.is_empty tenant_id); [done|].
    destruct (Str.is_empty policy_name); [done|].
    cbn [run_phases advance]. by destruct (get_policy _ _ _).
  - unfold http_create_policy, http_write_begin. destruct (admin_caller_tenant _ _); [|done].
    by destruct (dto_to_doc _).
  - unfold http_upsert_policy, http_write_begin. destruct (admin_caller_tenant _ _); [|done].
    by destruct (dto_to_doc _).
  - unfold http_delete_policy, http_delete_begin. destruct (admin_caller_tenant _ _); [|done].
    cbn [run_phases advance]. by destruct (delete_policy _ _ _) as [[]].
Qed.

End Phases.

(** ** The running service *)

(** The application state, the handlers in flight and the snapshot a rebuild
    has built and not yet put in place. *)
Record Live (S : Type) := {
  app : AppState S;
  in_flight : list Phase;
  rebuilt : option Evaluator.CompiledPolicies;
}.
Arguments app {S} _. Arguments in_flight {S} _. Arguments rebuilt {S} _.
Arguments Build_Live {S} _ _ _.

Definition set_app {S} (l : Live S) (a : AppState S) : Live S :=
  Build_Live a l.(in_flight) l.(rebuilt).

(** [let all_docs = store.get_all().await] and the loop that builds from it. *)
Definition rebuild_read {S} `{PolicyStoreBackend S} (l : Live S) : Live S :=
  Build_Live l.(app) l.(in_flight) (Some (compile l.(app).(store))).

(** [*compiled.write().await = new_snapshot]. *)
Definition rebuild_swap {S} (l : Live S) (snapshot : Evaluator.CompiledPolicies) : Live S :=
  Build_Live {| store := l.(app).(store); compiled := snapshot |} l.(in_flight) None.

Section Interleaving.
Context {S : Type} `{PolicyTable S} {auth : Authenticator} (env : Env).
Implicit Types (l : Live S) (state : AppState S).

(** What can happen next: a request arrives, a handler in flight runs its next
    phase or is dropped with its connection, the rebuild reads or swaps (there
    is one background task, so it reads again only after it has swapped), or
    the stored documents change from outside (another replica, replication) or
    the database stops or resumes answering. *)
Inductive Event :=
| Begun (p : Phase)
| Advanced (answer : option Reply)
| Dropped
| RebuildRead (answered : bool)
| RebuildSwapped
| Outside (changed : gset (string * string)).

Inductive live_step : Live S -> Event -> Live S -> Prop :=
| live_begin l m p :
    begin_request env m = Ok p ->
    live_step l (Begun p) (Build_Live l.(app) (p :: l.(in_flight)) l.(rebuilt))
| live_next l before p after p' state' :
    l.(in_flight) = before ++ p :: after -> advance p l.(app) = (Ok p', state') ->
    live_step l (Advanced None) (Build_Live state' (before ++ p' :: after) l.(rebuilt))
| live_answer l before p after answer state' :
    l.(in_flight) = before ++ p :: after -> advance p l.(app) = (Err answer, state') ->
    live_step l (Advanced (Some answer)) (Build_Live state' (before ++ after) l.(rebuilt))
| live_drop l before p after :
    l.(in_flight) = before ++ p :: after ->
    live_step l Dropped (Build_Live l.(app) (before ++ after) l.(rebuilt))
| live_read l :
    l.(rebuilt) = None ->
    live_step l (RebuildRead (answers l.(app).(store))) (rebuild_read l)
| live_swap l c :
    l.(rebuilt) = Some c -> live_step l RebuildSwapped (rebuild_swap l c)
| live_outside l s' changed :
    named (table s') ->
    (forall k, k ∉ changed -> table s' !! k = table l.(app).(store) !! k) ->
    live_step l (Outside changed) (set_app l {| store := s'; compiled := l.(app).(compiled) |}).

Inductive live_steps : Live S -> list Event -> Live S -> Prop :=
| live_nil l : live_steps l [] l
| live_cons l e l1 es l2 : live_step l e l1 -> live_steps l1 es l2 -> live_steps l (e :: es) l2.

(** A handler that may write the policy [n] of the tenant [t], to the table or
    to the snapshot: it names the tenant so, or an id that is filed under it. *)
Definition touches (t n : string) (p : Phase) : Prop :=
  (phase_key p).2 = n /\ ((phase_key p).1 = t \/ tenant_row (phase_key p).1 = Some t).

(** No handler in flight is about the policy. *)
Definition idle (t n : string) l : Prop := forall p, p ∈ l.(in_flight) -> ~ touches t n p.

(** An event that is not a change of the policy. *)
Definition left_alone (t n : string) (e : Event) : Prop :=
  match e with
  | Begun p => ~ touches t n p
  | Outside changed => (t, n) ∉ changed
  | _ => True
  end.

(** A snapshot that has for the policy what is stored. *)
Definition agrees (t n : string) (s : S) (c : Evaluator.CompiledPolicies) : Prop :=
  Evaluator.policies c !! (t, n) = snapshot_of (table s) !! (t, n).

(** A rebuild has read what is stored of the policy: it is in place or about to be. *)
Definition caught_up (t n : string) l : Prop :=
  match l.(rebuilt) with
  | Some c => agrees t n l.(app).(store) c
  | None => agrees t n l.(app).(store) l.(app).(compiled)
  end.

(** The decisions follow the table, now and after the swap of any rebuild under way. *)
Definition settled (t n : string) l : Prop :=
  agrees t n l.(app).(store) l.(app).(compiled) /\ caught_up t n l.

Lemma advance_elsewhere p state t n :
  ~ touches t n p ->
  table (advance p state).2.(store) !! (t, n) = table state.(store) !! (t, n) /\
  Evaluator.policies (advance p state).2.(compiled) !! (t, n) =
  Evaluator.policies state.(compiled) !! (t, n).
Proof.
  assert (Hput : forall s u d, ~ ((d.(name) = n) /\ (u = t \/ tenant_row u = Some t)) ->
    table (put_policy s u d).2 !! (t, n) = table s !! (t, n)).
  { intros s u d Hne. rewrite table_put. destruct (tenant_row u) as [v|] eqn:E; [|done].
    destruct (answers s); [|done]. apply lookup_insert_ne. intros [= -> <-]. apply Hne. auto. }
  assert (Hdel : forall s u m, ~ ((m = n) /\ (u = t \/ tenant_row u = Some t)) ->
    table (delete_policy s u m).2 !! (t, n) = table s !! (t, n)).
  { intros s u m Hne. rewrite table_delete. destruct (tenant_row u) as [v|] eqn:E; [|done].
    destruct (answers s); [|done]. apply lookup_delete_ne. intros [= -> <-]. apply Hne. auto. }
  unfold touches. destruct p as [u d ?|u d ?|u m|u m|u m|u m ?]; cbn; intros Hne.
  - split; [by apply Hput|done].
  - split; [done|]. apply lookup_insert_ne. intros [= -> <-]. apply Hne. auto.
  - specialize (Hdel state.(store) u m Hne). by destruct (delete_policy _ _ _) as [[]].
  - by destruct (get_policy _ _ _).
  - split; [by apply Hdel|done].
  - split; [done|]. apply lookup_delete_ne. intros [= -> <-]. apply Hne. auto.
Qed.

Lemma advance_key p p' state : (advance p state).1 = Ok p' -> phase_key p' = phase_key p.
Proof.
  destruct p; cbn; intros Hp; simplify_eq/=; try done;
    repeat case_match; simplify_eq/=; done.
Qed.

Lemma advance_named p state :
  named (table state.(store)) -> named (table (advance p state).2.(store)).
Proof.
  intros Hn. destruct p as [t d ?|t d ?|t n|t n|t n|t n ?]; cbn; try done.
  - rewrite table_put. repeat case_match; eauto using named_insert.
  - pose proof (table_delete state.(store) t n) as Hd.
    destruct (delete_policy _ _ _) as [[] s']; cbn in *; rewrite Hd;
      repeat case_match; eauto using named_delete.
  - by destruct (get_policy _ _ _).
  - rewrite table_delete. repeat case_match; eauto using named_delete.
Qed.

Lemma live_step_named l e l' :
  live_step l e l' -> named (table l.(app).(store)) -> named (table l'.(app).(store)).
Proof.
  destruct 1 as [| ? ? ? ? ? ? ? E| ? ? ? ? ? ? ? E| | | |]; cbn; try done; intros Hn;
    pose proof (advance_named p l.(app) Hn) as Ha; by rewrite E in Ha.
Qed.

Lemma live_step_idle t n l e l' :
  live_step l e l' -> left_alone t n e -> idle t n l -> idle t n l'.
Proof.
  unfold idle. destruct 1 as [| ? ? ? ? ? ? Hf E| ? ? ? ? ? ? Hf E| ? ? ? ? Hf| | |];
    cbn; intros Ha Hi p0 Hp; try (by apply Hi).
  - apply elem_of_cons in Hp as [->|Hp]; eauto.
  - rewrite Hf in Hi. apply elem_of_app in Hp as [Hp|[->|Hp]%elem_of_cons].
    + apply Hi, elem_of_app. auto.
    + unfold touches. erewrite advance_key by (by rewrite E).
      apply (Hi p), elem_of_app. right. by left.
    + apply Hi, elem_of_app. right. by right.
  - rewrite Hf in Hi. apply Hi, elem_of_app.
    apply elem_of_app in Hp as [Hp|Hp]; [auto|right; by right].
  - rewrite Hf in Hi. apply Hi, elem_of_app.
    apply elem_of_app in Hp as [Hp|Hp]; [auto|right; by right].
Qed.

(** A pass that reads a store that answers reads what is stored. *)
Lemma read_agrees (s : S) t n :
  named (table s) -> answers s = true -> agrees t n s (compile s).
Proof.
  intros Hn Ha. unfold agrees. rewrite (compile_listed (table s)); [done|done|].
  intros. by apply table_all.
Qed.

(** The part of a step that does not concern the policy. *)
Lemma live_step_frame t n l e l' :
  live_step l e l' -> left_alone t n e -> idle t n l ->
  named (table l.(app).(store)) -> e <> RebuildRead false ->
  (caught_up t n l -> caught_up t n l') /\ (settled t n l -> settled t n l') /\
  (e = RebuildRead true -> caught_up t n l') /\ (e = RebuildSwapped -> caught_up t n l -> settled t n l').
Proof.
  unfold settled, caught_up, agrees, snapshot_of.
  destruct 1 as [|l before p after p' state' Hf E|l before p after ans state' Hf E|
                 |l Hr|l c Hr|l s' changed Hn' Hs]; cbn; intros Ha Hi Hn He;
    try (by split_and!).
  1,2: destruct (advance_elsewhere p l.(app) t n) as [Ht Hc];
    [apply Hi; rewrite Hf; apply elem_of_app; right; by left|];
    rewrite E in Ht, Hc; cbn in Ht, Hc; rewrite !lookup_fmap, Ht, Hc;
    by split_and!; try (destruct (rebuilt l); done).
  - destruct (answers _) eqn:E; [|done].
    pose proof (read_agrees l.(app).(store) t n Hn E) as Hread.
    split_and!; try done. by intros [].
  - rewrite Hr. split_and!; try done; by intros [].
  - rewrite !lookup_fmap, Hs by done. by split_and!.
Qed.

Lemma live_steps_app es1 es2 l l' :
  live_steps l (es1 ++ es2) l' -> exists l1, live_steps l es1 l1 /\ live_steps l1 es2 l'.
Proof.
  revert l. induction es1 as [|e es1 IH]; intros l Hs; cbn in Hs.
  - exists l. split; [constructor|done].
  - inversion Hs as [|? ? l1 ? ? He Hs']; subst. apply IH in Hs' as (l2 & ? & ?).
    exists l2. split; [by econstructor|done].
Qed.

(** What every event that leaves the policy alone keeps. *)
Lemma live_steps_keep t n l es l' :
  live_steps l es l' -> (forall e, e ∈ es -> left_alone t n e) -> idle t n l ->
  named (table l.(app).(store)) ->
  idle t n l' /\ named (table l'.(app).(store)) /\
  (RebuildRead false ∉ es ->
   (caught_up t n l -> caught_up t n l') /\ (settled t n l -> settled t n l')).
Proof.
  induction 1 as [|l e l1 es l2 He Hs IH]; intros Ha Hi Hn; [done|].
  assert (Hae : left_alone t n e) by (apply Ha; by left).
  destruct IH as (IH1 & IH2 & IH3);
    eauto using live_step_idle, live_step_named, list_elem_of_further.
  split_and!; [done|done|]. intros Hf. apply not_elem_of_cons in Hf as [Hne Hf].
  destruct (live_step_frame t n l e l1 He Hae Hi Hn) as (F1 & F2 & _); [congruence|].
  destruct (IH3 Hf) as [IHc IHs]. split; auto.
Qed.

Lemma scan_policies_agree c1 c2 t resource req names b :
  (forall n, n ∈ names -> Evaluator.policies c1 !! (t, n) = Evaluator.policies c2 !! (t, n)) ->
  Evaluator.scan_policies c1 t resource req names b =
  Evaluator.scan_policies c2 t resource req names b.
Proof.
  revert b. induction names as [|n names IH]; intros b Hn; [done|]. cbn.
  rewrite (Hn n) by by left.
  assert (forall b', Evaluator.scan_policies c1 t resource req names b' =
                     Evaluator.scan_policies c2 t resource req names b') as IH'
    by (intros b'; apply IH; intros; apply Hn; by right).
  by repeat case_match.
Qed.

(** A decision depends on the snapshot only through the policies the caller names. *)
Lemma evaluate_agree c1 c2 t names action resource :
  (forall n, n ∈ names -> Evaluator.policies c1 !! (t, n) = Evaluator.policies c2 !! (t, n)) ->
  Evaluator.evaluate c1 t names action resource = Evaluator.evaluate c2 t names action resource.
Proof.
  intros Hn. unfold Evaluator.evaluate. case_match; [|done].
  by rewrite (scan_policies_agree c1 c2) by done.
Qed.

(** A full rebuild, whatever runs beside it, settles a policy nobody is changing. *)
Lemma rebuild_settles t n l0 l e1 e2 e3 :
  named (table l0.(app).(store)) -> idle t n l0 ->
  live_steps l0 (e1 ++ RebuildRead true :: e2 ++ RebuildSwapped :: e3) l ->
  (forall e, e ∈ e1 ++ e2 ++ e3 -> left_alone t n e) ->
  RebuildRead false ∉ e2 ++ e3 ->
  settled t n l.
Proof.
  intros Hn Hi Hs Ha Hf. rewrite not_elem_of_app in Hf. destruct Hf as [Hf2 Hf3].
  apply live_steps_app in Hs as (l1 & Hs1 & Hs).
  inversion Hs as [|? ? l2 ? ? Hr Hs']; subst; clear Hs.
  apply live_steps_app in Hs' as (l3 & Hs2 & Hs).
  inversion Hs as [|? ? l4 ? ? Hw Hs3]; subst; clear Hs.
  assert (forall e, e ∈ e1 -> left_alone t n e) as Ha1 by (intros; apply Ha; set_solver).
  assert (forall e, e ∈ e2 -> left_alone t n e) as Ha2 by (intros; apply Ha; set_solver).
  assert (forall e, e ∈ e3 -> left_alone t n e) as Ha3 by (intros; apply Ha; set_solver).
  destruct (live_steps_keep t n l0 e1 l1) as (Hi1 & Hn1 & _); try done.
  assert (Hi2 : idle t n l2) by (eapply live_step_idle; done).
  assert (Hn2 : named (table l2.(app).(store))) by (eapply live_step_named; done).
  destruct (live_step_frame t n l1 _ l2 Hr) as (_ & _ & Hc2 & _); [done..|].
  destruct (live_steps_keep t n l2 e2 l3) as (Hi3 & Hn3 & K3); try done.
  destruct (live_step_frame t n l3 _ l4 Hw) as (_ & _ & _ & Hc4); [done..|].
  destruct (live_steps_keep t n l4 e3 l) as (_ & _ & K); try done.
  - by eapply live_step_idle.
  - by eapply live_step_named.
  - destruct (K3 Hf2) as [K3c _]. destruct (K Hf3) as [_ Ks]. auto.
Qed.

(** C8. With handlers, rebuilds, dropped connections, other replicas and outages
    interleaved in any order, on either store: once a rebuild that read the
    store after the last change of the caller's policies has swapped its
    snapshot in, every decision is the one the stored documents call for, and
    stays so while nobody changes these policies and the rebuilds that follow
    get an answer from the store. Until that rebuild a change may be evaluated
    late; see [rebuild_revives_deleted]. *)
Theorem decisions_follow_store l0 l e1 e2 e3 t names action resource :
  named (table l0.(app).(store)) ->
  (forall n, n ∈ names -> idle t n l0) ->
  live_steps l0 (e1 ++ RebuildRead true :: e2 ++ RebuildSwapped :: e3) l ->
  (forall n e, n ∈ names -> e ∈ e1 ++ e2 ++ e3 -> left_alone t n e) ->
  RebuildRead false ∉ e2 ++ e3 ->
  Evaluator.evaluate l.(app).(compiled) t names action resource =
  Evaluator.evaluate {| Evaluator.policies := rules <$> table l.(app).(store) |}
    t names action resource.
Proof.
  intros Hn Hi Hs Ha Hf. apply evaluate_agree. intros n Hin.
  apply (rebuild_settles t n l0 l e1 e2 e3); eauto.
Qed.

End Interleaving.

(** ** The race the rebuild leaves open *)

Section Race.
#[local] Instance race_auth : Authenticator := {|
  resolve headers :=
    match headers !! "x-vault-token" with
    | Some "root-token" => Ok {| tenant_id := "t1"; principal_id := "ada"; policies := ["root"];
                                 expires_at := None; superuser := false |}
    | _ => Err "no token"
    end |}.

Definition race_doc : PolicyDocument :=
  {| name := "readers"; rules := [{| paths := ["secret/**"]; capabilities := {[Read]} |}] |}.

Definition race_headers : HeaderMap := {["x-vault-token" := "root-token"]}.

Definition race_app {S} (s : S) : AppState S :=
  {| store := s;
     compiled := Evaluator.upsert Evaluator.new "t1" "readers" race_doc.(rules) |}.

Definition race_start : Live PolicyStore :=
  Build_Live (race_app {| inner := {[("t1", "readers") := race_doc]} |}) [] None.

(** A deletion that starts after the rebuild has read the store and ends
    before it swaps is answered 204, and the swap brings the deleted policy
    back: it grants again, although nothing is stored of it, until the next
    pass. *)
Theorem rebuild_revives_deleted :
  exists l,
    live_steps closed_env race_start
      [RebuildRead true; Begun (HttpDelete "t1" "readers"); Advanced None;
       Advanced (Some (HttpReply (204, BEmpty))); RebuildSwapped] l /\
    table l.(app).(store) !! ("t1", "readers") = None /\
    Evaluator.evaluate l.(app).(compiled) "t1" ["readers"] "read" "secret/db" = Allow.
Proof.
  eexists. split.
  { eapply live_cons; [exact (live_read closed_env race_start eq_refl)|].
    eapply live_cons; [by apply (live_begin _ _ (DeleteHttp race_headers "readers"))|].
    eapply live_cons; [by apply (live_next _ _ [] (HttpDelete "t1" "readers") [])|].
    eapply live_cons.
    { by apply (live_answer _ _ [] (EvictSnapshot "t1" "readers" (HttpReply (204, BEmpty))) []). }
    eapply live_cons; [by apply live_swap|]. apply live_nil. }
  split; vm_compute; reflexivity.
Qed.

(** On PostgreSQL: the policy was stored by another replica, so the snapshot
    has nothing of it, and a request on another policy is in flight across the
    rebuild. *)
Definition remote_start : Live PgPolicyBackend :=
  Build_Live {| store := {| rows := {[("t1", "readers") := race_doc]}; db_up := true |};
                compiled := Evaluator.new |} [] None.

Definition remote_end : Live PgPolicyBackend :=
  Build_Live {| store := {| rows := delete ("t1", "other") {[("t1", "readers") := race_doc]};
                            db_up := true |};
                compiled := compile (backend := pg_backend Some) remote_start.(app).(store) |}
    [] None.

Lemma remote_run :
  live_steps (H := pg_backend Some) (H0 := pg_table Some) closed_env remote_start
    ([Begun (HttpDelete "t1" "other")] ++ RebuildRead true ::
     [Advanced (Some (HttpReply (404, BMessage "policy not found")))] ++ RebuildSwapped :: [])
    remote_end.
Proof.
  cbn [app]. eapply live_cons; [by apply (live_begin _ _ (DeleteHttp race_headers "other"))|].
  eapply live_cons; [exact (live_read (H := pg_backend Some) (H0 := pg_table Some) closed_env
    (Build_Live remote_start.(app) [HttpDelete "t1" "other"] None) eq_refl)|].
  eapply live_cons; [by apply (live_answer _ _ [] (HttpDelete "t1" "other") [])|].
  eapply live_cons; [by apply live_swap|]. apply live_nil.
Qed.

Lemma decisions_follow_store_witness :
  Evaluator.evaluate remote_start.(app).(compiled) "t1" ["readers"] "read" "secret/db" <> Allow /\
  Evaluator.evaluate remote_end.(app).(compiled) "t1" ["readers"] "read" "secret/db" = Allow.
Proof.
  split; [vm_compute; discriminate|].
  etrans; [eapply (decisions_follow_store (H := pg_backend Some) (H0 := pg_table Some) closed_env
    remote_start remote_end [Begun (HttpDelete "t1" "other")]
    [Advanced (Some (HttpReply (404, BMessage "policy not found")))] [])|vm_compute; reflexivity].
  - intros t n d. cbn. intros [[= <- <-] <-]%lookup_singleton_Some. done.
  - intros n _ p Hp. cbn in Hp. set_solver.
  - exact remote_run.
  - intros n e Hn He. apply list_elem_of_singleton in Hn as ->. cbn in He.
    apply elem_of_cons in He as [->|He]; [intros [? _]; done|].
    apply list_elem_of_singleton in He as ->. done.
  - cbn. intros He. apply list_elem_of_singleton in He. done.
Defined.

End Race.
