(* ===== verification/SecretPath.v ===== *)
(** * Secret paths

    [services/secret-engine/src/path.rs]: normalisation and validation of the
    path a secret is filed under, characterised exactly by [canonical]. *)

From Stdlib Require Import Lia Ascii.
From S2P Require Import Prelude Errors.

(** The loop over the segments of the trimmed path. *)
Fixpoint check_segments (raw : string) (segs : list string) : vresult () :=
  match segs with
  | [] => Ok tt
  | segment :: segs' =>
      if Str.is_empty segment
      then Err (InvalidPath raw "path must not contain empty segments (//)")
      else if bool_decide (segment = "..")
      then Err (InvalidPath raw "path must not contain '..' traversal segments")
      else check_segments raw segs'
  end.

Definition normalize_path (raw : string) : vresult string :=
  let trimmed := Str.trim_matches "/" raw in
  if Str.is_empty trimmed then Err (InvalidPath raw "path must not be empty")
  else _ ← check_segments raw (Str.split "/" trimmed); Ok trimmed.

Definition allowed (ch : ascii) : bool :=
  Str.is_ascii_alphanumeric ch || bool_decide (ch ∈ ["-"; "_"; "."; "/"]%char).

Fixpoint validate_chars (path rest : string) : vresult () :=
  match rest with
  | EmptyString => Ok tt
  | String ch rest' =>
      if negb (allowed ch)
      then Err (InvalidPath path ("character '" +:+ Str.first_char rest
             +:+ "' is not allowed; only alphanumeric, '-', '_', '.', and '/' are permitted"))
      else validate_chars path rest'
  end.

Definition validate_path (path : string) : vresult () := validate_chars path path.

Definition normalize_and_validate (raw : string) : vresult string :=
  normalized ← normalize_path raw;
  _ ← validate_path normalized;
  Ok normalized.

(** ** Specification *)

(** Non-empty segments other than [..], made of permitted characters. *)
Definition canonical (p : string) : Prop :=
  Forall (fun seg => seg <> "" /\ seg <> "..") (Str.split "/" p) /\ Str.forallb allowed p = true.

Lemma check_segments_Ok raw segs :
  check_segments raw segs = Ok tt <-> Forall (fun seg => seg <> "" /\ seg <> "..") segs.
Proof.
  induction segs as [|s segs IH]; cbn; [done|]. rewrite Forall_cons, <- IH. unfold Str.is_empty.
  repeat case_bool_decide; naive_solver.
Qed.

Lemma validate_chars_Ok path rest :
  validate_chars path rest = Ok tt <-> Str.forallb allowed rest = true.
Proof. induction rest as [|ch rest IH]; cbn; [done|]. destruct (allowed ch); cbn; [done|]. done. Qed.

Lemma canonical_bare p : canonical p -> p <> "" /\ Str.bare "/" p.
Proof.
  intros [Hs _]. split; [intros ->; by inversion Hs as [|?? []]|]. split.
  - intros s ->. cbn in Hs. rewrite decide_True in Hs by done. by inversion Hs as [|?? []].
  - intros s ->. rewrite Str.split_app in Hs. apply Forall_app in Hs as [_ Hs].
    by inversion Hs as [|?? []].
Qed.

Lemma normalize_and_validate_iff raw p :
  normalize_and_validate raw = Ok p <->
  canonical p /\ exists m n, raw = Str.repeat "/" m +:+ p +:+ Str.repeat "/" n.
Proof.
  unfold normalize_and_validate, normalize_path. split.
  - intros (q & Hq & ([] & Hv & [= <-])%result_bind_ok)%result_bind_ok.
    destruct (Str.is_empty _) eqn:He; [done|].
    apply result_bind_ok in Hq as ([] & Hc & [= <-]). split.
    + split; [by eapply check_segments_Ok|]. by apply validate_chars_Ok in Hv.
    + apply Str.trim_matches_decompose.
  - intros (Hcan & m & n & ->). destruct (canonical_bare p Hcan) as [Hne Hb].
    rewrite Str.trim_matches_bare by done. unfold Str.is_empty. rewrite bool_decide_false by done.
    destruct Hcan as [Hs Hf]. rewrite (proj2 (check_segments_Ok _ _) Hs). cbn.
    unfold validate_path. by rewrite (proj2 (validate_chars_Ok _ _) Hf).
Qed.

(** A path is accepted exactly when it is a canonical path between any
    number of slashes, and the result is that canonical path: no empty or [..]
    segment and no other character ever reaches the store, normalising twice
    changes nothing, and the same secret has one name. *)
Theorem normalize_and_validate_spec raw p :
  normalize_and_validate raw = Ok p <->
  canonical p /\ exists m n, raw = Str.repeat "/" m +:+ p +:+ Str.repeat "/" n.
Proof. apply normalize_and_validate_iff. Qed.

Lemma normalize_and_validate_spec_witness :
  canonical "prod/db" /\ exists m n, "//prod/db/" = Str.repeat "/" m +:+ "prod/db" +:+ Str.repeat "/" n.
Proof. apply (normalize_and_validate_spec "//prod/db/" "prod/db"). vm_compute. reflexivity. Defined.
