(* ===== verification/KvStore.v ===== *)
(** * The in-memory secret store

    [services/secret-engine/src/kv_store.rs]: versioned secrets by tenant and
    path, with check-and-set writes, pruning, soft deletion and destruction.
    Every operation takes the write lock for its whole body, so an operation is
    one step on the map; [now] and [fresh_id] stand for the clock and the UUID
    the body draws. *)

From Stdlib Require Import Lia Ascii.
From S2P Require Import Prelude Errors.

Abbreviation metadata := (gmap string string).

Record VersionEntry := {
  version : Z;
  ciphertext : string;
  dek_id : string;
  v_created_at : Z;
  deleted_at : option Z;
  destroyed : bool;
  v_custom_metadata : metadata;
}.

Record SecretEntry := {
  secret_id : string;
  e_tenant_id : string;
  e_path : string;
  max_versions : Z;
  cas_required : bool;
  created_at : Z;
  updated_at : Z;
  versions : list VersionEntry;
  environment : string;
  tags : list string;
  custom_metadata : metadata;
}.

Definition DEFAULT_MAX_VERSIONS : Z := 10.

Definition live (v : VersionEntry) : bool :=
  negb v.(destroyed) && bool_decide (v.(deleted_at) = None).

Definition current_version_number (self : SecretEntry) : Z :=
  match List.find live (reverse self.(versions)) with Some v => v.(version) | None => 0 end.

Definition get_version (self : SecretEntry) (n : Z) : option VersionEntry :=
  List.find (fun v => v.(version) =? n) self.(versions).

Record KvStore := { inner : gmap (string * string) SecretEntry }.

Definition new : KvStore := {| inner := ∅ |}.

Definition get (self : KvStore) (tenant_id path : string) (version : option Z) :
    vresult VersionEntry :=
  entry ← ok_or (self.(inner) !! (tenant_id, path)) (SecretNotFound path version);
  let target_version :=
    match version with Some v => v | None => current_version_number entry end in
  if target_version =? 0 then Err (SecretNotFound path None)
  else ver_entry ← ok_or (get_version entry target_version)
                         (SecretNotFound path (Some target_version));
       if ver_entry.(destroyed) then Err (VersionDestroyed target_version) else Ok ver_entry.

(** [s.split(',').map(str::trim).filter(|t| !t.is_empty())]. *)
Definition parse_tags (s : string) : list string :=
  List.filter (fun t => negb (Str.is_empty t)) (Str.trim <$> Str.split "," s).

(** The entry [or_insert_with] creates. *)
Definition fresh_entry (fresh_id tenant_id path : string) (now : Z) (cas : option Z)
    (md : metadata) (max : option Z) : SecretEntry :=
  {| secret_id := fresh_id; e_tenant_id := tenant_id; e_path := path;
     max_versions := default DEFAULT_MAX_VERSIONS max;
     cas_required := bool_decide (is_Some cas);
     created_at := now; updated_at := now; versions := [];
     environment := default "INT" (md !! "environment");
     tags := match md !! "tags" with Some s => parse_tags s | None => [] end;
     custom_metadata := md |}.

(** The labels refreshed on every write, before the check-and-set test. *)
Definition relabel (entry : SecretEntry) (md : metadata) (max : option Z) : SecretEntry :=
  {| secret_id := entry.(secret_id); e_tenant_id := entry.(e_tenant_id);
     e_path := entry.(e_path);
     max_versions := default entry.(max_versions) max;
     cas_required := entry.(cas_required);
     created_at := entry.(created_at); updated_at := entry.(updated_at);
     versions := entry.(versions);
     environment := default entry.(environment) (md !! "environment");
     tags := match md !! "tags" with Some s => parse_tags s | None => entry.(tags) end;
     custom_metadata := md |}.

Definition with_versions (entry : SecretEntry) (now : Z) (vs : list VersionEntry) : SecretEntry :=
  {| secret_id := entry.(secret_id); e_tenant_id := entry.(e_tenant_id);
     e_path := entry.(e_path); max_versions := entry.(max_versions);
     cas_required := entry.(cas_required); created_at := entry.(created_at);
     updated_at := now; versions := vs; environment := entry.(environment);
     tags := entry.(tags); custom_metadata := entry.(custom_metadata) |}.

Definition not_destroyed (v : VersionEntry) : bool := negb v.(destroyed).

(** Drop the versions whose number is among the oldest undestroyed ones in excess. *)
Definition prune (effective_max : Z) (vs : list VersionEntry) : list VersionEntry :=
  let live_versions := version <$> List.filter not_destroyed vs in
  if as_u32 (len live_versions) >? effective_max then
    let excess := as_u32 (len live_versions) - effective_max in
    let to_remove := take (Z.to_nat excess) live_versions in
    List.filter (fun v => negb (bool_decide (v.(version) ∈ to_remove))) vs
  else vs.

Definition cas_conflict (cas : option Z) (current : Z) : option VaultError :=
  match cas with
  | Some expected =>
      if negb (current =? expected) then Some (CasConflict expected current) else None
  | None => None
  end.

Definition new_entry (now new_version : Z) (ct dek : string) (md : metadata) : VersionEntry :=
  {| version := new_version; ciphertext := ct; dek_id := dek; v_created_at := now;
     deleted_at := None; destroyed := false; v_custom_metadata := md |}.

Definition put (self : KvStore) (now : Z) (fresh_id tenant_id path ct dek : string)
    (cas : option Z) (md : metadata) (max : option Z) :
    vresult (string * Z) * KvStore :=
  let key := (tenant_id, path) in
  let entry := relabel (default (fresh_entry fresh_id tenant_id path now cas md max)
                                (self.(inner) !! key)) md max in
  let current := current_version_number entry in
  match cas_conflict cas current with
  | Some e => (Err e, {| inner := <[key := entry]> self.(inner) |})
  | None =>
      let new_version := as_u32 (current + 1) in
      let vs := entry.(versions) ++ [new_entry now new_version ct dek md] in
      (Ok (entry.(secret_id), new_version),
       {| inner := <[key := with_versions entry now (prune entry.(max_versions) vs)]>
                     self.(inner) |})
  end.

(** The targets of a deletion: the given versions, or a default when none is. *)
Definition soft_targets (entry : SecretEntry) (vs : list Z) : list Z :=
  match vs with
  | [] => let current := current_version_number entry in if current >? 0 then [current] else []
  | _ => vs
  end.

Definition mark_deleted (now : Z) (targets : list Z) (v : VersionEntry) : VersionEntry * Z :=
  if bool_decide (v.(version) ∈ targets) && negb v.(destroyed) && bool_decide (v.(deleted_at) = None)
  then ({| version := v.(version); ciphertext := v.(ciphertext); dek_id := v.(dek_id);
           v_created_at := v.(v_created_at); deleted_at := Some now; destroyed := v.(destroyed);
           v_custom_metadata := v.(v_custom_metadata) |}, 1)
  else (v, 0).

Definition sum_counts (l : list Z) : Z := foldr Z.add 0 l.

Definition soft_delete (self : KvStore) (now : Z) (tenant_id path : string) (vs : list Z) :
    vresult Z * KvStore :=
  match self.(inner) !! (tenant_id, path) with
  | None => (Err (SecretNotFound path None), self)
  | Some entry =>
      let marked := mark_deleted now (soft_targets entry vs) <$> entry.(versions) in
      (Ok (sum_counts (snd <$> marked)),
       {| inner := <[(tenant_id, path) := with_versions entry entry.(updated_at) (fst <$> marked)]>
                     self.(inner) |})
  end.

Definition destroy_targets (entry : SecretEntry) (vs : list Z) : list Z :=
  match vs with
  | [] => version <$> List.filter not_destroyed entry.(versions)
  | _ => vs
  end.

Definition mark_destroyed (now : Z) (targets : list Z) (v : VersionEntry) : VersionEntry * Z :=
  if bool_decide (v.(version) ∈ targets) && negb v.(destroyed)
  then ({| version := v.(version); ciphertext := ""; dek_id := "";
           v_created_at := v.(v_created_at); deleted_at := Some (default now v.(deleted_at));
           destroyed := true; v_custom_metadata := v.(v_custom_metadata) |}, 1)
  else (v, 0).

Definition destroy (self : KvStore) (now : Z) (tenant_id path : string) (vs : list Z) :
    vresult Z * KvStore :=
  match self.(inner) !! (tenant_id, path) with
  | None => (Err (SecretNotFound path None), self)
  | Some entry =>
      let marked := mark_destroyed now (destroy_targets entry vs) <$> entry.(versions) in
      (Ok (sum_counts (snd <$> marked)),
       {| inner := <[(tenant_id, path) := with_versions entry entry.(updated_at) (fst <$> marked)]>
                     self.(inner) |})
  end.

(** In the map's iteration order, which Rust leaves unspecified. *)
Definition kv_list (self : KvStore) (tenant_id prefix : string) : list string :=
  (fun e : string * string * SecretEntry => e.1.2) <$>
    List.filter (fun e : string * string * SecretEntry =>
        bool_decide (e.1.1 = tenant_id)
        && (Str.is_empty prefix || Str.starts_with prefix e.1.2)
        && existsb not_destroyed e.2.(versions))
      (map_to_list self.(inner)).

Definition get_metadata (self : KvStore) (tenant_id path : string) : vresult SecretEntry :=
  ok_or (self.(inner) !! (tenant_id, path)) (SecretNotFound path None).

Record VersionMeta := {
  m_version : Z;
  m_created_at : Z;
  m_deleted_at : option Z;
  m_destroyed : bool;
}.

(** The in-memory backend reports every version as active and fills no other
    lifecycle field. *)
Definition list_versions (self : KvStore) (tenant_id path : string) :
    vresult (list VersionMeta) :=
  entry ← get_metadata self tenant_id path;
  Ok ((fun v => {| m_version := v.(version); m_created_at := v.(v_created_at);
                   m_deleted_at := v.(deleted_at); m_destroyed := v.(destroyed) |})
      <$> entry.(versions)).

(** ** The store as a transition system *)

Inductive kv_step : KvStore -> KvStore -> Prop :=
| kv_put s now id t p ct dek cas md max :
    kv_step s (put s now id t p ct dek cas md max).2
| kv_soft_delete s now t p vs : kv_step s (soft_delete s now t p vs).2
| kv_destroy s now t p vs : kv_step s (destroy s now t p vs).2.

(** ** Views of a store *)

Definition versions_of (s : KvStore) (t p : string) : list VersionEntry :=
  match s.(inner) !! (t, p) with Some e => e.(versions) | None => [] end.

Definition latest_live (vs : list VersionEntry) : Z :=
  match List.find live (reverse vs) with Some v => v.(version) | None => 0 end.

Definition current_of (s : KvStore) (t p : string) : Z := latest_live (versions_of s t p).

(** The bound a write at [(t, p)] is pruned to. *)
Definition effective_max (s : KvStore) (t p : string) (max : option Z) : Z :=
  default (match s.(inner) !! (t, p) with
           | Some e => e.(max_versions) | None => DEFAULT_MAX_VERSIONS end) max.

(** The latest version is live (or there is none): no number above it is in use. *)
Definition settled (vs : list VersionEntry) : Prop :=
  Forall (fun v => 1 <= v.(version) <= latest_live vs) vs.

(** ** Writing *)

Lemma latest_live_cases vs :
  latest_live vs = 0 \/ exists v, v ∈ vs /\ live v = true /\ latest_live vs = v.(version).
Proof.
  unfold latest_live. destruct (List.find _ _) as [v|] eqn:E; [right|by left].
  apply List.find_some in E as [Hin Hl]. exists v.
  by rewrite <- elem_of_reverse, list_elem_of_In.
Qed.

Lemma latest_live_snoc vs v : live v = true -> latest_live (vs ++ [v]) = v.(version).
Proof. intros Hl. unfold latest_live. rewrite reverse_snoc. cbn. by rewrite Hl. Qed.

Lemma settled_nonneg vs : settled vs -> 0 <= latest_live vs.
Proof.
  intros Hs. destruct (latest_live_cases vs) as [->|(v & Hin & _ & ->)]; [done|].
  eapply (proj1 (Forall_forall _ _)) in Hs; [|exact Hin]. lia.
Qed.

Lemma as_u32_le z : 0 <= z -> as_u32 z <= z.
Proof. intros. unfold as_u32, wrap. apply Z.mod_le; lia. Qed.

(** Pruning never drops a last version whose number is above the others'. *)
Lemma prune_keeps_last max vs v :
  1 <= max -> v.(destroyed) = false -> Forall (fun u => u.(version) < v.(version)) vs ->
  exists keep, prune max (vs ++ [v]) = List.filter keep vs ++ [v].
Proof.
  intros Hmax Hd Hlt. unfold prune. set (old := version <$> List.filter not_destroyed vs).
  assert (version <$> List.filter not_destroyed (vs ++ [v]) = old ++ [v.(version)]) as ->.
  { rewrite List.filter_app. cbn [List.filter]. unfold not_destroyed at 2.
    by rewrite Hd, fmap_app. }
  destruct (_ >? max) eqn:Hgt.
  - rewrite List.filter_app. cbn [List.filter]. set (k := Z.to_nat _).
    assert (Hk : (k <= List.length old)%nat).
    { subst k. pose proof (as_u32_le (len (old ++ [version v])) (len_nonneg _)) as Hu.
      rewrite len_app in *. unfold len in *. cbn [List.length] in *. lia. }
    rewrite take_app_le by done. rewrite bool_decide_false; [by eexists|].
    intros Hin. apply subseteq_take in Hin. apply list_elem_of_fmap in Hin as (u & Hv & Hu).
    apply list_elem_of_In, List.filter_In in Hu as [Hu _].
    eapply (proj1 (List.Forall_forall _ _)) in Hlt; [|exact Hu]. cbn in Hlt. lia.
  - exists (fun _ => true). f_equal. clear. induction vs; cbn; congruence.
Qed.

Lemma prune_subset max vs : prune max vs ⊆ vs.
Proof.
  unfold prune. destruct (_ >? _); [|done]. intros v Hv.
  by apply list_elem_of_In, List.filter_In in Hv as [Hv%list_elem_of_In _].
Qed.

Section Write.
Context (s : KvStore) (now : Z) (id t p ct dek : string) (md : metadata) (max : option Z).

(** The entry the write works on, and what the views say of it. *)
Definition write_entry (cas : option Z) : SecretEntry :=
  relabel (default (fresh_entry id t p now cas md max) (s.(inner) !! (t, p))) md max.

Lemma write_entry_versions cas : (write_entry cas).(versions) = versions_of s t p.
Proof. unfold write_entry, versions_of. by destruct (s.(inner) !! (t, p)). Qed.

Lemma write_entry_max cas : (write_entry cas).(max_versions) = effective_max s t p max.
Proof.
  unfold write_entry, effective_max. destruct (s.(inner) !! (t, p)), max; done.
Qed.

Lemma put_eq cas :
  put s now id t p ct dek cas md max =
  match cas_conflict cas (current_of s t p) with
  | Some e => (Err e, {| inner := <[(t, p) := write_entry cas]> s.(inner) |})
  | None =>
      let nv := as_u32 (current_of s t p + 1) in
      (Ok ((write_entry cas).(secret_id), nv),
       {| inner := <[(t, p) := with_versions (write_entry cas) now
             (prune (effective_max s t p max)
                (versions_of s t p ++ [new_entry now nv ct dek md]))]> s.(inner) |})
  end.
Proof.
  unfold put. fold (write_entry cas). rewrite write_entry_max.
  unfold current_version_number. rewrite write_entry_versions. done.
Qed.

End Write.

Lemma versions_of_insert s t p e :
  versions_of {| inner := <[(t, p) := e]> s.(inner) |} t p = e.(versions).
Proof. unfold versions_of. cbn. by rewrite lookup_insert_eq. Qed.

(** Check-and-set: a write that names an expected version goes through
    exactly when that is the current live version, and then creates the next
    one; otherwise it reports both numbers and no stored version changes. *)
Theorem put_cas s now id t p ct dek expected md max :
  let '(r, s') := put s now id t p ct dek (Some expected) md max in
  if current_of s t p =? expected
  then exists sid, r = Ok (sid, as_u32 (expected + 1))
  else r = Err (CasConflict expected (current_of s t p)) /\
       forall t' p', versions_of s' t' p' = versions_of s t' p'.
Proof.
  rewrite put_eq. unfold cas_conflict. destruct (_ =? expected) eqn:E; cbn.
  - apply Z.eqb_eq in E as <-. eauto.
  - split; [done|]. intros t' p'. unfold versions_of. cbn.
    destruct (decide ((t, p) = (t', p'))) as [[= <- <-]|Hne].
    + rewrite lookup_insert_eq. apply write_entry_versions.
    + by rewrite lookup_insert_ne.
Qed.

(** Appending a version above all others, then pruning. *)
Lemma settled_append vs v max :
  settled vs -> 1 <= max -> v.(version) = latest_live vs + 1 -> live v = true ->
  exists kept, prune max (vs ++ [v]) = kept ++ [v] /\ kept ⊆ vs /\
    settled (kept ++ [v]) /\ latest_live (kept ++ [v]) = v.(version) /\
    List.find (fun u => u.(version) =? v.(version)) (kept ++ [v]) = Some v.
Proof.
  intros Hs Hmax Hv Hl. pose proof (settled_nonneg _ Hs) as Hpos.
  assert (Hd : v.(destroyed) = false) by (unfold live in Hl; bools; done).
  assert (Hlt : Forall (fun u => u.(version) < v.(version)) vs)
    by (eapply Forall_impl; [exact Hs|]; cbn; lia).
  destruct (prune_keeps_last max vs v Hmax Hd Hlt) as [keep Hp].
  set (kept := List.filter keep vs) in *. exists kept.
  assert (Hsub : kept ⊆ vs).
  { intros u Hu. by apply list_elem_of_In, List.filter_In in Hu as [Hu%list_elem_of_In _]. }
  split; [done|]. split; [done|]. split; [|split; [by apply latest_live_snoc|]].
  - unfold settled. rewrite latest_live_snoc by done. apply Forall_app. split.
    + apply Forall_forall. intros u Hu%Hsub.
      eapply (proj1 (Forall_forall _ _)) in Hs; [|exact Hu]. cbn in Hs. lia.
    + repeat constructor; lia.
  - clear -Hsub Hlt. induction kept as [|u kept IH]; cbn; [by rewrite Z.eqb_refl|].
    rewrite (proj2 (Z.eqb_neq _ _)).
    + apply IH. intros w Hw. apply Hsub. by right.
    + assert (u ∈ vs) as Hu by (apply Hsub; by left).
      eapply (proj1 (Forall_forall _ _)) in Hlt; [|exact Hu]. cbn in Hlt. lia.
Qed.

(** What a write that is not refused leaves behind, on a settled path. *)
Lemma put_settled s now id t p ct dek cas md max :
  settled (versions_of s t p) -> cas_conflict cas (current_of s t p) = None ->
  current_of s t p + 1 < 2 ^ 32 -> 1 <= effective_max s t p max ->
  let n := current_of s t p + 1 in
  let s' := (put s now id t p ct dek cas md max).2 in
  (exists sid, (put s now id t p ct dek cas md max).1 = Ok (sid, n)) /\
  settled (versions_of s' t p) /\ current_of s' t p = n /\
  get s' t p None = Ok (new_entry now n ct dek md) /\
  get s' t p (Some n) = Ok (new_entry now n ct dek md).
Proof.
  intros Hs Hc Hn Hmax n s'. subst s'. pose proof (settled_nonneg _ Hs) as Hpos.
  rewrite put_eq, Hc. unfold as_u32. rewrite wrap_small by (unfold current_of in *; lia).
  fold n. cbn [fst snd]. set (v := new_entry now n ct dek md).
  destruct (settled_append _ v _ Hs Hmax) as (kept & Hp & Hsub & Hs' & Hcur & Hfind); [done..|].
  rewrite Hp. unfold current_of at 1. rewrite !versions_of_insert. cbn [versions with_versions].
  split; [by eexists|]. split; [done|]. split; [done|].
  assert (Hn0 : (n =? 0) = false) by (apply Z.eqb_neq; unfold n, current_of in *; lia).
  unfold get. cbn [inner]. rewrite lookup_insert_eq. cbn [ok_or mbind result_bind].
  unfold current_version_number. cbn [versions with_versions].
  fold (latest_live (kept ++ [v])). rewrite Hcur. change (version v) with n in *. rewrite Hn0.
  unfold get_version. cbn [versions with_versions]. rewrite Hfind. done.
Qed.

(** Optimistic locking loses no update: when two writers race from the same
    version, the one served second is refused with the first one's version
    number, and the first one's value is what is read, by default and by number. *)
Theorem cas_no_lost_update s now now' id id' t p ct ct' dek dek' md md' max max' :
  settled (versions_of s t p) ->
  current_of s t p + 1 < 2 ^ 32 -> 1 <= effective_max s t p max ->
  let n := current_of s t p in
  let s1 := (put s now id t p ct dek (Some n) md max).2 in
  let '(r2, s2) := put s1 now' id' t p ct' dek' (Some n) md' max' in
  r2 = Err (CasConflict n (n + 1)) /\
  get s2 t p None = Ok (new_entry now (n + 1) ct dek md) /\
  get s2 t p (Some (n + 1)) = Ok (new_entry now (n + 1) ct dek md).
Proof.
  intros Hs Hn Hmax n s1.
  destruct (put_settled s now id t p ct dek (Some n) md max) as (_ & _ & Hcur & Hg & Hgn);
    [done| |done..|]; [unfold cas_conflict; by rewrite Z.eqb_refl|].
  fold s1 n in Hcur, Hg, Hgn. rewrite put_eq, Hcur. cbn [cas_conflict].
  rewrite (proj2 (Z.eqb_neq (n + 1) n)) by lia. cbn [negb]. split; [done|].
  assert (Hget : forall o, get {| inner := <[(t, p) := write_entry s1 now' id' t p md' max' (Some n)]>
                                           s1.(inner) |} t p o = Ok (new_entry now (n + 1) ct dek md)
                 <-> get s1 t p o = Ok (new_entry now (n + 1) ct dek md)); [|by rewrite !Hget].
  intros o. unfold get. cbn [inner]. rewrite lookup_insert_eq. cbn [ok_or mbind result_bind].
  unfold current_version_number, get_version. rewrite write_entry_versions.
  unfold versions_of. destruct (s1.(inner) !! (t, p)) as [e|]; [done|]. cbn.
  destruct o as [k|]; cbn; [|done]. by destruct (k =? 0).
Qed.

(** A write is read back: on a path whose latest version is live, a write
    that is not refused becomes the current version, readable with the value
    written, and the path is again in that condition. *)
Theorem put_get s now id t p ct dek cas md max :
  settled (versions_of s t p) -> cas_conflict cas (current_of s t p) = None ->
  current_of s t p + 1 < 2 ^ 32 -> 1 <= effective_max s t p max ->
  let n := current_of s t p + 1 in
  let '(r, s') := put s now id t p ct dek cas md max in
  (exists sid, r = Ok (sid, n)) /\
  get s' t p None = Ok (new_entry now n ct dek md) /\
  get s' t p (Some n) = Ok (new_entry now n ct dek md) /\
  settled (versions_of s' t p).
Proof.
  intros Hs Hc Hn Hmax n. pose proof (put_settled s now id t p ct dek cas md max Hs Hc Hn Hmax) as H.
  destruct (put s now id t p ct dek cas md max). cbn in H. naive_solver.
Qed.

(** *** Retention *)

Lemma length_filter_take_le {A} (f : A -> Z) (l : list A) k :
  (List.length (List.filter (fun a => negb (bool_decide (f a ∈ take k (f <$> l)))) l)
   <= List.length l - k)%nat.
Proof.
  assert (H : forall (g : A -> bool) (l1 l2 : list A),
    (forall a, a ∈ l1 -> g a = false) ->
    (List.length (List.filter g (l1 ++ l2)) <= List.length l2)%nat).
  { intros g l1 l2 Hg. rewrite List.filter_app, length_app.
    assert (List.filter g l1 = []) as ->; [|apply List.filter_length_le].
    induction l1 as [|a l1 IH]; [done|]. cbn. rewrite (Hg a) by by left.
    apply IH. intros b Hb. apply Hg. by right. }
  rewrite <- (length_drop l k), <- fmap_take. set (g := fun a => negb _).
  rewrite <- (take_drop k l) at 1.
  apply H. subst g. intros a Ha. apply negb_false_iff, bool_decide_eq_true, list_elem_of_fmap. eauto.
Qed.

Lemma filter_comm {A} (f g : A -> bool) l :
  List.filter f (List.filter g l) = List.filter g (List.filter f l).
Proof.
  induction l as [|a l IH]; [done|]. cbn.
  destruct (f a) eqn:Ef, (g a) eqn:Eg; cbn; rewrite ?Ef, ?Eg, IH; done.
Qed.

Lemma prune_bound max vs :
  0 <= max -> len vs < 2 ^ 32 -> len (List.filter not_destroyed (prune max vs)) <= max.
Proof.
  intros Hmax Hlen. set (ld := List.filter not_destroyed vs).
  assert (Hl : len ld < 2 ^ 32).
  { unfold len in *. pose proof (List.filter_length_le not_destroyed vs). subst ld. lia. }
  unfold prune. fold ld.
  assert (Heq : as_u32 (len (version <$> ld)) = len ld).
  { unfold as_u32. rewrite wrap_small; [unfold len; by rewrite length_fmap|].
    unfold len in *. rewrite length_fmap. lia. }
  rewrite Heq. destruct (len ld >? max) eqn:Hgt; [|fold ld; lia].
  rewrite filter_comm. fold ld.
  pose proof (length_filter_take_le version ld (Z.to_nat (len ld - max))) as H.
  unfold len in *. lia.
Qed.

(** Retention: after any write that succeeds, the path holds at most
    [max_versions] versions that are not destroyed, whatever it held before. *)
Theorem put_retention s now id t p ct dek cas md max r s' :
  put s now id t p ct dek cas md max = (Ok r, s') ->
  0 <= effective_max s t p max -> len (versions_of s t p) + 1 < 2 ^ 32 ->
  len (List.filter not_destroyed (versions_of s' t p)) <= effective_max s t p max.
Proof.
  rewrite put_eq. destruct (cas_conflict _ _); [done|]. intros [= _ <-] Hmax Hlen.
  rewrite versions_of_insert. cbn [versions with_versions]. apply prune_bound; [done|].
  by rewrite len_app.
Qed.

(** ** Deletion and destruction *)

(** A destroyed version holds no key material. *)
Definition erased (v : VersionEntry) : Prop :=
  v.(destroyed) = true -> v.(ciphertext) = "" /\ v.(dek_id) = "" /\ is_Some v.(deleted_at).

Definition all_erased (s : KvStore) : Prop := forall t p, Forall erased (versions_of s t p).

Lemma all_erased_insert s t p e :
  all_erased s -> Forall erased e.(versions) ->
  all_erased {| inner := <[(t, p) := e]> s.(inner) |}.
Proof.
  intros Hs He t' p'. unfold versions_of. cbn.
  destruct (decide ((t, p) = (t', p'))) as [[= <- <-]|Hne].
  - by rewrite lookup_insert_eq.
  - rewrite lookup_insert_ne by done. apply Hs.
Qed.

Lemma all_erased_lookup s t p e :
  all_erased s -> s.(inner) !! (t, p) = Some e -> Forall erased e.(versions).
Proof. intros Hs He. specialize (Hs t p). unfold versions_of in Hs. by rewrite He in Hs. Qed.

Lemma mark_deleted_erased now ts v : erased v -> erased (mark_deleted now ts v).1.
Proof. unfold mark_deleted, erased. case_match; [|done]. bools. cbn. congruence. Qed.

Lemma mark_destroyed_erased now ts v : erased v -> erased (mark_destroyed now ts v).1.
Proof. unfold mark_destroyed, erased. case_match; [|done]. cbn. eauto. Qed.

#[local] Hint Resolve mark_deleted_erased mark_destroyed_erased all_erased_insert : vault.

Lemma fmap_erased (f : VersionEntry -> VersionEntry * Z) vs :
  (forall v, erased v -> erased (f v).1) -> Forall erased vs -> Forall erased (fst <$> (f <$> vs)).
Proof. intros Hf Hvs. rewrite <- list_fmap_compose. by apply Forall_fmap; eapply Forall_impl. Qed.

Lemma kv_step_erased s s' : kv_step s s' -> all_erased s -> all_erased s'.
Proof.
  intros Hstep Hs. destruct Hstep.
  - rewrite put_eq. destruct (cas_conflict _ _); cbn; apply all_erased_insert; try done.
    + rewrite write_entry_versions. apply Hs.
    + cbn. apply Forall_forall. intros v [Hv|Hv]%prune_subset%elem_of_app.
      * by eapply (proj1 (Forall_forall _ _)); [apply Hs|].
      * apply list_elem_of_singleton in Hv as ->. by unfold erased.
  - unfold soft_delete. case_match eqn:E; [|done]. cbn.
    apply all_erased_insert; [done|]. cbn. apply fmap_erased; eauto with vault.
    by eapply all_erased_lookup.
  - unfold destroy. case_match eqn:E; [|done]. cbn.
    apply all_erased_insert; [done|]. cbn. apply fmap_erased; eauto with vault.
    by eapply all_erased_lookup.
Qed.

(** Destruction is irreversible erasure: in every state the store can reach,
    a version marked destroyed has neither ciphertext nor data-key id left and
    carries its deletion time. *)
Theorem destroyed_versions_erased s t p v :
  rtc kv_step new s -> v ∈ versions_of s t p -> v.(destroyed) = true ->
  v.(ciphertext) = "" /\ v.(dek_id) = "" /\ is_Some v.(deleted_at).
Proof.
  intros Hsteps Hv.
  assert (Hs : all_erased s).
  { assert (Hnew : all_erased new) by (intros ? ?; unfold versions_of; cbn; by constructor).
    clear Hv. induction Hsteps; eauto using kv_step_erased. }
  by eapply (proj1 (Forall_forall _ _)) in Hs; [|exact Hv].
Qed.

Lemma find_fmap_version (f : VersionEntry -> VersionEntry * Z) k vs v' :
  (forall v, (f v).1.(version) = v.(version)) ->
  List.find (fun u => u.(version) =? k) (fst <$> (f <$> vs)) = Some v' ->
  exists v, v ∈ vs /\ v.(version) = k /\ v' = (f v).1.
Proof.
  intros Hf [Hin Hk]%List.find_some. rewrite <- list_fmap_compose in Hin.
  apply list_elem_of_In, list_elem_of_fmap in Hin as (v & -> & Hv). exists v.
  split; [done|]. split; [|done]. apply Z.eqb_eq in Hk. by rewrite <- (Hf v).
Qed.

Lemma mark_destroyed_version now ts v : (mark_destroyed now ts v).1.(version) = v.(version).
Proof. unfold mark_destroyed. by case_match. Qed.

(** A destroyed version cannot be read again: after [destroy] none of the
    named versions is served, and when no version is named, no version at all. *)
Theorem destroy_unreadable s now t p vs k :
  k ∈ vs \/ vs = [] ->
  is_ok (get (destroy s now t p vs).2 t p (Some k)) = false.
Proof.
  intros Hk. unfold destroy. destruct (s.(inner) !! (t, p)) as [e|] eqn:E.
  - cbn [snd]. unfold get. cbn [inner]. rewrite lookup_insert_eq. cbn [ok_or mbind result_bind].
    destruct (k =? 0); [done|]. unfold get_version. cbn [versions with_versions].
    destruct (List.find _ _) as [v'|] eqn:Hf; [|done].
    apply find_fmap_version in Hf as (v & Hv & <- & ->); [|apply mark_destroyed_version].
    cbn [ok_or mbind result_bind]. destruct ((mark_destroyed _ _ v).1).(destroyed) eqn:Hd; [done|].
    exfalso. unfold mark_destroyed in Hd. destruct v.(destroyed) eqn:Hv'.
    { rewrite andb_false_r in Hd. cbn in Hd. congruence. }
    case_match eqn:Hg; [done|]. rewrite andb_true_r in Hg. bools. apply Hg.
    destruct Hk as [Hk| ->].
    + destruct vs; [by apply not_elem_of_nil in Hk|done].
    + cbn. apply list_elem_of_fmap. exists v. split; [done|].
      apply list_elem_of_In, List.filter_In. split; [by apply list_elem_of_In|].
      unfold not_destroyed. by rewrite Hv'.
  - cbn. unfold get. by rewrite E.
Qed.

(** ** Isolation *)

(** A request on one tenant and path. *)
Inductive KvRequest :=
| KPut (now : Z) (id ct dek : string) (cas : option Z) (md : metadata) (max : option Z)
| KSoftDelete (now : Z) (vs : list Z)
| KDestroy (now : Z) (vs : list Z).

Definition run_request (s : KvStore) (t p : string) (r : KvRequest) : KvStore :=
  match r with
  | KPut now id ct dek cas md max => (put s now id t p ct dek cas md max).2
  | KSoftDelete now vs => (soft_delete s now t p vs).2
  | KDestroy now vs => (destroy s now t p vs).2
  end.

(** Requests on one tenant and path change nothing anywhere else: no sequence
    of them alters a read, a listing of versions or the metadata of another
    tenant, or of another path of the same tenant. *)
Theorem requests_isolated s t p (rs : list KvRequest) t' p' :
  (t', p') <> (t, p) ->
  let s' := fold_left (fun s r => run_request s t p r) rs s in
  get_metadata s' t' p' = get_metadata s t' p' /\
  list_versions s' t' p' = list_versions s t' p' /\
  forall v, get s' t' p' v = get s t' p' v.
Proof.
  intros Hne s'.
  assert (Hl : s'.(inner) !! (t', p') = s.(inner) !! (t', p')).
  { subst s'. revert s. induction rs as [|r rs IH]; intros s; cbn; [done|]. rewrite IH.
    destruct r; cbn; [rewrite put_eq|unfold soft_delete|unfold destroy]; case_match; cbn;
      rewrite ?lookup_insert_ne by done; done. }
  unfold list_versions, get_metadata, get. by rewrite Hl.
Qed.

(** ** Behaviour outside the settled condition

    The next number is one above the latest version that is still live, so when
    the latest version has been soft-deleted its number is used again, and the
    look-up by number finds the deleted version first. *)

Definition after_delete : KvStore :=
  let s1 := (put new 0 "id" "t" "p" "old-1" "dek" None ∅ None).2 in
  let s2 := (put s1 1 "id" "t" "p" "old-2" "dek" None ∅ None).2 in
  let s3 := (soft_delete s2 2 "t" "p" []).2 in
  (put s3 3 "id" "t" "p" "fresh" "dek" None ∅ None).2.

(** The write after the deletion succeeds as version 2 again, and reading the
    current secret returns the deleted value instead of the one just written. *)
Theorem version_number_reused :
  (version <$> versions_of after_delete "t" "p") = [1; 2; 2] /\
  (ciphertext <$> result_ok (get after_delete "t" "p" None)) = Some "old-2".
Proof. vm_compute. split; reflexivity. Qed.

(** A refused check-and-set write on a new path leaves an entry without versions
    and replaces the labels of an existing one. *)
Theorem failed_cas_writes_labels :
  let s := (put new 0 "id" "t" "p" "ct" "dek" (Some 7) {["environment" := "PROD"]} None).2 in
  environment <$> s.(inner) !! ("t", "p") = Some "PROD".
Proof. vm_compute. reflexivity. Qed.

(** ** Witnesses *)

Definition sample_kv : KvStore := (put new 0 "id" "t" "p" "one" "dek" None ∅ None).2.

Lemma sample_settled : settled (versions_of sample_kv "t" "p").
Proof. vm_compute. repeat constructor; discriminate. Qed.

Lemma cas_no_lost_update_witness :
  get (put (put sample_kv 1 "id" "t" "p" "two" "dek" (Some 1) ∅ None).2
           2 "id" "t" "p" "three" "dek" (Some 1) ∅ None).2 "t" "p" None
  = Ok (new_entry 1 2 "two" "dek" ∅).
Proof.
  apply (cas_no_lost_update sample_kv 1 2 "id" "id" "t" "p" "two" "three" "dek" "dek" ∅ ∅ None None);
    [apply sample_settled|vm_compute; reflexivity|vm_compute; discriminate].
Defined.

Lemma put_get_witness :
  get (put sample_kv 1 "id" "t" "p" "two" "dek" None ∅ None).2 "t" "p" (Some 2)
  = Ok (new_entry 1 2 "two" "dek" ∅).
Proof.
  apply (put_get sample_kv 1 "id" "t" "p" "two" "dek" None ∅ None);
    [apply sample_settled|reflexivity|vm_compute; reflexivity|vm_compute; discriminate].
Defined.

Lemma put_retention_witness :
  len (List.filter not_destroyed
         (versions_of (put sample_kv 1 "id" "t" "p" "two" "dek" None ∅ (Some 1)).2 "t" "p")) <= 1.
Proof.
  apply (put_retention sample_kv 1 "id" "t" "p" "two" "dek" None ∅ (Some 1) ("id", 2));
    [vm_compute; reflexivity|vm_compute; discriminate|vm_compute; reflexivity].
Defined.

Definition sample_destroyed : VersionEntry :=
  (mark_destroyed 1 [1] (new_entry 0 1 "one" "dek" ∅)).1.

Lemma destroyed_versions_erased_witness :
  sample_destroyed.(ciphertext) = "" /\ sample_destroyed.(dek_id) = "" /\
  is_Some sample_destroyed.(deleted_at).
Proof.
  apply (destroyed_versions_erased (destroy sample_kv 1 "t" "p" [1]).2 "t" "p" sample_destroyed).
  - eapply rtc_l; [apply (kv_put new 0 "id" "t" "p" "one" "dek" None ∅ None)|].
    eapply rtc_l; [apply (kv_destroy sample_kv 1 "t" "p" [1])|]. apply rtc_refl.
  - apply (list_elem_of_lookup_2 _ 0%nat). vm_compute. reflexivity.
  - reflexivity.
Defined.

Lemma destroy_unreadable_witness :
  is_ok (get (destroy sample_kv 1 "t" "p" [1]).2 "t" "p" (Some 1)) = false.
Proof. apply (destroy_unreadable sample_kv 1 "t" "p" [1] 1). left. by left. Defined.

Lemma requests_isolated_witness :
  get (fold_left (fun s r => run_request s "t" "q" r) [KDestroy 1 []] sample_kv) "t" "p" None
  = get sample_kv "t" "p" None.
Proof. apply (requests_isolated sample_kv "t" "q" [KDestroy 1 []] "t" "p"). discriminate. Defined.
