(* ===== verification/Lease.v ===== *)
(** * Leases

    The lease manager: the record and its state machine
    ([services/lease-manager/src/store.rs], [crates/wslvault-core/src/types/lease.rs]),
    the in-memory store, the expiration sweep ([expiration.rs]) and the gRPC and
    HTTP handlers ([grpc.rs], [http.rs]). Instants are nanoseconds since the
    epoch and are left unprinted in responses; a handler that panics inside
    chrono's arithmetic has changed nothing and is [Panicked]. *)

From Stdlib Require Import Lia Ascii.
From S2P Require Import Prelude Auth.

(** ** Data *)

Inductive LeaseTarget :=
| Token (token_id principal_id : string)
| DynamicSecret (secret_path role : string)
| ServiceCredential (service account_id : string).

Definition take_chars (n : nat) (s : string) : string := String.substring 0 n s.

(** The prefix is taken by bytes, which for a hash in hex is by characters. *)
Definition label (self : LeaseTarget) : string :=
  match self with
  | Token token_id principal_id =>
      if Str.is_empty principal_id then "token:" +:+ take_chars 8 token_id
      else "principal:" +:+ principal_id
  | DynamicSecret p role => p +:+ " (" +:+ role +:+ ")"
  | ServiceCredential s a => s +:+ ":" +:+ a
  end.

Definition target_kind (target : LeaseTarget) : string :=
  match target with
  | Token _ _ => "token"
  | DynamicSecret _ _ => "dynamic_secret"
  | ServiceCredential _ _ => "service_credential"
  end.

Inductive LeaseState := Active | Expired | Revoked.

#[global] Instance LeaseState_eq_dec : EqDecision LeaseState.
Proof. solve_decision. Defined.

Definition as_str (self : LeaseState) : string :=
  match self with Active => "active" | Expired => "expired" | Revoked => "revoked" end.

Record LeaseRecord := {
  lease_id : string;
  l_tenant_id : string;
  target_type : string;
  target_data : string;
  lease_state : LeaseState;
  ttl_seconds : Z;
  max_ttl_seconds : Z;
  renewable : bool;
  issued_at : Z;
  l_expires_at : Z;
  revoked_at : option Z;
}.

Definition NANOS : Z := 10 ^ 9.

Definition remaining_seconds (now : Z) (self : LeaseRecord) : Z :=
  Z.max (Z.quot (self.(l_expires_at) - now) NANOS) 0.

Definition set_state (r : LeaseRecord) (st : LeaseState) (rev : option Z) : LeaseRecord :=
  {| lease_id := r.(lease_id); l_tenant_id := r.(l_tenant_id); target_type := r.(target_type);
     target_data := r.(target_data); lease_state := st; ttl_seconds := r.(ttl_seconds);
     max_ttl_seconds := r.(max_ttl_seconds); renewable := r.(renewable);
     issued_at := r.(issued_at); l_expires_at := r.(l_expires_at); revoked_at := rev |}.

Definition extend (r : LeaseRecord) (expires increment : Z) : LeaseRecord :=
  {| lease_id := r.(lease_id); l_tenant_id := r.(l_tenant_id); target_type := r.(target_type);
     target_data := r.(target_data); lease_state := r.(lease_state); ttl_seconds := increment;
     max_ttl_seconds := r.(max_ttl_seconds); renewable := r.(renewable);
     issued_at := r.(issued_at); l_expires_at := expires; revoked_at := r.(revoked_at) |}.

Abbreviation lease_map := (gmap string LeaseRecord).

(** Why an operation did not complete. *)
Inductive fault := Rejected (message : string) | Panicked.

(** A successful [RevokeTokenByHash] call to identity-service. *)
Record RevocationCall := {
  token_hash : string;
  c_tenant_id : string;
  c_principal_id : string;
  c_expires_at : Z;
}.

(** The lease table and the token revocations identity-service has accepted. *)
Record World := { leases : lease_map; revocations : list RevocationCall }.

Section Leases.

(** chrono's [instant + Duration::seconds(n)]: [None] where it panics. *)
Context (add_seconds : Z -> Z -> option Z).
(** serde_json on [LeaseTarget], and [Uuid::parse_str] then [to_string]. *)
Context (parse_target : string -> result string LeaseTarget).
Context (print_target : LeaseTarget -> string).
Context (uuid_canon : string -> option string).
(** The identity client, [None] when [IDENTITY_SERVICE_GRPC] is unset. *)
Context (identity_client : option (RevocationCall -> result string ())).

Definition target_label (self : LeaseRecord) : string :=
  match parse_target self.(target_data) with
  | Ok t => label t
  | Err _ => self.(target_type)
  end.

Definition token_revocation (self : LeaseRecord) : option RevocationCall :=
  if negb (bool_decide (self.(target_type) = "token")) then None
  else match parse_target self.(target_data) with
       | Ok (Token token_id principal_id) =>
           Some {| token_hash := token_id; c_tenant_id := self.(l_tenant_id);
                   c_principal_id := principal_id;
                   c_expires_at := self.(l_expires_at) / NANOS |}
       | _ => None
       end.

(** ** The in-memory store *)

Definition insert_lease (m : lease_map) (record : LeaseRecord) : lease_map :=
  <[record.(lease_id) := record]> m.

Definition renew_lease (m : lease_map) (now : Z) (id : string) (increment_secs : Z) :
    result fault LeaseRecord * lease_map :=
  match m !! id with
  | None => (Err (Rejected ("lease not found: " +:+ id)), m)
  | Some record =>
      if negb (bool_decide (record.(lease_state) = Active))
      then (Err (Rejected ("lease " +:+ id +:+ " is not active")), m)
      else if negb record.(renewable)
      then (Err (Rejected ("lease " +:+ id +:+ " is not renewable")), m)
      else match add_seconds record.(issued_at) record.(max_ttl_seconds) with
           | None => (Err Panicked, m)
           | Some max_expires_at =>
               match add_seconds now increment_secs with
               | None => (Err Panicked, m)
               | Some proposed_expires_at =>
                   let record' := extend record (Z.min proposed_expires_at max_expires_at)
                                         increment_secs in
                   (Ok record', <[id := record']> m)
               end
           end
  end.

Definition revoke_lease (m : lease_map) (now : Z) (id : string) : result string () * lease_map :=
  match m !! id with
  | None => (Err ("lease not found: " +:+ id), m)
  | Some record => (Ok tt, <[id := set_state record Revoked (Some now)]> m)
  end.

Definition list_leases (m : lease_map) (tenant : string) (state_filter : option string) :
    list LeaseRecord :=
  List.filter (fun r => bool_decide (r.(l_tenant_id) = tenant) &&
      match state_filter with
      | Some s => Str.is_empty s || bool_decide (as_str r.(lease_state) = s)
      | None => true
      end) (snd <$> map_to_list m).

Definition stale (now : Z) (r : LeaseRecord) : bool :=
  bool_decide (r.(lease_state) = Active) && (r.(l_expires_at) <=? now).

Definition expire_stale_leases (m : lease_map) (now : Z) : list string * lease_map :=
  (lease_id <$> List.filter (stale now) (snd <$> map_to_list m),
   (fun r => if stale now r then set_state r Expired r.(revoked_at) else r) <$> m).

Definition list_stale_active_leases (m : lease_map) (now : Z) : list LeaseRecord :=
  List.filter (stale now) (snd <$> map_to_list m).

Definition mark_expired (m : lease_map) (id : string) : result string () * lease_map :=
  match m !! id with
  | None => (Err ("lease not found: " +:+ id), m)
  | Some record =>
      (Ok tt, if bool_decide (record.(lease_state) = Active)
              then <[id := set_state record Expired record.(revoked_at)]> m else m)
  end.

(** ** The expiration sweep *)

(** One record of the batch; [true] when it is counted as expired. *)
Definition sweep_one (w : World) (record : LeaseRecord) : bool * World :=
  let finish (calls : list RevocationCall) :=
    let '(r, m) := mark_expired w.(leases) record.(lease_id) in
    (is_ok r, {| leases := m; revocations := calls |}) in
  match token_revocation record with
  | Some call =>
      match identity_client with
      | Some revoke =>
          match revoke call with
          | Err _ => (false, w)
          | Ok _ => finish (call :: w.(revocations))
          end
      | None => finish w.(revocations)
      end
  | None => finish w.(revocations)
  end.

(** One tick on the leader. *)
Definition sweep (w : World) (now : Z) : World :=
  fold_left (fun w r => (sweep_one w r).2) (list_stale_active_leases w.(leases) now) w.

(** ** gRPC *)

Inductive Status :=
| InvalidArgument (message : string)
| NotFound (message : string)
| FailedPrecondition (message : string)
| Aborted.

Record CreateLeaseRequest := {
  r_tenant_id : string;
  r_target_type : string;
  r_target_data : string;
  r_ttl_seconds : Z;
  r_max_ttl_seconds : Z;
  r_renewable : bool;
}.

(** The record a request asks for. *)
Definition new_lease (now : Z) (fresh_id : string) (req : CreateLeaseRequest) :
    result Status LeaseRecord :=
  if Str.is_empty req.(r_tenant_id) then Err (InvalidArgument "tenant_id is required")
  else if bool_decide (uuid_canon req.(r_tenant_id) = None)
  then Err (InvalidArgument "tenant_id must be a UUID")
  else if req.(r_ttl_seconds) <=? 0
  then Err (InvalidArgument "ttl_seconds must be positive")
  else
    let max_ttl := if req.(r_max_ttl_seconds) <=? 0 then 86400 else req.(r_max_ttl_seconds) in
    let ttl := if req.(r_ttl_seconds) >? max_ttl then max_ttl else req.(r_ttl_seconds) in
    match parse_target req.(r_target_data) with
    | Err e => Err (InvalidArgument ("target_data is not valid LeaseTarget JSON: " +:+ e))
    | Ok target =>
        if negb (Str.is_empty req.(r_target_type))
           && negb (bool_decide (req.(r_target_type) = target_kind target))
        then Err (InvalidArgument ("target_type '" +:+ req.(r_target_type)
                     +:+ "' does not match target_data (" +:+ target_kind target +:+ ")"))
        else match add_seconds now ttl with
             | None => Err Aborted
             | Some expires =>
                 Ok {| lease_id := fresh_id; l_tenant_id := req.(r_tenant_id);
                       target_type := target_kind target; target_data := print_target target;
                       lease_state := Active; ttl_seconds := ttl; max_ttl_seconds := max_ttl;
                       renewable := req.(r_renewable); issued_at := now;
                       l_expires_at := expires; revoked_at := None |}
             end
    end.

Definition create_lease (m : lease_map) (now : Z) (fresh_id : string) (req : CreateLeaseRequest) :
    result Status LeaseRecord * lease_map :=
  match new_lease now fresh_id req with
  | Err e => (Err e, m)
  | Ok record => (Ok record, insert_lease m record)
  end.

Definition grpc_get_lease (m : lease_map) (now : Z) (id : string) :
    result Status (LeaseRecord * Z) :=
  lease ← ok_or (uuid_canon id) (InvalidArgument "invalid lease_id format");
  record ← ok_or (m !! lease) (NotFound ("lease not found: " +:+ lease));
  Ok (record, remaining_seconds now record).

Definition status_of_fault (f : fault) : Status :=
  match f with Rejected msg => FailedPrecondition msg | Panicked => Aborted end.

Definition grpc_renew_lease (m : lease_map) (now : Z) (id : string) (increment_seconds : Z) :
    result Status LeaseRecord * lease_map :=
  match uuid_canon id with
  | None => (Err (InvalidArgument "invalid lease_id format"), m)
  | Some lease =>
      if increment_seconds <=? 0
      then (Err (InvalidArgument "increment_seconds must be positive"), m)
      else match renew_lease m now lease increment_seconds with
           | (Ok updated, m') => (Ok updated, m')
           | (Err f, m') => (Err (status_of_fault f), m')
           end
  end.

Definition grpc_revoke_lease (m : lease_map) (now : Z) (id : string) :
    result Status () * lease_map :=
  match uuid_canon id with
  | None => (Err (InvalidArgument "invalid lease_id format"), m)
  | Some lease =>
      match revoke_lease m now lease with
      | (Ok _, m') => (Ok tt, m')
      | (Err msg, m') => (Err (NotFound msg), m')
      end
  end.

Definition grpc_list_leases (m : lease_map) (now : Z) (tenant state_filter : string) :
    result Status (list (LeaseRecord * Z)) :=
  if Str.is_empty tenant then Err (InvalidArgument "tenant_id is required")
  else Ok ((fun r => (r, remaining_seconds now r)) <$>
           list_leases m tenant (if Str.is_empty state_filter then None else Some state_filter)).

(** ** HTTP

    The authentication layer of the router resolves the same identity first and
    answers with the same 401, so the handlers below are the whole route. *)

Inductive HttpResponse :=
| JsonError (status : Z) (err_code message : string)
| Leases (body : list LeaseRecord)
| Lease (body : LeaseRecord)
| Renewed (id : string) (ttl expires : Z)
| NoContent
| ConnectionAborted.

Context {auth : Authenticator}.

Definition authenticate (headers : HeaderMap) : result HttpResponse Identity :=
  match resolve headers with
  | Ok who => Ok who
  | Err e => Err (JsonError 401 "unauthenticated" e)
  end.

Definition tenant_for (who : Identity) (headers : HeaderMap) : string :=
  (act_as_tenant who headers).1.

Definition parse_lease_id (id : string) : result HttpResponse string :=
  ok_or (uuid_canon id) (JsonError 400 "invalid_argument" "invalid lease id").

Definition load_for_tenant (m : lease_map) (id tenant : string) : result HttpResponse LeaseRecord :=
  match m !! id with
  | Some r => if bool_decide (r.(l_tenant_id) = tenant) then Ok r
              else Err (JsonError 404 "not_found" "lease not found")
  | None => Err (JsonError 404 "not_found" "lease not found")
  end.

(** The common prefix of the single-lease handlers. *)
Definition locate_lease (m : lease_map) (headers : HeaderMap) (id : string) :
    result HttpResponse (string * LeaseRecord) :=
  who ← authenticate headers;
  lease ← parse_lease_id id;
  record ← load_for_tenant m lease (tenant_for who headers);
  Ok (lease, record).

Definition http_list_leases (m : lease_map) (headers : HeaderMap) (state : option string) :
    HttpResponse :=
  match authenticate headers with
  | Err r => r
  | Ok who =>
      let filter := match Str.trim <$> state with
                    | Some s => if Str.is_empty s || bool_decide (s = "all") then None else Some s
                    | None => None
                    end in
      Leases (list_leases m (tenant_for who headers) filter)
  end.

Definition http_get_lease (m : lease_map) (headers : HeaderMap) (id : string) : HttpResponse :=
  match locate_lease m headers id with Ok (_, r) => Lease r | Err r => r end.

Definition http_renew_lease (m : lease_map) (now : Z) (headers : HeaderMap) (id : string)
    (increment_seconds : option Z) : HttpResponse * lease_map :=
  match locate_lease m headers id with
  | Err r => (r, m)
  | Ok (lease, _) =>
      let increment := default 3600 increment_seconds in
      if increment <=? 0
      then (JsonError 400 "invalid_argument" "increment_seconds must be positive", m)
      else match renew_lease m now lease increment with
           | (Ok u, m') => (Renewed u.(lease_id) u.(ttl_seconds) u.(l_expires_at), m')
           | (Err (Rejected e), m') => (JsonError 400 "failed_precondition" e, m')
           | (Err Panicked, m') => (ConnectionAborted, m')
           end
  end.

(** [revoke_lease] of the store can only fail with a "not found" message. *)
Definition http_revoke_lease (w : World) (now : Z) (headers : HeaderMap) (id : string) :
    HttpResponse * World :=
  match locate_lease w.(leases) headers id with
  | Err r => (r, w)
  | Ok (lease, record) =>
      if bool_decide (record.(lease_state) = Revoked) then (NoContent, w)
      else
        let finish (calls : list RevocationCall) :=
          match revoke_lease w.(leases) now lease with
          | (Ok _, m') => (NoContent, {| leases := m'; revocations := calls |})
          | (Err _, m') => (JsonError 404 "not_found" "lease not found",
                            {| leases := m'; revocations := calls |})
          end in
        match token_revocation record with
        | Some call =>
            match identity_client with
            | Some revoke =>
                match revoke call with
                | Err e => (JsonError 503 "unavailable" e, w)
                | Ok _ => finish (call :: w.(revocations))
                end
            | None => finish w.(revocations)
            end
        | None => finish w.(revocations)
        end
  end.

(** ** The lease table as a transition system

    [step_sweep_one] takes any record, so that a sweep whose batch was read
    earlier interleaves freely with the handlers. *)

Inductive lease_step : World -> World -> Prop :=
| step_create w now id req :
    w.(leases) !! id = None ->
    lease_step w {| leases := (create_lease w.(leases) now id req).2;
                    revocations := w.(revocations) |}
| step_grpc_renew w now id inc :
    lease_step w {| leases := (grpc_renew_lease w.(leases) now id inc).2;
                    revocations := w.(revocations) |}
| step_grpc_revoke w now id :
    lease_step w {| leases := (grpc_revoke_lease w.(leases) now id).2;
                    revocations := w.(revocations) |}
| step_http_renew w now headers id inc :
    lease_step w {| leases := (http_renew_lease w.(leases) now headers id inc).2;
                    revocations := w.(revocations) |}
| step_http_revoke w now headers id :
    lease_step w (http_revoke_lease w now headers id).2
| step_sweep_one w record : lease_step w (sweep_one w record).2
| step_expire_stale w now :
    lease_step w {| leases := (expire_stale_leases w.(leases) now).2;
                    revocations := w.(revocations) |}.

(** ** Invariants *)

(** What a record may become. *)
Definition may_become (a b : LeaseState) : bool :=
  match a, b with
  | Active, _ => true
  | Expired, Expired | Expired, Revoked | Revoked, Revoked => true
  | _, _ => false
  end.

Definition evolves (r r' : LeaseRecord) : Prop :=
  may_become r.(lease_state) r'.(lease_state) = true /\
  r'.(lease_id) = r.(lease_id) /\ r'.(l_tenant_id) = r.(l_tenant_id) /\
  r'.(target_type) = r.(target_type) /\ r'.(target_data) = r.(target_data) /\
  r'.(issued_at) = r.(issued_at) /\ r'.(max_ttl_seconds) = r.(max_ttl_seconds) /\
  (r.(lease_state) <> Active -> r'.(l_expires_at) = r.(l_expires_at)).

Lemma may_become_refl st : may_become st st = true.
Proof. by destruct st. Qed.

Lemma evolves_refl r : evolves r r.
Proof. unfold evolves. by rewrite may_become_refl. Qed.

Lemma evolves_trans r1 r2 r3 : evolves r1 r2 -> evolves r2 r3 -> evolves r1 r3.
Proof.
  unfold evolves. intros (Hs & ? & ? & ? & ? & ? & ? & He) (Hs' & ? & ? & ? & ? & ? & ? & He').
  repeat split; try congruence.
  - destruct r1.(lease_state), r2.(lease_state), r3.(lease_state); done.
  - intros Hn. rewrite He'; [by apply He|].
    destruct r1.(lease_state), r2.(lease_state); done.
Qed.

Lemma new_lease_shape now id req r :
  new_lease now id req = Ok r -> r.(lease_id) = id /\ r.(lease_state) = Active.
Proof. unfold new_lease. repeat (case_match; try done). all: by intros [= <-]. Qed.

Lemma create_lease_shape m now id req res m' :
  create_lease m now id req = (res, m') ->
  (exists r, res = Ok r /\ m' = <[id := r]> m) \/ m' = m.
Proof.
  unfold create_lease. destruct (new_lease _ _ _) as [r|] eqn:Hn; intros [= <- <-]; [|by right].
  left. exists r. split; [done|]. unfold insert_lease.
  by rewrite (proj1 (new_lease_shape _ _ _ _ Hn)).
Qed.

(** The operations of the store, each on one record. Any property of records
    that they preserve holds of the whole table for ever. *)
Section Preservation.
Context (Q : LeaseRecord -> Prop) (P : LeaseRecord -> LeaseRecord -> Prop).
Context (Q_create : forall m now id req r m', create_lease m now id req = (Ok r, m') -> Q r).
Context (P_refl : forall r, P r r).
Context (P_extend : forall r now inc mx pr, r.(lease_state) = Active ->
  add_seconds r.(issued_at) r.(max_ttl_seconds) = Some mx -> add_seconds now inc = Some pr ->
  P r (extend r (Z.min pr mx) inc)).
Context (P_revoke : forall r now, P r (set_state r Revoked (Some now))).
Context (P_expire : forall r, r.(lease_state) = Active -> P r (set_state r Expired r.(revoked_at))).

#[local] Abbreviation related := (moves (fun _ => Q) P).
#[local] Instance P_reflexive : Reflexive P := P_refl.

Lemma renew_related m now id inc : related m (renew_lease m now id inc).2.
Proof. unfold renew_lease. repeat case_match; bools; cbn; eauto with vault. Qed.

Lemma revoke_related m now id : related m (revoke_lease m now id).2.
Proof. unfold revoke_lease. case_match; cbn; eauto with vault. Qed.

Lemma mark_expired_related m id : related m (mark_expired m id).2.
Proof. unfold mark_expired. repeat case_match; bools; cbn; eauto with vault. Qed.

#[local] Hint Resolve renew_related revoke_related mark_expired_related : vault.

Lemma related_eq m m' (r : result fault LeaseRecord) now id inc :
  renew_lease m now id inc = (r, m') -> related m m'.
Proof. intros H. pose proof (renew_related m now id inc) as Hr. by rewrite H in Hr. Qed.

Lemma lease_step_related w w' : lease_step w w' -> related w.(leases) w'.(leases).
Proof.
  destruct 1; cbn.
  - destruct (create_lease _ _ _ _) as [res m'] eqn:E. cbn.
    destruct (create_lease_shape _ _ _ _ _ _ E) as [(r & -> & ->)| ->]; eauto with vault.
  - unfold grpc_renew_lease. repeat case_match; cbn; eauto using related_eq with vault.
  - unfold grpc_revoke_lease. repeat case_match; cbn; auto with vault;
      match goal with H : revoke_lease ?m ?now ?i = _ |- _ =>
        pose proof (revoke_related m now i) as Hr; by rewrite H in Hr end.
  - unfold http_renew_lease. repeat case_match; cbn; eauto using related_eq with vault.
  - unfold http_revoke_lease. repeat case_match; cbn; auto with vault;
      match goal with H : revoke_lease ?m ?now ?i = _ |- _ =>
        pose proof (revoke_related m now i) as Hr; by rewrite H in Hr end.
  - unfold sweep_one. repeat case_match; cbn; auto with vault;
      match goal with H : mark_expired ?m ?i = _ |- _ =>
        pose proof (mark_expired_related m i) as Hr; by rewrite H in Hr end.
  - intros id. rewrite lookup_fmap. destruct (w.(leases) !! id) as [r|]; [|done]. cbn.
    case_match eqn:Hst; [|done]. unfold stale in Hst. bools. auto.
Qed.

End Preservation.

(** C20. The lease life cycle: along any interleaving of requests and sweeps no
    lease disappears or changes owner, target, issue time or maximum lifetime; a
    revoked lease stays revoked, an expired one never becomes active again, and
    the expiry of a lease that is not active is frozen. *)
Theorem lease_lifecycle w w' id r :
  rtc lease_step w w' -> w.(leases) !! id = Some r ->
  exists r', w'.(leases) !! id = Some r' /\ evolves r r'.
Proof.
  intros Hsteps. revert r. induction Hsteps as [w|w w1 w' Hstep _ IH]; intros r Hr.
  { eauto using evolves_refl. }
  assert (Hrel : moves (fun _ _ => True) evolves w.(leases) w1.(leases)).
  { apply lease_step_related; [done|apply evolves_refl| | | |done]; unfold evolves.
    - intros x **. cbn. rewrite may_become_refl. naive_solver.
    - intros x **. cbn. destruct x.(lease_state); naive_solver.
    - intros x -> . cbn. naive_solver. }
  specialize (Hrel id). rewrite Hr in Hrel.
  destruct (w1.(leases) !! id) as [r1|] eqn:E1; [|done].
  destruct (IH r1 eq_refl) as (r' & Hr' & He). eauto using evolves_trans.
Qed.

(** *** The sweep *)

(** Whether the sweep may settle a lease: a token lease only once
    identity-service has accepted the revocation, when one is configured. *)
Definition settles (r : LeaseRecord) : bool :=
  match token_revocation r, identity_client with
  | Some call, Some revoke => is_ok (revoke call)
  | _, _ => true
  end.

Definition swept (now : Z) (r : LeaseRecord) : LeaseRecord :=
  if stale now r && settles r then set_state r Expired r.(revoked_at) else r.

Definition keyed (m : lease_map) : Prop := map_Forall (fun id r => r.(lease_id) = id) m.

Lemma sweep_one_leases w r :
  w.(leases) !! r.(lease_id) = Some r -> r.(lease_state) = Active ->
  (sweep_one w r).2.(leases) =
  if settles r then <[r.(lease_id) := set_state r Expired r.(revoked_at)]> w.(leases)
  else w.(leases).
Proof.
  intros Hr Ha. unfold sweep_one, settles, mark_expired. rewrite Hr, Ha, bool_decide_true by done.
  repeat case_match; cbn in *; congruence.
Qed.

Lemma sweep_one_revocations w r :
  w.(revocations) ⊆ (sweep_one w r).2.(revocations) /\
  forall call revoke, token_revocation r = Some call -> identity_client = Some revoke ->
    is_ok (revoke call) = true -> call ∈ (sweep_one w r).2.(revocations).
Proof.
  unfold sweep_one, mark_expired. split.
  - repeat case_match; cbn; try done; set_solver.
  - intros call revoke Ht Hi Hok. rewrite Ht, Hi. destruct (revoke call); [|done].
    repeat case_match; simplify_eq; cbn; by left.
Qed.

Lemma fold_sweep_one l w :
  NoDup (lease_id <$> l) ->
  (forall r, r ∈ l -> w.(leases) !! r.(lease_id) = Some r /\ r.(lease_state) = Active) ->
  let w' := fold_left (fun w r => (sweep_one w r).2) l w in
  (forall id, w'.(leases) !! id =
     match List.find (fun r => bool_decide (r.(lease_id) = id)) l with
     | Some r => Some (if settles r then set_state r Expired r.(revoked_at) else r)
     | None => w.(leases) !! id
     end) /\
  w.(revocations) ⊆ w'.(revocations) /\
  (forall r call revoke, r ∈ l -> token_revocation r = Some call ->
     identity_client = Some revoke -> is_ok (revoke call) = true -> call ∈ w'.(revocations)).
Proof.
  revert w. induction l as [|r l IH]; intros w Hnd Hl.
  { cbn. split; [done|]. split; [done|]. by intros ? ? ? Hin%not_elem_of_nil. }
  inversion Hnd as [|? ? Hni Hnd']; subst. cbn [fold_left].
  destruct (Hl r) as [Hr Ha]; [by left|].
  pose proof (sweep_one_leases w r Hr Ha) as Hone.
  destruct (sweep_one_revocations w r) as [Hmono Hcall].
  destruct (IH (sweep_one w r).2 Hnd') as (Hlk & Hsub & Hcalls).
  { intros r' Hin. destruct (Hl r') as [Hr' Ha']; [by right|]. split; [|done].
    assert (r.(lease_id) <> r'.(lease_id))
      by (intros He; apply Hni; rewrite He; by apply list_elem_of_fmap_2).
    rewrite Hone. destruct (settles r); [by rewrite lookup_insert_ne|done]. }
  split; [|split; [by etrans|]].
  - intros id. rewrite Hlk, Hone. cbn. case_bool_decide as Hid; [subst id|].
    + destruct (List.find _ l) as [r'|] eqn:E.
      * apply List.find_some in E as [Hin He]. bools. exfalso. apply Hni. rewrite <- He.
        apply list_elem_of_fmap_2. by apply list_elem_of_In.
      * destruct (settles r); [by rewrite lookup_insert_eq|done].
    + destruct (List.find _ l); [done|]. destruct (settles r); [by rewrite lookup_insert_ne|done].
  - intros r' call revoke [->|Hin]%elem_of_cons Ht Hi Hok; [|eauto].
    apply Hsub. eauto.
Qed.

Lemma NoDup_fmap_filter {A} (f : A -> string) (g : A -> bool) l :
  NoDup (f <$> l) -> NoDup (f <$> List.filter g l).
Proof.
  induction l as [|a l IH]; cbn; [done|]. inversion 1 as [|? ? Hni Hnd]; subst.
  destruct (g a); cbn; [|auto]. constructor; [|auto]. intros Hin. apply Hni.
  apply list_elem_of_fmap in Hin as (b & -> & Hb). apply list_elem_of_fmap_2.
  by apply list_elem_of_In, List.filter_In in Hb as [Hb%list_elem_of_In _].
Qed.

Lemma list_stale_spec m now :
  keyed m ->
  NoDup (lease_id <$> list_stale_active_leases m now) /\
  forall r, r ∈ list_stale_active_leases m now <->
            m !! r.(lease_id) = Some r /\ stale now r = true.
Proof.
  intros Hk. split.
  - apply NoDup_fmap_filter. rewrite <- list_fmap_compose.
    assert ((lease_id ∘ snd) <$> map_to_list m = (map_to_list m).*1) as ->; [|apply NoDup_fst_map_to_list].
    apply list_fmap_ext. intros i [id r] Hi. cbn.
    apply Hk. apply elem_of_map_to_list. by eapply list_elem_of_lookup_2.
  - intros r. unfold list_stale_active_leases.
    rewrite list_elem_of_In, List.filter_In, <- list_elem_of_In, list_elem_of_fmap. split.
    + intros [([id r'] & -> & Hin%elem_of_map_to_list) Hs]. cbn in *.
      by rewrite (Hk _ _ Hin).
    + intros [Hr Hs]. split; [|done]. exists (r.(lease_id), r). split; [done|].
      by apply elem_of_map_to_list.
Qed.

(** The sweep fails closed: it expires exactly the active leases whose time
    has passed, except token leases whose revocation identity-service did not
    accept, which stay active for the next tick; every other lease is untouched,
    and for every token lease it expires the revocation has been recorded. *)
Theorem sweep_fail_closed w now :
  keyed w.(leases) ->
  (sweep w now).(leases) = swept now <$> w.(leases) /\
  forall id r call revoke, w.(leases) !! id = Some r -> token_revocation r = Some call ->
    identity_client = Some revoke -> swept now r <> r -> call ∈ (sweep w now).(revocations).
Proof.
  intros Hk. destruct (list_stale_spec w.(leases) now Hk) as [Hnd Hmem].
  destruct (fold_sweep_one _ w Hnd) as (Hlk & _ & Hcalls).
  { intros r [Hr Hs]%Hmem. unfold stale in Hs. by bools. }
  split.
  - apply map_eq. intros id. unfold sweep. rewrite Hlk, lookup_fmap.
    destruct (List.find _ _) as [r|] eqn:E.
    + apply List.find_some in E as [Hin%list_elem_of_In%Hmem Hid]. bools. subst id.
      destruct Hin as [-> Hs]. cbn. unfold swept. rewrite Hs. by destruct (settles r).
    + destruct (w.(leases) !! id) as [r|] eqn:Hr; [|done]. cbn. unfold swept.
      destruct (stale now r) eqn:Hs; [|done]. exfalso. pose proof (Hk _ _ Hr) as Hid. cbn in Hid.
      assert (Hin : r ∈ list_stale_active_leases w.(leases) now)
        by (apply Hmem; rewrite Hid; done).
      pose proof (List.find_none _ _ E r (proj1 (list_elem_of_In _ _) Hin)) as Hf.
      cbn in Hf. by bools.
  - intros id r call revoke Hr Ht Hi Hne. pose proof (Hk _ _ Hr) as Hid. cbn in Hid.
    unfold swept in Hne. destruct (stale now r && settles r) eqn:Hs; [|done]. bools.
    eapply (Hcalls r); [|done..|].
    + apply Hmem. by rewrite Hid.
    + unfold settles in *. by rewrite Ht, Hi in *.
Qed.

(** *** Tenants *)

(** A lease is visible to its own tenant only: for a caller acting as another
    tenant, reading, renewing and revoking all answer exactly as for a lease that
    does not exist, and change nothing. *)
Theorem lease_hidden_from_other_tenants w now headers id who lease inc :
  resolve headers = Ok who -> uuid_canon id = Some lease ->
  (forall r, w.(leases) !! lease = Some r -> r.(l_tenant_id) <> tenant_for who headers) ->
  let missing := JsonError 404 "not_found" "lease not found" in
  http_get_lease w.(leases) headers id = missing /\
  http_renew_lease w.(leases) now headers id inc = (missing, w.(leases)) /\
  http_revoke_lease w now headers id = (missing, w).
Proof.
  intros Hres Hid Hother missing.
  assert (Hloc : locate_lease w.(leases) headers id = Err missing).
  { unfold locate_lease, authenticate, parse_lease_id, load_for_tenant. rewrite Hres, Hid. cbn.
    destruct (w.(leases) !! lease) as [r|]; [|done].
    rewrite bool_decide_false; [done|]. by apply Hother. }
  unfold http_get_lease, http_renew_lease, http_revoke_lease. by rewrite Hloc.
Qed.

(** A revocation that is answered with 204 has happened: the lease is
    revoked, and if it protected a token that was not revoked before and an
    identity service is configured, that service has accepted the revocation. *)
Theorem http_revoke_effective w now headers id w' :
  http_revoke_lease w now headers id = (NoContent, w') ->
  exists lease r r', uuid_canon id = Some lease /\ w.(leases) !! lease = Some r /\
    w'.(leases) !! lease = Some r' /\ r'.(lease_state) = Revoked /\
    forall call revoke, r.(lease_state) <> Revoked -> token_revocation r = Some call ->
      identity_client = Some revoke -> revoke call = Ok tt /\ call ∈ w'.(revocations).
Proof.
  unfold http_revoke_lease. destruct (locate_lease _ _ _) as [[lease r]|resp] eqn:Hloc.
  2:{ unfold locate_lease, authenticate, parse_lease_id, load_for_tenant in Hloc.
      intros [= -> ->]. destruct (resolve headers); [|done]. cbn in Hloc.
      destruct (uuid_canon id); [|done]. cbn in Hloc. repeat case_match; done. }
  unfold locate_lease in Hloc. apply result_bind_ok in Hloc as (who & _ & Hloc).
  apply result_bind_ok in Hloc as (l & Hid & Hloc).
  apply result_bind_ok in Hloc as (r0 & Hload & [= -> ->]).
  assert (Hu : uuid_canon id = Some lease)
    by (unfold parse_lease_id in Hid; destruct (uuid_canon id); cbn in Hid; congruence).
  assert (Hr : w.(leases) !! lease = Some r).
  { unfold load_for_tenant in Hload. destruct (w.(leases) !! lease); [|done].
    case_match; congruence. }
  unfold revoke_lease. rewrite Hr. case_bool_decide as Hst.
  - intros [= <-]. exists lease, r, r. naive_solver.
  - assert (Hin : w'.(leases) = <[lease := set_state r Revoked (Some now)]> w.(leases) ->
      exists r', w'.(leases) !! lease = Some r' /\ r'.(lease_state) = Revoked).
    { intros ->. rewrite lookup_insert_eq. eauto. }
    destruct (token_revocation r) as [call|] eqn:Ht; [destruct identity_client as [revoke|]|].
    1: destruct (revoke call) as [[]|] eqn:Hrev; [|done].
    all: intros [= <-]; destruct Hin as (r' & Hr' & Hs'); [done|]; exists lease, r, r'.
    all: repeat split; try done; intros; simplify_eq; cbn; try done; by left.
Qed.

(** *** Lifetime bounds *)

Definition bounded (r : LeaseRecord) : Prop :=
  0 < r.(max_ttl_seconds) /\ r.(l_expires_at) <= r.(issued_at) + r.(max_ttl_seconds) * NANOS.

Definition all_bounded (w : World) : Prop := map_Forall (fun _ => bounded) w.(leases).

(** Where chrono's addition does not panic it is exact. *)
Hypothesis add_seconds_spec : forall t n u, add_seconds t n = Some u -> u = t + n * NANOS.

Lemma new_lease_bounded now id req r : new_lease now id req = Ok r -> bounded r.
Proof.
  unfold new_lease. repeat (case_match; try done). all: intros [= <-].
  all: match goal with H : add_seconds _ _ = Some _ |- _ => apply add_seconds_spec in H as -> end.
  all: unfold bounded, NANOS; cbn; lia.
Qed.

Lemma create_lease_bounded m now id req r m' :
  create_lease m now id req = (Ok r, m') -> bounded r.
Proof.
  unfold create_lease. destruct (new_lease _ _ _) as [x|] eqn:Hn; [|done].
  intros [= <- _]. by eapply new_lease_bounded.
Qed.

(** No lease outlives its maximum lifetime: whatever is created, renewed,
    revoked or swept, and in whatever order, the expiry of every lease stays
    within [max_ttl_seconds] of its issue time. *)
Theorem lease_never_exceeds_max_ttl w w' :
  all_bounded w -> rtc lease_step w w' -> all_bounded w'.
Proof.
  intros Hw Hsteps. induction Hsteps as [|w w1 w' Hstep _ IH]; [done|]. apply IH. clear IH.
  assert (Hrel : moves (fun _ => bounded) (fun r r' => bounded r -> bounded r') w.(leases) w1.(leases)).
  { apply lease_step_related; try done.
    - apply create_lease_bounded.
    - intros r now inc mx pr _ Hmx Hpr [Hpos _]. apply add_seconds_spec in Hmx as ->.
      split; cbn; [done|lia]. }
  intros id r Hr. specialize (Hrel id). rewrite Hr in Hrel.
  destruct (w.(leases) !! id) as [r0|] eqn:E; [|done]. apply Hrel. by apply (Hw id).
Qed.

End Leases.

(** ** A revocation that does not reach the token

    The gRPC handler revokes the row without the identity callback, and the HTTP
    handler and the sweep then both consider the lease settled. *)

Theorem grpc_revoke_skips_token parse_target uuid_canon client
    (auth : Authenticator) w now id lease r :
  uuid_canon id = Some lease -> w.(leases) !! lease = Some r ->
  let w1 := {| leases := (grpc_revoke_lease uuid_canon w.(leases) now id).2;
               revocations := w.(revocations) |} in
  (exists r', w1.(leases) !! lease = Some r' /\ r'.(lease_state) = Revoked) /\
  forall now' headers w2,
    http_revoke_lease parse_target uuid_canon client w1 now' headers id = (NoContent, w2) ->
    w2.(revocations) = w.(revocations).
Proof.
  intros Hid Hr w1.
  assert (Hl : w1.(leases) !! lease = Some (set_state r Revoked (Some now))).
  { subst w1. cbn. unfold grpc_revoke_lease, revoke_lease. rewrite Hid, Hr. apply lookup_insert_eq. }
  assert (Hrv : w1.(revocations) = w.(revocations)) by done. clearbody w1.
  split; [eauto|]. intros now' headers w2. unfold http_revoke_lease, locate_lease.
  destruct (authenticate headers) as [who|resp] eqn:Ha; cbn.
  2:{ unfold authenticate in Ha. destruct (resolve headers); congruence. }
  unfold parse_lease_id, load_for_tenant. rewrite Hid. cbn. rewrite Hl. cbn.
  case_bool_decide; [|done]. cbn. by intros [= <-].
Qed.

(** ** Witnesses *)

Definition sample_add (t n : Z) : option Z :=
  if bool_decide (t + n * NANOS < 2 ^ 62) then Some (t + n * NANOS) else None.
Definition sample_parse (s : string) : result string LeaseTarget :=
  if bool_decide (s = "token-json") then Ok (Token "hash" "ada") else Err "bad".
Definition sample_print (t : LeaseTarget) : string := "token-json".

Definition sample_lease : LeaseRecord :=
  {| lease_id := "l1"; l_tenant_id := "t1"; target_type := "token"; target_data := "token-json";
     lease_state := Active; ttl_seconds := 60; max_ttl_seconds := 100; renewable := true;
     issued_at := 0; l_expires_at := 60 * NANOS; revoked_at := None |}.
Definition sample_world : World := {| leases := {["l1" := sample_lease]}; revocations := [] |}.

#[local] Instance t1_auth : Authenticator := {|
  resolve _ := Ok {| tenant_id := "t1"; principal_id := "ada"; policies := []; expires_at := None;
                     superuser := false |} |}.
#[local] Instance t2_auth : Authenticator := {|
  resolve _ := Ok {| tenant_id := "t2"; principal_id := "eve"; policies := []; expires_at := None;
                     superuser := false |} |}.

Lemma sample_add_spec t n u : sample_add t n = Some u -> u = t + n * NANOS.
Proof. unfold sample_add. case_bool_decide; congruence. Qed.

Lemma lease_lifecycle_witness :
  let w' := {| leases := (grpc_renew_lease sample_add Some sample_world.(leases) 1 "l1" 500).2;
               revocations := [] |} in
  exists r', w'.(leases) !! "l1" = Some r' /\ evolves sample_lease r'.
Proof.
  intros w'.
  apply (lease_lifecycle sample_add sample_parse sample_print Some None (auth := t1_auth)
           sample_world w' "l1").
  - apply rtc_once. apply (step_grpc_renew _ _ _ _ _ sample_world 1 "l1" 500).
  - vm_compute. reflexivity.
Defined.

Lemma lease_never_exceeds_max_ttl_witness :
  all_bounded {| leases := (grpc_renew_lease sample_add Some sample_world.(leases) 1 "l1" 500).2;
                 revocations := [] |}.
Proof.
  apply (lease_never_exceeds_max_ttl sample_add sample_parse sample_print Some None
           (auth := t1_auth) sample_add_spec sample_world).
  - apply map_Forall_singleton. vm_compute. split; [reflexivity|discriminate].
  - apply rtc_once. apply (step_grpc_renew _ _ _ _ _ sample_world 1 "l1" 500).
Defined.

Lemma sweep_fail_closed_witness :
  (sweep sample_parse (Some (fun _ => Err "down")) sample_world (10 ^ 12)).(leases)
  = swept sample_parse (Some (fun _ => Err "down")) (10 ^ 12) <$> sample_world.(leases).
Proof.
  apply (sweep_fail_closed sample_parse (Some (fun _ => Err "down"))).
  by apply map_Forall_singleton.
Defined.

Lemma lease_hidden_from_other_tenants_witness :
  http_revoke_lease (auth := t2_auth) sample_parse Some None sample_world 1 ∅ "l1"
  = (JsonError 404 "not_found" "lease not found", sample_world).
Proof.
  apply (lease_hidden_from_other_tenants sample_add sample_parse Some None (auth := t2_auth)
           sample_world 1 ∅ "l1"
           {| tenant_id := "t2"; principal_id := "eve"; policies := []; expires_at := None;
              superuser := false |} "l1" None); [reflexivity..|].
  intros r. vm_compute. intros [= <-]. discriminate.
Defined.

Lemma http_revoke_effective_witness :
  exists lease r r', Some "l1" = Some lease /\ sample_world.(leases) !! lease = Some r /\
    (http_revoke_lease (auth := t1_auth) sample_parse Some (Some (fun _ => Ok tt))
       sample_world 1 ∅ "l1").2.(leases) !! lease = Some r' /\ r'.(lease_state) = Revoked.
Proof.
  destruct (http_revoke_effective sample_add sample_parse Some (Some (fun _ => Ok tt)) (auth := t1_auth)
    sample_world 1 ∅ "l1" (http_revoke_lease (auth := t1_auth) sample_parse Some
      (Some (fun _ => Ok tt)) sample_world 1 ∅ "l1").2) as (l & r & r' & H1 & H2 & H3 & H4 & _).
  - vm_compute. reflexivity.
  - exists l, r, r'. auto.
Defined.
