(* ===== verification/Envelope.v ===== *)
(** * Envelope encryption

    [crates/wslvault-core/src/crypto]: the envelope format of [envelope.rs],
    nonces ([nonce.rs]), key derivation ([kdf.rs]) and the algorithm registry
    ([registry.rs]). AES-256-GCM, base64, HKDF and the random generator come
    from other crates and are the operations of [Primitives]; what the code
    relies on is [PrimitiveLaws]. Byte vectors are strings of bytes. *)

From Stdlib Require Import Lia Ascii.
From stdpp Require Import pretty.
From S2P Require Import Prelude Errors.

Class Primitives := {
  (** key, nonce, message, associated data *)
  gcm_encrypt : string -> string -> string -> string -> option string;
  gcm_decrypt : string -> string -> string -> string -> option string;
  b64_encode : string -> string;
  b64_decode : string -> result string string;
  (** input key material, salt, info *)
  hkdf_expand : string -> option string -> string -> option string;
  hex_encode : string -> string;
}.

(** The documented behaviour of the AEAD and base64 crates. *)
Class PrimitiveLaws `{Primitives} : Prop := {
  gcm_round_trip : forall k n m aad c,
    gcm_encrypt k n m aad = Some c -> gcm_decrypt k n c aad = Some m;
  b64_round_trip : forall s, b64_decode (b64_encode s) = Ok s;
  (** the base64 alphabet is ASCII and has no white space and no colon *)
  b64_no_space : forall s, Str.forallb Str.is_visible (b64_encode s) = true;
  b64_no_colon : forall s, Str.mem ":" (b64_encode s) = false;
  b64_empty : b64_encode "" = "";
}.

(** The tag of a message, up to the chance of a forgery: a message opens only
    under the key and the associated data it was sealed with. *)
Class Authentic `{Primitives} : Prop :=
  gcm_authentic : forall k k' n m m' aad aad' c,
    gcm_encrypt k n m aad = Some c -> gcm_decrypt k' n c aad' = Some m' -> k' = k /\ aad' = aad.

(** ** Algorithm registry *)

Inductive KeyAlgorithm := Aes256Gcm | ChaCha20Poly1305 | XChaCha20Poly1305.

Definition key_length_bytes (alg : KeyAlgorithm) : nat :=
  match alg with Aes256Gcm => 32 | ChaCha20Poly1305 => 32 | XChaCha20Poly1305 => 32 end%nat.

Definition algorithm_name (alg : KeyAlgorithm) : string :=
  match alg with
  | Aes256Gcm => "Aes256Gcm" | ChaCha20Poly1305 => "ChaCha20Poly1305"
  | XChaCha20Poly1305 => "XChaCha20Poly1305"
  end.

Definition validate_key_length (alg : KeyAlgorithm) (key : string) : vresult () :=
  if negb (String.length key =? key_length_bytes alg)%nat
  then Err (ValidationError "key_material"
         ("algorithm " +:+ algorithm_name alg +:+ " requires "
          +:+ pretty (N.of_nat (key_length_bytes alg)) +:+ " bytes, got "
          +:+ pretty (N.of_nat (String.length key))))
  else Ok tt.

(** ** Envelopes *)

Definition AES_GCM_NONCE_LEN : nat := 12.

(** The bytes the generator fills in, or its failure. *)
Definition generate_aes_gcm_nonce (rng : option string) : vresult string :=
  ok_or rng (EncryptionFailed "CSPRNG nonce generation failed").

Record EncryptedEnvelope := { ciphertext_b64 : string; nonce : string }.

Section Envelope.
Context `{Primitives}.

Definition derive_key (ikm : string) (salt : option string) (info : string) : vresult string :=
  ok_or (hkdf_expand ikm salt info)
        (EncryptionFailed "HKDF expand failed: output length exceeds max").

Definition encrypt_with_dek (rng : option string) (dek plaintext aad : string) :
    vresult EncryptedEnvelope :=
  nonce_bytes ← generate_aes_gcm_nonce rng;
  ciphertext ← ok_or (gcm_encrypt dek nonce_bytes plaintext aad)
                     (EncryptionFailed "AES-256-GCM encryption failed");
  Ok {| ciphertext_b64 := b64_encode (nonce_bytes +:+ ciphertext); nonce := nonce_bytes |}.

Definition decrypt_with_dek (dek ct_b64 aad : string) : vresult string :=
  combined ← ok_or (result_ok (b64_decode ct_b64)) DecryptionFailed;
  if (String.length combined <? 12)%nat then Err DecryptionFailed
  else
    let nonce_bytes := String.substring 0 12 combined in
    let ciphertext := String.substring 12 (String.length combined - 12) combined in
    ok_or (gcm_decrypt dek nonce_bytes ciphertext aad) DecryptionFailed.

Lemma substring_prefix s t : String.substring 0 (String.length s) (s +:+ t) = s.
Proof. induction s as [|a s IH]; cbn; [by destruct t|]. by rewrite IH. Qed.

Lemma substring_all s : String.substring 0 (String.length s) s = s.
Proof. rewrite <- (Str.app_nil_r s) at 2. apply substring_prefix. Qed.

Lemma substring_suffix s t :
  String.substring (String.length s) (String.length t) (s +:+ t) = t.
Proof. induction s as [|a s IH]; cbn; [apply substring_all|apply IH]. Qed.

(** Splitting the wire format at the nonce length undoes the concatenation. *)
Lemma decrypt_combined dek n c aad :
  String.length n = AES_GCM_NONCE_LEN -> b64_decode (b64_encode (n +:+ c)) = Ok (n +:+ c) ->
  decrypt_with_dek dek (b64_encode (n +:+ c)) aad = ok_or (gcm_decrypt dek n c aad) DecryptionFailed.
Proof.
  intros Hn Hb. unfold decrypt_with_dek. rewrite Hb. cbn [ok_or result_ok mbind result_bind].
  rewrite Str.length_app, Hn. unfold AES_GCM_NONCE_LEN in *.
  rewrite (proj2 (Nat.ltb_ge _ _)) by lia.
  replace (12 + String.length c - 12)%nat with (String.length c) by lia.
  rewrite <- Hn at 1 2. by rewrite substring_prefix, substring_suffix.
Qed.

(** Encryption under a data key is undone by decryption with the same key and
    associated data. *)
Lemma envelope_round_trip `{!PrimitiveLaws} rng dek plaintext aad env :
  (forall n, rng = Some n -> String.length n = AES_GCM_NONCE_LEN) ->
  encrypt_with_dek rng dek plaintext aad = Ok env ->
  decrypt_with_dek dek env.(ciphertext_b64) aad = Ok plaintext.
Proof.
  intros Hlen. unfold encrypt_with_dek, generate_aes_gcm_nonce.
  destruct rng as [n|]; [|done]. cbn. destruct (gcm_encrypt _ _ _ _) as [c|] eqn:Hc; [|done].
  intros [= <-]. cbn [ciphertext_b64]. rewrite decrypt_combined; [|by apply Hlen|apply b64_round_trip].
  by rewrite (gcm_round_trip _ _ _ _ _ Hc).
Qed.

(** An envelope opens under no other key and no other associated data. *)
Lemma envelope_authentic `{!PrimitiveLaws, !Authentic} rng dek dek' plaintext m aad aad' env :
  (forall n, rng = Some n -> String.length n = AES_GCM_NONCE_LEN) ->
  encrypt_with_dek rng dek plaintext aad = Ok env ->
  decrypt_with_dek dek' env.(ciphertext_b64) aad' = Ok m -> dek' = dek /\ aad' = aad.
Proof.
  intros Hlen. unfold encrypt_with_dek, generate_aes_gcm_nonce.
  destruct rng as [n|]; [|done]. cbn. destruct (gcm_encrypt _ _ _ _) as [c|] eqn:Hc; [|done].
  intros [= <-]. cbn [ciphertext_b64]. rewrite decrypt_combined; [|by apply Hlen|apply b64_round_trip].
  destruct (gcm_decrypt _ _ _ _) as [m'|] eqn:Hd; [|done]. intros _.
  exact (gcm_authentic _ _ _ _ _ _ _ _ Hc Hd).
Qed.

(** An envelope is a non-empty text without white space. *)
Lemma envelope_text `{!PrimitiveLaws} rng dek plaintext aad env :
  (forall n, rng = Some n -> String.length n = AES_GCM_NONCE_LEN) ->
  encrypt_with_dek rng dek plaintext aad = Ok env ->
  Str.trim env.(ciphertext_b64) = env.(ciphertext_b64) /\ env.(ciphertext_b64) <> "".
Proof.
  intros Hlen. unfold encrypt_with_dek, generate_aes_gcm_nonce.
  destruct rng as [n|]; [|done]. specialize (Hlen n eq_refl). cbn.
  destruct (gcm_encrypt _ _ _ _) as [c|]; [|done]. intros [= <-]. cbn [ciphertext_b64].
  split; [apply Str.trim_id, b64_no_space|]. intros He.
  assert (Heq := b64_round_trip (n +:+ c)). rewrite He, <- b64_empty, b64_round_trip in Heq.
  injection Heq as Heq. by destruct n.
Qed.

Lemma envelope_no_colon `{!PrimitiveLaws} rng dek plaintext aad env :
  encrypt_with_dek rng dek plaintext aad = Ok env -> Str.mem ":" env.(ciphertext_b64) = false.
Proof.
  unfold encrypt_with_dek, generate_aes_gcm_nonce. destruct rng as [n|]; [|done]. cbn.
  destruct (gcm_encrypt _ _ _ _) as [c|]; [|done]. intros [= <-]. apply b64_no_colon.
Qed.

End Envelope.

(** ** A concrete instance

    Stand-ins for the cryptographic crates that satisfy the laws: two letters a
    byte for base64, the message itself for the cipher. *)

Definition nibble (n : nat) : ascii := ascii_of_nat (97 + n).

Fixpoint letters (s : string) : string :=
  match s with
  | EmptyString => ""
  | String a s' => String (nibble (nat_of_ascii a / 16)) (String (nibble (nat_of_ascii a mod 16)) (letters s'))
  end.

Fixpoint unletters (s : string) : result string string :=
  match s with
  | EmptyString => Ok ""
  | String hi (String lo s') =>
      rest ← unletters s';
      Ok (String (ascii_of_nat (16 * (nat_of_ascii hi - 97) + (nat_of_ascii lo - 97))) rest)
  | _ => Err "odd length"
  end.

Definition stand_in : Primitives := {|
  gcm_encrypt _ _ m _ := Some m; gcm_decrypt _ _ c _ := Some c;
  b64_encode := letters; b64_decode := unletters;
  hkdf_expand ikm _ _ := Some ikm; hex_encode s := s |}.

Lemma letters_round_trip s : unletters (letters s) = Ok s.
Proof.
  induction s as [|a s IH]; [done|]. cbn [letters unletters]. rewrite IH.
  cbn [mbind result_bind]. do 2 f_equal. by destruct a as [[] [] [] [] [] [] [] []].
Qed.

Lemma letters_no_space s : Str.forallb Str.is_visible (letters s) = true.
Proof.
  induction s as [|a s IH]; [done|]. cbn [letters Str.forallb]. rewrite IH.
  by destruct a as [[] [] [] [] [] [] [] []].
Qed.

Lemma letters_no_char c s :
  c = ":"%char \/ c = "|"%char -> Str.mem c (letters s) = false.
Proof.
  intros Hc. induction s as [|a s IH]; [done|]. cbn [letters Str.mem]. rewrite IH.
  destruct Hc as [-> | ->]; by destruct a as [[] [] [] [] [] [] [] []].
Qed.

Lemma letters_no_colon s : Str.mem ":" (letters s) = false.
Proof. apply letters_no_char. by left. Qed.

Lemma letters_no_bar s : Str.mem "|" (letters s) = false.
Proof. apply letters_no_char. by right. Qed.

Lemma stand_in_laws : PrimitiveLaws (H := stand_in).
Proof.
  split; cbn; [congruence|apply letters_round_trip|apply letters_no_space|apply letters_no_colon|done].
Qed.

(** A stand-in with a tag: the key and the associated data, in letters, before
    the message. *)
Definition tag (k aad : string) : string := letters k +:+ "|" +:+ letters aad +:+ "|".

Definition tagged : Primitives := {|
  gcm_encrypt k _ m aad := Some (tag k aad +:+ m);
  gcm_decrypt k _ c aad := Str.strip_prefix (tag k aad) c;
  b64_encode := letters; b64_decode := unletters;
  hkdf_expand ikm _ _ := Some ikm; hex_encode s := s |}.

Lemma letters_inj s t : letters s = letters t -> s = t.
Proof.
  intros Heq. assert (Hs := letters_round_trip s). rewrite Heq, letters_round_trip in Hs. congruence.
Qed.

Lemma bar_inj a b s t :
  letters a +:+ "|" +:+ s = letters b +:+ "|" +:+ t -> a = b /\ s = t.
Proof.
  intros Heq. assert (Ha : Str.split_once "|" (letters a +:+ "|" +:+ s) = Some (letters a, s))
    by (apply Str.split_once_Some; split; [done|apply letters_no_bar]).
  assert (Hb : Str.split_once "|" (letters b +:+ "|" +:+ t) = Some (letters b, t))
    by (apply Str.split_once_Some; split; [done|apply letters_no_bar]).
  rewrite Heq, Hb in Ha. injection Ha as Hl ->. split; [symmetry; by apply letters_inj|done].
Qed.

Lemma tagged_laws : PrimitiveLaws (H := tagged).
Proof.
  split; cbn; [|apply letters_round_trip|apply letters_no_space|apply letters_no_colon|done].
  intros k n m aad c [= <-]. by apply Str.strip_prefix_Some.
Qed.

Lemma tagged_authentic : Authentic (H := tagged).
Proof.
  intros k k' n m m' aad aad' c. cbn. intros [= <-] Hs.
  apply Str.strip_prefix_Some in Hs. unfold tag in Hs. rewrite <- !Str.app_assoc in Hs.
  apply bar_inj in Hs as [-> Hs]. cbn in Hs. apply bar_inj in Hs as [-> _]. done.
Qed.
