(* ===== verification/Seal.v ===== *)
(** * The seal

    [crates/wslvault-core/src/seal.rs]: Shamir-split custody of the root key.
    The sharing scheme is the [Sharks] crate and is the operations of
    [Sharing]; what the code relies on is [SharingLaws]. *)

From Stdlib Require Import Lia Ascii.
From stdpp Require Import pretty.
From S2P Require Import Prelude Errors Envelope.

Class Sharing := {
  Share : Type;
  (** [Share::try_from(&[u8])] *)
  share_try_from : string -> result string Share;
  (** [Sharks(threshold).dealer(secret)], as the bytes of the shares it yields
      for the given randomness. *)
  deal : Z -> string -> string -> nat -> list string;
  (** [Sharks(threshold).recover(shares)] *)
  recover : Z -> list Share -> result string string;
}.

(** The documented contract of the scheme: a dealer's shares are well formed,
    and any [threshold] different ones recover the secret. *)
Class SharingLaws `{Sharing} : Prop := {
  deal_well_formed : forall t k seed n raw,
    raw ∈ deal t k seed n -> exists s, share_try_from raw = Ok s;
  deal_recover : forall t k seed n raws,
    0 < t -> raws ⊆ deal t k seed n -> NoDup raws -> len raws = t ->
    recover t (omap (fun r => result_ok (share_try_from r)) raws) = Ok k;
}.

Record InitResult := { shares : list string; r_threshold : Z }.

Record SealMaterial := {
  m_shares : Z;
  threshold : Z;
  sealed_root_key : string;
  unseal_key_check : string;
}.

Record SealStatus := {
  sealed : bool;
  initialized : bool;
  s_threshold : Z;
  s_shares : Z;
  progress : Z;
}.

Record Seal := {
  material : option SealMaterial;
  held_root_key : option string;
  pending : list string;
}.

Definition SEAL_AAD : string := "wslvault:seal:root-key:v1".
Definition CHECK_INFO : string := "wslvault:seal:unseal-key-check:v1".

Definition new : Seal := {| material := None; held_root_key := None; pending := [] |}.

Definition load (self : Seal) (m : SealMaterial) : Seal :=
  {| material := Some m; held_root_key := None; pending := [] |}.

Definition unseal_with_root_key (self : Seal) (k : string) : Seal :=
  {| material := self.(material); held_root_key := Some k; pending := [] |}.

Definition seal (self : Seal) : Seal :=
  {| material := self.(material); held_root_key := None; pending := [] |}.

Definition reset_unseal_progress (self : Seal) : Seal :=
  {| material := self.(material); held_root_key := self.(held_root_key); pending := [] |}.

Definition status_of (self : Seal) (m : option SealMaterial) : SealStatus :=
  {| sealed := bool_decide (self.(held_root_key) = None);
     initialized := bool_decide (is_Some (m_shares <$> m));
     s_threshold := default 0 (threshold <$> m);
     s_shares := default 0 (m_shares <$> m);
     progress := as_u8 (len self.(pending)) |}.

Definition status (self : Seal) : SealStatus := status_of self self.(material).

Definition is_unsealed (self : Seal) : bool := bool_decide (is_Some self.(held_root_key)).

Definition root_key (self : Seal) : vresult string := ok_or self.(held_root_key) Sealed.

Section SealOps.
Context `{Primitives, Sharing}.

Definition check_value (unseal_key : string) : vresult string :=
  derived ← derive_key unseal_key None CHECK_INFO;
  Ok (hex_encode derived).

Definition random_32 (rng : option string) : vresult string :=
  ok_or rng (EncryptionFailed "CSPRNG failed while generating seal key material").

(** The guards of [init], up to the end of its read lock. *)
Definition init_check (self : Seal) (nshares thr : Z) : vresult () :=
  if (thr =? 0) || (nshares =? 0)
  then Err (ValidationError "threshold" "shares and threshold must both be at least 1")
  else if thr >? nshares
  then Err (ValidationError "threshold" ("threshold " +:+ pretty thr +:+ " exceeds shares "
                                         +:+ pretty nshares))
  else match self.(material) with
       | Some _ => Err (ValidationError "seal" ("vault is already initialized; re-initialising would "
                          +:+ "orphan every key encrypted under the current root key"))
       | None => Ok tt
       end.

(** The randomness [init] draws: two keys, the nonce and the dealer's. *)
Record InitRandom := {
  root_rng : option string;
  unseal_rng : option string;
  nonce_rng : option string;
  dealer_seed : string;
}.

(** What [init] computes between its two locks. *)
Definition init_material (rng : InitRandom) (nshares thr : Z) :
    vresult (InitResult * SealMaterial) :=
  root ← random_32 rng.(root_rng);
  unseal_key ← random_32 rng.(unseal_rng);
  env ← encrypt_with_dek rng.(nonce_rng) unseal_key root SEAL_AAD;
  check ← check_value unseal_key;
  Ok ({| shares := b64_encode <$> deal thr unseal_key rng.(dealer_seed) (Z.to_nat nshares);
         r_threshold := thr |},
      {| m_shares := nshares; threshold := thr; sealed_root_key := env.(ciphertext_b64);
         unseal_key_check := check |}).

(** The write lock of [init]. *)
Definition init_commit (self : Seal) (m : SealMaterial) : Seal := load self m.

Definition init (rng : InitRandom) (self : Seal) (nshares thr : Z) :
    vresult (InitResult * SealMaterial) * Seal :=
  match init_check self nshares thr with
  | Err e => (Err e, self)
  | Ok _ =>
      match init_material rng nshares thr with
      | Err e => (Err e, self)
      | Ok (res, m) => (Ok (res, m), init_commit self m)
      end
  end.

(** From the reconstruction on, with the new share already in [pending]. *)
Definition reconstruct (self : Seal) (m : SealMaterial) : vresult SealStatus * Seal :=
  let cleared := {| material := self.(material); held_root_key := self.(held_root_key);
                    pending := [] |} in
  let parsed := omap (fun r => result_ok (share_try_from r)) self.(pending) in
  match recover m.(threshold) parsed with
  | Err e =>
      (Err (ValidationError "share" ("could not reconstruct the unseal key: " +:+ e)), self)
  | Ok unseal_key =>
      if negb (String.length unseal_key =? 32)%nat
      then (Err (ValidationError "share" "reconstructed unseal key has the wrong length"), cleared)
      else match check_value unseal_key with
           | Err e => (Err e, self)
           | Ok check =>
               if negb (bool_decide (check = m.(unseal_key_check)))
               then (Err (ValidationError "share"
                       "the supplied shares do not reconstruct this vault's unseal key"), cleared)
               else match decrypt_with_dek unseal_key m.(sealed_root_key) SEAL_AAD with
                    | Err _ => (Err (Internal ("sealed root key failed to decrypt under a verified "
                                 +:+ "unseal key; the stored material is corrupt")), self)
                    | Ok plaintext =>
                        if negb (String.length plaintext =? 32)%nat
                        then (Err (Internal "unsealed root key has the wrong length"), self)
                        else let self' := {| material := self.(material);
                                             held_root_key := Some plaintext; pending := [] |} in
                             (Ok (status_of self' (Some m)), self')
                    end
           end
  end.

Definition unseal (self : Seal) (share_b64 : string) : vresult SealStatus * Seal :=
  match self.(material) with
  | None => (Err (ValidationError "seal" "vault is not initialized"), self)
  | Some m =>
      if bool_decide (is_Some self.(held_root_key)) then (Ok (status_of self (Some m)), self)
      else match b64_decode (Str.trim share_b64) with
           | Err e => (Err (ValidationError "share" ("share is not valid base64: " +:+ e)), self)
           | Ok raw =>
               match share_try_from raw with
               | Err e => (Err (ValidationError "share" ("share is malformed: " +:+ e)), self)
               | Ok _ =>
                   if bool_decide (raw ∈ self.(pending)) then (Ok (status_of self (Some m)), self)
                   else
                     let self' := {| material := self.(material);
                                     held_root_key := self.(held_root_key);
                                     pending := self.(pending) ++ [raw] |} in
                     if as_u8 (len self'.(pending)) <? m.(threshold)
                     then (Ok (status_of self' (Some m)), self')
                     else reconstruct self' m
               end
           end
  end.

End SealOps.

(** ** Unsealing *)

Section SealLaws.
Context `{Primitives, Sharing}.

(** A sequence of submissions, from any mix of holders. *)
Definition unseal_all (self : Seal) (submitted : list string) : Seal :=
  fold_left (fun s x => (unseal s x).2) submitted self.

Lemma unseal_all_snoc s l x : unseal_all s (l ++ [x]) = (unseal (unseal_all s l) x).2.
Proof. unfold unseal_all. by rewrite fold_left_app. Qed.

(** The byte strings a sequence of submissions decodes to. *)
Definition decoded (submitted : list string) : list string :=
  omap (fun x => result_ok (b64_decode (Str.trim x))) submitted.

(** An attempt in progress: locked, with these distinct shares gathered. *)
Definition gathering (m : SealMaterial) (raws : list string) : Seal :=
  {| material := Some m; held_root_key := None; pending := raws |}.

Lemma as_u8_small z : 0 <= z < 256 -> as_u8 z = z.
Proof. apply (wrap_small 8). Qed.

Lemma unseal_gathering m raws x :
  len raws + 1 < 256 ->
  let s' := (unseal (gathering m raws) x).2 in
  match b64_decode (Str.trim x) with
  | Err _ => s' = gathering m raws
  | Ok raw =>
      s' = gathering m raws \/
      ((raw ∉ raws) /\ is_ok (share_try_from raw) = true /\
       s' = if len raws + 1 <? m.(threshold) then gathering m (raws ++ [raw])
            else (reconstruct (gathering m (raws ++ [raw])) m).2)
  end.
Proof.
  intros Hlen. unfold unseal, gathering. cbn.
  destruct (b64_decode (Str.trim x)) as [raw|]; [|done].
  destruct (share_try_from raw); [|by left]. case_bool_decide; [by left|]. right.
  rewrite len_app. change (len [raw]) with 1.
  pose proof (len_nonneg raws). rewrite as_u8_small by lia.
  split; [done|]. split; [done|]. by destruct (_ <? _).
Qed.

Lemma NoDup_length_le {A} `{EqDecision A} (l k : list A) :
  NoDup l -> l ⊆ k -> (List.length l <= List.length (remove_dups k))%nat.
Proof.
  intros Hl Hsub. apply submseteq_length, NoDup_submseteq; [done|].
  intros x Hx. by apply elem_of_remove_dups, Hsub.
Qed.

Lemma remove_dups_snoc_le {A} `{EqDecision A} (l k : list A) :
  (List.length (remove_dups l) <= List.length (remove_dups (l ++ k)))%nat.
Proof.
  apply NoDup_length_le; [apply NoDup_remove_dups|].
  intros x Hx. rewrite elem_of_remove_dups in Hx. apply elem_of_app. by left.
Qed.

(** Submissions with fewer distinct contents than the threshold only gather. *)
Lemma unseal_all_below m submitted :
  0 < m.(threshold) < 256 ->
  len (remove_dups (decoded submitted)) < m.(threshold) ->
  exists raws, unseal_all (gathering m []) submitted = gathering m raws /\
    NoDup raws /\ raws ⊆ decoded submitted.
Proof.
  intros Ht. induction submitted as [|x l IH] using rev_ind; intros Hlt.
  { exists []. split; [done|]. split; [constructor|done]. }
  assert (Hd : decoded (l ++ [x]) = decoded l ++ decoded [x]) by apply omap_app.
  rewrite Hd in *.
  pose proof (remove_dups_snoc_le (decoded l) (decoded [x])) as Hle.
  destruct IH as (raws & Hrun & Hnd & Hsub); [unfold len in *; lia|].
  rewrite unseal_all_snoc, Hrun.
  assert (Hsub' : raws ⊆ decoded l ++ decoded [x]) by set_solver.
  pose proof (NoDup_length_le _ _ Hnd Hsub') as Hlen.
  pose proof (unseal_gathering m raws x) as Hstep. cbv zeta in Hstep.
  assert (Hx : decoded [x] = match b64_decode (Str.trim x) with Ok raw => [raw] | Err _ => [] end)
    by (cbn; by destruct (b64_decode _)).
  rewrite Hx in *. clear Hx. destruct (b64_decode (Str.trim x)) as [raw|e].
  - destruct Hstep as [->|(Hni & _ & ->)]; [unfold len in *; lia|eauto|].
    assert (Hnd' : NoDup (raws ++ [raw])).
    { apply NoDup_app. split; [done|]. split; [|apply NoDup_singleton].
      intros y Hy ->%list_elem_of_singleton. done. }
    assert (Hsub2 : raws ++ [raw] ⊆ decoded l ++ [raw]).
    { intros y [Hy%Hsub|Hy]%elem_of_app; apply elem_of_app; auto. }
    pose proof (NoDup_length_le _ _ Hnd' Hsub2) as Hlen2. rewrite length_app in Hlen2. cbn in *.
    destruct (_ <? _) eqn:E; [eauto|]. unfold len in *. lia.
  - rewrite Hstep by (unfold len in *; lia). eauto.
Qed.

(** C25. No quorum, no key: whatever is submitted, in whatever order and however
    often (forged, malformed or repeated shares included), a vault with
    threshold [t] stays sealed while fewer than [t] different shares have been
    supplied. *)
Theorem sealed_below_threshold m submitted :
  0 < m.(threshold) < 256 ->
  len (remove_dups (decoded submitted)) < m.(threshold) ->
  root_key (unseal_all (load new m) submitted) = Err Sealed /\
  sealed (status (unseal_all (load new m) submitted)) = true.
Proof.
  intros Ht Hlt. destruct (unseal_all_below m submitted Ht Hlt) as (raws & Hrun & _).
  change (load new m) with (gathering m []). by rewrite Hrun.
Qed.

(** The lengths the generator is asked for. *)
Definition rng_ok (rng : InitRandom) : Prop :=
  (forall k, rng.(root_rng) = Some k -> String.length k = 32%nat) /\
  (forall k, rng.(unseal_rng) = Some k -> String.length k = 32%nat) /\
  (forall n, rng.(nonce_rng) = Some n -> String.length n = AES_GCM_NONCE_LEN).

Lemma init_Ok rng self n t res m self' :
  init rng self n t = (Ok (res, m), self') ->
  self.(material) = None /\ self' = load self m /\ 0 <> t /\ t <= n /\ m.(threshold) = t /\
  exists root ukey env, rng.(root_rng) = Some root /\ rng.(unseal_rng) = Some ukey /\
    encrypt_with_dek rng.(nonce_rng) ukey root SEAL_AAD = Ok env /\
    check_value ukey = Ok m.(unseal_key_check) /\ m.(sealed_root_key) = env.(ciphertext_b64) /\
    res.(shares) = b64_encode <$> deal t ukey rng.(dealer_seed) (Z.to_nat n).
Proof.
  unfold init, init_check. destruct (_ || _) eqn:E0; [done|]. destruct (t >? n) eqn:E1; [done|].
  destruct self.(material); [done|]. destruct (init_material rng n t) as [[res' m']|] eqn:Hm; [|done].
  intros [= -> -> <-]. unfold init_material, random_32 in Hm.
  destruct rng.(root_rng) as [root|]; [|done]. destruct rng.(unseal_rng) as [ukey|]; [|done].
  cbn [ok_or mbind result_bind] in Hm.
  destruct (encrypt_with_dek _ _ _ _) as [env|] eqn:He; [|done]. cbn [mbind result_bind] in Hm.
  destruct (check_value ukey) as [c|] eqn:Hc; [|done]. injection Hm as <- <-. bools.
  repeat split; try lia. exists root, ukey, env. by rewrite Hc.
Qed.

Context `{!PrimitiveLaws, !SharingLaws}.

#[local] Instance b64_encode_inj : Inj (=) (=) b64_encode.
Proof. intros x y Hxy. pose proof (b64_round_trip x). rewrite Hxy, b64_round_trip in *. congruence. Qed.

Lemma unseal_genuine m raws raw :
  (exists s, share_try_from raw = Ok s) -> raw ∉ raws -> len raws + 1 < 256 ->
  (unseal (gathering m raws) (b64_encode raw)).2 =
  if len raws + 1 <? m.(threshold) then gathering m (raws ++ [raw])
  else (reconstruct (gathering m (raws ++ [raw])) m).2.
Proof.
  intros [s Hs] Hni Hlen. unfold unseal, gathering. cbn -[len].
  rewrite Str.trim_id by apply b64_no_space. rewrite b64_round_trip, Hs.
  rewrite bool_decide_false by done. rewrite len_app. change (len [raw]) with 1.
  pose proof (len_nonneg raws). rewrite as_u8_small by lia. by destruct (_ <? _).
Qed.

Lemma NoDup_snoc {A} (l : list A) x : NoDup (l ++ [x]) -> NoDup l /\ x ∉ l.
Proof.
  intros [Hl [Hx _]]%NoDup_app. split; [done|]. intros Hin. apply (Hx x Hin). by left.
Qed.

Lemma unseal_all_genuine m raws :
  0 < m.(threshold) < 256 -> (forall raw, raw ∈ raws -> exists s, share_try_from raw = Ok s) ->
  NoDup raws -> len raws <= m.(threshold) ->
  unseal_all (gathering m []) (b64_encode <$> raws) =
  if len raws <? m.(threshold) then gathering m raws else (reconstruct (gathering m raws) m).2.
Proof.
  intros Ht. induction raws as [|raw raws IH] using rev_ind; intros Hwf Hnd Hlen.
  { change (len (@nil string)) with 0. rewrite (proj2 (Z.ltb_lt 0 m.(threshold))) by lia. done. }
  apply NoDup_snoc in Hnd as [Hnd Hni]. rewrite len_app in *. change (len [raw]) with 1 in *.
  rewrite fmap_app. cbn [fmap list_fmap]. rewrite unseal_all_snoc, IH; [|set_solver|done|lia].
  rewrite (proj2 (Z.ltb_lt (len raws) m.(threshold))) by lia.
  apply unseal_genuine; [apply Hwf; set_solver|done|lia].
Qed.

Lemma reconstruct_genuine rng m t ukey root env raws n :
  rng_ok rng -> rng.(root_rng) = Some root -> rng.(unseal_rng) = Some ukey ->
  encrypt_with_dek rng.(nonce_rng) ukey root SEAL_AAD = Ok env ->
  check_value ukey = Ok m.(unseal_key_check) -> m.(sealed_root_key) = env.(ciphertext_b64) ->
  m.(threshold) = t -> 0 < t -> raws ⊆ deal t ukey rng.(dealer_seed) n -> NoDup raws ->
  len raws = t ->
  held_root_key (reconstruct (gathering m raws) m).2 = Some root.
Proof.
  intros (Hr & Hu & Hn) Hroot Hukey Henv Hcheck Hsealed <- Hpos Hsub Hnd Hlen.
  unfold reconstruct. cbn [pending gathering material held_root_key].
  rewrite (deal_recover _ ukey rng.(dealer_seed) n) by done.
  rewrite (Hu ukey) by done. cbn [negb Nat.eqb]. rewrite Hcheck, bool_decide_true by done.
  cbn [negb]. rewrite Hsealed, (envelope_round_trip _ _ _ _ _ Hn Henv).
  rewrite (Hr root) by done. done.
Qed.

(** C26. Any quorum recovers the root key: after a successful initialisation,
    submitting any [threshold] of the shares it returned, in any order, unseals
    the vault with exactly the root key that was generated, and submitting fewer
    leaves it sealed with the count as progress. *)
Theorem quorum_unseals rng n t res m self' quorum root :
  rng_ok rng -> rng.(root_rng) = Some root -> 0 <= t -> n < 256 ->
  init rng new n t = (Ok (res, m), self') ->
  NoDup quorum -> quorum ⊆ res.(shares) -> len quorum <= t ->
  if len quorum <? t
  then root_key (unseal_all self' quorum) = Err Sealed /\
       progress (status (unseal_all self' quorum)) = len quorum
  else root_key (unseal_all self' quorum) = Ok root.
Proof.
  intros Hrng Hroot Ht Hn256 Hinit Hnd Hsub Hlen.
  apply init_Ok in Hinit as (_ & -> & Ht0 & Htn & Hthr & r & ukey & env & Hr & Hu & Henv & Hchk & Hs & Hsh).
  replace r with root in * by congruence. rewrite Hsh in Hsub.
  assert (exists raws, quorum = b64_encode <$> raws /\
            raws ⊆ deal t ukey rng.(dealer_seed) (Z.to_nat n)) as (raws & -> & Hraws).
  { clear Hnd Hlen. induction quorum as [|x q IHq]; [by exists []; split; [|intros y Hy%not_elem_of_nil]|].
    destruct IHq as (raws & -> & Hraws); [set_solver|].
    destruct (proj1 (list_elem_of_fmap _ _ _) (Hsub x ltac:(by left))) as (raw & -> & Hraw).
    exists (raw :: raws). split; [done|]. set_solver. }
  apply NoDup_fmap_1 in Hnd. assert (Hl : len (b64_encode <$> raws) = len raws)
    by (unfold len; by rewrite length_fmap). rewrite Hl in *.
  change (load new m) with (gathering m []).
  rewrite unseal_all_genuine by (try done; try lia; intros raw Hraw%Hraws; by eapply deal_well_formed).
  rewrite Hthr. destruct (len raws <? t) eqn:E.
  - split; [done|]. unfold status, status_of. cbn. rewrite as_u8_small; [done|].
    pose proof (len_nonneg raws). lia.
  - unfold root_key. erewrite reconstruct_genuine; try done; lia.
Qed.

(** A second initialisation is refused and leaves the seal as it is. *)
Lemma init_once rng rng' self n t n' t' r self' :
  init rng self n t = (Ok r, self') ->
  exists e, init rng' self' n' t' = (Err e, self').
Proof.
  destruct r as [res m]. intros (_ & -> & _)%init_Ok. unfold init, init_check. cbn.
  destruct (_ || _); [eauto|]. destruct (_ >? _); eauto.
Qed.

End SealLaws.

(** ** Behaviour at the edges *)

(** A reconstruction the sharing scheme refuses leaves the gathered shares in
    place, so the attempt can only be abandoned with [reset_unseal_progress]. *)
Lemma refused_recovery_keeps_pending `{Primitives, Sharing} s m e :
  recover m.(threshold) (omap (fun r => result_ok (share_try_from r)) s.(pending)) = Err e ->
  (reconstruct s m).2 = s.
Proof. intros Hr. unfold reconstruct. by rewrite Hr. Qed.

(** [init] checks under a read lock and commits under a later write lock: two
    calls that both pass the check both return shares, and only the second
    one's open the vault. *)
Theorem init_race_orphans_shares `{Primitives, Sharing} rng1 rng2 n t r1 m1 r2 m2 :
  init_check new n t = Ok tt ->
  init_material rng1 n t = Ok (r1, m1) -> init_material rng2 n t = Ok (r2, m2) ->
  init_commit (init_commit new m1) m2 = load new m2.
Proof. done. Qed.

(** ** Witnesses *)

(** A stand-in for the sharing scheme: every share is an index and the secret. *)
Definition stand_in_sharing : Sharing := {|
  Share := string;
  share_try_from raw := match raw with String _ k => Ok k | EmptyString => Err "empty" end;
  deal _ k _ n := (fun i => String (ascii_of_nat i) k) <$> seq 1 n;
  recover t ss := match ss with
                  | k :: _ => if len ss >=? t then Ok k else Err "Not enough shares"
                  | [] => Err "Not enough shares"
                  end |}.

Lemma stand_in_sharing_laws : SharingLaws (H := stand_in_sharing).
Proof.
  split.
  - intros t k seed n raw (i & -> & _)%list_elem_of_fmap. cbn. eauto.
  - intros t k seed n raws Ht Hsub _ Hlen.
    assert (Hall : forall r, r ∈ raws -> result_ok (share_try_from (Sharing := stand_in_sharing) r) = Some k).
    { intros r (i & -> & _)%Hsub%list_elem_of_fmap. done. }
    assert (omap (fun r => result_ok (share_try_from (Sharing := stand_in_sharing) r)) raws
            = replicate (List.length raws) k) as ->.
    { clear Hsub Hlen. induction raws as [|r raws IH]; [done|]. cbn [omap list_omap].
      rewrite Hall by (by left). cbn. f_equal. apply IH. intros r' Hr'. apply Hall. by right. }
    cbn. destruct raws as [|r raws]; [unfold len in Hlen; cbn in Hlen; lia|]. cbn [List.length replicate].
    rewrite (proj2 (Z.geb_le _ _)); [done|]. unfold len in *. cbn in *.
    rewrite length_replicate. lia.
Qed.

Definition sample_key (c : ascii) : string := Str.repeat c 32.
Definition sample_rng : InitRandom :=
  {| root_rng := Some (sample_key "r"); unseal_rng := Some (sample_key "u");
     nonce_rng := Some (Str.repeat "n" 12); dealer_seed := "" |}.

Definition sample_init := init (H := stand_in) (H0 := stand_in_sharing) sample_rng new 3 2.

Definition sample_shares : list string :=
  match sample_init.1 with Ok (res, _) => res.(shares) | Err _ => [] end.

Definition sample_material : SealMaterial :=
  default {| m_shares := 0; threshold := 0; sealed_root_key := ""; unseal_key_check := "" |}
    sample_init.2.(material).

Lemma sealed_below_threshold_witness :
  root_key (unseal_all (H := stand_in) (H0 := stand_in_sharing) (load new sample_material)
    (take 1 sample_shares ++ take 1 sample_shares ++ ["bad"])) = Err Sealed.
Proof.
  apply (sealed_below_threshold (H := stand_in) (H0 := stand_in_sharing) sample_material);
    vm_compute; [split; reflexivity|reflexivity].
Defined.

Lemma quorum_unseals_witness :
  root_key (unseal_all (H := stand_in) (H0 := stand_in_sharing) sample_init.2
    (drop 1 sample_shares)) = Ok (sample_key "r").
Proof.
  apply (quorum_unseals (H := stand_in) (H0 := stand_in_sharing)
           (H1 := stand_in_laws) (H2 := stand_in_sharing_laws)
           sample_rng 3 2 {| shares := sample_shares; r_threshold := 2 |} sample_material
           sample_init.2 (drop 1 sample_shares) (sample_key "r")).
  - repeat split; intros ? [= <-]; reflexivity.
  - reflexivity.
  - lia.
  - lia.
  - vm_compute. reflexivity.
  - apply (bool_decide_unpack _). vm_compute. exact I.
  - apply subseteq_drop.
  - vm_compute. discriminate.
Defined.
