(* ===== verification/KeyStore.v ===== *)
(** * Key descriptors in PostgreSQL

    [crates/wslvault-storage/src/key_store.rs] and [seal_store.rs]: the tables
    [system.key_descriptors], [system.seal_config] and the outbox rows the key
    store emits, with the domain types of [crates/wslvault-core/src/types/key.rs].

    A statement is a function on the tables. It takes the failure the driver
    reports for this call, if any, and the server's clock where the statement
    reads it; an INSERT checks the constraints of [storage/postgres/init]: the
    primary key on [id] alone, the partial unique index on (tenant, purpose,
    version) of the KEK-class purposes, the one on (tenant, name, version), and
    the foreign keys to tenants and parent keys. Where SQL leaves the order of
    rows with equal sort keys open, rows keep the order of the table. *)

From Stdlib Require Import Lia.
From S2P Require Import Prelude Errors Envelope Seal.

Inductive KeyPurpose := RootKek | TenantKek | DataEncryption | Signing | TransitKey.
Inductive KeyState := Active | RotatingOut | Retired | Destroyed.

#[global] Instance KeyPurpose_eq_dec : EqDecision KeyPurpose.
Proof. solve_decision. Defined.
#[global] Instance KeyState_eq_dec : EqDecision KeyState.
Proof. solve_decision. Defined.

Record KeyDescriptor := {
  kd_id : string;
  kd_version : Z;
  kd_algorithm : KeyAlgorithm;
  kd_purpose : KeyPurpose;
  kd_state : KeyState;
  kd_tenant_id : option string;
  kd_created_at : Z;
  kd_rotated_at : option Z;
  kd_expires_at : option Z;
}.

Definition parse_algorithm (s : string) : KeyAlgorithm :=
  if bool_decide (s = "chacha20-poly1305") then ChaCha20Poly1305
  else if bool_decide (s = "xchacha20-poly1305") then XChaCha20Poly1305
  else Aes256Gcm.

Definition algorithm_str (a : KeyAlgorithm) : string :=
  match a with
  | Aes256Gcm => "aes-256-gcm"
  | ChaCha20Poly1305 => "chacha20-poly1305"
  | XChaCha20Poly1305 => "xchacha20-poly1305"
  end.

Definition parse_purpose (s : string) : KeyPurpose :=
  if bool_decide (s = "root_kek") then RootKek
  else if bool_decide (s = "tenant_kek") then TenantKek
  else if bool_decide (s = "data_encryption") then DataEncryption
  else if bool_decide (s = "signing") then Signing
  else if bool_decide (s = "transit") then TransitKey
  else DataEncryption.

Definition purpose_str (p : KeyPurpose) : string :=
  match p with
  | RootKek => "root_kek"
  | TenantKek => "tenant_kek"
  | DataEncryption => "data_encryption"
  | Signing => "signing"
  | TransitKey => "transit"
  end.

Definition parse_state (s : string) : KeyState :=
  if bool_decide (s = "rotating_out") then RotatingOut
  else if bool_decide (s = "retired") then Retired
  else if bool_decide (s = "destroyed") then Destroyed
  else Active.

Definition state_str (s : KeyState) : string :=
  match s with
  | Active => "active"
  | RotatingOut => "rotating_out"
  | Retired => "retired"
  | Destroyed => "destroyed"
  end.

(** The texts of the table are read back as the values they were written from. *)
Lemma parse_purpose_str p : parse_purpose (purpose_str p) = p.
Proof. by destruct p. Qed.

Lemma parse_state_str s : parse_state (state_str s) = s.
Proof. by destruct s. Qed.

Lemma parse_algorithm_str a : parse_algorithm (algorithm_str a) = a.
Proof. by destruct a. Qed.

Lemma purpose_str_inj p q : purpose_str p = purpose_str q -> p = q.
Proof. intros Heq. by rewrite <- (parse_purpose_str p), Heq, parse_purpose_str. Qed.

(** ** The tables *)

Record KeyRow := {
  kr_id : string;
  kr_version : Z;
  kr_algorithm : string;
  kr_purpose : string;
  kr_state : string;
  kr_tenant_id : option string;
  kr_wrapped_key : string;
  kr_parent_key_id : option string;
  kr_created_at : Z;
  kr_rotated_at : option Z;
  kr_expires_at : option Z;
  kr_key_name : option string;
}.

(** A [dek_upsert] row of [system.replication_events]. *)
Record DekUpsert := {
  du_region : string;
  du_tenant_id : string;
  du_key_id : string;
  du_version : Z;
  du_wrapped_root : string;
}.

Record KeyDb := {
  kdb_rows : list KeyRow;
  kdb_tenants : list string;
  kdb_events : list DekUpsert;
  kdb_seal : option SealMaterial;
}.

Definition with_rows (db : KeyDb) (rows : list KeyRow) : KeyDb :=
  {| kdb_rows := rows; kdb_tenants := db.(kdb_tenants); kdb_events := db.(kdb_events);
     kdb_seal := db.(kdb_seal) |}.

Definition with_event (db : KeyDb) (e : DekUpsert) : KeyDb :=
  {| kdb_rows := db.(kdb_rows); kdb_tenants := db.(kdb_tenants);
     kdb_events := db.(kdb_events) ++ [e]; kdb_seal := db.(kdb_seal) |}.

Definition with_seal_config (db : KeyDb) (m : SealMaterial) : KeyDb :=
  {| kdb_rows := db.(kdb_rows); kdb_tenants := db.(kdb_tenants);
     kdb_events := db.(kdb_events); kdb_seal := Some m |}.

(** [x as i32] of a [u32] and back. *)
Definition as_i32 (z : Z) : Z := (z + 2 ^ 31) mod 2 ^ 32 - 2 ^ 31.

(** The message the driver gives for a violated constraint. *)
Class SqlText := violation : string -> string.

(** [Uuid::parse_str]: the canonical text of the value, or its error. *)
Class Uuids := uuid_parse : string -> result string string.

(** ** Statements *)

Section Statements.
Context `{SqlText, Uuids}.

(** One round trip: the driver's failure, or the statement. *)
Definition sql {A} (io : option string) (a : vresult A) : vresult A :=
  match io with Some e => Err (Database e) | None => a end.

Definition desc_of_row (r : KeyRow) : KeyDescriptor :=
  {| kd_id := r.(kr_id); kd_version := as_u32 r.(kr_version);
     kd_algorithm := parse_algorithm r.(kr_algorithm); kd_purpose := parse_purpose r.(kr_purpose);
     kd_state := parse_state r.(kr_state); kd_tenant_id := r.(kr_tenant_id);
     kd_created_at := r.(kr_created_at); kd_rotated_at := r.(kr_rotated_at);
     kd_expires_at := r.(kr_expires_at) |}.

Definition get_key_descriptor (io : option string) (db : KeyDb) (key_id : string) :
    vresult KeyDescriptor :=
  sql io (desc_of_row <$>
    ok_or (head (filter (fun r => r.(kr_id) = key_id) db.(kdb_rows))) (KeyNotFound key_id)).

(** Insertion sort: stable, by a boolean order. *)
Fixpoint insert_by {A} (le : A -> A -> bool) (x : A) (l : list A) : list A :=
  match l with
  | [] => [x]
  | y :: l' => if le x y then x :: l else y :: insert_by le x l'
  end.

Fixpoint order_by {A} (le : A -> A -> bool) (l : list A) : list A :=
  match l with
  | [] => []
  | x :: l' => insert_by le x (order_by le l')
  end.

(** LIMIT *)
Fixpoint limit {A} (n : Z) (l : list A) : list A :=
  match l with
  | [] => []
  | x :: l' => if n <=? 0 then [] else x :: limit (n - 1) l'
  end.

Definition version_asc (r1 r2 : KeyRow) : bool := r1.(kr_version) <=? r2.(kr_version).
Definition version_desc (r1 r2 : KeyRow) : bool := r2.(kr_version) <=? r1.(kr_version).
Definition created_desc (r1 r2 : KeyRow) : bool := r2.(kr_created_at) <=? r1.(kr_created_at).

Definition debug_purpose (p : KeyPurpose) : string :=
  match p with
  | RootKek => "RootKek" | TenantKek => "TenantKek" | DataEncryption => "DataEncryption"
  | Signing => "Signing" | TransitKey => "Transit"
  end.

Definition get_active_key (io : option string) (db : KeyDb) (tenant_id : string) (p : KeyPurpose) :
    vresult KeyDescriptor :=
  sql io (desc_of_row <$>
    ok_or (head (order_by version_desc (filter (fun r =>
             r.(kr_tenant_id) = Some tenant_id /\ r.(kr_purpose) = purpose_str p
             /\ r.(kr_state) = "active") db.(kdb_rows))))
          (KeyNotFound (tenant_id +:+ ":" +:+ debug_purpose p))).

(** The unique indexes: is there a row the new one collides with? *)
Definition kek_class (purpose : string) : bool :=
  bool_decide (purpose ∈ ["tenant_kek"; "root_kek"; "signing"; "transit"]).

Definition same_kek_version (r r' : KeyRow) : bool :=
  kek_class r.(kr_purpose) && bool_decide (r.(kr_purpose) = r'.(kr_purpose))
  && bool_decide (is_Some r.(kr_tenant_id)) && bool_decide (r.(kr_tenant_id) = r'.(kr_tenant_id))
  && (r.(kr_version) =? r'.(kr_version)).

Definition same_name_version (r r' : KeyRow) : bool :=
  bool_decide (is_Some r.(kr_key_name)) && bool_decide (r.(kr_key_name) = r'.(kr_key_name))
  && bool_decide (is_Some r.(kr_tenant_id)) && bool_decide (r.(kr_tenant_id) = r'.(kr_tenant_id))
  && (r.(kr_version) =? r'.(kr_version))
  && negb (bool_decide (r.(kr_state) = "destroyed"))
  && negb (bool_decide (r'.(kr_state) = "destroyed")).

(** The constraint an inserted row violates first. *)
Definition violated (db : KeyDb) (r : KeyRow) : option string :=
  if bool_decide (r.(kr_id) ∈ kr_id <$> db.(kdb_rows)) then Some "key_descriptors_pkey"
  else if existsb (same_kek_version r) db.(kdb_rows) then Some "idx_key_descriptors_kek_unique"
  else if existsb (same_name_version r) db.(kdb_rows)
  then Some "uq_key_descriptors_tenant_name_version"
  else if negb (match r.(kr_tenant_id) with
                | Some t => bool_decide (t ∈ db.(kdb_tenants)) | None => true end)
  then Some "key_descriptors_tenant_id_fkey"
  else if negb (match r.(kr_parent_key_id) with
                | Some k => bool_decide (k ∈ kr_id <$> db.(kdb_rows)) | None => true end)
  then Some "key_descriptors_parent_key_id_fkey"
  else None.

Definition row_of_desc (now : Z) (desc : KeyDescriptor) (wrapped_key : string)
    (parent_key_id key_name : option string) : KeyRow :=
  {| kr_id := desc.(kd_id); kr_version := as_i32 desc.(kd_version);
     kr_algorithm := algorithm_str desc.(kd_algorithm); kr_purpose := purpose_str desc.(kd_purpose);
     kr_state := state_str desc.(kd_state);
     kr_tenant_id := desc.(kd_tenant_id) ≫= (fun s => result_ok (uuid_parse s));
     kr_wrapped_key := wrapped_key; kr_parent_key_id := parent_key_id; kr_created_at := now;
     kr_rotated_at := None; kr_expires_at := desc.(kd_expires_at); kr_key_name := key_name |}.

Definition insert_named_key_descriptor (io : option string) (now : Z) (db : KeyDb)
    (desc : KeyDescriptor) (wrapped_key : string) (parent_key_id key_name : option string) :
    vresult KeyDb :=
  let row := row_of_desc now desc wrapped_key parent_key_id key_name in
  sql io (match violated db row with
          | Some c => Err (Database (violation c))
          | None => Ok (with_rows db (db.(kdb_rows) ++ [row]))
          end).

Definition insert_key_descriptor (io : option string) (now : Z) (db : KeyDb) (desc : KeyDescriptor)
    (wrapped_key : string) (parent_key_id : option string) : vresult KeyDb :=
  insert_named_key_descriptor io now db desc wrapped_key parent_key_id None.

Definition emit_dek_upsert_event (io : option string) (db : KeyDb)
    (source_region tenant_id key_id : string) (version : Z) (dek_wrapped_root : string) :
    vresult KeyDb :=
  sql io (Ok (with_event db {| du_region := source_region; du_tenant_id := tenant_id;
                               du_key_id := key_id; du_version := version;
                               du_wrapped_root := dek_wrapped_root |})).

Record PersistedKeyEntry := {
  pk_key_id : string;
  pk_tenant_id : option string;
  pk_version : Z;
  pk_wrapped_key : string;
  pk_key_name : option string;
}.

Definition entry_of_row (r : KeyRow) : PersistedKeyEntry :=
  {| pk_key_id := r.(kr_id); pk_tenant_id := r.(kr_tenant_id); pk_version := as_u32 r.(kr_version);
     pk_wrapped_key := r.(kr_wrapped_key); pk_key_name := r.(kr_key_name) |}.

Definition loadable (r : KeyRow) : bool :=
  bool_decide (r.(kr_state) = "active" \/ r.(kr_state) = "rotating_out").

Definition get_key_with_wrapped_key (io : option string) (db : KeyDb) (key_id : string) :
    vresult (option PersistedKeyEntry) :=
  sql io (Ok (entry_of_row <$>
    head (order_by version_desc (filter (fun r => r.(kr_id) = key_id /\ loadable r) db.(kdb_rows))))).

Definition get_key_versions_with_wrapped_key (io : option string) (db : KeyDb) (key_id : string) :
    vresult (list PersistedKeyEntry) :=
  sql io (Ok (entry_of_row <$>
    order_by version_asc (filter (fun r => r.(kr_id) = key_id /\ loadable r) db.(kdb_rows)))).

Definition list_recent_loadable_keys (io : option string) (db : KeyDb) (p : KeyPurpose) (n : Z) :
    vresult (list PersistedKeyEntry) :=
  sql io (Ok (entry_of_row <$>
    order_by version_asc (limit n (order_by created_desc
      (filter (fun r => r.(kr_purpose) = purpose_str p /\ loadable r) db.(kdb_rows)))))).

Definition I64_MAX : Z := 9223372036854775807.

Definition list_loadable_keys_with_wrapped_key (io : option string) (db : KeyDb) (p : KeyPurpose) :
    vresult (list PersistedKeyEntry) :=
  list_recent_loadable_keys io db p I64_MAX.

Definition list_active_keys_with_wrapped_key (io : option string) (db : KeyDb) (p : KeyPurpose) :
    vresult (list PersistedKeyEntry) :=
  list_loadable_keys_with_wrapped_key io db p.

Definition set_state (now : Z) (key_id : string) (st : KeyState) (r : KeyRow) : KeyRow :=
  if bool_decide (r.(kr_id) = key_id)
  then {| kr_id := r.(kr_id); kr_version := r.(kr_version); kr_algorithm := r.(kr_algorithm);
          kr_purpose := r.(kr_purpose); kr_state := state_str st; kr_tenant_id := r.(kr_tenant_id);
          kr_wrapped_key := r.(kr_wrapped_key); kr_parent_key_id := r.(kr_parent_key_id);
          kr_created_at := r.(kr_created_at); kr_rotated_at := Some now;
          kr_expires_at := r.(kr_expires_at); kr_key_name := r.(kr_key_name) |}
  else r.

Definition update_key_state (io : option string) (now : Z) (db : KeyDb) (key_id : string)
    (st : KeyState) : vresult KeyDb :=
  sql io (Ok (with_rows db (set_state now key_id st <$> db.(kdb_rows)))).

(** [seal_store.rs]. [SMALLINT] holds every [u8]. *)
Definition load_seal (io : option string) (db : KeyDb) : vresult (option SealMaterial) :=
  match io with
  | Some e => Err (Database ("could not read the seal configuration: " +:+ e))
  | None => Ok db.(kdb_seal)
  end.

Definition save_initial (io : option string) (db : KeyDb) (m : SealMaterial) : vresult KeyDb :=
  match io with
  | Some e => Err (Database ("could not persist the seal configuration: " +:+ e))
  | None =>
      match db.(kdb_seal) with
      | Some _ => Err (ValidationError "seal"
                         "vault is already initialized; refusing to replace the root key")
      | None => Ok (with_seal_config db m)
      end
  end.

(** ** Facts about the statements *)

Lemma elem_of_insert_by {A} le (x y : A) l : x ∈ insert_by le y l <-> x = y \/ x ∈ l.
Proof.
  induction l as [|z l IH]; cbn; [set_solver|]. destruct (le y z); [set_solver|].
  rewrite elem_of_cons, IH, elem_of_cons. tauto.
Qed.

Lemma insert_by_perm {A} le (x : A) l : insert_by le x l ≡ₚ x :: l.
Proof.
  induction l as [|z l IH]; cbn; [done|]. destruct (le x z); [done|]. rewrite IH. constructor.
Qed.

Lemma order_by_perm {A} le (l : list A) : order_by le l ≡ₚ l.
Proof. induction l as [|x l IH]; cbn; [done|]. by rewrite insert_by_perm, IH. Qed.

Lemma limit_all {A} n (l : list A) : len l <= n -> limit n l = l.
Proof.
  revert n. induction l as [|x l IH]; intros n Hn; cbn; [done|].
  unfold len in *. cbn [length] in Hn. rewrite (proj2 (Z.leb_gt _ _)) by lia.
  by rewrite IH by lia.
Qed.

Lemma limit_sublist {A} n (l : list A) : limit n l `sublist_of` l.
Proof.
  revert n. induction l as [|x l IH]; intros n; cbn; [done|].
  destruct (n <=? 0); [apply sublist_nil_l|by constructor].
Qed.

Definition ids_unique (db : KeyDb) : Prop := NoDup (kr_id <$> db.(kdb_rows)).

Lemma insert_named_ok io now db desc w p n db' :
  insert_named_key_descriptor io now db desc w p n = Ok db' ->
  io = None /\ violated db (row_of_desc now desc w p n) = None
  /\ db' = with_rows db (db.(kdb_rows) ++ [row_of_desc now desc w p n]).
Proof.
  unfold insert_named_key_descriptor, sql. destruct io; [done|].
  destruct (violated _ _); [done|]. by intros [= <-].
Qed.

Lemma violated_none_id db r : violated db r = None -> r.(kr_id) ∉ kr_id <$> db.(kdb_rows).
Proof. unfold violated. case_bool_decide; done. Qed.

(** A row without a name and a parent that violates nothing. *)
Lemma violated_none db r :
  r.(kr_id) ∉ kr_id <$> db.(kdb_rows) ->
  (forall r', r' ∈ db.(kdb_rows) -> same_kek_version r r' = false) ->
  r.(kr_key_name) = None -> (forall t, r.(kr_tenant_id) = Some t -> t ∈ db.(kdb_tenants)) ->
  r.(kr_parent_key_id) = None -> violated db r = None.
Proof.
  intros Hid Hkek Hname Ht Hp. unfold violated. rewrite bool_decide_eq_false_2 by done.
  assert (Hk : existsb (same_kek_version r) db.(kdb_rows) = false).
  { apply not_true_iff_false. intros (r' & Hr' & Hs)%existsb_exists.
    apply list_elem_of_In, Hkek in Hr'. congruence. }
  assert (Hn : existsb (same_name_version r) db.(kdb_rows) = false).
  { apply not_true_iff_false. intros (r' & _ & Hs)%existsb_exists.
    unfold same_name_version in Hs. by rewrite Hname in Hs. }
  rewrite Hk, Hn, Hp. destruct (kr_tenant_id r) as [t|]; [|done].
  by rewrite bool_decide_eq_true_2 by auto.
Qed.

(** The primary key: no statement makes two rows share an id. *)
Lemma insert_ids_unique io now db desc w p n db' :
  ids_unique db -> insert_named_key_descriptor io now db desc w p n = Ok db' -> ids_unique db'.
Proof.
  intros Hu (-> & Hv & ->)%insert_named_ok. unfold ids_unique in *. cbn.
  rewrite fmap_app. apply NoDup_app. split; [done|]. split; [|apply NoDup_singleton].
  intros x Hx Hx'. cbn in Hx'. apply list_elem_of_singleton in Hx'. subst x.
  by apply violated_none_id in Hv.
Qed.

Lemma set_state_id now k st r : (set_state now k st r).(kr_id) = r.(kr_id).
Proof. unfold set_state. by case_bool_decide. Qed.

Lemma update_ids_unique io now db k st db' :
  ids_unique db -> update_key_state io now db k st = Ok db' -> ids_unique db'.
Proof.
  unfold update_key_state, sql, ids_unique. destruct io; [done|]. intros Hu [= <-]. cbn.
  rewrite <- list_fmap_compose. erewrite list_fmap_ext; [exact Hu|].
  intros i r _. cbn. apply set_state_id.
Qed.

End Statements.
