(* ===== verification/KekStore.v ===== *)
(** * The crypto service: the key hierarchy

    [services/crypto-service/src]: [kek_store.rs] (the cache of tenant KEKs and
    data keys over [system.key_descriptors]), [grpc.rs] (the RPCs), [sys.rs] (the
    seal API), [root_key.rs] (where the root key comes from) and the start-up of
    [main.rs].

    The state [World] is one process's [KekStore], the database it shares with
    the other processes, and a counter: the [n]-th outside event of a run (a key,
    a nonce, an id, a driver call) gets its answer from [Outside] at [n]. A method
    runs without interference from other requests except where the code releases
    a lock on purpose ([current_dek_for_encrypt]), which [Module Budget] takes
    apart. *)

From Stdlib Require Import Lia Ascii.
From stdpp Require Import pretty.
From S2P Require Import Prelude Errors Effects Envelope Seal KeyStore.

Record TenantKekEntry := { raw_kek : string; wrapped_kek_b64 : string; kek_version : Z }.

Definition DEK_MAX_OPERATIONS : Z := 100000.
Definition WARM_LOAD_DEK_LIMIT : Z := 10000.

Record CurrentDek := { cd_key_id : string; operations : Z }.

Record DekEntry := {
  raw_dek : string;
  superseded : list string;
  wrapped_dek_b64 : string;
  de_tenant_id : string;
  de_version : Z;
  de_key_id : string;
}.

Record KekStore := {
  ks_seal : Seal;
  tenant_keks : gmap string TenantKekEntry;
  deks : gmap string DekEntry;
  current_dek : gmap string CurrentDek;
  db_pool : bool;
}.

Definition with_seal_ephemeral (s : Seal) : KekStore :=
  {| ks_seal := s; tenant_keks := ∅; deks := ∅; current_dek := ∅; db_pool := false |}.

Definition with_seal (s : Seal) : KekStore :=
  {| ks_seal := s; tenant_keks := ∅; deks := ∅; current_dek := ∅; db_pool := true |}.

Definition set_keks (st : KekStore) (m : gmap string TenantKekEntry) : KekStore :=
  {| ks_seal := st.(ks_seal); tenant_keks := m; deks := st.(deks);
     current_dek := st.(current_dek); db_pool := st.(db_pool) |}.

Definition set_deks (st : KekStore) (m : gmap string DekEntry) : KekStore :=
  {| ks_seal := st.(ks_seal); tenant_keks := st.(tenant_keks); deks := m;
     current_dek := st.(current_dek); db_pool := st.(db_pool) |}.

Definition set_current (st : KekStore) (m : gmap string CurrentDek) : KekStore :=
  {| ks_seal := st.(ks_seal); tenant_keks := st.(tenant_keks); deks := st.(deks);
     current_dek := m; db_pool := st.(db_pool) |}.

Definition set_seal (st : KekStore) (s : Seal) : KekStore :=
  {| ks_seal := s; tenant_keks := st.(tenant_keks); deks := st.(deks);
     current_dek := st.(current_dek); db_pool := st.(db_pool) |}.

Record World := { w_store : KekStore; w_db : KeyDb; w_tick : nat }.

Definition put_store (w : World) (st : KekStore) : World :=
  {| w_store := st; w_db := w.(w_db); w_tick := w.(w_tick) |}.

(** What the outside answers to the [n]-th event. *)
Record Outside := {
  key_rng : nat -> result string string;
  nonce_rng : nat -> option string;
  now_v7 : nat -> string;
  io : nat -> option string;
  clock : nat -> Z;
  region_id : option string;
}.

Abbreviation M := (eff World VaultError).

Section Store.
Context `{Primitives, SqlText, Uuids} (out : Outside).

Definition tick : M nat := fun w =>
  (Ok w.(w_tick), {| w_store := w.(w_store); w_db := w.(w_db); w_tick := S w.(w_tick) |}).

Definition store : M KekStore := gets w_store.
Definition on_store (f : KekStore -> KekStore) : M () := modify (fun w => put_store w (f w.(w_store))).

Definition query {A} (f : option string -> KeyDb -> vresult A) : M A :=
  n ← tick; db ← gets w_db; lift (f (out.(io) n) db).

Definition exec (f : option string -> Z -> KeyDb -> vresult KeyDb) : M () :=
  n ← tick; db ← gets w_db; db' ← lift (f (out.(io) n) (out.(clock) n) db);
  modify (fun w => {| w_store := w.(w_store); w_db := db'; w_tick := w.(w_tick) |}).

Definition generate_random_32_bytes : M string :=
  n ← tick;
  match out.(key_rng) n with
  | Ok k => mret k
  | Err e => throw (EncryptionFailed ("CSPRNG key generation failed: " +:+ e))
  end.

Definition encrypt_under (dek plaintext aad : string) : M EncryptedEnvelope :=
  n ← tick; lift (encrypt_with_dek (out.(nonce_rng) n) dek plaintext aad).

Definition kek_aad (tenant_id : string) : string := "tenant-kek:" +:+ tenant_id.
Definition reload_aad (key_id : string) : string := "dek:reload:" +:+ key_id.
Definition transport_aad (key_id : string) : string := "dek:transport:" +:+ key_id.

Definition transport_wrap_dek (raw_dek key_id : string) : M string :=
  st ← store;
  root ← lift (root_key st.(ks_seal));
  envelope ← encrypt_under root raw_dek (transport_aad key_id);
  mret envelope.(ciphertext_b64).

Definition transport_unwrap_dek (s : Seal) (wrapped_b64 key_id : string) : vresult string :=
  root ← root_key s;
  decrypt_with_dek root wrapped_b64 (transport_aad key_id).

(** ** Warm load *)

(** One turn of the loop over the tenant KEK rows. *)
Definition load_kek_row (root : string) (keks : gmap string TenantKekEntry)
    (row : PersistedKeyEntry) : gmap string TenantKekEntry :=
  match row.(pk_tenant_id) with
  | None => keks
  | Some tenant_id =>
      match decrypt_with_dek root row.(pk_wrapped_key) (kek_aad tenant_id) with
      | Err _ => keks
      | Ok plaintext =>
          if negb (String.length plaintext =? 32)%nat then keks
          else <[ tenant_id := {| raw_kek := plaintext; wrapped_kek_b64 := row.(pk_wrapped_key);
                                  kek_version := row.(pk_version) |} ]> keks
      end
  end.

(** A data key under the tenant KEK, or under the root key when a peer region
    wrapped it. *)
Definition unwrap_dek_row (s : Seal) (kek : string) (row : PersistedKeyEntry) : option string :=
  let plaintext :=
    match decrypt_with_dek kek row.(pk_wrapped_key) (reload_aad row.(pk_key_id)) with
    | Ok p => Some p
    | Err _ => result_ok (transport_unwrap_dek s row.(pk_wrapped_key) row.(pk_key_id))
    end in
  match plaintext with
  | Some p => if (String.length p =? 32)%nat then Some p else None
  | None => None
  end.

(** [existing] makes room for a newer version of its key. *)
Definition demote (existing : DekEntry) (raw wrapped : string) (version : Z) : DekEntry :=
  {| raw_dek := raw; superseded := existing.(superseded) ++ [existing.(raw_dek)];
     wrapped_dek_b64 := wrapped; de_tenant_id := existing.(de_tenant_id); de_version := version;
     de_key_id := existing.(de_key_id) |}.

(** One turn of the loop over the data key rows. *)
Definition load_dek_row (s : Seal) (keks : gmap string TenantKekEntry) (m : gmap string DekEntry)
    (row : PersistedKeyEntry) : gmap string DekEntry :=
  match row.(pk_tenant_id) with
  | None => m
  | Some tenant_id =>
      match keks !! tenant_id with
      | None => m
      | Some kek =>
          match unwrap_dek_row s kek.(raw_kek) row with
          | None => m
          | Some raw =>
              match m !! row.(pk_key_id) with
              | Some existing =>
                  <[ row.(pk_key_id) := demote existing raw row.(pk_wrapped_key) row.(pk_version) ]> m
              | None =>
                  <[ row.(pk_key_id) :=
                       {| raw_dek := raw; superseded := []; wrapped_dek_b64 := row.(pk_wrapped_key);
                          de_tenant_id := tenant_id; de_version := row.(pk_version);
                          de_key_id := row.(pk_key_id) |} ]> m
              end
          end
      end
  end.

Definition load_from_db : M () :=
  st ← store;
  if negb st.(db_pool) then mret tt
  else
    root ← lift (root_key st.(ks_seal));
    kek_rows ← query (fun e db => list_active_keys_with_wrapped_key e db TenantKek);
    _ ← on_store (fun st => set_keks st (foldl (load_kek_row root) st.(tenant_keks) kek_rows));
    dek_rows ← query (fun e db => list_recent_loadable_keys e db DataEncryption WARM_LOAD_DEK_LIMIT);
    on_store (fun st =>
      set_deks st (foldl (load_dek_row st.(ks_seal) st.(tenant_keks)) st.(deks) dek_rows)).

(** ** Tenant KEKs *)

Definition descriptor (id : string) (version : Z) (p : KeyPurpose) (tenant_id : string) (now : Z) :
    KeyDescriptor :=
  {| kd_id := id; kd_version := version; kd_algorithm := Aes256Gcm; kd_purpose := p;
     kd_state := Active; kd_tenant_id := Some tenant_id; kd_created_at := now;
     kd_rotated_at := None; kd_expires_at := None |}.

Definition internal (prefix : string) (debug_str : string -> string) (e : VaultError) : VaultError :=
  Internal (prefix +:+ display debug_str e).

Context (debug_str : string -> string).

Definition require_uuid (what s : string) : M string :=
  match uuid_parse s with
  | Ok u => mret u
  | Err e => throw (Internal (what +:+ e))
  end.

Definition persist_new_key (what : string) (id : string) (version : Z) (p : KeyPurpose)
    (tenant_id wrapped : string) : M () :=
  map_err (internal what debug_str)
    (exec (fun e now db =>
       insert_key_descriptor e now db (descriptor id version p tenant_id now) wrapped None)).

Definition get_or_create_tenant_kek (tenant_id : string) : M string :=
  st ← store;
  match st.(tenant_keks) !! tenant_id with
  | Some entry => mret entry.(raw_kek)
  | None =>
      raw ← generate_random_32_bytes;
      root ← lift (root_key st.(ks_seal));
      envelope ← encrypt_under root raw (kek_aad tenant_id);
      _ ← on_store (fun st => set_keks st
            (<[ tenant_id := {| raw_kek := raw; wrapped_kek_b64 := envelope.(ciphertext_b64);
                                kek_version := 1 |} ]> st.(tenant_keks)));
      _ ← when st.(db_pool)
            (_ ← require_uuid "tenant_id is not a valid UUID: " tenant_id;
             n ← tick;
             persist_new_key "Failed to persist tenant KEK to DB: " (out.(now_v7) n) 1 TenantKek
               tenant_id envelope.(ciphertext_b64));
      mret raw
  end.

(** ** Data keys *)

(** The best-effort publication of a new data key to the peer regions. *)
Definition publish_dek (tenant_id key_id raw : string) : M () :=
  wrapped ← attempt (transport_wrap_dek raw key_id);
  match wrapped with
  | Err _ => mret tt
  | Ok dek_wrapped_root =>
      let region := default "default" out.(region_id) in
      _ ← attempt (exec (fun e _ db =>
             emit_dek_upsert_event e db region tenant_id key_id 1 dek_wrapped_root));
      mret tt
  end.

Definition generate_and_store_dek (tenant_id : string) : M string :=
  tenant_kek ← get_or_create_tenant_kek tenant_id;
  raw ← generate_random_32_bytes;
  n ← tick;
  let key_id := out.(now_v7) n in
  envelope ← encrypt_under tenant_kek raw (reload_aad key_id);
  _ ← on_store (fun st => set_deks st
        (<[ key_id := {| raw_dek := raw; superseded := [];
                         wrapped_dek_b64 := envelope.(ciphertext_b64); de_tenant_id := tenant_id;
                         de_version := 1; de_key_id := key_id |} ]> st.(deks)));
  st ← store;
  _ ← when st.(db_pool)
        (_ ← require_uuid "tenant_id is not a valid UUID: " tenant_id;
         dek_uuid ← require_uuid "Generated key_id is not a valid UUID: " key_id;
         _ ← persist_new_key "Failed to persist DEK to DB: " dek_uuid 1 DataEncryption tenant_id
               envelope.(ciphertext_b64);
         publish_dek tenant_id key_id raw);
  mret key_id.

(** The first lock of [current_dek_for_encrypt]: one more operation of a key
    with budget left. *)
Definition take_current (tenant_id : string) : M (option string) := fun w =>
  match w.(w_store).(current_dek) !! tenant_id with
  | Some entry =>
      if entry.(operations) <? DEK_MAX_OPERATIONS
      then (Ok (Some entry.(cd_key_id)),
            put_store w (set_current w.(w_store)
              (<[ tenant_id := {| cd_key_id := entry.(cd_key_id);
                                  operations := entry.(operations) + 1 |} ]>
                 w.(w_store).(current_dek))))
      else (Ok None, w)
  | None => (Ok None, w)
  end.

(** The second: someone else's fresh key, or the one just minted. *)
Definition adopt_current (tenant_id key_id : string) : M string :=
  hit ← take_current tenant_id;
  match hit with
  | Some k => mret k
  | None =>
      _ ← on_store (fun st => set_current st
            (<[ tenant_id := {| cd_key_id := key_id; operations := 1 |} ]> st.(current_dek)));
      mret key_id
  end.

Definition current_dek_for_encrypt (tenant_id : string) : M string :=
  hit ← take_current tenant_id;
  match hit with
  | Some k => mret k
  | None =>
      key_id ← generate_and_store_dek tenant_id;
      adopt_current tenant_id key_id
  end.

(** ** Lookup *)

Definition hydrate_version (s : Seal) (kek : string) (row : PersistedKeyEntry) :
    option (Z * string * string) :=
  raw ← unwrap_dek_row s kek row;
  Some (row.(pk_version), raw, row.(pk_wrapped_key)).

Definition hydrate_dek (key_id : string) : M bool :=
  st ← store;
  if negb st.(db_pool) then mret false
  else match uuid_parse key_id with
  | Err _ => mret false
  | Ok uuid =>
      rows ← query (fun e db => get_key_versions_with_wrapped_key e db uuid);
      match head rows ≫= pk_tenant_id with
      | None => mret false
      | Some tenant_id =>
          tenant_kek ← get_or_create_tenant_kek tenant_id;
          st ← store;
          let versions := omap (hydrate_version st.(ks_seal) tenant_kek) rows in
          match last versions with
          | None => mret false
          | Some (version, raw, wrapped) =>
              _ ← on_store (fun st => set_deks st
                    (<[ key_id := {| raw_dek := raw;
                                     superseded := (fun v => v.1.2) <$> removelast versions;
                                     wrapped_dek_b64 := wrapped; de_tenant_id := tenant_id;
                                     de_version := version; de_key_id := key_id |} ]> st.(deks)));
              mret true
          end
      end
  end.

Definition find_dek (key_id : string) : M DekEntry :=
  st ← store;
  _ ← (if bool_decide (is_Some (st.(deks) !! key_id)) then mret true else hydrate_dek key_id);
  st ← store;
  lift (ok_or (st.(deks) !! key_id) (KeyNotFound key_id)).

Definition get_dek (key_id tenant_id : string) : M string :=
  entry ← find_dek key_id;
  if bool_decide (entry.(de_tenant_id) <> tenant_id) then throw (KeyNotFound key_id)
  else mret entry.(raw_dek).

Definition chain_of (entry : DekEntry) : list string :=
  entry.(raw_dek) :: reverse entry.(superseded).

Definition get_dek_chain (key_id tenant_id : string) : M (list string) :=
  entry ← find_dek key_id;
  if bool_decide (entry.(de_tenant_id) <> tenant_id) then throw (KeyNotFound key_id)
  else mret (chain_of entry).

Definition get_dek_metadata (key_id tenant_id : string) : M (string * Z) :=
  st ← store;
  entry ← lift (ok_or (st.(deks) !! key_id) (KeyNotFound key_id));
  if bool_decide (entry.(de_tenant_id) <> tenant_id) then throw (KeyNotFound key_id)
  else mret (entry.(wrapped_dek_b64), entry.(de_version)).

Definition get_dek_version_unscoped (key_id : string) : M Z :=
  st ← store;
  entry ← lift (ok_or (st.(deks) !! key_id) (KeyNotFound key_id));
  mret entry.(de_version).

(** ** Rotation *)

Definition rotate_dek (tenant_id key_id : string) : M Z :=
  st ← store;
  entry ← lift (ok_or (st.(deks) !! key_id) (KeyNotFound key_id));
  if bool_decide (entry.(de_tenant_id) <> tenant_id)
  then throw (PermissionDenied ("key:" +:+ key_id) "key does not belong to the requesting tenant")
  else
    tenant_kek ← get_or_create_tenant_kek tenant_id;
    raw ← generate_random_32_bytes;
    envelope ← encrypt_under tenant_kek raw (reload_aad key_id);
    st ← store;
    entry ← lift (ok_or (st.(deks) !! key_id) (KeyNotFound key_id));
    let new_version := as_u32 (entry.(de_version) + 1) in
    _ ← on_store (fun st => set_deks st
          (<[ key_id := demote entry raw envelope.(ciphertext_b64) new_version ]> st.(deks)));
    _ ← when st.(db_pool)
          (key_uuid ← require_uuid "key_id is not a valid UUID: " key_id;
           _ ← require_uuid "tenant_id is not a valid UUID: " tenant_id;
           _ ← map_err (internal "Failed to update old DEK state in DB: " debug_str)
                 (exec (fun e now db => update_key_state e now db key_uuid RotatingOut));
           persist_new_key "Failed to persist rotated DEK to DB: " key_uuid new_version
             DataEncryption tenant_id envelope.(ciphertext_b64));
    mret new_version.

Definition unwrap_tenant_kek (tenant_id wrapped : string) : M string :=
  st ← store;
  root ← lift (root_key st.(ks_seal));
  plaintext ← lift (decrypt_with_dek root wrapped (kek_aad tenant_id));
  if negb (String.length plaintext =? 32)%nat
  then throw (Internal ("Unwrapped tenant KEK has unexpected length "
                        +:+ pretty (N.of_nat (String.length plaintext))))
  else mret plaintext.

End Store.

(** ** The RPCs *)

Inductive Status :=
| NotFound (m : string)
| PermissionDeniedStatus (m : string)
| InvalidArgument (m : string)
| InternalStatus (m : string).

Definition vault_error_to_status (err : VaultError) : Status :=
  match err with
  | KeyNotFound key_id => NotFound ("key not found: " +:+ key_id)
  | TenantNotFound tenant_id => NotFound ("tenant not found: " +:+ tenant_id)
  | PermissionDenied resource reason =>
      PermissionDeniedStatus ("permission denied on " +:+ resource +:+ ": " +:+ reason)
  | ValidationError field reason =>
      InvalidArgument ("validation error on " +:+ field +:+ ": " +:+ reason)
  | EncryptionFailed _ => InternalStatus "encryption operation failed"
  | DecryptionFailed => InternalStatus "decryption operation failed"
  | Internal _ => InternalStatus "internal service error"
  | _ => InternalStatus "internal service error"
  end.

Abbreviation Rpc := (eff World Status).

Definition rpc {A} (m : M A) : Rpc A := fun w =>
  match m w with
  | (Ok a, w') => (Ok a, w')
  | (Err e, w') => (Err (vault_error_to_status e), w')
  end.

Definition require_non_empty (value field : string) : Rpc string :=
  if Str.is_empty (Str.trim value)
  then throw (InvalidArgument ("field '" +:+ field +:+ "' must not be empty"))
  else mret value.

Record EncryptResponse := { er_ciphertext_b64 : string; er_dek_id : string }.
Record GenerateDekResponse := {
  gd_key_id : string; gd_version : Z; gd_algorithm : string; gd_wrapped_dek : string }.
Record RotateKeyResponse := { rk_key_id : string; rk_new_version : Z }.
Record GetKeyDescriptorResponse := {
  gk_key_id : string; gk_version : Z; gk_algorithm : string; gk_purpose : string;
  gk_state : string }.

Section Grpc.
Context `{Primitives, SqlText, Uuids} (out : Outside) (debug_str : string -> string).

Definition encrypt (tenant plaintext aad : string) : Rpc EncryptResponse :=
  tenant_id ← require_non_empty tenant "tenant_id";
  if Str.is_empty plaintext then throw (InvalidArgument "plaintext must not be empty")
  else
    key_id ← rpc (current_dek_for_encrypt out debug_str tenant_id);
    dek ← rpc (get_dek out debug_str key_id tenant_id);
    envelope ← rpc (encrypt_under out dek plaintext aad);
    mret {| er_ciphertext_b64 := envelope.(ciphertext_b64); er_dek_id := key_id |}.

(** The first key of the chain that opens the ciphertext. *)
Fixpoint try_chain (chain : list string) (ct_b64 aad : string) : option string :=
  match chain with
  | [] => None
  | dek :: rest =>
      match decrypt_with_dek dek ct_b64 aad with
      | Ok pt => Some pt
      | Err _ => try_chain rest ct_b64 aad
      end
  end.

Definition decrypt (tenant combined aad : string) : Rpc string :=
  tenant_id ← require_non_empty tenant "tenant_id";
  match Str.split_once ":" combined with
  | None => throw (InvalidArgument
              "ciphertext_b64 must be in the format '<dek_id>:<base64_ciphertext>'")
  | Some (dek_id, ct_b64) =>
      _ ← require_non_empty dek_id "dek_id (embedded in ciphertext_b64)";
      _ ← require_non_empty ct_b64 "base64 ciphertext (embedded in ciphertext_b64)";
      chain ← rpc (get_dek_chain out debug_str dek_id tenant_id);
      lift (ok_or (try_chain chain ct_b64 aad) (vault_error_to_status DecryptionFailed))
  end.

Definition generate_dek (tenant context : string) : Rpc GenerateDekResponse :=
  tenant_id ← require_non_empty tenant "tenant_id";
  _ ← require_non_empty context "context";
  key_id ← rpc (generate_and_store_dek out debug_str tenant_id);
  '(wrapped, version) ← rpc (get_dek_metadata key_id tenant_id);
  mret {| gd_key_id := key_id; gd_version := version; gd_algorithm := "AES-256-GCM";
          gd_wrapped_dek := wrapped |}.

Definition rotate_key (tenant key : string) : Rpc RotateKeyResponse :=
  tenant_id ← require_non_empty tenant "tenant_id";
  key_id ← require_non_empty key "key_id";
  v ← rpc (rotate_dek out debug_str tenant_id key_id);
  mret {| rk_key_id := key_id; rk_new_version := v |}.

Definition get_key_descriptor_rpc (key : string) : Rpc GetKeyDescriptorResponse :=
  key_id ← require_non_empty key "key_id";
  version ← rpc (get_dek_version_unscoped key_id);
  mret {| gk_key_id := key_id; gk_version := version; gk_algorithm := "AES-256-GCM";
          gk_purpose := "DataEncryption"; gk_state := "Active" |}.

End Grpc.

(** ** Where the root key comes from *)

Inductive RootKeyError :=
| EnvVarMissing
| InvalidBase64 (e : string)
| InvalidLength (n : Z)
| KmsDecryptFailed (e : string)
| KmsNoPlaintext
| KmsNoCiphertext
| AwsKmsFeatureNotEnabled
| UnknownProvider (name : string).

Inductive Provider := EnvRootKeyProvider | AwsKmsRootKeyProvider (key_id : string).

Section RootKey.
Context `{Primitives} (env_var : string -> option string) (to_lowercase : string -> string).

Definition load_key_from_env_var (var_name : string) : result RootKeyError string :=
  encoded ← ok_or (env_var var_name) EnvVarMissing;
  match b64_decode (Str.trim encoded) with
  | Err e => Err (InvalidBase64 e)
  | Ok raw =>
      if negb (String.length raw =? 32)%nat then Err (InvalidLength (Z.of_nat (String.length raw)))
      else Ok raw
  end.

(** [aws_kms]: is the feature compiled in? *)
Definition select_provider (aws_kms : bool) : result RootKeyError Provider :=
  let name := to_lowercase (Str.trim (default "env" (env_var "VAULT_ROOT_KEY_PROVIDER"))) in
  if bool_decide (name = "env") then Ok EnvRootKeyProvider
  else if bool_decide (name = "aws-kms") then
    if aws_kms
    then AwsKmsRootKeyProvider <$> ok_or (env_var "VAULT_KMS_KEY_ID")
           (KmsDecryptFailed
              "VAULT_KMS_KEY_ID environment variable is required for the aws-kms provider")
    else Err AwsKmsFeatureNotEnabled
  else Err (UnknownProvider name).

(** [load_root_kek_from_env]: the older loader of [kek_store.rs]. *)
Definition load_root_kek_from_env : vresult string :=
  encoded ← ok_or (env_var "VAULT_ROOT_KEY")
              (Internal "VAULT_ROOT_KEY environment variable is not set");
  match b64_decode (Str.trim encoded) with
  | Err e => Err (Internal ("VAULT_ROOT_KEY is not valid base64: " +:+ e))
  | Ok raw =>
      if negb (String.length raw =? 32)%nat
      then Err (Internal ("VAULT_ROOT_KEY must decode to exactly 32 bytes, got "
                          +:+ pretty (N.of_nat (String.length raw))))
      else Ok raw
  end.

Definition from_env : vresult KekStore :=
  root ← load_root_kek_from_env;
  Ok (with_seal_ephemeral (unseal_with_root_key new root)).

Definition with_db (root_kek_b64 : string) : vresult KekStore :=
  match b64_decode (Str.trim root_kek_b64) with
  | Err e => Err (Internal ("VAULT_ROOT_KEY is not valid base64: " +:+ e))
  | Ok raw =>
      if negb (String.length raw =? 32)%nat
      then Err (Internal ("VAULT_ROOT_KEY must decode to exactly 32 bytes, got "
                          +:+ pretty (N.of_nat (String.length raw))))
      else Ok (with_seal (unseal_with_root_key new raw))
  end.

End RootKey.

(** ** The seal API and start-up *)

Record SysResponse := {
  sr_status : Z;
  sr_error : option string;
  sr_seal : option SealStatus;
  sr_keys : option InitResult;
  sr_warning : option string;
}.

Definition sys_err (status : Z) (message : string) : SysResponse :=
  {| sr_status := status; sr_error := Some message; sr_seal := None; sr_keys := None;
     sr_warning := None |}.

Definition sys_ok (s : SealStatus) (warning : option string) : SysResponse :=
  {| sr_status := 200; sr_error := None; sr_seal := Some s; sr_keys := None; sr_warning := warning |}.

Definition INIT_WARNING : string :=
  "These shares are shown once and cannot be recovered. Distribute them to separate holders and store them apart from this vault and from each other. Losing more than (shares - threshold) of them makes every secret in this vault permanently unreadable.".

Section Sys.
Context `{Primitives, Sharing, SqlText, Uuids} (out : Outside) (debug_str : string -> string).

Definition sys_seal_status (w : World) : SysResponse :=
  sys_ok (status w.(w_store).(ks_seal)) None.

(** [body]: the request's shares and threshold, absent when there is no body. *)
Definition sys_init (rng : InitRandom) (body : option (Z * Z)) (w : World) : SysResponse * World :=
  let '(nshares, thr) := default (5, 3) body in
  if negb w.(w_store).(db_pool) then
    (sys_err 412 "cannot initialize without DATABASE_URL: the sealed root key has nowhere to live", w)
  else
    match init rng w.(w_store).(ks_seal) nshares thr with
    | (Err e, s) => (sys_err 400 (display debug_str e), put_store w (set_seal w.(w_store) s))
    | (Ok (res, m), s) =>
        let n := w.(w_tick) in
        match save_initial (out.(io) n) w.(w_db) m with
        | Err e =>
            (sys_err 500 ("seal configuration could not be stored, vault is NOT initialized: "
                          +:+ display debug_str e),
             {| w_store := set_seal w.(w_store) (seal s); w_db := w.(w_db); w_tick := S n |})
        | Ok db' =>
            ({| sr_status := 200; sr_error := None; sr_seal := None; sr_keys := Some res;
                sr_warning := Some INIT_WARNING |},
             {| w_store := set_seal w.(w_store) s; w_db := db'; w_tick := S n |})
        end
    end.

Definition sys_unseal (key : string) (w : World) : SysResponse * World :=
  let was_sealed := negb (is_unsealed w.(w_store).(ks_seal)) in
  match unseal w.(w_store).(ks_seal) key with
  | (Err e, s) => (sys_err 400 (display debug_str e), put_store w (set_seal w.(w_store) s))
  | (Ok st, s) =>
      let w1 := put_store w (set_seal w.(w_store) s) in
      if was_sealed && negb st.(sealed)
      then match load_from_db out w1 with
           | (Ok _, w2) => (sys_ok st None, w2)
           | (Err e, w2) =>
               (sys_ok st (Some ("unsealed, but key warm-load failed (" +:+ display debug_str e
                                 +:+ "); keys will be loaded on demand")), w2)
           end
      else (sys_ok st None, w1)
  end.

(** [operator_token]: VAULT_OPERATOR_TOKEN; [presented]: the X-Vault-Token
    header, when it is text. *)
Definition seal_allowed (operator_token presented : option string) : bool :=
  match operator_token with
  | Some expected =>
      Str.is_empty expected || bool_decide (default "" presented = expected)
  | None => true
  end.

Definition sys_seal (operator_token presented : option string) (w : World) : SysResponse * World :=
  if seal_allowed operator_token presented then
    let w' := put_store w (set_seal w.(w_store) (seal w.(w_store).(ks_seal))) in
    (sys_ok (status w'.(w_store).(ks_seal)) None, w')
  else (sys_err 403 "operator token required to seal", w).

(** [run_service] up to the servers: [pool] says whether DATABASE_URL is set and
    reachable, [load_root_key] is what the provider answers. *)
Definition run_service (pool : bool) (provider : result RootKeyError Provider)
    (load_root_key : Provider -> result RootKeyError string) (db : KeyDb) (n : nat) :
    result () World :=
  let start (s : Seal) : result () World :=
    if pool then
      let w := {| w_store := with_seal s; w_db := db; w_tick := S n |} in
      if is_unsealed s
      then match load_from_db out w with (Ok _, w') => Ok w' | (Err _, _) => Err tt end
      else Ok w
    else Ok {| w_store := with_seal_ephemeral s; w_db := db; w_tick := n |} in
  let without_material :=
    match provider with
    | Err _ => Err tt
    | Ok p =>
        match load_root_key p with
        | Ok root => start (unseal_with_root_key new root)
        | Err _ => if pool then start new else Err tt
        end
    end in
  if pool then
    match load_seal (out.(io) n) db with
    | Err _ => Err tt
    | Ok (Some m) => start (load new m)
    | Ok None => without_material
    end
  else without_material.

End Sys.
