(* ===== verification/CryptoService.v ===== *)
(** * The crypto service: what its callers rely on

    Theorems about [KekStore]. Whatever sequence of requests, failures, seal
    operations and changes by other processes a process goes through, it keeps
    every data key it has used, so what it encrypted it decrypts, for its own
    tenant only. *)

From Stdlib Require Import Lia Ascii.
From stdpp Require Import pretty.
From S2P Require Import Prelude Errors Effects Envelope Seal KeyStore KekStore.

(** ** Key material is never dropped *)

Class IdLaws `{Uuids} (out : Outside) : Prop := {
  now_v7_inj : forall n m, out.(now_v7) n = out.(now_v7) m -> n = m;
  now_v7_canonical : forall n, uuid_parse (out.(now_v7) n) = Ok (out.(now_v7) n);
  uuid_canonical : forall s u, uuid_parse s = Ok u -> uuid_parse u = Ok u;
  uuid_no_colon : forall s u, uuid_parse s = Ok u -> Str.mem ":" u = false;
  uuid_visible : forall s u, uuid_parse s = Ok u -> Str.forallb Str.is_visible u = true;
  uuid_nonempty : forall s u, uuid_parse s = Ok u -> u <> "";
}.

(** The ids still to come are new to the cache and to the table. *)
Definition fresh_ids `{Uuids} (out : Outside) (w : World) : Prop :=
  forall n, (w.(w_tick) <= n)%nat ->
    (forall k, is_Some (w.(w_store).(deks) !! k) -> uuid_parse k <> Ok (out.(now_v7) n))
    /\ (forall k, k ∈ kr_id <$> w.(w_db).(kdb_rows) -> uuid_parse k <> Ok (out.(now_v7) n)).

Definition entry_grows (e e' : DekEntry) : Prop :=
  e'.(de_tenant_id) = e.(de_tenant_id) /\ chain_of e ⊆ chain_of e'.

Definition deks_grow (m m' : gmap string DekEntry) : Prop :=
  forall k e, m !! k = Some e -> exists e', m' !! k = Some e' /\ entry_grows e e'.

#[global] Instance entry_grows_preorder : PreOrder entry_grows.
Proof.
  split.
  - intros e. by split.
  - intros e1 e2 e3 [Ht1 Hc1] [Ht2 Hc2]. split; [congruence|set_solver].
Qed.

#[global] Instance deks_grow_preorder : PreOrder deks_grow.
Proof.
  split.
  - intros m k e He. by exists e.
  - intros m1 m2 m3 H1 H2 k e He. destruct (H1 _ _ He) as (e' & He' & Hg).
    destruct (H2 _ _ He') as (e'' & He'' & Hg'). exists e''. split; [done|by transitivity e'].
Qed.

Lemma deks_grow_insert_new m k e : m !! k = None -> deks_grow m (<[k:=e]> m).
Proof. intros Hn k' e' He'. exists e'. by rewrite lookup_insert_ne by congruence. Qed.

Lemma demote_grows e raw wrapped v : entry_grows e (demote e raw wrapped v).
Proof.
  split; [done|]. unfold chain_of, demote. cbn [raw_dek superseded].
  rewrite reverse_app, reverse_singleton. set_solver.
Qed.

Lemma deks_grow_demote m k e raw wrapped v :
  m !! k = Some e -> deks_grow m (<[k := demote e raw wrapped v]> m).
Proof.
  intros He k' e' He'. destruct (decide (k = k')) as [->|Hne].
  - rewrite lookup_insert_eq. replace e' with e by congruence. eauto using demote_grows.
  - rewrite lookup_insert_ne by done. by exists e'.
Qed.

(** A step of the process: with fresh ids, the ids stay fresh, the clock of
    events advances, the pool stays, and no key material is lost. *)
Definition keeps `{Uuids} (out : Outside) (w w' : World) : Prop :=
  fresh_ids out w ->
  fresh_ids out w' /\ (w.(w_tick) <= w'.(w_tick))%nat
  /\ deks_grow w.(w_store).(deks) w'.(w_store).(deks).

#[global] Instance keeps_preorder `{Uuids} out : PreOrder (keeps out).
Proof.
  split.
  - intros w Hf. done.
  - intros w1 w2 w3 H12 H23 Hf. destruct (H12 Hf) as (Hf2 & Ht & Hg).
    destruct (H23 Hf2) as (Hf3 & Ht' & Hg'). split_and!; [done|lia|by transitivity w2.(w_store).(deks)].
Qed.

Section Keeps.
Context `{Primitives, SqlText, Uuids} (out : Outside) `{!IdLaws out} (debug_str : string -> string).


(** *** Running the primitive computations *)

Definition ticked (w : World) : World :=
  {| w_store := w.(w_store); w_db := w.(w_db); w_tick := S w.(w_tick) |}.

Lemma run_exec f w :
  exec out f w =
  match f (out.(io) w.(w_tick)) (out.(clock) w.(w_tick)) w.(w_db) with
  | Ok db' => (Ok tt, {| w_store := w.(w_store); w_db := db'; w_tick := S w.(w_tick) |})
  | Err e => (Err e, ticked w)
  end.
Proof. unfold exec, mbind, eff_bind, gets, lift, modify, tick, ticked. cbn. by destruct (f _ _ _). Qed.

Lemma run_query {A} (f : option string -> KeyDb -> vresult A) w :
  query out f w = (f (out.(io) w.(w_tick)) w.(w_db), ticked w).
Proof. done. Qed.

Lemma run_random w :
  generate_random_32_bytes out w =
  (match out.(key_rng) w.(w_tick) with
   | Ok k => Ok k
   | Err e => Err (EncryptionFailed ("CSPRNG key generation failed: " +:+ e))
   end, ticked w).
Proof. unfold generate_random_32_bytes. rewrite run_bind. cbn. by destruct (key_rng _ _). Qed.

Lemma run_encrypt_under dek pt aad w :
  encrypt_under out dek pt aad w =
  (encrypt_with_dek (out.(nonce_rng) w.(w_tick)) dek pt aad, ticked w).
Proof. done. Qed.

Lemma run_persist what id v p t wrapped w :
  persist_new_key out debug_str what id v p t wrapped w =
  match insert_key_descriptor (out.(io) w.(w_tick)) (out.(clock) w.(w_tick)) w.(w_db)
          (descriptor id v p t (out.(clock) w.(w_tick))) wrapped None with
  | Ok db' => (Ok tt, {| w_store := w.(w_store); w_db := db'; w_tick := S w.(w_tick) |})
  | Err e => (Err (internal what debug_str e), ticked w)
  end.
Proof. unfold persist_new_key, map_err. rewrite run_exec. cbv beta. by destruct (insert_key_descriptor _ _ _ _ _ _). Qed.

Lemma fresh_tick w n st db :
  fresh_ids out w -> (w.(w_tick) <= n)%nat ->
  st.(deks) = w.(w_store).(deks) -> db.(kdb_rows) = w.(w_db).(kdb_rows) ->
  fresh_ids out {| w_store := st; w_db := db; w_tick := n |}.
Proof. intros Hf Hn Hs Hd m Hm. cbn in *. rewrite Hs, Hd. apply Hf. lia. Qed.

Lemma keeps_tick : stable (keeps out) tick.
Proof.
  intros w Hf. cbn. split_and!; [|lia|reflexivity].
  apply (fresh_tick w); [done|lia|done|done].
Qed.

(** Changes to the cache that leave the data keys alone. *)
Lemma keeps_on_store f :
  (forall st, (f st).(deks) = st.(deks)) -> stable (keeps out) (on_store f).
Proof.
  intros Hf w Hfresh. cbn. rewrite Hf. split_and!; [|lia|reflexivity].
  apply (fresh_tick w); [done|lia|apply Hf|done].
Qed.

Lemma keeps_query {A} (f : option string -> KeyDb -> vresult A) : stable (keeps out) (query out f).
Proof. unfold query. stable_auto. apply keeps_tick. Qed.

(** A statement that adds no row, or only rows with an id already handed out. *)
Lemma keeps_exec f :
  (forall e now db db', f e now db = Ok db' ->
     kr_id <$> db'.(kdb_rows) ⊆ kr_id <$> db.(kdb_rows)) ->
  stable (keeps out) (exec out f).
Proof.
  intros Hsub w Hf. rewrite run_exec. destruct (f _ _ _) as [db'|e] eqn:Hr; cbn.
  - split_and!; [|lia|reflexivity]. intros n Hn. cbn in *. destruct (Hf n) as [Hd Hdb]; [lia|].
    split; [done|]. apply Hsub in Hr. intros k Hk. apply Hdb. by apply Hr.
  - split_and!; [|lia|reflexivity]. apply (fresh_tick w); [done|lia|done|done].
Qed.

Lemma keeps_random : stable (keeps out) (generate_random_32_bytes out).
Proof. unfold generate_random_32_bytes. stable_auto. apply keeps_tick. Qed.

Lemma keeps_encrypt_under dek pt aad : stable (keeps out) (encrypt_under out dek pt aad).
Proof. unfold encrypt_under. stable_auto. apply keeps_tick. Qed.

Lemma keeps_require_uuid what s : stable (keeps out) (require_uuid what s).
Proof. unfold require_uuid. stable_auto. Qed.

(** The row of a key whose id was drawn before. *)
Lemma keeps_persist what id v p t wrapped w :
  (exists n, id = out.(now_v7) n /\ (n < w.(w_tick))%nat) \/ id ∈ kr_id <$> w.(w_db).(kdb_rows) ->
  keeps out w (persist_new_key out debug_str what id v p t wrapped w).2.
Proof.
  intros Hid Hf. rewrite run_persist. unfold insert_key_descriptor.
  destruct (insert_named_key_descriptor _ _ _ _ _ _ _) as [db'|e] eqn:Hi; cbn.
  - apply insert_named_ok in Hi as (_ & _ & ->). split_and!; [|lia|reflexivity].
    intros m Hm. cbn in *. destruct (Hf m) as [Hd Hdb]; [lia|]. split; [done|].
    intros k. rewrite fmap_app. cbn. rewrite elem_of_app, list_elem_of_singleton.
    intros [Hin| ->]; [by apply Hdb|].
    destruct Hid as [(n & -> & Hn)|Hin]; [|by apply Hdb].
    rewrite (now_v7_canonical (out := out)). intros [= Heq%now_v7_inj]. lia.
  - split_and!; [|lia|reflexivity]. apply (fresh_tick w); [done|lia|done|done].
Qed.

Hint Resolve keeps_tick keeps_query keeps_random keeps_encrypt_under keeps_require_uuid : effects.

Lemma keeps_persist_new what v p t wrapped :
  stable (keeps out) (n ← tick; persist_new_key out debug_str what (out.(now_v7) n) v p t wrapped).
Proof.
  intros w. rewrite run_bind. cbn. etransitivity; [apply (keeps_tick w)|].
  apply keeps_persist. left. exists w.(w_tick). cbn. split; [done|lia].
Qed.

Hint Resolve keeps_persist_new : effects.

Lemma keeps_get_or_create t : stable (keeps out) (get_or_create_tenant_kek out debug_str t).
Proof. unfold get_or_create_tenant_kek, store. stable_auto. by apply keeps_on_store. Qed.

Lemma keeps_publish t k raw : stable (keeps out) (publish_dek out t k raw).
Proof.
  unfold publish_dek, transport_wrap_dek, store. stable_auto.
  apply keeps_exec. intros e now db db'. unfold emit_dek_upsert_event, sql.
  destruct e; [done|]. by intros [= <-].
Qed.

Hint Resolve keeps_get_or_create keeps_publish : effects.

(** Adding a key under an id that has just been drawn. *)
Lemma keeps_new_dek w w' k e :
  k = out.(now_v7) w.(w_tick) -> (w.(w_tick) < w'.(w_tick))%nat ->
  w'.(w_store).(deks) = <[k := e]> w.(w_store).(deks) -> w'.(w_db) = w.(w_db) -> keeps out w w'.
Proof.
  intros -> Ht Hd Hdb Hf. destruct (Hf w.(w_tick)) as [Hn _]; [lia|].
  split_and!; [|lia|].
  - intros n Hle. rewrite Hd, Hdb. destruct (Hf n) as [Hn' Hdb']; [lia|]. split; [|done].
    intros k [<-|[_ Hk]]%lookup_insert_is_Some; [|by apply Hn'].
    rewrite (now_v7_canonical (out := out)). intros [= Heq%now_v7_inj]. lia.
  - rewrite Hd. apply deks_grow_insert_new, eq_None_not_Some. intros Hs. apply (Hn _ Hs).
    apply (now_v7_canonical (out := out)).
Qed.

(** The database part of [generate_and_store_dek]. *)
Lemma keeps_store_dek w n t wrapped raw :
  (n < w.(w_tick))%nat ->
  keeps out w ((when w.(w_store).(db_pool)
    (_ ← require_uuid "tenant_id is not a valid UUID: " t;
     dek_uuid ← require_uuid "Generated key_id is not a valid UUID: " (out.(now_v7) n);
     _ ← persist_new_key out debug_str "Failed to persist DEK to DB: " dek_uuid 1 DataEncryption t
           wrapped;
     publish_dek out t (out.(now_v7) n) raw)) w).2.
Proof.
  intros Hn. destruct (db_pool _); [|reflexivity]. cbn [when].
  rewrite run_bind. unfold require_uuid. destruct (uuid_parse t); [|reflexivity].
  cbn [mret eff_ret]. rewrite run_bind, (now_v7_canonical (out := out)). cbn [mret eff_ret].
  rewrite run_bind. assert (Hp := keeps_persist "Failed to persist DEK to DB: " (out.(now_v7) n) 1
    DataEncryption t wrapped w). destruct (persist_new_key _ _ _ _ _ _ _ _ w) as [[[]|e] w1].
  - transitivity w1; [apply Hp; eauto|apply keeps_publish].
  - apply Hp; eauto.
Qed.

Lemma keeps_generate t : stable (keeps out) (generate_and_store_dek out debug_str t).
Proof.
  unfold generate_and_store_dek. apply stable_bind; [typeclasses eauto|apply keeps_get_or_create|].
  intros kek. apply stable_bind; [typeclasses eauto|apply keeps_random|]. intros raw w.
  rewrite run_bind. cbn [tick]. rewrite run_bind, run_encrypt_under.
  destruct (encrypt_with_dek _ _ _ _) as [env|e]; cbn [snd].
  2:{ etransitivity; [apply (keeps_tick w)|apply (keeps_tick (ticked w))]. }
  rewrite run_bind. unfold on_store, modify. set (w3 := put_store _ _).
  transitivity w3; [eapply keeps_new_dek; [done|cbn; lia|done|done]|].
  unfold store. rewrite run_bind. cbn [gets]. rewrite run_bind.
  assert (Hrest := keeps_store_dek w3 w.(w_tick) t env.(ciphertext_b64) raw ltac:(cbn; lia)).
  cbv zeta. cbn [w_store w_tick ticked] in *. destruct (when _ _ w3) as [[[]|e] w4]; exact Hrest.
Qed.

Lemma keeps_take_current t : stable (keeps out) (take_current t).
Proof.
  intros w Hf. unfold take_current.
  destruct (current_dek _ !! t) as [c|]; [destruct (operations c <? _)|]; cbn;
    (split_and!; [|lia|reflexivity]); [|done|done].
  apply (fresh_tick w); [done|lia|done|done].
Qed.

Hint Resolve keeps_generate keeps_take_current : effects.

Lemma keeps_adopt t k : stable (keeps out) (adopt_current t k).
Proof. unfold adopt_current. stable_auto. by apply keeps_on_store. Qed.

Hint Resolve keeps_adopt : effects.

Lemma keeps_current_dek t : stable (keeps out) (current_dek_for_encrypt out debug_str t).
Proof. unfold current_dek_for_encrypt. stable_auto. Qed.

(** Fetching a tenant KEK leaves the data keys alone. *)
Definition same_deks (w w' : World) : Prop := w'.(w_store).(deks) = w.(w_store).(deks).

#[local] Instance same_deks_preorder : PreOrder same_deks.
Proof. split; [done|]. intros w1 w2 w3. unfold same_deks. congruence. Qed.

Lemma same_deks_exec f : stable same_deks (exec out f).
Proof. intros w. rewrite run_exec. by destruct (f _ _ _). Qed.

Lemma same_deks_get_or_create t : stable same_deks (get_or_create_tenant_kek out debug_str t).
Proof.
  unfold get_or_create_tenant_kek, store, generate_random_32_bytes, encrypt_under, require_uuid,
    persist_new_key.
  stable_auto; try done; apply same_deks_exec.
Qed.

(** A version list of the table mentions its id. *)
Lemma versions_id e db u rows r :
  get_key_versions_with_wrapped_key e db u = Ok rows -> head rows = Some r ->
  u ∈ kr_id <$> db.(kdb_rows).
Proof.
  unfold get_key_versions_with_wrapped_key, sql. destruct e; [done|]. intros [= <-] Hh.
  apply head_Some_elem_of in Hh. apply list_elem_of_fmap in Hh as (row & -> & Hin).
  rewrite order_by_perm in Hin. apply list_elem_of_filter in Hin as [[<- _] Hin].
  by apply list_elem_of_fmap_2.
Qed.

(** Hydration inserts under an id the table holds. *)
Lemma keeps_hydrated w w2 k u e :
  uuid_parse k = Ok u -> u ∈ kr_id <$> w.(w_db).(kdb_rows) ->
  w.(w_store).(deks) !! k = None -> keeps out w w2 -> same_deks w w2 ->
  keeps out w (put_store w2 (set_deks w2.(w_store) (<[k := e]> w2.(w_store).(deks)))).
Proof.
  intros Hk Hu Hn Hw Hs Hf. destruct (Hw Hf) as (Hf2 & Ht & Hg). cbn. rewrite Hs.
  split_and!; [|done|by apply deks_grow_insert_new].
  intros n Hle. cbn in *. destruct (Hf2 n Hle) as [Hd Hdb]. split; [|done].
  rewrite Hs in Hd. intros k' [<-|[_ Hk']]%lookup_insert_is_Some; [|by apply Hd].
  destruct (Hf n) as [_ Hdb']; [lia|]. rewrite Hk. intros [= ->].
  apply (Hdb' _ Hu), (now_v7_canonical (out := out)).
Qed.

Lemma keeps_hydrate w k :
  w.(w_store).(deks) !! k = None -> keeps out w (hydrate_dek out debug_str k w).2.
Proof.
  intros Hn. unfold hydrate_dek, store. rewrite run_bind. cbn [gets].
  destruct (negb _); [reflexivity|]. destruct (uuid_parse k) as [u|e] eqn:Hu; [|reflexivity].
  rewrite run_bind, run_query.
  destruct (get_key_versions_with_wrapped_key _ _ _) as [rows|e] eqn:Hrows; [|apply keeps_tick].
  destruct (head rows) as [r|] eqn:Hh; cbn [mbind option_bind]; [|apply keeps_tick].
  destruct (pk_tenant_id r) as [t|]; [|apply keeps_tick].
  rewrite run_bind. assert (Hk := keeps_get_or_create t (ticked w)).
  assert (Hs := same_deks_get_or_create t (ticked w)).
  assert (Hkw : keeps out w (get_or_create_tenant_kek out debug_str t (ticked w)).2)
    by (etransitivity; [apply (keeps_tick w)|done]).
  destruct (get_or_create_tenant_kek _ _ _ _) as [[kek|e] w2]; [|done]. cbn [snd] in *.
  rewrite run_bind. cbn [gets]. destruct (last _) as [[[v raw] wr]|]; [|done].
  rewrite run_bind. cbn [on_store modify mret eff_ret snd].
  apply (keeps_hydrated w w2 k u); [done|by eapply versions_id|done|done|done].
Qed.

Lemma keeps_find_dek k : stable (keeps out) (find_dek out debug_str k).
Proof.
  unfold find_dek, store. intros w. rewrite run_bind. cbn [gets]. rewrite run_bind.
  case_bool_decide as Hin; [reflexivity|].
  assert (Hk := keeps_hydrate w k (proj2 (eq_None_not_Some _) Hin)).
  by destruct (hydrate_dek _ _ _ _) as [[b|e] w1].
Qed.

Hint Resolve keeps_find_dek keeps_current_dek : effects.

Lemma keeps_get_dek k t : stable (keeps out) (get_dek out debug_str k t).
Proof. unfold get_dek. stable_auto. Qed.

Lemma keeps_get_dek_chain k t : stable (keeps out) (get_dek_chain out debug_str k t).
Proof. unfold get_dek_chain. stable_auto. Qed.

(** The database part of [rotate_dek]. *)
Lemma keeps_rotate_db k t v wrapped w :
  is_Some (w.(w_store).(deks) !! k) ->
  keeps out w ((when w.(w_store).(db_pool)
    (key_uuid ← require_uuid "key_id is not a valid UUID: " k;
     _ ← require_uuid "tenant_id is not a valid UUID: " t;
     _ ← map_err (internal "Failed to update old DEK state in DB: " debug_str)
           (exec out (fun e now db => update_key_state e now db key_uuid RotatingOut));
     persist_new_key out debug_str "Failed to persist rotated DEK to DB: " key_uuid v
       DataEncryption t wrapped)) w).2.
Proof.
  intros Hk. destruct (db_pool _); [|reflexivity]. cbn [when].
  rewrite run_bind. unfold require_uuid. destruct (uuid_parse k) as [u|] eqn:Hu; [|reflexivity].
  cbn [mret eff_ret]. rewrite run_bind. destruct (uuid_parse t); [|reflexivity].
  cbn [mret eff_ret]. rewrite run_bind. unfold map_err at 1. rewrite run_exec. cbv beta.
  destruct (update_key_state _ _ _ _ _) as [db'|] eqn:Hupd; [|apply keeps_tick].
  set (w1 := {| w_store := _; w_db := db'; w_tick := _ |}). cbn [snd].
  assert (Hids : kr_id <$> db'.(kdb_rows) = kr_id <$> w.(w_db).(kdb_rows)).
  { unfold update_key_state, sql in Hupd. destruct (io _ _); [done|]. injection Hupd as <-. cbn.
    rewrite <- list_fmap_compose. apply list_fmap_ext. intros i r _. apply set_state_id. }
  intros Hf. assert (Hf1 : fresh_ids out w1).
  { intros n Hn. cbn in *. destruct (Hf n) as [Hd Hdb]; [lia|]. rewrite Hids. by split. }
  rewrite run_persist. unfold insert_key_descriptor.
  destruct (insert_named_key_descriptor _ _ _ _ _ _ _) as [db2|e] eqn:Hi; cbn [snd].
  2:{ split_and!; [apply (fresh_tick w1); [done|cbn; lia|done|done]|cbn; lia|reflexivity]. }
  apply insert_named_ok in Hi as (_ & _ & ->).
  split_and!; [|cbn; lia|reflexivity]. intros n Hn. destruct (Hf1 n) as [Hd Hdb]; [cbn in *; lia|].
  split; [done|]. cbn in *. intros k'. rewrite fmap_app, elem_of_app. cbn.
  rewrite list_elem_of_singleton. intros [Hin| ->]; [by apply Hdb|].
  rewrite (uuid_canonical (out := out) _ _ Hu). intros [= ->]. by apply (Hd k Hk).
Qed.

(** Rotation demotes; whatever the database does afterwards, the chain stays. *)
Lemma keeps_rotate t k : stable (keeps out) (rotate_dek out debug_str t k).
Proof.
  unfold rotate_dek, store. intros w. rewrite run_bind. cbn [gets]. rewrite run_bind. unfold lift at 1.
  destruct (deks _ !! k) as [e|]; [|reflexivity]. cbn [ok_or].
  destruct (bool_decide (_ <> t)); [reflexivity|].
  rewrite run_bind. assert (H1' := keeps_get_or_create t w).
  destruct (get_or_create_tenant_kek _ _ _ _) as [[kek|err] w1]; [|done]. cbn [snd] in H1'.
  rewrite run_bind, run_random. destruct (key_rng _ _) as [raw|];
    [|etransitivity; [done|apply keeps_tick]].
  rewrite run_bind, run_encrypt_under. set (w2 := ticked (ticked w1)).
  assert (H2 : keeps out w w2) by (transitivity w1; [done|]; transitivity (ticked w1); apply keeps_tick).
  destruct (encrypt_with_dek _ _ _ _) as [env|]; [|done].
  rewrite run_bind. cbn [gets]. rewrite run_bind. unfold lift at 1.
  destruct (deks (w_store w2) !! k) as [e'|] eqn:He'; [|done]. cbn [ok_or].
  rewrite run_bind. cbn [on_store modify]. set (v := as_u32 _). set (w3 := put_store _ _).
  assert (H3 : keeps out w2 w3).
  { intros Hf. split_and!; [|done|cbn; by apply deks_grow_demote].
    intros n Hn. destruct (Hf n Hn) as [Hd Hdb]. split; [|done]. cbn.
    intros k' [<-|[_ Hk']]%lookup_insert_is_Some; apply Hd; [by rewrite He'|done]. }
  rewrite run_bind.
  assert (H4 := keeps_rotate_db k t v env.(ciphertext_b64) w3).
  assert (H5 : is_Some (w3.(w_store).(deks) !! k)) by (cbn; rewrite lookup_insert_eq; by eexists).
  specialize (H4 H5). cbn [w_store put_store set_deks db_pool w3] in H4.
  destruct (when _ _ _) as [[[]|err] w4]; by (transitivity w3; [transitivity w2|]).
Qed.

(** Warm loading adds and demotes. *)
Lemma load_dek_row_grows s keks m row : deks_grow m (load_dek_row s keks m row).
Proof.
  unfold load_dek_row. destruct (pk_tenant_id row) as [t|]; [|reflexivity].
  destruct (keks !! t) as [kek|]; [|reflexivity].
  destruct (unwrap_dek_row _ _ _) as [raw|]; [|reflexivity].
  destruct (m !! pk_key_id row) as [e|] eqn:He;
    [by apply deks_grow_demote|by apply deks_grow_insert_new].
Qed.

Lemma load_dek_row_dom s keks m row k :
  is_Some (load_dek_row s keks m row !! k) -> is_Some (m !! k) \/ k = row.(pk_key_id).
Proof.
  unfold load_dek_row. destruct (pk_tenant_id row) as [t|]; [|by left].
  destruct (keks !! t) as [kek|]; [|by left]. destruct (unwrap_dek_row _ _ _) as [raw|]; [|by left].
  destruct (m !! pk_key_id row) as [e|] eqn:He;
    intros [Heq|[_ Hs]]%lookup_insert_is_Some; auto.
Qed.

Lemma load_rows_grow s keks rows m : deks_grow m (foldl (load_dek_row s keks) m rows).
Proof.
  revert m. induction rows as [|row rows IH]; intros m; [reflexivity|]. cbn.
  transitivity (load_dek_row s keks m row); [apply load_dek_row_grows|apply IH].
Qed.

Lemma load_rows_dom s keks rows m k :
  is_Some (foldl (load_dek_row s keks) m rows !! k) ->
  is_Some (m !! k) \/ k ∈ pk_key_id <$> rows.
Proof.
  revert m. induction rows as [|row rows IH]; intros m; cbn; [by left|].
  intros [Hs|Hin]%IH; [|set_solver]. apply load_dek_row_dom in Hs. set_solver.
Qed.

Lemma recent_ids e db p n rows :
  list_recent_loadable_keys e db p n = Ok rows -> pk_key_id <$> rows ⊆ kr_id <$> db.(kdb_rows).
Proof.
  unfold list_recent_loadable_keys, sql. destruct e; [done|]. intros [= <-] k.
  rewrite <- list_fmap_compose. intros (r & -> & Hr)%list_elem_of_fmap. cbn.
  apply list_elem_of_fmap_2. rewrite order_by_perm in Hr.
  apply (sublist_subseteq _ _ (limit_sublist _ _)) in Hr. rewrite order_by_perm in Hr.
  by apply list_elem_of_filter in Hr as [_ Hr].
Qed.

Lemma keeps_load : stable (keeps out) (load_from_db out).
Proof.
  unfold load_from_db, store. apply stable_bind; [typeclasses eauto|apply stable_gets; typeclasses eauto|].
  intros st. destruct (negb _); [stable_auto|].
  apply stable_bind; [typeclasses eauto|stable_auto|]. intros root.
  apply stable_bind; [typeclasses eauto|stable_auto|]. intros krows.
  apply stable_bind; [typeclasses eauto|by apply keeps_on_store|]. intros _ w.
  rewrite run_bind, run_query. destruct (list_recent_loadable_keys _ _ _ _) as [rows|e] eqn:Hr;
    [|apply keeps_tick].
  apply recent_ids in Hr. cbn [on_store modify snd]. intros Hf.
  split_and!; [|cbn; lia|cbn; apply load_rows_grow].
  intros n Hn. cbn in *. destruct (Hf n) as [Hd Hdb]; [lia|]. split; [|done].
  intros k [Hs|Hin]%load_rows_dom; [by apply Hd|by apply Hdb, Hr].
Qed.

(** The RPCs are these methods between checks that read nothing. *)
Lemma run_rpc {A} (m : M A) w :
  rpc m w = match m w with
            | (Ok a, w') => (Ok a, w')
            | (Err e, w') => (Err (vault_error_to_status e), w')
            end.
Proof. done. Qed.

Lemma stable_rpc {A} R (m : M A) : stable R m -> stable R (rpc m).
Proof. intros Hm w. unfold rpc. specialize (Hm w). by destruct (m w) as [[a|e] w']. Qed.

Lemma stable_non_empty R `{!PreOrder R} v f : stable R (require_non_empty v f).
Proof. unfold require_non_empty. stable_auto. Qed.

Hint Resolve stable_rpc stable_non_empty keeps_get_dek keeps_get_dek_chain keeps_rotate : effects.

Lemma keeps_encrypt t p a : stable (keeps out) (encrypt out debug_str t p a).
Proof. unfold encrypt. stable_auto. Qed.

Lemma keeps_decrypt t c a : stable (keeps out) (decrypt out debug_str t c a).
Proof.
  unfold decrypt. apply stable_bind; [typeclasses eauto|stable_auto|]. intros t'.
  destruct (Str.split_once _ _) as [[k ct]|]; stable_auto.
Qed.

Lemma keeps_generate_dek t c : stable (keeps out) (generate_dek out debug_str t c).
Proof.
  unfold generate_dek. do 2 (apply stable_bind; [typeclasses eauto|stable_auto|]; intros ?).
  apply stable_bind; [typeclasses eauto|stable_auto|]. intros k.
  apply stable_bind; [typeclasses eauto| |intros [wr v]; stable_auto].
  apply stable_rpc. unfold get_dek_metadata, store. stable_auto.
Qed.

Lemma keeps_rotate_key t k : stable (keeps out) (rotate_key out debug_str t k).
Proof. unfold rotate_key. stable_auto. Qed.

End Keeps.

(** ** What a process can go through

    Any sequence of requests, seal operations and changes other processes make to
    the shared tables. *)

Section Run.
Context `{Primitives, Sharing, SqlText, Uuids} (out : Outside) `{!IdLaws out}
  (debug_str : string -> string).

Inductive step : World -> World -> Prop :=
| step_encrypt t p a w : fresh_ids out w -> step w (encrypt out debug_str t p a w).2
| step_decrypt t c a w : fresh_ids out w -> step w (decrypt out debug_str t c a w).2
| step_generate t c w : fresh_ids out w -> step w (generate_dek out debug_str t c w).2
| step_rotate t k w : fresh_ids out w -> step w (rotate_key out debug_str t k w).2
| step_describe k w : step w (get_key_descriptor_rpc k w).2
| step_reload w : fresh_ids out w -> step w (load_from_db out w).2
| step_init rng body w : step w (sys_init out debug_str rng body w).2
| step_unseal key w : fresh_ids out w -> step w (sys_unseal out debug_str key w).2
| step_seal tok hdr w : step w (sys_seal tok hdr w).2
| step_others db n w : step w {| w_store := w.(w_store); w_db := db; w_tick := n |}.

Lemma keeps_grows w w' :
  fresh_ids out w -> keeps out w w' -> deks_grow w.(w_store).(deks) w'.(w_store).(deks).
Proof. intros Hf Hk. by destruct (Hk Hf) as (_ & _ & ?). Qed.

Lemma step_grows w w' : step w w' -> deks_grow w.(w_store).(deks) w'.(w_store).(deks).
Proof.
  intros Hs. destruct Hs.
  - apply keeps_grows; [done|by apply keeps_encrypt].
  - apply keeps_grows; [done|by apply keeps_decrypt].
  - apply keeps_grows; [done|by apply keeps_generate_dek].
  - apply keeps_grows; [done|by apply keeps_rotate_key].
  - unfold get_key_descriptor_rpc. rewrite run_bind.
    unfold require_non_empty. destruct (Str.is_empty _); [reflexivity|]. cbn [mret eff_ret].
    rewrite run_bind. unfold rpc, get_dek_version_unscoped, store. rewrite run_bind. cbn [gets].
    rewrite run_bind. by destruct (deks _ !! k).
  - apply keeps_grows; [done|by apply keeps_load].
  - unfold sys_init. destruct (default _ body) as [ns thr]. destruct (negb _); [reflexivity|].
    destruct (init _ _ _ _) as [[[res m]|e] s]; [|reflexivity].
    by destruct (save_initial _ _ _).
  - unfold sys_unseal. destruct (unseal _ _) as [[st|e] s]; [|reflexivity].
    destruct (_ && _); [|reflexivity]. set (w1 := put_store _ _).
    assert (Hf : fresh_ids out w1) by (by apply (fresh_tick out w)).
    assert (Hg := keeps_grows w1 _ Hf (keeps_load out debug_str w1)).
    by destruct (load_from_db out w1) as [[[]|e] w2].
  - unfold sys_seal. by destruct (seal_allowed _ _).
  - reflexivity.
Qed.

Lemma run_grows w w' : rtc step w w' -> deks_grow w.(w_store).(deks) w'.(w_store).(deks).
Proof.
  induction 1 as [w|w1 w2 w3 Hs _ IH]; [reflexivity|].
  transitivity w2.(w_store).(deks); [by apply step_grows|done].
Qed.

End Run.

(** ** Current data keys are minted ids *)

Section Minted.
Context `{Primitives, Sharing, SqlText, Uuids} (out : Outside) `{!IdLaws out}
  (debug_str : string -> string).

Definition minted (w : World) : Prop :=
  forall t c, w.(w_store).(current_dek) !! t = Some c -> exists n, c.(cd_key_id) = out.(now_v7) n.

Definition same_current (w w' : World) : Prop :=
  w'.(w_store).(current_dek) = w.(w_store).(current_dek).

#[local] Instance same_current_preorder : PreOrder same_current.
Proof. split; [done|]. intros w1 w2 w3. unfold same_current. congruence. Qed.

Lemma same_current_exec f : stable same_current (exec out f).
Proof. intros w. rewrite run_exec. by destruct (f _ _ _). Qed.

Lemma same_current_random : stable same_current (generate_random_32_bytes out).
Proof. intros w. by rewrite run_random. Qed.

Lemma same_current_on_store f :
  (forall st, (f st).(current_dek) = st.(current_dek)) -> stable same_current (on_store f).
Proof. intros Hf w. apply Hf. Qed.

Lemma same_current_tick : stable same_current tick.
Proof. by intros w. Qed.

Lemma same_current_query {A} (f : option string -> KeyDb -> vresult A) :
  stable same_current (query out f).
Proof. by intros w. Qed.

Lemma same_current_encrypt_under dek pt aad : stable same_current (encrypt_under out dek pt aad).
Proof. by intros w. Qed.

Hint Resolve same_current_exec same_current_random same_current_tick same_current_query
  same_current_encrypt_under stable_rpc stable_non_empty : effects.
Hint Extern 3 (stable same_current (on_store _)) => (by apply same_current_on_store) : effects.

Lemma same_current_get_or_create t : stable same_current (get_or_create_tenant_kek out debug_str t).
Proof. unfold get_or_create_tenant_kek, store, require_uuid, persist_new_key. stable_auto. Qed.

Hint Resolve same_current_get_or_create : effects.

Lemma same_current_generate t : stable same_current (generate_and_store_dek out debug_str t).
Proof.
  unfold generate_and_store_dek, store, require_uuid, persist_new_key, publish_dek,
    transport_wrap_dek, store. stable_auto.
Qed.

Lemma same_current_find k : stable same_current (find_dek out debug_str k).
Proof.
  unfold find_dek, store. stable_auto. unfold hydrate_dek, store. stable_auto.
Qed.

Hint Resolve same_current_find same_current_generate : effects.

Lemma same_current_get_dek k t : stable same_current (get_dek out debug_str k t).
Proof. unfold get_dek. stable_auto. Qed.

Lemma same_current_chain k t : stable same_current (get_dek_chain out debug_str k t).
Proof. unfold get_dek_chain. stable_auto. Qed.

Lemma same_current_rotate t k : stable same_current (rotate_dek out debug_str t k).
Proof. unfold rotate_dek, store, require_uuid, persist_new_key. stable_auto. Qed.

Hint Resolve same_current_get_dek same_current_chain same_current_rotate : effects.

Lemma same_current_load : stable same_current (load_from_db out).
Proof. unfold load_from_db, store. stable_auto. Qed.

Lemma generate_id t w k w' :
  generate_and_store_dek out debug_str t w = (Ok k, w') -> exists n, k = out.(now_v7) n.
Proof.
  unfold generate_and_store_dek. intros Hg.
  do 3 (apply bind_ok in Hg as (? & ? & _ & Hg)). cbv zeta in Hg.
  do 4 (apply bind_ok in Hg as (? & ? & _ & Hg)). injection Hg as <- _. by eexists.
Qed.

Lemma same_current_decrypt t c a : stable same_current (decrypt out debug_str t c a).
Proof.
  unfold decrypt. apply (stable_bind same_current); [stable_auto|]. intros t'.
  destruct (Str.split_once _ _) as [[k ct]|]; stable_auto.
Qed.

Lemma same_current_generate_dek t c : stable same_current (generate_dek out debug_str t c).
Proof.
  unfold generate_dek. do 3 (apply (stable_bind same_current); [stable_auto|]; intros ?).
  apply (stable_bind same_current); [|intros [wr v]; stable_auto].
  apply stable_rpc. unfold get_dek_metadata, store. stable_auto.
Qed.

Lemma same_current_rotate_key t k : stable same_current (rotate_key out debug_str t k).
Proof. unfold rotate_key. stable_auto. Qed.

Lemma same_current_describe k : stable same_current (get_key_descriptor_rpc k).
Proof.
  unfold get_key_descriptor_rpc. stable_auto. apply stable_rpc.
  unfold get_dek_version_unscoped, store. stable_auto.
Qed.

(** The id handed to an encryption is a minted one, and the map stays so. *)
Lemma take_current_minted t w :
  minted w -> minted (take_current t w).2
  /\ (forall k, (take_current t w).1 = Ok (Some k) -> exists n, k = out.(now_v7) n).
Proof.
  intros Hm. unfold take_current. destruct (current_dek _ !! t) as [c|] eqn:Hc; [|done].
  destruct (_ <? _); [|done]. destruct (Hm _ _ Hc) as [n Hn]. cbn. split.
  - intros t' c'. cbn. destruct (decide (t = t')) as [->|Hne].
    + rewrite lookup_insert_eq. intros [= <-]. cbn. eauto.
    + rewrite lookup_insert_ne by done. apply Hm.
  - intros k [= <-]. eauto.
Qed.

Lemma adopt_minted t n w :
  minted w -> minted (adopt_current t (out.(now_v7) n) w).2
  /\ (forall k, (adopt_current t (out.(now_v7) n) w).1 = Ok k -> exists n, k = out.(now_v7) n).
Proof.
  intros Hm. destruct (take_current_minted t w Hm) as [Hm' Hk].
  unfold adopt_current. rewrite run_bind.
  destruct (take_current t w) as [[[k|]|e] w1]; cbn [fst snd] in *; [| |done].
  - split; [done|]. intros k' [= <-]. eauto.
  - rewrite run_bind. unfold on_store, modify. cbn [fst snd mret eff_ret].
    split; [|intros k [= <-]; eauto]. intros t' c'. cbn. destruct (decide (t = t')) as [->|Hne].
    + rewrite lookup_insert_eq. intros [= <-]. cbn. eauto.
    + rewrite lookup_insert_ne by done. apply Hm'.
Qed.

Lemma current_minted t w :
  minted w -> minted (current_dek_for_encrypt out debug_str t w).2
  /\ (forall k, (current_dek_for_encrypt out debug_str t w).1 = Ok k -> exists n, k = out.(now_v7) n).
Proof.
  intros Hm. destruct (take_current_minted t w Hm) as [Hm' Hk].
  unfold current_dek_for_encrypt. rewrite run_bind.
  destruct (take_current t w) as [[[k|]|e] w1]; cbn [fst snd] in *; [| |done].
  - split; [done|]. intros k' [= <-]. eauto.
  - rewrite run_bind. assert (Hs := same_current_generate t w1).
    destruct (generate_and_store_dek _ _ _ _) as [[k|e] w2] eqn:Hg; cbn [fst snd] in *.
    + apply generate_id in Hg as [n ->]. apply adopt_minted. intros t' c'. rewrite Hs. apply Hm'.
    + split; [|done]. intros t' c'. rewrite Hs. apply Hm'.
Qed.

Lemma minted_same w w' : same_current w w' -> minted w -> minted w'.
Proof. intros Hs Hm t c. rewrite Hs. apply Hm. Qed.

Lemma step_minted w w' : step out debug_str w w' -> minted w -> minted w'.
Proof.
  intros Hs. destruct Hs.
  - intros Hm. unfold encrypt. rewrite run_bind. unfold require_non_empty.
    destruct (Str.is_empty _); [done|]. cbn [mret eff_ret]. destruct (Str.is_empty p); [done|].
    rewrite run_bind. unfold rpc at 1. destruct (current_minted t w Hm) as [Hm' _].
    destruct (current_dek_for_encrypt _ _ _ _) as [[k|e] w1]; [|done]. cbn [snd] in Hm'.
    eapply minted_same; [|exact Hm'].
    assert (Ht : stable same_current (dek ← rpc (get_dek out debug_str k t);
              envelope ← rpc (encrypt_under out dek p a);
              mret {| er_ciphertext_b64 := envelope.(ciphertext_b64); er_dek_id := k |}))
      by stable_auto.
    apply Ht.
  - apply minted_same, same_current_decrypt.
  - apply minted_same, same_current_generate_dek.
  - apply minted_same, same_current_rotate_key.
  - apply minted_same, same_current_describe.
  - apply minted_same, same_current_load.
  - apply minted_same. unfold sys_init. destruct (default _ body) as [ns thr].
    destruct (negb _); [reflexivity|]. destruct (init _ _ _ _) as [[[res m]|e] s]; [|reflexivity].
    by destruct (save_initial _ _ _).
  - apply minted_same. unfold sys_unseal. destruct (unseal _ _) as [[st|e] s]; [|reflexivity].
    destruct (_ && _); [|reflexivity]. set (w1 := put_store _ _).
    assert (Hl := same_current_load w1). by destruct (load_from_db out w1) as [[[]|e] w2].
  - apply minted_same. unfold sys_seal. by destruct (seal_allowed _ _).
  - by apply minted_same.
Qed.

Lemma start_minted w : w.(w_store).(current_dek) = ∅ -> minted w.
Proof. intros Hc t c. by rewrite Hc, lookup_empty. Qed.

Lemma run_minted w w' : rtc (step out debug_str) w w' -> minted w -> minted w'.
Proof. induction 1 as [w|w1 w2 w3 Hs _ IH]; [done|]. intros Hm. by apply IH, (step_minted w1). Qed.

End Minted.

(** ** Ciphertexts outlive key changes *)

(** A chain with the key that made the ciphertext opens it. *)
Lemma try_chain_finds `{Primitives} dek ct aad pt chain :
  dek ∈ chain -> decrypt_with_dek dek ct aad = Ok pt ->
  (forall k m, decrypt_with_dek k ct aad = Ok m -> k = dek) -> try_chain chain ct aad = Some pt.
Proof.
  intros Hin Hd Hu. induction chain as [|k chain IH]; [set_solver|]. cbn.
  destruct (decrypt_with_dek k ct aad) as [m|e] eqn:Hk.
  - rewrite (Hu _ _ Hk), Hd in Hk. congruence.
  - apply IH. apply elem_of_cons in Hin as [->|Hin]; [congruence|done].
Qed.

Section Survive.
Context `{Primitives, Sharing, SqlText, Uuids} (out : Outside) `{!IdLaws out}
  (debug_str : string -> string) `{!PrimitiveLaws, !Authentic}.
Hypothesis nonces : forall n x, out.(nonce_rng) n = Some x -> String.length x = AES_GCM_NONCE_LEN.

Lemma non_empty_ok v f w a w' :
  require_non_empty v f w = (Ok a, w') -> Str.is_empty (Str.trim v) = false /\ a = v /\ w' = w.
Proof. unfold require_non_empty. case_match eqn:He; [done|]. intros [= <- <-]. done. Qed.

Lemma rpc_ok {A} (m : M A) w a w' : rpc m w = (Ok a, w') -> m w = (Ok a, w').
Proof. unfold rpc. destruct (m w) as [[b|e] w1]; [intros [= <- <-]; done|done]. Qed.

Lemma find_dek_ok k w e w' :
  find_dek out debug_str k w = (Ok e, w') -> w'.(w_store).(deks) !! k = Some e.
Proof.
  unfold find_dek. intros Hf. do 2 (apply bind_ok in Hf as (? & ? & _ & Hf)).
  apply bind_ok in Hf as (st & w2 & [= <- <-] & [= Hf <-]).
  destruct (_ !! k); [|done]. cbn in Hf. congruence.
Qed.

(** What a successful encryption leaves behind. *)
Lemma encrypt_ok t p a w r w' :
  minted out w -> encrypt out debug_str t p a w = (Ok r, w') ->
  Str.is_empty (Str.trim t) = false /\ (exists n, r.(er_dek_id) = out.(now_v7) n)
  /\ exists e n env, w'.(w_store).(deks) !! r.(er_dek_id) = Some e /\ e.(de_tenant_id) = t
     /\ encrypt_with_dek (out.(nonce_rng) n) e.(raw_dek) p a = Ok env
     /\ r.(er_ciphertext_b64) = env.(ciphertext_b64).
Proof.
  intros Hm He. unfold encrypt in He.
  apply bind_ok in He as (t' & w1 & (Ht & -> & ->)%non_empty_ok & He).
  destruct (Str.is_empty p); [done|].
  apply bind_ok in He as (k & w2 & Hk%rpc_ok & He).
  apply bind_ok in He as (dek & w3 & Hd%rpc_ok & He).
  apply bind_ok in He as (env & w4 & He'%rpc_ok & He). injection He as <- <-. cbn.
  split; [done|]. split.
  { destruct (current_minted out debug_str t w Hm) as [_ Hid]. apply Hid. by rewrite Hk. }
  unfold get_dek in Hd. apply bind_ok in Hd as (e & w3' & Hf%find_dek_ok & Hd).
  case_bool_decide as Hteq; [done|]. injection Hd as <- <-.
  rewrite run_encrypt_under in He'. injection He' as He' <-.
  exists e, w3'.(w_tick), env. cbn. split_and!; [done|by destruct (decide (e.(de_tenant_id) = t))|done|done].
Qed.

(** Decryption when the key is in the cache. *)
Lemma decrypt_cached t c a k ct e w :
  Str.is_empty (Str.trim t) = false -> Str.split_once ":" c = Some (k, ct) ->
  Str.is_empty (Str.trim k) = false -> Str.is_empty (Str.trim ct) = false ->
  w.(w_store).(deks) !! k = Some e ->
  (decrypt out debug_str t c a w).1 =
    if bool_decide (e.(de_tenant_id) = t)
    then ok_or (try_chain (chain_of e) ct a) (InternalStatus "decryption operation failed")
    else Err (NotFound ("key not found: " +:+ k)).
Proof.
  intros Ht Hc Hk Hct He. unfold decrypt. rewrite run_bind. unfold require_non_empty at 1.
  rewrite Ht. cbn [mret eff_ret]. rewrite Hc, run_bind. unfold require_non_empty at 1. rewrite Hk.
  cbn [mret eff_ret]. rewrite run_bind. unfold require_non_empty at 1. rewrite Hct.
  cbn [mret eff_ret]. rewrite run_bind. unfold rpc, get_dek_chain. rewrite run_bind.
  unfold find_dek, store. rewrite run_bind. cbn [gets]. rewrite run_bind, He.
  rewrite bool_decide_eq_true_2 by eauto. cbn [mret eff_ret]. rewrite run_bind. cbn [gets].
  rewrite He. cbn [lift ok_or]. do 2 case_bool_decide; try done.
Qed.

Lemma minted_text n :
  Str.is_empty (Str.trim (out.(now_v7) n)) = false /\ Str.mem ":" (out.(now_v7) n) = false.
Proof.
  assert (Hc := now_v7_canonical (out := out) n).
  rewrite Str.trim_id by (by eapply (uuid_visible (out := out))).
  split; [|by eapply (uuid_no_colon (out := out))].
  unfold Str.is_empty. apply bool_decide_eq_false_2. by eapply (uuid_nonempty (out := out)).
Qed.

Lemma combined_split k ct : Str.mem ":" k = false ->
  Str.split_once ":" (k +:+ ":" +:+ ct) = Some (k, ct).
Proof. intros Hk. by apply Str.split_once_Some. Qed.

(** A ciphertext and its key id, sent back by its tenant. *)
Lemma encrypted_opens t p a w r w1 w2 :
  minted out w -> encrypt out debug_str t p a w = (Ok r, w1) -> rtc (step out debug_str) w1 w2 ->
  (decrypt out debug_str t (r.(er_dek_id) +:+ ":" +:+ r.(er_ciphertext_b64)) a w2).1 = Ok p.
Proof.
  intros Hm He Hrun.
  destruct (encrypt_ok _ _ _ _ _ _ Hm He) as (Ht & [n Hid] & e & m & env & Hk & Hte & Henv & Hct).
  destruct (run_grows out debug_str _ _ Hrun _ _ Hk) as (e' & Hk' & Hte' & Hchain).
  destruct (envelope_text _ _ _ _ _ (nonces m) Henv) as [Htrim Hne].
  destruct (minted_text n) as [Hkt Hcolon]. rewrite <- Hid in Hkt, Hcolon.
  erewrite decrypt_cached; [|done|by apply combined_split|done| |done].
  - rewrite bool_decide_eq_true_2 by congruence.
    rewrite (try_chain_finds e.(raw_dek) _ _ p); [done| | |].
    + apply Hchain. unfold chain_of. set_solver.
    + rewrite Hct. exact (envelope_round_trip _ _ _ _ _ (nonces m) Henv).
    + intros k pt Hd. rewrite Hct in Hd.
      by destruct (envelope_authentic _ _ _ _ _ _ _ _ (nonces m) Henv Hd).
  - rewrite Hct, Htrim. by apply bool_decide_eq_false_2.
Qed.

(** A ciphertext alone, without its key id, is never decrypted. *)
Lemma encrypted_alone t p a w r w1 :
  minted out w -> encrypt out debug_str t p a w = (Ok r, w1) ->
  Str.mem ":" r.(er_ciphertext_b64) = false.
Proof.
  intros Hm He. destruct (encrypt_ok _ _ _ _ _ _ Hm He) as (_ & _ & e & m & env & _ & _ & Henv & ->).
  by eapply envelope_no_colon.
Qed.

Lemma decrypt_needs_key t c a w :
  Str.mem ":" c = false -> is_ok (decrypt out debug_str t c a w).1 = false.
Proof.
  intros Hc. unfold decrypt. rewrite run_bind. destruct (require_non_empty t _ w) as [[]]; [|done].
  destruct (Str.split_once ":" c) as [[k ct]|] eqn:Hs; [|done].
  apply Str.split_once_Some in Hs as [-> _]. by rewrite Str.mem_app, orb_comm in Hc.
Qed.

(** C9. What the service has encrypted it decrypts, whatever happens to the
    process in between: encryptions, rotations, rolls to a new current key, warm
    loads, sealing and unsealing, failed statements and any change other processes
    make to the tables. Only the owning tenant gets the plaintext, and only with
    the associated data it was bound to. *)
Theorem ciphertext_survives w0 t p a w r w1 w2 :
  w0.(w_store).(current_dek) = ∅ -> rtc (step out debug_str) w0 w ->
  encrypt out debug_str t p a w = (Ok r, w1) -> rtc (step out debug_str) w1 w2 ->
  (decrypt out debug_str t (r.(er_dek_id) +:+ ":" +:+ r.(er_ciphertext_b64)) a w2).1 = Ok p
  /\ (forall t' a', t' <> t -> Str.is_empty (Str.trim t') = false ->
       (decrypt out debug_str t' (r.(er_dek_id) +:+ ":" +:+ r.(er_ciphertext_b64)) a' w2).1
       = Err (NotFound ("key not found: " +:+ r.(er_dek_id))))
  /\ (forall a', a' <> a ->
       (decrypt out debug_str t (r.(er_dek_id) +:+ ":" +:+ r.(er_ciphertext_b64)) a' w2).1
       = Err (InternalStatus "decryption operation failed")).
Proof.
  intros H0' Hbefore He Hrun. assert (Hm := run_minted out debug_str w0 w Hbefore (start_minted out w0 H0')).
  destruct (encrypt_ok _ _ _ _ _ _ Hm He) as (Ht & [n Hid] & e & m & env & Hk & Hte & Henv & Hct).
  destruct (run_grows out debug_str _ _ Hrun _ _ Hk) as (e' & Hk' & Hte' & Hchain).
  destruct (envelope_text _ _ _ _ _ (nonces m) Henv) as [Htrim Hne].
  destruct (minted_text n) as [Hkt Hcolon]. rewrite <- Hid in Hkt, Hcolon.
  assert (Hcte : Str.is_empty (Str.trim r.(er_ciphertext_b64)) = false).
  { rewrite Hct, Htrim. by apply bool_decide_eq_false_2. }
  split_and!.
  - by eapply encrypted_opens.
  - intros t' a' Hne' Ht'. erewrite decrypt_cached; [|done|by apply combined_split|done|done|done].
    by rewrite bool_decide_eq_false_2 by congruence.
  - intros a' Ha'. erewrite decrypt_cached; [|done|by apply combined_split|done|done|done].
    rewrite bool_decide_eq_true_2 by congruence.
    assert (Hnone : try_chain (chain_of e') r.(er_ciphertext_b64) a' = None); [|by rewrite Hnone].
    clear Hchain. induction (chain_of e') as [|k chain IH]; [done|]. cbn.
    destruct (decrypt_with_dek k _ a') eqn:Hd; [|done]. rewrite Hct in Hd.
    by destruct (envelope_authentic _ _ _ _ _ _ _ _ (nonces m) Henv Hd).
Qed.

End Survive.

(** ** The budget of a data key

    [current_dek_for_encrypt] holds its lock twice and releases it while it mints
    a key; any number of requests can be in between. [bstep] is one holding of
    the lock, or anything that leaves the map alone; [served] counts, for every
    key, the encryptions it was handed out for. *)

Module Budget.

Definition count (m : gmap string Z) (k : string) : Z := default 0 (m !! k).
Definition serve (m : gmap string Z) (k : string) : gmap string Z := <[k := count m k + 1]> m.

#[local] Arguments count : simpl never.
#[local] Arguments serve : simpl never.

Inductive bstep : World * gmap string Z -> World * gmap string Z -> Prop :=
| b_take t w w' m k : take_current t w = (Ok (Some k), w') -> bstep (w, m) (w', serve m k)
| b_miss t w w' m : take_current t w = (Ok None, w') -> bstep (w, m) (w', m)
| b_adopt t w w' m k k' :
    (** a key just minted has served nobody and is nobody's current key *)
    count m k = 0 ->
    (forall t' c, w.(w_store).(current_dek) !! t' = Some c -> c.(cd_key_id) <> k) ->
    adopt_current t k w = (Ok k', w') -> bstep (w, m) (w', serve m k')
| b_other w w' m : w'.(w_store).(current_dek) = w.(w_store).(current_dek) -> bstep (w, m) (w', m).

Definition within (s : World * gmap string Z) : Prop :=
  (forall t c, s.1.(w_store).(current_dek) !! t = Some c ->
     count s.2 c.(cd_key_id) = c.(operations) /\ 1 <= c.(operations) <= DEK_MAX_OPERATIONS)
  /\ (forall t t' c c', s.1.(w_store).(current_dek) !! t = Some c ->
        s.1.(w_store).(current_dek) !! t' = Some c' -> c.(cd_key_id) = c'.(cd_key_id) -> t = t')
  /\ (forall k, 0 <= count s.2 k <= DEK_MAX_OPERATIONS).

Lemma count_serve m k k' : count (serve m k) k' = if decide (k = k') then count m k + 1 else count m k'.
Proof.
  unfold count, serve. case_decide as Hk; [subst; by rewrite lookup_insert_eq|].
  by rewrite lookup_insert_ne.
Qed.

Lemma take_within t w w' m k :
  within (w, m) -> take_current t w = (Ok (Some k), w') -> within (w', serve m k).
Proof.
  intros (Hc & Hd & Hk). unfold take_current. destruct (_ !! t) as [c|] eqn:Ht; [|done].
  destruct (_ <? _) eqn:Hlt; [|done]. intros [= <- <-]. apply Z.ltb_lt in Hlt.
  destruct (Hc t c Ht) as [Hct Hop]. cbn [fst snd] in *. split_and!.
  - intros t' c'. cbn. destruct (decide (t = t')) as [<-|Hne].
    + rewrite lookup_insert_eq. intros [= <-]. cbn. rewrite count_serve, decide_True by done. lia.
    + rewrite lookup_insert_ne by done. intros Hc'. cbn. rewrite count_serve.
      rewrite decide_False; [by apply (Hc t')|]. intros Heq. by destruct Hne, (Hd t t' c c').
  - intros t1 t2 c1 c2. cbn.
    destruct (decide (t = t1)) as [<-|H1]; destruct (decide (t = t2)) as [<-|H2];
      rewrite ?lookup_insert_eq, ?(lookup_insert_ne _ t t1), ?(lookup_insert_ne _ t t2) by done;
      intros; simplify_eq/=; eauto.
  - intros k. cbn. rewrite count_serve. case_decide; [subst; lia|apply Hk].
Qed.

Lemma adopt_within t w w' m k k' :
  within (w, m) -> count m k = 0 ->
  (forall t' c, w.(w_store).(current_dek) !! t' = Some c -> c.(cd_key_id) <> k) ->
  adopt_current t k w = (Ok k', w') -> within (w', serve m k').
Proof.
  intros Hw H0 Hnew. unfold adopt_current. rewrite run_bind.
  destruct (take_current t w) as [[[k1|]|e] w1] eqn:Ht; [| |done].
  { intros [= <- <-]. by eapply take_within. }
  assert (w1 = w) as ->.
  { unfold take_current in Ht. destruct (_ !! t) as [c|]; [destruct (_ <? _)|]; congruence. }
  rewrite run_bind. cbn [on_store modify mret eff_ret]. intros [= <- <-].
  destruct Hw as (Hc & Hd & Hk). cbn [fst snd] in *. split_and!.
  - intros t' c'. cbn. destruct (decide (t = t')) as [<-|Hne].
    + rewrite lookup_insert_eq. intros [= <-]. cbn. rewrite count_serve, decide_True, H0 by done.
      unfold DEK_MAX_OPERATIONS. lia.
    + rewrite lookup_insert_ne by done. intros Hc'. cbn. rewrite count_serve.
      rewrite decide_False; [by apply (Hc t')|]. intros Heq. by apply (Hnew t' c').
  - intros t1 t2 c1 c2. cbn.
    destruct (decide (t = t1)) as [<-|H1]; destruct (decide (t = t2)) as [<-|H2];
      rewrite ?lookup_insert_eq, ?(lookup_insert_ne _ t t1), ?(lookup_insert_ne _ t t2) by done;
      intros; simplify_eq/=; eauto; exfalso; by eapply Hnew.
  - intros k1. cbn. rewrite count_serve. case_decide; [|apply Hk]. rewrite H0. unfold DEK_MAX_OPERATIONS. lia.
Qed.

(** C3. However requests interleave between the two locks of the selection of
    a current key, no data key is handed out for more than [DEK_MAX_OPERATIONS]
    encryptions. *)
Theorem dek_budget w0 s k :
  w0.(w_store).(current_dek) = ∅ -> rtc bstep (w0, ∅) s -> count s.2 k <= DEK_MAX_OPERATIONS.
Proof.
  intros H0 Hrun. assert (Hw : within s); [|by apply Hw].
  assert (Hstart : within (w0, ∅)).
  { split_and!; cbn; rewrite ?H0; [intros t c|intros t t' c c'|intros k'];
      rewrite ?lookup_empty; [done|done|]. unfold count. rewrite lookup_empty. cbn.
    unfold DEK_MAX_OPERATIONS. lia. }
  induction Hrun as [s|s1 s2 s3 Hs _ IH]; [done|]. apply IH. clear IH.
  destruct Hs as [t w w' m k' Ht|t w w' m Ht|t w w' m k1 k2 Hz Hn Ha|w w' m Hs].
  - by eapply take_within.
  - assert (w' = w) as ->; [|done].
    unfold take_current in Ht. destruct (_ !! t) as [c|]; [destruct (_ <? _)|]; congruence.
  - by eapply adopt_within.
  - unfold within in *. cbn in *. by rewrite Hs.
Qed.

End Budget.

(** ** The seal API *)

Section SealApi.
Context `{Primitives, Sharing, SqlText, Uuids} (out : Outside) (debug_str : string -> string).

(** A sealed vault goes on encrypting for the tenants whose keys are cached:
    sealing drops the root key and nothing else, although the comment on the
    store promises that every operation that needs key material then fails. *)
Theorem sealed_vault_still_encrypts tok hdr w t p a c e env :
  seal_allowed tok hdr = true ->
  w.(w_store).(current_dek) !! t = Some c -> c.(operations) < DEK_MAX_OPERATIONS ->
  w.(w_store).(deks) !! c.(cd_key_id) = Some e -> e.(de_tenant_id) = t ->
  Str.is_empty (Str.trim t) = false -> Str.is_empty p = false ->
  encrypt_with_dek (out.(nonce_rng) w.(w_tick)) e.(raw_dek) p a = Ok env ->
  let '(resp, w') := sys_seal tok hdr w in
  resp.(sr_status) = 200 /\ (sealed <$> resp.(sr_seal)) = Some true
  /\ root_key w'.(w_store).(ks_seal) = Err Sealed
  /\ (encrypt out debug_str t p a w').1
     = Ok {| er_ciphertext_b64 := env.(ciphertext_b64); er_dek_id := c.(cd_key_id) |}.
Proof.
  intros Ha Hc Hop He Hte Ht Hp Henv. unfold sys_seal. rewrite Ha. split_and!; [done|done|done|].
  unfold encrypt. rewrite run_bind. unfold require_non_empty. rewrite Ht. cbn [mret eff_ret].
  rewrite Hp, run_bind, run_rpc. unfold current_dek_for_encrypt. rewrite run_bind. unfold take_current.
  cbn [w_store put_store set_seal current_dek]. rewrite Hc, (proj2 (Z.ltb_lt _ _) Hop). cbn [mret eff_ret].
  rewrite run_bind, run_rpc. unfold get_dek, find_dek, store. rewrite run_bind, run_bind. cbn [gets].
  rewrite run_bind. cbn [w_store put_store set_seal set_current deks]. rewrite He.
  rewrite bool_decide_eq_true_2 by (by eexists). cbn [mret eff_ret]. rewrite run_bind.
  cbn [gets lift w_store put_store set_seal set_current deks]. rewrite He. cbn [ok_or].
  rewrite bool_decide_eq_false_2 by (intros Hx; done). cbn [mret eff_ret].
  rewrite run_bind, run_rpc, run_encrypt_under. cbn [w_tick put_store]. by rewrite Henv.
Qed.

(** An initialisation that could not be stored says that the vault is not
    initialised; it reports itself initialised and refuses every further
    attempt until the process is restarted. *)
Theorem failed_init_is_final rng body w :
  (sys_init out debug_str rng body w).1.(sr_status) = 500 ->
  (initialized <$> (sys_seal_status (sys_init out debug_str rng body w).2).(sr_seal)) = Some true
  /\ forall rng' body',
       (sys_init out debug_str rng' body' (sys_init out debug_str rng body w).2).1.(sr_status) = 400.
Proof.
  unfold sys_init at 1 2 4. destruct (default (5, 3) body) as [ns thr].
  destruct (negb _) eqn:Hpool; [done|].
  destruct (init _ _ _ _) as [[[res m]|e] s] eqn:Hinit; [|done].
  destruct (save_initial _ _ _) as [db'|e]; [done|]. intros _.
  assert (Hmat : exists x, s.(material) = Some x).
  { unfold init in Hinit. destruct (init_check _ _ _); [|done].
    destruct (init_material _ _ _) as [[r x]|]; [|done]. injection Hinit as _ _ <-. by eexists. }
  destruct Hmat as [x Hx]. cbn [snd].
  split; [unfold sys_seal_status, status, status_of; cbn; by rewrite Hx|].
  intros rng' body'. unfold sys_init. destruct (default (5, 3) body') as [ns' thr'].
  cbn [w_store set_seal db_pool]. rewrite Hpool. unfold init, init_check. cbn [ks_seal set_seal seal material].
  rewrite Hx. destruct (_ || _); [done|]. by destruct (_ >? _).
Qed.

(** Without the operator's token, where one is set, nothing is sealed. *)
Theorem seal_needs_operator_token tok hdr w :
  tok <> "" -> hdr <> Some tok ->
  sys_seal (Some tok) hdr w = (sys_err 403 "operator token required to seal", w).
Proof.
  intros Ht Hh. unfold sys_seal, seal_allowed, Str.is_empty. rewrite !bool_decide_eq_false_2; [done| |done].
  destruct hdr as [h|]; cbn; congruence.
Qed.

End SealApi.

(** ** A concrete outside *)

Module Demo.

Definition valid (s : string) : bool :=
  negb (Str.is_empty s) && negb (Str.mem ":" s) && Str.forallb Str.is_visible s.

#[global] Instance demo_uuids : Uuids := fun s => if valid s then Ok s else Err "invalid character".
#[global] Instance demo_sql : SqlText := fun c => "violates " +:+ c.

Definition demo_out : Outside := {|
  key_rng n := Ok (Str.repeat "k" 31 +:+ String (ascii_of_nat n) "");
  nonce_rng n := Some (Str.repeat "n" 11 +:+ String (ascii_of_nat n) "");
  now_v7 n := "id-" +:+ pretty (N.of_nat n);
  io _ := None; clock n := Z.of_nat n; region_id := None |}.

Lemma demo_digits_visible s : Dec.is_digits s = true -> Str.forallb Str.is_visible s = true.
Proof.
  induction s as [|c s IH]; [done|]. unfold Dec.is_digits. cbn. intros Hc. bools.
  rewrite IH by done. destruct c as [[] [] [] [] [] [] [] []]; done.
Qed.

Lemma demo_id_valid n : valid (demo_out.(now_v7) n) = true.
Proof.
  destruct (Dec.pretty_digits (N.of_nat n)) as [Hd Hne]. unfold valid. cbn [now_v7 demo_out].
  rewrite Str.mem_app, Str.forallb_app, (Dec.digits_no_char ":" _ eq_refl Hd), (demo_digits_visible _ Hd).
  done.
Qed.

#[global] Instance demo_ids : IdLaws demo_out.
Proof.
  assert (Hv : forall s u, uuid_parse s = Ok u -> u = s /\ valid s = true).
  { intros s u. unfold uuid_parse, demo_uuids. destruct (valid s); [|done]. by intros [= <-]. }
  split.
  - intros n m Heq%Str.app_inv_head. apply (inj pretty) in Heq. lia.
  - intros n. unfold uuid_parse, demo_uuids. by rewrite demo_id_valid.
  - intros s u Hs. by destruct (Hv s u Hs) as [-> _].
  - intros s u [-> Hval]%Hv. unfold valid in Hval. bools. by destruct (Str.mem _ s).
  - intros s u [-> Hval]%Hv. unfold valid in Hval. by bools.
  - intros s u [-> Hval]%Hv ->. done.
Qed.

Lemma demo_nonces n x : demo_out.(nonce_rng) n = Some x -> String.length x = AES_GCM_NONCE_LEN.
Proof. cbn [nonce_rng demo_out]. intros [= <-]. reflexivity. Qed.

Lemma demo_keys n k : demo_out.(key_rng) n = Ok k -> String.length k = 32%nat.
Proof. cbn [key_rng demo_out]. intros [= <-]. reflexivity. Qed.

#[global] Existing Instance tagged.
#[global] Existing Instance tagged_laws.
#[global] Existing Instance tagged_authentic.

Definition demo_root : string := Str.repeat "r" 32.
Definition demo_seal : Seal := unseal_with_root_key new demo_root.
Definition no_escape (s : string) : string := s.

Definition demo_w0 : World :=
  {| w_store := with_seal_ephemeral demo_seal; w_tick := 0;
     w_db := {| kdb_rows := []; kdb_tenants := ["t1"]; kdb_events := []; kdb_seal := None |} |}.

Definition demo_enc (w : World) := encrypt demo_out no_escape "t1" "hello" "path" w.
Definition demo_resp (w : World) : EncryptResponse :=
  match (demo_enc w).1 with Ok r => r | Err _ => {| er_ciphertext_b64 := ""; er_dek_id := "" |} end.

Lemma demo_fresh : fresh_ids demo_out demo_w0.
Proof.
  intros n _. split; [|set_solver]. intros k. cbn. rewrite lookup_empty. intros Hx.
  by apply is_Some_None in Hx.
Qed.

End Demo.

Lemma ciphertext_survives_witness :
  let w1 := (Demo.demo_enc Demo.demo_w0).2 in
  let r := Demo.demo_resp Demo.demo_w0 in
  let w2 := (rotate_key Demo.demo_out Demo.no_escape "t1" r.(er_dek_id) w1).2 in
  (decrypt Demo.demo_out Demo.no_escape "t1" (r.(er_dek_id) +:+ ":" +:+ r.(er_ciphertext_b64)) "path" w2).1
  = Ok "hello".
Proof.
  intros w1 r w2.
  refine (proj1 (ciphertext_survives (H0 := stand_in_sharing) Demo.demo_out Demo.no_escape
    Demo.demo_nonces Demo.demo_w0 "t1" "hello" "path" Demo.demo_w0 r w1 w2 _ _ _ _)).
  - reflexivity.
  - apply rtc_refl.
  - vm_compute. reflexivity.
  - eapply rtc_l; [|apply rtc_refl]. apply step_rotate.
    apply (keeps_encrypt Demo.demo_out Demo.no_escape "t1" "hello" "path" Demo.demo_w0 Demo.demo_fresh).
Defined.

Lemma dek_budget_witness :
  Budget.count (Budget.serve ∅ "k") "k" <= DEK_MAX_OPERATIONS.
Proof.
  refine (Budget.dek_budget Demo.demo_w0
    ((adopt_current "t1" "k" Demo.demo_w0).2, Budget.serve ∅ "k") "k" _ _).
  - reflexivity.
  - eapply rtc_l; [|apply rtc_refl].
    eapply (Budget.b_adopt "t1" Demo.demo_w0 _ ∅ "k" "k"); [reflexivity| |reflexivity].
    intros t' c Hc. cbn in Hc. rewrite lookup_empty in Hc. discriminate.
Defined.
