(* ===== verification/KeyDurability.v ===== *)
(** * The crypto service: keys on disk

    How far the table [system.key_descriptors] lets a restarted process take up
    where the last one stopped. While no statement fails and nobody rotates,
    the caches mirror the table and an acknowledged encryption survives any
    number of restarts. The theorems after that show why the two provisos are
    there. *)

From Stdlib Require Import Lia Ascii.
From S2P Require Import Prelude Errors Effects Envelope Seal KeyStore KekStore CryptoService.

Section Mirror.
Context `{Primitives, SqlText, Uuids} (out : Outside) `{!IdLaws out, !PrimitiveLaws, !Authentic}
  (debug_str : string -> string) (root : string).
Hypothesis nonces : forall n x, out.(nonce_rng) n = Some x -> String.length x = AES_GCM_NONCE_LEN.
Hypothesis keys : forall n k, out.(key_rng) n = Ok k -> String.length k = 32%nat.
Hypothesis healthy : forall n, out.(io) n = None.

(** ** Rows that can be read back *)

(** [ct] is an envelope of [pt] that the service made. *)
Definition wraps (key pt aad ct : string) : Prop :=
  exists n env, encrypt_with_dek (out.(nonce_rng) n) key pt aad = Ok env /\ ct = env.(ciphertext_b64).

Lemma wraps_open key pt aad ct : wraps key pt aad ct -> decrypt_with_dek key ct aad = Ok pt.
Proof. intros (n & env & He & ->). exact (envelope_round_trip _ _ _ _ _ (nonces n) He). Qed.

Lemma wraps_only key pt aad ct key' aad' m :
  wraps key pt aad ct -> decrypt_with_dek key' ct aad' = Ok m -> key' = key /\ aad' = aad.
Proof.
  intros (n & env & He & ->) Hd. exact (envelope_authentic _ _ _ _ _ _ _ _ (nonces n) He Hd).
Qed.

Definition kek_row (r : KeyRow) (t kek : string) : Prop :=
  r.(kr_purpose) = purpose_str TenantKek /\ r.(kr_tenant_id) = Some t /\ r.(kr_state) = "active"
  /\ r.(kr_version) = 1 /\ wraps root kek (kek_aad t) r.(kr_wrapped_key) /\ String.length kek = 32%nat.

Definition dek_row (r : KeyRow) (t kek raw : string) : Prop :=
  r.(kr_purpose) = purpose_str DataEncryption /\ r.(kr_tenant_id) = Some t
  /\ loadable r = true
  /\ wraps kek raw (reload_aad r.(kr_id)) r.(kr_wrapped_key)
  /\ String.length raw = 32%nat.

(** A row wrapped under a KEK that is not the tenant's. *)
Definition dead_row (r : KeyRow) (t kek : string) : Prop :=
  r.(kr_purpose) = purpose_str DataEncryption /\ r.(kr_tenant_id) = Some t
  /\ loadable r = true
  /\ exists kek' raw, kek' <> kek /\ wraps kek' raw (reload_aad r.(kr_id)) r.(kr_wrapped_key).

(** The key of [k] is in the table, and it is [raw]. *)
Definition stored (keks : gmap string TenantKekEntry) (db : KeyDb) (k t raw : string) : Prop :=
  exists r e, r ∈ db.(kdb_rows) /\ r.(kr_id) = k /\ keks !! t = Some e
    /\ dek_row r t e.(raw_kek) raw.

Definition row_ok (keks : gmap string TenantKekEntry) (r : KeyRow) : Prop :=
  uuid_parse r.(kr_id) = Ok r.(kr_id)
  /\ exists t e, keks !! t = Some e
    /\ (kek_row r t e.(raw_kek) \/ (exists raw, dek_row r t e.(raw_kek) raw)
        \/ dead_row r t e.(raw_kek)).

(** The same tenant KEKs, whatever is noted beside them. *)
Definition keks_le (m m' : gmap string TenantKekEntry) : Prop :=
  forall t e, m !! t = Some e -> exists e', m' !! t = Some e' /\ e'.(raw_kek) = e.(raw_kek).

#[local] Instance keks_le_preorder : PreOrder keks_le.
Proof.
  split; [intros m t e He; eauto|]. intros m1 m2 m3 H12 H23 t e He.
  destruct (H12 _ _ He) as (e' & He' & Hr). destruct (H23 _ _ He') as (e'' & He'' & Hr').
  exists e''. split; [done|congruence].
Qed.

Lemma keks_le_insert m t e : m !! t = None -> keks_le m (<[t:=e]> m).
Proof. intros Hn t' e' He'. exists e'. by rewrite lookup_insert_ne by congruence. Qed.

(** The caches of a process and the table agree. *)
Record mirror (w : World) : Prop := {
  mi_pool : w.(w_store).(db_pool) = true;
  mi_root : forall k, w.(w_store).(ks_seal).(held_root_key) = Some k -> k = root;
  mi_fresh : fresh_ids out w;
  mi_unique : ids_unique w.(w_db);
  mi_rows : forall r, r ∈ w.(w_db).(kdb_rows) -> row_ok w.(w_store).(tenant_keks) r;
  mi_keks : forall t e, w.(w_store).(tenant_keks) !! t = Some e ->
    exists r, r ∈ w.(w_db).(kdb_rows) /\ kek_row r t e.(raw_kek);
  mi_deks : forall k e, w.(w_store).(deks) !! k = Some e ->
    Forall (eq e.(raw_dek)) e.(superseded)
    /\ exists u, uuid_parse k = Ok u
       /\ stored w.(w_store).(tenant_keks) w.(w_db) u e.(de_tenant_id) e.(raw_dek);
  mi_current : minted out w;
}.

Definition known (w : World) (t : string) : Prop :=
  uuid_parse t = Ok t /\ t ∈ w.(w_db).(kdb_tenants).

Lemma purposes_differ r t t' k k' raw : kek_row r t k -> dek_row r t' k' raw -> False.
Proof. intros (Hp & _) (Hp' & _). rewrite Hp in Hp'. by apply purpose_str_inj in Hp'. Qed.

(** Two rows with one id are one row. *)
Lemma same_row db r r' :
  ids_unique db -> r ∈ db.(kdb_rows) -> r' ∈ db.(kdb_rows) -> r.(kr_id) = r'.(kr_id) -> r = r'.
Proof.
  intros Hu (i & Hi)%list_elem_of_lookup (j & Hj)%list_elem_of_lookup Hid.
  assert (i = j) as ->; [|congruence].
  eapply (NoDup_lookup _ _ _ _ Hu); rewrite list_lookup_fmap; [by rewrite Hi|].
  by rewrite Hj, Hid.
Qed.

Lemma stored_unique keks db k t t' raw raw' :
  ids_unique db -> stored keks db k t raw -> stored keks db k t' raw' -> t = t' /\ raw = raw'.
Proof.
  intros Hu (r & e & Hr & Hk & He & (_ & Ht & _ & Hd%wraps_open & _))
    (r' & e' & Hr' & Hk' & He' & (_ & Ht' & _ & Hd'%wraps_open & _)).
  assert (r = r') as <- by (eapply same_row; [done|done|done|congruence]).
  assert (t = t') as <- by congruence. split; [done|]. congruence.
Qed.

(** ** Steps that only draw *)

Lemma mirror_frame w w' :
  mirror w -> w'.(w_store) = w.(w_store) -> w'.(w_db).(kdb_rows) = w.(w_db).(kdb_rows) ->
  (w.(w_tick) <= w'.(w_tick))%nat -> mirror w'.
Proof.
  intros [] Hs Hd Ht. split; try rewrite Hs; try done.
  - intros n Hn. rewrite Hs, Hd. apply mi_fresh0. lia.
  - unfold ids_unique. by rewrite Hd.
  - by rewrite Hd.
  - by rewrite Hd.
  - intros k e He. destruct (mi_deks0 k e He) as [Hsup (u & Hu & r & e' & Hr & Hrest)].
    split; [done|]. exists u. split; [done|]. exists r, e'. by rewrite Hd.
  - intros t c. rewrite Hs. apply mi_current0.
Qed.

Lemma mirror_ticked w : mirror w -> mirror (ticked w).
Proof. intros Hm. eapply mirror_frame; [done|done|done|cbn; lia]. Qed.

Lemma fresh_id w : fresh_ids out w -> out.(now_v7) w.(w_tick) ∉ kr_id <$> w.(w_db).(kdb_rows).
Proof.
  intros Hf Hin. destruct (Hf w.(w_tick)) as [_ Hdb]; [lia|].
  apply (Hdb _ Hin), (now_v7_canonical (out := out)).
Qed.

(** ** A new tenant KEK *)

Definition with_kek (w : World) (t : string) (e : TenantKekEntry) (row : KeyRow) (n : nat) : World :=
  {| w_store := set_keks w.(w_store) (<[t := e]> w.(w_store).(tenant_keks));
     w_db := with_rows w.(w_db) (w.(w_db).(kdb_rows) ++ [row]); w_tick := n |}.

Lemma fresh_append w w' row :
  fresh_ids out w -> w'.(w_store).(deks) = w.(w_store).(deks) ->
  w'.(w_db).(kdb_rows) = w.(w_db).(kdb_rows) ++ [row] ->
  (exists n, row.(kr_id) = out.(now_v7) n /\ (n < w'.(w_tick))%nat) ->
  (w.(w_tick) <= w'.(w_tick))%nat -> fresh_ids out w'.
Proof.
  intros Hf Hd Hr (n & Hid & Hn) Ht m Hm. destruct (Hf m) as [Hk Hdb]; [lia|].
  rewrite Hd. split; [done|]. rewrite Hr, fmap_app. intros k. cbn. rewrite elem_of_app.
  intros [Hin|Hin]; [by apply Hdb|]. apply list_elem_of_singleton in Hin as ->. rewrite Hid.
  rewrite (now_v7_canonical (out := out)). intros [= Heq%now_v7_inj]. lia.
Qed.

Lemma unique_append db row :
  ids_unique db -> row.(kr_id) ∉ kr_id <$> db.(kdb_rows) ->
  ids_unique (with_rows db (db.(kdb_rows) ++ [row])).
Proof.
  intros Hu Hn. unfold ids_unique. cbn. rewrite fmap_app. apply NoDup_app.
  split; [done|]. split; [|apply NoDup_singleton]. cbn. intros x Hx ->%list_elem_of_singleton. done.
Qed.

Lemma row_ok_mono keks keks' r : keks_le keks keks' -> row_ok keks r -> row_ok keks' r.
Proof.
  intros Hsub (Hc & t & e & He & Hr). split; [done|]. destruct (Hsub _ _ He) as (e' & He' & Heq).
  exists t, e'. by rewrite Heq.
Qed.

Lemma stored_mono keks keks' db db' k t raw :
  keks_le keks keks' -> db.(kdb_rows) ⊆ db'.(kdb_rows) -> stored keks db k t raw -> stored keks' db' k t raw.
Proof.
  intros Hk Hd (r & e & Hr & Hid & He & Hrow). destruct (Hk _ _ He) as (e' & He' & Heq).
  exists r, e'. rewrite Heq. split_and!; [by apply Hd|done|done|done].
Qed.

Lemma mirror_with_kek w t e row n :
  mirror w -> w.(w_store).(tenant_keks) !! t = None -> kek_row row t e.(raw_kek) ->
  (exists m, row.(kr_id) = out.(now_v7) m /\ (m < n)%nat) ->
  row.(kr_id) ∉ kr_id <$> w.(w_db).(kdb_rows) ->
  (w.(w_tick) <= n)%nat -> mirror (with_kek w t e row n).
Proof.
  intros Hm Hnew Hrow Hid Hnid Hn. destruct Hm.
  assert (Hsub : keks_le w.(w_store).(tenant_keks) (<[t:=e]> w.(w_store).(tenant_keks)))
    by (by apply keks_le_insert).
  split; cbn; try done.
  - eapply fresh_append; [done|done|done|done|done].
  - by apply unique_append.
  - intros r [Hr| ->%list_elem_of_singleton]%elem_of_app.
    + eapply row_ok_mono; [done|by apply mi_rows0].
    + destruct Hid as (m & Hid & _). split.
      * rewrite Hid. apply (now_v7_canonical (out := out)).
      * exists t, e. rewrite lookup_insert_eq. eauto.
  - intros t' e'. destruct (decide (t = t')) as [->|Hne].
    + rewrite lookup_insert_eq. intros [= <-]. exists row. split; [set_solver|done].
    + rewrite lookup_insert_ne by done. intros (r & Hr & Hk)%mi_keks0.
      exists r. split; [set_solver|done].
  - intros k d Hd. destruct (mi_deks0 k d Hd) as [Hsup (u & Hu & Hst)]. split; [done|].
    exists u. split; [done|]. eapply stored_mono; [done| |done]. cbn. set_solver.
Qed.

(** The constraints let a first tenant KEK in. *)
Lemma kek_insert_ok w t n now wrapped :
  mirror w -> known w t -> w.(w_store).(tenant_keks) !! t = None ->
  out.(now_v7) n ∉ kr_id <$> w.(w_db).(kdb_rows) ->
  violated w.(w_db) (row_of_desc now (descriptor (out.(now_v7) n) 1 TenantKek t now) wrapped None None)
  = None.
Proof.
  intros Hm [Hu Ht] Hnew Hid. apply violated_none; cbn; rewrite ?Hu; try done.
  - intros r Hr. apply not_true_iff_false. unfold same_kek_version. cbn. rewrite Hu. cbn.
    intros Hs. bools. destruct (mi_rows w Hm r Hr) as (_ & t' & e & He & [(_ & Ht' & _)|[(raw & Hp & _)|(Hp & _)]]).
    + congruence.
    + rewrite Hp in *. done.
    + rewrite Hp in *. done.
  - intros t' [= <-]. done.
Qed.

(** What every step may do to the caches and the table. *)
Definition extends (w w' : World) : Prop :=
  keks_le w.(w_store).(tenant_keks) w'.(w_store).(tenant_keks)
  /\ w.(w_db).(kdb_rows) ⊆ w'.(w_db).(kdb_rows)
  /\ w'.(w_db).(kdb_tenants) = w.(w_db).(kdb_tenants).

#[local] Instance extends_preorder : PreOrder extends.
Proof.
  split; [done|]. intros w1 w2 w3 (Hk & Hr & Ht) (Hk' & Hr' & Ht').
  split_and!; [by etransitivity|set_solver|congruence].
Qed.

Lemma known_extends w w' t : extends w w' -> known w t -> known w' t.
Proof. intros (_ & _ & Ht) [Hu Hin]. split; [done|]. by rewrite Ht. Qed.

Lemma get_or_create_ok w t :
  mirror w -> known w t ->
  let '(r, w') := get_or_create_tenant_kek out debug_str t w in
  mirror w' /\ extends w w' /\ w'.(w_store).(deks) = w.(w_store).(deks)
  /\ forall kek, r = Ok kek -> exists e, w'.(w_store).(tenant_keks) !! t = Some e /\ e.(raw_kek) = kek.
Proof.
  intros Hm Hk. unfold get_or_create_tenant_kek, store. rewrite run_bind. cbn [gets].
  destruct (tenant_keks _ !! t) as [e|] eqn:Hkek.
  { cbn. split_and!; [done|done|done|]. intros kek [= <-]. eauto. }
  rewrite run_bind, run_random. destruct (key_rng _ _) as [raw|err] eqn:Hraw.
  2:{ split_and!; [by apply mirror_ticked|done|done|done]. }
  rewrite run_bind. unfold lift. destruct (root_key _) as [rk|] eqn:Hroot.
  2:{ split_and!; [by apply mirror_ticked|done|done|done]. }
  rewrite run_bind, run_encrypt_under. set (w2 := ticked (ticked w)).
  destruct (encrypt_with_dek _ _ _ _) as [env|] eqn:Henv.
  2:{ split_and!; [by do 2 apply mirror_ticked|done|done|done]. }
  rewrite run_bind. cbn [on_store modify]. rewrite run_bind.
  rewrite (mi_pool w Hm). cbn [when]. rewrite run_bind. unfold require_uuid.
  destruct Hk as [Hu Ht]. rewrite Hu. cbn [mret eff_ret]. rewrite run_bind. cbn [tick].
  rewrite run_persist. unfold insert_key_descriptor, insert_named_key_descriptor, sql.
  rewrite healthy. cbn [w_db w_tick put_store w2 ticked].
  assert (rk = root) as ->.
  { unfold root_key in Hroot. destruct (held_root_key _) as [x|] eqn:Hx; [|done].
    injection Hroot as <-. by apply (mi_root w Hm). }
  assert (Hid : out.(now_v7) (S (S w.(w_tick))) ∉ kr_id <$> w.(w_db).(kdb_rows)).
  { intros Hin. destruct (mi_fresh w Hm (S (S w.(w_tick)))) as [_ Hdb]; [lia|].
    apply (Hdb _ Hin), (now_v7_canonical (out := out)). }
  rewrite (kek_insert_ok w t) by done. cbn [mret eff_ret].
  assert (Hrow : forall now, kek_row (row_of_desc now (descriptor (out.(now_v7) (S (S w.(w_tick)))) 1
                     TenantKek t now) env.(ciphertext_b64) None None) t raw).
  { intros now. unfold kek_row. cbn. rewrite Hu. split_and!; try done; [|by eapply keys].
    by repeat eexists. }
  set (row := row_of_desc _ _ _ _ _). set (e := {| raw_kek := raw |}).
  split_and!.
  - change (mirror (with_kek w t e row (S (S (S (S w.(w_tick))))))).
    apply mirror_with_kek; [done|done|apply Hrow| |done|lia].
    eexists. split; [done|]. lia.
  - split_and!; cbn; [by apply keks_le_insert|set_solver|done].
  - done.
  - intros kek [= <-]. exists e. cbn. by rewrite lookup_insert_eq.
Qed.

(** ** A new data key *)

(** Steps that keep the mirror and leave the data keys alone. *)
Definition calm (w w' : World) : Prop :=
  mirror w -> mirror w' /\ extends w w' /\ w'.(w_store) = w.(w_store).

#[local] Instance calm_preorder : PreOrder calm.
Proof.
  split; [done|]. intros w1 w2 w3 H12 H23 Hm. destruct (H12 Hm) as (Hm2 & He & Hd).
  destruct (H23 Hm2) as (Hm3 & He' & Hd'). split_and!; [done|by transitivity w2|congruence].
Qed.

Lemma calm_tick : stable calm tick.
Proof. intros w Hm. split_and!; [by apply mirror_ticked|done|done]. Qed.

Lemma calm_encrypt_under dek pt aad : stable calm (encrypt_under out dek pt aad).
Proof. intros w Hm. split_and!; [by apply mirror_ticked|done|done]. Qed.

Lemma calm_emit region t k v wrapped :
  stable calm (exec out (fun e _ db => emit_dek_upsert_event e db region t k v wrapped)).
Proof.
  intros w Hm. rewrite run_exec. unfold emit_dek_upsert_event, sql. rewrite healthy. cbn.
  split_and!; [|done|done]. eapply mirror_frame; [done|done|done|cbn; lia].
Qed.

Hint Resolve calm_tick calm_encrypt_under calm_emit : effects.

Lemma calm_publish t k raw : stable calm (publish_dek out t k raw).
Proof. unfold publish_dek, transport_wrap_dek, store. stable_auto. Qed.

Lemma publish_always t k raw w : (publish_dek out t k raw w).1 = Ok tt.
Proof.
  unfold publish_dek. rewrite run_bind. unfold attempt.
  destruct (transport_wrap_dek _ _ _ w) as [[x|e] w1]; [|done].
  rewrite run_bind. by destruct (exec _ _ _) as [[[]|e] w2].
Qed.

Definition with_dek (w : World) (k : string) (e : DekEntry) (row : KeyRow) (n : nat) : World :=
  {| w_store := set_deks w.(w_store) (<[k := e]> w.(w_store).(deks));
     w_db := with_rows w.(w_db) (w.(w_db).(kdb_rows) ++ [row]); w_tick := n |}.

Lemma mirror_with_dek w k e row n ke :
  mirror w -> k = out.(now_v7) w.(w_tick) -> row.(kr_id) = k -> e.(superseded) = [] ->
  w.(w_store).(tenant_keks) !! e.(de_tenant_id) = Some ke ->
  dek_row row e.(de_tenant_id) ke.(raw_kek) e.(raw_dek) -> (w.(w_tick) < n)%nat ->
  mirror (with_dek w k e row n).
Proof.
  intros Hm Hk Hid Hsup Hke Hrow Hn.
  assert (Hnid : row.(kr_id) ∉ kr_id <$> w.(w_db).(kdb_rows))
    by (rewrite Hid, Hk; apply fresh_id, (mi_fresh w Hm)).
  destruct Hm. split; cbn; try done.
  - intros m Hle. cbn in *. destruct (mi_fresh0 m) as [Hd Hdb]; [lia|]. subst k. split.
    + intros k [<-|[_ Hs]]%lookup_insert_is_Some; [|by apply Hd].
      rewrite (now_v7_canonical (out := out)). intros [= Heq%now_v7_inj]. lia.
    + rewrite fmap_app. intros k. cbn. rewrite elem_of_app, list_elem_of_singleton, Hid.
      intros [Hin| ->]; [by apply Hdb|].
      rewrite (now_v7_canonical (out := out)). intros [= Heq%now_v7_inj]. lia.
  - by apply unique_append.
  - intros r [Hr| ->%list_elem_of_singleton]%elem_of_app; [by apply mi_rows0|].
    split; [rewrite Hid, Hk; apply (now_v7_canonical (out := out))|].
    exists e.(de_tenant_id), ke. eauto.
  - intros t e' (r & Hr & Hkr)%mi_keks0. exists r. split; [set_solver|done].
  - intros k' e'. destruct (decide (k = k')) as [<-|Hne].
    + rewrite lookup_insert_eq. intros [= <-]. rewrite Hsup. split; [constructor|].
      exists k. split; [subst; apply (now_v7_canonical (out := out))|].
      exists row, ke. cbn. split_and!; [set_solver|done|done|done].
    + rewrite lookup_insert_ne by done. intros [Hf (u & Hu & Hst)]%mi_deks0. split; [done|].
      exists u. split; [done|]. eapply stored_mono; [done| |done]. cbn. set_solver.
Qed.

(** The constraints let a data key in. *)
Lemma dek_insert_ok db t k now wrapped :
  uuid_parse t = Ok t -> t ∈ db.(kdb_tenants) -> k ∉ kr_id <$> db.(kdb_rows) ->
  violated db (row_of_desc now (descriptor k 1 DataEncryption t now) wrapped None None) = None.
Proof.
  intros Hu Ht Hid. apply violated_none; cbn; rewrite ?Hu; try done. by intros t' [= <-].
Qed.

Lemma generate_ok w t :
  mirror w -> known w t ->
  let '(r, w') := generate_and_store_dek out debug_str t w in
  mirror w' /\ extends w w'
  /\ forall k, r = Ok k -> (exists n, k = out.(now_v7) n)
       /\ exists e, w'.(w_store).(deks) !! k = Some e /\ e.(de_tenant_id) = t.
Proof.
  intros Hm Hk. unfold generate_and_store_dek. rewrite run_bind.
  assert (Hg := get_or_create_ok w t Hm Hk).
  destruct (get_or_create_tenant_kek _ _ _ _) as [[kek|err] w1]; destruct Hg as (Hm1 & Hx1 & Hd1 & Hkek);
    [|done].
  destruct (Hkek kek eq_refl) as (ke & Hke & Hraw_kek). clear Hkek.
  destruct (known_extends _ _ _ Hx1 Hk) as [Hu Ht].
  rewrite run_bind, run_random. destruct (key_rng _ _) as [raw|err] eqn:Hraw.
  2:{ split_and!; [by apply mirror_ticked|done|done]. }
  rewrite run_bind. cbn [tick]. cbv zeta. rewrite run_bind, run_encrypt_under.
  destruct (encrypt_with_dek _ _ _ _) as [env|] eqn:Henv.
  2:{ split_and!; [by do 3 apply mirror_ticked|done|done]. }
  rewrite run_bind. cbn [on_store modify]. unfold store. rewrite run_bind. cbn [gets].
  rewrite run_bind. cbn [w_store put_store set_deks db_pool ticked].
  rewrite (mi_pool w1 Hm1). cbn [when]. rewrite run_bind. unfold require_uuid. rewrite Hu.
  cbn [mret eff_ret]. rewrite run_bind, (now_v7_canonical (out := out)). cbn [mret eff_ret].
  rewrite run_bind, run_persist. unfold insert_key_descriptor, insert_named_key_descriptor, sql.
  rewrite healthy. cbn [w_db w_tick w_store put_store ticked].
  set (w0 := ticked w1). set (k := out.(now_v7) (S w1.(w_tick))).
  assert (Hm0 : mirror w0) by (by apply mirror_ticked).
  rewrite (dek_insert_ok w1.(w_db)); [|done|done|apply (fresh_id w0), mi_fresh, Hm0].
  set (row := row_of_desc _ _ _ _ _). set (e := {| raw_dek := raw |}).
  set (w5 := {| w_store := _; w_db := _; w_tick := _ |}).
  assert (Hm5 : mirror w5).
  { change (mirror (with_dek w0 k e row (S (S (S (S w1.(w_tick))))))).
    eapply mirror_with_dek; [done|done|done|done|exact Hke| |cbn; lia].
    unfold dek_row. cbn. rewrite Hu. split_and!; try done; [|by eapply keys].
    rewrite Hraw_kek. by repeat eexists. }
  assert (Hx5 : extends w w5).
  { etransitivity; [done|]. split_and!; cbn; [done|set_solver|done]. }
  destruct (calm_publish t k raw w5 Hm5) as (Hm6 & Hx6 & Hs6).
  assert (Hp := publish_always t k raw w5).
  destruct (publish_dek _ _ _ _ _) as [r6 w6]. cbn [fst snd] in *. subst r6.
  split_and!; [done|by transitivity w5|]. intros k' [= <-]. split; [by eexists|].
  exists e. rewrite Hs6. cbn. by rewrite lookup_insert_eq.
Qed.

(** ** Looking keys up *)

Lemma rows_of_id db r u :
  ids_unique db -> r ∈ db.(kdb_rows) -> r.(kr_id) = u -> loadable r = true ->
  order_by version_asc (filter (fun r => r.(kr_id) = u /\ loadable r) db.(kdb_rows)) = [r].
Proof.
  intros Hu Hr Hid Hl. apply Permutation_singleton_r. rewrite order_by_perm.
  apply NoDup_Permutation.
  - apply NoDup_filter. eapply NoDup_fmap_1, Hu.
  - apply NoDup_singleton.
  - intros r'. rewrite list_elem_of_filter, list_elem_of_singleton. split.
    + intros [[Hid' _] Hr']. eapply same_row; [done|done|done|congruence].
    + intros ->. split; [|done]. split; [done|]. by rewrite Hl.
Qed.

Lemma active_loadable r : r.(kr_state) = "active" -> loadable r = true.
Proof. intros Hs. unfold loadable. apply bool_decide_eq_true_2. by left. Qed.

Lemma unwrap_dek s r t kek raw :
  dek_row r t kek raw -> unwrap_dek_row s kek (entry_of_row r) = Some raw.
Proof.
  intros (_ & _ & _ & Hw & Hl). unfold unwrap_dek_row. cbn [pk_wrapped_key pk_key_id entry_of_row].
  rewrite (wraps_open _ _ _ _ Hw). by rewrite (proj2 (Nat.eqb_eq _ _)).
Qed.

Lemma unwrap_kek s r t kek kek' : kek_row r t kek -> unwrap_dek_row s kek' (entry_of_row r) = None.
Proof.
  intros (_ & _ & _ & _ & Hw & _). unfold unwrap_dek_row. cbn [pk_wrapped_key pk_key_id entry_of_row].
  destruct (decrypt_with_dek kek' _ _) as [m|] eqn:Hd;
    [by destruct (wraps_only _ _ _ _ _ _ _ Hw Hd)|].
  unfold transport_unwrap_dek. destruct (root_key s) as [rk|]; [|done]. cbn [mbind result_bind].
  destruct (decrypt_with_dek rk _ _) as [m|] eqn:Hd'; [|done].
  by destruct (wraps_only _ _ _ _ _ _ _ Hw Hd').
Qed.

Lemma unwrap_dead s r t kek : dead_row r t kek -> unwrap_dek_row s kek (entry_of_row r) = None.
Proof.
  intros (_ & _ & _ & kek' & raw & Hne & Hw). unfold unwrap_dek_row.
  cbn [pk_wrapped_key pk_key_id entry_of_row].
  destruct (decrypt_with_dek kek _ _) as [m|] eqn:Hd;
    [by destruct (wraps_only _ _ _ _ _ _ _ Hw Hd)|].
  unfold transport_unwrap_dek. destruct (root_key s) as [rk|]; [|done]. cbn [mbind result_bind].
  destruct (decrypt_with_dek rk _ _) as [m|] eqn:Hd'; [|done].
  by destruct (wraps_only _ _ _ _ _ _ _ Hw Hd').
Qed.

Lemma dead_not_dek r t kek t' raw : dead_row r t kek -> dek_row r t' kek raw -> False.
Proof.
  intros (_ & _ & _ & kek' & raw' & Hne & Hw) (_ & _ & _ & Hw'%wraps_open & _).
  by destruct (wraps_only _ _ _ _ _ _ _ Hw Hw').
Qed.

Lemma mirror_hydrated w k u e :
  mirror w -> uuid_parse k = Ok u -> e.(superseded) = [] ->
  stored w.(w_store).(tenant_keks) w.(w_db) u e.(de_tenant_id) e.(raw_dek) ->
  mirror (put_store w (set_deks w.(w_store) (<[k := e]> w.(w_store).(deks)))).
Proof.
  intros [] Hk Hsup Hst. split; cbn; try done.
  - intros n Hn. destruct (mi_fresh0 n Hn) as [Hd Hdb]. split; [|done]. cbn.
    intros k' [<-|[_ Hs]]%lookup_insert_is_Some; [|by apply Hd].
    rewrite Hk. intros [= ->]. destruct Hst as (r & ke & Hr & Hid & _).
    apply (Hdb (out.(now_v7) n)); [|apply (now_v7_canonical (out := out))].
    rewrite <- Hid. by apply list_elem_of_fmap_2.
  - intros k' e'. destruct (decide (k = k')) as [<-|Hne].
    + rewrite lookup_insert_eq. intros [= <-]. rewrite Hsup. split; [constructor|]. eauto.
    + rewrite lookup_insert_ne by done. apply mi_deks0.
Qed.

Definition holds (w : World) (k t raw : string) : Prop :=
  stored w.(w_store).(tenant_keks) w.(w_db) k t raw.

Lemma hydrate_ok w k :
  mirror w -> w.(w_store).(deks) !! k = None ->
  let '(r, w') := hydrate_dek out debug_str k w in
  mirror w' /\ extends w w' /\ (exists b, r = Ok b)
  /\ forall u t raw, uuid_parse k = Ok u -> holds w u t raw ->
       exists e, w'.(w_store).(deks) !! k = Some e.
Proof.
  intros Hm Hn. unfold hydrate_dek, store. rewrite run_bind. cbn [gets].
  rewrite (mi_pool w Hm). cbn [negb]. destruct (uuid_parse k) as [u|err] eqn:Hu.
  2:{ split_and!; [done|done|by eexists|done]. }
  rewrite run_bind, run_query. unfold get_key_versions_with_wrapped_key, sql. rewrite healthy.
  destruct (decide (Exists (fun r => r.(kr_id) = u) w.(w_db).(kdb_rows))) as [Hex|Hnex].
  - apply Exists_exists in Hex as (r & Hr & Hid).
    destruct (mi_rows w Hm r Hr) as (_ & t & ke & Hke & Hrow).
    assert (Hact : loadable r = true /\ r.(kr_tenant_id) = Some t)
      by (destruct Hrow as [(_ & ? & ? & _)|[(raw & _ & ? & ? & _)|(_ & ? & ? & _)]]; [|done|done];
          split; [by apply active_loadable|done]).
    destruct Hact as [Hact Hrt].
    rewrite (rows_of_id _ r u) by (done || exact (mi_unique w Hm)).
    cbn [fmap list_fmap head mbind option_bind pk_tenant_id entry_of_row]. rewrite Hrt.
    rewrite run_bind. unfold get_or_create_tenant_kek, store. rewrite run_bind. cbn [gets].
    cbn [w_store ticked]. rewrite Hke. cbn [mret eff_ret]. rewrite run_bind. cbn [gets].
    unfold hydrate_version. cbn [omap list_omap].
    destruct Hrow as [Hkr|[(raw & Hdr)|Hdead]].
    + rewrite (unwrap_kek _ _ _ _ _ Hkr). cbn. split_and!; [by apply mirror_ticked|done|by eexists|].
      intros u' t' raw [= <-] (r' & e' & Hr' & Hid' & _ & Hdr).
      assert (r = r') as <- by (eapply same_row; [by apply mi_unique|done|done|congruence]).
      by destruct (purposes_differ _ _ _ _ _ _ Hkr Hdr).
    + rewrite (unwrap_dek _ _ _ _ _ Hdr). cbn [mbind option_bind last removelast].
      rewrite run_bind. cbn [on_store modify mret eff_ret].
      split_and!; [|done|by eexists|].
      * eapply (mirror_hydrated (ticked w)); [by apply mirror_ticked|done|done|].
        exists r, ke. cbn. done.
      * intros. eexists. cbn. by rewrite lookup_insert_eq.
    + rewrite (unwrap_dead _ _ _ _ Hdead). cbn. split_and!; [by apply mirror_ticked|done|by eexists|].
      intros u' t' raw [= <-] (r' & e' & Hr' & Hid' & He' & Hdr).
      assert (r = r') as <- by (eapply same_row; [by apply mi_unique|done|done|congruence]).
      destruct (dead_not_dek r t ke.(raw_kek) t' raw Hdead). by replace ke with e'
        by (destruct Hdr as (_ & ? & _); congruence).
  - assert (Hnil : filter (fun r => r.(kr_id) = u /\ loadable r) w.(w_db).(kdb_rows) = []).
    { destruct (filter _ _) as [|r l] eqn:Hf; [done|].
      assert (Hr : r ∈ r :: l) by set_solver. rewrite <- Hf in Hr.
      apply list_elem_of_filter in Hr as [[Hid _] Hr]. destruct Hnex. apply Exists_exists. eauto. }
    rewrite Hnil. cbn. split_and!; [by apply mirror_ticked|done|by eexists|].
    intros u' t raw [= <-] (r & e & Hr & Hid & _). destruct Hnex. apply Exists_exists. eauto.
Qed.

Lemma find_ok w k :
  mirror w ->
  let '(r, w') := find_dek out debug_str k w in
  mirror w' /\ extends w w' /\ (forall e, r = Ok e -> w'.(w_store).(deks) !! k = Some e)
  /\ forall u t raw, uuid_parse k = Ok u -> holds w u t raw ->
       exists e, r = Ok e /\ e.(de_tenant_id) = t /\ e.(raw_dek) = raw
         /\ Forall (eq raw) e.(superseded).
Proof.
  intros Hm. unfold find_dek, store. rewrite run_bind. cbn [gets]. rewrite run_bind.
  assert (Hentry : forall w' e u t raw, mirror w' -> extends w w' ->
    w'.(w_store).(deks) !! k = Some e -> uuid_parse k = Ok u -> holds w u t raw ->
    e.(de_tenant_id) = t /\ e.(raw_dek) = raw /\ Forall (eq raw) e.(superseded)).
  { intros w' e u t raw Hm' (Hxk & Hxr & _) He Hu Hst.
    destruct (mi_deks w' Hm' k e He) as [Hsup (u' & Hu' & Hst')].
    assert (u' = u) as -> by congruence.
    destruct (stored_unique _ _ _ _ _ _ _ (mi_unique w' Hm') Hst' (stored_mono _ _ _ _ _ _ _ Hxk Hxr Hst))
      as [-> <-]. done. }
  case_bool_decide as Hin.
  - cbn [mret eff_ret]. rewrite run_bind. cbn [gets lift]. destruct Hin as [e He]. rewrite He.
    cbn [ok_or]. split_and!; [done|done|by intros e' [= <-]|]. intros u t raw Hu Hst.
    exists e. split; [done|]. by eapply (Hentry w).
  - assert (Hh := hydrate_ok w k Hm (proj2 (eq_None_not_Some _) Hin)).
    destruct (hydrate_dek _ _ _ _) as [r w']. destruct Hh as (Hm' & Hx & [b ->] & Hld).
    rewrite run_bind. cbn [gets lift]. split_and!; [done|done| |].
    + intros e. destruct (w'.(w_store).(deks) !! k) as [e'|]; cbn; congruence.
    + intros u t raw Hu Hst. destruct (Hld u t raw Hu Hst) as [e He]. rewrite He. cbn.
      exists e. split; [done|]. by eapply (Hentry w').
Qed.

(** ** Requests *)

Lemma mirror_current w w' :
  mirror w -> minted out w' -> w'.(w_db) = w.(w_db) -> w'.(w_tick) = w.(w_tick) ->
  (exists m, w'.(w_store) = set_current w.(w_store) m) -> mirror w'.
Proof.
  intros [] Hc Hd Ht [m Hs]. split; try rewrite Hd; try rewrite Hs; cbn; try done.
  intros n Hn. rewrite Hs, Hd. cbn. apply mi_fresh0. congruence.
Qed.

Lemma take_ok w t : mirror w -> mirror (take_current t w).2 /\ extends w (take_current t w).2.
Proof.
  intros Hm. destruct (take_current_minted out t w (mi_current w Hm)) as [Hc _].
  unfold take_current in *. destruct (_ !! t) as [c|]; [|done]. destruct (_ <? _); [|done].
  split; [|done]. eapply mirror_current; [done|exact Hc|done|done|by eexists].
Qed.

Lemma current_ok w t :
  mirror w -> known w t ->
  mirror (current_dek_for_encrypt out debug_str t w).2
  /\ extends w (current_dek_for_encrypt out debug_str t w).2.
Proof.
  intros Hm Hk. unfold current_dek_for_encrypt. rewrite run_bind.
  destruct (take_ok w t Hm) as [Hm1 Hx1]. destruct (take_current t w) as [[[k|]|e] w1];
    cbn [snd] in *; [done| |done].
  rewrite run_bind. assert (Hg := generate_ok w1 t Hm1 (known_extends _ _ _ Hx1 Hk)).
  destruct (generate_and_store_dek _ _ _ _) as [[k|e] w2]; destruct Hg as (Hm2 & Hx2 & Hk2);
    [|split; [done|by transitivity w1]].
  destruct (Hk2 k eq_refl) as [[n ->] _].
  destruct (adopt_minted out t n w2 (mi_current w2 Hm2)) as [Hc _].
  unfold adopt_current in *. rewrite run_bind in *. destruct (take_ok w2 t Hm2) as [Hm3 Hx3].
  destruct (take_current t w2) as [[[k|]|e] w3]; cbn [snd] in *.
  - split; [done|]. transitivity w1; [done|by transitivity w2].
  - rewrite run_bind in *. cbn [on_store modify mret eff_ret snd] in *. split.
    + eapply mirror_current; [exact Hm3|exact Hc|done|done|by eexists].
    + transitivity w1; [done|]. transitivity w2; [done|]. exact Hx3.
  - split; [done|]. transitivity w1; [done|by transitivity w2].
Qed.

(** ** Warm loading *)

(** A KEK row puts the tenant's KEK in place. *)
Lemma load_kek_row_ok m r t kek :
  kek_row r t kek ->
  exists e, load_kek_row root m (entry_of_row r) = <[t := e]> m /\ e.(raw_kek) = kek.
Proof.
  intros (_ & Ht & _ & _ & Hw & Hl). unfold load_kek_row. cbn [pk_tenant_id pk_wrapped_key entry_of_row].
  rewrite Ht, (wraps_open _ _ _ _ Hw), (proj2 (Nat.eqb_eq _ _) Hl). cbn. by eexists.
Qed.

Lemma load_keks_ok K rows m :
  (forall r, r ∈ rows -> exists t e, K !! t = Some e /\ kek_row r t e.(raw_kek)) ->
  keks_le m K ->
  let m' := foldl (load_kek_row root) m (entry_of_row <$> rows) in
  keks_le m' K /\ keks_le m m'
  /\ forall r t e, r ∈ rows -> K !! t = Some e -> kek_row r t e.(raw_kek) ->
       exists e', m' !! t = Some e' /\ e'.(raw_kek) = e.(raw_kek).
Proof.
  revert m. induction rows as [|r rows IH]; intros m Hrows Hm; cbn.
  { split_and!; [done|done|set_solver]. }
  destruct (Hrows r) as (t & e & He & Hr); [set_solver|].
  destruct (load_kek_row_ok m r t _ Hr) as (e1 & Hload & Hraw). rewrite Hload.
  assert (Hm1 : keks_le (<[t:=e1]> m) K).
  { intros t' e'. destruct (decide (t = t')) as [<-|Hne].
    - rewrite lookup_insert_eq. intros [= <-]. exists e. split; [done|congruence].
    - rewrite lookup_insert_ne by done. apply Hm. }
  assert (Hmm1 : keks_le m (<[t:=e1]> m)).
  { intros t' e' He'. destruct (decide (t = t')) as [<-|Hne].
    - rewrite lookup_insert_eq. exists e1. split; [done|]. destruct (Hm _ _ He') as (e2 & He2 & Hr2).
      congruence.
    - rewrite lookup_insert_ne by done. eauto. }
  destruct (IH _ ltac:(set_solver) Hm1) as (Hle & Hle' & Hin).
  split_and!; [done|by transitivity (<[t:=e1]> m)|].
  intros r' t' e' [->|Hr']%elem_of_cons He' Hkr; [|by eapply Hin].
  assert (t' = t) as -> by (destruct Hr as (_ & ? & _), Hkr as (_ & ? & _); congruence).
  destruct (Hle' t e1) as (e2 & He2 & Hraw2); [by rewrite lookup_insert_eq|].
  exists e2. split; [done|congruence].
Qed.

Definition deks_ok (K : gmap string TenantKekEntry) (db : KeyDb) (m : gmap string DekEntry) : Prop :=
  forall k e, m !! k = Some e ->
    Forall (eq e.(raw_dek)) e.(superseded)
    /\ exists u, uuid_parse k = Ok u /\ stored K db u e.(de_tenant_id) e.(raw_dek).

(** A data key row adds its key, or repeats the one that is there. *)
Lemma load_dek_row_ok s K db m r t e raw :
  ids_unique db -> r ∈ db.(kdb_rows) -> uuid_parse r.(kr_id) = Ok r.(kr_id) ->
  K !! t = Some e -> dek_row r t e.(raw_kek) raw ->
  deks_ok K db m -> deks_ok K db (load_dek_row s K m (entry_of_row r)).
Proof.
  intros Hu Hr Hc He Hrow Hm. assert (Hst : stored K db r.(kr_id) t raw) by (exists r, e; done).
  unfold load_dek_row. cbn [pk_tenant_id pk_key_id entry_of_row].
  assert (Ht := Hrow). destruct Ht as (_ & Ht & _). rewrite Ht, He.
  change (unwrap_dek_row s (raw_kek e) _) with (unwrap_dek_row s (raw_kek e) (entry_of_row r)).
  rewrite (unwrap_dek _ _ _ _ _ Hrow).
  destruct (m !! kr_id r) as [ex|] eqn:Hex; intros k d;
    (destruct (decide (kr_id r = k)) as [<-|Hne];
     [rewrite lookup_insert_eq; intros [= <-]|rewrite lookup_insert_ne by done; apply Hm]).
  - destruct (Hm _ _ Hex) as [Hsup (u & Huu & Hst')]. assert (u = kr_id r) as -> by congruence.
    destruct (stored_unique _ _ _ _ _ _ _ Hu Hst Hst') as [-> ->]. cbn. split.
    + apply Forall_app. split; [done|by constructor].
    + eauto.
  - cbn. split; [constructor|]. eauto.
Qed.

Lemma load_dead_row s K m r t e :
  K !! t = Some e -> dead_row r t e.(raw_kek) -> load_dek_row s K m (entry_of_row r) = m.
Proof.
  intros He Hrow. unfold load_dek_row. cbn [pk_tenant_id entry_of_row].
  assert (Ht := Hrow). destruct Ht as (_ & Ht & _). rewrite Ht, He.
  change (unwrap_dek_row s (raw_kek e) _) with (unwrap_dek_row s (raw_kek e) (entry_of_row r)).
  by rewrite (unwrap_dead _ _ _ _ Hrow).
Qed.

Lemma load_deks_ok s K db rows m :
  ids_unique db -> (forall r, r ∈ rows -> r ∈ db.(kdb_rows) /\ uuid_parse r.(kr_id) = Ok r.(kr_id)
    /\ exists t e, K !! t = Some e
         /\ ((exists raw, dek_row r t e.(raw_kek) raw) \/ dead_row r t e.(raw_kek))) ->
  deks_ok K db m -> deks_ok K db (foldl (load_dek_row s K) m (entry_of_row <$> rows)).
Proof.
  intros Hu. revert m. induction rows as [|r rows IH]; intros m Hrows Hm; [done|]. cbn.
  destruct (Hrows r) as (Hr & Hc & t & e & He & [[raw Hrow]|Hdead]); [set_solver| |].
  - apply IH; [set_solver|]. by eapply load_dek_row_ok.
  - apply IH; [set_solver|]. by rewrite (load_dead_row _ _ _ _ t e).
Qed.

Lemma deks_ok_mono K K' db m : keks_le K K' -> deks_ok K db m -> deks_ok K' db m.
Proof.
  intros Hle Hm k e He. destruct (Hm k e He) as [Hs (u & Hu & Hst)]. split; [done|].
  exists u. split; [done|]. by eapply stored_mono.
Qed.

(** The rows a purpose selects. *)
Lemma selected_rows db p r :
  r ∈ filter (fun r => r.(kr_purpose) = purpose_str p /\ loadable r) db.(kdb_rows) ->
  r ∈ db.(kdb_rows) /\ r.(kr_purpose) = purpose_str p.
Proof. intros [[Hp _] Hr]%list_elem_of_filter. done. Qed.

Lemma kek_rows_all db :
  len db.(kdb_rows) <= I64_MAX ->
  exists rows, list_active_keys_with_wrapped_key None db TenantKek = Ok (entry_of_row <$> rows)
    /\ forall r, r ∈ rows <-> r ∈ filter (fun r => r.(kr_purpose) = purpose_str TenantKek /\ loadable r)
                                      db.(kdb_rows).
Proof.
  intros Hlen. unfold list_active_keys_with_wrapped_key, list_loadable_keys_with_wrapped_key,
    list_recent_loadable_keys, sql. eexists. split; [done|]. intros r.
  rewrite order_by_perm, limit_all, order_by_perm; [done|].
  set (l := filter _ _). transitivity (len db.(kdb_rows)); [|done]. unfold len.
  rewrite order_by_perm. apply inj_le, length_filter.
Qed.

Lemma dek_rows_some db :
  exists rows, list_recent_loadable_keys None db DataEncryption WARM_LOAD_DEK_LIMIT
                 = Ok (entry_of_row <$> rows)
    /\ forall r, r ∈ rows -> r ∈ db.(kdb_rows) /\ r.(kr_purpose) = purpose_str DataEncryption.
Proof.
  unfold list_recent_loadable_keys, sql. eexists. split; [done|]. intros r.
  rewrite order_by_perm. intros Hr%(sublist_subseteq _ _ (limit_sublist _ _)).
  rewrite order_by_perm in Hr. by apply selected_rows.
Qed.

Lemma load_ok w K :
  w.(w_store).(db_pool) = true -> w.(w_store).(ks_seal).(held_root_key) = Some root ->
  fresh_ids out w -> minted out w -> ids_unique w.(w_db) ->
  (forall r, r ∈ w.(w_db).(kdb_rows) -> row_ok K r) ->
  (forall t e, K !! t = Some e -> exists r, r ∈ w.(w_db).(kdb_rows) /\ kek_row r t e.(raw_kek)) ->
  keks_le w.(w_store).(tenant_keks) K -> deks_ok K w.(w_db) w.(w_store).(deks) ->
  len w.(w_db).(kdb_rows) <= I64_MAX ->
  mirror (load_from_db out w).2 /\ keks_le K (load_from_db out w).2.(w_store).(tenant_keks)
  /\ (load_from_db out w).2.(w_db) = w.(w_db).
Proof.
  intros Hpool Hroot Hfresh Hmint Hu Hrows Hkeks Hle Hdeks Hlen.
  assert (Hf' := keeps_load out debug_str w Hfresh).
  assert (Hc' := same_current_load out w).
  unfold load_from_db, store in *. rewrite run_bind in *. cbn [gets] in *. rewrite Hpool in *.
  cbn [negb] in *. rewrite run_bind in *. unfold lift, root_key in *. rewrite Hroot in *.
  cbn [ok_or] in *. rewrite run_bind, run_query, healthy in *.
  destruct (kek_rows_all _ Hlen) as (krows & Hkr & Hkin). rewrite Hkr in *.
  rewrite run_bind in *. cbn [on_store modify] in *. rewrite run_bind, run_query, healthy in *.
  cbn [w_db put_store ticked] in *. destruct (dek_rows_some w.(w_db)) as (drows & Hdr & Hdin).
  rewrite Hdr in *. cbn [snd w_store put_store set_keks tenant_keks ks_seal deks ticked] in *.
  assert (Hkrow : forall r, r ∈ krows -> exists t e, K !! t = Some e /\ kek_row r t e.(raw_kek)).
  { intros r [Hr Hp]%Hkin%selected_rows.
    destruct (Hrows r Hr) as (_ & t & e & He & [Hk|[(raw & Hp' & _)|(Hp' & _)]]); [by exists t, e| |];
      rewrite Hp in Hp'; by apply purpose_str_inj in Hp'. }
  destruct (load_keks_ok K krows _ Hkrow Hle) as (HmK & _ & Hkin').
  set (K' := foldl (load_kek_row root) _ _) in *.
  assert (HKm : keks_le K K').
  { intros t e He. destruct (Hkeks t e He) as (r & Hr & Hk). eapply Hkin'; [|done|done].
    apply Hkin, list_elem_of_filter. destruct Hk as (Hp & _ & Ha & _). split; [|done].
    split; [done|]. by rewrite active_loadable. }
  assert (Hrows' : forall r, r ∈ w.(w_db).(kdb_rows) -> row_ok K' r)
    by (intros r Hr; eapply row_ok_mono; [exact HKm|by apply Hrows]).
  split_and!; [|done|done]. split; cbn; try done.
  - intros k. rewrite Hroot. congruence.
  - apply Hf'.
  - intros t e He. destruct (HmK t e He) as (e' & He' & <-). by apply Hkeks.
  - apply (load_deks_ok _ K' w.(w_db) drows); [done| |by eapply deks_ok_mono].
    intros r [Hr Hp]%Hdin. split; [done|]. destruct (Hrows' r Hr) as (Hc & t & e & He & [Hk|Hd]).
    + destruct Hk as (Hp' & _). rewrite Hp in Hp'. by apply purpose_str_inj in Hp'.
    + split; [done|]. by exists t, e.
Qed.

(** ** Runs with restarts *)

Inductive dstep : World -> World -> Prop :=
| d_encrypt t p a w : known w t -> dstep w (encrypt out debug_str t p a w).2
| d_decrypt t c a w : dstep w (decrypt out debug_str t c a w).2
| d_generate t c w : known w t -> dstep w (generate_dek out debug_str t c w).2
| d_seal s w : (forall k, s.(held_root_key) = Some k -> k = root) ->
    dstep w (put_store w (set_seal w.(w_store) s))
| d_reload w : w.(w_store).(ks_seal).(held_root_key) = Some root ->
    len w.(w_db).(kdb_rows) <= I64_MAX -> dstep w (load_from_db out w).2
| d_restart s n w : s.(held_root_key) = Some root -> (w.(w_tick) <= n)%nat ->
    len w.(w_db).(kdb_rows) <= I64_MAX ->
    dstep w (load_from_db out {| w_store := with_seal s; w_db := w.(w_db); w_tick := n |}).2.

Lemma get_dek_ok w k t :
  mirror w -> mirror (get_dek out debug_str k t w).2 /\ extends w (get_dek out debug_str k t w).2.
Proof.
  intros Hm. unfold get_dek. rewrite run_bind. assert (Hf := find_ok w k Hm).
  destruct (find_dek _ _ _ _) as [[e|err] w1]; destruct Hf as (Hm1 & Hx & _); [|done].
  by case_bool_decide.
Qed.

Lemma encrypt_mirror w t p a :
  mirror w -> known w t ->
  mirror (encrypt out debug_str t p a w).2 /\ extends w (encrypt out debug_str t p a w).2.
Proof.
  intros Hm Hk. unfold encrypt. rewrite run_bind. unfold require_non_empty.
  destruct (Str.is_empty (Str.trim t)); [done|]. cbn [mret eff_ret].
  destruct (Str.is_empty p); [done|]. rewrite run_bind, run_rpc.
  destruct (current_ok w t Hm Hk) as [Hm1 Hx1].
  destruct (current_dek_for_encrypt _ _ _ _) as [[k|e] w1]; cbn [snd] in *; [|done].
  rewrite run_bind, run_rpc. destruct (get_dek_ok w1 k t Hm1) as [Hm2 Hx2].
  destruct (get_dek _ _ _ _ _) as [[d|e] w2]; cbn [snd] in *; [|split; [done|by transitivity w1]].
  rewrite run_bind, run_rpc, run_encrypt_under.
  assert (Hx : extends w (ticked w2)) by (transitivity w1; [done|by transitivity w2]).
  destruct (encrypt_with_dek _ _ _ _); (split; [by apply mirror_ticked|done]).
Qed.

Lemma decrypt_mirror w t c a :
  mirror w -> mirror (decrypt out debug_str t c a w).2 /\ extends w (decrypt out debug_str t c a w).2.
Proof.
  intros Hm. unfold decrypt. rewrite run_bind. unfold require_non_empty.
  destruct (Str.is_empty (Str.trim t)); [done|]. cbn [mret eff_ret].
  destruct (Str.split_once _ _) as [[k ct]|]; [|done]. rewrite run_bind.
  destruct (Str.is_empty (Str.trim k)); [done|]. cbn [mret eff_ret]. rewrite run_bind.
  destruct (Str.is_empty (Str.trim ct)); [done|]. cbn [mret eff_ret]. rewrite run_bind.
  unfold rpc, get_dek_chain. rewrite run_bind. assert (Hf := find_ok w k Hm).
  destruct (find_dek _ _ _ _) as [[e|err] w1]; destruct Hf as (Hm1 & Hx & _); [|done].
  by case_bool_decide.
Qed.

Lemma generate_mirror w t c :
  mirror w -> known w t ->
  mirror (generate_dek out debug_str t c w).2 /\ extends w (generate_dek out debug_str t c w).2.
Proof.
  intros Hm Hk. unfold generate_dek. rewrite run_bind. unfold require_non_empty.
  destruct (Str.is_empty (Str.trim t)); [done|]. cbn [mret eff_ret]. rewrite run_bind.
  destruct (Str.is_empty (Str.trim c)); [done|]. cbn [mret eff_ret]. rewrite run_bind.
  unfold rpc. assert (Hg := generate_ok w t Hm Hk).
  destruct (generate_and_store_dek _ _ _ _) as [[k|e] w1]; destruct Hg as (Hm1 & Hx1 & _); [|done].
  rewrite run_bind. unfold get_dek_metadata, store. rewrite run_bind. cbn [gets].
  rewrite run_bind. unfold lift. destruct (_ !! k) as [d|]; cbn [ok_or]; [|done].
  by case_bool_decide.
Qed.

Lemma deks_ok_mirror w : mirror w -> deks_ok w.(w_store).(tenant_keks) w.(w_db) w.(w_store).(deks).
Proof. intros Hm k e. apply (mi_deks w Hm). Qed.

Lemma dstep_mirror w w' : dstep w w' -> mirror w -> mirror w' /\ extends w w'.
Proof.
  intros Hs Hm. destruct Hs as [t p a w Hk|t c a w|t c w Hk|s w Hs|w Hr Hl|s n w Hr Hn Hl].
  - by apply encrypt_mirror.
  - by apply decrypt_mirror.
  - by apply generate_mirror.
  - split; [|done]. destruct Hm. split; cbn; try done.
  - destruct (load_ok w w.(w_store).(tenant_keks)) as (Hm' & Hle & Hdb);
      try done; try reflexivity; try apply Hm; [by apply deks_ok_mirror|].
    split; [done|]. split_and!; [done| |]; by rewrite Hdb.
  - destruct (load_ok {| w_store := with_seal s; w_db := w.(w_db); w_tick := n |}
                w.(w_store).(tenant_keks)) as (Hm' & Hle & Hdb); try done; try apply Hm.
    + intros m Hmn. cbn in *. split.
      * intros k. rewrite lookup_empty. intros Hx. by apply is_Some_None in Hx.
      * apply (mi_fresh w Hm). lia.
    + split; [done|]. split_and!; [done| |]; by rewrite Hdb.
Qed.

Lemma run_mirror w w' : rtc dstep w w' -> mirror w -> mirror w' /\ extends w w'.
Proof.
  induction 1 as [w|w1 w2 w3 Hs _ IH]; intros Hm; [done|].
  destruct (dstep_mirror _ _ Hs Hm) as [Hm2 Hx]. destruct (IH Hm2) as [Hm3 Hx'].
  split; [done|by transitivity w2].
Qed.

Lemma holds_extends w w' k t raw : extends w w' -> holds w k t raw -> holds w' k t raw.
Proof. intros (Hk & Hr & _). by apply stored_mono. Qed.

(** An empty table and a process just started. *)
Lemma start_mirror s n tenants events seal :
  s.(held_root_key) = Some root ->
  mirror {| w_store := with_seal s; w_tick := n;
            w_db := {| kdb_rows := []; kdb_tenants := tenants; kdb_events := events;
                       kdb_seal := seal |} |}.
Proof.
  intros Hr. split; cbn; try done.
  - intros k. rewrite Hr. congruence.
  - intros m _. cbn. split; [|set_solver]. intros k. rewrite lookup_empty. intros Hx.
    by apply is_Some_None in Hx.
  - constructor.
  - set_solver.
Qed.

(** Past the checks of its arguments, [decrypt] is a walk along the chain. *)
Lemma run_decrypt w t k ct a :
  Str.is_empty (Str.trim t) = false -> uuid_parse k = Ok k -> Str.is_empty (Str.trim ct) = false ->
  decrypt out debug_str t (k +:+ ":" +:+ ct) a w =
  (chain ← rpc (get_dek_chain out debug_str k t);
   lift (ok_or (try_chain chain ct a) (vault_error_to_status DecryptionFailed))) w.
Proof.
  intros Ht Hu Hct. unfold decrypt. rewrite run_bind. unfold require_non_empty.
  rewrite Ht. cbn [mret eff_ret]. rewrite combined_split by (by eapply (uuid_no_colon (out := out))).
  rewrite run_bind, (Str.trim_id k) by (by eapply (uuid_visible (out := out))).
  unfold Str.is_empty at 1. rewrite bool_decide_eq_false_2 by (by eapply (uuid_nonempty (out := out))).
  cbn [mret eff_ret]. by rewrite run_bind, Hct.
Qed.

(** A stored key is found, and every key of its chain is that one. *)
Lemma decrypt_stored w t k ct a raw :
  mirror w -> Str.is_empty (Str.trim t) = false -> uuid_parse k = Ok k ->
  Str.is_empty (Str.trim ct) = false -> holds w k t raw ->
  exists chain, raw ∈ chain /\ Forall (eq raw) chain
    /\ (decrypt out debug_str t (k +:+ ":" +:+ ct) a w).1
       = ok_or (try_chain chain ct a) (InternalStatus "decryption operation failed").
Proof.
  intros Hm Ht Hu Hct Hst. rewrite run_decrypt, run_bind, run_rpc by done. unfold get_dek_chain. rewrite run_bind. assert (Hf := find_ok w k Hm).
  destruct (find_dek _ _ _ _) as [r w1]. destruct Hf as (_ & _ & _ & Hf).
  destruct (Hf k t raw Hu Hst) as (e & -> & Hte & Hraw & Hsup).
  rewrite bool_decide_eq_false_2 by (intros Hne; done). cbn [mret eff_ret lift fst].
  exists (chain_of e). unfold chain_of. rewrite Hraw. split_and!; [set_solver| |done].
  constructor; [done|by apply Forall_reverse].
Qed.

(** C11. An encryption that was acknowledged can be decrypted after any number
    of further requests, warm loads, seals and restarts, also when its key is not
    among those loaded at start and has to be fetched on demand. Every statement
    succeeds, tenants are known under their canonical ids, and no key is rotated;
    the next two theorems are about runs without these provisos. *)
Theorem acknowledged_survives_restarts s n tenants t p a w r w1 w2 :
  s.(held_root_key) = Some root ->
  rtc dstep {| w_store := with_seal s; w_tick := n;
               w_db := {| kdb_rows := []; kdb_tenants := tenants; kdb_events := [];
                          kdb_seal := None |} |} w ->
  known w t -> encrypt out debug_str t p a w = (Ok r, w1) -> rtc dstep w1 w2 ->
  (decrypt out debug_str t (r.(er_dek_id) +:+ ":" +:+ r.(er_ciphertext_b64)) a w2).1 = Ok p.
Proof.
  intros Hroot Hrun Hk He Hrun2.
  destruct (run_mirror _ _ Hrun (start_mirror _ _ _ _ _ Hroot)) as [Hm _].
  destruct (encrypt_mirror w t p a Hm Hk) as [Hm1 _]. rewrite He in Hm1. cbn [snd] in Hm1.
  destruct (encrypt_ok out debug_str _ _ _ _ _ _ (mi_current w Hm) He)
    as (Ht & [m Hid] & e & n' & env & Hd & Hte & Henv & Hct).
  destruct (mi_deks w1 Hm1 _ _ Hd) as [_ (u & Hu & Hst)].
  destruct (run_mirror _ _ Hrun2 Hm1) as [Hm2 Hx]. apply (holds_extends _ _ _ _ _ Hx) in Hst.
  assert (Hcanon := now_v7_canonical (out := out) m). rewrite <- Hid in Hcanon.
  assert (u = r.(er_dek_id)) as -> by congruence. rewrite Hte in Hst.
  destruct (envelope_text _ _ _ _ _ (nonces n') Henv) as [Htrim Hne].
  assert (Hw : wraps e.(raw_dek) p a r.(er_ciphertext_b64)) by (by exists n', env).
  destruct (decrypt_stored w2 t r.(er_dek_id) r.(er_ciphertext_b64) a e.(raw_dek))
    as (chain & Hin & _ & ->); try done.
  - rewrite Hct, Htrim. by apply bool_decide_eq_false_2.
  - rewrite (try_chain_finds e.(raw_dek) _ _ p); [done|done|by apply wraps_open|].
    intros x m' Hxx. by destruct (wraps_only _ _ _ _ _ _ _ Hw Hxx).
Qed.

(** ** Rotation *)

Lemma cached_kek w k e :
  mirror w -> w.(w_store).(deks) !! k = Some e ->
  exists ke, w.(w_store).(tenant_keks) !! e.(de_tenant_id) = Some ke.
Proof. intros Hm He. destruct (mi_deks w Hm k e He) as [_ (u & _ & r & ke & _ & _ & Hke & _)]. eauto. Qed.

(** With a database a rotation fails at the primary key, after the cached key
    was replaced and the old row was marked. *)
Lemma rotate_fails w k e :
  mirror w -> w.(w_store).(deks) !! k = Some e -> uuid_parse k = Ok k -> known w e.(de_tenant_id) ->
  let '(r, w') := rotate_dek out debug_str e.(de_tenant_id) k w in
  (exists err, r = Err err) /\ (w.(w_tick) <= w'.(w_tick))%nat
  /\ (w'.(w_db).(kdb_rows) = w.(w_db).(kdb_rows)
      \/ exists now, w'.(w_db).(kdb_rows) = set_state now k RotatingOut <$> w.(w_db).(kdb_rows)).
Proof.
  intros Hm He Hk [Hu Ht]. destruct (cached_kek w k e Hm He) as [ke Hke].
  unfold rotate_dek, store. rewrite run_bind. cbn [gets]. rewrite run_bind. unfold lift at 1.
  rewrite He. cbn [ok_or]. rewrite bool_decide_eq_false_2 by (intros Hx; done).
  rewrite run_bind. unfold get_or_create_tenant_kek, store. rewrite run_bind. cbn [gets].
  rewrite Hke. cbn [mret eff_ret]. rewrite run_bind, run_random.
  destruct (key_rng _ _) as [raw|]; [|split_and!; [by eexists|cbn; lia|by left]].
  rewrite run_bind, run_encrypt_under. destruct (encrypt_with_dek _ _ _ _) as [env|];
    [|split_and!; [by eexists|cbn; lia|by left]].
  rewrite run_bind. cbn [gets]. rewrite run_bind. unfold lift. cbn [w_store ticked]. rewrite He.
  cbn [ok_or]. rewrite run_bind. cbn [on_store modify]. rewrite run_bind.
  rewrite (mi_pool w Hm). cbn [when]. rewrite run_bind. unfold require_uuid. rewrite Hk.
  cbn [mret eff_ret]. rewrite run_bind, Hu. cbn [mret eff_ret]. rewrite run_bind. unfold map_err at 1.
  rewrite run_exec. cbv beta. unfold update_key_state, sql. rewrite healthy.
  rewrite run_persist. unfold insert_key_descriptor, insert_named_key_descriptor, sql.
  rewrite healthy. cbn [w_db w_tick w_store put_store ticked with_rows].
  set (rows := set_state _ _ _ <$> _). unfold violated.
  rewrite bool_decide_eq_true_2.
  { split_and!; [by eexists|cbn; lia|]. right. by eexists. }
  cbn. destruct (mi_deks w Hm k e He) as [_ (u & Hu' & r & ke' & Hr & Hid & _)].
  unfold rows. rewrite <- list_fmap_compose.
  apply list_elem_of_fmap. exists r. split; [|done]. cbn. rewrite set_state_id. congruence.
Qed.

(** The table still reads as before the rotation. *)
Lemma rows_after_rotation K now k (rows : list KeyRow) t kek raw :
  (forall r, r ∈ rows -> row_ok K r) ->
  (forall r, r ∈ rows -> r.(kr_id) = k -> dek_row r t kek raw) ->
  (forall r, r ∈ set_state now k RotatingOut <$> rows -> row_ok K r)
  /\ (forall r t' kek', r ∈ rows -> kek_row r t' kek' -> r ∈ set_state now k RotatingOut <$> rows)
  /\ (forall r t' kek' raw', r ∈ rows -> dek_row r t' kek' raw' ->
        dek_row (set_state now k RotatingOut r) t' kek' raw').
Proof.
  intros Hrows Hk. assert (Hdek : forall r t' kek' raw', r ∈ rows -> dek_row r t' kek' raw' ->
        dek_row (set_state now k RotatingOut r) t' kek' raw').
  { intros r t' kek' raw' Hr (Hp & Ht & Hl & Hw & Hlen). unfold set_state.
    case_bool_decide; [|by split_and!]. unfold dek_row. cbn. split_and!; done. }
  assert (Hkek : forall r t' kek', r ∈ rows -> kek_row r t' kek' -> set_state now k RotatingOut r = r).
  { intros r t' kek' Hr Hkr. unfold set_state. case_bool_decide as Hid; [|done].
    destruct (purposes_differ _ _ _ _ _ _ Hkr (Hk r Hr Hid)). }
  split_and!; [| |done].
  - intros r (r0 & -> & Hr0)%list_elem_of_fmap. destruct (Hrows r0 Hr0) as (Hc & t' & e & He & Hrow).
    split; [by rewrite set_state_id|]. exists t', e. split; [done|].
    destruct Hrow as [Hkr|[[raw' Hdr]|Hdead]]; [left; by rewrite (Hkek r0 t' _ Hr0 Hkr)| |].
    + right; left. exists raw'. by apply Hdek.
    + right; right. destruct Hdead as (Hp & Ht & Hl & Hw). unfold set_state.
      case_bool_decide; [|by split_and!]. unfold dead_row. cbn. by split_and!.
  - intros r t' kek' Hr Hkr. apply list_elem_of_fmap. exists r.
    by rewrite (Hkek r t' kek' Hr Hkr).
Qed.

(** A restart on a table that reads well gives a mirror of it. *)
Lemma restart_ok K db s n :
  s.(held_root_key) = Some root -> ids_unique db -> (forall r, r ∈ db.(kdb_rows) -> row_ok K r) ->
  (forall t e, K !! t = Some e -> exists r, r ∈ db.(kdb_rows) /\ kek_row r t e.(raw_kek)) ->
  (forall m, (n <= m)%nat -> forall k, k ∈ kr_id <$> db.(kdb_rows) -> uuid_parse k <> Ok (out.(now_v7) m)) ->
  len db.(kdb_rows) <= I64_MAX ->
  let w := (load_from_db out {| w_store := with_seal s; w_db := db; w_tick := n |}).2 in
  mirror w /\ keks_le K w.(w_store).(tenant_keks) /\ w.(w_db) = db.
Proof.
  intros Hr Hu Hrows Hkeks Hf Hl. apply (load_ok {| w_store := with_seal s; w_db := db; w_tick := n |} K); cbn; try done.
  intros m Hm. cbn. split; [|by apply Hf]. intros k. rewrite lookup_empty. intros Hx.
  by apply is_Some_None in Hx.
Qed.

(** What a failed rotation leaves in the table. *)
Lemma table_after_rotation w w1 k e :
  mirror w -> w.(w_store).(deks) !! k = Some e -> uuid_parse k = Ok k ->
  w1.(w_db).(kdb_rows) = w.(w_db).(kdb_rows)
  \/ (exists now, w1.(w_db).(kdb_rows) = set_state now k RotatingOut <$> w.(w_db).(kdb_rows)) ->
  let K := w.(w_store).(tenant_keks) in
  ids_unique w1.(w_db) /\ (forall r, r ∈ w1.(w_db).(kdb_rows) -> row_ok K r)
  /\ (forall t e, K !! t = Some e -> exists r, r ∈ w1.(w_db).(kdb_rows) /\ kek_row r t e.(raw_kek))
  /\ stored K w1.(w_db) k e.(de_tenant_id) e.(raw_dek)
  /\ kr_id <$> w1.(w_db).(kdb_rows) = kr_id <$> w.(w_db).(kdb_rows)
  /\ len w1.(w_db).(kdb_rows) = len w.(w_db).(kdb_rows).
Proof.
  intros Hm He Hk Hrows. destruct (mi_deks w Hm k e He) as [_ (u & Hu & Hst)].
  assert (u = k) as -> by congruence. destruct Hrows as [Hsame|[now Hset]].
  { unfold ids_unique, stored. rewrite Hsame. split_and!; try done; try apply Hm. }
  destruct Hst as (r0 & ke & Hr0 & Hid & Hke & Hrow).
  destruct (rows_after_rotation w.(w_store).(tenant_keks) now k w.(w_db).(kdb_rows)
              e.(de_tenant_id) ke.(raw_kek) e.(raw_dek) (mi_rows w Hm)) as (H4 & H5 & H6).
  { intros r' Hr' Hid'. by rewrite (same_row _ r' r0 (mi_unique w Hm) Hr' Hr0 ltac:(congruence)). }
  assert (Hids : kr_id <$> w1.(w_db).(kdb_rows) = kr_id <$> w.(w_db).(kdb_rows)).
  { rewrite Hset, <- list_fmap_compose. apply list_fmap_ext. intros i x _. apply set_state_id. }
  split_and!; [|by rewrite Hset| | |done|].
  - unfold ids_unique. rewrite Hids. apply (mi_unique w Hm).
  - intros t' e' He'. destruct (mi_keks w Hm t' e' He') as (r1 & Hr1 & Hk1).
    exists r1. rewrite Hset. split; [by eapply H5|done].
  - exists (set_state now k RotatingOut r0), ke. rewrite Hset.
    split_and!; [by apply list_elem_of_fmap_2|by rewrite set_state_id|done|by apply H6].
  - rewrite Hset. unfold len. by rewrite length_fmap.
Qed.

(** With a database, rotating a data key always fails: the new version
    carries the id of the old one, and the table's primary key is the id alone.
    The cached key has been replaced by then, so later encryptions use a key that
    was never stored, and after a restart what they produced cannot be decrypted. *)
Theorem rotation_is_not_durable w k e :
  mirror w -> w.(w_store).(deks) !! k = Some e -> uuid_parse k = Ok k -> known w e.(de_tenant_id) ->
  Str.is_empty (Str.trim e.(de_tenant_id)) = false -> len w.(w_db).(kdb_rows) <= I64_MAX ->
  let '(r, w1) := rotate_dek out debug_str e.(de_tenant_id) k w in
  (exists err, r = Err err)
  /\ forall e1 n p a env s m,
       w1.(w_store).(deks) !! k = Some e1 -> e1.(raw_dek) <> e.(raw_dek) ->
       encrypt_with_dek (out.(nonce_rng) n) e1.(raw_dek) p a = Ok env ->
       s.(held_root_key) = Some root -> (w1.(w_tick) <= m)%nat ->
       (decrypt out debug_str e.(de_tenant_id) (k +:+ ":" +:+ env.(ciphertext_b64)) a
          (load_from_db out {| w_store := with_seal s; w_db := w1.(w_db); w_tick := m |}).2).1
       = Err (InternalStatus "decryption operation failed").
Proof.
  intros Hm He Hk Hkn Hte Hlen. assert (Hrot := rotate_fails w k e Hm He Hk Hkn).
  destruct (rotate_dek _ _ _ _ _) as [r w1]. destruct Hrot as (Herr & Htick & Hrows).
  split; [done|]. intros e1 n p a env s m He1 Hne Henv Hs Hm'.
  destruct (table_after_rotation w w1 k e Hm He Hk Hrows) as (Hu1 & Hr1 & Hk1 & Hst1 & Hids & Hl1).
  destruct (restart_ok w.(w_store).(tenant_keks) w1.(w_db) s m Hs Hu1 Hr1 Hk1) as (Hmir & Hle & Hdb);
    [|by rewrite Hl1|].
  { intros m' Hle' k'. rewrite Hids. apply (mi_fresh w Hm). lia. }
  assert (Hst2 := stored_mono _ _ _ w1.(w_db) _ _ _ Hle (reflexivity _) Hst1). rewrite <- Hdb in Hst2 at 2.
  destruct (envelope_text _ _ _ _ _ (nonces n) Henv) as [Htrim Hnee].
  destruct (decrypt_stored _ e.(de_tenant_id) k env.(ciphertext_b64) a e.(raw_dek) Hmir)
    as (chain & _ & Hall & ->); [done|done| |done|].
  { rewrite Htrim. by apply bool_decide_eq_false_2. }
  assert (Hw : wraps e1.(raw_dek) p a env.(ciphertext_b64)) by (by exists n, env).
  assert (Hnone : try_chain chain env.(ciphertext_b64) a = None); [|by rewrite Hnone].
  induction Hall as [|x chain <- _ IH]; [done|]. cbn. destruct (decrypt_with_dek _ _ _) eqn:Hd; [|done].
  by destruct (wraps_only _ _ _ _ _ _ _ Hw Hd).
Qed.

(** ** Two processes *)

Lemma find_dead w k r t e :
  mirror w -> uuid_parse k = Ok k -> r ∈ w.(w_db).(kdb_rows) -> r.(kr_id) = k ->
  w.(w_store).(tenant_keks) !! t = Some e -> dead_row r t e.(raw_kek) ->
  exists w', find_dek out debug_str k w = (Err (KeyNotFound k), w').
Proof.
  intros Hm Hk Hr Hid He Hdead.
  assert (Hno : forall w', mirror w' -> extends w w' -> w'.(w_store).(deks) !! k = None).
  { intros w' Hm' (Hle & Hsub & _). destruct (_ !! k) as [d|] eqn:Hd; [|done].
    destruct (mi_deks w' Hm' k d Hd) as [_ (u & Hu & r' & e' & Hr' & Hid' & He' & Hdek)].
    assert (r' = r) as -> by (apply (same_row w'.(w_db)); [apply Hm'|done|by apply Hsub|congruence]).
    destruct (Hle t e He) as (e2 & He2 & Heq).
    assert (d.(de_tenant_id) = t) as Ht by (destruct Hdek as (_ & ? & _), Hdead as (_ & ? & _); congruence).
    rewrite Ht in He'. assert (e' = e2) as -> by congruence. rewrite Heq in Hdek.
    by destruct (dead_not_dek _ _ _ _ _ Hdead Hdek). }
  unfold find_dek, store. rewrite run_bind. cbn [gets]. rewrite run_bind, (Hno w Hm (reflexivity w)).
  rewrite bool_decide_eq_false_2 by (intros Hx; by apply is_Some_None in Hx).
  assert (Hh := hydrate_ok w k Hm (Hno w Hm (reflexivity w))).
  destruct (hydrate_dek _ _ _ _) as [r0 w1]. destruct Hh as (Hm1 & Hx1 & [b ->] & _).
  rewrite run_bind. cbn [gets lift]. rewrite (Hno w1 Hm1 Hx1). by eexists.
Qed.

(** A process that does not know the tenant's KEK cannot store another one. *)
Lemma second_kek_refused (B : World) (r : KeyRow) t kek :
  B.(w_store).(db_pool) = true -> B.(w_store).(tenant_keks) !! t = None ->
  r ∈ B.(w_db).(kdb_rows) -> kek_row r t kek -> uuid_parse t = Ok t ->
  let '(res, B1) := get_or_create_tenant_kek out debug_str t B in
  (exists err, res = Err err) /\ B1.(w_db) = B.(w_db)
  /\ B1.(w_store).(deks) = B.(w_store).(deks)
  /\ B1.(w_store).(current_dek) = B.(w_store).(current_dek)
  /\ B1.(w_store).(db_pool) = true /\ (B.(w_tick) <= B1.(w_tick))%nat.
Proof.
  intros Hpool Hnone Hr Hrow Hu. unfold get_or_create_tenant_kek, store. rewrite run_bind. cbn [gets].
  rewrite Hnone, run_bind, run_random.
  destruct (key_rng _ _) as [raw|err]; [|split_and!; eauto; cbn; lia].
  rewrite run_bind. unfold lift. destruct (root_key _) as [rk|]; [|split_and!; eauto; cbn; lia].
  rewrite run_bind, run_encrypt_under.
  destruct (encrypt_with_dek _ _ _ _) as [env|]; [|split_and!; eauto; cbn; lia].
  rewrite run_bind. cbn [on_store modify]. rewrite run_bind, Hpool. cbn [when].
  rewrite run_bind. unfold require_uuid. rewrite Hu. cbn [mret eff_ret]. rewrite run_bind.
  cbn [tick]. rewrite run_persist. unfold insert_key_descriptor, insert_named_key_descriptor, sql.
  rewrite healthy. cbn [w_db put_store ticked].
  assert (Hv : forall row, row.(kr_purpose) = purpose_str TenantKek -> row.(kr_tenant_id) = Some t ->
            row.(kr_version) = 1 -> violated B.(w_db) row <> None).
  { intros row Hp Ht Hv. unfold violated. case_bool_decide; [done|].
    destruct Hrow as (Hp' & Ht' & _ & Hv' & _).
    rewrite (proj2 (existsb_exists _ _)); [done|]. exists r. split; [by apply list_elem_of_In|].
    unfold same_kek_version. rewrite Hp, Hp', Ht, Ht', Hv, Hv'. cbn.
    by rewrite !bool_decide_eq_true_2 by (done || by eexists). }
  destruct (violated _ _) as [c|] eqn:Hviol.
  - cbn. split_and!; [by eexists|done|done|done|done|lia].
  - exfalso. eapply Hv; [| | |exact Hviol]; cbn; [done|by rewrite Hu|done].
Qed.

(** Publishing touches the outbox only. *)
Definition same_keys (w w' : World) : Prop :=
  w'.(w_store) = w.(w_store) /\ w'.(w_db).(kdb_rows) = w.(w_db).(kdb_rows)
  /\ (w.(w_tick) <= w'.(w_tick))%nat.

#[local] Instance same_keys_preorder : PreOrder same_keys.
Proof.
  split; [intros w; split_and!; done|]. intros w1 w2 w3 (? & ? & ?) (? & ? & ?).
  split_and!; [congruence|congruence|lia].
Qed.

Lemma same_keys_publish t k raw : stable same_keys (publish_dek out t k raw).
Proof.
  unfold publish_dek, transport_wrap_dek, store. stable_auto.
  - intros w. rewrite run_encrypt_under. split_and!; [done|done|cbn; lia].
  - intros w. rewrite run_exec. unfold emit_dek_upsert_event, sql.
    destruct (io _ _); (split_and!; [done|done|cbn; lia]).
Qed.

(** A data key minted under a cached KEK is stored under that KEK. *)
Lemma generate_appends (B : World) t kb k B' :
  B.(w_store).(db_pool) = true -> B.(w_store).(tenant_keks) !! t = Some kb -> uuid_parse t = Ok t ->
  generate_and_store_dek out debug_str t B = (Ok k, B') ->
  exists n row raw, k = out.(now_v7) n /\ (B.(w_tick) <= n < B'.(w_tick))%nat
    /\ B'.(w_db).(kdb_rows) = B.(w_db).(kdb_rows) ++ [row] /\ row.(kr_id) = k
    /\ (k ∉ kr_id <$> B.(w_db).(kdb_rows)) /\ row.(kr_purpose) = purpose_str DataEncryption
    /\ row.(kr_tenant_id) = Some t /\ loadable row = true
    /\ wraps kb.(raw_kek) raw (reload_aad k) row.(kr_wrapped_key)
    /\ exists e, B'.(w_store).(deks) !! k = Some e.
Proof.
  intros Hpool Hkb Hu. unfold generate_and_store_dek. rewrite run_bind.
  unfold get_or_create_tenant_kek, store. rewrite run_bind. cbn [gets]. rewrite Hkb.
  cbn [mret eff_ret]. rewrite run_bind, run_random. destruct (key_rng _ _) as [raw|]; [|done].
  rewrite run_bind. cbn [tick]. cbv zeta. rewrite run_bind, run_encrypt_under.
  destruct (encrypt_with_dek _ _ _ _) as [env|] eqn:Henv; [|done].
  rewrite run_bind. cbn [on_store modify]. rewrite run_bind. cbn [gets].
  rewrite run_bind. cbn [w_store put_store set_deks db_pool ticked]. rewrite Hpool. cbn [when].
  rewrite run_bind. unfold require_uuid. rewrite Hu. cbn [mret eff_ret].
  rewrite run_bind, (now_v7_canonical (out := out)). cbn [mret eff_ret].
  rewrite run_bind, run_persist. unfold insert_key_descriptor.
  destruct (insert_named_key_descriptor _ _ _ _ _ _ _) as [db'|] eqn:Hins; [|done].
  apply insert_named_ok in Hins as (_ & Hv & ->). set (w5 := {| w_store := _; w_db := _; w_tick := _ |}).
  assert (Hp := same_keys_publish t (out.(now_v7) (w_tick (ticked B))) raw w5).
  destruct (publish_dek _ _ _ _ _) as [[[]|e] w6]; [|done]. cbn [snd] in Hp.
  destruct Hp as (Hs & Hr & Htick). intros [= <- <-].
  eexists _, _, raw. split; [done|]. split; [cbn in Htick |- *; lia|].
  split_and!; [rewrite Hr; done|done| |done| | | |].
  - by apply violated_none_id in Hv.
  - cbn. by rewrite Hu.
  - done.
  - by repeat eexists.
  - eexists. rewrite Hs. cbn. by rewrite lookup_insert_eq.
Qed.

Lemma encrypt_appends (B : World) t p a kb r B' :
  B.(w_store).(db_pool) = true -> B.(w_store).(tenant_keks) !! t = Some kb -> uuid_parse t = Ok t ->
  B.(w_store).(current_dek) !! t = None -> encrypt out debug_str t p a B = (Ok r, B') ->
  exists n row raw, r.(er_dek_id) = out.(now_v7) n /\ (B.(w_tick) <= n < B'.(w_tick))%nat
    /\ B'.(w_db).(kdb_rows) = B.(w_db).(kdb_rows) ++ [row] /\ row.(kr_id) = r.(er_dek_id)
    /\ (r.(er_dek_id) ∉ kr_id <$> B.(w_db).(kdb_rows)) /\ row.(kr_purpose) = purpose_str DataEncryption
    /\ row.(kr_tenant_id) = Some t /\ loadable row = true
    /\ wraps kb.(raw_kek) raw (reload_aad r.(er_dek_id)) row.(kr_wrapped_key).
Proof.
  intros Hpool Hkb Hu Hcur He. unfold encrypt in He.
  apply bind_ok in He as (t' & w1 & (Ht & -> & ->)%non_empty_ok & He).
  destruct (Str.is_empty p); [done|].
  apply bind_ok in He as (k & w2 & Hk%rpc_ok & He).
  apply bind_ok in He as (dek & w3 & Hd%rpc_ok & He).
  apply bind_ok in He as (env & w4 & He'%rpc_ok & [= <- <-]). cbn [er_dek_id].
  assert (Htake : forall w : World, w.(w_store).(current_dek) !! t = None -> take_current t w = (Ok None, w))
    by (intros w Hw; unfold take_current; by rewrite Hw).
  unfold current_dek_for_encrypt in Hk. rewrite run_bind, (Htake _ Hcur) in Hk.
  apply bind_ok in Hk as (k' & w1 & Hgen & Hk). assert (Hsame := same_current_generate out debug_str t B).
  rewrite Hgen in Hsame. cbn [snd] in Hsame. unfold same_current in Hsame.
  unfold adopt_current in Hk. rewrite run_bind, Htake, run_bind in Hk by (by rewrite Hsame).
  cbn [on_store modify mret eff_ret] in Hk. injection Hk as -> <-.
  destruct (generate_appends B t kb k w1 Hpool Hkb Hu Hgen)
    as (n & row & raw & Hk & Hn & Hrows & Hid & Hnid & Hp & Hten & Hl & Hw & e & Hde).
  unfold get_dek, find_dek, store in Hd. rewrite run_bind, run_bind in Hd. cbn [gets] in Hd.
  rewrite run_bind in Hd. cbn [w_store put_store set_current deks] in Hd. rewrite Hde in Hd.
  rewrite bool_decide_eq_true_2 in Hd by (by eexists). cbn [mret eff_ret] in Hd.
  rewrite run_bind in Hd. cbn [gets lift] in Hd. cbn [w_store put_store set_current deks] in Hd.
  rewrite Hde in Hd. cbn [ok_or] in Hd. case_bool_decide; [done|]. injection Hd as _ <-.
  rewrite run_encrypt_under in He'. injection He' as _ <-.
  exists n, row, raw. cbn. split_and!; try done; lia.
Qed.

(** The first encryption of a process that does not know the tenant's KEK. *)
Lemma second_process_first_write w t ke s n p a :
  mirror w -> w.(w_store).(tenant_keks) !! t = Some ke -> uuid_parse t = Ok t ->
  let B := {| w_store := with_seal s; w_db := w.(w_db); w_tick := n |} in
  let '(r1, B1) := encrypt out debug_str t p a B in
  (exists st, r1 = Err st) /\ B1.(w_db) = w.(w_db) /\ B1.(w_store).(current_dek) = ∅
  /\ B1.(w_store).(db_pool) = true /\ (n <= B1.(w_tick))%nat.
Proof.
  intros Hm Hke Hu B. destruct (mi_keks w Hm t ke Hke) as (row & Hrow & Hk).
  unfold encrypt. rewrite run_bind. unfold require_non_empty.
  destruct (Str.is_empty _); [split_and!; eauto|]. cbn [mret eff_ret].
  destruct (Str.is_empty p); [split_and!; eauto|].
  rewrite run_bind, run_rpc. unfold current_dek_for_encrypt. rewrite run_bind.
  assert (Htake : take_current t B = (Ok None, B))
    by (unfold take_current, B; cbn; by rewrite lookup_empty).
  rewrite Htake, run_bind. unfold generate_and_store_dek. rewrite run_bind. assert (Hs := second_kek_refused B row t ke.(raw_kek) eq_refl (lookup_empty t)
                                    Hrow Hk Hu).
  destruct (get_or_create_tenant_kek _ _ _ _) as [res B1].
  destruct Hs as ([err ->] & Hdb & _ & Hcur & Hpool & Htick). split_and!; eauto.
Qed.

(** A process whose cache lacks a tenant's KEK (it started before the
    tenant's first request, which another process served) makes one up. Storing
    it is refused, and the request fails, but it stays in the cache: the next
    encryption is acknowledged, its data key is stored under a KEK no table
    holds, and after a restart the key is not found. *)
Theorem second_process_loses_secrets w t ke s n p a :
  mirror w -> w.(w_store).(tenant_keks) !! t = Some ke -> uuid_parse t = Ok t ->
  (w.(w_tick) <= n)%nat ->
  let B := {| w_store := with_seal s; w_db := w.(w_db); w_tick := n |} in
  let '(r1, B1) := encrypt out debug_str t p a B in
  (exists st, r1 = Err st)
  /\ forall kb p' a' r B2 s' m ct,
       B1.(w_store).(tenant_keks) !! t = Some kb -> kb.(raw_kek) <> ke.(raw_kek) ->
       encrypt out debug_str t p' a' B1 = (Ok r, B2) ->
       s'.(held_root_key) = Some root -> (B2.(w_tick) <= m)%nat ->
       len B2.(w_db).(kdb_rows) <= I64_MAX -> Str.is_empty (Str.trim ct) = false ->
       (decrypt out debug_str t (r.(er_dek_id) +:+ ":" +:+ ct) a'
          (load_from_db out {| w_store := with_seal s'; w_db := B2.(w_db); w_tick := m |}).2).1
       = Err (NotFound ("key not found: " +:+ r.(er_dek_id))).
Proof.
  intros Hm Hke Hu Hn B. assert (H1' := second_process_first_write w t ke s n p a Hm Hke Hu).
  cbv zeta in H1'. fold B in H1'. destruct (encrypt out debug_str t p a B) as [r1 B1].
  destruct H1' as (Hr1 & Hdb1 & Hcur1 & Hpool1 & Htick1). split; [done|].
  intros kb p' a' r B2 s' m ct Hkb Hne He Hs' Hm2 Hlen Hct.
  assert (Ht : Str.is_empty (Str.trim t) = false).
  { unfold encrypt in He. by apply bind_ok in He as (t' & w1 & (Ht & -> & ->)%non_empty_ok & He). }
  destruct (encrypt_appends B1 t p' a' kb r B2 Hpool1 Hkb Hu ltac:(by rewrite Hcur1) He)
    as (i & row & raw & Hk & Hi & Hrows & Hid & Hnid & Hp & Hten & Hl & Hw).
  rewrite Hdb1 in Hrows, Hnid. assert (Hcan := now_v7_canonical (out := out) i). rewrite <- Hk in Hcan.
  assert (Hdead : dead_row row t ke.(raw_kek)).
  { split_and!; [done|done|done|]. exists kb.(raw_kek), raw. by rewrite Hid. }
  destruct (restart_ok w.(w_store).(tenant_keks) B2.(w_db) s' m Hs') as (Hmir & Hle & Hdb);
    [| | | |done|].
  - unfold ids_unique. rewrite Hrows, fmap_app. apply NoDup_app. split; [apply (mi_unique w Hm)|].
    split; [|apply NoDup_singleton]. cbn. intros x Hx ->%list_elem_of_singleton. by rewrite Hid in Hx.
  - rewrite Hrows. intros r' [Hr'| ->%list_elem_of_singleton]%elem_of_app; [by apply (mi_rows w Hm)|].
    split; [congruence|]. eauto 10.
  - intros t' e' He'. destruct (mi_keks w Hm t' e' He') as (r' & Hr' & Hkr).
    exists r'. rewrite Hrows. split; [set_solver|done].
  - intros j Hj k. rewrite Hrows, fmap_app. cbn. intros [Hin| ->%list_elem_of_singleton]%elem_of_app.
    + apply (mi_fresh w Hm); [|done]. lia.
    + rewrite Hid, Hk, (now_v7_canonical (out := out)). intros [= Heq%now_v7_inj]. lia.
  - destruct (Hle t ke Hke) as (ke' & Hke' & Hraw'). set (w2 := (load_from_db out _).2) in *.
    destruct (find_dead w2 r.(er_dek_id) row t ke') as [w3 Hf]; try done.
    { rewrite Hdb, Hrows. set_solver. }
    { by rewrite Hraw'. }
    rewrite run_decrypt, run_bind, run_rpc by done. unfold get_dek_chain. by rewrite run_bind, Hf.
Qed.

(** ** A new root key under old KEKs

    [POST /v1/sys/init] on a process that took its root key from the environment
    draws another one. *)

Lemma load_kek_other_root root' m r t kek :
  root' <> root -> kek_row r t kek -> load_kek_row root' m (entry_of_row r) = m.
Proof.
  intros Hne (_ & Ht & _ & _ & Hw & _). unfold load_kek_row.
  cbn [pk_tenant_id pk_wrapped_key entry_of_row]. rewrite Ht.
  destruct (decrypt_with_dek root' _ _) eqn:Hd; [|done].
  by destruct (wraps_only _ _ _ _ _ _ _ Hw Hd).
Qed.

(** The keys of a vault initialised while it runs on the environment's root key
    are unreadable after the next start: no tenant KEK opens under the new root
    key, and without a KEK no data key is loaded. *)
Theorem init_orphans_environment_keys w root' s n :
  mirror w -> root' <> root -> s.(held_root_key) = Some root' ->
  len w.(w_db).(kdb_rows) <= I64_MAX ->
  let w' := (load_from_db out {| w_store := with_seal s; w_db := w.(w_db); w_tick := n |}).2 in
  w'.(w_store).(tenant_keks) = ∅ /\ w'.(w_store).(deks) = ∅.
Proof.
  intros Hm Hne Hs Hlen w'. unfold w', load_from_db, store. rewrite run_bind. cbn [gets].
  cbn [w_store with_seal db_pool negb]. rewrite run_bind. unfold lift, root_key.
  cbn [w_store with_seal ks_seal]. rewrite Hs. cbn [ok_or]. rewrite run_bind, run_query, healthy.
  destruct (kek_rows_all _ Hlen) as (krows & Hkr & Hkin). cbn [w_db]. rewrite Hkr.
  rewrite run_bind. cbn [on_store modify]. rewrite run_bind, run_query, healthy.
  cbn [w_db put_store ticked]. destruct (dek_rows_some w.(w_db)) as (drows & Hdr & _). rewrite Hdr.
  cbn [snd w_store put_store set_keks set_deks tenant_keks deks ks_seal].
  assert (Hnil : foldl (load_kek_row root') ∅ (entry_of_row <$> krows) = ∅).
  { assert (Hall : forall r, r ∈ krows -> exists t kek, kek_row r t kek).
    { intros r [Hr Hp]%Hkin%selected_rows.
      destruct (mi_rows w Hm r Hr) as (_ & t & e & _ & [Hk|[(raw & Hp' & _)|(Hp' & _)]]);
        [by eauto| |]; rewrite Hp in Hp'; by apply purpose_str_inj in Hp'. }
    clear Hkr Hkin. induction krows as [|r krows IH]; [done|]. cbn.
    destruct (Hall r) as (t & kek & Hk); [set_solver|].
    rewrite (load_kek_other_root _ _ _ _ _ Hne Hk). apply IH. set_solver. }
  cbn [ticked w_store with_seal tenant_keks deks ks_seal]. rewrite Hnil. split; [done|]. clear Hdr. induction drows as [|r drows IH]; [done|]. cbn.
  unfold load_dek_row at 2. cbn. by destruct (kr_tenant_id r).
Qed.

End Mirror.

(** ** Concrete runs *)

Module DbDemo.
Import Demo.

Definition db_w0 : World :=
  {| w_store := with_seal demo_seal; w_tick := 0;
     w_db := {| kdb_rows := []; kdb_tenants := ["t1"]; kdb_events := []; kdb_seal := None |} |}.
Definition db_w1 : World := (demo_enc db_w0).2.
Definition db_resp : EncryptResponse := demo_resp db_w0.

Lemma demo_healthy n : demo_out.(io) n = None.
Proof. reflexivity. Qed.

Lemma db_known w : w.(w_db).(kdb_tenants) = ["t1"] -> known w "t1".
Proof. intros Ht. split; [reflexivity|]. rewrite Ht. set_solver. Qed.

Lemma db_mirror : mirror demo_out demo_root db_w1.
Proof.
  apply (encrypt_mirror demo_out no_escape demo_root demo_nonces demo_keys demo_healthy).
  - apply start_mirror; [exact demo_ids|exact tagged_laws|exact tagged_authentic
      |exact demo_nonces|exact demo_keys|exact demo_healthy|reflexivity].
  - by apply db_known.
Qed.

End DbDemo.

Lemma acknowledged_survives_restarts_witness :
  let w2 := (load_from_db Demo.demo_out {| w_store := with_seal Demo.demo_seal;
               w_db := DbDemo.db_w1.(w_db); w_tick := 100 |}).2 in
  (decrypt Demo.demo_out Demo.no_escape "t1"
     (DbDemo.db_resp.(er_dek_id) +:+ ":" +:+ DbDemo.db_resp.(er_ciphertext_b64)) "path" w2).1
  = Ok "hello".
Proof.
  intros w2.
  refine (acknowledged_survives_restarts Demo.demo_out Demo.no_escape Demo.demo_root
    Demo.demo_nonces Demo.demo_keys DbDemo.demo_healthy Demo.demo_seal 0 ["t1"] "t1" "hello" "path"
    DbDemo.db_w0 DbDemo.db_resp DbDemo.db_w1 w2 _ _ _ _ _).
  - reflexivity.
  - apply rtc_refl.
  - by apply DbDemo.db_known.
  - vm_compute. reflexivity.
  - eapply rtc_l; [|apply rtc_refl]. apply d_restart; [reflexivity| |].
    + vm_compute. lia.
    + vm_compute. discriminate.
Defined.

Module RotDemo.
Import Demo DbDemo.

Definition k : string := db_resp.(er_dek_id).
Definition no_entry : DekEntry :=
  {| raw_dek := ""; superseded := []; wrapped_dek_b64 := ""; de_tenant_id := ""; de_version := 0;
     de_key_id := "" |}.
Definition entry (w : World) : DekEntry := default no_entry (w.(w_store).(deks) !! k).
Definition w2 : World := (rotate_dek demo_out no_escape "t1" k db_w1).2.
Definition env : EncryptedEnvelope :=
  match encrypt_with_dek (demo_out.(nonce_rng) 7) (entry w2).(raw_dek) "later" "path" with
  | Ok e => e | Err _ => {| ciphertext_b64 := ""; nonce := "" |} end.

Lemma entry_1 : db_w1.(w_store).(deks) !! k = Some (entry db_w1).
Proof. vm_compute. reflexivity. Qed.
Lemma entry_2 : w2.(w_store).(deks) !! k = Some (entry w2).
Proof. vm_compute. reflexivity. Qed.
Lemma entry_tenant : (entry db_w1).(de_tenant_id) = "t1".
Proof. vm_compute. reflexivity. Qed.
Lemma other_key : (entry w2).(raw_dek) <> (entry db_w1).(raw_dek).
Proof. vm_compute. discriminate. Qed.
Lemma env_ok : encrypt_with_dek (demo_out.(nonce_rng) 7) (entry w2).(raw_dek) "later" "path" = Ok env.
Proof. vm_compute. reflexivity. Qed.
Lemma k_uuid : uuid_parse k = Ok k.
Proof. vm_compute. reflexivity. Qed.
Lemma w1_known : known db_w1 (entry db_w1).(de_tenant_id).
Proof. rewrite entry_tenant. by apply db_known. Qed.
Lemma few_rows : len db_w1.(w_db).(kdb_rows) <= I64_MAX.
Proof. vm_compute. discriminate. Qed.
Lemma later : (w2.(w_tick) <= 100)%nat.
Proof. vm_compute. lia. Qed.

End RotDemo.

Lemma rotation_is_not_durable_witness :
  (decrypt Demo.demo_out Demo.no_escape "t1"
     (RotDemo.k +:+ ":" +:+ RotDemo.env.(ciphertext_b64)) "path"
     (load_from_db Demo.demo_out {| w_store := with_seal Demo.demo_seal;
        w_db := RotDemo.w2.(w_db); w_tick := 100 |}).2).1
  = Err (InternalStatus "decryption operation failed").
Proof.
  assert (Hthm := rotation_is_not_durable Demo.demo_out Demo.no_escape Demo.demo_root
    Demo.demo_nonces Demo.demo_keys DbDemo.demo_healthy DbDemo.db_w1 RotDemo.k
    (RotDemo.entry DbDemo.db_w1) DbDemo.db_mirror RotDemo.entry_1 RotDemo.k_uuid RotDemo.w1_known).
  rewrite RotDemo.entry_tenant in Hthm. specialize (Hthm eq_refl RotDemo.few_rows).
  destruct (rotate_dek Demo.demo_out Demo.no_escape "t1" RotDemo.k DbDemo.db_w1) as [r w] eqn:Hrot.
  destruct Hthm as [_ Hthm].
  assert (Hw : RotDemo.w2 = w) by (unfold RotDemo.w2; by rewrite Hrot).
  rewrite <- Hw in Hthm.
  exact (Hthm (RotDemo.entry RotDemo.w2) 7%nat "later" "path" RotDemo.env Demo.demo_seal 100%nat
    RotDemo.entry_2 RotDemo.other_key RotDemo.env_ok eq_refl RotDemo.later).
Defined.

Module TwoDemo.
Import Demo DbDemo.

Definition B1 : World :=
  (encrypt demo_out no_escape "t1" "hello" "path"
     {| w_store := with_seal demo_seal; w_db := db_w1.(w_db); w_tick := 50 |}).2.
Definition B2 : World := (demo_enc B1).2.
Definition r2 : EncryptResponse := demo_resp B1.
Definition no_kek : TenantKekEntry := {| raw_kek := ""; wrapped_kek_b64 := ""; kek_version := 0 |}.
Definition kek (w : World) : TenantKekEntry := default no_kek (w.(w_store).(tenant_keks) !! "t1").

Lemma kek_a : db_w1.(w_store).(tenant_keks) !! "t1" = Some (kek db_w1).
Proof. vm_compute. reflexivity. Qed.
Lemma kek_b : B1.(w_store).(tenant_keks) !! "t1" = Some (kek B1).
Proof. vm_compute. reflexivity. Qed.
Lemma kek_differs : (kek B1).(raw_kek) <> (kek db_w1).(raw_kek).
Proof. vm_compute. discriminate. Qed.
Lemma second_ok : demo_enc B1 = (Ok r2, B2).
Proof. vm_compute. reflexivity. Qed.
Lemma early : (db_w1.(w_tick) <= 50)%nat.
Proof. vm_compute. lia. Qed.
Lemma much_later : (B2.(w_tick) <= 200)%nat.
Proof. vm_compute. lia. Qed.
Lemma few_rows_b : len B2.(w_db).(kdb_rows) <= I64_MAX.
Proof. vm_compute. discriminate. Qed.
Lemma some_text : Str.is_empty (Str.trim r2.(er_ciphertext_b64)) = false.
Proof. vm_compute. reflexivity. Qed.

End TwoDemo.

Lemma second_process_loses_secrets_witness :
  Demo.demo_enc TwoDemo.B1 = (Ok TwoDemo.r2, TwoDemo.B2)
  /\ (decrypt Demo.demo_out Demo.no_escape "t1"
        (TwoDemo.r2.(er_dek_id) +:+ ":" +:+ TwoDemo.r2.(er_ciphertext_b64)) "path"
        (load_from_db Demo.demo_out {| w_store := with_seal Demo.demo_seal;
           w_db := TwoDemo.B2.(w_db); w_tick := 200 |}).2).1
     = Err (NotFound ("key not found: " +:+ TwoDemo.r2.(er_dek_id))).
Proof.
  split; [exact TwoDemo.second_ok|].
  assert (Hthm := second_process_loses_secrets Demo.demo_out Demo.no_escape Demo.demo_root
    Demo.demo_nonces Demo.demo_keys DbDemo.demo_healthy DbDemo.db_w1 "t1" (TwoDemo.kek DbDemo.db_w1)
    Demo.demo_seal 50 "hello" "path" DbDemo.db_mirror TwoDemo.kek_a eq_refl TwoDemo.early).
  cbv zeta in Hthm.
  destruct (encrypt Demo.demo_out Demo.no_escape "t1" "hello" "path" _) as [r w] eqn:He in Hthm.
  destruct Hthm as [_ Hthm].
  assert (Hw : TwoDemo.B1 = w) by (unfold TwoDemo.B1; by rewrite He).
  rewrite <- Hw in Hthm.
  exact (Hthm (TwoDemo.kek TwoDemo.B1) "hello" "path" TwoDemo.r2 TwoDemo.B2 Demo.demo_seal 200%nat
    TwoDemo.r2.(er_ciphertext_b64) TwoDemo.kek_b TwoDemo.kek_differs TwoDemo.second_ok eq_refl
    TwoDemo.much_later TwoDemo.few_rows_b TwoDemo.some_text).
Defined.
