(* ===== verification/LeaseDb.v ===== *)
(** * Leases in PostgreSQL

    The lease manager's other backend: the statements on [shared.leases]
    ([crates/wslvault-storage/src/lease_store.rs]), the backend on top of them
    ([services/lease-manager/src/pg_store.rs]) and the expiration sweep that runs
    over it ([expiration.rs]).

    Each statement is its own transaction. Its round trip may fail, before the
    statement ran or after, and other processes act between two statements of one
    method: [pg_step] interleaves statements, with the records that methods in
    progress have read. A JSON column is represented by a text of its value, and
    rows with equal expiry are returned in some fixed order. *)

From Stdlib Require Import Lia Sorted Ascii.
From stdpp Require Import pretty.
From S2P Require Import Prelude Errors Auth KeyStore Lease.

(** ** Types of the core crate *)

Inductive CoreState := CoreActive | CoreRenewing | CoreExpired | CoreRevoked.

Record CoreLease := {
  cl_id : string;
  cl_tenant_id : string;
  cl_target : LeaseTarget;
  cl_state : CoreState;
  cl_ttl_seconds : Z;
  cl_max_ttl_seconds : Z;
  cl_renewable : bool;
  cl_issued_at : Z;
  cl_expires_at : Z;
  cl_revoked_at : option Z;
}.

(** Casts between [u64] and [i64]. *)
Definition to_i64 (z : Z) : Z := (z + 2 ^ 63) mod 2 ^ 64 - 2 ^ 63.
Definition to_u64 (z : Z) : Z := z mod 2 ^ 64.

(** ** The table *)

Record LeaseRow := {
  lr_id : string;
  lr_tenant_id : string;
  lr_target_type : string;
  lr_target_data : string;
  lr_state : string;
  lr_ttl_seconds : Z;
  lr_max_ttl_seconds : Z;
  lr_renewable : bool;
  lr_issued_at : Z;
  lr_expires_at : Z;
  lr_revoked_at : option Z;
}.

Definition set_row_state (r : LeaseRow) (st : string) (rev : option Z) : LeaseRow :=
  {| lr_id := r.(lr_id); lr_tenant_id := r.(lr_tenant_id); lr_target_type := r.(lr_target_type);
     lr_target_data := r.(lr_target_data); lr_state := st; lr_ttl_seconds := r.(lr_ttl_seconds);
     lr_max_ttl_seconds := r.(lr_max_ttl_seconds); lr_renewable := r.(lr_renewable);
     lr_issued_at := r.(lr_issued_at); lr_expires_at := r.(lr_expires_at); lr_revoked_at := rev |}.

Definition renewed_row (r : LeaseRow) (expires ttl : Z) : LeaseRow :=
  {| lr_id := r.(lr_id); lr_tenant_id := r.(lr_tenant_id); lr_target_type := r.(lr_target_type);
     lr_target_data := r.(lr_target_data); lr_state := "active"; lr_ttl_seconds := ttl;
     lr_max_ttl_seconds := r.(lr_max_ttl_seconds); lr_renewable := r.(lr_renewable);
     lr_issued_at := r.(lr_issued_at); lr_expires_at := expires; lr_revoked_at := r.(lr_revoked_at) |}.

(** The rows by primary key, and the tenants a row may refer to. *)
Record LeaseTable := { lt_rows : gmap string LeaseRow; lt_tenants : gset string }.

Definition set_rows (t : LeaseTable) (rows : gmap string LeaseRow) : LeaseTable :=
  {| lt_rows := rows; lt_tenants := t.(lt_tenants) |}.

(** What happens to a round trip: nothing, or a failure with this text, the
    statement having run or not. *)
Abbreviation RoundTrip := (option (string * bool)).

Definition autocommit {A T} (io : RoundTrip) (t : T) (body : vresult (A * T)) : vresult A * T :=
  match io, body with
  | None, Ok (a, t') => (Ok a, t')
  | None, Err e => (Err e, t)
  | Some (e, true), Ok (_, t') => (Err (Database e), t')
  | Some (e, _), _ => (Err (Database e), t)
  end.

(** ** lease_store.rs *)

Definition parse_state (s : string) : CoreState :=
  if decide (s = "renewing") then CoreRenewing
  else if decide (s = "expired") then CoreExpired
  else if decide (s = "revoked") then CoreRevoked
  else CoreActive.

Definition state_str (s : CoreState) : string :=
  match s with
  | CoreActive => "active"
  | CoreRenewing => "renewing"
  | CoreExpired => "expired"
  | CoreRevoked => "revoked"
  end.

Section LeaseStore.
Context `{SqlText}.
Context (parse_target : string -> result string LeaseTarget) (print_target : LeaseTarget -> string).

Definition row_of_lease (lease : CoreLease) : LeaseRow :=
  {| lr_id := lease.(cl_id); lr_tenant_id := lease.(cl_tenant_id);
     lr_target_type := target_kind lease.(cl_target);
     lr_target_data := print_target lease.(cl_target); lr_state := state_str lease.(cl_state);
     lr_ttl_seconds := to_i64 lease.(cl_ttl_seconds);
     lr_max_ttl_seconds := to_i64 lease.(cl_max_ttl_seconds);
     lr_renewable := lease.(cl_renewable); lr_issued_at := timestamptz lease.(cl_issued_at);
     lr_expires_at := timestamptz lease.(cl_expires_at); lr_revoked_at := None |}.

Definition create_lease (io : RoundTrip) (t : LeaseTable) (lease : CoreLease) :
    vresult () * LeaseTable :=
  let r := row_of_lease lease in
  autocommit io t
    (if bool_decide (is_Some (t.(lt_rows) !! r.(lr_id))) then Err (Database (violation "leases_pkey"))
     else if bool_decide (r.(lr_tenant_id) ∈ t.(lt_tenants))
     then Ok (tt, set_rows t (<[r.(lr_id) := r]> t.(lt_rows)))
     else Err (Database (violation "leases_tenant_id_fkey"))).

Definition row_to_lease (row : LeaseRow) : vresult CoreLease :=
  match parse_target row.(lr_target_data) with
  | Err e => Err (Internal ("failed to deserialize lease target: " +:+ e))
  | Ok target =>
      Ok {| cl_id := row.(lr_id); cl_tenant_id := row.(lr_tenant_id); cl_target := target;
            cl_state := parse_state row.(lr_state); cl_ttl_seconds := to_u64 row.(lr_ttl_seconds);
            cl_max_ttl_seconds := to_u64 row.(lr_max_ttl_seconds);
            cl_renewable := row.(lr_renewable); cl_issued_at := row.(lr_issued_at);
            cl_expires_at := row.(lr_expires_at); cl_revoked_at := row.(lr_revoked_at) |}
  end.

Definition get_lease (io : RoundTrip) (t : LeaseTable) (id : string) : vresult CoreLease :=
  match io with
  | Some (e, _) => Err (Database e)
  | None => row ← ok_or (t.(lt_rows) !! id) (LeaseNotFound id); row_to_lease row
  end.

(** [state IN ('active', 'renewing')] *)
Definition is_live (r : LeaseRow) : bool :=
  bool_decide (r.(lr_state) = "active") || bool_decide (r.(lr_state) = "renewing").

Definition renew_lease (io : RoundTrip) (t : LeaseTable) (id : string) (new_expires_at new_ttl : Z) :
    vresult () * LeaseTable :=
  autocommit io t
    match t.(lt_rows) !! id with
    | Some r =>
        if is_live r
        then Ok (tt, set_rows t (<[id := renewed_row r (timestamptz new_expires_at) (to_i64 new_ttl)]>
                                   t.(lt_rows)))
        else Err (LeaseNotFound id)
    | None => Err (LeaseNotFound id)
    end.

Definition revoke_lease (io : RoundTrip) (t : LeaseTable) (now : Z) (id : string) :
    vresult () * LeaseTable :=
  autocommit io t
    match t.(lt_rows) !! id with
    | Some r => Ok (tt, set_rows t (<[id := set_row_state r "revoked" (Some now)]> t.(lt_rows)))
    | None => Err (LeaseNotFound id)
    end.

Definition rows_of (t : LeaseTable) : list LeaseRow := snd <$> map_to_list t.(lt_rows).

Definition issued_desc (a b : LeaseRow) : bool := b.(lr_issued_at) <=? a.(lr_issued_at).
Definition expires_asc (a b : LeaseRow) : bool := a.(lr_expires_at) <=? b.(lr_expires_at).

Definition list_leases (io : RoundTrip) (t : LeaseTable) (tenant : string) (state_filter : option string) :
    vresult (list CoreLease) :=
  match io with
  | Some (e, _) => Err (Database e)
  | None => mapM row_to_lease (order_by issued_desc
      (List.filter (fun r => bool_decide (r.(lr_tenant_id) = tenant) &&
         match state_filter with Some s => bool_decide (r.(lr_state) = s) | None => true end) (rows_of t)))
  end.

Definition is_stale (now : Z) (r : LeaseRow) : bool :=
  bool_decide (r.(lr_state) = "active") && (r.(lr_expires_at) <? now).

Definition stale_rows (t : LeaseTable) (now batch_size : Z) : list LeaseRow :=
  limit batch_size (order_by expires_asc (List.filter (is_stale now) (rows_of t))).

Definition list_stale_leases (io : RoundTrip) (t : LeaseTable) (now batch_size : Z) :
    vresult (list CoreLease) :=
  match io with
  | Some (e, _) => Err (Database e)
  | None => mapM row_to_lease (stale_rows t now batch_size)
  end.

Definition mark_lease_expired (io : RoundTrip) (t : LeaseTable) (id : string) : vresult () * LeaseTable :=
  autocommit io t (Ok (tt,
    match t.(lt_rows) !! id with
    | Some r => if bool_decide (r.(lr_state) = "active")
                then set_rows t (<[id := set_row_state r "expired" r.(lr_revoked_at)]> t.(lt_rows))
                else t
    | None => t
    end)).

(** [shared.vault_expire_leases]: the rows another transaction holds are
    skipped, so any [chosen] stale rows, up to the limit. *)
Definition expire_leases (io : RoundTrip) (t : LeaseTable) (now batch_size : Z) (chosen : list string) :
    vresult (list string) * LeaseTable :=
  let hit := limit batch_size (List.filter (fun id =>
    match t.(lt_rows) !! id with Some r => is_stale now r | None => false end) (remove_dups chosen)) in
  autocommit io t (Ok (hit, set_rows t (map_imap (fun id r =>
    Some (if bool_decide (id ∈ hit) then set_row_state r "expired" r.(lr_revoked_at) else r)) t.(lt_rows)))).

End LeaseStore.

(** ** pg_store.rs *)

Definition to_core_state (s : LeaseState) : CoreState :=
  match s with Active => CoreActive | Expired => CoreExpired | Revoked => CoreRevoked end.

Definition from_core_state (s : CoreState) : LeaseState :=
  match s with
  | CoreActive | CoreRenewing => Active
  | CoreExpired => Expired
  | CoreRevoked => Revoked
  end.

Definition BATCH_SIZE : Z := 500.

(** ** Batches

    The first rows of an ordered query. *)

Section Batches.
Context {A : Type} (le : A -> A -> bool).
Context (le_total : forall x y, le x y = true \/ le y x = true).
Context (le_trans : forall x y z, le x y = true -> le y z = true -> le x z = true).

Abbreviation ascending := (StronglySorted (fun x y => le x y = true)).

Lemma insert_by_ascending x l : ascending l -> ascending (insert_by le x l).
Proof.
  induction 1 as [|y l Hl IH Hy]; cbn; [by repeat constructor|].
  destruct (le x y) eqn:Hxy; constructor; try done.
  - by constructor.
  - constructor; [done|]. apply (Forall_impl _ _ _ Hy). eauto.
  - rewrite (insert_by_perm le x l). constructor; [|done].
    destruct (le_total x y); [congruence|done].
Qed.

Lemma order_by_ascending l : ascending (order_by le l).
Proof. induction l as [|x l IH]; cbn; [constructor|]. by apply insert_by_ascending. Qed.

(** Fewer than [n] elements lie strictly before an element of the batch. *)
Lemma batch_before n l s :
  ascending l -> s ∈ limit n l -> len (List.filter (fun y => negb (le s y)) l) < n.
Proof.
  intros Hl. revert n. induction Hl as [|x l Hl IH Hx]; intros n; cbn; [by intros ?%elem_of_nil|].
  destruct (n <=? 0) eqn:Hn; [by intros ?%elem_of_nil|]. apply Z.leb_gt in Hn.
  rewrite elem_of_cons. intros [->|Hs].
  - assert (Hxx : le x x = true) by (by destruct (le_total x x)). rewrite Hxx. cbn.
    assert (Hf : List.filter (fun y => negb (le x y)) l = []).
    { clear -Hx. induction Hx as [|y l Hy _ IH]; [done|]. cbn. by rewrite Hy. }
    rewrite Hf. unfold len. cbn. lia.
  - specialize (IH _ Hs). destruct (negb _); unfold len in *; cbn [List.length]; lia.
Qed.

(** A batch leaves nothing, or is full. *)
Lemma limit_split n (l : list A) :
  0 <= n -> exists rest, l = limit n l ++ rest /\ (rest = [] \/ len (limit n l) = n).
Proof.
  revert n. induction l as [|x l IH]; intros n Hn; cbn; [by exists []; auto|].
  destruct (n <=? 0) eqn:Hz.
  - apply Z.leb_le in Hz. exists (x :: l). split; [done|]. right. unfold len. cbn. lia.
  - apply Z.leb_gt in Hz. destruct (IH (n - 1)) as (rest & Hl & Hr); [lia|]. exists rest. split.
    + cbn. by rewrite <- Hl.
    + destruct Hr as [->|Hr]; [by left|right]. unfold len in *. cbn [List.length]. lia.
Qed.

(** What a batch left out lies behind all it took. *)
Lemma batch_after n l s x :
  0 <= n -> ascending l -> s ∈ l -> s ∉ limit n l -> x ∈ limit n l -> le x s = true /\ len (limit n l) = n.
Proof.
  intros Hn Hl Hs Hout Hx. destruct (limit_split n l Hn) as (rest & Heq & Hr).
  rewrite Heq in Hs, Hl. apply elem_of_app in Hs as [?|Hs]; [done|].
  destruct Hr as [->|Hr]; [by apply elem_of_nil in Hs|]. split; [|done].
  revert Hl Hx. generalize (limit n l) as k. clear -Hs. intros k Hk.
  induction k as [|y k IH]; [by intros ?%elem_of_nil|]. inversion_clear Hk as [|? ? Hk' Hy].
  rewrite elem_of_cons. intros [->|Hx]; [|by apply IH].
  rewrite Forall_forall in Hy. apply Hy, elem_of_app. by right.
Qed.

End Batches.

Section Backend.
Context `{SqlText, Uuids}.
Context (add_seconds : Z -> Z -> option Z).
Context (parse_target : string -> result string LeaseTarget) (print_target : LeaseTarget -> string).
Context (identity_client : option (RevocationCall -> result string ())).
(** [VaultError]'s [Display]. *)
Context (error_text : VaultError -> string).

Definition record_to_core_lease (record : LeaseRecord) : result string CoreLease :=
  match uuid_parse record.(l_tenant_id) with
  | Err e => Err ("invalid tenant_id UUID '" +:+ record.(l_tenant_id) +:+ "': " +:+ e)
  | Ok tenant =>
      let target := match parse_target record.(target_data) with
                    | Ok t => t
                    | Err _ => Token record.(target_data) ""
                    end in
      Ok {| cl_id := record.(lease_id); cl_tenant_id := tenant; cl_target := target;
            cl_state := to_core_state record.(lease_state);
            cl_ttl_seconds := Z.max record.(ttl_seconds) 0;
            cl_max_ttl_seconds := Z.max record.(max_ttl_seconds) 0;
            cl_renewable := record.(renewable); cl_issued_at := record.(issued_at);
            cl_expires_at := record.(l_expires_at); cl_revoked_at := record.(revoked_at) |}
  end.

Definition core_lease_to_record (lease : CoreLease) : LeaseRecord :=
  {| lease_id := lease.(cl_id); l_tenant_id := lease.(cl_tenant_id);
     target_type := target_kind lease.(cl_target); target_data := print_target lease.(cl_target);
     lease_state := from_core_state lease.(cl_state); ttl_seconds := to_i64 lease.(cl_ttl_seconds);
     max_ttl_seconds := to_i64 lease.(cl_max_ttl_seconds); renewable := lease.(cl_renewable);
     issued_at := lease.(cl_issued_at); l_expires_at := lease.(cl_expires_at);
     revoked_at := lease.(cl_revoked_at) |}.

Definition pg_insert_lease (io : RoundTrip) (t : LeaseTable) (record : LeaseRecord) :
    result string string * LeaseTable :=
  match record_to_core_lease record with
  | Err e => (Err e, t)
  | Ok lease => match create_lease print_target io t lease with
                | (Ok _, t') => (Ok record.(lease_id), t')
                | (Err e, t') => (Err (error_text e), t')
                end
  end.

Definition pg_get_lease (io : RoundTrip) (t : LeaseTable) (id : string) : option LeaseRecord :=
  core_lease_to_record <$> result_ok (get_lease parse_target io t id).

(** What a renewal writes, from the record it read. *)
Definition renewal (now : Z) (record : LeaseRecord) (increment_secs : Z) : result fault Z :=
  if negb (bool_decide (record.(lease_state) = Active))
  then Err (Rejected ("lease " +:+ record.(lease_id) +:+ " is not active"))
  else if negb record.(renewable)
  then Err (Rejected ("lease " +:+ record.(lease_id) +:+ " is not renewable"))
  else match add_seconds record.(issued_at) record.(max_ttl_seconds), add_seconds now increment_secs with
       | Some max_expires_at, Some proposed_expires_at => Ok (Z.min proposed_expires_at max_expires_at)
       | _, _ => Err Panicked
       end.

(** A read, an update and a read; [others] is what other processes do between
    them. *)
Definition pg_renew_lease (io : nat -> RoundTrip) (others : nat -> LeaseTable -> LeaseTable)
    (t : LeaseTable) (now : Z) (id : string) (increment_secs : Z) :
    result fault LeaseRecord * LeaseTable :=
  match pg_get_lease (io 0%nat) t id with
  | None => (Err (Rejected ("lease not found: " +:+ id)), t)
  | Some record =>
      match renewal now record increment_secs with
      | Err f => (Err f, t)
      | Ok new_expires_at =>
          match renew_lease (io 1%nat) (others 1%nat t) id new_expires_at (Z.max increment_secs 0) with
          | (Err e, t') => (Err (Rejected (error_text e)), t')
          | (Ok _, t') =>
              (ok_or (pg_get_lease (io 2%nat) (others 2%nat t') id)
                 (Rejected ("lease " +:+ id +:+ " vanished after renewal")), others 2%nat t')
          end
      end
  end.

Definition pg_revoke_lease (io : RoundTrip) (t : LeaseTable) (now : Z) (id : string) :
    result string () * LeaseTable :=
  match revoke_lease io t now id with
  | (Ok _, t') => (Ok tt, t')
  | (Err e, t') => (Err (error_text e), t')
  end.

Definition pg_list_leases (io : RoundTrip) (t : LeaseTable) (tenant : string)
    (state_filter : option string) : list LeaseRecord :=
  match uuid_parse tenant with
  | Err _ => []
  | Ok u => core_lease_to_record <$>
              default [] (result_ok (list_leases parse_target io t u state_filter))
  end.

Definition pg_expire_stale_leases (io : RoundTrip) (t : LeaseTable) (now : Z) (chosen : list string) :
    list string * LeaseTable :=
  let '(r, t') := expire_leases io t now BATCH_SIZE chosen in (default [] (result_ok r), t').

Definition pg_list_stale_active_leases (io : RoundTrip) (t : LeaseTable) (now : Z) : list LeaseRecord :=
  core_lease_to_record <$> default [] (result_ok (list_stale_leases parse_target io t now BATCH_SIZE)).

Definition pg_mark_expired (io : RoundTrip) (t : LeaseTable) (id : string) : result string () * LeaseTable :=
  match mark_lease_expired io t id with
  | (Ok _, t') => (Ok tt, t')
  | (Err e, t') => (Err (error_text e), t')
  end.

(** ** The sweep over this backend *)

Record PgWorld := {
  pw_table : LeaseTable;
  (** records that requests in progress have read, by the id they asked for *)
  pw_read : list (string * LeaseRecord);
  (** revocations identity-service has accepted *)
  pw_calls : list RevocationCall;
}.

Definition with_table (w : PgWorld) (t : LeaseTable) : PgWorld :=
  {| pw_table := t; pw_read := w.(pw_read); pw_calls := w.(pw_calls) |}.
Definition with_call (w : PgWorld) (c : RevocationCall) : PgWorld :=
  {| pw_table := w.(pw_table); pw_read := w.(pw_read); pw_calls := c :: w.(pw_calls) |}.

(** What the revocation of a record's token comes to: skip the record, or go on
    with the call that was accepted. *)
Definition revocation_of (record : LeaseRecord) : option (option RevocationCall) :=
  match token_revocation parse_target record, identity_client with
  | Some call, Some revoke => if is_ok (revoke call) then Some (Some call) else None
  | _, _ => Some None
  end.

Definition pg_sweep_one (io : RoundTrip) (w : PgWorld) (record : LeaseRecord) : PgWorld :=
  match revocation_of record with
  | None => w
  | Some call =>
      let w := match call with Some c => with_call w c | None => w end in
      with_table w (pg_mark_expired io w.(pw_table) record.(lease_id)).2
  end.

Fixpoint pg_sweep_due (io : nat -> RoundTrip) (k : nat) (w : PgWorld) (due : list LeaseRecord) : PgWorld :=
  match due with
  | [] => w
  | record :: due' => pg_sweep_due io (S k) (pg_sweep_one (io k) w record) due'
  end.

(** One tick on the leader; the k-th statement of the tick meets [io k]. *)
Definition pg_sweep (io : nat -> RoundTrip) (w : PgWorld) (now : Z) : PgWorld :=
  pg_sweep_due io 1 w (pg_list_stale_active_leases (io 0%nat) w.(pw_table) now).

(** ** Interleavings

    One statement or one accepted call at a time. A renewal writes what it
    computed from a record it read at some earlier moment. *)

Inductive pg_step : PgWorld -> PgWorld -> Prop :=
| pg_created w io now id req record :
    new_lease add_seconds parse_target print_target (fun s => result_ok (uuid_parse s)) now id req
      = Ok record ->
    req.(r_max_ttl_seconds) < 2 ^ 63 ->
    pg_step w (with_table w (pg_insert_lease io w.(pw_table) record).2)
| pg_read_row w io id record :
    pg_get_lease io w.(pw_table) id = Some record ->
    pg_step w {| pw_table := w.(pw_table); pw_read := (id, record) :: w.(pw_read); pw_calls := w.(pw_calls) |}
| pg_renewed w io now id record inc new_expires_at :
    (id, record) ∈ w.(pw_read) -> renewal now record inc = Ok new_expires_at ->
    pg_step w (with_table w (renew_lease io w.(pw_table) id new_expires_at (Z.max inc 0)).2)
| pg_revoked w io now id :
    pg_step w (with_table w (pg_revoke_lease io w.(pw_table) now id).2)
| pg_marked w io id : pg_step w (with_table w (pg_mark_expired io w.(pw_table) id).2)
| pg_expired w io now chosen :
    pg_step w (with_table w (pg_expire_stale_leases io w.(pw_table) now chosen).2)
| pg_called w call : pg_step w (with_call w call).

(** ** The life of a row *)

Definition row_state (r : LeaseRow) : LeaseState := from_core_state (parse_state r.(lr_state)).

(** Within its maximum lifetime, the columns as the driver stores them. *)
Record row_ok (r : LeaseRow) : Prop := {
  row_lifetime : 0 < r.(lr_max_ttl_seconds) < 2 ^ 63;
  row_bounded : r.(lr_expires_at) <= r.(lr_issued_at) + r.(lr_max_ttl_seconds) * NANOS;
  row_instant : timestamptz r.(lr_issued_at) = r.(lr_issued_at);
  row_known_state : r.(lr_state) ∈ ["active"; "expired"; "revoked"];
  row_printed : exists target, r.(lr_target_data) = print_target target;
}.

Definition stored_row (id : string) (r : LeaseRow) : Prop := r.(lr_id) = id /\ row_ok r.

Record row_evolves (r r' : LeaseRow) : Prop := {
  row_forward : may_become (row_state r) (row_state r') = true;
  row_same : r'.(lr_id) = r.(lr_id) /\ r'.(lr_tenant_id) = r.(lr_tenant_id) /\
             r'.(lr_target_data) = r.(lr_target_data) /\ r'.(lr_renewable) = r.(lr_renewable) /\
             r'.(lr_issued_at) = r.(lr_issued_at) /\ r'.(lr_max_ttl_seconds) = r.(lr_max_ttl_seconds);
  row_frozen : row_state r <> Active -> r'.(lr_expires_at) = r.(lr_expires_at);
  row_keeps_ok : row_ok r -> row_ok r';
}.

#[local] Instance row_evolves_preorder : PreOrder row_evolves.
Proof.
  split.
  - intros r. split; [apply may_become_refl|done|done|done].
  - intros r1 r2 r3 [F1 S1 Z1 K1] [F2 S2 Z2 K2]. split.
    + by destruct (row_state r1), (row_state r2), (row_state r3).
    + naive_solver congruence.
    + intros Hn. rewrite Z2; [by apply Z1|]. by destruct (row_state r1), (row_state r2).
    + auto.
Qed.

Lemma row_state_active r : r.(lr_state) = "active" -> row_state r = Active.
Proof. unfold row_state. by intros ->. Qed.

Lemma is_live_active r : is_live r = true -> row_state r = Active.
Proof. unfold is_live, row_state. intros [->%bool_decide_eq_true| ->%bool_decide_eq_true]%orb_true_iff; done. Qed.

Lemma set_state_evolves r st rev :
  may_become (row_state r) (from_core_state (parse_state st)) = true ->
  st ∈ ["active"; "expired"; "revoked"] -> row_evolves r (set_row_state r st rev).
Proof. intros Hst Hin. by split; [| | |intros []; split]. Qed.

Lemma renewed_evolves r expires ttl :
  row_state r = Active -> expires <= r.(lr_issued_at) + r.(lr_max_ttl_seconds) * NANOS ->
  row_evolves r (renewed_row r expires ttl).
Proof.
  intros Hst Hb. split; [by rewrite Hst|done|by rewrite Hst|]. intros []. split; try done. left.
Qed.

#[local] Abbreviation rows_move := (moves stored_row row_evolves).

(** A statement leaves the table or does its work. *)
Lemma autocommit_elim {A T} (P : T -> Prop) io t (body : vresult (A * T)) :
  P t -> (forall a t', body = Ok (a, t') -> P t') -> P (autocommit io t body).2.
Proof. intros Ht Hb. destruct io as [[e []]|], body as [[a t']|]; cbn; eauto. Qed.

Lemma statement_moves {A} io t (body : vresult (A * LeaseTable)) :
  (forall a t', body = Ok (a, t') -> rows_move t.(lt_rows) t'.(lt_rows)) ->
  rows_move t.(lt_rows) (autocommit io t body).2.(lt_rows).
Proof.
  apply (autocommit_elim (fun t' => rows_move t.(lt_rows) t'.(lt_rows))).
  apply moves_refl. typeclasses eauto.
Qed.

Lemma revoke_moves io t now id : rows_move t.(lt_rows) (revoke_lease io t now id).2.(lt_rows).
Proof.
  apply statement_moves.
  intros a t'. case_match; [|done]. intros [= _ <-]. cbn. eapply moves_insert; [typeclasses eauto|done|].
  apply set_state_evolves; [by destruct (row_state _)|set_solver].
Qed.

Lemma mark_moves io t id : rows_move t.(lt_rows) (mark_lease_expired io t id).2.(lt_rows).
Proof.
  apply statement_moves.
  intros a t' [= _ <-]. repeat case_match; cbn; [|apply moves_refl; typeclasses eauto..]. bools.
  eapply moves_insert; [typeclasses eauto|done|]. apply set_state_evolves; [by rewrite row_state_active|set_solver].
Qed.

Lemma limit_subset {A} n (l : list A) x : x ∈ limit n l -> x ∈ l.
Proof.
  revert n. induction l as [|y l IH]; intros n; cbn; [done|].
  destruct (n <=? 0); [by intros ?%elem_of_nil|].
  rewrite !elem_of_cons. intros [->|Hx]; [by left|right; by eapply IH].
Qed.

Lemma expire_moves io t now n chosen : rows_move t.(lt_rows) (expire_leases io t now n chosen).2.(lt_rows).
Proof.
  apply statement_moves.
  intros hit t' [= <- <-] id. cbn. rewrite map_lookup_imap.
  destruct (t.(lt_rows) !! id) as [r|] eqn:Hr; [|done]. cbn.
  case_bool_decide as Hin; [|reflexivity].
  apply limit_subset, list_elem_of_In, List.filter_In in Hin as [_ Hst]. rewrite Hr in Hst.
  unfold is_stale in Hst. bools. apply set_state_evolves; [by rewrite row_state_active|set_solver].
Qed.

(** A renewal stays within the lifetime of the record it was computed from. *)
Lemma renew_moves io t id expires ttl r :
  t.(lt_rows) !! id = Some r -> timestamptz expires <= r.(lr_issued_at) + r.(lr_max_ttl_seconds) * NANOS ->
  rows_move t.(lt_rows) (renew_lease io t id expires ttl).2.(lt_rows).
Proof.
  intros Hr Hb.
  apply statement_moves.
  intros a t'. rewrite Hr. destruct (is_live r) eqn:Hl; [|done]. intros [= _ <-]. cbn.
  eapply moves_insert; [typeclasses eauto|done|]. by apply renewed_evolves; [apply is_live_active|].
Qed.

(** Where chrono's addition does not panic it is exact. *)
Hypothesis add_seconds_spec : forall t n u, add_seconds t n = Some u -> u = t + n * NANOS.

Lemma cast_id z : 0 <= z < 2 ^ 63 -> to_i64 (to_u64 z) = z.
Proof. intros Hz. unfold to_i64, to_u64. rewrite (Z.mod_small z), Z.mod_small by lia. lia. Qed.

Lemma to_i64_id z : 0 <= z < 2 ^ 63 -> to_i64 z = z.
Proof. intros Hz. unfold to_i64. rewrite Z.mod_small by lia. lia. Qed.

Lemma insert_moves io t record :
  bounded record -> record.(max_ttl_seconds) < 2 ^ 63 -> record.(lease_state) = Active ->
  rows_move t.(lt_rows) (pg_insert_lease io t record).2.(lt_rows).
Proof.
  intros [Hpos Hb] Hmax Hst. unfold pg_insert_lease.
  destruct (record_to_core_lease record) as [lease|] eqn:Hc; [|apply moves_refl; typeclasses eauto].
  unfold record_to_core_lease in Hc. destruct (uuid_parse _) as [u|]; [|done]. injection Hc as <-.
  match goal with |- context [create_lease _ io t ?l] => set (lease := l) end.
  assert (Hm : rows_move t.(lt_rows) (create_lease print_target io t lease).2.(lt_rows)).
  { apply statement_moves. intros a t'. cbn zeta. case_bool_decide as Hx; [done|].
    case_bool_decide; [|done]. intros Hb'; simplify_eq. cbn.
    apply moves_fresh; [typeclasses eauto| |].
    - by apply eq_None_not_Some.
    - assert (Hz : Z.max record.(max_ttl_seconds) 0 = record.(max_ttl_seconds)) by lia.
      split; [done|]. split; cbn; rewrite ?Hz, ?to_i64_id by lia;
        [lia| |apply timestamptz_idem|rewrite Hst; left|by eexists].
      etrans; [by apply timestamptz_mono|]. by apply timestamptz_later; lia. }
  by destruct (create_lease _ io t lease) as [[|] t'].
Qed.

Lemma pg_get_lease_Some io t id record :
  pg_get_lease io t id = Some record <->
  io = None /\ exists row lease, t.(lt_rows) !! id = Some row /\ row_to_lease parse_target row = Ok lease /\
    record = core_lease_to_record lease.
Proof.
  unfold pg_get_lease, get_lease. destruct io as [[]|].
  { split; [done|]. by intros [? _]. }
  destruct (t.(lt_rows) !! id) as [row|]; cbn.
  - destruct (row_to_lease _ row) as [lease|] eqn:Hl; cbn; split.
    + intros [= <-]. eauto 6.
    + intros (_ & x & y & [= <-] & Hy & ->). congruence.
    + done.
    + intros (_ & x & y & [= <-] & Hy & _). congruence.
  - split; [done|]. by intros (_ & x & y & ? & _).
Qed.

(** What a record read from a row says about it. *)
Lemma record_of_row row lease :
  row_to_lease parse_target row = Ok lease ->
  let record := core_lease_to_record lease in
  record.(lease_state) = row_state row /\ record.(issued_at) = row.(lr_issued_at) /\
  record.(l_expires_at) = row.(lr_expires_at) /\
  record.(max_ttl_seconds) = to_i64 (to_u64 row.(lr_max_ttl_seconds)).
Proof. unfold row_to_lease. destruct (parse_target _); [|done]. by intros [= <-]. Qed.

(** A record somebody has read still describes the fixed part of its row. *)
Definition read_ok (t : LeaseTable) (e : string * LeaseRecord) : Prop :=
  exists row, t.(lt_rows) !! e.1 = Some row /\ row.(lr_issued_at) = e.2.(issued_at) /\
    row.(lr_max_ttl_seconds) = e.2.(max_ttl_seconds).

Definition pg_ok (w : PgWorld) : Prop :=
  map_Forall stored_row w.(pw_table).(lt_rows) /\ Forall (read_ok w.(pw_table)) w.(pw_read).

Lemma moves_ok t t' reads :
  rows_move t.(lt_rows) t'.(lt_rows) -> map_Forall stored_row t.(lt_rows) ->
  Forall (read_ok t) reads ->
  map_Forall stored_row t'.(lt_rows) /\ Forall (read_ok t') reads.
Proof.
  intros Hm Hrows Hreads. split.
  - intros id r' Hr'. specialize (Hm id). rewrite Hr' in Hm.
    destruct (t.(lt_rows) !! id) as [r|] eqn:Hr; [|done].
    destruct (Hrows id r Hr) as [Hid Hok]. split; [|by apply (row_keeps_ok _ _ Hm)].
    destruct (row_same _ _ Hm) as [-> _]. done.
  - apply (Forall_impl _ _ _ Hreads). intros [id rec] (row & Hr & Hi & Hx). specialize (Hm id).
    cbn in Hr. rewrite Hr in Hm. unfold read_ok. cbn.
    destruct (t'.(lt_rows) !! id) as [row'|]; [|done].
    destruct (row_same _ _ Hm) as (_ & _ & _ & _ & Hi' & Hx'). exists row'. split; [done|].
    cbn in Hi, Hx. split; congruence.
Qed.
Lemma new_lease_max_ttl now id req record :
  new_lease add_seconds parse_target print_target (fun s => result_ok (uuid_parse s)) now id req = Ok record ->
  record.(max_ttl_seconds) = 86400 \/ record.(max_ttl_seconds) = req.(r_max_ttl_seconds).
Proof. unfold new_lease. repeat (case_match; try done). all: intros [= <-]; auto. Qed.

Lemma stored_shift a n : timestamptz a = a -> timestamptz (a + n * NANOS) = a + n * NANOS.
Proof. intros Ha. rewrite <- Ha. apply timestamptz_shift. Qed.

Lemma renewal_within now record inc expires t id row :
  renewal now record inc = Ok expires -> read_ok t (id, record) -> t.(lt_rows) !! id = Some row ->
  row_ok row ->
  timestamptz expires <= row.(lr_issued_at) + row.(lr_max_ttl_seconds) * NANOS.
Proof.
  unfold renewal. intros Hr (row' & Hrow & Hi & Hx) Hrow2 [_ _ Hts]. cbn in *.
  rewrite Hrow in Hrow2. injection Hrow2 as ->.
  repeat (case_match; try done). injection Hr as <-.
  match goal with H : add_seconds (issued_at _) _ = _ |- _ => apply add_seconds_spec in H as -> end.
  rewrite <- Hi, <- Hx in *. etrans; [by apply timestamptz_mono, Z.le_min_r|].
  by rewrite stored_shift.
Qed.

Lemma pg_step_moves w w' :
  pg_ok w -> pg_step w w' -> rows_move w.(pw_table).(lt_rows) w'.(pw_table).(lt_rows).
Proof.
  intros [Hrows Hreads] Hstep. destruct Hstep; cbn.
  - apply insert_moves; [by eapply new_lease_bounded| |by eapply new_lease_shape].
    destruct (new_lease_max_ttl _ _ _ _ H1) as [-> | ->]; [done|lia].
  - apply moves_refl. typeclasses eauto.
  - rewrite Forall_forall in Hreads. specialize (Hreads _ H1). destruct Hreads as (row & Hrow & Hx).
    eapply renew_moves; [exact Hrow|]. eapply renewal_within; [done| |done|by eapply Hrows].
    by exists row.
  - unfold pg_revoke_lease. pose proof (revoke_moves io w.(pw_table) now id) as Hm.
    by destruct (revoke_lease io _ now id) as [[|] t'].
  - unfold pg_mark_expired. pose proof (mark_moves io w.(pw_table) id) as Hm.
    by destruct (mark_lease_expired io _ id) as [[|] t'].
  - unfold pg_expire_stale_leases. pose proof (expire_moves io w.(pw_table) now BATCH_SIZE chosen) as Hm.
    by destruct (expire_leases io _ now BATCH_SIZE chosen) as [r t'].
  - apply moves_refl. typeclasses eauto.
Qed.

Lemma pg_step_ok w w' : pg_ok w -> pg_step w w' -> pg_ok w'.
Proof.
  intros Hw Hstep. pose proof (pg_step_moves w w' Hw Hstep) as Hm. destruct Hw as [Hrows Hreads].
  destruct (moves_ok _ _ w.(pw_read) Hm Hrows Hreads) as [Hrows' Hreads']. split; [done|].
  destruct Hstep; try exact Hreads'. cbn in *. constructor; [|done].
  apply pg_get_lease_Some in H1 as (_ & row & lease & Hrow & Hl & ->).
  destruct (record_of_row _ _ Hl) as (_ & Hi & _ & Hx). exists row. split; [done|].
  split; [done|]. destruct (row_lifetime _ (proj2 (Hrows _ _ Hrow))). cbn [snd]. rewrite Hx, cast_id; [done|lia].
Qed.

Lemma pg_run_moves w w' :
  pg_ok w -> rtc pg_step w w' -> pg_ok w' /\ forall id row, w.(pw_table).(lt_rows) !! id = Some row ->
    exists row', w'.(pw_table).(lt_rows) !! id = Some row' /\ row_evolves row row'.
Proof.
  intros Hw Hrun. induction Hrun as [w|w w1 w' Hstep _ IH].
  { split; [done|]. intros id row Hrow. exists row. split; [done|reflexivity]. }
  destruct (IH (pg_step_ok _ _ Hw Hstep)) as [Hw' Hlater]. split; [done|]. intros id row Hrow.
  pose proof (pg_step_moves _ _ Hw Hstep id) as Hm. rewrite Hrow in Hm.
  destruct (w1.(pw_table).(lt_rows) !! id) as [row1|] eqn:Hrow1; [|done].
  destruct (Hlater id row1 Hrow1) as (row' & Hrow' & Hev). exists row'. split; [done|].
  by transitivity row1.
Qed.

(** A row that evolved reads as a lease that did. *)
Lemma row_evolves_record row row' lease :
  row_ok row -> row_evolves row row' -> row_to_lease parse_target row = Ok lease ->
  exists lease', row_to_lease parse_target row' = Ok lease' /\
    evolves (core_lease_to_record lease) (core_lease_to_record lease') /\
    bounded (core_lease_to_record lease').
Proof.
  intros Hok Hev Hl. destruct (row_keeps_ok _ _ Hev Hok) as [Hx' Hb' _]. destruct Hok as [Hx _ _].
  destruct Hev as [Hf (Hid & Ht & Hd & Hrn & Hi & Hm) Hz _]. unfold row_to_lease in *. rewrite Hd.
  destruct (parse_target _) as [target|]; [|done]. injection Hl as <-. eexists. split; [done|].
  unfold evolves, bounded. cbn. rewrite Hm, !cast_id by lia. rewrite Hm in Hb'. naive_solver lia.
Qed.

(** Leases live in the table as they do in memory, although a renewal reads
    and writes in separate statements, statements fail half-way and replicas work
    side by side: from an empty table, a lease once stored is never lost, keeps
    its owner, target and lifetime, moves only forward from active to expired to
    revoked, and never expires later than its maximum lifetime after issue. *)
Theorem pg_lease_lifecycle start w w' id record :
  start.(pw_table).(lt_rows) = ∅ -> start.(pw_read) = [] -> rtc pg_step start w ->
  pg_get_lease None w.(pw_table) id = Some record -> rtc pg_step w w' ->
  exists record', pg_get_lease None w'.(pw_table) id = Some record' /\
    evolves record record' /\ bounded record'.
Proof.
  intros Hrows Hreads Hrun Hget Hrun'.
  assert (Hs : pg_ok start). { split; [by rewrite Hrows|by rewrite Hreads]. }
  destruct (pg_run_moves _ _ Hs Hrun) as [Hw _]. destruct (pg_run_moves _ _ Hw Hrun') as [_ Hlater].
  apply pg_get_lease_Some in Hget as (_ & row & lease & Hrow & Hl & ->).
  destruct (Hlater _ _ Hrow) as (row' & Hrow' & Hev).
  destruct (row_evolves_record row row' lease) as (lease' & Hl' & He & Hb); [by eapply (proj1 Hw)|done..|].
  exists (core_lease_to_record lease'). split; [|done]. apply pg_get_lease_Some. eauto 6.
Qed.

(** ** What a sweep does to every row *)

(** Whether the record of a row is skipped when its turn comes. *)
Definition refuses (r : LeaseRow) : bool :=
  match row_to_lease parse_target r with
  | Ok lease => bool_decide (revocation_of (core_lease_to_record lease) = None)
  | Err _ => false
  end.

Definition expired_row (r : LeaseRow) : LeaseRow := set_row_state r "expired" r.(lr_revoked_at).

(** The row [r] after the records [l] were worked off. *)
Definition swept_row (l : list LeaseRecord) (id : string) (r : LeaseRow) : LeaseRow :=
  if bool_decide (r.(lr_state) = "active") &&
     existsb (fun rec => bool_decide (rec.(lease_id) = id) && negb (bool_decide (revocation_of rec = None))) l
  then expired_row r else r.

Lemma swept_row_one rec id r :
  swept_row [rec] id r =
  if decide (r.(lr_state) = "active" /\ rec.(lease_id) = id /\ revocation_of rec <> None)
  then expired_row r else r.
Proof.
  unfold swept_row. cbn [existsb]. rewrite orb_false_r.
  repeat case_bool_decide; case_decide; cbn; naive_solver.
Qed.

Lemma mark_expired_row t key id :
  (pg_mark_expired None t key).2.(lt_rows) !! id =
  (fun r => if decide (r.(lr_state) = "active" /\ key = id) then expired_row r else r) <$> t.(lt_rows) !! id.
Proof.
  unfold pg_mark_expired. cbn [autocommit mark_lease_expired snd].
  destruct (decide (key = id)) as [<-|Hne].
  - destruct (t.(lt_rows) !! key) as [r|] eqn:Hr; [|by rewrite Hr].
    case_bool_decide; cbn [set_rows lt_rows]; rewrite ?lookup_insert_eq, ?Hr; cbn; case_decide; naive_solver.
  - transitivity (t.(lt_rows) !! id).
    + destruct (t.(lt_rows) !! key); [|done]. case_bool_decide; [|done]. by apply lookup_insert_ne.
    + destruct (t.(lt_rows) !! id); cbn; [|done]. case_decide; naive_solver.
Qed.

Lemma pg_sweep_one_row w rec id :
  (pg_sweep_one None w rec).(pw_table).(lt_rows) !! id =
  swept_row [rec] id <$> w.(pw_table).(lt_rows) !! id.
Proof.
  unfold pg_sweep_one. destruct (revocation_of rec) as [c|] eqn:Hc.
  - set (w0 := match c with Some x => with_call w x | None => w end).
    assert (Hw : w0.(pw_table) = w.(pw_table)) by (unfold w0; by destruct c).
    cbn [with_table pw_table]. rewrite Hw, mark_expired_row.
    destruct (_ !! id) as [r|]; cbn; [|done]. rewrite swept_row_one. f_equal.
    repeat case_decide; naive_solver.
  - destruct (_ !! id) as [r|]; cbn; [|done]. rewrite swept_row_one. f_equal. case_decide; naive_solver.
Qed.

Lemma swept_row_twice l rec id r : swept_row l id (swept_row [rec] id r) = swept_row (rec :: l) id r.
Proof.
  rewrite swept_row_one. unfold swept_row. cbn [existsb]. case_decide as Hd.
  - destruct Hd as (Ha & Hid & Hc). transitivity (expired_row r); [reflexivity|].
    by rewrite (bool_decide_eq_true_2 _ Ha), (bool_decide_eq_true_2 _ Hid), (bool_decide_eq_false_2 _ Hc).
  - destruct (existsb _ l); [by rewrite !orb_true_r|]. rewrite !orb_false_r, !andb_false_r.
    repeat case_bool_decide; cbn; naive_solver.
Qed.

Lemma pg_sweep_row k l w id :
  (pg_sweep_due (fun _ => None) k w l).(pw_table).(lt_rows) !! id =
  swept_row l id <$> w.(pw_table).(lt_rows) !! id.
Proof.
  revert k w. induction l as [|rec l IH]; intros k w; cbn [pg_sweep_due].
  - destruct (_ !! id) as [r|]; cbn; [|done]. unfold swept_row. by rewrite andb_false_r.
  - rewrite IH, pg_sweep_one_row.
    destruct (_ !! id) as [r|]; cbn; [|done]. by rewrite swept_row_twice.
Qed.

(** ** Head-of-line blocking *)

#[local] Instance LeaseRow_eq_dec : EqDecision LeaseRow.
Proof. solve_decision. Defined.

Lemma expires_total x y : expires_asc x y = true \/ expires_asc y x = true.
Proof. unfold expires_asc. lia. Qed.

Lemma expires_trans x y z : expires_asc x y = true -> expires_asc y z = true -> expires_asc x z = true.
Proof. unfold expires_asc. lia. Qed.

Lemma elem_of_lease_rows t r : r ∈ rows_of t <-> exists id, t.(lt_rows) !! id = Some r.
Proof.
  unfold rows_of. rewrite list_elem_of_fmap. split.
  - intros ([id r'] & -> & Hin). exists id. by apply elem_of_map_to_list.
  - intros [id Hr]. exists (id, r). split; [done|]. by apply elem_of_map_to_list.
Qed.

Lemma elem_of_stale_rows t now n r :
  r ∈ stale_rows t now n -> r ∈ rows_of t /\ is_stale now r = true.
Proof.
  intros Hr. apply limit_subset in Hr. rewrite order_by_perm in Hr.
  by apply list_elem_of_In, List.filter_In in Hr as [Hr%list_elem_of_In Hst].
Qed.

(** The records of a batch are those of its rows. *)
Lemma due_records io t now rec :
  rec ∈ pg_list_stale_active_leases io t now ->
  exists row lease, row ∈ stale_rows t now BATCH_SIZE /\ row_to_lease parse_target row = Ok lease /\
    rec = core_lease_to_record lease.
Proof.
  unfold pg_list_stale_active_leases, list_stale_leases. destruct io as [[e b]|]; [by intros ?%elem_of_nil|].
  destruct (mapM _ _) as [l|] eqn:Hm; cbn; [|by intros ?%elem_of_nil].
  intros (lease & -> & Hin)%list_elem_of_fmap. revert l Hm Hin.
  induction (stale_rows t now BATCH_SIZE) as [|row rows IH]; intros l.
  - intros [= <-]. by intros ?%elem_of_nil.
  - cbn. destruct (row_to_lease _ row) as [x|] eqn:Hx; [|done]. cbn.
    destruct (mapM _ rows) as [k|]; [|done]. cbn. intros [= <-].
    rewrite elem_of_cons. intros [-> |Hin].
    + exists row, x. split; [left|done].
    + destruct (IH _ eq_refl Hin) as (row' & lease' & Hr & Hl & He).
      exists row', lease'. split; [by right|done].
Qed.

(** A stale lease whose token identity-service does not revoke. *)
Definition blocked (now : Z) (r : LeaseRow) : bool := is_stale now r && refuses r.

Lemma is_stale_later now now' r : now <= now' -> is_stale now r = true -> is_stale now' r = true.
Proof. unfold is_stale. intros. bools. apply andb_true_iff. split; [by apply bool_decide_eq_true|lia]. Qed.

Lemma filter_len_le {A} (p q : A -> bool) l :
  (forall x, x ∈ l -> p x = true -> q x = true) -> len (List.filter p l) <= len (List.filter q l).
Proof.
  induction l as [|x l IH]; intros Hpq; cbn; [done|].
  assert (IH' : len (List.filter p l) <= len (List.filter q l)) by (apply IH; intros; apply Hpq; [by right|done]).
  destruct (p x) eqn:Hp; [rewrite (Hpq x (list_elem_of_here x l) Hp)|destruct (q x)]; unfold len in *; cbn; lia.
Qed.

Lemma filter_len_perm {A} (p : A -> bool) l k : l ≡ₚ k -> len (List.filter p l) = len (List.filter p k).
Proof.
  unfold len. induction 1 as [|x l k _ IH|x y l|l k m _ IH1 _ IH2]; cbn; [done| | |congruence].
  - destruct (p x); cbn; lia.
  - destruct (p x), (p y); cbn; lia.
Qed.

(** While enough stale leases are refused and all others expire later, a batch
    holds nothing else. *)
Lemma batch_is_blocked t now now' s :
  now <= now' -> BATCH_SIZE <= len (List.filter (blocked now) (rows_of t)) ->
  (forall r s, r ∈ rows_of t -> s ∈ rows_of t -> blocked now r = true ->
     s.(lr_state) = "active" -> refuses s = false -> r.(lr_expires_at) < s.(lr_expires_at)) ->
  s ∈ stale_rows t now' BATCH_SIZE -> refuses s = true.
Proof.
  intros Hnow Hmany Hbefore Hs. apply not_false_iff_true. intros Href.
  destruct (elem_of_stale_rows _ _ _ _ Hs) as [Hrow Hst].
  assert (Hact : s.(lr_state) = "active") by (unfold is_stale in Hst; by bools).
  pose proof (batch_before expires_asc expires_total BATCH_SIZE _ s
    (order_by_ascending expires_asc expires_total expires_trans _) Hs) as Hlt.
  rewrite (filter_len_perm _ _ _ (order_by_perm _ _)) in Hlt.
  enough (len (List.filter (blocked now) (rows_of t)) <=
          len (List.filter (fun y => negb (expires_asc s y)) (List.filter (is_stale now') (rows_of t)))) by lia.
  assert (Hff : forall (p q : LeaseRow -> bool) l,
    List.filter p (List.filter q l) = List.filter (fun x => q x && p x) l).
  { intros p q l. induction l as [|x l IH]; cbn; [done|]. destruct (q x); cbn; [|done]. by rewrite IH. }
  rewrite Hff. apply filter_len_le. intros r Hr Hb. apply andb_true_iff. split.
  - apply (is_stale_later now); [done|]. unfold blocked in Hb. by bools.
  - specialize (Hbefore r s Hr Hrow Hb Hact Href). unfold expires_asc. apply negb_true_iff. lia.
Qed.

Lemma sweep_of_refused io k w l :
  (forall rec, rec ∈ l -> revocation_of rec = None) -> pg_sweep_due io k w l = w.
Proof.
  revert k. induction l as [|rec l IH]; intros k Hl; cbn; [done|].
  unfold pg_sweep_one. rewrite (Hl rec (list_elem_of_here rec l)). apply IH. intros. apply Hl. by right.
Qed.

(** A lease that cannot be settled holds up those behind it: the sweep takes
    the 500 active leases that expired first, so once that many token leases are
    refused by identity-service, for instance because their token hash is
    malformed, no tick at any later time ever expires another lease or revokes
    another token. *)
Theorem refused_leases_starve_the_sweep w now ticks :
  BATCH_SIZE <= len (List.filter (blocked now) (rows_of w.(pw_table))) ->
  (forall r s, r ∈ rows_of w.(pw_table) -> s ∈ rows_of w.(pw_table) -> blocked now r = true ->
     s.(lr_state) = "active" -> refuses s = false -> r.(lr_expires_at) < s.(lr_expires_at)) ->
  Forall (fun tick => now <= tick.2) ticks ->
  foldl (fun w tick => pg_sweep tick.1 w tick.2) w ticks = w.
Proof.
  intros Hmany Hbefore Hticks. induction Hticks as [|[io now'] ticks Hnow _ IH]; cbn; [done|].
  assert (pg_sweep io w now' = w) as ->; [|exact IH].
  apply sweep_of_refused. intros rec (row & lease & Hrow & Hl & ->)%due_records.
  apply (batch_is_blocked _ now) in Hrow; [|done..]. unfold refuses in Hrow. rewrite Hl in Hrow. by bools.
Qed.

(** ** Catching up *)

(** Every row under its own id, readable, and its token revocable. *)
Definition ready (t : LeaseTable) : Prop :=
  forall id r, t.(lt_rows) !! id = Some r ->
    r.(lr_id) = id /\ (exists lease, row_to_lease parse_target r = Ok lease) /\ refuses r = false.

Definition settled (batch : list LeaseRow) (r : LeaseRow) : LeaseRow :=
  if decide (r ∈ batch) then expired_row r else r.

Lemma rows_no_dup t : ready t -> NoDup (rows_of t).
Proof.
  intros Ht. apply (NoDup_fmap_1 lr_id). unfold rows_of. rewrite <- list_fmap_compose.
  rewrite (list_fmap_ext _ fst); [apply NoDup_fst_map_to_list|].
  intros i [id r] Hi. cbn. apply list_elem_of_lookup_2, elem_of_map_to_list in Hi. by apply (Ht id r).
Qed.

Lemma due_complete t now row lease :
  ready t -> row ∈ stale_rows t now BATCH_SIZE -> row_to_lease parse_target row = Ok lease ->
  core_lease_to_record lease ∈ pg_list_stale_active_leases None t now.
Proof.
  intros Ht Hrow Hl. unfold pg_list_stale_active_leases, list_stale_leases.
  assert (Hall : forall r, r ∈ stale_rows t now BATCH_SIZE -> exists l, row_to_lease parse_target r = Ok l).
  { intros r Hr. apply elem_of_stale_rows in Hr as [[id Hr]%elem_of_lease_rows _]. by apply (Ht id r). }
  revert Hall Hrow. induction (stale_rows t now BATCH_SIZE) as [|r rows IH]; intros Hall.
  { by intros ?%elem_of_nil. }
  destruct (Hall r) as [lr Hlr]; [left|]. cbn. rewrite Hlr. cbn.
  assert (Hall' : forall x, x ∈ rows -> exists l, row_to_lease parse_target x = Ok l)
    by (intros; apply Hall; by right).
  specialize (IH Hall').
  assert (exists k, mapM (row_to_lease parse_target) rows = Ok k) as [k Hk].
  { clear -Hall'. induction rows as [|x rows IH]; [by exists []|]. cbn.
    destruct (Hall' x) as [lx ->]; [left|]. cbn.
    destruct IH as [k ->]; [intros; apply Hall'; by right|]. by exists (lx :: k). }
  rewrite Hk in *. cbn in *. rewrite elem_of_cons. intros [->|Hin].
  - rewrite Hl in Hlr. injection Hlr as ->. left.
  - right. by apply IH.
Qed.

(** A tick expires exactly the rows of its batch. *)
Lemma sweep_settles w now :
  ready w.(pw_table) ->
  (pg_sweep (fun _ => None) w now).(pw_table).(lt_rows) =
  settled (stale_rows w.(pw_table) now BATCH_SIZE) <$> w.(pw_table).(lt_rows).
Proof.
  intros Ht. apply map_eq. intros id. unfold pg_sweep. rewrite pg_sweep_row, lookup_fmap.
  destruct (w.(pw_table).(lt_rows) !! id) as [r|] eqn:Hr; cbn; [|done]. f_equal.
  destruct (Ht id r Hr) as (Hid & [lease Hl] & Href).
  assert (Hrev : revocation_of (core_lease_to_record lease) <> None).
  { unfold refuses in Href. rewrite Hl in Href. by bools. }
  assert (Hlid : (core_lease_to_record lease).(lease_id) = id).
  { unfold row_to_lease in Hl. destruct (parse_target _); [|done]. by injection Hl as <-. }
  unfold settled, swept_row. case_decide as Hin.
  - destruct (elem_of_stale_rows _ _ _ _ Hin) as [_ Hst]. unfold is_stale in Hst.
    apply andb_true_iff in Hst as [-> _]. cbn [andb].
    rewrite (proj2 (existsb_exists _ _)); [done|]. exists (core_lease_to_record lease). split.
    + by apply list_elem_of_In, (due_complete _ _ r).
    + by rewrite (bool_decide_eq_true_2 _ Hlid), (bool_decide_eq_false_2 _ Hrev).
  - destruct (existsb _ _) eqn:He; [|by rewrite andb_false_r].
    apply existsb_exists in He as (rec & Hrec%list_elem_of_In & Hc). bools.
    apply due_records in Hrec as (row & l & Hrow & Hl' & ->).
    destruct (elem_of_stale_rows _ _ _ _ Hrow) as [[key Hkey]%elem_of_lease_rows _].
    destruct (Ht key row Hkey) as (Hk & _ & _).
    assert (Hkl : (core_lease_to_record l).(lease_id) = row.(lr_id)).
    { unfold row_to_lease in Hl'. destruct (parse_target _); [|done]. by injection Hl' as <-. }
    assert (key = id) by congruence. subst key. congruence.
Qed.

Lemma settled_ready w now : ready w.(pw_table) -> ready (pg_sweep (fun _ => None) w now).(pw_table).
Proof.
  intros Ht id r. rewrite sweep_settles, lookup_fmap by done.
  intros (r0 & Hr0 & ->)%fmap_Some. destruct (Ht id r0 Hr0) as (Hid & [lease Hl] & Href).
  unfold settled. case_decide; [|eauto]. split; [done|]. unfold refuses, row_to_lease in *. cbn.
  destruct (parse_target _) as [target|]; [|done]. split; [by eauto|].
  apply bool_decide_eq_false in Href. by apply bool_decide_eq_false.
Qed.

Definition backlog (now : Z) (t : LeaseTable) : list LeaseRow := List.filter (is_stale now) (rows_of t).

Lemma expired_not_stale now r : is_stale now (expired_row r) = false.
Proof. done. Qed.

Lemma elem_of_len {A} (x : A) l : x ∈ l -> 0 < len l.
Proof. destruct l; [by intros ?%elem_of_nil|]. unfold len. cbn [List.length]. lia. Qed.

Definition left_over (now : Z) (batch : list LeaseRow) (r : LeaseRow) : bool :=
  is_stale now r && negb (bool_decide (r ∈ batch)).

Lemma settled_backlog now batch l :
  len (List.filter (is_stale now) (settled batch <$> l)) = len (List.filter (left_over now batch) l).
Proof.
  unfold left_over, settled. induction l as [|r l IH]; [done|]. cbn. case_decide as Hd.
  - rewrite expired_not_stale, (bool_decide_eq_true_2 _ Hd), andb_false_r. exact IH.
  - rewrite (bool_decide_eq_false_2 _ Hd), andb_true_r.
    destruct (is_stale now r); [|exact IH]. unfold len in *. cbn. lia.
Qed.

Lemma left_over_len now batch l :
  NoDup l -> NoDup batch -> (forall r, r ∈ batch -> r ∈ l /\ is_stale now r = true) ->
  len (List.filter (is_stale now) l) = len batch + len (List.filter (left_over now batch) l).
Proof.
  intros Hl Hb Hin. rewrite <- len_app. unfold len. f_equal. apply Permutation_length, NoDup_Permutation.
  - by apply NoDup_ListNoDup, List.NoDup_filter, NoDup_ListNoDup.
  - apply NoDup_app. split; [done|]. split.
    + intros r Hr Hf. apply list_elem_of_In, List.filter_In in Hf as [_ Hf]. unfold left_over in Hf. by bools.
    + by apply NoDup_ListNoDup, List.NoDup_filter, NoDup_ListNoDup.
  - intros r. rewrite elem_of_app, !list_elem_of_In, !List.filter_In, <- !list_elem_of_In. unfold left_over.
    destruct (decide (r ∈ batch)) as [Hd|Hd]; [naive_solver|].
    rewrite (bool_decide_eq_false_2 _ Hd), andb_true_r. naive_solver.
Qed.

Lemma stale_rows_no_dup t now n : ready t -> NoDup (stale_rows t now n).
Proof.
  intros Ht. eapply sublist_NoDup; [|apply limit_sublist]. rewrite order_by_perm.
  by apply NoDup_ListNoDup, List.NoDup_filter, NoDup_ListNoDup, rows_no_dup.
Qed.

(** A tick takes a full batch off the backlog, or all of it. *)
Lemma backlog_shrinks w now now' :
  ready w.(pw_table) -> now <= now' ->
  len (backlog now (pg_sweep (fun _ => None) w now').(pw_table))
    <= Z.max 0 (len (backlog now w.(pw_table)) - BATCH_SIZE).
Proof.
  intros Ht Hnow. set (batch := stale_rows w.(pw_table) now' BATCH_SIZE).
  assert (Hperm : rows_of (pg_sweep (fun _ => None) w now').(pw_table) ≡ₚ settled batch <$> rows_of w.(pw_table)).
  { unfold rows_of. rewrite sweep_settles by done. by rewrite map_to_list_fmap, <- !list_fmap_compose. }
  unfold backlog. rewrite (filter_len_perm _ _ _ Hperm), settled_backlog.
  destruct (List.filter (left_over now batch) (rows_of w.(pw_table))) as [|s rest] eqn:Hf.
  { unfold len at 1. cbn. lia. }
  assert (Hs : s ∈ List.filter (left_over now batch) (rows_of w.(pw_table))) by (rewrite Hf; left).
  rewrite <- Hf. apply list_elem_of_In, List.filter_In in Hs as [Hrow%list_elem_of_In Hs].
  unfold left_over in Hs. apply andb_true_iff in Hs as [Hst Hout]. bools.
  set (L := order_by expires_asc (List.filter (is_stale now') (rows_of w.(pw_table)))).
  assert (Hin : s ∈ L).
  { unfold L. rewrite order_by_perm. apply list_elem_of_In, List.filter_In.
    split; [by apply list_elem_of_In|by apply (is_stale_later now)]. }
  pose proof (fun x => batch_after expires_asc BATCH_SIZE L s x ltac:(done)
    (order_by_ascending expires_asc expires_total expires_trans _) Hin Hout) as Hafter.
  assert (Hfull : len batch = BATCH_SIZE).
  { destruct (limit_split BATCH_SIZE L ltac:(done)) as (rest' & HL & [->|Hlen]); [|exact Hlen].
    rewrite app_nil_r in HL. rewrite HL in Hin. done. }
  rewrite (left_over_len now batch (rows_of w.(pw_table))); [lia|by apply rows_no_dup|by apply stale_rows_no_dup|].
  intros x Hx. destruct (elem_of_stale_rows _ _ _ _ Hx) as [Hxr Hxs]. split; [done|].
  destruct (Hafter x Hx) as [Hle _]. unfold is_stale, expires_asc in *.
  apply andb_true_iff in Hxs as [-> _]. cbn. lia.
Qed.

(** Along ticks a row is as it was, or expired. *)
Lemma sweeps_keep_rows times w id r :
  ready w.(pw_table) -> w.(pw_table).(lt_rows) !! id = Some r ->
  let w' := foldl (pg_sweep (fun _ => None)) w times in
  ready w'.(pw_table) /\
  (w'.(pw_table).(lt_rows) !! id = Some r \/ w'.(pw_table).(lt_rows) !! id = Some (expired_row r)).
Proof.
  revert w r. induction times as [|now times IH]; intros w r Ht Hr; cbn; [by auto|].
  destruct (IH (pg_sweep (fun _ => None) w now) (settled (stale_rows w.(pw_table) now BATCH_SIZE) r))
    as [Hready Hrow]; [by apply settled_ready|by rewrite sweep_settles, lookup_fmap, Hr|].
  split; [done|]. revert Hrow. unfold settled. case_decide; [|done]. intros [?|?]; by right.
Qed.

(** C13. Where every statement succeeds and no request runs between the ticks,
    the sweep catches up, whatever is waiting: it takes five hundred leases a
    tick ([BATCH_SIZE]), and as soon as 500 times the number of ticks reaches
    the number of leases that had expired at some moment, each of them is
    marked expired, although further leases expire meanwhile. *)
Theorem sweeps_drain_the_backlog w now times id r :
  ready w.(pw_table) -> Forall (fun now' => now <= now') times ->
  len (backlog now w.(pw_table)) <= BATCH_SIZE * len times ->
  w.(pw_table).(lt_rows) !! id = Some r -> is_stale now r = true ->
  (foldl (pg_sweep (fun _ => None)) w times).(pw_table).(lt_rows) !! id = Some (expired_row r).
Proof.
  intros Ht Htimes Hlen Hr Hst.
  destruct (sweeps_keep_rows times w id r Ht Hr) as [_ [Hrow|Hrow]]; [|done]. exfalso.
  assert (Hempty : len (backlog now (foldl (pg_sweep (fun _ => None)) w times).(pw_table)) <= 0).
  { clear Hrow Hr Hst. revert w Ht Hlen. induction Htimes as [|now' times Hnow _ IH]; intros w Ht Hlen; cbn.
    - unfold len at 2 in Hlen. cbn in Hlen. lia.
    - apply IH; [by apply settled_ready|]. pose proof (backlog_shrinks w now now' Ht Hnow).
      replace (len (now' :: times)) with (1 + len times) in Hlen by (unfold len; cbn [List.length]; lia).
      pose proof (len_nonneg times). unfold BATCH_SIZE in *. lia. }
  assert (Hin : r ∈ backlog now (foldl (pg_sweep (fun _ => None)) w times).(pw_table)).
  { apply list_elem_of_In, List.filter_In. split; [|done]. apply list_elem_of_In, elem_of_lease_rows. eauto. }
  apply elem_of_len in Hin. lia.
Qed.

(** A tick is a run of statements and accepted calls. *)
Lemma pg_sweep_runs io w now : rtc pg_step w (pg_sweep io w now).
Proof.
  unfold pg_sweep. generalize (pg_list_stale_active_leases (io 0%nat) w.(pw_table) now) as l.
  generalize 1%nat as k. intros k l. revert k w. induction l as [|rec l IH]; intros k w; cbn; [done|].
  etransitivity; [|apply IH]. unfold pg_sweep_one. destruct (revocation_of rec) as [[c|]|]; [| |done].
  - eapply rtc_l; [apply (pg_called w c)|]. apply rtc_once, (pg_marked (with_call w c)).
  - apply rtc_once, (pg_marked w).
Qed.

(** ** The same leases as in memory *)

Definition table_ok (t : LeaseTable) : Prop :=
  forall id r, t.(lt_rows) !! id = Some r ->
    stored_row id r /\ exists lease, row_to_lease parse_target r = Ok lease.

(** The leases a table holds, as the in-memory backend would hold them. *)
Definition in_memory (t : LeaseTable) : lease_map :=
  omap (fun r => core_lease_to_record <$> result_ok (row_to_lease parse_target r)) t.(lt_rows).

Lemma in_memory_lookup t id r lease :
  t.(lt_rows) !! id = Some r -> row_to_lease parse_target r = Ok lease ->
  in_memory t !! id = Some (core_lease_to_record lease).
Proof. intros Hr Hl. unfold in_memory. by rewrite lookup_omap, Hr; cbn; rewrite Hl. Qed.

Lemma in_memory_None t id : t.(lt_rows) !! id = None -> in_memory t !! id = None.
Proof. intros Hr. unfold in_memory. by rewrite lookup_omap, Hr. Qed.

Lemma in_memory_insert t id r lease :
  row_to_lease parse_target r = Ok lease ->
  in_memory (set_rows t (<[id := r]> t.(lt_rows))) = <[id := core_lease_to_record lease]> (in_memory t).
Proof. intros Hl. unfold in_memory. cbn. rewrite (omap_insert_Some _ _ _ _ (core_lease_to_record lease)); [done|]. by rewrite Hl. Qed.

Lemma set_row_state_lease r st rev lease :
  row_to_lease parse_target r = Ok lease ->
  exists lease', row_to_lease parse_target (set_row_state r st rev) = Ok lease' /\
    core_lease_to_record lease' = set_state (core_lease_to_record lease) (from_core_state (parse_state st)) rev.
Proof.
  unfold row_to_lease. cbn. destruct (parse_target _); [|done]. intros [= <-]. by eexists.
Qed.

Lemma pg_get_in_memory t id : table_ok t -> pg_get_lease None t id = in_memory t !! id.
Proof.
  intros Ht. destruct (t.(lt_rows) !! id) as [r|] eqn:Hr.
  - destruct (Ht id r Hr) as [_ [lease Hl]]. rewrite (in_memory_lookup t id r lease Hr Hl).
    apply pg_get_lease_Some. eauto 6.
  - rewrite in_memory_None by done. destruct (pg_get_lease None t id) eqn:Hg; [|done].
    apply pg_get_lease_Some in Hg as (_ & x & _ & Hx & _). congruence.
Qed.

Lemma revoke_in_memory t now id :
  table_ok t ->
  in_memory (pg_revoke_lease None t now id).2 = (Lease.revoke_lease (in_memory t) now id).2 /\
  is_ok (pg_revoke_lease None t now id).1 = is_ok (Lease.revoke_lease (in_memory t) now id).1.
Proof.
  intros Ht. unfold pg_revoke_lease, Lease.revoke_lease, revoke_lease. cbn [autocommit].
  destruct (t.(lt_rows) !! id) as [r|] eqn:Hr; [|by rewrite in_memory_None].
  destruct (Ht id r Hr) as [_ [lease Hl]]. rewrite (in_memory_lookup t id r lease Hr Hl).
  destruct (set_row_state_lease r "revoked" (Some now) lease Hl) as (l' & Hl' & Heq).
  cbn [fst snd is_ok]. by rewrite (in_memory_insert _ _ _ l' Hl'), Heq.
Qed.

Lemma valid_state_active r :
  r.(lr_state) ∈ ["active"; "expired"; "revoked"] ->
  is_live r = bool_decide (row_state r = Active) /\
  bool_decide (r.(lr_state) = "active") = bool_decide (row_state r = Active).
Proof.
  unfold is_live, row_state. rewrite !elem_of_cons, elem_of_nil.
  intros [->|[->|[->|[]]]]; done.
Qed.

Lemma renew_in_memory t now id inc :
  table_ok t -> timestamptz now = now -> 0 <= inc < 2 ^ 63 ->
  pg_renew_lease (fun _ => None) (fun _ t => t) t now id inc =
  ((Lease.renew_lease add_seconds (in_memory t) now id inc).1,
   (pg_renew_lease (fun _ => None) (fun _ t => t) t now id inc).2) /\
  in_memory (pg_renew_lease (fun _ => None) (fun _ t => t) t now id inc).2 =
  (Lease.renew_lease add_seconds (in_memory t) now id inc).2.
Proof.
  intros Ht Hnow Hinc. unfold pg_renew_lease, Lease.renew_lease. rewrite pg_get_in_memory by done.
  destruct (t.(lt_rows) !! id) as [r|] eqn:Hr; [|by rewrite in_memory_None].
  destruct (Ht id r Hr) as [[Hid Hok] [lease Hl]]. pose proof (row_known_state _ Hok) as Hst.
  rewrite (in_memory_lookup t id r lease Hr Hl). set (rec := core_lease_to_record lease). destruct (record_of_row r lease Hl) as (Hs & Hi & _ & Hx).
  assert (Hrid : rec.(lease_id) = id).
  { unfold row_to_lease in Hl. destruct (parse_target _); [|done]. by injection Hl as <-. }
  unfold renewal. rewrite Hrid. destruct (negb (bool_decide (rec.(lease_state) = Active))) eqn:Ha; [done|].
  destruct (negb rec.(renewable)); [done|].
  destruct (add_seconds rec.(issued_at) rec.(max_ttl_seconds)) as [mx|] eqn:Hmx; [|done].
  destruct (add_seconds now inc) as [pr|] eqn:Hpr; [|done].
  assert (Hlive : is_live r = true). { rewrite (proj1 (valid_state_active r Hst)), <- Hs. by apply negb_false_iff in Ha. }
  assert (Htz : timestamptz (Z.min pr mx) = Z.min pr mx).
  { apply add_seconds_spec in Hmx, Hpr. subst mx pr. destruct Hok as [_ _ Hts _ _].
    destruct (Z.min_spec (now + inc * NANOS) (rec.(issued_at) + rec.(max_ttl_seconds) * NANOS)) as [[_ ->]|[_ ->]].
    - by apply stored_shift.
    - apply stored_shift. unfold rec. by rewrite Hi. }
  unfold renew_lease. cbn [autocommit]. rewrite Hr, Hlive, Htz, (Z.max_l inc 0), (to_i64_id inc) by lia.
  set (row' := renewed_row r (Z.min pr mx) inc). cbn [fst snd].
  assert (exists lease', row_to_lease parse_target row' = Ok lease' /\
            core_lease_to_record lease' = extend rec (Z.min pr mx) inc) as (lease' & Hl' & Heq).
  { unfold row_to_lease, row', rec in *. cbn. destruct (parse_target _); [|done]. injection Hl as <-.
    eexists. split; [done|]. unfold core_lease_to_record, extend. cbn. rewrite (cast_id inc) by lia. f_equal.
    symmetry. bools. cbn in Ha. exact Ha. }
  rewrite (in_memory_insert t id row' lease' Hl'), Heq. split; [|done].
  do 2 f_equal. unfold ok_or.
  rewrite (proj2 (pg_get_lease_Some None _ id (extend rec (Z.min pr mx) inc))); [done|].
  split; [done|]. exists row', lease'. cbn. by rewrite lookup_insert_eq.
Qed.

(** serde_json reads back what it wrote. *)
Hypothesis target_roundtrip : forall target, parse_target (print_target target) = Ok target.

Lemma new_lease_fields now id req record :
  new_lease add_seconds parse_target print_target (fun s => result_ok (uuid_parse s)) now id req = Ok record ->
  exists target, record.(target_data) = print_target target /\ record.(target_type) = target_kind target /\
    record.(l_tenant_id) = req.(r_tenant_id) /\ record.(issued_at) = now /\ record.(revoked_at) = None /\
    0 < record.(ttl_seconds) <= record.(max_ttl_seconds) /\
    record.(l_expires_at) = now + record.(ttl_seconds) * NANOS.
Proof.
  unfold new_lease. repeat (case_match; try done). all: intros [= <-]; eexists; cbn.
  all: match goal with H : add_seconds _ _ = Some _ |- _ => apply add_seconds_spec in H as -> end.
  all: repeat split; try done; lia.
Qed.

Lemma insert_in_memory t now id req record :
  new_lease add_seconds parse_target print_target (fun s => result_ok (uuid_parse s)) now id req = Ok record ->
  req.(r_max_ttl_seconds) < 2 ^ 63 -> uuid_parse req.(r_tenant_id) = Ok req.(r_tenant_id) ->
  req.(r_tenant_id) ∈ t.(lt_tenants) -> t.(lt_rows) !! id = None -> timestamptz now = now ->
  (pg_insert_lease None t record).1 = Ok id /\
  in_memory (pg_insert_lease None t record).2 = insert_lease (in_memory t) record.
Proof.
  intros Hn Hmax Hu Hten Hid Hnow.
  destruct (new_lease_fields _ _ _ _ Hn) as (target & Hd & Hk & Ht & Hi & Hrev & Httl & Hexp).
  destruct (new_lease_shape _ _ _ _ _ _ _ _ Hn) as [Hlid Hst].
  pose proof (new_lease_max_ttl _ _ _ _ Hn) as Hm.
  assert (Hm63 : record.(max_ttl_seconds) < 2 ^ 63) by (destruct Hm as [->| ->]; lia).
  unfold pg_insert_lease, record_to_core_lease. rewrite Ht, Hu, Hd, target_roundtrip.
  unfold create_lease. cbn [autocommit row_of_lease lr_id lr_tenant_id cl_id cl_tenant_id].
  rewrite Hlid, Hid, (bool_decide_eq_false_2 (is_Some None)) by by intros [].
  rewrite (bool_decide_eq_true_2 _ Hten). cbn [fst snd]. split; [done|].
  erewrite in_memory_insert.
  2:{ unfold row_to_lease. cbn. rewrite target_roundtrip. done. }
  unfold insert_lease. rewrite Hlid. f_equal. unfold core_lease_to_record. cbn.
  rewrite !Z.max_l, !(to_i64_id record.(ttl_seconds)), !(to_i64_id record.(max_ttl_seconds)), !cast_id by lia.
  rewrite Hi, Hexp, stored_shift, Hnow, Hst by done. cbn.
  destruct record; cbn in *. subst. done.
Qed.

Lemma mark_in_memory t id :
  table_ok t -> in_memory (pg_mark_expired None t id).2 = (Lease.mark_expired (in_memory t) id).2.
Proof.
  intros Ht. unfold pg_mark_expired, mark_lease_expired, Lease.mark_expired. cbn [autocommit].
  destruct (t.(lt_rows) !! id) as [r|] eqn:Hr; [|by rewrite in_memory_None].
  destruct (Ht id r Hr) as [[_ Hok] [lease Hl]]. rewrite (in_memory_lookup t id r lease Hr Hl).
  destruct (record_of_row r lease Hl) as (Hs & _).
  rewrite Hs, <- (proj2 (valid_state_active r (row_known_state _ Hok))).
  destruct (bool_decide (r.(lr_state) = "active")) eqn:Ha; [|done]. cbn [snd].
  destruct (set_row_state_lease r "expired" r.(lr_revoked_at) lease Hl) as (l' & Hl' & Heq).
  rewrite (in_memory_insert _ _ _ l' Hl'), Heq. do 2 f_equal.
  unfold row_to_lease in Hl. destruct (parse_target _); [|done]. by injection Hl as <-.
Qed.

(** C17. Every table the service can produce is well-formed: whatever statements
    ran, in whatever order and with whatever failures, each row sits under its own
    id in one of the three states the code writes, holds a target that is read
    back, and is within its lifetime. *)
Theorem lease_table_well_formed start w :
  start.(pw_table).(lt_rows) = ∅ -> start.(pw_read) = [] -> rtc pg_step start w ->
  table_ok w.(pw_table).
Proof.
  intros Hrows Hreads Hrun.
  assert (Hs : pg_ok start). { split; [by rewrite Hrows|by rewrite Hreads]. }
  destruct (pg_run_moves _ _ Hs Hrun) as [[Hw _] _]. intros id r Hr. pose proof (Hw id r Hr) as Hst.
  split; [done|]. destruct Hst as [_ Hok]. destruct (row_printed _ Hok) as [target Hp].
  unfold row_to_lease. rewrite Hp, target_roundtrip. eauto.
Qed.

(** C23. Request by request the two backends agree: on a well-formed table, at an
    instant the table can store and without failing statements, creating,
    renewing, revoking and expiring a lease leave the table with the leases the in-memory
    backend would hold, and renewals are answered alike. *)
Theorem pg_refines_memory t now id :
  table_ok t -> timestamptz now = now ->
  (forall req record,
     new_lease add_seconds parse_target print_target (fun s => result_ok (uuid_parse s)) now id req = Ok record ->
     req.(r_max_ttl_seconds) < 2 ^ 63 -> uuid_parse req.(r_tenant_id) = Ok req.(r_tenant_id) ->
     req.(r_tenant_id) ∈ t.(lt_tenants) -> t.(lt_rows) !! id = None ->
     (pg_insert_lease None t record).1 = Ok id /\
     in_memory (pg_insert_lease None t record).2 = insert_lease (in_memory t) record) /\
  (forall inc, 0 <= inc < 2 ^ 63 ->
     let r := pg_renew_lease (fun _ => None) (fun _ t => t) t now id inc in
     (r.1, in_memory r.2) = Lease.renew_lease add_seconds (in_memory t) now id inc) /\
  (let r := pg_revoke_lease None t now id in
   (is_ok r.1, in_memory r.2) =
   (is_ok (Lease.revoke_lease (in_memory t) now id).1, (Lease.revoke_lease (in_memory t) now id).2)) /\
  in_memory (pg_mark_expired None t id).2 = (Lease.mark_expired (in_memory t) id).2.
Proof.
  intros Ht Hnow. split_and!.
  - intros req record Hn Hmax Hu Hten Hid. by eapply insert_in_memory.
  - intros inc Hinc. cbv zeta. destruct (renew_in_memory t now id inc Ht Hnow Hinc) as [Hr Hm].
    rewrite Hm, Hr. by destruct (Lease.renew_lease _ _ _ _ _).
  - cbv zeta. destruct (revoke_in_memory t now id Ht) as [Hm Hr]. by rewrite Hm, Hr.
  - by apply mark_in_memory.
Qed.

End Backend.

(** ** On concrete data *)

Module LeaseDbDemo.

#[local] Instance demo_sql : SqlText := fun s => "violates " +:+ s.
#[local] Instance demo_uuids : Uuids := fun s => if Str.is_empty s then Err "empty" else Ok s.

Definition add (t n : Z) : option Z := Some (t + n * NANOS).

Lemma add_spec t n u : add t n = Some u -> u = t + n * NANOS.
Proof. by intros [= <-]. Qed.

(** A printer of targets and its parser: every character of a field is marked. *)
Fixpoint mark (s : string) : string :=
  match s with EmptyString => "" | String c s' => String "x" (String c (mark s')) end.

Fixpoint unmark (s : string) : string * string :=
  match s with
  | String "x" (String c r) => let '(a, rest) := unmark r in (String c a, rest)
  | _ => ("", s)
  end.

Lemma unmark_mark a rest : unmark (mark a +:+ String "|" rest) = (a, String "|" rest).
Proof. induction a as [|c a IH]; [done|]. cbn. by rewrite IH. Qed.

Definition fields (a b : string) : string := mark a +:+ String "|" (mark b +:+ "|").

Definition print (t : LeaseTarget) : string :=
  match t with
  | Token a b => String "T" (fields a b)
  | DynamicSecret a b => String "D" (fields a b)
  | ServiceCredential a b => String "S" (fields a b)
  end.

Definition two (s : string) : option (string * string) :=
  match unmark s with
  | (a, String "|" r) => match unmark r with (b, String "|" EmptyString) => Some (a, b) | _ => None end
  | _ => None
  end.

Definition parse (s : string) : result string LeaseTarget :=
  match s with
  | String c r =>
      match two r with
      | Some (a, b) =>
          if decide (c = "T"%char) then Ok (Token a b)
          else if decide (c = "D"%char) then Ok (DynamicSecret a b)
          else if decide (c = "S"%char) then Ok (ServiceCredential a b) else Err "target"
      | None => Err "target"
      end
  | EmptyString => Err "target"
  end.

Lemma parse_print t : parse (print t) = Ok t.
Proof.
  assert (Htwo : forall a b, two (fields a b) = Some (a, b)).
  { intros a b. unfold two, fields. by rewrite unmark_mark, unmark_mark. }
  destruct t; cbn [parse print]; by rewrite Htwo.
Qed.

(** Identity-service revokes tokens by a hash of 64 hexadecimal digits. *)
Definition revoke (c : RevocationCall) : result string () :=
  if decide (String.length c.(token_hash) = 64%nat) then Ok tt else Err "token_hash must be 64 hex characters".

Definition error_text (e : VaultError) : string := "error".

Definition start : PgWorld :=
  {| pw_table := {| lt_rows := ∅; lt_tenants := {["t1"]} |}; pw_read := []; pw_calls := [] |}.

Definition req : CreateLeaseRequest :=
  {| r_tenant_id := "t1"; r_target_type := "token"; r_target_data := print (Token "h" "alice");
     r_ttl_seconds := 60; r_max_ttl_seconds := 100; r_renewable := true |}.

Abbreviation step := (pg_step add parse print error_text).

Definition lease1 : LeaseRecord :=
  {| lease_id := "l1"; l_tenant_id := "t1"; target_type := "token"; target_data := print (Token "h" "alice");
     lease_state := Active; ttl_seconds := 60; max_ttl_seconds := 100; renewable := true;
     issued_at := PG_EPOCH; l_expires_at := PG_EPOCH + 60 * NANOS; revoked_at := None |}.

Definition w1 : PgWorld := with_table start (pg_insert_lease parse print error_text None start.(pw_table) lease1).2.
Definition w2 : PgWorld :=
  {| pw_table := w1.(pw_table); pw_read := [("l1", lease1)]; pw_calls := [] |}.
Definition w3 : PgWorld :=
  with_table w2 (pg_revoke_lease error_text None w2.(pw_table) (PG_EPOCH + NANOS) "l1").2.
(** The renewal that had read the lease before it was revoked. *)
Definition w4 : PgWorld :=
  with_table w3 (renew_lease None w3.(pw_table) "l1" (PG_EPOCH + 100 * NANOS) 300).2.

Lemma run1 : rtc step start w1.
Proof. apply rtc_once, (pg_created _ _ _ _ _ None PG_EPOCH "l1" req lease1); done. Qed.

Lemma run4 : rtc step w1 w4.
Proof.
  eapply rtc_l; [by apply (pg_read_row _ _ _ _ w1 None "l1" lease1)|].
  eapply rtc_l; [by apply (pg_revoked _ _ _ _ w2 None (PG_EPOCH + NANOS) "l1")|].
  apply rtc_once. apply (pg_renewed _ _ _ _ w3 None (PG_EPOCH + NANOS) "l1" lease1 300); [|done].
  by left.
Qed.

Lemma pg_lease_lifecycle_witness :
  exists record', pg_get_lease parse print None w4.(pw_table) "l1" = Some record' /\
    evolves lease1 record' /\ bounded record'.
Proof.
  apply (pg_lease_lifecycle add parse print error_text add_spec start w1 w4 "l1" lease1);
    [done|done|exact run1|done|exact run4].
Defined.

Lemma lease_table_well_formed_witness : table_ok parse print w1.(pw_table).
Proof.
  apply (lease_table_well_formed add parse print error_text add_spec parse_print start w1);
    [done|done|exact run1].
Defined.

Definition row_with (id : string) (max_ttl : Z) (target : LeaseTarget) (expires : Z) : LeaseRow :=
  {| lr_id := id; lr_tenant_id := "t1"; lr_target_type := target_kind target;
     lr_target_data := print target; lr_state := "active"; lr_ttl_seconds := 60;
     lr_max_ttl_seconds := max_ttl; lr_renewable := true; lr_issued_at := PG_EPOCH;
     lr_expires_at := expires; lr_revoked_at := None |}.

Lemma pg_refines_memory_witness :
  let r := pg_renew_lease add parse print error_text (fun _ => None) (fun _ t => t) w1.(pw_table)
             (PG_EPOCH + NANOS) "l1" 300 in
  (r.1, in_memory parse print r.2) = Lease.renew_lease add (in_memory parse print w1.(pw_table))
    (PG_EPOCH + NANOS) "l1" 300.
Proof.
  apply (pg_refines_memory add parse print error_text add_spec parse_print w1.(pw_table)
           (PG_EPOCH + NANOS) "l1"); [|done|done].
  assert (Hrows : w1.(pw_table).(lt_rows) = {["l1" := row_with "l1" 100 (Token "h" "alice") (PG_EPOCH + 60 * NANOS)]})
    by (vm_compute; reflexivity).
  intros id r. rewrite Hrows. intros [<- <-]%lookup_singleton_Some.
  split; [|by eexists]. split; [done|].
  split.
  - cbn. lia.
  - vm_compute. discriminate.
  - vm_compute. reflexivity.
  - left.
  - by exists (Token "h" "alice").
Defined.

(** 500 leases of tokens whose hash is malformed, and one of a secret. *)
Definition crowd : list LeaseRow :=
  (fun k => row_with ("b" +:+ pretty k) 3600 (Token "bad" "eve") (PG_EPOCH + 60 * NANOS)) <$> seq 0 500.
Definition waiting : LeaseRow := row_with "good" 3600 (DynamicSecret "db" "app") (PG_EPOCH + 90 * NANOS).

Definition world_of (rows : list LeaseRow) : PgWorld :=
  with_table start {| lt_rows := list_to_map ((fun r => (r.(lr_id), r)) <$> rows); lt_tenants := {["t1"]} |}.

Definition jammed : PgWorld := world_of (waiting :: crowd).

(** The order the theorem asks for, decided by an instant between. *)
Definition blocked_first (w : PgWorld) (now middle : Z) : bool :=
  forallb (fun r =>
    if refuses parse print (Some revoke) r then r.(lr_expires_at) <=? middle else middle <? r.(lr_expires_at))
    (rows_of w.(pw_table)).

Lemma blocked_first_spec w now middle :
  blocked_first w now middle = true ->
  forall r s, r ∈ rows_of w.(pw_table) -> s ∈ rows_of w.(pw_table) ->
    blocked parse print (Some revoke) now r = true -> s.(lr_state) = "active" ->
    refuses parse print (Some revoke) s = false -> r.(lr_expires_at) < s.(lr_expires_at).
Proof.
  unfold blocked_first. intros Hf r s Hr%list_elem_of_In Hs%list_elem_of_In Hb Hact Href.
  rewrite forallb_forall in Hf. pose proof (Hf r Hr) as Hfr. pose proof (Hf s Hs) as Hfs.
  unfold blocked in Hb. apply andb_true_iff in Hb as [_ Hb]. rewrite Hb in Hfr. rewrite Href in Hfs. lia.
Qed.

Lemma refused_leases_starve_the_sweep_witness :
  foldl (fun w tick => pg_sweep parse print (Some revoke) error_text tick.1 w tick.2) jammed
    [(fun _ => None, PG_EPOCH + 3600 * NANOS); (fun _ => None, PG_EPOCH + 7200 * NANOS)] = jammed.
Proof.
  apply (refused_leases_starve_the_sweep parse print (Some revoke) error_text jammed (PG_EPOCH + 100 * NANOS)).
  - vm_compute. discriminate.
  - apply (blocked_first_spec _ _ (PG_EPOCH + 60 * NANOS)). vm_compute. reflexivity.
  - repeat constructor; vm_compute; discriminate.
Defined.

(** Without an identity client nothing is refused, and the same leases expire. *)
Lemma sweeps_drain_the_backlog_witness :
  (foldl (pg_sweep parse print None error_text (fun _ => None)) (world_of [waiting])
     [PG_EPOCH + 3600 * NANOS]).(pw_table).(lt_rows) !! "good" = Some (expired_row waiting).
Proof.
  apply (sweeps_drain_the_backlog parse print None error_text (world_of [waiting]) (PG_EPOCH + 100 * NANOS)).
  - assert (Hrows : (world_of [waiting]).(pw_table).(lt_rows) = {["good" := waiting]}) by (vm_compute; reflexivity).
    intros id r. rewrite Hrows. intros [<- <-]%lookup_singleton_Some.
    split; [done|]. split; [by eexists|done].
  - repeat constructor; vm_compute; discriminate.
  - vm_compute. discriminate.
  - vm_compute. reflexivity.
  - vm_compute. reflexivity.
Defined.

End LeaseDbDemo.
