(* ===== verification/Cluster.v ===== *)
(** * Leader election

    [crates/wslvault-cluster/src]: the elector on PostgreSQL advisory locks
    ([leader.rs]) and the registry of nodes ([store.rs], [config.rs]).

    A lock belongs to a session of the server, a session to the process that
    opened it, where it is the elector's own connection or rests in the pool. The
    state keeps both sides, because they part: a session can end without its
    client knowing, and a connection the elector gives up goes back to the pool,
    which keeps it while it answers. One round of a node is one pass of the loop in
    [LeaderElector::run]. *)

From S2P Require Import Prelude KeyStore.

(** ** Nodes *)

Record ClusterConfig := {
  c_node_id : option string;
  c_region : string;
  heartbeat_interval_secs : Z;
  leader_lock_timeout_secs : Z;
}.

Definition default_config : ClusterConfig :=
  {| c_node_id := None; c_region := "default"; heartbeat_interval_secs := 5;
     leader_lock_timeout_secs := 30 |}.

Definition resolved_node_id (hostname : option string) (pid : string) (self : ClusterConfig) : string :=
  default (default "unknown" hostname +:+ ":" +:+ pid) self.(c_node_id).

(** A row of [system.cluster_nodes], by [node_id]. *)
Record NodeRow := {
  nr_service_name : string;
  nr_region : string;
  nr_is_leader : bool;
  nr_last_heartbeat : Z;
  nr_started_at : Z;
}.

(** A running process: its idle connections and its elector. *)
Record Node := {
  service_name : string;
  pool : list string;
  lock_conn : option string;
  is_leader : bool;
}.

Record ClusterState := {
  (** sessions the server has ever given out, and those it still serves *)
  used : gset string;
  sessions : gset string;
  (** advisory locks by key: the session that holds each *)
  locks : gmap Z string;
  nodes : gmap string Node;
  registry : gmap string NodeRow;
}.

(** ** store.rs *)

Definition register_node (now : Z) (rows : gmap string NodeRow) (service node region : string) :
    gmap string NodeRow :=
  <[node := {| nr_service_name := service; nr_region := region; nr_is_leader := false;
               nr_last_heartbeat := now; nr_started_at := now |}]> rows.

Definition update_heartbeat (now : Z) (rows : gmap string NodeRow) (node : string) (leader : bool) :
    gmap string NodeRow :=
  alter (fun r => {| nr_service_name := r.(nr_service_name); nr_region := r.(nr_region);
                     nr_is_leader := leader; nr_last_heartbeat := now;
                     nr_started_at := r.(nr_started_at) |}) node rows.

Definition deregister_node (rows : gmap string NodeRow) (node : string) : gmap string NodeRow :=
  delete node rows.

(** [ORDER BY service_name, is_leader DESC, last_heartbeat DESC]; with a service
    the first key is constant. *)
Definition listed_before (a b : string * NodeRow) : bool :=
  let '(_, x) := a in let '(_, y) := b in
  if decide (x.(nr_service_name) = y.(nr_service_name)) then
    if Bool.eqb x.(nr_is_leader) y.(nr_is_leader) then y.(nr_last_heartbeat) <=? x.(nr_last_heartbeat)
    else x.(nr_is_leader)
  else String.leb x.(nr_service_name) y.(nr_service_name).

Definition list_nodes (rows : gmap string NodeRow) (service : option string) : list (string * NodeRow) :=
  order_by listed_before
    (List.filter (fun e => match service with
                           | Some s => bool_decide (e.2.(nr_service_name) = s)
                           | None => true
                           end) (map_to_list rows)).

Definition prune_stale_nodes (now : Z) (rows : gmap string NodeRow) (timeout_secs : Z) :
    gmap string NodeRow * Z :=
  let kept := filter (fun e => ~ e.2.(nr_last_heartbeat) < now - timeout_secs * 10 ^ 9) rows in
  (kept, Z.of_nat (size rows) - Z.of_nat (size kept)).

(** ** leader.rs *)

(** How the pool answers [acquire]: an idle connection that still works, a new
    one, or not in time. *)
Inductive Acquired := Pooled (session : string) | Opened (session : string) | Refused.

(** How the lock statement ends: answered, or failed — having run on the server
    or not, the connection then found usable by the pool or not. *)
Inductive Attempt := Answered | Failed (ran usable : bool).

Section Elector.
(** [DefaultHasher] over the name, as an [i64]. *)
Context (hash_service_name : string -> Z).

Definition lock_key (n : Node) : Z := hash_service_name n.(service_name).

(** [pg_try_advisory_lock]: re-entrant for the session that holds the lock. *)
Definition try_advisory_lock (held : gmap Z string) (key : Z) (s : string) : bool * gmap Z string :=
  match held !! key with
  | None => (true, <[key := s]> held)
  | Some s' => (bool_decide (s' = s), held)
  end.

Definition with_node (c : ClusterState) (id : string) (n : Node) : ClusterState :=
  {| used := c.(used); sessions := c.(sessions); locks := c.(locks); nodes := <[id := n]> c.(nodes);
     registry := c.(registry) |}.

Definition set_leader (n : Node) (b : bool) : Node :=
  {| service_name := n.(service_name); pool := n.(pool); lock_conn := n.(lock_conn); is_leader := b |}.

(** The connection the elector works on, and what is left of the pool. *)
Definition connect (c : ClusterState) (n : Node) (acq : Acquired) : option (string * list string * ClusterState) :=
  match n.(lock_conn), acq with
  | Some s, _ => Some (s, n.(pool), c)
  | None, Pooled s => Some (s, filter (.≠ s) n.(pool), c)
  | None, Opened s =>
      Some (s, n.(pool), {| used := {[s]} ∪ c.(used); sessions := {[s]} ∪ c.(sessions);
                            locks := c.(locks); nodes := c.(nodes); registry := c.(registry) |})
  | None, Refused => None
  end.

(** One pass of the loop; [beat] says whether the heartbeat statement succeeds. *)
Definition election_round (now : Z) (c : ClusterState) (id : string) (acq : Acquired) (att : Attempt)
    (beat : bool) : ClusterState :=
  match c.(nodes) !! id with
  | None => c
  | Some n =>
      match connect c n acq with
      | None => with_node c id (set_leader n false)
      | Some (s, idle, c) =>
          let '(won, held) := try_advisory_lock c.(locks) (lock_key n) s in
          match att with
          | Answered =>
              {| used := c.(used); sessions := c.(sessions); locks := held;
                 nodes := <[id := {| service_name := n.(service_name); pool := idle;
                                     lock_conn := Some s; is_leader := won |}]> c.(nodes);
                 registry := if beat then update_heartbeat now c.(registry) id won else c.(registry) |}
          | Failed ran usable =>
              {| used := c.(used); sessions := c.(sessions);
                 locks := if ran then held else c.(locks);
                 nodes := <[id := {| service_name := n.(service_name);
                                     pool := if usable then s :: idle else idle;
                                     lock_conn := None; is_leader := false |}]> c.(nodes);
                 registry := c.(registry) |}
          end
      end
  end.

(** What can happen. A lock statement reaches the server only over a session it
    still serves; a session that ends, because its process died or closed the
    connection or the server gave it up, releases its locks. *)
Definition acquirable (c : ClusterState) (n : Node) (acq : Acquired) : Prop :=
  match acq with
  | Pooled s => s ∈ n.(pool) /\ s ∈ c.(sessions)
  | Opened s => s ∉ c.(used)
  | Refused => True
  end.

Definition end_session (c : ClusterState) (s : string) : ClusterState :=
  {| used := c.(used); sessions := c.(sessions) ∖ {[s]};
     locks := filter (fun e => e.2 <> s) c.(locks); nodes := c.(nodes); registry := c.(registry) |}.

Definition reaches (c : ClusterState) (n : Node) (acq : Acquired) (att : Attempt) : Prop :=
  match att with
  | Failed false false => True
  | _ => match connect c n acq with Some (s, _, c') => s ∈ c'.(sessions) | None => True end
  end.

Inductive cluster_step : ClusterState -> ClusterState -> Prop :=
| node_round now c id n acq att beat :
    c.(nodes) !! id = Some n -> acquirable c n acq -> reaches c n acq att ->
    cluster_step c (election_round now c id acq att beat)
| session_ended c s : cluster_step c (end_session c s)
| node_started now c id service region (registered : bool) :
    c.(nodes) !! id = None ->
    cluster_step c
      {| used := c.(used); sessions := c.(sessions); locks := c.(locks);
         nodes := <[id := {| service_name := service; pool := []; lock_conn := None; is_leader := false |}]>
                    c.(nodes);
         registry := if registered then register_node now c.(registry) service id region
                     else c.(registry) |}
| node_stopped c id :
    cluster_step c
      {| used := c.(used); sessions := c.(sessions); locks := c.(locks);
         nodes := delete id c.(nodes); registry := c.(registry) |}.

(** ** Ownership of sessions and locks *)

Definition conns (n : Node) : list string := option_list n.(lock_conn) ++ n.(pool).

Record cluster_ok (c : ClusterState) : Prop := {
  ok_sessions : c.(sessions) ⊆ c.(used);
  ok_locks : forall k s, c.(locks) !! k = Some s -> s ∈ c.(sessions);
  ok_conns : forall id n s, c.(nodes) !! id = Some n -> s ∈ conns n -> s ∈ c.(used);
  ok_owner : forall i j a b s, c.(nodes) !! i = Some a -> c.(nodes) !! j = Some b ->
    s ∈ conns a -> s ∈ conns b -> i = j;
  ok_leader : forall id n, c.(nodes) !! id = Some n -> n.(is_leader) = true ->
    exists s, n.(lock_conn) = Some s /\ (s ∈ c.(sessions) -> c.(locks) !! lock_key n = Some s);
}.

(** A node replaced by one that owns no more than it did, beside new sessions. *)
Lemma replace_ok c c' id n n' :
  cluster_ok c -> c.(nodes) !! id = Some n -> c'.(nodes) = <[id := n']> c.(nodes) ->
  c.(used) ⊆ c'.(used) -> c'.(sessions) ⊆ c'.(used) ->
  (forall k s, c'.(locks) !! k = Some s -> s ∈ c'.(sessions)) ->
  (forall s, s ∈ conns n' -> s ∈ c'.(used) /\ (s ∈ conns n \/ s ∉ c.(used))) ->
  (forall k s, c.(locks) !! k = Some s -> c'.(locks) !! k = Some s) ->
  (forall s, s ∈ c'.(sessions) -> s ∈ c.(used) -> s ∈ c.(sessions)) ->
  (n'.(is_leader) = true -> exists s, n'.(lock_conn) = Some s /\
     (s ∈ c'.(sessions) -> c'.(locks) !! lock_key n' = Some s)) ->
  cluster_ok c'.
Proof.
  intros [_ _ Hco Hown Hlead] Hn Hnodes Hu Hsu Hlo Hconns Hkeep Hold Hlead'. split; [done|done| | |].
  - intros i a s. rewrite Hnodes. intros [[<- <-]|[Hne Ha]]%lookup_insert_Some Hs; [by apply Hconns|].
    apply Hu. by eapply Hco.
  - intros i j a b s. rewrite Hnodes.
    intros [[<- <-]|[Hi Ha]]%lookup_insert_Some [[<- <-]|[Hj Hb]]%lookup_insert_Some Hsa Hsb; try done.
    + destruct (Hconns s Hsa) as [_ [Hs|Hs]]; [by eapply (Hown id j n b s)|]. destruct Hs. by eapply Hco.
    + destruct (Hconns s Hsb) as [_ [Hs|Hs]]; [by eapply (Hown i id a n s)|]. destruct Hs. by eapply Hco.
    + by eapply (Hown i j a b s).
  - intros i a. rewrite Hnodes. intros [[<- <-]|[Hi Ha]]%lookup_insert_Some Hl; [by apply Hlead'|].
    destruct (Hlead i a Ha Hl) as (s & Hs & Hlock). exists s. split; [done|]. intros Hin.
    apply Hkeep, Hlock, Hold; [done|]. eapply Hco; [done|]. unfold conns. rewrite Hs. left.
Qed.

(** What the elector connects to is its own or new. *)
Lemma connect_spec c n acq s idle c' :
  acquirable c n acq -> connect c n acq = Some (s, idle, c') ->
  c'.(locks) = c.(locks) /\ c'.(nodes) = c.(nodes) /\ c'.(registry) = c.(registry) /\
  (forall x, x ∈ idle -> x ∈ n.(pool)) /\
  ((s ∈ conns n /\ c' = c) \/
   ((s ∉ c.(used)) /\ c'.(used) = {[s]} ∪ c.(used) /\ c'.(sessions) = {[s]} ∪ c.(sessions))).
Proof.
  unfold connect, conns. destruct n.(lock_conn) as [x|].
  - intros _ [= <- <- <-]. cbn. split_and!; try done. left. split; [left|done].
  - destruct acq; cbn; intros Hacq [= <- <- <-]; cbn; split_and!; try done.
    + intros x [_ Hx]%list_elem_of_filter. done.
    + left. by destruct Hacq.
    + by right.
Qed.

Lemma try_lock_spec held key s won held' :
  try_advisory_lock held key s = (won, held') ->
  (won = true -> held' !! key = Some s) /\
  (forall k x, held !! k = Some x -> held' !! k = Some x) /\
  (forall k x, held' !! k = Some x -> held !! k = Some x \/ x = s).
Proof.
  unfold try_advisory_lock. destruct (held !! key) as [x|] eqn:Hk; intros [= <- <-].
  - split_and!; [|by auto|by auto]. intros ->%bool_decide_eq_true. done.
  - split_and!; [intros _; apply lookup_insert_eq| |].
    + intros k x Hx. rewrite lookup_insert_ne; [done|congruence].
    + intros k x [[_ <-]|[_ Hx]]%lookup_insert_Some; auto.
Qed.

Lemma round_ok now c id n acq att beat :
  cluster_ok c -> c.(nodes) !! id = Some n -> acquirable c n acq -> reaches c n acq att ->
  cluster_ok (election_round now c id acq att beat).
Proof.
  intros Hok Hn Hacq Hreach. unfold election_round. rewrite Hn. pose proof Hok as [Hsu Hlo Hco _ _].
  destruct (connect c n acq) as [[[s idle] c']|] eqn:Hc.
  - destruct (connect_spec _ _ _ _ _ _ Hacq Hc) as (Hl & Hns & _ & Hidle & Hs).
    assert (Hused : c.(used) ⊆ c'.(used) /\ c'.(sessions) ⊆ c'.(used) /\ s ∈ c'.(used)).
    { destruct Hs as [[Hs ->]|(Hs & -> & ->)]; [|set_solver]. split_and!; [done..|by eapply Hco]. }
    assert (Hold : forall x, x ∈ c'.(sessions) -> x ∈ c.(used) -> x ∈ c.(sessions)).
    { destruct Hs as [[_ ->]|(Hs & _ & ->)]; [done|set_solver]. }
    assert (Hgrow : c.(sessions) ⊆ c'.(sessions)) by (destruct Hs as [[_ ->]|(_ & _ & ->)]; set_solver).
    assert (Hown : forall x, x = s \/ x ∈ idle -> x ∈ c'.(used) /\ (x ∈ conns n \/ x ∉ c.(used))).
    { destruct Hused as (Hu & _ & Hsu').
      intros x [->|Hx]; [split; [done|]; destruct Hs as [[? _]|[? _]]; auto|].
      assert (Hx' : x ∈ conns n) by (apply elem_of_app; right; by apply Hidle).
      split; [apply Hu; by eapply Hco|by left]. }
    unfold reaches in Hreach. rewrite Hc in Hreach.
    destruct (try_advisory_lock c'.(locks) (lock_key n) s) as [won held] eqn:Ht. rewrite Hl in Ht.
    destruct (try_lock_spec _ _ _ _ _ Ht) as (Hwon & Hkeep & Hnew).
    assert (Hheld : s ∈ c'.(sessions) -> forall k x, held !! k = Some x -> x ∈ c'.(sessions)).
    { intros Hin k x Hx. destruct (Hnew k x Hx) as [Hx'| ->]; [|done]. by apply Hgrow, (Hlo k). }
    destruct Hused as (Hu & Hsu' & _). destruct att as [|ran usable].
    + apply (replace_ok c _ id n {| service_name := n.(service_name); pool := idle;
        lock_conn := Some s; is_leader := won |} Hok Hn); cbn; [by rewrite Hns|done|done| | |done|done|].
      * by apply Hheld.
      * intros x Hx. apply Hown. unfold conns in Hx. cbn in Hx. by rewrite elem_of_cons in Hx.
      * intros Hw. exists s. split; [done|]. intros _. by apply Hwon.
    + apply (replace_ok c _ id n {| service_name := n.(service_name);
        pool := if usable then s :: idle else idle; lock_conn := None; is_leader := false |} Hok Hn);
        cbn; [by rewrite Hns|done|done| | | |done|done].
      * destruct ran; [by apply Hheld|]. rewrite Hl. intros k x Hx. by apply Hgrow, (Hlo k).
      * intros x Hx. apply Hown. unfold conns in Hx. cbn in Hx.
        destruct usable; [by rewrite elem_of_cons in Hx|by right].
      * destruct ran; [done|]. by rewrite Hl.
  - apply (replace_ok c _ id n (set_leader n false)); cbn; try done.
    intros s Hs. split; [by eapply Hco|by left].
Qed.

Lemma end_session_ok c s : cluster_ok c -> cluster_ok (end_session c s).
Proof.
  intros [Hsu Hlo Hco Hown Hlead]. split; cbn; [set_solver| |done|done|].
  - intros k x [Hx Hne]%map_lookup_filter_Some. cbn in Hne. specialize (Hlo k x Hx). set_solver.
  - intros id n Hn Hl. destruct (Hlead id n Hn Hl) as (x & Hx & Hlock). exists x. split; [done|].
    intros Hin. apply map_lookup_filter_Some. split; [apply Hlock; set_solver|]. cbn. set_solver.
Qed.

Lemma cluster_step_ok c c' : cluster_ok c -> cluster_step c c' -> cluster_ok c'.
Proof.
  intros Hok Hstep. destruct Hstep.
  - by apply (round_ok now c id n).
  - by apply end_session_ok.
  - destruct Hok as [Hsu Hlo Hco Hown Hlead]. split; cbn; try done.
    + intros i a s [[<- <-]|[_ Ha]]%lookup_insert_Some Hs; [by apply elem_of_nil in Hs|by eapply Hco].
    + intros i j a b s [[<- <-]|[_ Ha]]%lookup_insert_Some [[<- <-]|[_ Hb]]%lookup_insert_Some Hsa Hsb;
        [done|by apply elem_of_nil in Hsa|by apply elem_of_nil in Hsb|by eapply Hown].
    + intros i a [[<- <-]|[_ Ha]]%lookup_insert_Some Hl; [done|by eapply Hlead].
  - destruct Hok as [Hsu Hlo Hco Hown Hlead]. split; cbn; try done.
    + intros i a s [_ Ha]%lookup_delete_Some. by eapply Hco.
    + intros i j a b s [_ Ha]%lookup_delete_Some [_ Hb]%lookup_delete_Some. by eapply Hown.
    + intros i a [_ Ha]%lookup_delete_Some. by eapply Hlead.
Qed.

Lemma cluster_run_ok c c' : cluster_ok c -> rtc cluster_step c c' -> cluster_ok c'.
Proof. intros Hok Hrun. induction Hrun; [done|]. by eauto using cluster_step_ok. Qed.

(** A cluster nobody has joined yet. *)
Definition no_nodes (c : ClusterState) : Prop :=
  c.(nodes) = ∅ /\ c.(locks) = ∅ /\ c.(sessions) ⊆ c.(used).

Lemma no_nodes_ok c : no_nodes c -> cluster_ok c.
Proof. intros (Hn & Hl & Hs). split; [done|rewrite Hl|rewrite Hn..]; set_solver. Qed.

(** The connection over which a node leads is still served. *)
Definition connected (c : ClusterState) (n : Node) : Prop :=
  exists s, n.(lock_conn) = Some s /\ s ∈ c.(sessions).

(** C33. At most one node of a service leads. However nodes come and go,
    statements fail and sessions end, two nodes that take themselves for the
    leader while the server still serves the sessions they hold are the same
    node. *)
Theorem at_most_one_leader start c i j a b :
  no_nodes start -> rtc cluster_step start c ->
  c.(nodes) !! i = Some a -> c.(nodes) !! j = Some b ->
  a.(service_name) = b.(service_name) ->
  a.(is_leader) = true -> b.(is_leader) = true -> connected c a -> connected c b -> i = j.
Proof.
  intros Hstart Hrun Ha Hb Hsvc Hla Hlb (s & Hs & Hsa) (x & Hx & Hxb).
  pose proof (cluster_run_ok _ _ (no_nodes_ok _ Hstart) Hrun) as [_ _ _ Hown Hlead].
  destruct (Hlead i a Ha Hla) as (s' & Hs' & Hlock). destruct (Hlead j b Hb Hlb) as (x' & Hx' & Hlock').
  assert (s' = s) as -> by congruence. assert (x' = x) as -> by congruence.
  specialize (Hlock Hsa). specialize (Hlock' Hxb). unfold lock_key in *. rewrite Hsvc in Hlock.
  assert (x = s) as -> by congruence.
  apply (Hown i j a b s Ha Hb); unfold conns; [rewrite Hs|rewrite Hx]; left.
Qed.

(** A node that is told it leads does: after a round that was answered, the
    node takes itself for the leader exactly when the session it holds is alive
    and owns the lock of its service. *)
Theorem answered_round_is_right now start c id n acq beat :
  no_nodes start -> rtc cluster_step start c ->
  c.(nodes) !! id = Some n -> acquirable c n acq -> reaches c n acq Answered ->
  connect c n acq <> None ->
  let c' := election_round now c id acq Answered beat in
  exists n' s, c'.(nodes) !! id = Some n' /\ n'.(service_name) = n.(service_name) /\
    n'.(lock_conn) = Some s /\ s ∈ c'.(sessions) /\
    (n'.(is_leader) = true <-> c'.(locks) !! lock_key n = Some s).
Proof.
  intros Hstart Hrun Hn Hacq Hreach Hconn c'. subst c'. unfold election_round, reaches in *. rewrite Hn.
  destruct (connect c n acq) as [[[s idle] c1]|] eqn:Hc; [|done].
  unfold try_advisory_lock. destruct (c1.(locks) !! lock_key n) as [x|] eqn:Hk; cbn.
  - eexists _, s. rewrite lookup_insert_eq. split_and!; [done|done|done|done|]. cbn. rewrite bool_decide_eq_true.
    rewrite Hk. naive_solver.
  - eexists _, s. rewrite lookup_insert_eq. split_and!; [done|done|done|done|]. cbn.
    rewrite lookup_insert_eq. done.
Qed.

(** ** A lock that nobody uses *)

(** The lock belongs to a living session that no elector works on. *)
Definition abandoned (c : ClusterState) (key : Z) (s : string) : Prop :=
  c.(locks) !! key = Some s /\ s ∈ c.(sessions) /\
  forall id n, c.(nodes) !! id = Some n -> n.(lock_conn) <> Some s.

(** Steps that neither end the session nor hand its connection to an elector. *)
Inductive ignoring (s : string) : ClusterState -> ClusterState -> Prop :=
| ignoring_round now c id n acq att beat :
    c.(nodes) !! id = Some n -> acquirable c n acq -> reaches c n acq att -> acq <> Pooled s ->
    ignoring s c (election_round now c id acq att beat)
| ignoring_end c x : x <> s -> ignoring s c (end_session c x)
| ignoring_other c c' :
    cluster_step c c' -> c'.(locks) = c.(locks) -> c'.(sessions) = c.(sessions) ->
    (forall id n, c'.(nodes) !! id = Some n -> c.(nodes) !! id = Some n \/ n.(lock_conn) = None) ->
    ignoring s c c'.

Lemma ignoring_step s c c' : ignoring s c c' -> cluster_step c c'.
Proof. destruct 1; [by econstructor|constructor|done]. Qed.

Lemma ignoring_abandoned s c c' key :
  cluster_ok c -> abandoned c key s -> ignoring s c c' -> abandoned c' key s.
Proof.
  intros Hok (Hl & Hs & Hn) Hstep. destruct Hstep as [now c id n acq att beat Hid Hacq Hreach Hne|c x Hne|c c' Hc Hlo Hse Hno].
  - unfold election_round. rewrite Hid. destruct (connect c n acq) as [[[x idle] c1]|] eqn:Hc.
    + destruct (connect_spec _ _ _ _ _ _ Hacq Hc) as (Hl1 & Hn1 & _ & _ & Hx).
      assert (Hxs : x <> s).
      { unfold connect in Hc. destruct n.(lock_conn) as [y|] eqn:Hy.
        - injection Hc as -> _ _. intros ->. by apply (Hn id n).
        - destruct acq; try done; injection Hc as -> _ _; [congruence|].
          intros ->. cbn in Hacq. destruct Hacq. by apply (ok_sessions _ Hok). }
      assert (Hs1 : s ∈ c1.(sessions)) by (destruct Hx as [[_ ->]|(_ & _ & ->)]; set_solver).
      destruct (try_advisory_lock _ _ x) as [won held] eqn:Ht. rewrite Hl1 in Ht.
      destruct (try_lock_spec _ _ _ _ _ Ht) as (_ & Hkeep & _).
      destruct att as [|ran usable]; (split_and!; cbn; [|done|rewrite Hn1]).
      * by apply Hkeep.
      * intros i a [[<- <-]|[_ Ha]]%lookup_insert_Some; [cbn; congruence|by eapply Hn].
      * rewrite Hl1. destruct ran; [by apply Hkeep|done].
      * intros i a [[<- <-]|[_ Ha]]%lookup_insert_Some; [done|by eapply Hn].
    + split_and!; cbn; [done|done|].
      intros i a [[<- <-]|[_ Ha]]%lookup_insert_Some; [exact (Hn id n Hid)|by eapply Hn].
  - split_and!; cbn; [|set_solver|done]. by apply map_lookup_filter_Some.
  - split_and!; [by rewrite Hlo|by rewrite Hse|]. intros i a Ha.
    destruct (Hno i a Ha) as [Ha'| ->]; [by apply (Hn i)|done].
Qed.


(** No node of the service leads over a session the server still serves. *)
Definition leaderless (c : ClusterState) (service : string) : Prop :=
  forall j b, c.(nodes) !! j = Some b -> b.(service_name) = service -> b.(is_leader) = true ->
    ~ connected c b.

(** A lost answer can leave a service without a leader. The elector drops its
    connection when the lock statement fails, so that the server releases the
    lock; but the connection returns to the pool, and where it still works the
    lock stays with it. Until the pool closes that connection or hands it to the
    elector again, no node of the service leads, whatever rounds they make. *)
Theorem returned_connection_blocks_election now start c id n s acq beat c' :
  no_nodes start -> rtc cluster_step start c ->
  c.(nodes) !! id = Some n -> n.(is_leader) = true -> n.(lock_conn) = Some s -> s ∈ c.(sessions) ->
  rtc (ignoring s) (election_round now c id acq (Failed true true) beat) c' ->
  leaderless c' n.(service_name).
Proof.
  intros Hstart Hrun Hn Hlead Hs Hin Hrun' j b Hb Hsvc Hlb.
  pose proof (cluster_run_ok _ _ (no_nodes_ok _ Hstart) Hrun) as Hok.
  assert (Hlock : c.(locks) !! lock_key n = Some s).
  { destruct (ok_leader _ Hok id n Hn Hlead) as (x & Hx & Hl). assert (x = s) as -> by congruence. auto. }
  assert (Hab : abandoned (election_round now c id acq (Failed true true) beat) (lock_key n) s).
  { unfold election_round, connect. rewrite Hn, Hs. unfold try_advisory_lock. rewrite Hlock.
    split_and!; cbn; [done|done|]. intros i a [[<- <-]|[Hne Ha]]%lookup_insert_Some; [done|].
    intros Hsa. apply Hne. apply (ok_owner _ Hok id i n a s Hn Ha); unfold conns; [rewrite Hs|rewrite Hsa]; left. }
  assert (Hok1 : cluster_ok (election_round now c id acq (Failed true true) beat)).
  { unfold election_round, connect. rewrite Hn, Hs. unfold try_advisory_lock. rewrite Hlock.
    apply (replace_ok c _ id n {| service_name := n.(service_name); pool := s :: n.(pool);
      lock_conn := None; is_leader := false |} Hok Hn); cbn; try done; try apply Hok.
    intros x Hx. assert (Hx' : x ∈ conns n) by (unfold conns; by rewrite Hs).
    split; [by eapply (ok_conns _ Hok)|by left]. }
  assert (Hend : cluster_ok c' /\ abandoned c' (lock_key n) s).
  { clear Hb. induction Hrun' as [|x y z Hxy _ IH]; [done|]. apply IH.
    - by eapply ignoring_abandoned.
    - eapply cluster_step_ok; [done|by eapply ignoring_step]. }
  destruct Hend as [Hok' (Hl & _ & Hno)]. intros (x & Hx & Hxin).
  destruct (ok_leader _ Hok' j b Hb Hlb) as (x' & Hx' & Hl').
  assert (x' = x) as -> by congruence. specialize (Hl' Hxin).
  unfold lock_key in *. rewrite Hsvc in Hl'. apply (Hno j b Hb). congruence.
Qed.

End Elector.

(** ** On concrete data *)

Module ClusterDemo.

Definition hash (s : string) : Z := Z.of_nat (String.length s).

Definition empty : ClusterState :=
  {| used := ∅; sessions := ∅; locks := ∅; nodes := ∅; registry := ∅ |}.

Definition start_node (c : ClusterState) (id : string) : ClusterState :=
  {| used := c.(used); sessions := c.(sessions); locks := c.(locks);
     nodes := <[id := {| service_name := "lease-manager"; pool := []; lock_conn := None; is_leader := false |}]>
                c.(nodes);
     registry := register_node 0 c.(registry) "lease-manager" id "eu" |}.

Definition c1 : ClusterState := start_node (start_node empty "n1") "n2".
(** [n1] opens a session and wins, [n2] opens one and does not. *)
Definition c2 : ClusterState := election_round hash 5 c1 "n1" (Opened "s1") Answered true.
Definition c3 : ClusterState := election_round hash 6 c2 "n2" (Opened "s2") Answered true.
(** The next statement of [n1] fails although the connection is sound. *)
Definition c4 : ClusterState := election_round hash 10 c3 "n1" Refused (Failed true true) true.
(** Both try again, [n1] on a new connection. *)
Definition c5 : ClusterState := election_round hash 15 c4 "n1" (Opened "s3") Answered true.
Definition c6 : ClusterState := election_round hash 16 c5 "n2" Refused Answered true.

Definition leaders (c : ClusterState) : list string :=
  fst <$> filter (fun e => e.2.(is_leader) = true) (map_to_list c.(nodes)).

Example election : leaders c3 = ["n1"] /\ leaders c6 = [].
Proof. vm_compute. done. Qed.

(** Between the end of its session and its next round the old leader does not
    know: two nodes lead at once. *)
Example two_leaders_for_a_while :
  leaders (election_round hash 7 (end_session c3 "s1") "n2" Refused Answered true) = ["n1"; "n2"] \/
  leaders (election_round hash 7 (end_session c3 "s1") "n2" Refused Answered true) = ["n2"; "n1"].
Proof. vm_compute. auto. Qed.

Lemma run_to_c3 : rtc (cluster_step hash) empty c3.
Proof.
  eapply rtc_l; [by apply (node_started hash 0 empty "n1" "lease-manager" "eu" true)|].
  eapply rtc_l; [by apply (node_started hash 0 (start_node empty "n1") "n2" "lease-manager" "eu" true)|].
  eapply rtc_l; [eapply (node_round hash 5 c1 "n1" _ (Opened "s1") Answered true)|].
  - reflexivity.
  - cbn. set_solver.
  - cbn. set_solver.
  - apply rtc_once. eapply (node_round hash 6 c2 "n2" _ (Opened "s2") Answered true).
    + reflexivity.
    + vm_compute. by intros.
    + vm_compute. reflexivity.
Qed.

Lemma empty_no_nodes : no_nodes empty.
Proof. done. Qed.

Lemma at_most_one_leader_witness :
  let n := {| service_name := "lease-manager"; pool := []; lock_conn := Some "s1"; is_leader := true |} in
  c3.(nodes) !! "n1" = Some n /\ "n1" = "n1".
Proof.
  intros n. split; [reflexivity|].
  apply (at_most_one_leader hash empty c3 "n1" "n1" n n empty_no_nodes run_to_c3); try reflexivity;
    exists "s1"; split; reflexivity.
Defined.

Lemma answered_round_is_right_witness :
  let c' := election_round hash 11 c3 "n2" Refused Answered true in
  exists n' s, c'.(nodes) !! "n2" = Some n' /\ n'.(service_name) = "lease-manager" /\
    n'.(lock_conn) = Some s /\ s ∈ c'.(sessions) /\
    (n'.(is_leader) = true <-> c'.(locks) !! 13 = Some s).
Proof.
  apply (answered_round_is_right hash 11 empty c3 "n2"
    {| service_name := "lease-manager"; pool := []; lock_conn := Some "s2"; is_leader := false |}
    Refused true empty_no_nodes run_to_c3); [reflexivity|exact I|reflexivity|discriminate].
Defined.

Lemma returned_connection_blocks_election_witness : leaderless c6 "lease-manager".
Proof.
  apply (returned_connection_blocks_election hash 10 empty c3 "n1"
    {| service_name := "lease-manager"; pool := []; lock_conn := Some "s1"; is_leader := true |}
    "s1" Refused true c6 empty_no_nodes run_to_c3); try reflexivity.
  eapply rtc_l; [eapply (ignoring_round hash "s1" 15 c4 "n1" _ (Opened "s3") Answered true)|apply rtc_once;
    eapply (ignoring_round hash "s1" 16 c5 "n2" _ Refused Answered true)].
  - reflexivity.
  - vm_compute. by intros.
  - vm_compute. reflexivity.
  - discriminate.
  - reflexivity.
  - exact I.
  - vm_compute. reflexivity.
  - discriminate.
Defined.

End ClusterDemo.
