(* ===== verification/RegionHealth.v ===== *)
(** * Region health and failover

    [services/region-health/src]: the table of regions ([store.rs]), the poller
    ([poller.rs]), the promotion of a region ([failover.rs]) and the operator
    routes with their gate ([main.rs]). The poller runs on the leader of
    [Cluster]; here leadership is what it is told at each tick. *)

From S2P Require Import Prelude Errors Json Auth KeyStore Cluster.

(** ** store.rs *)

Record RegionInfo := {
  display_name : string;
  endpoint : string;
  status : string;
  is_local : bool;
  replication_lag_ms : option Z;
  last_seen : Z;
  metadata : Json;
}.

(** [system.regions] by id, and the announced promotions of
    [system.replication_events]: source region and target. *)
Record RegionDb := { regions : gmap string RegionInfo; promoted : list (string * string) }.

Definition id_asc (a b : string * RegionInfo) : bool := String.leb a.1 b.1.

Definition list_regions (io : option string) (db : RegionDb) : result string (list (string * RegionInfo)) :=
  match io with
  | Some e => Err e
  | None => Ok (order_by id_asc (map_to_list db.(regions)))
  end.

Definition get_region (io : option string) (db : RegionDb) (id : string) : result string (option RegionInfo) :=
  match io with Some e => Err e | None => Ok (db.(regions) !! id) end.

Definition set_status (now : Z) (st : string) (lag : option Z) (r : RegionInfo) : RegionInfo :=
  {| display_name := r.(display_name); endpoint := r.(endpoint); status := st; is_local := r.(is_local);
     replication_lag_ms := lag; last_seen := now; metadata := r.(metadata) |}.

Definition update_region_status (io : option string) (now : Z) (db : RegionDb) (id st : string)
    (lag : option Z) : result string () * RegionDb :=
  match io with
  | Some e => (Err e, db)
  | None => (Ok tt, {| regions := alter (set_status now st lag) id db.(regions); promoted := db.(promoted) |})
  end.

(** ** poller.rs *)

Definition OFFLINE_CONSECUTIVE_FAILURES : Z := 3.

(** How a health request ends: a success after so many milliseconds, another
    answer, or none. *)
Inductive Probe := Healthy (rtt_ms : Z) | Unhealthy (code : Z) | Unreachable (error : string).

Record Poller := { failure_counts : gmap string Z; poller_db : RegionDb }.

(** What a tick meets: the time, the answers by endpoint, and which statements
    fail (the listing is the first). *)
Record Tick := { t_now : Z; t_leader : bool; t_probe : string -> Probe; t_io : nat -> option string }.

Definition poll_one (t : Tick) (k : nat) (p : Poller) (id : string) (region : RegionInfo) : Poller :=
  let store st lag := (update_region_status (t.(t_io) k) t.(t_now) p.(poller_db) id st lag).2 in
  if region.(is_local)
  then {| failure_counts := p.(failure_counts); poller_db := store "active" (Some 0) |}
  else match t.(t_probe) (region.(endpoint) +:+ "/health") with
       | Healthy rtt_ms =>
           {| failure_counts := <[id := 0]> p.(failure_counts); poller_db := store "active" (Some rtt_ms) |}
       | Unhealthy _ | Unreachable _ =>
           let count := as_u32 (default 0 (p.(failure_counts) !! id) + 1) in
           {| failure_counts := <[id := count]> p.(failure_counts);
              poller_db := store (if OFFLINE_CONSECUTIVE_FAILURES <=? count then "offline" else "degraded") None |}
       end.

Fixpoint poll_all (t : Tick) (k : nat) (p : Poller) (l : list (string * RegionInfo)) : Poller :=
  match l with
  | [] => p
  | (id, region) :: l' => poll_all t (S k) (poll_one t k p id region) l'
  end.

Definition poll_tick (p : Poller) (t : Tick) : Poller :=
  if negb t.(t_leader) then p
  else match list_regions (t.(t_io) 0%nat) p.(poller_db) with
       | Err _ => p
       | Ok l => poll_all t 1 p l
       end.

(** ** failover.rs *)

(** Two statements, the second of which may fail after the first. *)
Definition trigger_failover (io : nat -> option string) (now : Z) (db : RegionDb)
    (target_region local_region : string) : result string () * RegionDb :=
  match io 0%nat with
  | Some e => (Err e, db)
  | None =>
      let db := {| regions := db.(regions); promoted := db.(promoted) ++ [(local_region, target_region)] |} in
      match io 1%nat with
      | Some e => (Err e, db)
      | None => (Ok tt, {| regions := alter (fun r => set_status now "active" r.(replication_lag_ms) r)
                                            target_region db.(regions);
                           promoted := db.(promoted) |})
      end
  end.

(** ** main.rs *)

Inductive Body :=
| BEmpty
| BError (message : string)
| BRegions (l : list (string * RegionInfo))
| BRegion (r : option RegionInfo)
| BOutcome (outcome message : string)
| BNodes (local_region : option string) (l : list (string * NodeRow)).

Inductive Request :=
| ListRegions
| GetRegion (region_id : string)
| PromoteRegion (region_id : string)
| ClusterStatus
| ClusterNodes (service : option string)
| Health
| Ready.

Section Service.
Context {auth : Authenticator} (env : Env) (local_region : string).

(** The pool, once the background task has connected it. *)
Record AppState := { db : RegionDb; connected_pool : bool; node_rows : gmap string NodeRow }.

Definition set_db (s : AppState) (d : RegionDb) : AppState :=
  {| db := d; connected_pool := s.(connected_pool); node_rows := s.(node_rows) |}.

Definition require_platform_admin (headers : HeaderMap) : result (Z * Body) () :=
  match resolve headers with
  | Err e => Err (401, BError e)
  | Ok identity =>
      if is_platform_admin env identity then Ok tt
      else Err (403, BError ("platform administration required: this endpoint needs the '"
                             +:+ admin_policy_name env +:+ "' policy"))
  end.

Definition promote_region (io : nat -> option string) (now : Z) (s : AppState) (region_id : string) :
    (Z * Body) * AppState :=
  let '(r, d) := trigger_failover io now s.(db) region_id local_region in
  ((200, match r with
         | Ok _ => BOutcome "ok" ("Failover to " +:+ region_id +:+ " initiated")
         | Err e => BOutcome "error" e
         end), set_db s d).

Definition nodes_or_empty (io : option string) (s : AppState) (service : option string) :
    list (string * NodeRow) :=
  match io with Some _ => [] | None => list_nodes s.(node_rows) service end.

(** The data plane answers 503 until the pool is there. *)
Definition operator_handler (io : nat -> option string) (now : Z) (s : AppState) (req : Request) :
    (Z * Body) * AppState :=
  if negb s.(connected_pool) then ((503, BEmpty), s)
  else match req with
  | ListRegions => ((200, BRegions (default [] (result_ok (list_regions (io 0%nat) s.(db))))), s)
  | GetRegion id =>
      ((200, BRegion (r ← result_ok (get_region (io 0%nat) s.(db) id); r)), s)
  | PromoteRegion id => promote_region io now s id
  | ClusterStatus => ((200, BNodes (Some local_region) (nodes_or_empty (io 0%nat) s None)), s)
  | ClusterNodes service => ((200, BNodes None (nodes_or_empty (io 0%nat) s service)), s)
  | _ => ((404, BEmpty), s)
  end.

Definition readiness_handler (io : option string) (s : AppState) : Z :=
  if s.(connected_pool) then match io with None => 200 | Some _ => 503 end else 503.

(** The router: probes are open, the rest is behind the gate. *)
Definition serve (io : nat -> option string) (now : Z) (headers : HeaderMap) (s : AppState) (req : Request) :
    (Z * Body) * AppState :=
  match req with
  | Health => ((200, BEmpty), s)
  | Ready => ((readiness_handler (io 0%nat) s, BEmpty), s)
  | _ => match require_platform_admin headers with
         | Err r => (r, s)
         | Ok _ => operator_handler io now s req
         end
  end.

End Service.

(** ** What the table says about a region *)

(** One tick seen from one region: its failure count and its row. *)
Definition region_after (t : Tick) (count : option Z) (r : RegionInfo) : option Z * RegionInfo :=
  if r.(is_local) then (count, set_status t.(t_now) "active" (Some 0) r)
  else match t.(t_probe) (r.(endpoint) +:+ "/health") with
       | Healthy rtt_ms => (Some 0, set_status t.(t_now) "active" (Some rtt_ms) r)
       | _ => let n := as_u32 (default 0 count + 1) in
              (Some n, set_status t.(t_now)
                 (if OFFLINE_CONSECUTIVE_FAILURES <=? n then "offline" else "degraded") None r)
       end.

(** A tick whose statements succeed. *)
Definition quiet (t : Tick) : Prop := forall k, t.(t_io) k = None.

Definition view (p : Poller) (id : string) : option (option Z * RegionInfo) :=
  r ← p.(poller_db).(regions) !! id; Some (p.(failure_counts) !! id, r).

Lemma poll_one_view t k p id region id' :
  quiet t -> (forall r, p.(poller_db).(regions) !! id = Some r ->
                r.(is_local) = region.(is_local) /\ r.(endpoint) = region.(endpoint)) ->
  view (poll_one t k p id region) id' =
  if decide (id' = id) then (fun e => region_after t e.1 e.2) <$> view p id else view p id'.
Proof.
  intros Hq Hsame. unfold poll_one, view, update_region_status, region_after. rewrite (Hq k). cbn.
  destruct (decide (id' = id)) as [->|Hne].
  - destruct (p.(poller_db).(regions) !! id) as [r|] eqn:Hr; cbn.
    + destruct (Hsame r eq_refl) as [-> ->]. destruct region.(is_local); cbn.
      { by rewrite lookup_alter_eq, Hr. }
      destruct (t.(t_probe) _); cbn; by rewrite lookup_alter_eq, Hr, lookup_insert_eq.
    + destruct region.(is_local); cbn; [by rewrite lookup_alter_eq, Hr|].
      destruct (t.(t_probe) _); cbn; by rewrite lookup_alter_eq, Hr.
  - destruct region.(is_local); cbn; [by rewrite lookup_alter_ne|].
    destruct (t.(t_probe) _); cbn; by rewrite lookup_alter_ne, lookup_insert_ne.
Qed.

Lemma poll_all_view t k p l id :
  quiet t -> NoDup (fst <$> l) ->
  (forall e, e ∈ l -> forall r, p.(poller_db).(regions) !! e.1 = Some r ->
     r.(is_local) = e.2.(is_local) /\ r.(endpoint) = e.2.(endpoint)) ->
  view (poll_all t k p l) id =
  if decide (id ∈ fst <$> l) then (fun e => region_after t e.1 e.2) <$> view p id else view p id.
Proof.
  intros Hq. revert k p. induction l as [|[i region] l IH]; intros k p Hnd Hsame; cbn [poll_all].
  { case_decide as Hd; [by apply elem_of_nil in Hd|done]. }
  cbn in Hnd. apply NoDup_cons in Hnd as [Hi Hnd].
  assert (Hone : forall x, view (poll_one t k p i region) x =
    if decide (x = i) then (fun e => region_after t e.1 e.2) <$> view p i else view p x).
  { intros x. apply poll_one_view; [done|]. apply (Hsame (i, region)). left. }
  rewrite IH; [|done|].
  - rewrite Hone. cbn [fmap list_fmap fst]. repeat case_decide; subst; try done.
    all: try (by rewrite elem_of_cons in *; naive_solver).
  - intros [x rx] Hx r. cbn. assert (Hxi : x <> i).
    { intros ->. apply Hi. apply list_elem_of_fmap. by exists (i, rx). }
    intros Hr. apply (Hsame (x, rx) ltac:(by right)). cbn.
    specialize (Hone x). rewrite decide_False in Hone by done. unfold view in Hone. rewrite Hr in Hone.
    cbn in Hone. destruct (p.(poller_db).(regions) !! x) as [r0|]; cbn in Hone; congruence.
Qed.

Lemma poll_tick_view p t id :
  quiet t -> view (poll_tick p t) id =
  if t.(t_leader) then (fun e => region_after t e.1 e.2) <$> view p id else view p id.
Proof.
  intros Hq. unfold poll_tick, list_regions. destruct t.(t_leader); cbn; [|done]. rewrite (Hq 0%nat).
  assert (Hfst : fst <$> order_by id_asc (map_to_list p.(poller_db).(regions)) ≡ₚ
                 fst <$> map_to_list p.(poller_db).(regions)) by by rewrite order_by_perm.
  rewrite poll_all_view; [|done| |].
  - case_decide as Hd; [done|]. unfold view.
    destruct (p.(poller_db).(regions) !! id) as [r|] eqn:Hr; [|done]. exfalso. apply Hd.
    rewrite Hfst. apply list_elem_of_fmap. exists (id, r). split; [done|]. by apply elem_of_map_to_list.
  - rewrite Hfst. apply NoDup_fst_map_to_list.
  - intros [i ri]. rewrite order_by_perm, elem_of_map_to_list. cbn. intros Hri r Hr. naive_solver congruence.
Qed.

(** Failures in a row at the end of the ticks this process led. *)
Definition failures (e : string) (ts : list Tick) : Z :=
  foldl (fun n t => if t.(t_leader)
                    then match t.(t_probe) (e +:+ "/health") with Healthy _ => 0 | _ => n + 1 end
                    else n) 0 ts.

Definition status_of (n : Z) : string :=
  if n =? 0 then "active" else if n <? OFFLINE_CONSECUTIVE_FAILURES then "degraded" else "offline".

Lemma failures_snoc e ts t :
  failures e (ts ++ [t]) =
  if t.(t_leader) then match t.(t_probe) (e +:+ "/health") with Healthy _ => 0 | _ => failures e ts + 1 end
  else failures e ts.
Proof. unfold failures. by rewrite foldl_app. Qed.

Lemma failures_bounds e ts : 0 <= failures e ts <= len ts.
Proof.
  induction ts as [|t ts IH] using rev_ind; [done|].
  rewrite failures_snoc, len_app. unfold len at 2. cbn. repeat case_match; lia.
Qed.

Lemma polled_view p id r ts :
  p.(poller_db).(regions) !! id = Some r -> r.(is_local) = false -> p.(failure_counts) !! id = None ->
  Forall quiet ts -> len ts < 2 ^ 32 ->
  exists count r', view (foldl poll_tick p ts) id = Some (count, r') /\
    default 0 count = failures r.(endpoint) ts /\ r'.(is_local) = false /\ r'.(endpoint) = r.(endpoint) /\
    (existsb t_leader ts = true -> r'.(status) = status_of (failures r.(endpoint) ts)) /\
    (existsb t_leader ts = false -> r' = r).
Proof.
  intros Hr Hloc Hc. induction ts as [|t ts IH] using rev_ind; intros Hq Hlen.
  { exists None, r. unfold view. cbn. rewrite Hr. cbn. by rewrite Hc. }
  apply Forall_app in Hq as [Hq [Ht _]%Forall_cons]. rewrite len_app in Hlen. unfold len at 2 in Hlen. cbn in Hlen.
  destruct IH as (count & r' & Hv & Hcount & Hl & He & Hst & Hsame); [done|lia|].
  rewrite foldl_app. cbn [foldl]. rewrite poll_tick_view, Hv, failures_snoc, existsb_app by done.
  cbn [existsb]. rewrite orb_false_r. pose proof (failures_bounds r.(endpoint) ts).
  destruct t.(t_leader) eqn:Hlead; cbn.
  - rewrite orb_true_r. unfold region_after. cbn. rewrite Hl, He.
    assert (Hw : as_u32 (default 0 count + 1) = failures r.(endpoint) ts + 1).
    { rewrite Hcount. apply wrap_small. lia. }
    destruct (t.(t_probe) _); eexists _, _; (split; [done|]); cbn; rewrite ?Hw; split_and!; try done;
      intros _; unfold status_of, OFFLINE_CONSECUTIVE_FAILURES;
      rewrite (proj2 (Z.eqb_neq _ _)) by lia; destruct (3 <=? _) eqn:?, (_ <? 3) eqn:?; try done; lia.
  - rewrite orb_false_r. eauto 10.
Qed.

(** What the table says about another region is what the last probes of this
    process found: after at least one tick as leader the region is active when
    the last probe succeeded, offline when three or more failed in a row, degraded
    in between; ticks without leadership change nothing. *)
Theorem status_follows_probes p id r ts :
  p.(poller_db).(regions) !! id = Some r -> r.(is_local) = false -> p.(failure_counts) !! id = None ->
  Forall quiet ts -> len ts < 2 ^ 32 -> existsb t_leader ts = true ->
  exists r', (foldl poll_tick p ts).(poller_db).(regions) !! id = Some r' /\
    r'.(status) = status_of (failures r.(endpoint) ts).
Proof.
  intros Hr Hloc Hc Hq Hlen Hled.
  destruct (polled_view p id r ts Hr Hloc Hc Hq Hlen) as (count & r' & Hv & _ & _ & _ & Hst & _).
  unfold view in Hv. revert Hv.
  destruct ((foldl poll_tick p ts).(poller_db).(regions) !! id) as [x|]; [|done]. intros [= _ ->]. eauto.
Qed.

Section Gate.
Context {auth : Authenticator} (env : Env) (local_region : string).

(** Only a platform administrator changes the regions or sees them: everybody
    else is answered 401 or 403 on every route but the probes, and nothing a
    request does other than an administrator's promotion changes the state. *)
Theorem operators_only io now headers s req :
  let '(r, s') := serve env local_region io now headers s req in
  match req, resolve headers with
  | Health, _ | Ready, _ => s' = s /\ r.2 = BEmpty
  | _, Err _ => r.1 = 401 /\ s' = s
  | PromoteRegion id, Ok who =>
      if is_platform_admin env who
      then s' = s \/ exists d, s' = set_db s d /\
             d.(promoted) = s.(db).(promoted) ++ [(local_region, id)] /\
             forall i, i <> id -> d.(regions) !! i = s.(db).(regions) !! i
      else r.1 = 403 /\ s' = s
  | _, Ok who => s' = s /\ (is_platform_admin env who = false -> r.1 = 403)
  end.
Proof.
  unfold serve, require_platform_admin. destruct req; cbn; try done.
  all: destruct (resolve headers) as [who|e]; [|done]; destruct (is_platform_admin env who); cbn; try done.
  all: unfold operator_handler; destruct s.(connected_pool); cbn; try (by auto).
  unfold promote_region, trigger_failover. destruct (io 0%nat); cbn; [left; by destruct s|].
  destruct (io 1%nat); cbn; right; eexists; (split; [done|]); cbn; split; try done.
  intros i Hi. by rewrite lookup_alter_ne.
Qed.

End Gate.

(** ** On concrete data *)

Module RegionDemo.

Definition eu : RegionInfo :=
  {| display_name := "Europe"; endpoint := "https://eu"; status := "active"; is_local := false;
     replication_lag_ms := Some 12; last_seen := 0; metadata := JNull |}.

Definition fresh : Poller := {| failure_counts := ∅; poller_db := {| regions := {["eu" := eu]}; promoted := [] |} |}.

Definition tick (now : Z) (leader : bool) (up : bool) : Tick :=
  {| t_now := now; t_leader := leader; t_io := fun _ => None;
     t_probe := fun _ => if up then Healthy 3 else Unreachable "timeout" |}.

(** Two failures, a tick without leadership, a third failure. *)
Definition ticks : list Tick := [tick 10 true false; tick 20 true false; tick 30 false true; tick 40 true false].

Lemma status_follows_probes_witness :
  exists r', (foldl poll_tick fresh ticks).(poller_db).(regions) !! "eu" = Some r' /\ r'.(status) = "offline".
Proof.
  apply (status_follows_probes fresh "eu" eu ticks); try reflexivity. by repeat constructor.
Defined.

(** Promoting a region nobody knows is answered like any other. *)
Example unknown_region_is_promoted :
  (trigger_failover (fun _ => None) 7 fresh.(poller_db) "mars" "us").1 = Ok tt /\
  (trigger_failover (fun _ => None) 7 fresh.(poller_db) "mars" "us").2.(promoted) = [("us", "mars")].
Proof. done. Qed.

End RegionDemo.
