(* ===== verification/SecretDb.v ===== *)
(** * Secrets in PostgreSQL

    [wslvault-storage/src/secret_store.rs], the write check of [quota_store.rs]
    and the stored functions of [003_functions.sql] and
    [010_secret_lifecycle.sql], with the triggers and constraints of the schema
    they meet; and [services/secret-engine/src/pg_store.rs], the backend built on
    them.

    A secret row carries its versions, which a foreign key ties to it. Every
    method runs in one transaction at time [now]: an error, a failed statement
    among them, leaves the tables as they were. *)

From Stdlib Require Import Lia Ascii.
From stdpp Require Import pretty.
From S2P Require Import Prelude Errors KeyStore KvStore.

(** ** Labels *)

Inductive SecretEnvironment := Int | Test | Acc | Prod.

#[global] Instance SecretEnvironment_eq_dec : EqDecision SecretEnvironment.
Proof. solve_decision. Defined.

Definition env_str (e : SecretEnvironment) : string :=
  match e with Int => "INT" | Test => "TEST" | Acc => "ACC" | Prod => "PROD" end.

Inductive VersionStatus := VActive | VPending | VDeprecated | VRevoked.

#[global] Instance VersionStatus_eq_dec : EqDecision VersionStatus.
Proof. solve_decision. Defined.

(** ** Tables *)

Record VersionRow := {
  vr_ciphertext : string;
  vr_dek_id : string;
  vr_custom_metadata : metadata;
  vr_created_at : Z;
  vr_deleted_at : option Z;
  vr_destroyed : bool;
  vr_status : VersionStatus;
  vr_created_by : option string;
  vr_deprecated_at : option Z;
  vr_revoked_at : option Z;
}.

(** [sc_versions] is keyed by the version: [UNIQUE (secret_id, version)]. *)
Record SecretRow := {
  sc_id : string;
  sc_engine : string;
  sc_current_version : Z;
  sc_max_versions : Z;
  sc_cas_required : bool;
  sc_custom_metadata : metadata;
  sc_created_at : Z;
  sc_updated_at : Z;
  sc_environment : string;
  sc_tags : list string;
  sc_secret_type : string;
  sc_rotation_interval : option Z;
  sc_grace : option Z;
  sc_webhook : option string;
  sc_rotation_status : string;
  sc_last_rotated_at : option Z;
  sc_next_rotation_at : option Z;
  sc_versions : gmap Z VersionRow;
}.

Inductive RotationStatus := PendingActivation | Confirmed | Completed.

#[global] Instance RotationStatus_eq_dec : EqDecision RotationStatus.
Proof. solve_decision. Defined.

Record RotationRow := {
  ro_secret_id : string;
  ro_tenant_id : string;
  ro_path : string;
  ro_old_version : Z;
  ro_new_version : Z;
  ro_status : RotationStatus;
  ro_initiated_by : string;
  ro_confirmed_by : option string;
  ro_webhook_url : option string;
  ro_created_at : Z;
  ro_confirmed_at : option Z;
  ro_completed_at : option Z;
  ro_grace_ends_at : option Z;
  ro_expires_at : Z;
}.

Record QuotaRow := { q_max_secrets : Z; q_current_secret_count : Z; q_max_secret_size_bytes : Z }.

Record TenantInfo := {
  ti_slug : string;
  ti_production : bool;
  ti_allowed : list SecretEnvironment;
  ti_default : SecretEnvironment;
}.

(** [secrets] is keyed by tenant and path, which are unique together. *)
Record SecretDb := {
  secrets : gmap (string * string) SecretRow;
  rotations : gmap string RotationRow;
  quotas : gmap string QuotaRow;
  tenant_rows : gmap string TenantInfo;
  outbox : list (string * string * string * string);
}.

Definition set_secrets (db : SecretDb) (m : gmap (string * string) SecretRow) : SecretDb :=
  {| secrets := m; rotations := db.(rotations); quotas := db.(quotas);
     tenant_rows := db.(tenant_rows); outbox := db.(outbox) |}.
Definition set_rotations (db : SecretDb) (m : gmap string RotationRow) : SecretDb :=
  {| secrets := db.(secrets); rotations := m; quotas := db.(quotas);
     tenant_rows := db.(tenant_rows); outbox := db.(outbox) |}.
Definition set_quotas (db : SecretDb) (m : gmap string QuotaRow) : SecretDb :=
  {| secrets := db.(secrets); rotations := db.(rotations); quotas := m;
     tenant_rows := db.(tenant_rows); outbox := db.(outbox) |}.
Definition set_outbox (db : SecretDb) l : SecretDb :=
  {| secrets := db.(secrets); rotations := db.(rotations); quotas := db.(quotas);
     tenant_rows := db.(tenant_rows); outbox := l |}.

Definition set_versions (r : SecretRow) (vs : gmap Z VersionRow) : SecretRow :=
  {| sc_id := r.(sc_id); sc_engine := r.(sc_engine); sc_current_version := r.(sc_current_version);
     sc_max_versions := r.(sc_max_versions); sc_cas_required := r.(sc_cas_required);
     sc_custom_metadata := r.(sc_custom_metadata); sc_created_at := r.(sc_created_at);
     sc_updated_at := r.(sc_updated_at); sc_environment := r.(sc_environment);
     sc_tags := r.(sc_tags); sc_secret_type := r.(sc_secret_type);
     sc_rotation_interval := r.(sc_rotation_interval); sc_grace := r.(sc_grace);
     sc_webhook := r.(sc_webhook); sc_rotation_status := r.(sc_rotation_status);
     sc_last_rotated_at := r.(sc_last_rotated_at); sc_next_rotation_at := r.(sc_next_rotation_at);
     sc_versions := vs |}.

(** An [UPDATE] of a row, whose trigger sets [updated_at]. *)
Definition set_pointer (now : Z) (r : SecretRow) (v : Z) : SecretRow :=
  {| sc_id := r.(sc_id); sc_engine := r.(sc_engine); sc_current_version := v;
     sc_max_versions := r.(sc_max_versions); sc_cas_required := r.(sc_cas_required);
     sc_custom_metadata := r.(sc_custom_metadata); sc_created_at := r.(sc_created_at);
     sc_updated_at := now; sc_environment := r.(sc_environment);
     sc_tags := r.(sc_tags); sc_secret_type := r.(sc_secret_type);
     sc_rotation_interval := r.(sc_rotation_interval); sc_grace := r.(sc_grace);
     sc_webhook := r.(sc_webhook); sc_rotation_status := r.(sc_rotation_status);
     sc_last_rotated_at := r.(sc_last_rotated_at); sc_next_rotation_at := r.(sc_next_rotation_at);
     sc_versions := r.(sc_versions) |}.

Definition set_labels (now : Z) (r : SecretRow) (env : string) (tags : list string)
    (md : metadata) : SecretRow :=
  {| sc_id := r.(sc_id); sc_engine := r.(sc_engine); sc_current_version := r.(sc_current_version);
     sc_max_versions := r.(sc_max_versions); sc_cas_required := r.(sc_cas_required);
     sc_custom_metadata := md; sc_created_at := r.(sc_created_at);
     sc_updated_at := now; sc_environment := env; sc_tags := tags;
     sc_secret_type := r.(sc_secret_type); sc_rotation_interval := r.(sc_rotation_interval);
     sc_grace := r.(sc_grace); sc_webhook := r.(sc_webhook);
     sc_rotation_status := r.(sc_rotation_status); sc_last_rotated_at := r.(sc_last_rotated_at);
     sc_next_rotation_at := r.(sc_next_rotation_at); sc_versions := r.(sc_versions) |}.

Definition set_rotation_status (now : Z) (r : SecretRow) (st : string) : SecretRow :=
  {| sc_id := r.(sc_id); sc_engine := r.(sc_engine); sc_current_version := r.(sc_current_version);
     sc_max_versions := r.(sc_max_versions); sc_cas_required := r.(sc_cas_required);
     sc_custom_metadata := r.(sc_custom_metadata); sc_created_at := r.(sc_created_at);
     sc_updated_at := now; sc_environment := r.(sc_environment);
     sc_tags := r.(sc_tags); sc_secret_type := r.(sc_secret_type);
     sc_rotation_interval := r.(sc_rotation_interval); sc_grace := r.(sc_grace);
     sc_webhook := r.(sc_webhook); sc_rotation_status := st;
     sc_last_rotated_at := r.(sc_last_rotated_at); sc_next_rotation_at := r.(sc_next_rotation_at);
     sc_versions := r.(sc_versions) |}.

(** What a stored function raises, and the other failures of a statement. *)
Inductive SqlError :=
| CasRaised
| SecretNotFoundRaised
| VersionNotFoundRaised
| RotationPendingRaised
| RotationNotFoundRaised
| Violated (constraint : string)
| OutOfRange.

Definition I32_MAX : Z := 2147483647.
Definition SECOND : Z := 10 ^ 9.

(** ** Stored functions *)

Definition new_version_row (now : Z) (ct dek : string) (md : metadata) (st : VersionStatus)
    (by_ : option string) : VersionRow :=
  {| vr_ciphertext := ct; vr_dek_id := dek; vr_custom_metadata := md; vr_created_at := now;
     vr_deleted_at := None; vr_destroyed := false; vr_status := st; vr_created_by := by_;
     vr_deprecated_at := None; vr_revoked_at := None |}.

(** [INSERT INTO shared.secret_versions] *)
Definition insert_version (r : SecretRow) (v : Z) (row : VersionRow) : result SqlError SecretRow :=
  match r.(sc_versions) !! v with
  | Some _ => Err (Violated "secret_versions_secret_id_version_key")
  | None => Ok (set_versions r (<[v := row]> r.(sc_versions)))
  end.

(** [v + 1] on [INTEGER] *)
Definition next_version (v : Z) : result SqlError Z :=
  if I32_MAX <? v + 1 then Err OutOfRange else Ok (v + 1).

(** [a - b] on [INTEGER] *)
Definition int_minus (a b : Z) : result SqlError Z :=
  if (a - b <? - I32_MAX - 1) || (I32_MAX <? a - b) then Err OutOfRange else Ok (a - b).

(** The row a first write inserts. The engine passes nine arguments; the others
    take the defaults of the function. *)
Definition inserted_secret (now : Z) (fresh engine : string) (max : Z) (cas_req : bool)
    (md : metadata) : SecretRow :=
  {| sc_id := fresh; sc_engine := engine; sc_current_version := 0; sc_max_versions := max;
     sc_cas_required := cas_req; sc_custom_metadata := md; sc_created_at := now;
     sc_updated_at := now; sc_environment := "INT"; sc_tags := []; sc_secret_type := "STALE_TTL";
     sc_rotation_interval := None; sc_grace := Some 3600; sc_webhook := None;
     sc_rotation_status := "none"; sc_last_rotated_at := None; sc_next_rotation_at := None;
     sc_versions := ∅ |}.

(** [ON CONFLICT DO UPDATE], with the same defaults. *)
Definition conflict_update (now : Z) (r : SecretRow) : SecretRow :=
  {| sc_id := r.(sc_id); sc_engine := r.(sc_engine); sc_current_version := r.(sc_current_version);
     sc_max_versions := r.(sc_max_versions); sc_cas_required := r.(sc_cas_required);
     sc_custom_metadata := r.(sc_custom_metadata); sc_created_at := r.(sc_created_at);
     sc_updated_at := now; sc_environment := r.(sc_environment); sc_tags := r.(sc_tags);
     sc_secret_type := "STALE_TTL"; sc_rotation_interval := r.(sc_rotation_interval);
     sc_grace := Some 3600; sc_webhook := r.(sc_webhook);
     sc_rotation_status := r.(sc_rotation_status); sc_last_rotated_at := r.(sc_last_rotated_at);
     sc_next_rotation_at := r.(sc_next_rotation_at); sc_versions := r.(sc_versions) |}.

(** The trigger [update_secret_count] on an insert. *)
Definition count_secret (m : gmap string QuotaRow) (u : string) : gmap string QuotaRow :=
  match m !! u with
  | Some q => <[u := {| q_max_secrets := q.(q_max_secrets);
                        q_current_secret_count := Z.max 0 (q.(q_current_secret_count) + 1);
                        q_max_secret_size_bytes := q.(q_max_secret_size_bytes) |}]> m
  | None => <[u := {| q_max_secrets := 10000; q_current_secret_count := 0;
                      q_max_secret_size_bytes := 65536 |}]> m
  end.

Definition prune_rows (upto : Z) (vs : gmap Z VersionRow) : gmap Z VersionRow :=
  filter (fun e => ~ (e.1 <= upto /\ e.2.(vr_destroyed) = false)) vs.

Definition vault_upsert_secret (now : Z) (fresh : string) (db : SecretDb) (u path engine ct dek : string)
    (cas : option Z) (max : Z) (cas_req : bool) (md : metadata) :
    result SqlError (string * Z * SecretDb) :=
  '(r, db) ← match db.(secrets) !! (u, path) with
             | Some r => Ok (conflict_update now r, db)
             | None =>
                 match db.(tenant_rows) !! u with
                 | None => Err (Violated "secrets_tenant_id_fkey")
                 | Some _ => Ok (inserted_secret now fresh engine max cas_req md,
                                 set_quotas db (count_secret db.(quotas) u))
                 end
             end;
  let cur := r.(sc_current_version) in
  if bool_decide (is_Some cas /\ cas <> Some cur) then Err CasRaised
  else
    v ← next_version cur;
    r ← insert_version r v (new_version_row now ct dek md VActive None);
    let r := set_pointer now r v in
    oldest ← int_minus v max;
    let r := set_versions r (prune_rows oldest r.(sc_versions)) in
    Ok (r.(sc_id), v, set_secrets db (<[(u, path) := r]> db.(secrets))).

(** Rows an [UPDATE] selects, and how many. *)
Definition update_versions (p : Z -> VersionRow -> bool) (f : VersionRow -> VersionRow)
    (vs : gmap Z VersionRow) : gmap Z VersionRow * Z :=
  (map_imap (fun v row => Some (if p v row then f row else row)) vs,
   Z.of_nat (size (filter (fun e => p e.1 e.2 = true) vs))).

Definition soft_deleted (now : Z) (r : VersionRow) : VersionRow :=
  {| vr_ciphertext := r.(vr_ciphertext); vr_dek_id := r.(vr_dek_id);
     vr_custom_metadata := r.(vr_custom_metadata); vr_created_at := r.(vr_created_at);
     vr_deleted_at := Some now; vr_destroyed := r.(vr_destroyed); vr_status := r.(vr_status);
     vr_created_by := r.(vr_created_by); vr_deprecated_at := r.(vr_deprecated_at);
     vr_revoked_at := r.(vr_revoked_at) |}.

Definition destroyed_row (now : Z) (r : VersionRow) : VersionRow :=
  {| vr_ciphertext := ""; vr_dek_id := ""; vr_custom_metadata := r.(vr_custom_metadata);
     vr_created_at := r.(vr_created_at); vr_deleted_at := Some (default now r.(vr_deleted_at));
     vr_destroyed := true; vr_status := r.(vr_status); vr_created_by := r.(vr_created_by);
     vr_deprecated_at := r.(vr_deprecated_at); vr_revoked_at := r.(vr_revoked_at) |}.

Definition with_status (r : VersionRow) (st : VersionStatus) (dep rev : option Z) : VersionRow :=
  {| vr_ciphertext := r.(vr_ciphertext); vr_dek_id := r.(vr_dek_id);
     vr_custom_metadata := r.(vr_custom_metadata); vr_created_at := r.(vr_created_at);
     vr_deleted_at := r.(vr_deleted_at); vr_destroyed := r.(vr_destroyed); vr_status := st;
     vr_created_by := r.(vr_created_by); vr_deprecated_at := dep; vr_revoked_at := rev |}.

Definition activated (r : VersionRow) : VersionRow :=
  with_status r VActive r.(vr_deprecated_at) r.(vr_revoked_at).
Definition deprecated (now : Z) (r : VersionRow) : VersionRow :=
  with_status r VDeprecated (Some now) r.(vr_revoked_at).
Definition revoked (now : Z) (r : VersionRow) : VersionRow :=
  with_status (destroyed_row now r) VRevoked r.(vr_deprecated_at) (Some now).

Definition is_live (r : VersionRow) : bool :=
  bool_decide (r.(vr_deleted_at) = None) && negb r.(vr_destroyed).

(** [WHERE secret_id = p_secret_id]: the rows with that id. *)
Definition on_secret (db : SecretDb) (sid : string) (f : SecretRow -> SecretRow) : SecretDb :=
  set_secrets db ((fun r => if bool_decide (r.(sc_id) = sid) then f r else r) <$> db.(secrets)).

Definition secret_by_id (db : SecretDb) (sid : string) : option SecretRow :=
  snd <$> head (List.filter (fun e => bool_decide (e.2.(sc_id) = sid)) (map_to_list db.(secrets))).

Definition vault_soft_delete_versions (now : Z) (db : SecretDb) (sid : string) (targets : list Z) :
    Z * SecretDb :=
  let p v row := bool_decide (v ∈ targets) && is_live row in
  let upd r := update_versions p (soft_deleted now) r.(sc_versions) in
  (default 0 (r ← secret_by_id db sid; Some (upd r).2),
   on_secret db sid (fun r => set_versions r (upd r).1)).

Definition vault_destroy_versions (now : Z) (db : SecretDb) (sid : string) (targets : list Z) :
    Z * SecretDb :=
  let p v row := bool_decide (v ∈ targets) && negb row.(vr_destroyed) in
  let upd r := update_versions p (destroyed_row now) r.(sc_versions) in
  (default 0 (r ← secret_by_id db sid; Some (upd r).2),
   on_secret db sid (fun r => set_versions r (upd r).1)).

Definition pending_for (sid : string) (m : gmap string RotationRow) : bool :=
  existsb (fun e => bool_decide (e.2.(ro_secret_id) = sid /\ e.2.(ro_status) = PendingActivation))
    (map_to_list m).

Definition vault_initiate_rotation (now : Z) (fresh : string) (db : SecretDb)
    (u path ct dek by_ : string) (webhook : option string) (timeout : option Z) :
    result SqlError (string * Z * SecretDb) :=
  match db.(secrets) !! (u, path) with
  | None => Err SecretNotFoundRaised
  | Some r =>
      if pending_for r.(sc_id) db.(rotations) then Err RotationPendingRaised
      else
        v ← next_version r.(sc_current_version);
        r' ← insert_version r v (new_version_row now ct dek ∅ VPending (Some by_));
        let rot := {| ro_secret_id := r.(sc_id); ro_tenant_id := u; ro_path := path;
                      ro_old_version := r.(sc_current_version); ro_new_version := v;
                      ro_status := PendingActivation; ro_initiated_by := by_;
                      ro_confirmed_by := None; ro_webhook_url := webhook; ro_created_at := now;
                      ro_confirmed_at := None; ro_completed_at := None; ro_grace_ends_at := None;
                      ro_expires_at := now + default 86400 timeout * SECOND |} in
        let r' := set_rotation_status now r' "pending" in
        Ok (fresh, v, set_secrets (set_rotations db (<[fresh := rot]> db.(rotations)))
                        (<[(u, path) := r']> db.(secrets)))
  end.

Definition set_rotated (now : Z) (r : SecretRow) (v : Z) : SecretRow :=
  {| sc_id := r.(sc_id); sc_engine := r.(sc_engine); sc_current_version := v;
     sc_max_versions := r.(sc_max_versions); sc_cas_required := r.(sc_cas_required);
     sc_custom_metadata := r.(sc_custom_metadata); sc_created_at := r.(sc_created_at);
     sc_updated_at := now; sc_environment := r.(sc_environment);
     sc_tags := r.(sc_tags); sc_secret_type := r.(sc_secret_type);
     sc_rotation_interval := r.(sc_rotation_interval); sc_grace := r.(sc_grace);
     sc_webhook := r.(sc_webhook); sc_rotation_status := "confirmed";
     sc_last_rotated_at := Some now;
     sc_next_rotation_at := (fun s => now + s * SECOND) <$> r.(sc_rotation_interval);
     sc_versions := r.(sc_versions) |}.

Definition confirmed_rotation (now : Z) (by_ : string) (grace_end : Z) (x : RotationRow) :
    RotationRow :=
  {| ro_secret_id := x.(ro_secret_id); ro_tenant_id := x.(ro_tenant_id); ro_path := x.(ro_path);
     ro_old_version := x.(ro_old_version); ro_new_version := x.(ro_new_version);
     ro_status := Confirmed; ro_initiated_by := x.(ro_initiated_by);
     ro_confirmed_by := Some by_; ro_webhook_url := x.(ro_webhook_url);
     ro_created_at := x.(ro_created_at); ro_confirmed_at := Some now;
     ro_completed_at := x.(ro_completed_at); ro_grace_ends_at := Some grace_end;
     ro_expires_at := x.(ro_expires_at) |}.

Definition vault_confirm_rotation (now : Z) (db : SecretDb) (rid by_ : string) :
    result SqlError (Z * Z * Z * SecretDb) :=
  match db.(rotations) !! rid with
  | Some x =>
      if bool_decide (x.(ro_status) = PendingActivation) && (now <? x.(ro_expires_at)) then
        let grace := default 3600 (r ← secret_by_id db x.(ro_secret_id); r.(sc_grace)) in
        let grace_end := now + grace * SECOND in
        let step r :=
          let vs := alter activated x.(ro_new_version) r.(sc_versions) in
          let vs := alter (deprecated now) x.(ro_old_version) vs in
          set_rotated now (set_versions r vs) x.(ro_new_version) in
        Ok (x.(ro_old_version), x.(ro_new_version), grace_end,
            set_rotations (on_secret db x.(ro_secret_id) step)
              (<[rid := confirmed_rotation now by_ grace_end x]> db.(rotations)))
      else Err RotationNotFoundRaised
  | None => Err RotationNotFoundRaised
  end.

Definition completed_rotation (now : Z) (x : RotationRow) : RotationRow :=
  {| ro_secret_id := x.(ro_secret_id); ro_tenant_id := x.(ro_tenant_id); ro_path := x.(ro_path);
     ro_old_version := x.(ro_old_version); ro_new_version := x.(ro_new_version);
     ro_status := Completed; ro_initiated_by := x.(ro_initiated_by);
     ro_confirmed_by := x.(ro_confirmed_by); ro_webhook_url := x.(ro_webhook_url);
     ro_created_at := x.(ro_created_at); ro_confirmed_at := x.(ro_confirmed_at);
     ro_completed_at := Some now; ro_grace_ends_at := x.(ro_grace_ends_at);
     ro_expires_at := x.(ro_expires_at) |}.

Definition grace_over (now : Z) (x : RotationRow) : bool :=
  bool_decide (x.(ro_status) = Confirmed)
  && match x.(ro_grace_ends_at) with Some t => t <? now | None => false end.

(** One rotation of the batch. *)
Definition revoke_one (now : Z) (db : SecretDb) (rid : string) : SecretDb :=
  match db.(rotations) !! rid with
  | Some x =>
      if grace_over now x then
        set_rotations
          (on_secret db x.(ro_secret_id) (fun r =>
             set_versions r (alter (revoked now) x.(ro_old_version) r.(sc_versions))))
          (<[rid := completed_rotation now x]> db.(rotations))
      else db
  | None => db
  end.

(** [LIMIT p_batch_size] without an order: the batch is whatever the server picks
    among the rotations whose grace is over. *)
Definition vault_revoke_deprecated_versions (now : Z) (db : SecretDb) (batch : list string) : SecretDb :=
  foldl (revoke_one now) db batch.

Definition vault_rollback_secret (now : Z) (db : SecretDb) (u path : string) (target : Z)
    (by_ : string) : result SqlError (Z * SecretDb) :=
  match db.(secrets) !! (u, path) with
  | None => Err SecretNotFoundRaised
  | Some r =>
      match r.(sc_versions) !! target with
      | Some t =>
          if t.(vr_destroyed) then Err VersionNotFoundRaised
          else
            v ← next_version r.(sc_current_version);
            r' ← insert_version r v (new_version_row now t.(vr_ciphertext) t.(vr_dek_id)
                                       t.(vr_custom_metadata) VActive (Some by_));
            let vs := alter (fun x => if bool_decide (x.(vr_status) = VActive)
                                      then deprecated now x else x)
                        r.(sc_current_version) r'.(sc_versions) in
            Ok (v, set_secrets db
                     (<[(u, path) := set_pointer now (set_versions r' vs) v]> db.(secrets)))
      | None => Err VersionNotFoundRaised
      end
  end.

(** ** secret_store.rs *)

Record SecretMetadata := {
  md_id : string;
  md_tenant_id : string;
  md_path : string;
  md_current_version : Z;
  md_max_versions : Z;
  md_cas_required : bool;
  md_created_at : Z;
  md_updated_at : Z;
  md_custom_metadata : metadata;
  md_environment : SecretEnvironment;
  md_tags : list string;
}.

Record StoredVersionMeta := {
  sm_version : Z;
  sm_status : VersionStatus;
  sm_created_by : option string;
  sm_created_at : Z;
  sm_deleted_at : option Z;
  sm_deprecated_at : option Z;
  sm_revoked_at : option Z;
  sm_destroyed : bool;
}.

(** [LIKE]: [_] stands for a character, [%] for any run, a backslash escapes.
    The paths compared are ASCII. *)
Fixpoint like (p s : string) : bool :=
  match p with
  | EmptyString => Str.is_empty s
  | String c p' =>
      if decide (c = "%"%char) then existsb (like p') (Str.suffixes s)
      else if decide (c = "_"%char) then
        match s with EmptyString => false | String _ s' => like p' s' end
      else if decide (c = "\"%char) then
        match p' with
        | EmptyString => false
        | String d p'' =>
            match s with EmptyString => false | String a s' => bool_decide (a = d) && like p'' s' end
        end
      else match s with EmptyString => false | String a s' => bool_decide (a = c) && like p' s' end
  end.

(** What the environment gives a call: the clock, a fresh UUID, and a failure of
    the connection. A commit whose answer is lost may have taken effect. *)
Record Draw := { now : Z; fresh : string; fault : option (string * bool) }.

Section Store.
Context `{SqlText, Uuids} (to_uppercase : string -> string).

Definition env_of_str (s : string) : result string SecretEnvironment :=
  let x := to_uppercase (Str.trim s) in
  if decide (x = "INT") then Ok Int
  else if decide (x = "TEST") then Ok Test
  else if decide (x = "ACC") then Ok Acc
  else if decide (x = "PROD") then Ok Prod
  else Err ("unknown environment '" +:+ x +:+ "'; must be one of: INT, TEST, ACC, PROD").

Definition database (e : SqlError) : VaultError :=
  Database (match e with
            | Violated c => violation c
            | OutOfRange => violation "integer out of range"
            | CasRaised => violation "CAS conflict"
            | SecretNotFoundRaised => violation "secret not found"
            | VersionNotFoundRaised => violation "not found or destroyed"
            | RotationPendingRaised => violation "rotation already pending"
            | RotationNotFoundRaised => violation "not found or expired"
            end).

Definition get_secret_metadata (db : SecretDb) (u path : string) : vresult SecretMetadata :=
  r ← ok_or (db.(secrets) !! (u, path)) (SecretNotFound path None);
  Ok {| md_id := r.(sc_id); md_tenant_id := u; md_path := path;
        md_current_version := as_u32 r.(sc_current_version);
        md_max_versions := as_u32 r.(sc_max_versions); md_cas_required := r.(sc_cas_required);
        md_created_at := r.(sc_created_at); md_updated_at := r.(sc_updated_at);
        md_custom_metadata := r.(sc_custom_metadata);
        md_environment := default Int (result_ok (env_of_str r.(sc_environment)));
        md_tags := r.(sc_tags) |}.

(** [COALESCE(MAX(version), 0)] over the rows neither deleted nor destroyed. *)
Definition max_live (vs : gmap Z VersionRow) : Z :=
  foldr Z.max 0 (fst <$> List.filter (fun e => is_live e.2) (map_to_list vs)).

Definition latest_live_version (db : SecretDb) (sid : string) : Z :=
  as_u32 (default 0 (r ← secret_by_id db sid; Some (max_live r.(sc_versions)))).

Definition version_entry (v : Z) (x : VersionRow) : VersionEntry :=
  {| version := v; ciphertext := x.(vr_ciphertext); dek_id := x.(vr_dek_id);
     v_created_at := x.(vr_created_at); deleted_at := x.(vr_deleted_at);
     destroyed := x.(vr_destroyed); v_custom_metadata := x.(vr_custom_metadata) |}.

Definition get_secret_version (db : SecretDb) (sid : string) (v : Z) : vresult VersionEntry :=
  x ← ok_or (r ← secret_by_id db sid; r.(sc_versions) !! as_i32 v) (SecretNotFound "" (Some v));
  if x.(vr_destroyed) then Err (VersionDestroyed v)
  else Ok (version_entry (as_u32 (as_i32 v)) x).

(** [ORDER BY path] follows the collation of the server; the handlers sort again. *)
Definition list_secret_paths (db : SecretDb) (u prefix : string) : list string :=
  (fun e : string * string * SecretRow => e.1.2) <$>
    List.filter (fun e => bool_decide (e.1.1 = u) && like (prefix +:+ "%") e.1.2)
      (map_to_list db.(secrets)).

Definition upsert_secret_version (d : Draw) (db : SecretDb) (u path ct dek : string)
    (cas : option Z) (max : Z) (cas_req : bool) (md : metadata) (env : SecretEnvironment)
    (tags : list string) : vresult (string * Z * SecretDb) :=
  match vault_upsert_secret d.(now) d.(fresh) db u path "kv_v2" ct dek (as_i32 <$> cas) (as_i32 max)
          cas_req md with
  | Err CasRaised => Err (CasConflict (default 0 cas) 0)
  | Err e => Err (database e)
  | Ok (sid, v, db) =>
      Ok (sid, as_u32 v,
          set_secrets db (alter (fun r => set_labels d.(now) r (env_str env) tags md)
                            (u, path) db.(secrets)))
  end.

Definition soft_delete_versions (d : Draw) (db : SecretDb) (sid : string) (vs : list Z) : Z * SecretDb :=
  let '(n, db) := vault_soft_delete_versions d.(now) db sid (as_i32 <$> vs) in (as_u32 n, db).

Definition destroy_versions (d : Draw) (db : SecretDb) (sid : string) (vs : list Z) : Z * SecretDb :=
  let '(n, db) := vault_destroy_versions d.(now) db sid (as_i32 <$> vs) in (as_u32 n, db).

Definition initiate_rotation (d : Draw) (db : SecretDb) (u path ct dek by_ : string)
    (webhook : option string) (timeout : option Z) : vresult (string * Z * SecretDb) :=
  match vault_initiate_rotation d.(now) d.(fresh) db u path ct dek by_ webhook timeout with
  | Ok (rid, v, db) => Ok (rid, as_u32 v, db)
  | Err RotationPendingRaised =>
      Err (InvalidOperation ("rotation already pending for secret: " +:+ path))
  | Err SecretNotFoundRaised => Err (SecretNotFound path None)
  | Err e => Err (database e)
  end.

Definition confirm_rotation (d : Draw) (db : SecretDb) (u rotation_id by_ : string) :
    vresult (Z * Z * Z * SecretDb) :=
  match uuid_parse rotation_id with
  | Err _ => Err (InvalidOperation ("invalid rotation_id: " +:+ rotation_id))
  | Ok rid =>
      let missing := InvalidOperation ("rotation " +:+ rotation_id +:+ " not found or expired") in
      if bool_decide (ro_tenant_id <$> db.(rotations) !! rid = Some u) then
        match vault_confirm_rotation d.(now) db rid by_ with
        | Ok (old, new, grace, db) => Ok (as_u32 old, as_u32 new, grace, db)
        | Err RotationNotFoundRaised => Err missing
        | Err e => Err (database e)
        end
      else Err missing
  end.

Definition rollback_secret (d : Draw) (db : SecretDb) (u path : string) (target : Z) (by_ : string) :
    vresult (Z * SecretDb) :=
  match vault_rollback_secret d.(now) db u path (as_i32 target) by_ with
  | Ok (v, db) => Ok (as_u32 v, db)
  | Err SecretNotFoundRaised => Err (SecretNotFound path None)
  | Err VersionNotFoundRaised => Err (SecretNotFound path (Some target))
  | Err e => Err (database e)
  end.

Definition version_desc (a b : Z * VersionRow) : bool := b.1 <=? a.1.

Definition list_version_history (db : SecretDb) (u path : string) : list StoredVersionMeta :=
  match db.(secrets) !! (u, path) with
  | None => []
  | Some r =>
      (fun e : Z * VersionRow =>
         {| sm_version := as_u32 e.1; sm_status := e.2.(vr_status);
            sm_created_by := e.2.(vr_created_by); sm_created_at := e.2.(vr_created_at);
            sm_deleted_at := e.2.(vr_deleted_at); sm_deprecated_at := e.2.(vr_deprecated_at);
            sm_revoked_at := e.2.(vr_revoked_at); sm_destroyed := e.2.(vr_destroyed) |})
      <$> order_by version_desc (map_to_list r.(sc_versions))
  end.

(** *** quota_store.rs *)

Inductive QuotaStoreError := SecretCountExceeded (current max : Z) | SecretSizeExceeded (size max : Z).

Definition quota_display (e : QuotaStoreError) : string :=
  match e with
  | SecretCountExceeded current max =>
      "secret count limit reached (" +:+ pretty current +:+ "/" +:+ pretty max +:+ ")"
  | SecretSizeExceeded size max =>
      "secret value exceeds maximum size (" +:+ pretty size +:+ "/" +:+ pretty max +:+ " bytes)"
  end.

(** A negative limit is a very large one: [as usize]. *)
Definition check_write_quota (db : SecretDb) (u : string) (size : Z) : result QuotaStoreError () :=
  match db.(quotas) !! u with
  | None => Ok tt
  | Some q =>
      if q.(q_max_secrets) <=? q.(q_current_secret_count)
      then Err (SecretCountExceeded q.(q_current_secret_count) q.(q_max_secrets))
      else if wrap 64 q.(q_max_secret_size_bytes) <? size
      then Err (SecretSizeExceeded size q.(q_max_secret_size_bytes))
      else Ok tt
  end.

(** ** pg_store.rs *)

Definition resolve_soft_delete_targets (requested : list Z) (current_version : Z) : list Z :=
  match requested with
  | _ :: _ => requested
  | [] => if current_version =? 0 then [] else [current_version]
  end.

Definition resolve_destroy_targets (requested live_versions : list Z) : list Z :=
  match requested with _ :: _ => requested | [] => live_versions end.

Definition parse_tenant_id (tenant_id : string) : vresult string :=
  match uuid_parse tenant_id with
  | Ok u => Ok u
  | Err _ => Err (ValidationError "tenant_id" ("'" +:+ tenant_id +:+ "' is not a valid UUID"))
  end.

(** One transaction: what the statements compute from the tables, then the
    commit. A lost connection fails the call, and only a lost answer to the
    commit leaves its effect. *)
Definition in_tx {A} (d : Draw) (db : SecretDb) (body : vresult (A * SecretDb)) : vresult A * SecretDb :=
  match d.(fault), body with
  | None, Ok (a, db') => (Ok a, db')
  | None, Err e => (Err e, db)
  | Some (e, true), Ok (_, db') => (Err (Database e), db')
  | Some (e, _), _ => (Err (Database e), db)
  end.

Definition pg_get (d : Draw) (db : SecretDb) (tenant path : string) (v : option Z) :
    vresult VersionEntry * SecretDb :=
  match parse_tenant_id tenant with
  | Err e => (Err e, db)
  | Ok u =>
      in_tx d db (
        meta ← get_secret_metadata db u path;
        let target := match v with Some n => n | None => latest_live_version db meta.(md_id) end in
        if target =? 0 then Err (SecretNotFound path None)
        else e ← get_secret_version db meta.(md_id) target; Ok (e, db))
  end.

(** The event announced after the commit, best effort. *)
Definition emit_replication_event (ok : bool) (tenant path ct dek : string) (db : SecretDb) : SecretDb :=
  if ok then set_outbox db (db.(outbox) ++ [(tenant, path, ct, dek)]) else db.

Definition put_environment (md : metadata) : SecretEnvironment :=
  default Int (s ← md !! "environment"; result_ok (env_of_str s)).

Definition put_tags (md : metadata) : list string :=
  match md !! "tags" with Some s => parse_tags s | None => [] end.

Definition pg_put (d : Draw) (event_stored : bool) (db : SecretDb) (tenant path ct dek : string)
    (cas : option Z) (md : metadata) (max : option Z) : vresult (string * Z) * SecretDb :=
  match parse_tenant_id tenant with
  | Err e => (Err e, db)
  | Ok u =>
      let '(r, db) := in_tx d db (
        _ ← match check_write_quota db u (Z.of_nat (String.length ct)) with
            | Ok _ => Ok tt
            | Err e => Err (QuotaExceeded (quota_display e))
            end;
        '(sid, v, db) ← upsert_secret_version d db u path ct dek cas (default 10 max)
                          (bool_decide (is_Some cas)) md (put_environment md) (put_tags md);
        Ok (sid, v, db)) in
      (r, if is_ok r then emit_replication_event event_stored tenant path ct dek db else db)
  end.

Definition pg_soft_delete (d : Draw) (db : SecretDb) (tenant path : string) (vs : list Z) :
    vresult Z * SecretDb :=
  match parse_tenant_id tenant with
  | Err e => (Err e, db)
  | Ok u =>
      in_tx d db (
        meta ← get_secret_metadata db u path;
        match resolve_soft_delete_targets vs meta.(md_current_version) with
        | [] => Ok (0, db)
        | targets => Ok (soft_delete_versions d db meta.(md_id) targets)
        end)
  end.

Definition pg_destroy (d : Draw) (db : SecretDb) (tenant path : string) (vs : list Z) :
    vresult Z * SecretDb :=
  match parse_tenant_id tenant with
  | Err e => (Err e, db)
  | Ok u =>
      in_tx d db (
        meta ← get_secret_metadata db u path;
        let live := sm_version <$>
          List.filter (fun m => negb m.(sm_destroyed)) (list_version_history db u path) in
        match resolve_destroy_targets vs (match vs with [] => live | _ => [] end) with
        | [] => Ok (0, db)
        | targets => Ok (destroy_versions d db meta.(md_id) targets)
        end)
  end.

(** Any failure is an empty list. *)
Definition pg_list (d : Draw) (db : SecretDb) (tenant prefix : string) : list string :=
  match parse_tenant_id tenant, d.(fault) with
  | Ok u, None => list_secret_paths db u prefix
  | _, _ => []
  end.

Definition version_asc_key (a b : VersionEntry) : bool := a.(version) <=? b.(version).

Definition stub_of (m : StoredVersionMeta) : VersionEntry :=
  {| version := m.(sm_version); ciphertext := ""; dek_id := ""; v_created_at := m.(sm_created_at);
     deleted_at := m.(sm_deleted_at); destroyed := m.(sm_destroyed); v_custom_metadata := ∅ |}.

Definition pg_get_metadata (d : Draw) (db : SecretDb) (tenant path : string) :
    vresult SecretEntry * SecretDb :=
  match parse_tenant_id tenant with
  | Err e => (Err e, db)
  | Ok u =>
      in_tx d db (
        meta ← get_secret_metadata db u path;
        Ok ({| secret_id := meta.(md_id); e_tenant_id := meta.(md_tenant_id);
               e_path := meta.(md_path); max_versions := meta.(md_max_versions);
               cas_required := meta.(md_cas_required); created_at := meta.(md_created_at);
               updated_at := meta.(md_updated_at);
               versions := order_by version_asc_key (stub_of <$> list_version_history db u path);
               environment := env_str meta.(md_environment); tags := meta.(md_tags);
               custom_metadata := meta.(md_custom_metadata) |}, db))
  end.

Definition pg_initiate_rotation (d : Draw) (db : SecretDb) (tenant path ct dek by_ : string)
    (webhook : option string) (timeout : option Z) : vresult (string * Z) * SecretDb :=
  match parse_tenant_id tenant with
  | Err e => (Err e, db)
  | Ok u => in_tx d db ('(rid, v, db) ← initiate_rotation d db u path ct dek by_ webhook timeout;
                        Ok (rid, v, db))
  end.

Definition pg_confirm_rotation (d : Draw) (db : SecretDb) (tenant rotation_id by_ : string) :
    vresult (Z * Z * Z) * SecretDb :=
  match parse_tenant_id tenant with
  | Err e => (Err e, db)
  | Ok u => in_tx d db ('(old, new, grace, db) ← confirm_rotation d db u rotation_id by_;
                        Ok (old, new, grace, db))
  end.

Definition pg_rollback (d : Draw) (db : SecretDb) (tenant path : string) (target : Z) (by_ : string) :
    vresult Z * SecretDb :=
  match parse_tenant_id tenant with
  | Err e => (Err e, db)
  | Ok u => in_tx d db (rollback_secret d db u path target by_)
  end.

Definition pg_list_versions (d : Draw) (db : SecretDb) (tenant path : string) :
    vresult (list StoredVersionMeta) * SecretDb :=
  match parse_tenant_id tenant with
  | Err e => (Err e, db)
  | Ok u => in_tx d db (Ok (list_version_history db u path, db))
  end.

Definition created_desc (a b : string * RotationRow) : bool := b.2.(ro_created_at) <=? a.2.(ro_created_at).

Definition get_active_rotation (db : SecretDb) (u path : string) : option (string * RotationRow) :=
  match db.(secrets) !! (u, path) with
  | None => None
  | Some r =>
      head (order_by created_desc
        (List.filter (fun e => bool_decide (e.2.(ro_secret_id) = r.(sc_id)
                                            /\ e.2.(ro_status) = PendingActivation))
           (map_to_list db.(rotations))))
  end.

End Store.

(** ** The tables as a transition system *)

Section Steps.
Context `{SqlText, Uuids} (to_uppercase : string -> string).

(** A fresh UUID is in no table. *)
Definition is_fresh (db : SecretDb) (s : string) : Prop :=
  map_Forall (fun _ r => r.(sc_id) <> s) db.(secrets) /\ db.(rotations) !! s = None.

Inductive SecretOp :=
| OpPut (event_stored : bool) (tenant path ct dek : string) (cas : option Z) (md : metadata)
    (max : option Z)
| OpSoftDelete (tenant path : string) (vs : list Z)
| OpDestroy (tenant path : string) (vs : list Z)
| OpInitiate (tenant path ct dek by_ : string) (webhook : option string) (timeout : option Z)
| OpConfirm (tenant rotation_id by_ : string)
| OpRollback (tenant path : string) (target : Z) (by_ : string)
| OpRevoke (batch : list string).

(** The tenant a caller names; the clean-up runs for all. *)
Definition op_tenant (op : SecretOp) : option string :=
  match op with
  | OpPut _ t _ _ _ _ _ _ | OpSoftDelete t _ _ | OpDestroy t _ _ | OpInitiate t _ _ _ _ _ _
  | OpConfirm t _ _ | OpRollback t _ _ _ => Some t
  | OpRevoke _ => None
  end.

Definition run_op (d : Draw) (db : SecretDb) (op : SecretOp) : SecretDb :=
  match op with
  | OpPut ev t p ct dek cas md max => (pg_put to_uppercase d ev db t p ct dek cas md max).2
  | OpSoftDelete t p vs => (pg_soft_delete to_uppercase d db t p vs).2
  | OpDestroy t p vs => (pg_destroy to_uppercase d db t p vs).2
  | OpInitiate t p ct dek by_ webhook timeout =>
      (pg_initiate_rotation d db t p ct dek by_ webhook timeout).2
  | OpConfirm t rid by_ => (pg_confirm_rotation d db t rid by_).2
  | OpRollback t p target by_ => (pg_rollback d db t p target by_).2
  | OpRevoke batch => vault_revoke_deprecated_versions d.(now) db batch
  end.

Definition db_step (db db' : SecretDb) : Prop :=
  exists d op, is_fresh db d.(fresh) /\ db' = run_op d db op.

(** ** What one operation does to a row *)

(** A version keeps its content until it is erased, and stays erased. *)
Definition version_evolves (x x' : VersionRow) : Prop :=
  (x'.(vr_ciphertext) = x.(vr_ciphertext) /\ x'.(vr_dek_id) = x.(vr_dek_id)
   /\ x'.(vr_destroyed) = x.(vr_destroyed)
   \/ x'.(vr_ciphertext) = "" /\ x'.(vr_dek_id) = "" /\ x'.(vr_destroyed) = true) /\
  (x.(vr_destroyed) = true -> x'.(vr_destroyed) = true).

Definition row_evolves (r r' : SecretRow) : Prop :=
  r'.(sc_id) = r.(sc_id) /\ r.(sc_current_version) <= r'.(sc_current_version) /\
  (forall v x x', r.(sc_versions) !! v = Some x -> r'.(sc_versions) !! v = Some x' ->
     version_evolves x x') /\
  (forall v, r.(sc_versions) !! v = None -> is_Some (r'.(sc_versions) !! v) ->
     r.(sc_current_version) < v) /\
  (forall v, is_Some (r.(sc_versions) !! v) -> r'.(sc_versions) !! v = None ->
     v <= r'.(sc_current_version)).

(** Versions are numbered from 1 up to the pointer, or one further while a
    rotation waits; an erased version holds nothing. *)
Definition row_wf (r : SecretRow) : Prop :=
  0 <= r.(sc_current_version) <= I32_MAX /\
  map_Forall (fun v x => 1 <= v <= r.(sc_current_version) + 1 /\ v <= I32_MAX /\
     (x.(vr_destroyed) = true -> x.(vr_ciphertext) = "" /\ x.(vr_dek_id) = "")) r.(sc_versions).

Definition rotation_wf (db : SecretDb) (x : RotationRow) : Prop :=
  exists r, db.(secrets) !! (x.(ro_tenant_id), x.(ro_path)) = Some r /\
    r.(sc_id) = x.(ro_secret_id) /\
    (x.(ro_status) = PendingActivation ->
       x.(ro_old_version) = r.(sc_current_version) /\
       x.(ro_new_version) = r.(sc_current_version) + 1 /\
       is_Some (r.(sc_versions) !! x.(ro_new_version))) /\
    (x.(ro_status) <> PendingActivation -> x.(ro_old_version) < r.(sc_current_version)).

Record db_wf (db : SecretDb) : Prop := {
  wf_rows : map_Forall (fun _ r => row_wf r) db.(secrets);
  wf_ids : forall k k' r r', db.(secrets) !! k = Some r -> db.(secrets) !! k' = Some r' ->
    r.(sc_id) = r'.(sc_id) -> k = k';
  wf_rotations : map_Forall (fun _ x => rotation_wf db x) db.(rotations);
  wf_pending : forall i j x y, db.(rotations) !! i = Some x -> db.(rotations) !! j = Some y ->
    x.(ro_status) = PendingActivation -> y.(ro_status) = PendingActivation ->
    x.(ro_secret_id) = y.(ro_secret_id) -> i = j;
}.

Lemma version_evolves_trans x y z : version_evolves x y -> version_evolves y z -> version_evolves x z.
Proof.
  intros [Hxy Hd] [Hyz Hd']. split; [|auto].
  destruct Hyz as [(-> & -> & ->)|?]; [exact Hxy|by right].
Qed.

(** A number is dropped only below the pointer and taken only above it, so none
    comes back. *)
#[export] Instance row_evolves_preorder : PreOrder row_evolves.
Proof.
  split.
  - intros r. split; [done|]. split; [lia|]. split_and!.
    + intros v x x' Hx Hx'. simplify_eq. split; [by left|done].
    + intros v Hv [x Hx]. congruence.
    + intros v [x Hx] Hv. congruence.
  - intros r s t (Hi & Hc & Hv & Hn & Ho) (Hi' & Hc' & Hv' & Hn' & Ho').
    split; [congruence|]. split; [lia|]. split_and!.
    + intros v x z Hx Hz. destruct (s.(sc_versions) !! v) as [y|] eqn:Hy.
      * eapply version_evolves_trans; eauto.
      * pose proof (Ho v ltac:(by eexists) Hy). pose proof (Hn' v Hy ltac:(by eexists)). lia.
    + intros v Hx Hz. destruct (s.(sc_versions) !! v) as [y|] eqn:Hy.
      * by apply Hn; [|eexists].
      * pose proof (Hn' v Hy Hz). lia.
    + intros v Hx Hz. destruct (s.(sc_versions) !! v) as [y|] eqn:Hy.
      * by apply Ho'; [eexists|].
      * pose proof (Ho v Hx Hy). lia.
Qed.

(** ** Addressing rows by id *)

Lemma on_secret_at db k r f :
  db_wf db -> db.(secrets) !! k = Some r ->
  on_secret db r.(sc_id) f = set_secrets db (<[k := f r]> db.(secrets)).
Proof.
  intros Hwf Hk. unfold on_secret. f_equal. apply map_eq. intros k'. rewrite lookup_fmap.
  destruct (decide (k' = k)) as [->|Hne].
  - rewrite lookup_insert_eq, Hk. cbn. by rewrite bool_decide_true.
  - rewrite lookup_insert_ne by done. destruct (db.(secrets) !! k') as [r'|] eqn:Hk'; [|done].
    cbn. rewrite bool_decide_false; [done|]. intros Hid. apply Hne.
    by eapply (wf_ids db Hwf).
Qed.

Lemma secret_by_id_at db k r :
  db_wf db -> db.(secrets) !! k = Some r -> secret_by_id db r.(sc_id) = Some r.
Proof.
  intros Hwf Hk. unfold secret_by_id.
  destruct (List.filter _ (map_to_list db.(secrets))) as [|[k' r'] l] eqn:Hl.
  - assert (Hin : (k, r) ∈ map_to_list db.(secrets)) by by apply elem_of_map_to_list.
    apply list_elem_of_In in Hin.
    assert (Hf : List.In (k, r) (List.filter (fun e => bool_decide (sc_id e.2 = sc_id r))
                                  (map_to_list db.(secrets)))).
    { apply List.filter_In. split; [done|]. by apply bool_decide_eq_true. }
    rewrite Hl in Hf. done.
  - cbn. assert (Hin : List.In (k', r') (List.filter (fun e => bool_decide (sc_id e.2 = sc_id r))
                                          (map_to_list db.(secrets)))) by (rewrite Hl; by left).
    apply List.filter_In in Hin as [Hin Hid%bool_decide_eq_true].
    apply list_elem_of_In, elem_of_map_to_list in Hin. cbn in Hid.
    assert (k' = k) as -> by (by eapply (wf_ids db Hwf)). congruence.
Qed.

(** *** Effects

    The changes an operation can make, each at one key. *)

Definition keeps_slot (r r' : SecretRow) : Prop :=
  r'.(sc_current_version) = r.(sc_current_version) /\
  forall v, is_Some (r.(sc_versions) !! v) -> is_Some (r'.(sc_versions) !! v).

Definition same_rotation (x x' : RotationRow) : Prop :=
  x'.(ro_secret_id) = x.(ro_secret_id) /\ x'.(ro_tenant_id) = x.(ro_tenant_id) /\
  x'.(ro_path) = x.(ro_path) /\ x'.(ro_status) <> PendingActivation /\
  x'.(ro_old_version) = x.(ro_old_version).

Inductive effect (T : Z) (db : SecretDb) (k : string * string) (db' : SecretDb) : Prop :=
| eff_same : db'.(secrets) = db.(secrets) -> db'.(rotations) = db.(rotations) -> effect T db k db'
| eff_new r' :
    db.(secrets) !! k = None -> db'.(secrets) = <[k := r']> db.(secrets) ->
    db'.(rotations) = db.(rotations) -> is_fresh db r'.(sc_id) -> row_wf r' -> effect T db k db'
| eff_row r r' :
    db.(secrets) !! k = Some r -> db'.(secrets) = <[k := r']> db.(secrets) ->
    db'.(rotations) = db.(rotations) -> row_evolves r r' -> row_wf r' ->
    (is_Some (r.(sc_versions) !! (r.(sc_current_version) + 1)) -> keeps_slot r r') ->
    effect T db k db'
| eff_rotate r r' rid x :
    db.(secrets) !! k = Some r -> db'.(secrets) = <[k := r']> db.(secrets) ->
    pending_for r.(sc_id) db.(rotations) = false ->
    db'.(rotations) = <[rid := x]> db.(rotations) -> db.(rotations) !! rid = None ->
    (x.(ro_tenant_id), x.(ro_path)) = k -> x.(ro_secret_id) = r.(sc_id) ->
    x.(ro_old_version) = r.(sc_current_version) -> x.(ro_status) = PendingActivation ->
    x.(ro_new_version) = r.(sc_current_version) + 1 ->
    row_evolves r r' -> row_wf r' -> r'.(sc_current_version) = r.(sc_current_version) ->
    is_Some (r'.(sc_versions) !! x.(ro_new_version)) -> effect T db k db'
| eff_settle r r' rid x x' :
    db.(rotations) !! rid = Some x -> (x.(ro_tenant_id), x.(ro_path)) = k ->
    db.(secrets) !! k = Some r -> db'.(secrets) = <[k := r']> db.(secrets) ->
    db'.(rotations) = <[rid := x']> db.(rotations) -> same_rotation x x' ->
    row_evolves r r' -> row_wf r' -> (x.(ro_status) = PendingActivation /\ T < x.(ro_expires_at) /\
       r.(sc_current_version) < r'.(sc_current_version) \/
     x.(ro_status) <> PendingActivation /\ keeps_slot r r') ->
    effect T db k db'.

Lemma pending_for_false sid m i x :
  pending_for sid m = false -> m !! i = Some x -> x.(ro_secret_id) = sid ->
  x.(ro_status) = PendingActivation -> False.
Proof.
  unfold pending_for. intros Hp Hi Hs Hst. apply not_true_iff_false in Hp. apply Hp, existsb_exists.
  exists (i, x). split; [by apply list_elem_of_In, elem_of_map_to_list|]. by apply bool_decide_eq_true.
Qed.

(** A rotation whose row is not the changed one, or whose row kept its slot. *)
Lemma rotation_wf_insert db db' k r r' x :
  db_wf db -> db.(secrets) !! k = Some r -> db'.(secrets) = <[k := r']> db.(secrets) ->
  r'.(sc_id) = r.(sc_id) -> r.(sc_current_version) <= r'.(sc_current_version) -> rotation_wf db x ->
  (x.(ro_secret_id) = r.(sc_id) -> x.(ro_status) = PendingActivation -> keeps_slot r r') ->
  rotation_wf db' x.
Proof.
  intros Hwf Hk Hs Hid Hle (r0 & Hr0 & Hid0 & Hp & Hold) Hslot. unfold rotation_wf. rewrite Hs.
  destruct (decide ((x.(ro_tenant_id), x.(ro_path)) = k)) as [<-|Hne].
  - rewrite lookup_insert_eq. rewrite Hk in Hr0. injection Hr0 as <-. exists r'.
    split; [done|]. split; [congruence|]. split; [|intros Hst; specialize (Hold Hst); lia].
    intros Hst. destruct (Hp Hst) as (Ho & Hn & Hv).
    destruct (Hslot ltac:(congruence) Hst) as [Hcur Hvs]. rewrite Hcur. auto.
  - rewrite lookup_insert_ne by done. by exists r0.
Qed.

Lemma ids_insert db k r' :
  db_wf db -> (forall k' r, db.(secrets) !! k' = Some r -> r.(sc_id) = r'.(sc_id) -> k' = k) ->
  forall k1 k2 r1 r2, <[k := r']> db.(secrets) !! k1 = Some r1 ->
    <[k := r']> db.(secrets) !! k2 = Some r2 -> r1.(sc_id) = r2.(sc_id) -> k1 = k2.
Proof.
  intros Hwf Hu k1 k2 r1 r2. rewrite !lookup_insert_Some.
  intros [[-> <-]|[Hne1 H1]] [[-> <-]|[Hne2 H2]] Hid.
  - done.
  - symmetry. by eapply Hu.
  - by eapply Hu.
  - by eapply (wf_ids db Hwf).
Qed.

Lemma effect_ids db k db' r r' :
  db_wf db -> db.(secrets) !! k = Some r -> db'.(secrets) = <[k := r']> db.(secrets) ->
  r'.(sc_id) = r.(sc_id) ->
  forall k1 k2 r1 r2, db'.(secrets) !! k1 = Some r1 ->
    db'.(secrets) !! k2 = Some r2 -> r1.(sc_id) = r2.(sc_id) -> k1 = k2.
Proof.
  intros Hwf Hk Hs Hid. rewrite Hs. apply ids_insert; [done|]. intros k' r0 Hr0 Heq.
  eapply (wf_ids db Hwf); [exact Hr0|exact Hk|congruence].
Qed.

Lemma effect_wf T db k db' : db_wf db -> effect T db k db' -> db_wf db'.
Proof.
  intros Hwf Heff. pose proof (wf_rows db Hwf) as Hrows. pose proof (wf_rotations db Hwf) as Hrots.
  destruct Heff as [Hs Hr|r' Hk Hs Hr Hf Hw|r r' Hk Hs Hr He Hw Hslot
    |r r' rid x Hk Hs Hpf Hr Hfree Hxk Hxs Hxo Hxst Hxn He Hw Hcur Hv
    |r r' rid x x' Hx Hxk Hk Hs Hr Hsame He Hw Hslot].
  - split; [by rewrite Hs|rewrite Hs; apply Hwf| |rewrite Hr; apply Hwf].
    rewrite Hr. intros i x Hi. destruct (Hrots i x Hi) as (r & Hr0 & Hrest). exists r. by rewrite Hs.
  - split; [rewrite Hs; by apply map_Forall_insert_2| | |by rewrite Hr; apply Hwf].
    + rewrite Hs. apply ids_insert; [done|]. intros k' r Hr' Hid.
      destruct Hf as [Hf _]. by destruct (Hf k' r Hr').
    + rewrite Hr. intros i x Hi. destruct (Hrots i x Hi) as (r & Hr0 & Hrest). exists r.
      rewrite Hs, lookup_insert_ne; [done|]. intros Heq. rewrite <- Heq in Hr0. congruence.
  - split; [rewrite Hs; by apply map_Forall_insert_2| | |by rewrite Hr; apply Hwf].
    + by eapply effect_ids; [| | |apply He].
    + rewrite Hr. intros i x Hi. eapply (rotation_wf_insert db db' k r r' x Hwf Hk Hs);
        [apply He|exact (proj1 (proj2 He))|by eapply Hrots|].
      intros Hid Hst. apply Hslot. destruct (Hrots i x Hi) as (r0 & Hr0 & Hid0 & Hp & _).
      assert (Heqk : (x.(ro_tenant_id), x.(ro_path)) = k)
        by (eapply (wf_ids db Hwf); [exact Hr0|exact Hk|congruence]).
      rewrite Heqk, Hk in Hr0. injection Hr0 as <-. by destruct (Hp Hst) as (_ & <- & Hsome).
  - split; [rewrite Hs; by apply map_Forall_insert_2| | |].
    + by eapply effect_ids; [| | |apply He].
    + rewrite Hr. apply map_Forall_insert_2.
      * exists r'. rewrite Hxk, Hs, lookup_insert_eq. split; [done|].
        split; [rewrite Hxs; apply He|]. rewrite Hcur. split; [auto|done].
      * intros i y Hi. eapply (rotation_wf_insert db db' k r r' y Hwf Hk Hs);
        [apply He|exact (proj1 (proj2 He))|by eapply Hrots|].
        intros Hid Hst. by destruct (pending_for_false _ _ _ _ Hpf Hi Hid Hst).
    + rewrite Hr. intros i j y z. rewrite !lookup_insert_Some.
      intros [[<- <-]|[Hne1 H1]] [[<- <-]|[Hne2 H2]] Hst1 Hst2 Hid; [done| | |].
      * destruct (pending_for_false _ _ _ _ Hpf H2 ltac:(congruence) Hst2).
      * destruct (pending_for_false _ _ _ _ Hpf H1 ltac:(congruence) Hst1).
      * by eapply (wf_pending db Hwf).
  - destruct Hsame as (Hsid & Hst & Hsp & Hnp & Hso).
    split; [rewrite Hs; by apply map_Forall_insert_2| | |].
    + by eapply effect_ids; [| | |apply He].
    + rewrite Hr. intros i y. rewrite lookup_insert_Some. intros [[<- <-]|[Hne Hi]].
      * exists r'. rewrite Hst, Hsp, Hxk, Hs, lookup_insert_eq. split; [done|].
        destruct (Hrots rid x Hx) as (r0 & Hr0 & Hid0 & Hp & Hold). rewrite Hxk, Hk in Hr0.
        injection Hr0 as <-. split; [rewrite Hsid, <- Hid0; apply He|]. split; [done|]. intros _.
        rewrite Hso. destruct Hslot as [(Hxst & _ & Hlt)|[Hxst [Hcur _]]].
        -- destruct (Hp Hxst) as [-> _]. done.
        -- rewrite Hcur. by apply Hold.
      * eapply (rotation_wf_insert db db' k r r' y Hwf Hk Hs);
        [apply He|exact (proj1 (proj2 He))|by eapply Hrots|].
        intros Hid Hyst.
        destruct Hslot as [[Hxst _]|[_ Hslot]]; [|done]. destruct Hne.
        destruct (Hrots rid x Hx) as (r0 & Hr0 & Hid0 & _). rewrite Hxk, Hk in Hr0.
        injection Hr0 as <-. eapply (wf_pending db Hwf); eauto. congruence.
    + rewrite Hr. intros i j y z. rewrite !lookup_insert_Some.
      intros [[<- <-]|[Hne1 H1]] [[<- <-]|[Hne2 H2]] Hst1 Hst2 Hid; [done|done|done|].
      by eapply (wf_pending db Hwf).
Qed.

(** *** Changes of one row *)

Definition same_content (x x' : VersionRow) : Prop :=
  x'.(vr_ciphertext) = x.(vr_ciphertext) /\ x'.(vr_dek_id) = x.(vr_dek_id) /\
  x'.(vr_destroyed) = x.(vr_destroyed).

Definition erased (x : VersionRow) : Prop :=
  x.(vr_ciphertext) = "" /\ x.(vr_dek_id) = "" /\ x.(vr_destroyed) = true.

Lemma same_content_evolves x x' : same_content x x' -> version_evolves x x'.
Proof. intros (? & ? & Hd). split; [by left|congruence]. Qed.

Lemma erased_evolves x x' : erased x' -> version_evolves x x'.
Proof. intros (? & ? & ?). split; [by right|done]. Qed.

(** A new version one above the pointer; others are kept or dropped. *)
Definition pushed (r r' : SecretRow) : Prop :=
  r'.(sc_id) = r.(sc_id) /\ r'.(sc_current_version) = r.(sc_current_version) + 1 /\
  r.(sc_current_version) + 1 <= I32_MAX /\
  r.(sc_versions) !! (r.(sc_current_version) + 1) = None /\
  forall v x', r'.(sc_versions) !! v = Some x' ->
    v = r.(sc_current_version) + 1 /\ x'.(vr_destroyed) = false \/
    exists x, r.(sc_versions) !! v = Some x /\ same_content x x'.

(** The same versions, each kept or erased. *)
Definition touched (r r' : SecretRow) : Prop :=
  r'.(sc_id) = r.(sc_id) /\ r'.(sc_current_version) = r.(sc_current_version) /\
  forall v, match r.(sc_versions) !! v, r'.(sc_versions) !! v with
            | Some x, Some x' => same_content x x' \/ erased x'
            | None, None => True
            | _, _ => False
            end.

Lemma pushed_evolves r r' : row_wf r -> pushed r r' -> row_evolves r r' /\ row_wf r'.
Proof.
  intros [Hcur Hvs] (Hid & Hc & Hmax & Hnone & Hv). split.
  - split; [done|]. split; [lia|]. split_and!.
    + intros v x x' Hx Hx'. destruct (Hv v x' Hx') as [[-> _]|(y & Hy & Hsame)]; [congruence|].
      simplify_eq. by apply same_content_evolves.
    + intros v Hn [x' Hx']. destruct (Hv v x' Hx') as [[-> _]|(y & Hy & _)]; [lia|congruence].
    + intros v [x Hx] _. destruct (Hvs v x Hx) as ([] & _). lia.
  - split; [lia|]. intros v x' Hx'. destruct (Hv v x' Hx') as [[-> Hd]|(y & Hy & Hct & Hdk & Hds)].
    + split; [lia|]. split; [lia|]. congruence.
    + destruct (Hvs v y Hy) as (? & ? & Herase). split; [lia|]. split; [done|].
      rewrite Hct, Hdk, Hds. exact Herase.
Qed.

Lemma touched_evolves r r' :
  row_wf r -> touched r r' -> row_evolves r r' /\ row_wf r' /\ keeps_slot r r'.
Proof.
  intros [Hcur Hvs] (Hid & Hc & Hv). split; [|split].
  - split; [done|]. split; [lia|]. split_and!.
    + intros v x x' Hx Hx'. specialize (Hv v). rewrite Hx, Hx' in Hv.
      destruct Hv; [by apply same_content_evolves|by apply erased_evolves].
    + intros v Hn [x' Hx']. specialize (Hv v). by rewrite Hn, Hx' in Hv.
    + intros v [x Hx] Hn. specialize (Hv v). by rewrite Hn, Hx in Hv.
  - split; [lia|]. intros v x' Hx'. specialize (Hv v). rewrite Hx' in Hv.
    destruct (r.(sc_versions) !! v) as [x|] eqn:Hx; [|done]. destruct (Hvs v x Hx) as (? & ? & Hd).
    rewrite Hc. split; [done|]. split; [done|].
    destruct Hv as [(Hct & Hdk & Hds)|(Hct & Hdk & _)]; rewrite Hct, Hdk, ?Hds; done.
  - split; [done|]. intros v [x Hx]. specialize (Hv v). rewrite Hx in Hv. by destruct (_ !! v).
Qed.

Lemma insert_version_Ok r v row r' :
  insert_version r v row = Ok r' ->
  r.(sc_versions) !! v = None /\ r' = set_versions r (<[v := row]> r.(sc_versions)).
Proof. unfold insert_version. destruct (_ !! v); [done|]. by intros [= <-]. Qed.

Lemma int_minus_Ok a b c : int_minus a b = Ok c -> c = a - b.
Proof. unfold int_minus. destruct (_ || _); [done|]. by intros [= <-]. Qed.

Lemma next_version_Ok c v : next_version c = Ok v -> v = c + 1 /\ c + 1 <= I32_MAX.
Proof. unfold next_version. destruct (_ <? _) eqn:Hlt; [done|]. intros [= <-]. lia. Qed.

Lemma prune_lookup upto vs v x :
  prune_rows upto vs !! v = Some x <->
  vs !! v = Some x /\ ~ (v <= upto /\ x.(vr_destroyed) = false).
Proof. unfold prune_rows. by rewrite map_lookup_filter_Some. Qed.

Lemma update_versions_touched p f r :
  (forall x, same_content x (f x) \/ erased (f x)) ->
  touched r (set_versions r (update_versions p f r.(sc_versions)).1).
Proof.
  intros Hf. split; [done|]. split; [done|]. intros v. cbn. rewrite map_lookup_imap.
  destruct (r.(sc_versions) !! v) as [x|]; [|done]. cbn. destruct (p v x); [done|]. by left.
Qed.

Lemma alter_touched f v r :
  (forall x, same_content x (f x) \/ erased (f x)) ->
  touched r (set_versions r (alter f v r.(sc_versions))).
Proof.
  intros Hf. split; [done|]. split; [done|]. intros v'. cbn.
  destruct (decide (v = v')) as [<-|Hne].
  - rewrite lookup_alter_eq. by destruct (r.(sc_versions) !! v); cbn.
  - rewrite lookup_alter_ne by done. destruct (r.(sc_versions) !! v'); [by left|done].
Qed.

(** *** Each operation is an effect *)

Lemma effect_ext T db k db' db'' :
  db''.(secrets) = db'.(secrets) -> db''.(rotations) = db'.(rotations) ->
  effect T db k db' -> effect T db k db''.
Proof.
  intros Hs Hr [?|? ?|? ?|? ? ? ?|? ? ? ? ?];
    [eapply eff_same|eapply eff_new|eapply eff_row|eapply eff_rotate|eapply eff_settle];
    rewrite ?Hs, ?Hr; eauto.
Qed.

Lemma effect_refl T db k : effect T db k db.
Proof. by apply eff_same. Qed.

Lemma eff_touched T db k r r' db' :
  db_wf db -> db.(secrets) !! k = Some r -> touched r r' ->
  db'.(secrets) = <[k := r']> db.(secrets) -> db'.(rotations) = db.(rotations) -> effect T db k db'.
Proof.
  intros Hwf Hk Ht Hs Hr.
  destruct (touched_evolves r r' (wf_rows db Hwf k r Hk) Ht) as (He & Hw & Hslot).
  by eapply eff_row.
Qed.

Lemma eff_pushed T db k r r' db' :
  db_wf db -> db.(secrets) !! k = Some r -> pushed r r' ->
  db'.(secrets) = <[k := r']> db.(secrets) -> db'.(rotations) = db.(rotations) -> effect T db k db'.
Proof.
  intros Hwf Hk Hp Hs Hr.
  destruct (pushed_evolves r r' (wf_rows db Hwf k r Hk) Hp) as [He Hw].
  eapply eff_row; eauto. intros [x Hx]. destruct Hp as (_ & _ & _ & Hn & _). congruence.
Qed.

(** The row a successful write leaves. *)
Definition written_row (d : Draw) (r : SecretRow) (ct dek : string) (max : Z) (md : metadata)
    (env : SecretEnvironment) (tags : list string) : SecretRow :=
  let v := r.(sc_current_version) + 1 in
  set_labels d.(now)
    (set_versions (set_pointer d.(now) r v)
       (prune_rows (v - max)
          (<[v := new_version_row d.(now) ct dek md VActive None]> r.(sc_versions))))
    (env_str env) tags md.

Lemma upsert_Ok d db u path ct dek cas max cas_req md env tags sid v db' :
  upsert_secret_version d db u path ct dek cas max cas_req md env tags = Ok (sid, v, db') ->
  exists r0, r0 = match db.(secrets) !! (u, path) with
                  | Some r => conflict_update d.(now) r
                  | None => inserted_secret d.(now) d.(fresh) "kv_v2" (as_i32 max) cas_req md
                  end /\
    db'.(secrets) = <[(u, path) := written_row d r0 ct dek (as_i32 max) md env tags]> db.(secrets) /\
    db'.(rotations) = db.(rotations) /\ sid = r0.(sc_id) /\
    v = as_u32 (r0.(sc_current_version) + 1) /\
    r0.(sc_current_version) + 1 <= I32_MAX /\
    r0.(sc_versions) !! (r0.(sc_current_version) + 1) = None /\
    (forall c, cas = Some c -> as_i32 c = r0.(sc_current_version)).
Proof.
  unfold upsert_secret_version, vault_upsert_secret.
  set (start := match db.(secrets) !! (u, path) with
                | Some r => Ok (conflict_update d.(now) r, db)
                | None =>
                    match db.(tenant_rows) !! u with
                    | None => Err (Violated "secrets_tenant_id_fkey")
                    | Some _ => Ok (inserted_secret d.(now) d.(fresh) "kv_v2" (as_i32 max) cas_req md,
                                    set_quotas db (count_secret db.(quotas) u))
                    end
                end).
  destruct start as [[r0 db1]|e] eqn:Hstart; [|by destruct e]. cbn.
  assert (Hr0 : r0 = match db.(secrets) !! (u, path) with
                     | Some r => conflict_update d.(now) r
                     | None => inserted_secret d.(now) d.(fresh) "kv_v2" (as_i32 max) cas_req md
                     end /\ db1.(secrets) = db.(secrets) /\ db1.(rotations) = db.(rotations)).
  { unfold start in Hstart. destruct (db.(secrets) !! (u, path)); [by simplify_eq|].
    destruct (db.(tenant_rows) !! u); by simplify_eq. }
  destruct Hr0 as (Hr0 & Hs1 & Hr1). clear Hstart start.
  case_bool_decide as Hcas; [done|].
  destruct (next_version r0.(sc_current_version)) as [v'|e] eqn:Hn; [|by destruct e].
  apply next_version_Ok in Hn as [-> Hmax]. cbn.
  destruct (insert_version r0 _ _) as [r1|e] eqn:Hins; [|by destruct e].
  apply insert_version_Ok in Hins as [Hnone ->]. cbn.
  destruct (int_minus _ _) as [oldest|e] eqn:Hold; [|by destruct e]. apply int_minus_Ok in Hold as ->.
  cbn. intros [= <- <- <-].
  exists r0. split; [done|]. split; [|split_and!; try done].
  - cbn. rewrite Hs1. rewrite alter_insert_eq. done.
  - intros c ->. destruct (decide (as_i32 c = r0.(sc_current_version))) as [|Hne]; [done|].
    destruct Hcas. cbn. split; [done|]. congruence.
Qed.

Lemma in_tx_state {A} d db (body : vresult (A * SecretDb)) (P : SecretDb -> Prop) :
  P db -> (forall a db', body = Ok (a, db') -> P db') -> P (in_tx d db body).2.
Proof.
  intros Hsame Hok. unfold in_tx.
  destruct (fault d) as [[e []]|], body as [[a db']|e']; cbn; eauto.
Qed.

Lemma written_pushed d r ct dek max md env tags :
  r.(sc_current_version) + 1 <= I32_MAX ->
  r.(sc_versions) !! (r.(sc_current_version) + 1) = None ->
  pushed r (written_row d r ct dek max md env tags).
Proof.
  intros Hmax Hnone. split_and!; [done|done|done|done|]. intros v x'. cbn.
  rewrite prune_lookup, lookup_insert_Some. intros [[[<- <-]|[Hne Hx]] _]; [by left|].
  right. exists x'. by split_and!.
Qed.

Lemma put_effect T d ev db t path ct dek cas md max u :
  db_wf db -> is_fresh db d.(fresh) -> uuid_parse t = Ok u ->
  effect T db (u, path) (run_op d db (OpPut ev t path ct dek cas md max)).
Proof.
  intros Hwf Hf Hu. cbn. unfold pg_put, parse_tenant_id. rewrite Hu.
  destruct (in_tx d db _) as [res db'] eqn:Htx. cbn.
  assert (Heff : effect T db (u, path) db').
  { change db' with (res, db').2. rewrite <- Htx. apply in_tx_state.
    - apply effect_refl.
    - intros a db2 Hok. destruct (check_write_quota _ _ _); [cbn in Hok|done].
      destruct (upsert_secret_version _ _ _ _ _ _ _ _ _ _ _ _) as [[[sid v] db3]|] eqn:Hup;
        [|done].
      cbn in Hok. injection Hok as <- <-.
      apply upsert_Ok in Hup as (r0 & Hr0 & Hs & Hr & _ & _ & Hmax & Hnone & _).
      destruct (db.(secrets) !! (u, path)) as [r|] eqn:Hk.
      + eapply eff_pushed; [done|done| |exact Hs|exact Hr]. rewrite Hr0 in *.
        apply (written_pushed d (conflict_update _ r)); [exact Hmax|exact Hnone].
      + eapply eff_new; [done|exact Hs|exact Hr|by rewrite Hr0|]. rewrite Hr0 in *.
        eapply pushed_evolves; [|by apply written_pushed]. split; [done|]. apply map_Forall_empty. }
  destruct (is_ok res); [|done]. unfold emit_replication_event. destruct ev; [|done].
  by eapply effect_ext; [| |exact Heff].
Qed.

(** The rows a statement addressed by the id of the secret at [k]. *)
Lemma eff_versions T db k r p f :
  db_wf db -> db.(secrets) !! k = Some r -> (forall x, same_content x (f x) \/ erased (f x)) ->
  effect T db k (on_secret db r.(sc_id)
                 (fun r => set_versions r (update_versions p f r.(sc_versions)).1)).
Proof.
  intros Hwf Hk Hf. rewrite (on_secret_at db k r) by done.
  eapply eff_touched; [done|done| |done|done]. by apply update_versions_touched.
Qed.

Lemma metadata_row db u path m :
  get_secret_metadata to_uppercase db u path = Ok m ->
  exists r, db.(secrets) !! (u, path) = Some r /\ m.(md_id) = r.(sc_id) /\
    m.(md_current_version) = as_u32 r.(sc_current_version).
Proof.
  unfold get_secret_metadata. destruct (db.(secrets) !! (u, path)) as [r|]; cbn; [|done].
  intros [= <-]. by exists r.
Qed.

Lemma soft_delete_effect T d db t path vs u :
  db_wf db -> uuid_parse t = Ok u -> effect T db (u, path) (run_op d db (OpSoftDelete t path vs)).
Proof.
  intros Hwf Hu. cbn. unfold pg_soft_delete, parse_tenant_id. rewrite Hu.
  apply in_tx_state; [apply effect_refl|]. intros n db'.
  destruct (get_secret_metadata to_uppercase db u path) as [m|] eqn:Hm; [cbn|done].
  apply metadata_row in Hm as (r & Hk & Hid & _).
  destruct (resolve_soft_delete_targets _ _) as [|v l]; intros [= <- <-]; [apply effect_refl|].
  rewrite Hid. apply eff_versions; [done|done|]. by left.
Qed.

Lemma destroy_effect T d db t path vs u :
  db_wf db -> uuid_parse t = Ok u -> effect T db (u, path) (run_op d db (OpDestroy t path vs)).
Proof.
  intros Hwf Hu. cbn. unfold pg_destroy, parse_tenant_id. rewrite Hu.
  apply in_tx_state; [apply effect_refl|]. intros n db'.
  destruct (get_secret_metadata to_uppercase db u path) as [m|] eqn:Hm; [cbn|done].
  apply metadata_row in Hm as (r & Hk & Hid & _).
  destruct (resolve_destroy_targets _ _) as [|v l]; intros [= <- <-]; [apply effect_refl|].
  rewrite Hid. apply eff_versions; [done|done|]. by right.
Qed.

(** The row with a pending version beside the pointer. *)
Definition pending_row (now : Z) (r : SecretRow) (ct dek by_ : string) : SecretRow :=
  set_rotation_status now
    (set_versions r (<[r.(sc_current_version) + 1 :=
       new_version_row now ct dek ∅ VPending (Some by_)]> r.(sc_versions))) "pending".

Lemma initiate_Ok d db u path ct dek by_ webhook timeout rid v db' :
  initiate_rotation d db u path ct dek by_ webhook timeout = Ok (rid, v, db') ->
  exists r x, db.(secrets) !! (u, path) = Some r /\ rid = d.(fresh) /\
    v = as_u32 (r.(sc_current_version) + 1) /\
    pending_for r.(sc_id) db.(rotations) = false /\
    r.(sc_current_version) + 1 <= I32_MAX /\
    r.(sc_versions) !! (r.(sc_current_version) + 1) = None /\
    db'.(secrets) = <[(u, path) := pending_row d.(now) r ct dek by_]> db.(secrets) /\
    db'.(rotations) = <[rid := x]> db.(rotations) /\
    (x.(ro_tenant_id), x.(ro_path)) = (u, path) /\ x.(ro_secret_id) = r.(sc_id) /\
    x.(ro_old_version) = r.(sc_current_version) /\
    x.(ro_new_version) = r.(sc_current_version) + 1 /\
    x.(ro_status) = PendingActivation /\
    x.(ro_expires_at) = d.(now) + default 86400 timeout * SECOND.
Proof.
  unfold initiate_rotation, vault_initiate_rotation.
  destruct (db.(secrets) !! (u, path)) as [r|] eqn:Hk; [|done].
  destruct (pending_for r.(sc_id) db.(rotations)) eqn:Hp; [done|].
  destruct (next_version r.(sc_current_version)) as [v'|e] eqn:Hn; [|by destruct e].
  apply next_version_Ok in Hn as [-> Hmax]. cbn.
  destruct (insert_version r _ _) as [r1|e] eqn:Hins; [|by destruct e].
  apply insert_version_Ok in Hins as [Hnone ->]. cbn. intros [= <- <- <-].
  eexists r, _. split_and!; try done.
Qed.

Lemma pending_row_evolves now r ct dek by_ :
  row_wf r -> r.(sc_current_version) + 1 <= I32_MAX ->
  r.(sc_versions) !! (r.(sc_current_version) + 1) = None ->
  row_evolves r (pending_row now r ct dek by_) /\ row_wf (pending_row now r ct dek by_).
Proof.
  intros [Hcur Hvs] Hmax Hnone. split.
  - split; [done|]. split; [done|]. cbn. split_and!; intros v.
    + intros x x' Hx. rewrite lookup_insert_Some. intros [[<- _]|[_ Hx']]; [congruence|].
      simplify_eq. by apply same_content_evolves.
    + intros Hx [x' Hx']. apply lookup_insert_Some in Hx' as [[<- _]|[_ Hx']]; [lia|congruence].
    + intros [x Hx] Hn. apply lookup_insert_None in Hn as [Hn _]. congruence.
  - split; [done|]. cbn. apply map_Forall_insert_2; [|done]. split; [lia|]. done.
Qed.

Lemma initiate_effect T d db t path ct dek by_ webhook timeout u :
  db_wf db -> is_fresh db d.(fresh) -> uuid_parse t = Ok u ->
  effect T db (u, path) (run_op d db (OpInitiate t path ct dek by_ webhook timeout)).
Proof.
  intros Hwf [_ Hf] Hu. cbn. unfold pg_initiate_rotation, parse_tenant_id. rewrite Hu.
  apply in_tx_state; [apply effect_refl|]. intros a db'.
  destruct (initiate_rotation _ _ _ _ _ _ _ _ _) as [[[rid v] db1]|] eqn:Hi; [cbn|done].
  intros [= <- <-].
  apply initiate_Ok in Hi as (r & x & Hk & -> & _ & Hp & Hmax & Hnone & Hs & Hr & Hx & Hsid & Ho
    & Hn & Hst & _).
  destruct (pending_row_evolves d.(now) r ct dek by_ (wf_rows db Hwf _ _ Hk) Hmax Hnone) as [He Hw].
  eapply eff_rotate; eauto. rewrite Hn. cbn. rewrite lookup_insert_eq. by eexists.
Qed.

(** What a confirmed rotation leaves of its row. *)
Definition settled_row (now : Z) (x : RotationRow) (r : SecretRow) : SecretRow :=
  set_rotated now
    (set_versions r (alter (deprecated now) x.(ro_old_version)
                       (alter activated x.(ro_new_version) r.(sc_versions)))) x.(ro_new_version).

Lemma confirm_Ok d db u rotation_id by_ old new grace db' :
  db_wf db -> confirm_rotation d db u rotation_id by_ = Ok (old, new, grace, db') ->
  exists rid x r, uuid_parse rotation_id = Ok rid /\ db.(rotations) !! rid = Some x /\
    x.(ro_tenant_id) = u /\ x.(ro_status) = PendingActivation /\ d.(now) < x.(ro_expires_at) /\
    db.(secrets) !! (u, x.(ro_path)) = Some r /\ r.(sc_id) = x.(ro_secret_id) /\
    old = as_u32 x.(ro_old_version) /\ new = as_u32 x.(ro_new_version) /\
    grace = d.(now) + default 3600 r.(sc_grace) * SECOND /\
    db'.(secrets) = <[(u, x.(ro_path)) := settled_row d.(now) x r]> db.(secrets) /\
    db'.(rotations) = <[rid := confirmed_rotation d.(now) by_ grace x]> db.(rotations).
Proof.
  intros Hwf. unfold confirm_rotation, vault_confirm_rotation.
  destruct (uuid_parse rotation_id) as [rid|]; [|done].
  case_bool_decide as Hten; [|done].
  destruct (db.(rotations) !! rid) as [x|] eqn:Hx; [|done]. cbn in Hten. injection Hten as Hten.
  destruct (bool_decide (x.(ro_status) = PendingActivation) && (d.(now) <? x.(ro_expires_at)))
    eqn:Hg; [|done].
  apply andb_true_iff in Hg as [Hst%bool_decide_eq_true Hexp%Z.ltb_lt].
  destruct (wf_rotations db Hwf _ _ Hx) as (r & Hr & Hid & _). rewrite Hten in Hr.
  rewrite <- Hid, (secret_by_id_at db _ r Hwf Hr), (on_secret_at db _ r _ Hwf Hr).
  cbn. intros [= <- <- <- <-]. exists rid, x, r. split_and!; done.
Qed.

Lemma activated_touched now r old new :
  touched r (set_versions r (alter (deprecated now) old (alter activated new r.(sc_versions)))).
Proof.
  split; [done|]. split; [done|]. intros v. cbn. rewrite !lookup_alter.
  repeat case_decide; subst; destruct (r.(sc_versions) !! _) as [y|]; cbn; by try left.
Qed.

(** Moving the pointer onto the version above it. *)
Lemma settled_evolves now x r :
  row_wf r -> x.(ro_new_version) = r.(sc_current_version) + 1 ->
  is_Some (r.(sc_versions) !! x.(ro_new_version)) ->
  row_evolves r (settled_row now x r) /\ row_wf (settled_row now x r).
Proof.
  intros Hw Hn [y Hy].
  destruct (touched_evolves _ _ Hw (activated_touched now r x.(ro_old_version) x.(ro_new_version)))
    as ((Hid & Hc & Hv & Hnew & Hdrop) & [Hcur Hvs] & _).
  destruct Hw as [Hcur0 Hvs0]. destruct (Hvs0 _ _ Hy) as (_ & Hle & _).
  split; [split; [done|]; split; [cbn; lia|]; split_and!; [exact Hv|exact Hnew|]|split].
  - intros v Hs Hnone. specialize (Hdrop v Hs Hnone). cbn in *. lia.
  - cbn. lia.
  - intros v z Hz. destruct (Hvs v z Hz) as (Hb & ? & ?). cbn in Hb |- *. split; [lia|done].
Qed.

Lemma confirm_effect d db t rotation_id by_ u :
  db_wf db -> uuid_parse t = Ok u ->
  exists path, effect d.(now) db (u, path) (run_op d db (OpConfirm t rotation_id by_)).
Proof.
  intros Hwf Hu. cbn. unfold pg_confirm_rotation, parse_tenant_id. rewrite Hu.
  apply in_tx_state; [exists ""; apply effect_refl|]. intros a db'.
  destruct (confirm_rotation _ _ _ _ _) as [[[[old new] grace] db1]|] eqn:Hc; [cbn|done].
  intros [= <- <-].
  apply confirm_Ok in Hc
    as (rid & x & r & _ & Hx & Hten & Hst & Hexp & Hr & Hid & _ & _ & _ & Hs & Hrot); [|done].
  exists x.(ro_path). destruct (wf_rotations db Hwf _ _ Hx) as (r0 & Hr0 & _ & Hp & _).
  rewrite Hten, Hr in Hr0. injection Hr0 as <-. destruct (Hp Hst) as (_ & Hn & Hsome).
  destruct (settled_evolves d.(now) x r (wf_rows db Hwf _ _ Hr) Hn Hsome) as [He Hw].
  eapply (eff_settle _ db _ db1 r (settled_row d.(now) x r) rid x); eauto; try done.
  - by rewrite Hten.
  - left. split; [done|]. split; [done|]. cbn. lia.
Qed.

(** What a rollback leaves. *)
Definition rolled_row (now : Z) (r : SecretRow) (t : VersionRow) (by_ : string) : SecretRow :=
  set_pointer now
    (set_versions r
       (alter (fun x => if bool_decide (x.(vr_status) = VActive) then deprecated now x else x)
          r.(sc_current_version)
          (<[r.(sc_current_version) + 1 := new_version_row now t.(vr_ciphertext) t.(vr_dek_id)
               t.(vr_custom_metadata) VActive (Some by_)]> r.(sc_versions))))
    (r.(sc_current_version) + 1).

Lemma rollback_Ok d db u path target by_ v db' :
  rollback_secret d db u path target by_ = Ok (v, db') ->
  exists r t, db.(secrets) !! (u, path) = Some r /\
    r.(sc_versions) !! as_i32 target = Some t /\ t.(vr_destroyed) = false /\
    v = as_u32 (r.(sc_current_version) + 1) /\ r.(sc_current_version) + 1 <= I32_MAX /\
    r.(sc_versions) !! (r.(sc_current_version) + 1) = None /\
    db' = set_secrets db (<[(u, path) := rolled_row d.(now) r t by_]> db.(secrets)).
Proof.
  unfold rollback_secret, vault_rollback_secret.
  destruct (db.(secrets) !! (u, path)) as [r|] eqn:Hk; [|done].
  destruct (r.(sc_versions) !! as_i32 target) as [t|] eqn:Ht; [|done].
  destruct (vr_destroyed t) eqn:Hd; [done|].
  destruct (next_version r.(sc_current_version)) as [v'|e] eqn:Hn; [|by destruct e].
  apply next_version_Ok in Hn as [-> Hmax]. cbn.
  destruct (insert_version r _ _) as [r1|e] eqn:Hins; [|by destruct e].
  apply insert_version_Ok in Hins as [Hnone ->]. cbn. intros [= <- <-].
  by exists r, t.
Qed.

Lemma rolled_pushed now r t by_ :
  r.(sc_current_version) + 1 <= I32_MAX ->
  r.(sc_versions) !! (r.(sc_current_version) + 1) = None ->
  pushed r (rolled_row now r t by_).
Proof.
  intros Hmax Hnone. split_and!; [done|done|done|done|]. intros v x'. cbn.
  intros Hx. destruct (decide (v = r.(sc_current_version) + 1)) as [->|Hne].
  - left. rewrite lookup_alter_ne, lookup_insert_eq in Hx by lia. by simplify_eq.
  - right. rewrite lookup_alter in Hx. case_decide as Heq; subst.
    all: rewrite lookup_insert_ne in Hx by lia.
    2: by exists x'.
    destruct (r.(sc_versions) !! r.(sc_current_version)) as [x|]; [|done]. injection Hx as <-.
    exists x. split; [done|]. by case_bool_decide.
Qed.

Lemma rollback_effect T d db t path target by_ u :
  db_wf db -> uuid_parse t = Ok u -> effect T db (u, path) (run_op d db (OpRollback t path target by_)).
Proof.
  intros Hwf Hu. cbn. unfold pg_rollback, parse_tenant_id. rewrite Hu.
  apply in_tx_state; [apply effect_refl|]. intros v db' Hr.
  apply rollback_Ok in Hr as (r & x & Hk & _ & _ & _ & Hmax & Hnone & ->).
  eapply eff_pushed; [done|exact Hk|by apply rolled_pushed|done|done].
Qed.

Lemma revoke_one_effect T now db rid :
  db_wf db -> exists k, effect T db k (revoke_one now db rid).
Proof.
  intros Hwf. unfold revoke_one.
  destruct (db.(rotations) !! rid) as [x|] eqn:Hx; [|exists ("", ""); apply effect_refl].
  destruct (grace_over now x) eqn:Hg; [|exists ("", ""); apply effect_refl].
  destruct (wf_rotations db Hwf _ _ Hx) as (r & Hr & Hid & _). eexists. rewrite <- Hid.
  rewrite (on_secret_at db _ r _ Hwf Hr).
  pose proof (alter_touched (revoked now) x.(ro_old_version) r ltac:(by right)) as Ht.
  destruct (touched_evolves _ _ (wf_rows db Hwf _ _ Hr) Ht) as (He & Hw & Hslot).
  eapply (eff_settle _ db _ _ r _ rid x (completed_rotation now x)); eauto; [done|].
  right. split; [|done]. unfold grace_over in Hg. apply andb_true_iff in Hg as [Hg%bool_decide_eq_true _].
  congruence.
Qed.

(** ** Along a run *)

Definition db_evolves (db db' : SecretDb) : Prop :=
  forall k r, db.(secrets) !! k = Some r ->
    exists r', db'.(secrets) !! k = Some r' /\ row_evolves r r'.

#[export] Instance db_evolves_preorder : PreOrder db_evolves.
Proof.
  split.
  - intros db k r Hr. by exists r.
  - intros x y z Hxy Hyz k r Hr. destruct (Hxy k r Hr) as (r1 & Hr1 & He1).
    destruct (Hyz k r1 Hr1) as (r2 & Hr2 & He2). exists r2. split; [done|]. by etrans.
Qed.

Lemma insert_evolves db db' k r r' :
  db.(secrets) !! k = Some r -> db'.(secrets) = <[k := r']> db.(secrets) -> row_evolves r r' ->
  db_evolves db db'.
Proof.
  intros Hk Hs He k' r0 Hr0. rewrite Hs. destruct (decide (k = k')) as [<-|Hne].
  - rewrite lookup_insert_eq. simplify_eq. eauto.
  - rewrite lookup_insert_ne by done. by exists r0.
Qed.

Lemma effect_evolves T db k db' : effect T db k db' -> db_evolves db db'.
Proof.
  intros [Hs _|r' Hn Hs _ _ _|r r' Hk Hs _ He _ _|r r' rid x Hk Hs _ _ _ _ _ _ _ _ He _ _ _
    |r r' rid x x' _ _ Hk Hs _ _ He _ _].
  - intros k' r Hr. rewrite Hs. by exists r.
  - intros k' r Hr. rewrite Hs, lookup_insert_ne by congruence. by exists r.
  - by eapply insert_evolves.
  - by eapply insert_evolves.
  - by eapply insert_evolves.
Qed.

(** A rotation that waits past its time stays as it is. *)
Lemma effect_pending T db k db' rid x :
  effect T db k db' -> db.(rotations) !! rid = Some x -> x.(ro_status) = PendingActivation ->
  x.(ro_expires_at) <= T -> db'.(rotations) !! rid = Some x.
Proof.
  intros [_ Hr|r' _ _ Hr _ _|r r' _ _ Hr _ _ _|r r' rid' y _ _ _ Hr Hfree _ _ _ _ _ _ _ _ _
    |r r' rid' y y' Hy _ _ _ Hr _ _ _ Hst] Hx Hp Hexp; rewrite Hr; try done.
  - rewrite lookup_insert_ne by congruence. done.
  - destruct (decide (rid' = rid)) as [->|Hne]; [|by rewrite lookup_insert_ne].
    simplify_eq. destruct Hst as [(_ & ? & _)|[? _]]; [lia|done].
Qed.

(** Rows and rotations of other keys. *)
Lemma effect_elsewhere T db k db' k' :
  effect T db k db' -> k' <> k -> db'.(secrets) !! k' = db.(secrets) !! k'.
Proof.
  intros [Hs _|r' _ Hs _ _ _|r r' _ Hs _ _ _ _|r r' rid x _ Hs _ _ _ _ _ _ _ _ _ _ _ _
    |r r' rid x x' _ _ _ Hs _ _ _ _ _] Hne; rewrite Hs; [done| | | |];
    by rewrite lookup_insert_ne.
Qed.

Lemma effect_other_rotations T db k db' rid x :
  effect T db k db' -> (x.(ro_tenant_id), x.(ro_path)) <> k ->
  db.(rotations) !! rid = Some x <-> db'.(rotations) !! rid = Some x.
Proof.
  intros [_ Hr|r' _ _ Hr _ _|r r' _ _ Hr _ _ _|r r' rid' y _ _ _ Hr Hfree Hy _ _ _ _ _ _ _ _
    |r r' rid' y y' Hy Hyk _ _ Hr (_ & Ht & Hp & _) _ _ _] Hne; rewrite Hr; try done.
  - rewrite lookup_insert_Some. split; [|intros [[_ ->]|[_ ?]]; congruence].
    intros Hx. right. split; [congruence|done].
  - rewrite lookup_insert_Some. split; [|intros [[_ <-]|[_ ?]]; congruence].
    intros Hx. right. split; [congruence|done].
Qed.

(** Every operation but a confirmation does the same whatever the time a
    rotation expires at. *)
Definition confirms (op : SecretOp) : bool := match op with OpConfirm _ _ _ => true | _ => false end.

Lemma op_effect d db op t u T :
  db_wf db -> is_fresh db d.(fresh) -> op_tenant op = Some t -> uuid_parse t = Ok u ->
  T <= d.(now) \/ confirms op = false -> exists path, effect T db (u, path) (run_op d db op).
Proof.
  intros Hwf Hf Ht Hu Hc. destruct op; simplify_eq/=.
  - eexists. by apply put_effect.
  - eexists. by apply soft_delete_effect.
  - eexists. by apply destroy_effect.
  - eexists. by apply initiate_effect.
  - destruct Hc as [Hc|]; [|done].
    destruct (confirm_effect d db t rotation_id by_ u Hwf Hu) as [path He]. exists path.
    destruct He as [Hs Hr| | | |r r' rid x x' Hx Hxk Hk Hs Hr Hsame He Hw Hst];
      [by apply eff_same|by eapply eff_new|by eapply eff_row|by eapply eff_rotate|].
    eapply eff_settle; eauto. destruct Hst as [(? & ? & ?)|]; [|by right]. left.
    split_and!; [done|lia|done].
  - eexists. by apply rollback_effect.
Qed.

Lemma op_unknown_tenant d db op t e :
  op_tenant op = Some t -> uuid_parse t = Err e -> run_op d db op = db.
Proof.
  intros Ht He. destruct op; simplify_eq/=;
    unfold pg_put, pg_soft_delete, pg_destroy, pg_initiate_rotation, pg_confirm_rotation,
      pg_rollback, parse_tenant_id; by rewrite He.
Qed.

(** What every change keeps, an operation keeps. *)
Lemma run_op_closed (P : SecretDb -> Prop) d db op T :
  (forall db k db', db_wf db -> P db -> effect T db k db' -> P db') ->
  T <= d.(now) \/ confirms op = false ->
  db_wf db -> is_fresh db d.(fresh) -> P db -> db_wf (run_op d db op) /\ P (run_op d db op).
Proof.
  intros Hstep HT Hwf Hf HP. destruct (op_tenant op) as [t|] eqn:Ht.
  - destruct (uuid_parse t) as [u|e] eqn:Hu.
    + destruct (op_effect d db op t u T Hwf Hf Ht Hu HT) as [path He].
      split; [by eapply effect_wf|by eapply Hstep].
    + by rewrite (op_unknown_tenant d db op t e).
  - destruct op; try done. cbn. unfold vault_revoke_deprecated_versions. clear Hf HT Ht.
    revert db Hwf HP. induction batch as [|rid batch IH]; intros db Hwf HP; [done|]. cbn.
    destruct (revoke_one_effect T d.(now) db rid Hwf) as [k He].
    apply IH; [by eapply effect_wf|by eapply Hstep].
Qed.

Lemma run_op_evolves d db op :
  db_wf db -> is_fresh db d.(fresh) ->
  db_wf (run_op d db op) /\ db_evolves db (run_op d db op).
Proof.
  intros Hwf Hf. eapply (run_op_closed (db_evolves db) d db op d.(now)); try done; [|by left].
  intros x k y _ Hx He. etrans; [exact Hx|]. by eapply effect_evolves.
Qed.

Lemma run_evolves db db' :
  db_wf db -> rtc db_step db db' -> db_wf db' /\ db_evolves db db'.
Proof.
  intros Hwf Hrun. induction Hrun as [|x y z (d & op & Hf & ->) Hrun IH]; [done|].
  destruct (run_op_evolves d x op Hwf Hf) as [Hwf' He]. destruct (IH Hwf') as [Hwf'' He'].
  split; [done|]. by etrans.
Qed.

(** The tables of a new deployment: tenants and quotas, no secret. *)
Lemma no_secrets_wf db : db.(secrets) = ∅ -> db.(rotations) = ∅ -> db_wf db.
Proof.
  intros Hs Hr. split; rewrite ?Hs, ?Hr; try apply map_Forall_empty.
  - intros k k' r r' Hk. by rewrite lookup_empty in Hk.
  - intros i j x y Hi. by rewrite lookup_empty in Hi.
Qed.

(** A read, by the row it finds. *)
Definition read_row (r : SecretRow) (path : string) (v : option Z) : vresult VersionEntry :=
  let target := match v with Some n => n | None => as_u32 (max_live r.(sc_versions)) end in
  if target =? 0 then Err (SecretNotFound path None)
  else match r.(sc_versions) !! as_i32 target with
       | None => Err (SecretNotFound "" (Some target))
       | Some x => if x.(vr_destroyed) then Err (VersionDestroyed target)
                   else Ok (version_entry (as_u32 (as_i32 target)) x)
       end.

Lemma pg_get_row d db t path v u :
  db_wf db -> uuid_parse t = Ok u -> d.(fault) = None ->
  (pg_get to_uppercase d db t path v).1 =
    match db.(secrets) !! (u, path) with
    | Some r => read_row r path v
    | None => Err (SecretNotFound path None)
    end.
Proof.
  intros Hwf Hu Hfault. unfold pg_get, parse_tenant_id, in_tx. rewrite Hu, Hfault.
  destruct (get_secret_metadata to_uppercase db u path) as [m|e] eqn:Hm; cbn.
  - apply metadata_row in Hm as (r & Hk & Hid & _). rewrite Hk.
    unfold latest_live_version, get_secret_version, read_row.
    rewrite Hid, (secret_by_id_at db _ r Hwf Hk). cbn.
    set (target := match v with Some n => n | None => as_u32 (max_live r.(sc_versions)) end).
    destruct (target =? 0); [done|]. destruct (r.(sc_versions) !! as_i32 target) as [x|]; [|done].
    cbn. by destruct (vr_destroyed x).
  - unfold get_secret_metadata in Hm. destruct (db.(secrets) !! (u, path)); [done|].
    cbn in Hm. by injection Hm as <-.
Qed.

(** Only a call that reached the tables succeeds. *)
Lemma pg_get_Ok d db t path v e :
  (pg_get to_uppercase d db t path v).1 = Ok e -> (exists u, uuid_parse t = Ok u) /\ d.(fault) = None.
Proof.
  unfold pg_get, parse_tenant_id, in_tx. destruct (uuid_parse t) as [u|]; [|done].
  destruct (d.(fault)) as [[f []]|]; [|done|by eauto].
  by destruct (mbind (M := result VaultError) _ _) as [[]|].
Qed.

(** C16. What a version was read as once, it is read as for ever, whatever writes,
    deletions, rotations, rollbacks and clean-ups run in between; otherwise it is
    reported destroyed, or gone. *)
Theorem version_reads_are_stable start db db' d d' t path v e :
  start.(secrets) = ∅ -> start.(rotations) = ∅ -> rtc db_step start db ->
  (pg_get to_uppercase d db t path (Some v)).1 = Ok e ->
  rtc db_step db db' -> d'.(fault) = None ->
  match (pg_get to_uppercase d' db' t path (Some v)).1 with
  | Ok e' => e'.(version) = e.(version) /\ e'.(ciphertext) = e.(ciphertext) /\
             e'.(dek_id) = e.(dek_id)
  | Err err => err = VersionDestroyed v \/ err = SecretNotFound "" (Some v)
  end.
Proof.
  intros Hs0 Hr0 Hrun Hget Hrun' Hfault'.
  destruct (run_evolves _ _ (no_secrets_wf start Hs0 Hr0) Hrun) as [Hwf _].
  destruct (run_evolves _ _ Hwf Hrun') as [Hwf' Hev].
  destruct (pg_get_Ok _ _ _ _ _ _ Hget) as [[u Hu] Hfault].
  rewrite (pg_get_row _ _ _ _ _ u) in Hget by done. rewrite (pg_get_row _ _ _ _ _ u) by done.
  destruct (db.(secrets) !! (u, path)) as [r|] eqn:Hk; [|done].
  destruct (Hev _ _ Hk) as (r' & -> & _ & _ & Hv & _ & _). unfold read_row in *.
  destruct (v =? 0); [done|]. destruct (r.(sc_versions) !! as_i32 v) as [x|] eqn:Hx; [|done].
  destruct (vr_destroyed x) eqn:Hd; [done|]. injection Hget as <-.
  destruct (r'.(sc_versions) !! as_i32 v) as [x'|] eqn:Hx'; [|by right].
  destruct (vr_destroyed x') eqn:Hd'; [by left|].
  destruct (Hv _ _ _ Hx Hx') as [[(Hct & Hdk & _)|(_ & _ & Hdes)] _]; [done|congruence].
Qed.

(** C2. An operation of one tenant leaves every secret and every rotation of
    another as it was. *)
Theorem pg_tenants_are_isolated start db d op t u :
  start.(secrets) = ∅ -> start.(rotations) = ∅ -> rtc db_step start db ->
  is_fresh db d.(fresh) -> op_tenant op = Some t -> uuid_parse t = Ok u ->
  (forall k, k.1 <> u -> (run_op d db op).(secrets) !! k = db.(secrets) !! k) /\
  (forall rid x, x.(ro_tenant_id) <> u ->
     db.(rotations) !! rid = Some x <-> (run_op d db op).(rotations) !! rid = Some x).
Proof.
  intros Hs0 Hr0 Hrun Hf Ht Hu.
  destruct (run_evolves _ _ (no_secrets_wf start Hs0 Hr0) Hrun) as [Hwf _].
  destruct (op_effect d db op t u d.(now) Hwf Hf Ht Hu ltac:(by left)) as [path He]. split.
  - intros k Hk. eapply effect_elsewhere; [exact He|]. intros ->. by apply Hk.
  - intros rid x Hx. eapply effect_other_rotations; [exact He|]. intros Heq. apply Hx.
    by injection Heq.
Qed.

(** ** What a read without a version returns *)

Lemma as_u32_id v : 0 <= v <= I32_MAX -> as_u32 v = v.
Proof. intros Hv. unfold as_u32. apply wrap_small. unfold I32_MAX in Hv. lia. Qed.

Lemma as_i32_id v : 0 <= v <= I32_MAX -> as_i32 v = v.
Proof. unfold as_i32, I32_MAX. intros Hv. rewrite Z.mod_small; lia. Qed.

Lemma foldr_max_top (l : list Z) v :
  v ∈ l -> 0 <= v -> (forall w, w ∈ l -> w <= v) -> foldr Z.max 0 l = v.
Proof.
  intros Hin Hpos Hle. assert (Hup : foldr Z.max 0 l <= v).
  { clear Hin. induction l as [|w l IH]; [done|]. cbn.
    pose proof (Hle w ltac:(by left)). assert (foldr Z.max 0 l <= v); [|lia].
    apply IH. intros z Hz. apply Hle. by right. }
  assert (Hlow : v <= foldr Z.max 0 l); [|lia].
  clear Hup Hle. induction Hin as [w l|w v l Hin IH]; cbn; [lia|]. specialize (IH Hpos). lia.
Qed.

Lemma max_live_top vs v x :
  vs !! v = Some x -> is_live x = true -> 0 <= v -> (forall w y, vs !! w = Some y -> w <= v) ->
  max_live vs = v.
Proof.
  intros Hx Hl Hpos Hle. apply foldr_max_top; [|done|].
  - apply list_elem_of_fmap. exists (v, x). split; [done|]. apply list_elem_of_In, List.filter_In.
    split; [|done]. by apply list_elem_of_In, elem_of_map_to_list.
  - intros w [[w' y] [-> Hin]]%list_elem_of_fmap. cbn.
    apply list_elem_of_In, List.filter_In in Hin as [Hin _].
    apply list_elem_of_In, elem_of_map_to_list in Hin. by eapply Hle.
Qed.

(** The highest version answers, when it is live. *)
Lemma read_latest r path v x :
  r.(sc_versions) !! v = Some x -> is_live x = true -> 1 <= v <= I32_MAX ->
  (forall w y, r.(sc_versions) !! w = Some y -> w <= v) ->
  read_row r path None = Ok (version_entry v x).
Proof.
  intros Hx Hl Hv Hle. unfold read_row.
  rewrite (max_live_top _ v x Hx Hl ltac:(lia) Hle), as_u32_id by lia.
  rewrite (proj2 (Z.eqb_neq v 0)) by lia. rewrite !as_i32_id, Hx, as_u32_id by lia.
  unfold is_live in Hl. by destruct (vr_destroyed x); [rewrite andb_false_r in Hl|].
Qed.

Lemma pg_put_Ok d ev db t path ct dek cas md max sid v :
  (pg_put to_uppercase d ev db t path ct dek cas md max).1 = Ok (sid, v) ->
  exists u db1, uuid_parse t = Ok u /\
    upsert_secret_version d db u path ct dek cas (default 10 max) (bool_decide (is_Some cas)) md
      (put_environment to_uppercase md) (put_tags md) = Ok (sid, v, db1) /\
    (pg_put to_uppercase d ev db t path ct dek cas md max).2 =
      emit_replication_event ev t path ct dek db1.
Proof.
  unfold pg_put, parse_tenant_id. destruct (uuid_parse t) as [u|]; [|done].
  destruct (check_write_quota _ _ _); cbn.
  2: { unfold in_tx. by destruct (fault d) as [[f []]|]. }
  destruct (upsert_secret_version _ _ _ _ _ _ _ _ _ _ _ _) as [[[sid' v'] db1]|] eqn:Hup; cbn.
  2: { unfold in_tx. by destruct (fault d) as [[f []]|]. }
  unfold in_tx. destruct (fault d) as [[f []]|]; cbn; [done|done|]. intros [= -> ->].
  by exists u, db1.
Qed.

(** The row a successful write starts from, and what it leaves. *)
Lemma pg_put_row d ev db t path ct dek cas md max sid v :
  db_wf db -> (pg_put to_uppercase d ev db t path ct dek cas md max).1 = Ok (sid, v) ->
  exists u r0, uuid_parse t = Ok u /\
    (run_op d db (OpPut ev t path ct dek cas md max)).(secrets) =
      <[(u, path) := written_row d r0 ct dek (as_i32 (default 10 max)) md
                       (put_environment to_uppercase md) (put_tags md)]> db.(secrets) /\
    v = r0.(sc_current_version) + 1 /\ 0 <= r0.(sc_current_version) /\ v <= I32_MAX /\
    (forall w y, r0.(sc_versions) !! w = Some y -> 1 <= w < v) /\
    (forall c, cas = Some c -> as_i32 c = r0.(sc_current_version)) /\
    (forall r, db.(secrets) !! (u, path) = Some r -> r.(sc_versions) = r0.(sc_versions)).
Proof.
  intros Hwf Hput. destruct (pg_put_Ok _ _ _ _ _ _ _ _ _ _ _ _ Hput) as (u & db1 & Hu & Hup & Hdb).
  apply upsert_Ok in Hup as (r0 & Hr0 & Hs & _ & _ & -> & Hle & Hnone & Hcas).
  assert (Hw : row_wf r0).
  { subst r0. destruct (db.(secrets) !! (u, path)) as [r|] eqn:Hk; [by apply (wf_rows db Hwf _ _ Hk)|].
    split; [done|]. apply map_Forall_empty. }
  destruct Hw as [Hcur Hvs]. exists u, r0. rewrite as_u32_id by lia.
  split_and!; [done| |done|lia|lia| |done|].
  - cbn [run_op]. rewrite Hdb, <- Hs. by destruct ev.
  - intros w y Hy. destruct (Hvs w y Hy) as (Hb & _).
    assert (w <> r0.(sc_current_version) + 1); [|lia]. intros ->. congruence.
  - intros r Hr. subst r0. by rewrite Hr.
Qed.

Lemma pg_put_reads d d' ev db t path ct dek cas md max sid v :
  db_wf db -> is_fresh db d.(fresh) -> d'.(fault) = None -> 1 <= as_i32 (default 10 max) ->
  (pg_put to_uppercase d ev db t path ct dek cas md max).1 = Ok (sid, v) ->
  exists e, (pg_get to_uppercase d' (run_op d db (OpPut ev t path ct dek cas md max)) t path None).1
    = Ok e /\ e.(version) = v /\ e.(ciphertext) = ct /\ e.(dek_id) = dek /\ e.(v_custom_metadata) = md.
Proof.
  intros Hwf Hf Hfault Hmax Hput.
  destruct (run_op_evolves d db (OpPut ev t path ct dek cas md max) Hwf Hf) as [Hwf' _].
  destruct (pg_put_row _ _ _ _ _ _ _ _ _ _ _ _ Hwf Hput)
    as (u & r0 & Hu & Hs & Hv & Hpos & Hle & Hbelow & _ & _).
  rewrite (pg_get_row _ _ _ _ _ u) by done. rewrite Hs, lookup_insert_eq.
  set (x := new_version_row d.(now) ct dek md VActive None).
  exists (version_entry v x). split; [|done]. apply read_latest; [|done|lia|].
  - cbn. apply prune_lookup. rewrite Hv, lookup_insert_eq. split; [done|]. lia.
  - intros w y. cbn. rewrite prune_lookup, lookup_insert_Some.
    intros [[[<- _]|[_ Hy]] _]; [lia|]. specialize (Hbelow w y Hy). lia.
Qed.

(** A write that succeeds is what the next read returns, under a number above
    every earlier one; with a check-and-set the number is the one after the
    version the writer named. *)
Theorem pg_put_then_get start db d d' ev t path ct dek cas md max sid v :
  start.(secrets) = ∅ -> start.(rotations) = ∅ -> rtc db_step start db ->
  is_fresh db d.(fresh) -> d'.(fault) = None -> 1 <= as_i32 (default 10 max) ->
  (pg_put to_uppercase d ev db t path ct dek cas md max).1 = Ok (sid, v) ->
  (forall c, cas = Some c -> v = as_i32 c + 1) /\
  (exists e, (pg_get to_uppercase d' (run_op d db (OpPut ev t path ct dek cas md max)) t path None).1
     = Ok e /\ e.(version) = v /\ e.(ciphertext) = ct /\ e.(dek_id) = dek /\
       e.(v_custom_metadata) = md) /\
  (forall d0 w e, (pg_get to_uppercase d0 db t path w).1 = Ok e -> e.(version) < v).
Proof.
  intros Hs0 Hr0 Hrun Hf Hfault Hmax Hput.
  destruct (run_evolves _ _ (no_secrets_wf start Hs0 Hr0) Hrun) as [Hwf _].
  split; [|split; [by eapply pg_put_reads|]].
  all: destruct (pg_put_row _ _ _ _ _ _ _ _ _ _ _ _ Hwf Hput)
    as (u & r0 & Hu & _ & Hv & _ & Hle & Hbelow & Hcas & Hsame).
  - intros c Hc. by rewrite (Hcas c Hc).
  - intros d0 w e Hget. destruct (pg_get_Ok _ _ _ _ _ _ Hget) as [_ Hf0].
    rewrite (pg_get_row _ _ _ _ _ u) in Hget by done.
    destruct (db.(secrets) !! (u, path)) as [r|]; [|done]. unfold read_row in Hget.
    destruct (_ =? 0); [done|]. destruct (r.(sc_versions) !! _) as [x|] eqn:Hx; [|done].
    destruct (vr_destroyed x); [done|]. injection Hget as <-.
    cbn [version version_entry]. rewrite (Hsame r eq_refl) in Hx |- *.
    specialize (Hbelow _ _ Hx). rewrite as_u32_id; lia.
Qed.

(** ** Rotations *)

Lemma pg_initiate_Ok d db t path ct dek by_ webhook timeout rid v :
  (pg_initiate_rotation d db t path ct dek by_ webhook timeout).1 = Ok (rid, v) ->
  exists u, uuid_parse t = Ok u /\ d.(fault) = None /\
    initiate_rotation d db u path ct dek by_ webhook timeout =
      Ok (rid, v, (pg_initiate_rotation d db t path ct dek by_ webhook timeout).2).
Proof.
  unfold pg_initiate_rotation, parse_tenant_id, in_tx. destruct (uuid_parse t) as [u|]; [|done].
  destruct (initiate_rotation _ _ _ _ _ _ _ _ _) as [[[rid' v'] db']|] eqn:Hi; cbn;
    destruct (fault d) as [[f []]|]; cbn; try done. intros [= -> ->]. by exists u.
Qed.

(** A pending rotation occupies the number above the pointer. *)
Lemma pending_slot db rid x r :
  db_wf db -> db.(rotations) !! rid = Some x -> x.(ro_status) = PendingActivation ->
  db.(secrets) !! (x.(ro_tenant_id), x.(ro_path)) = Some r ->
  is_Some (r.(sc_versions) !! (r.(sc_current_version) + 1)) /\
  pending_for r.(sc_id) db.(rotations) = true.
Proof.
  intros Hwf Hx Hst Hr. destruct (wf_rotations db Hwf _ _ Hx) as (r0 & Hr0 & Hid & Hp & _).
  rewrite Hr in Hr0. injection Hr0 as <-. destruct (Hp Hst) as (_ & Hn & Hs). rewrite Hn in Hs.
  split; [done|]. apply existsb_exists. exists (rid, x).
  split; [by apply list_elem_of_In, elem_of_map_to_list|]. by apply bool_decide_eq_true.
Qed.

Definition fails {A} (r : vresult A * SecretDb) (db : SecretDb) : Prop :=
  is_ok r.1 = false /\ r.2 = db.

Lemma in_tx_fails {A} d db (body : vresult (A * SecretDb)) :
  is_ok body = false -> fails (in_tx d db body) db.
Proof.
  intros Hb. unfold in_tx. destruct body as [[a db']|e]; [done|].
  by destruct (fault d) as [[f []]|].
Qed.

Lemma locked_fails db rid x u path d t :
  db_wf db -> db.(rotations) !! rid = Some x -> x.(ro_status) = PendingActivation ->
  (x.(ro_tenant_id), x.(ro_path)) = (u, path) -> uuid_parse t = Ok u ->
  (forall ev ct dek cas md max, fails (pg_put to_uppercase d ev db t path ct dek cas md max) db) /\
  (forall target by_, fails (pg_rollback d db t path target by_) db) /\
  (forall ct dek by_ webhook timeout,
     fails (pg_initiate_rotation d db t path ct dek by_ webhook timeout) db) /\
  (x.(ro_expires_at) <= d.(now) -> forall rotation_id by_, uuid_parse rotation_id = Ok rid ->
     fails (pg_confirm_rotation d db t rotation_id by_) db).
Proof.
  intros Hwf Hx Hst Hk Hu. destruct (wf_rotations db Hwf _ _ Hx) as (r & Hr & _ & _).
  destruct (pending_slot db rid x r Hwf Hx Hst Hr) as [[y Hy] Hpend]. rewrite Hk in Hr.
  split_and!.
  - intros. unfold pg_put, parse_tenant_id. rewrite Hu.
    assert (Hf : forall body, is_ok body = false -> fails (in_tx (A := string * Z) d db body) db)
      by (intros; by apply in_tx_fails).
    destruct (in_tx d db _) as [res db'] eqn:Htx.
    assert (Hres : fails (res, db') db).
    { rewrite <- Htx. apply Hf. destruct (check_write_quota _ _ _); [cbn|done].
      destruct (upsert_secret_version _ _ _ _ _ _ _ _ _ _ _ _) as [[[sid v] db1]|] eqn:Hup; [|done].
      apply upsert_Ok in Hup as (r0 & Hr0 & _ & _ & _ & _ & _ & Hnone & _).
      rewrite Hr in Hr0. subst r0. cbn in Hnone. congruence. }
    destruct Hres as [Hres Hdb]. cbn in Hres, Hdb. by rewrite Hres, Hdb.
  - intros. unfold pg_rollback, parse_tenant_id. rewrite Hu. apply in_tx_fails.
    destruct (rollback_secret _ _ _ _ _ _) as [[v db']|] eqn:Hrb; [|done].
    apply rollback_Ok in Hrb as (r0 & z & Hr0 & _ & _ & _ & _ & Hnone & _). congruence.
  - intros. unfold pg_initiate_rotation, parse_tenant_id. rewrite Hu. apply in_tx_fails.
    destruct (initiate_rotation _ _ _ _ _ _ _ _ _) as [[[rid' v] db']|] eqn:Hi; [|done].
    apply initiate_Ok in Hi as (r0 & z & Hr0 & _ & _ & Hp & _). congruence.
  - intros Hexp rotation_id by_ Hrid. unfold pg_confirm_rotation, parse_tenant_id. rewrite Hu.
    apply in_tx_fails.
    destruct (confirm_rotation _ _ _ _ _) as [[[[o n] g] db']|] eqn:Hc; [|done].
    apply confirm_Ok in Hc as (rid' & z & r0 & Hrid' & Hz & _ & _ & Hlt & _); [|done].
    rewrite Hrid in Hrid'. injection Hrid' as <-. rewrite Hx in Hz. injection Hz as <-. lia.
Qed.

(** A request to confirm the rotation [rid], however its id is spelled. *)
Definition confirms_rotation (rid : string) (op : SecretOp) : Prop :=
  match op with OpConfirm _ rotation_id _ => uuid_parse rotation_id = Ok rid | _ => False end.

(** Any operation, of any tenant, except that nobody confirms the rotation [rid]
    before [T]; other rotations are confirmed freely. *)
Definition unconfirmed_step (rid : string) (T : Z) (db db' : SecretDb) : Prop :=
  exists d op, is_fresh db d.(fresh) /\ (confirms_rotation rid op -> T <= d.(now)) /\ db' = run_op d db op.

(** Confirming one rotation leaves the others as they are. *)
Lemma confirm_other d db t rotation_id by_ rid :
  db_wf db -> uuid_parse rotation_id <> Ok rid ->
  (pg_confirm_rotation d db t rotation_id by_).2.(rotations) !! rid = db.(rotations) !! rid.
Proof.
  intros Hwf Hne. unfold pg_confirm_rotation, in_tx. destruct (parse_tenant_id t) as [u|]; [|done].
  destruct (confirm_rotation d db u rotation_id by_) as [[[[old new] grace] db1]|] eqn:Hc; cbn;
    [|by destruct (fault d) as [[? []]|]].
  apply confirm_Ok in Hc as (rid' & x & r & Hrid & _ & _ & _ & _ & _ & _ & _ & _ & _ & _ & Hr); [|done].
  assert (db1.(rotations) !! rid = db.(rotations) !! rid)
    by (rewrite Hr; apply lookup_insert_ne; congruence).
  by destruct (fault d) as [[? []]|].
Qed.

Lemma unconfirmed_keeps T db db' rid x :
  db_wf db -> db.(rotations) !! rid = Some x -> x.(ro_status) = PendingActivation ->
  x.(ro_expires_at) <= T -> rtc (unconfirmed_step rid T) db db' ->
  db_wf db' /\ db'.(rotations) !! rid = Some x.
Proof.
  intros Hwf Hx Hst Hexp Hrun.
  induction Hrun as [|a b c (d & op & Hf & HT & ->) Hrun IH]; [done|].
  enough (db_wf (run_op d a op) /\ (run_op d a op).(rotations) !! rid = Some x) as [? ?] by by apply IH.
  destruct (decide (T <= d.(now) \/ confirms op = false)) as [Hin|Hout].
  - apply (run_op_closed (fun s => s.(rotations) !! rid = Some x) d a op T); [|done..].
    intros s k s' _ Hs He. by eapply effect_pending.
  - split; [by apply run_op_evolves|]. destruct op; try (exfalso; apply Hout; by right). cbn [run_op].
    rewrite confirm_other; [done|done|]. intros Hrid. apply Hout. left. by apply HT.
Qed.

(** C36. A rotation that nobody confirms before it expires locks its secret for
    good: whatever else runs meanwhile and afterwards, for any tenant, other
    rotations confirmed included, every write, rollback and new rotation of the
    secret is then refused and the rotation can no longer be confirmed. *)
Theorem abandoned_rotation_locks_secret start db d t path ct dek by_ webhook timeout rid v db' d' :
  start.(secrets) = ∅ -> start.(rotations) = ∅ -> rtc db_step start db ->
  is_fresh db d.(fresh) ->
  (pg_initiate_rotation d db t path ct dek by_ webhook timeout).1 = Ok (rid, v) ->
  let expiry := d.(now) + default 86400 timeout * SECOND in
  rtc (unconfirmed_step rid expiry) (run_op d db (OpInitiate t path ct dek by_ webhook timeout)) db' ->
  expiry <= d'.(now) ->
  (forall ev ct dek cas md max, fails (pg_put to_uppercase d' ev db' t path ct dek cas md max) db') /\
  (forall target by_, fails (pg_rollback d' db' t path target by_) db') /\
  (forall ct dek by_ webhook timeout,
     fails (pg_initiate_rotation d' db' t path ct dek by_ webhook timeout) db') /\
  (forall rotation_id by_, uuid_parse rotation_id = Ok rid ->
     fails (pg_confirm_rotation d' db' t rotation_id by_) db').
Proof.
  intros Hs0 Hr0 Hrun Hf Hi expiry Hrun' Hnow.
  destruct (run_evolves _ _ (no_secrets_wf start Hs0 Hr0) Hrun) as [Hwf _].
  destruct (run_op_evolves d db (OpInitiate t path ct dek by_ webhook timeout) Hwf Hf) as [Hwf1 _].
  destruct (pg_initiate_Ok _ _ _ _ _ _ _ _ _ _ _ Hi) as (u & Hu & _ & Hi').
  apply initiate_Ok in Hi' as (r & x & _ & _ & _ & _ & _ & _ & _ & Hrot & Hk & _ & _ & _ & Hst & Hexp).
  destruct (unconfirmed_keeps expiry _ db' rid x Hwf1) as [Hwf' Hx]; [|done|unfold expiry; lia|done|].
  { cbn. rewrite Hrot. apply lookup_insert_eq. }
  destruct (locked_fails db' rid x u path d' t Hwf' Hx Hst Hk Hu) as (Hp & Hr & Hin & Hc).
  split_and!; try done. apply Hc. unfold expiry in Hnow. lia.
Qed.

(** Initiating a rotation already changes what readers get: the read after it
    returns the value that waits for confirmation. *)
Theorem pending_rotation_is_served start db d d' t path ct dek by_ webhook timeout rid v :
  start.(secrets) = ∅ -> start.(rotations) = ∅ -> rtc db_step start db ->
  is_fresh db d.(fresh) -> d'.(fault) = None ->
  (pg_initiate_rotation d db t path ct dek by_ webhook timeout).1 = Ok (rid, v) ->
  exists e, (pg_get to_uppercase d' (run_op d db (OpInitiate t path ct dek by_ webhook timeout))
               t path None).1 = Ok e /\ e.(version) = v /\ e.(ciphertext) = ct /\ e.(dek_id) = dek.
Proof.
  intros Hs0 Hr0 Hrun Hf Hfault Hi.
  destruct (run_evolves _ _ (no_secrets_wf start Hs0 Hr0) Hrun) as [Hwf _].
  destruct (run_op_evolves d db (OpInitiate t path ct dek by_ webhook timeout) Hwf Hf) as [Hwf1 _].
  destruct (pg_initiate_Ok _ _ _ _ _ _ _ _ _ _ _ Hi) as (u & Hu & _ & Hi').
  apply initiate_Ok in Hi' as (r & x & Hk & _ & Hv & _ & Hmax & _ & Hs & _).
  destruct (wf_rows db Hwf _ _ Hk) as [Hcur Hvs].
  rewrite (pg_get_row _ _ _ _ _ u) by done. cbn [run_op]. rewrite Hs, lookup_insert_eq.
  eexists. split; [apply (read_latest _ path (r.(sc_current_version) + 1))|].
  - cbn. apply lookup_insert_eq.
  - done.
  - lia.
  - intros w y. cbn. rewrite lookup_insert_Some. intros [[<- _]|[_ Hy]]; [done|].
    destruct (Hvs w y Hy) as ([] & _). lia.
  - rewrite Hv, as_u32_id by lia. done.
Qed.

End Steps.

(** ** Runs *)

Module SecretDbDemo.

#[local] Instance sql_text : SqlText := fun c => "violates " +:+ c.
#[local] Instance uuids : Uuids := fun s => if Str.is_empty s then Err "invalid length" else Ok s.

Definition upper (s : string) : string := s.

Definition tenant : TenantInfo :=
  {| ti_slug := "acme"; ti_production := true; ti_allowed := [Int; Prod]; ti_default := Int |}.

Definition start : SecretDb :=
  {| secrets := ∅; rotations := ∅; quotas := ∅; tenant_rows := {["t1" := tenant; "t2" := tenant]};
     outbox := [] |}.

Definition at_ (t : Z) (id : string) : Draw := {| now := t; fresh := id; fault := None |}.

Definition put1 : SecretOp := OpPut true "t1" "db/password" "c1" "k1" None ∅ None.
Definition put2 : SecretOp := OpPut true "t1" "db/password" "c2" "k1" (Some 1) ∅ None.
Definition rotate3 : SecretOp := OpInitiate "t1" "db/password" "c3" "k1" "ops" None (Some 60).
Definition destroy1 : SecretOp := OpDestroy "t1" "db/password" [1].

Definition run1 : SecretDb := run_op upper (at_ 100 "s1") start put1.
Definition run2 : SecretDb := run_op upper (at_ 200 "s2") run1 put2.
Definition run3 : SecretDb := run_op upper (at_ 300 "r1") run2 rotate3.
Definition run4 : SecretDb := run_op upper (at_ (400 * SECOND) "s4") run3 destroy1.

Lemma is_fresh_compute db s : bool_decide (is_fresh db s) = true -> is_fresh db s.
Proof. apply bool_decide_eq_true. Qed.

Ltac one_step :=
  eexists _, _; split; [|reflexivity]; apply is_fresh_compute; vm_compute; reflexivity.

Lemma step1 : db_step upper start run1. Proof. one_step. Qed.
Lemma step2 : db_step upper run1 run2. Proof. one_step. Qed.
Lemma step4 : db_step upper run3 run4. Proof. one_step. Qed.

Lemma upto2 : rtc (db_step upper) start run2.
Proof. eapply rtc_l; [exact step1|]. apply rtc_once, step2. Qed.

Lemma version_reads_are_stable_witness :
  match (pg_get upper (at_ 500 "") run4 "t1" "db/password" (Some 2)).1 with
  | Ok e' => e'.(version) = 2 /\ e'.(ciphertext) = "c2" /\ e'.(dek_id) = "k1"
  | Err err => err = VersionDestroyed 2 \/ err = SecretNotFound "" (Some 2)
  end.
Proof.
  exact (version_reads_are_stable upper start run2 run4 (at_ 250 "") (at_ 500 "") "t1" "db/password" 2
    _ eq_refl eq_refl upto2 eq_refl
    (rtc_l _ run2 run3 run4 (ex_intro _ (at_ 300 "r1") (ex_intro _ rotate3
       (conj (is_fresh_compute run2 "r1" eq_refl) eq_refl))) (rtc_once _ _ step4)) eq_refl).
Defined.

Lemma pg_tenants_are_isolated_witness :
  (run_op upper (at_ 300 "r1") run2 rotate3).(secrets) !! ("t2", "db/password") =
    run2.(secrets) !! ("t2", "db/password").
Proof.
  apply (proj1 (pg_tenants_are_isolated upper start run2 (at_ 300 "r1") rotate3 "t1" "t1"
    eq_refl eq_refl upto2 (is_fresh_compute run2 "r1" eq_refl) eq_refl eq_refl)
    ("t2", "db/password")). done.
Defined.

Lemma pg_put_then_get_witness :
  (forall c, Some 1 = Some c -> 2 = as_i32 c + 1) /\
  (exists e, (pg_get upper (at_ 500 "") run2 "t1" "db/password" None).1 = Ok e /\
     e.(version) = 2 /\ e.(ciphertext) = "c2" /\ e.(dek_id) = "k1" /\ e.(v_custom_metadata) = ∅) /\
  (forall d0 w e, (pg_get upper d0 run1 "t1" "db/password" w).1 = Ok e -> e.(version) < 2).
Proof.
  eapply (pg_put_then_get upper start run1 (at_ 200 "s2") (at_ 500 "") true "t1" "db/password" "c2"
    "k1" (Some 1) ∅ None).
  - reflexivity.
  - reflexivity.
  - apply rtc_once, step1.
  - apply is_fresh_compute. vm_compute. reflexivity.
  - reflexivity.
  - by vm_compute.
  - vm_compute. reflexivity.
Defined.

Lemma abandoned_rotation_locks_secret_witness :
  fails (pg_put upper (at_ (500 * SECOND) "s5") true run4 "t1" "db/password" "c4" "k1" None ∅ None) run4.
Proof.
  apply (abandoned_rotation_locks_secret upper start run2 (at_ 300 "r1") "t1" "db/password" "c3" "k1"
    "ops" None (Some 60) "r1" 3 run4 (at_ (500 * SECOND) "s5")).
  - reflexivity.
  - reflexivity.
  - apply upto2.
  - apply is_fresh_compute. vm_compute. reflexivity.
  - vm_compute. reflexivity.
  - apply (rtc_l _ _ run3).
    { exists (at_ 350 "s3"), (OpConfirm "t1" "r9" "ops"). split; [|split; [by intros [=]|]].
      - apply is_fresh_compute. vm_compute. reflexivity.
      - vm_compute. reflexivity. }
    apply rtc_once. exists (at_ (400 * SECOND) "s4"), destroy1. split; [|split; [done|reflexivity]].
    apply is_fresh_compute. vm_compute. reflexivity.
  - vm_compute. discriminate.
Defined.

Lemma pending_rotation_is_served_witness :
  exists e, (pg_get upper (at_ 500 "") run3 "t1" "db/password" None).1 = Ok e /\
    e.(version) = 3 /\ e.(ciphertext) = "c3" /\ e.(dek_id) = "k1".
Proof.
  apply (pending_rotation_is_served upper start run2 (at_ 300 "r1") (at_ 500 "") "t1" "db/password"
    "c3" "k1" "ops" None (Some 60) "r1" 3).
  - reflexivity.
  - reflexivity.
  - apply upto2.
  - apply is_fresh_compute. vm_compute. reflexivity.
  - reflexivity.
  - vm_compute. reflexivity.
Defined.

(** The prefix of a listing is a pattern: an underscore stands for anything. *)
Example list_prefix_is_a_pattern : like ("app_" +:+ "%") "app/db" = true.
Proof. reflexivity. Qed.

End SecretDbDemo.
