(* ===== verification/Rotation.v ===== *)
(** * The rotation scheduler

    [services/lease-manager/src/rotation.rs]: the sweep that announces the
    secrets whose rotation is due, the delivery of a webhook with retries, and the
    clean-up of the versions whose grace is over. Both loops work on the tables of
    [SecretDb] under the bypass of row-level security, and only on the leader. *)

From Stdlib Require Import Ascii.
From S2P Require Import Prelude Errors KeyStore SecretDb.

(** ** Configuration *)

Record RotationConfig := {
  sweep_interval_secs : Z;
  cleanup_interval_secs : Z;
  webhook_timeout_secs : Z;
  webhook_max_retries : Z;
}.

Fixpoint digits_u64 (acc : Z) (s : string) : option Z :=
  match s with
  | EmptyString => Some acc
  | String a s' =>
      d ← Dec.digit a;
      let acc' := acc * 10 + Z.of_N d in
      if acc' <? 2 ^ 64 then digits_u64 acc' s' else None
  end.

(** [str::parse::<u64>] *)
Definition parse_u64 (s : string) : option Z :=
  let digits := match s with String "+" s' => s' | _ => s end in
  if Str.is_empty digits then None else digits_u64 0 digits.

Definition parse_env (vars : string -> option string) (name : string) (dflt : Z) : Z :=
  default dflt (v ← vars name; parse_u64 v).

Definition from_env (vars : string -> option string) : RotationConfig :=
  {| sweep_interval_secs := parse_env vars "ROTATION_SWEEP_INTERVAL_SECS" 60;
     cleanup_interval_secs := parse_env vars "VERSION_CLEANUP_INTERVAL_SECS" 3600;
     webhook_timeout_secs := parse_env vars "ROTATION_WEBHOOK_TIMEOUT_SECS" 10;
     webhook_max_retries := parse_env vars "ROTATION_WEBHOOK_MAX_RETRIES" 3 mod 2 ^ 32 |}.

(** ** The due secrets *)

Record DueSecret := {
  du_id : string;
  du_path : string;
  du_tenant_id : string;
  du_secret_type : string;
  du_webhook_url : option string;
  du_interval : option Z;
}.

Definition is_due (now : Z) (r : SecretRow) : bool :=
  bool_decide (r.(sc_secret_type) = "ROTATION_REQUIRED")
  && match r.(sc_next_rotation_at) with Some t => t <=? now | None => false end
  && bool_decide (r.(sc_rotation_status) = "none").

Definition due_of (e : (string * string) * SecretRow) : DueSecret :=
  {| du_id := e.2.(sc_id); du_path := e.1.2; du_tenant_id := e.1.1;
     du_secret_type := e.2.(sc_secret_type); du_webhook_url := e.2.(sc_webhook);
     du_interval := e.2.(sc_rotation_interval) |}.

Definition due_secrets (now : Z) (db : SecretDb) : list DueSecret :=
  map due_of (List.filter (fun e => is_due now e.2) (map_to_list db.(secrets))).

(** ** Webhooks *)

Record WebhookPayload := {
  wp_tenant_id : string;
  wp_path : string;
  wp_secret_type : string;
  wp_rotation_due_at : string;
  wp_triggered_at : string;
}.

(** How a request ends. *)
Inductive Reply := Status (code : Z) | SendFailed.

Definition is_success (r : Reply) : bool :=
  match r with Status code => (200 <=? code) && (code <=? 299) | SendFailed => false end.

(** What a delivery does: requests, numbered from 1, and pauses in seconds. *)
Inductive Act := Post (attempt : Z) | Sleep (secs : Z).

(** [remaining] is what remains of [1..=max_retries.max(1)]. *)
Fixpoint dispatch_loop (reply : Z -> Reply) (last attempt : Z) (remaining : nat) (delay_secs : Z) :
    bool * list Act :=
  match remaining with
  | O => (false, [])
  | S remaining =>
      if is_success (reply attempt) then (true, [Post attempt])
      else
        let '(pause, delay) :=
          if attempt <? last then ([Sleep delay_secs], Z.min (delay_secs * 2) 30)
          else ([], delay_secs) in
        let '(ok, acts) := dispatch_loop reply last (attempt + 1) remaining delay in
        (ok, Post attempt :: pause ++ acts)
  end.

Definition dispatch_webhook_with_retry (reply : Z -> Reply) (max_retries : Z) : bool * list Act :=
  let last := Z.max max_retries 1 in
  dispatch_loop reply last 1 (Z.to_nat last) 1.

(** ** The sweep *)

Record Metrics := {
  sweep_runs : list string;
  rotations_triggered : list (string * string);
  webhooks_dispatched : list string;
  versions_revoked : Z;
}.

(** The scheduler: the tables, the counters (a label per increment) and the
    deliveries made. *)
Record Scheduler := {
  tables : SecretDb;
  metrics : Metrics;
  deliveries : list (string * WebhookPayload * list Act);
}.

Definition count_run (label : string) (s : Scheduler) : Scheduler :=
  {| tables := s.(tables); deliveries := s.(deliveries);
     metrics := {| sweep_runs := s.(metrics).(sweep_runs) ++ [label];
                   rotations_triggered := s.(metrics).(rotations_triggered);
                   webhooks_dispatched := s.(metrics).(webhooks_dispatched);
                   versions_revoked := s.(metrics).(versions_revoked) |} |}.

Definition count_rotation (ty label : string) (s : Scheduler) : Scheduler :=
  {| tables := s.(tables); deliveries := s.(deliveries);
     metrics := {| sweep_runs := s.(metrics).(sweep_runs);
                   rotations_triggered := s.(metrics).(rotations_triggered) ++ [(ty, label)];
                   webhooks_dispatched := s.(metrics).(webhooks_dispatched);
                   versions_revoked := s.(metrics).(versions_revoked) |} |}.

Definition count_webhook (label : string) (s : Scheduler) : Scheduler :=
  {| tables := s.(tables); deliveries := s.(deliveries);
     metrics := {| sweep_runs := s.(metrics).(sweep_runs);
                   rotations_triggered := s.(metrics).(rotations_triggered);
                   webhooks_dispatched := s.(metrics).(webhooks_dispatched) ++ [label];
                   versions_revoked := s.(metrics).(versions_revoked) |} |}.

Definition count_revoked (n : Z) (s : Scheduler) : Scheduler :=
  {| tables := s.(tables); deliveries := s.(deliveries);
     metrics := {| sweep_runs := s.(metrics).(sweep_runs);
                   rotations_triggered := s.(metrics).(rotations_triggered);
                   webhooks_dispatched := s.(metrics).(webhooks_dispatched);
                   versions_revoked := s.(metrics).(versions_revoked) + n |} |}.

Definition set_tables (db : SecretDb) (s : Scheduler) : Scheduler :=
  {| tables := db; metrics := s.(metrics); deliveries := s.(deliveries) |}.

Definition delivered (url : string) (p : WebhookPayload) (acts : list Act) (s : Scheduler) : Scheduler :=
  {| tables := s.(tables); metrics := s.(metrics);
     deliveries := s.(deliveries) ++ [(url, p, acts)] |}.

(** What a sweep meets: the time of its query, which of its statements fail, and
    for each secret the clock readings, the answers of its webhook and the
    transaction that marks it. *)
Record SweepIo := {
  si_now : Z;
  si_scope : option string;
  si_query : option string;
  si_clock : string -> Z * Z;
  si_reply : string -> Z -> Reply;
  si_mark : string -> Draw;
}.

Definition mark_rotation_pending (d : Draw) (db : SecretDb) (sid : string) : result VaultError () * SecretDb :=
  in_tx d db (Ok (tt, on_secret db sid (fun r => set_rotation_status d.(now) r "pending"))).

Section Scheduler.
Context (to_rfc3339 : Z -> string) (config : RotationConfig).

Definition payload_for (io : SweepIo) (x : DueSecret) : WebhookPayload :=
  {| wp_tenant_id := x.(du_tenant_id); wp_path := x.(du_path); wp_secret_type := x.(du_secret_type);
     wp_rotation_due_at := to_rfc3339 (io.(si_clock) x.(du_id)).1;
     wp_triggered_at := to_rfc3339 (io.(si_clock) x.(du_id)).2 |}.

Definition trigger (io : SweepIo) (s : Scheduler) (x : DueSecret) : Scheduler :=
  match x.(du_webhook_url) with
  | Some url =>
      let '(ok, acts) :=
        dispatch_webhook_with_retry (io.(si_reply) x.(du_id)) config.(webhook_max_retries) in
      let s := delivered url (payload_for io x) acts s in
      if ok then
        let s := set_tables (mark_rotation_pending (io.(si_mark) x.(du_id)) s.(tables) x.(du_id)).2 s in
        count_rotation x.(du_secret_type) "success" (count_webhook "success" s)
      else count_rotation x.(du_secret_type) "error" (count_webhook "failure" s)
  | None => count_rotation x.(du_secret_type) "error" s
  end.

Definition run_rotation_sweep (io : SweepIo) (s : Scheduler) : Scheduler :=
  match io.(si_scope), io.(si_query) with
  | Some _, _ | None, Some _ => count_run "error" s
  | None, None => count_run "success" (foldl (trigger io) s (due_secrets io.(si_now) s.(tables)))
  end.

(** ** The clean-up *)

(** The scope fails to open, the statement fails, or the commit does; else the
    server picks a batch. *)
Record CleanupIo := {
  ci_now : Z;
  ci_scope : option string;
  ci_query : option string;
  ci_commit : option (string * bool);
  ci_batch : list string;
}.

Definition CLEANUP_BATCH : Z := 100.

(** A batch the statement may pick: rotations whose grace is over, at most
    [LIMIT] many, and all of them when there are fewer. *)
Definition picks (now : Z) (db : SecretDb) (batch : list string) : Prop :=
  NoDup batch /\ Z.of_nat (length batch) <= CLEANUP_BATCH /\
  (forall rid, rid ∈ batch -> exists x, db.(rotations) !! rid = Some x /\ grace_over now x = true) /\
  (Z.of_nat (length batch) < CLEANUP_BATCH -> forall rid x, db.(rotations) !! rid = Some x ->
     grace_over now x = true -> rid ∈ batch).

Definition run_version_cleanup (io : CleanupIo) (s : Scheduler) : Scheduler :=
  match io.(ci_scope), io.(ci_query) with
  | Some _, _ | None, Some _ => s
  | None, None =>
      let db := vault_revoke_deprecated_versions io.(ci_now) s.(tables) io.(ci_batch) in
      match io.(ci_commit) with
      | None => count_revoked (Z.of_nat (length io.(ci_batch))) (set_tables db s)
      | Some (_, true) => set_tables db s
      | Some (_, false) => s
      end
  end.

(** ** The loops: one tick of each, with the elector's answer where there is one *)

Definition rotation_tick (leader : option bool) (io : SweepIo) (s : Scheduler) : Scheduler :=
  match leader with Some false => s | _ => run_rotation_sweep io s end.

Definition cleanup_tick (leader : option bool) (io : CleanupIo) (s : Scheduler) : Scheduler :=
  match leader with Some false => s | _ => run_version_cleanup io s end.

End Scheduler.

(** ** Deliveries *)

(** The pause after attempt [i]. *)
Definition backoff (i : Z) : Z := Z.min 30 (2 ^ (i - 1)).

Lemma backoff_next i : 1 <= i -> Z.min (backoff i * 2) 30 = backoff (i + 1).
Proof.
  intros Hi. unfold backoff. replace (i + 1 - 1) with (Z.succ (i - 1)) by lia.
  rewrite Z.pow_succ_r by lia. lia.
Qed.

(** The requests [a], ..., [k] with the pauses between them. *)
Definition attempts (a k : Z) : list Act :=
  flat_map (fun i => if i <? k then [Post i; Sleep (backoff i)] else [Post i]) (seqZ a (k - a + 1)).

Lemma attempts_one a : attempts a a = [Post a].
Proof.
  unfold attempts. rewrite seqZ_cons by lia. replace (Z.pred (a - a + 1)) with 0 by lia. cbn.
  by rewrite Z.ltb_irrefl.
Qed.

Lemma attempts_step a k : a < k -> attempts a k = Post a :: Sleep (backoff a) :: attempts (a + 1) k.
Proof.
  intros Hk. unfold attempts. rewrite seqZ_cons by lia.
  replace (Z.pred (k - a + 1)) with (k - (a + 1) + 1) by lia. cbn. rewrite (proj2 (Z.ltb_lt a k)) by done.
  done.
Qed.

Lemma dispatch_loop_spec reply last remaining a :
  1 <= a -> Z.of_nat (S remaining) = last - a + 1 ->
  exists k, a <= k <= last /\
    (dispatch_loop reply last a (S remaining) (backoff a)).2 = attempts a k /\
    (forall i, a <= i < k -> is_success (reply i) = false) /\
    (dispatch_loop reply last a (S remaining) (backoff a)).1 = is_success (reply k) /\
    (is_success (reply k) = false -> k = last).
Proof.
  revert a. induction remaining as [|remaining IH]; intros a Ha Hrem.
  - assert (a = last) as -> by lia. exists last. cbn -[backoff]. rewrite attempts_one, Z.ltb_irrefl.
    split; [lia|]. destruct (is_success (reply last)); cbn; repeat split; try done; lia.
  - remember (S remaining) as n. cbn -[backoff]. destruct (is_success (reply a)) eqn:Ha'.
    + exists a. rewrite attempts_one, Ha'. repeat split; try done; lia.
    + rewrite (proj2 (Z.ltb_lt a last)) by lia. rewrite backoff_next by lia.
      destruct (IH (a + 1)) as (k & Hk & Hacts & Hfail & Hok & Hlast); [lia|lia|].
      destruct (dispatch_loop reply last (a + 1) n (backoff (a + 1))) as [ok acts]. cbn in *.
      exists k. rewrite attempts_step, Hacts by lia. split; [lia|]. split; [done|].
      split; [|done]. intros i Hi. destruct (decide (i = a)) as [->|]; [done|]. apply Hfail. lia.
Qed.

(** A delivery stops: it asks at most [max_retries] times, and once when that
    is zero. It asks again only after a failure, pauses 1, 2, 4, 8, 16 and then 30
    seconds between requests and not after the last, and reports success exactly
    when its last request succeeded. *)
Theorem webhook_attempts_bounded reply max_retries :
  exists k, 1 <= k <= Z.max max_retries 1 /\
    (dispatch_webhook_with_retry reply max_retries).2 = attempts 1 k /\
    (forall i, 1 <= i < k -> is_success (reply i) = false) /\
    (dispatch_webhook_with_retry reply max_retries).1 = is_success (reply k) /\
    (is_success (reply k) = false -> k = Z.max max_retries 1).
Proof.
  unfold dispatch_webhook_with_retry. set (last := Z.max max_retries 1).
  destruct (Z.to_nat last) as [|remaining] eqn:Hrem; [lia|].
  apply (dispatch_loop_spec reply last remaining 1); lia.
Qed.

(** ** What a sweep does to a row *)

Definition delivery_of to_rfc3339 config (io : SweepIo) (x : DueSecret) :
    list (string * WebhookPayload * list Act) :=
  match x.(du_webhook_url) with
  | Some url => [(url, payload_for to_rfc3339 io x,
                  (dispatch_webhook_with_retry (io.(si_reply) x.(du_id)) config.(webhook_max_retries)).2)]
  | None => []
  end.

Definition announced config (io : SweepIo) (x : DueSecret) : bool :=
  bool_decide (is_Some x.(du_webhook_url)) &&
  (dispatch_webhook_with_retry (io.(si_reply) x.(du_id)) config.(webhook_max_retries)).1.

Definition marked_row (d : Draw) (r : SecretRow) : SecretRow := set_rotation_status d.(now) r "pending".

Lemma trigger_tables to_rfc3339 config io s x :
  (io.(si_mark) x.(du_id)).(fault) = None ->
  (trigger to_rfc3339 config io s x).(tables) =
    (if announced config io x
     then on_secret s.(tables) x.(du_id) (marked_row (io.(si_mark) x.(du_id)))
     else s.(tables)) /\
  (trigger to_rfc3339 config io s x).(deliveries) =
    s.(deliveries) ++ delivery_of to_rfc3339 config io x.
Proof.
  intros Hf. unfold trigger, announced, delivery_of. destruct (du_webhook_url x) as [url|]; cbn.
  - destruct (dispatch_webhook_with_retry _ _) as [[] acts]; [|done]. cbn.
    unfold mark_rotation_pending, in_tx. by rewrite Hf.
  - by rewrite app_nil_r.
Qed.

Lemma on_secret_lookup db sid f k :
  (on_secret db sid f).(secrets) !! k =
    (fun r => if bool_decide (r.(sc_id) = sid) then f r else r) <$> db.(secrets) !! k.
Proof. cbn. by rewrite lookup_fmap. Qed.

Lemma triggers_tables to_rfc3339 config io l s k r :
  (forall sid, (io.(si_mark) sid).(fault) = None) -> NoDup (map du_id l) ->
  s.(tables).(secrets) !! k = Some r ->
  (foldl (trigger to_rfc3339 config io) s l).(tables).(secrets) !! k =
    Some (if existsb (fun x => bool_decide (x.(du_id) = r.(sc_id)) && announced config io x) l
          then marked_row (io.(si_mark) r.(sc_id)) r else r).
Proof.
  intros Hf. revert s r. induction l as [|x l IH]; intros s r Hnd Hk; [done|]. cbn in *.
  apply NoDup_cons in Hnd as [Hx Hnd].
  destruct (trigger_tables to_rfc3339 config io s x (Hf _)) as [Ht _].
  assert (Hafter : existsb (fun y => bool_decide (y.(du_id) = x.(du_id)) && announced config io y) l = false).
  { apply not_true_iff_false. rewrite existsb_exists. intros (y & Hy & Hid).
    apply andb_true_iff in Hid as [Hid%bool_decide_eq_true _]. apply Hx. rewrite <- Hid.
    by apply list_elem_of_In, in_map. }
  destruct (announced config io x) eqn:Ha.
  - pose proof (on_secret_lookup s.(tables) x.(du_id) (marked_row (io.(si_mark) x.(du_id))) k) as Hl.
    rewrite <- Ht, Hk in Hl. cbn in Hl. case_bool_decide as Hid.
    + rewrite (IH _ _ Hnd Hl). cbn. rewrite Hid, bool_decide_true by done. cbn.
      by rewrite Hafter.
    + rewrite (IH _ _ Hnd Hl). by rewrite (bool_decide_false (_ = _)) by congruence.
  - rewrite andb_false_r. cbn. apply IH; [done|]. by rewrite Ht.
Qed.

Lemma triggers_deliveries to_rfc3339 config io l s :
  (forall sid, (io.(si_mark) sid).(fault) = None) ->
  (foldl (trigger to_rfc3339 config io) s l).(deliveries) =
    s.(deliveries) ++ flat_map (delivery_of to_rfc3339 config io) l.
Proof.
  intros Hf. revert s. induction l as [|x l IH]; intros s; cbn; [by rewrite app_nil_r|].
  rewrite IH, (proj2 (trigger_tables to_rfc3339 config io s x (Hf _))). by rewrite <- app_assoc.
Qed.

Lemma due_In now db x :
  In x (due_secrets now db) <->
  exists k r, db.(secrets) !! k = Some r /\ is_due now r = true /\ x = due_of (k, r).
Proof.
  unfold due_secrets. rewrite in_map_iff. split.
  - intros ([k r] & <- & Hin). apply List.filter_In in Hin as [Hin Hd].
    apply list_elem_of_In, elem_of_map_to_list in Hin. by exists k, r.
  - intros (k & r & Hk & Hd & ->). exists (k, r). split; [done|]. apply List.filter_In. split; [|done].
    by apply list_elem_of_In, elem_of_map_to_list.
Qed.

Lemma due_ids_NoDup now db : db_wf db -> NoDup (map du_id (due_secrets now db)).
Proof.
  intros Hwf. unfold due_secrets. rewrite map_map. apply NoDup_ListNoDup, NoDup_map_NoDup_ForallPairs.
  - intros [k r] [k' r'] Hin Hin' Hid. apply List.filter_In in Hin as [Hin _], Hin' as [Hin' _].
    apply list_elem_of_In, elem_of_map_to_list in Hin, Hin'. cbn in Hid.
    assert (k = k') as <- by (by eapply (wf_ids db Hwf)). congruence.
  - apply List.NoDup_filter, NoDup_ListNoDup, NoDup_map_to_list.
Qed.

(** A sweep whose statements succeed sends one delivery for each due secret
    that has a webhook and for no other, marks as pending exactly the secrets
    whose delivery succeeded, and changes nothing else of any secret. A marked
    secret is never due again while the mark stands; the others stay due. *)
Theorem sweep_announces_due_secrets to_rfc3339 config io s k r :
  db_wf s.(tables) -> io.(si_scope) = None -> io.(si_query) = None ->
  (forall sid, (io.(si_mark) sid).(fault) = None) -> s.(tables).(secrets) !! k = Some r ->
  let s' := run_rotation_sweep to_rfc3339 config io s in
  let due := is_due io.(si_now) r in
  let x := due_of (k, r) in
  s'.(deliveries) = s.(deliveries) ++
    flat_map (delivery_of to_rfc3339 config io) (due_secrets io.(si_now) s.(tables)) /\
  (In x (due_secrets io.(si_now) s.(tables)) <-> due = true) /\
  s'.(tables).(secrets) !! k =
    Some (if due && announced config io x then marked_row (io.(si_mark) r.(sc_id)) r else r) /\
  forall t, is_due t (marked_row (io.(si_mark) r.(sc_id)) r) = false.
Proof.
  intros Hwf Hsc Hq Hf Hk. cbn zeta. unfold run_rotation_sweep. rewrite Hsc, Hq.
  assert (Hin : In (due_of (k, r)) (due_secrets io.(si_now) s.(tables)) <-> is_due io.(si_now) r = true).
  { rewrite due_In. split; [|intros; by exists k, r]. intros (k' & r' & Hk' & Hd & [=]).
    destruct k, k'; cbn in *. simplify_eq. congruence. }
  split; [by apply triggers_deliveries|]. split; [done|]. split.
  - cbn. rewrite (triggers_tables _ _ _ _ _ k r Hf (due_ids_NoDup _ _ Hwf) Hk). f_equal.
    match goal with |- (if ?a then _ else _) = (if ?b then _ else _) => assert (Hab : a = b); [|by rewrite Hab] end.
    apply eq_true_iff_eq. rewrite existsb_exists, andb_true_iff, <- Hin. split.
    + intros (x & Hx & Ha). apply andb_true_iff in Ha as [Hid%bool_decide_eq_true Ha].
      pose proof Hx as Hx'. apply due_In in Hx' as (k' & r' & Hk' & _ & ->).
      assert (k' = k) as -> by (by eapply (wf_ids _ Hwf)). by simplify_eq.
    + intros [Hx Ha]. exists (due_of (k, r)). split; [done|]. apply andb_true_iff.
      split; [by apply bool_decide_eq_true|done].
  - intros t. unfold is_due. cbn. by rewrite andb_false_r.
Qed.

(** ** Which secrets can become due *)

Definition all_stale (db : SecretDb) : Prop :=
  map_Forall (fun _ r => r.(sc_secret_type) = "STALE_TTL") db.(secrets).

Lemma on_secret_stale db sid f :
  (forall r, (f r).(sc_secret_type) = r.(sc_secret_type)) -> all_stale db ->
  all_stale (on_secret db sid f).
Proof.
  intros Hf Hdb k r Hk. rewrite on_secret_lookup in Hk.
  destruct (db.(secrets) !! k) as [r0|] eqn:Hr0; [|done]. injection Hk as <-.
  specialize (Hdb k r0 Hr0). case_bool_decide; [by rewrite Hf|done].
Qed.

Section Runs.
Context `{SqlText, Uuids} (to_uppercase : string -> string) (to_rfc3339 : Z -> string)
  (config : RotationConfig).

Ltac open_op :=
  cbn; match goal with |- context [parse_tenant_id ?t] =>
    unfold parse_tenant_id; destruct (uuid_parse t) as [u|]; [|done] end;
  try (apply in_tx_state; [done|]; intros a db').

Lemma run_op_stale d db op : all_stale db -> all_stale (run_op to_uppercase d db op).
Proof.
  intros Hdb. destruct op as [ev t path ct dek cas md max|t path vs|t path vs|t path ct dek by_ wh to_
    |t rid by_|t path target by_|batch].
  - cbn. unfold pg_put, parse_tenant_id. destruct (uuid_parse t) as [u|]; [|done].
    destruct (in_tx d db _) as [res db'] eqn:Htx. cbn.
    assert (Hst : all_stale db').
    { change db' with (res, db').2. rewrite <- Htx. apply in_tx_state; [done|]. intros a db2 Hok.
      destruct (check_write_quota _ _ _); [cbn in Hok|done].
      destruct (upsert_secret_version _ _ _ _ _ _ _ _ _ _ _ _) as [[[sid v] db3]|] eqn:Hup; [|done].
      cbn in Hok. injection Hok as <- <-. apply upsert_Ok in Hup as (r0 & Hr0 & Hs & _).
      unfold all_stale. rewrite Hs. apply map_Forall_insert_2; [|done]. cbn. rewrite Hr0.
      by destruct (db.(secrets) !! (u, path)). }
    destruct (is_ok res); [|done]. unfold emit_replication_event. by destruct ev.
  - cbn. unfold pg_soft_delete. open_op. destruct (get_secret_metadata _ _ _ _) as [m|]; [cbn|done].
    destruct (resolve_soft_delete_targets _ _); intros [= <- <-]; [done|]. by apply on_secret_stale.
  - cbn. unfold pg_destroy. open_op. destruct (get_secret_metadata _ _ _ _) as [m|]; [cbn|done].
    destruct (resolve_destroy_targets _ _); intros [= <- <-]; [done|]. by apply on_secret_stale.
  - cbn. unfold pg_initiate_rotation. open_op.
    destruct (initiate_rotation _ _ _ _ _ _ _ _ _) as [[[rid v] db1]|] eqn:Hi; [cbn|done].
    intros [= <- <-]. apply initiate_Ok in Hi as (r & x & Hk & _ & _ & _ & _ & _ & Hs & _).
    unfold all_stale. rewrite Hs. apply map_Forall_insert_2; [|done]. cbn. by apply (Hdb _ _ Hk).
  - cbn. unfold pg_confirm_rotation. open_op. unfold confirm_rotation, vault_confirm_rotation.
    destruct (uuid_parse rid) as [rid'|]; [|done]. case_bool_decide; [|done].
    destruct (db.(rotations) !! rid') as [x|]; [|done]. destruct (_ && _); [|done]. cbn.
    intros [= <- <-]. apply (on_secret_stale db); done.
  - cbn. unfold pg_rollback. open_op. intros Hr.
    apply rollback_Ok in Hr as (r & x & Hk & _ & _ & _ & _ & _ & ->).
    unfold all_stale. apply map_Forall_insert_2; [|done]. cbn. by apply (Hdb _ _ Hk).
  - cbn. unfold vault_revoke_deprecated_versions. revert db Hdb.
    induction batch as [|rid batch IH]; intros db Hdb; [done|]. cbn. apply IH. unfold revoke_one.
    destruct (db.(rotations) !! rid) as [x|]; [|done]. destruct (grace_over _ x); [|done].
    by apply (on_secret_stale db).
Qed.

(** What the scheduler and the secret engine do to the tables. *)
Inductive scheduler_step : Scheduler -> Scheduler -> Prop :=
| step_request s d op :
    is_fresh s.(tables) d.(fresh) ->
    scheduler_step s (set_tables (run_op to_uppercase d s.(tables) op) s)
| step_sweep s leader io : scheduler_step s (rotation_tick to_rfc3339 config leader io s)
| step_cleanup s leader io : scheduler_step s (cleanup_tick leader io s).

Lemma no_due now db : all_stale db -> due_secrets now db = [].
Proof.
  intros Hdb. destruct (due_secrets now db) as [|x l] eqn:Hd; [done|].
  assert (Hin : In x (due_secrets now db)) by (rewrite Hd; by left).
  apply due_In in Hin as (k & r & Hk & Hdue & _). specialize (Hdb k r Hk). cbn in Hdb.
  unfold is_due in Hdue. by rewrite Hdb in Hdue.
Qed.

Lemma sweep_idle io s :
  all_stale s.(tables) ->
  (run_rotation_sweep to_rfc3339 config io s).(tables) = s.(tables) /\
  (run_rotation_sweep to_rfc3339 config io s).(deliveries) = s.(deliveries).
Proof.
  intros Hdb. unfold run_rotation_sweep. destruct io.(si_scope); [done|]. destruct io.(si_query); [done|].
  by rewrite no_due.
Qed.

Lemma scheduler_step_stale s s' :
  scheduler_step s s' -> all_stale s.(tables) ->
  all_stale s'.(tables) /\ s'.(deliveries) = s.(deliveries).
Proof.
  intros [s0 d op Hf|s0 leader io|s0 leader io] Hdb.
  - split; [|done]. by apply run_op_stale.
  - destruct leader as [[]|]; cbn; try done; destruct (sweep_idle io s0 Hdb) as [-> ->]; done.
  - assert (Hc : all_stale (run_version_cleanup io s0).(tables) /\
      (run_version_cleanup io s0).(deliveries) = s0.(deliveries)); [|by destruct leader as [[]|]].
    unfold run_version_cleanup. destruct io.(ci_scope); [done|]. destruct io.(ci_query); [done|].
    pose proof (run_op_stale {| now := io.(ci_now); fresh := ""; fault := None |} s0.(tables)
      (OpRevoke io.(ci_batch)) Hdb) as Hst. by destruct io.(ci_commit) as [[? []]|].
Qed.

(** C35. No secret ever becomes due: whatever requests, sweeps and clean-ups a
    deployment that starts without secrets goes through, no webhook is ever
    delivered. Every write leaves the type [STALE_TTL], and the sweep looks for
    [ROTATION_REQUIRED]. *)
Theorem scheduled_rotation_never_fires s s' t :
  s.(tables).(secrets) = ∅ -> s.(deliveries) = [] -> rtc scheduler_step s s' ->
  due_secrets t s'.(tables) = [] /\ s'.(deliveries) = [].
Proof.
  intros Hs Hd Hrun.
  assert (Hst : all_stale s.(tables)) by (unfold all_stale; rewrite Hs; apply map_Forall_empty).
  clear Hs. revert Hd Hst. induction Hrun as [|x y z Hxy Hrun IH]; intros Hd Hst.
  - split; [by apply no_due|done].
  - destruct (scheduler_step_stale x y Hxy Hst) as [Hst' Hd']. apply IH; [congruence|done].
Qed.

(** ** What a clean-up erases *)

(** A rotation of [db] that lets the clean-up at [t] erase version [v] of [r]. *)
Definition erasable (t : Z) (db : SecretDb) (r : SecretRow) (v : Z) : Prop :=
  v < r.(sc_current_version) /\
  exists rid x, db.(rotations) !! rid = Some x /\ grace_over t x = true /\
    x.(ro_secret_id) = r.(sc_id) /\ x.(ro_old_version) = v.

Record cleaned (t : Z) (db db' : SecretDb) : Prop := {
  cl_wf : db_wf db';
  cl_grace : forall rid x, db'.(rotations) !! rid = Some x -> grace_over t x = true ->
    db.(rotations) !! rid = Some x;
  cl_rows : forall k r, db.(secrets) !! k = Some r -> exists r', db'.(secrets) !! k = Some r' /\
    r'.(sc_id) = r.(sc_id) /\ r'.(sc_current_version) = r.(sc_current_version) /\
    forall v, r'.(sc_versions) !! v = r.(sc_versions) !! v \/ erasable t db r v;
}.

Lemma cleaned_refl t db : db_wf db -> cleaned t db db.
Proof. intros Hwf. split; [done|done|]. intros k r Hk. exists r. by eauto. Qed.

Lemma completed_not_over t x : grace_over t (completed_rotation t x) = false.
Proof. done. Qed.

Lemma revoke_one_cleaned t db0 db rid :
  cleaned t db0 db -> cleaned t db0 (revoke_one t db rid).
Proof.
  intros Hc. destruct Hc as [Hwf Hgr Hrows].
  destruct (revoke_one_effect t t db rid Hwf) as [k0 Heff].
  pose proof (effect_wf _ _ _ _ Hwf Heff) as Hwf'. clear Heff. revert Hwf'. unfold revoke_one.
  destruct (db.(rotations) !! rid) as [x|] eqn:Hx; [|done].
  destruct (grace_over t x) eqn:Hg; [|done]. intros Hwf'. split; [done| |].
  - intros rid' y Hy Hgy. cbn in Hy. apply lookup_insert_Some in Hy as [[_ <-]|[_ Hy]]; [done|].
    by apply Hgr.
  - intros k r Hk. destruct (Hrows k r Hk) as (r' & Hk' & Hid & Hcur & Hvs).
    pose proof (on_secret_lookup db x.(ro_secret_id) (fun r => set_versions r
      (alter (revoked t) x.(ro_old_version) r.(sc_versions))) k) as Hl. rewrite Hk' in Hl. cbn in Hl.
    eexists. split; [exact Hl|]. case_bool_decide as Hsid; [|done]. cbn. split; [done|]. split; [done|].
    intros v. destruct (decide (v = x.(ro_old_version))) as [->|Hne]; [|by rewrite lookup_alter_ne].
    right. split; [|by exists rid, x; rewrite <- Hid; auto].
    destruct (wf_rotations db Hwf _ _ Hx) as (r0 & Hr0 & Hid0 & _ & Hold).
    assert ((x.(ro_tenant_id), x.(ro_path)) = k) as Hxk by (eapply (wf_ids db Hwf); eauto; congruence).
    rewrite Hxk, Hk' in Hr0. injection Hr0 as <-. rewrite <- Hcur. apply Hold.
    intros Hp. unfold grace_over in Hg. by rewrite Hp in Hg.
Qed.

Lemma revoke_batch_cleaned t db0 db batch :
  cleaned t db0 db -> cleaned t db0 (vault_revoke_deprecated_versions t db batch).
Proof.
  unfold vault_revoke_deprecated_versions. revert db.
  induction batch as [|rid batch IH]; intros db Hc; [done|]. cbn. by apply IH, revoke_one_cleaned.
Qed.

(** A rotation of the batch is no longer in its grace. *)
Lemma revoke_batch_settles t db batch rid x :
  (vault_revoke_deprecated_versions t db batch).(rotations) !! rid = Some x ->
  grace_over t x = true -> rid ∉ batch.
Proof.
  unfold vault_revoke_deprecated_versions. revert db.
  induction batch as [|i batch IH] using rev_ind; intros db; [intros _ _; apply not_elem_of_nil|].
  rewrite foldl_snoc. unfold revoke_one at 1.
  set (db1 := foldl (revoke_one t) db batch). intros Hx Hg Hin. apply elem_of_app in Hin.
  assert (Hx1 : db1.(rotations) !! rid = Some x /\ rid <> i).
  { destruct (db1.(rotations) !! i) as [y|] eqn:Hy; [|split; [done|intros ->; congruence]].
    destruct (grace_over t y) eqn:Hgy; [|split; [done|intros ->; congruence]].
    cbn in Hx. apply lookup_insert_Some in Hx as [[_ <-]|[Hne Hx]]; [done|]. by split. }
  destruct Hx1 as [Hx1 Hne]. destruct Hin as [Hin|Hin]; [by eapply IH|].
  apply list_elem_of_singleton in Hin. done.
Qed.

(** A clean-up, whatever fails in it, keeps every secret, its pointer and all
    versions at or above the pointer, and erases no version but the old one of a
    confirmed rotation of that secret whose grace is over. One that succeeds
    leaves no such rotation when there were fewer than a hundred. *)
Theorem cleanup_spares_current_versions start s io k r :
  start.(secrets) = ∅ -> start.(rotations) = ∅ -> rtc (db_step to_uppercase) start s.(tables) ->
  s.(tables).(secrets) !! k = Some r ->
  let s' := run_version_cleanup io s in
  (exists r', s'.(tables).(secrets) !! k = Some r' /\
     r'.(sc_current_version) = r.(sc_current_version) /\
     (forall v, r.(sc_current_version) <= v -> r'.(sc_versions) !! v = r.(sc_versions) !! v) /\
     (forall v, r'.(sc_versions) !! v <> r.(sc_versions) !! v ->
        exists rid x, s.(tables).(rotations) !! rid = Some x /\ grace_over io.(ci_now) x = true /\
          x.(ro_secret_id) = r.(sc_id) /\ x.(ro_old_version) = v)) /\
  (io.(ci_scope) = None -> io.(ci_query) = None -> io.(ci_commit) = None ->
   picks io.(ci_now) s.(tables) io.(ci_batch) -> Z.of_nat (length io.(ci_batch)) < CLEANUP_BATCH ->
   forall rid x, s'.(tables).(rotations) !! rid = Some x -> grace_over io.(ci_now) x = false).
Proof.
  intros Hs Hr Hrun Hk. destruct (run_evolves _ _ _ (no_secrets_wf start Hs Hr) Hrun) as [Hwf _].
  pose proof (revoke_batch_cleaned io.(ci_now) _ _ io.(ci_batch) (cleaned_refl io.(ci_now) _ Hwf)) as Hb.
  cbn zeta. split.
  - assert (Hc : cleaned io.(ci_now) s.(tables) (run_version_cleanup io s).(tables)).
    { unfold run_version_cleanup. destruct io.(ci_scope); [by apply cleaned_refl|].
      destruct io.(ci_query); [by apply cleaned_refl|].
      destruct io.(ci_commit) as [[? []]|]; cbn; [done|by apply cleaned_refl|done]. }
    destruct (cl_rows _ _ _ Hc k r Hk) as (r' & Hk' & _ & Hcur & Hvs). exists r'.
    split; [done|]. split; [done|]. split; intros v Hv; destruct (Hvs v) as [|[Hlt He]]; try done. lia.
  - intros Hsc Hq Hco (_ & _ & _ & Hall) Hfew rid x. unfold run_version_cleanup.
    rewrite Hsc, Hq, Hco. cbn. intros Hx. apply not_true_iff_false. intros Hg.
    eapply revoke_batch_settles; [exact Hx|done|]. eapply Hall; [done| |done].
    by eapply (cl_grace _ _ _ Hb).
Qed.

End Runs.

(** ** Examples *)

Module RotationDemo.
Import SecretDbDemo.
#[local] Existing Instances sql_text uuids.

Definition utc (t : Z) : string := "t" +:+ pretty.pretty t.

Definition config : RotationConfig :=
  from_env (fun v => if decide (v = "ROTATION_WEBHOOK_MAX_RETRIES") then Some "+2" else None).

(** The number of retries is a [u64] cut to 32 bits. *)
Example retries_are_cut :
  (from_env (fun _ => Some "4294967297")).(webhook_max_retries) = 1 /\
  config = {| sweep_interval_secs := 60; cleanup_interval_secs := 3600; webhook_timeout_secs := 10;
              webhook_max_retries := 2 |}.
Proof. by vm_compute. Qed.

Example second_attempt_succeeds :
  dispatch_webhook_with_retry (fun i => if i =? 2 then Status 204 else SendFailed) 3 =
    (true, [Post 1; Sleep 1; Post 2]).
Proof. reflexivity. Qed.

Definition none : Metrics :=
  {| sweep_runs := []; rotations_triggered := []; webhooks_dispatched := []; versions_revoked := 0 |}.

(** A row no request writes: a rotation is due, with a webhook. *)
Definition due_row : SecretRow :=
  {| sc_id := "s1"; sc_engine := "kv_v2"; sc_current_version := 0; sc_max_versions := 10;
     sc_cas_required := false; sc_custom_metadata := ∅; sc_created_at := 0; sc_updated_at := 0;
     sc_environment := "INT"; sc_tags := []; sc_secret_type := "ROTATION_REQUIRED";
     sc_rotation_interval := Some 60; sc_grace := None; sc_webhook := Some "https://hook";
     sc_rotation_status := "none"; sc_last_rotated_at := None; sc_next_rotation_at := Some 50;
     sc_versions := ∅ |}.

Definition due_tables : SecretDb := set_secrets start {[("t1", "db/password") := due_row]}.

Definition due_scheduler : Scheduler := {| tables := due_tables; metrics := none; deliveries := [] |}.

Definition io : SweepIo :=
  {| si_now := 100; si_scope := None; si_query := None; si_clock := fun _ => (101, 102);
     si_reply := fun _ i => if i =? 2 then Status 200 else Status 500;
     si_mark := fun _ => at_ 103 "" |}.

Lemma due_tables_wf : db_wf due_tables.
Proof.
  split; cbn.
  - apply map_Forall_singleton. split; [done|]. apply map_Forall_empty.
  - intros k k' r r' [<- <-]%lookup_singleton_Some [<- <-]%lookup_singleton_Some. done.
  - apply map_Forall_empty.
  - intros i j x y Hi. by rewrite lookup_empty in Hi.
Qed.

Lemma sweep_announces_due_secrets_witness :
  (run_rotation_sweep utc config io due_scheduler).(deliveries) =
    [("https://hook", {| wp_tenant_id := "t1"; wp_path := "db/password";
        wp_secret_type := "ROTATION_REQUIRED"; wp_rotation_due_at := "t101"; wp_triggered_at := "t102" |},
      [Post 1; Sleep 1; Post 2])] /\
  (run_rotation_sweep utc config io due_scheduler).(tables).(secrets) !! ("t1", "db/password") =
    Some (marked_row (at_ 103 "") due_row).
Proof.
  destruct (sweep_announces_due_secrets utc config io due_scheduler ("t1", "db/password") due_row
    due_tables_wf eq_refl eq_refl (fun _ => eq_refl) eq_refl) as (Hd & _ & Hk & _).
  split; [rewrite Hd; by vm_compute|exact Hk].
Defined.

Definition idle : Scheduler := {| tables := start; metrics := none; deliveries := [] |}.

Lemma scheduled_rotation_never_fires_witness :
  due_secrets 1000 (rotation_tick utc config None io (set_tables run1 idle)).(tables) = [] /\
  (rotation_tick utc config None io (set_tables run1 idle)).(deliveries) = [].
Proof.
  apply (scheduled_rotation_never_fires upper utc config idle _ 1000 eq_refl eq_refl).
  eapply rtc_l; [|apply rtc_once; by apply step_sweep].
  apply (step_request upper utc config idle (at_ 100 "s1") put1).
  apply is_fresh_compute. vm_compute. reflexivity.
Defined.

(** A confirmed rotation whose grace is over. *)
Definition run3' : SecretDb := run_op upper (at_ 400 "") run3 (OpConfirm "t1" "r1" "app").

Definition confirmed : Scheduler := {| tables := run3'; metrics := none; deliveries := [] |}.

Definition cleanup : CleanupIo :=
  {| ci_now := 5000 * SECOND; ci_scope := None; ci_query := None; ci_commit := None;
     ci_batch := ["r1"] |}.

Lemma step3 : db_step upper run2 run3. Proof. one_step. Qed.
Lemma step3' : db_step upper run3 run3'. Proof. one_step. Qed.

Definition row : SecretRow :=
  default due_row (run3'.(secrets) !! ("t1", "db/password")).

Lemma over_is_some (o : option RotationRow) t :
  from_option (grace_over t) false o = true -> exists x, o = Some x /\ grace_over t x = true.
Proof. destruct o as [x|]; [by exists x|done]. Qed.

Lemma cleanup_picks : picks cleanup.(ci_now) run3' cleanup.(ci_batch).
Proof.
  split; [apply (NoDup_singleton "r1")|]. split; [by vm_compute|]. split.
  - intros rid ->%list_elem_of_singleton. apply over_is_some. vm_compute. reflexivity.
  - intros _ rid y Hy _. apply list_elem_of_singleton.
    assert (Hdom : dom run3'.(rotations) = {["r1"]}) by (vm_compute; reflexivity).
    apply elem_of_dom_2 in Hy. rewrite Hdom in Hy. by apply elem_of_singleton in Hy.
Qed.

Lemma cleanup_spares_current_versions_witness :
  (exists r', (run_version_cleanup cleanup confirmed).(tables).(secrets) !! ("t1", "db/password") = Some r' /\
     r'.(sc_current_version) = 3 /\ r'.(sc_versions) !! 3 = row.(sc_versions) !! 3) /\
  (forall x, (run_version_cleanup cleanup confirmed).(tables).(rotations) !! "r1" = Some x ->
     grace_over cleanup.(ci_now) x = false).
Proof.
  destruct (cleanup_spares_current_versions upper start confirmed cleanup ("t1", "db/password") row)
    as [(r' & Hk & Hcur & Hkeep & _) Hall].
  - reflexivity.
  - reflexivity.
  - etrans; [exact upto2|]. eapply rtc_l; [exact step3|]. apply rtc_once, step3'.
  - vm_compute. reflexivity.
  - split.
    + exists r'. split; [exact Hk|]. split; [rewrite Hcur; by vm_compute|]. apply Hkeep. by vm_compute.
    + intros x Hx. eapply (Hall eq_refl eq_refl eq_refl); [|by vm_compute|exact Hx].
      exact cleanup_picks.
Defined.

End RotationDemo.
