(* ===== verification/Transit.v ===== *)
(** * The transit engine

    Encryption as a service: the versioned keys of
    [services/transit-engine/src/key_store.rs], the ciphertext format and the
    operations of [operations.rs], the policy client ([policy_client.rs]) and
    the HTTP handlers ([http.rs]), which are proved against the interface
    [PolicyService] that the policy engine implements. *)

From Stdlib Require Import Lia Ascii.
From stdpp Require Import pretty.
From S2P Require Import Prelude Errors Policy Auth PolicyEngine Envelope.

(** ** Keys *)

Record KeyVersion := { kv_version : N; kv_material : string }.

Record TransitKey := {
  k_name : string;
  k_versions : list KeyVersion;
  current_version : N;
  k_created_at : Z;
}.

(** The index of a 1-based version number, with [saturating_sub]. *)
Definition version_index (v : N) : nat := N.to_nat (N.pred v).

(** [None] is the panic of an index out of range. *)
Definition current_material (self : TransitKey) : option string :=
  kv_material <$> self.(k_versions) !! version_index self.(current_version).

Definition material_for_version (self : TransitKey) (v : N) : option string :=
  kv_material <$> self.(k_versions) !! version_index v.

Record TransitKeySummary := { sm_name : string; sm_version : N; sm_created_at : Z }.

Definition summary (key : TransitKey) : TransitKeySummary :=
  {| sm_name := key.(k_name); sm_version := key.(current_version);
     sm_created_at := key.(k_created_at) |}.

Abbreviation key_map := (gmap (string * string) TransitKey).

(** [now] and [fresh] are the clock and the key material drawn. *)
Definition create_key (store : key_map) (now : Z) (fresh tenant_id key_name : string) :
    vresult () * key_map :=
  let map_key := (tenant_id, key_name) in
  match store !! map_key with
  | Some _ => (Err (ValidationError "key_name" ("key '" +:+ key_name
                 +:+ "' already exists for tenant '" +:+ tenant_id +:+ "'")), store)
  | None =>
      (Ok tt, <[map_key := {| k_name := key_name;
                              k_versions := [{| kv_version := 1; kv_material := fresh |}];
                              current_version := 1; k_created_at := now |}]> store)
  end.

Definition get_key (store : key_map) (tenant_id key_name : string) : vresult TransitKey :=
  ok_or (store !! (tenant_id, key_name)) (KeyNotFound (tenant_id +:+ "/" +:+ key_name)).

(** The new version number is a [u32] addition. *)
Definition rotated (key : TransitKey) (fresh : string) : TransitKey :=
  let new_version := ((key.(current_version) + 1) mod 2 ^ 32)%N in
  {| k_name := key.(k_name);
     k_versions := key.(k_versions) ++ [{| kv_version := new_version; kv_material := fresh |}];
     current_version := new_version; k_created_at := key.(k_created_at) |}.

Definition rotate_key (store : key_map) (fresh tenant_id key_name : string) :
    vresult N * key_map :=
  match store !! (tenant_id, key_name) with
  | None => (Err (KeyNotFound (tenant_id +:+ "/" +:+ key_name)), store)
  | Some key =>
      let key' := rotated key fresh in
      (Ok key'.(current_version), <[(tenant_id, key_name) := key']> store)
  end.

(** [sort_by(name)], by insertion in the byte order of names. *)
Definition name_le (a b : string) : bool := String.leb a b.

Fixpoint insert_summary (k : TransitKeySummary) (l : list TransitKeySummary) :
    list TransitKeySummary :=
  match l with
  | [] => [k]
  | h :: t => if name_le k.(sm_name) h.(sm_name) then k :: l else h :: insert_summary k t
  end.

Definition list_keys (store : key_map) (tenant_id : string) : list TransitKeySummary :=
  foldr insert_summary []
    ((fun e : string * string * TransitKey => summary e.2)
       <$> List.filter (fun e : string * string * TransitKey => bool_decide (e.1.1 = tenant_id))
             (map_to_list store)).

(** ** Operations

    The outer option is the panic of [current_material]. *)

Definition CIPHERTEXT_PREFIX : string := "vault:v".

Definition parse_versioned_ciphertext (ciphertext : string) : vresult (N * string) :=
  after_prefix ← ok_or (Str.strip_prefix CIPHERTEXT_PREFIX ciphertext) DecryptionFailed;
  parts ← ok_or (Str.split_once ":" after_prefix) DecryptionFailed;
  version ← ok_or (Dec.parse_u32 parts.1) DecryptionFailed;
  Ok (version, parts.2).

Class Mac := {
  hmac_sha256 : string -> string -> string;
  hex_decode : string -> option string;
}.

Section Operations.
Context `{Primitives, Mac}.

Definition encrypt (rng : option string) (key : TransitKey) (plaintext : string) :
    option (vresult string) :=
  dek ← current_material key;
  Some (envelope ← encrypt_with_dek rng dek plaintext key.(k_name);
        Ok (CIPHERTEXT_PREFIX +:+ pretty key.(current_version) +:+ ":"
            +:+ envelope.(ciphertext_b64))).

Definition decrypt (key : TransitKey) (versioned_ciphertext : string) : vresult string :=
  '(version, b64_body) ← parse_versioned_ciphertext versioned_ciphertext;
  dek ← ok_or (material_for_version key version)
              (KeyNotFound (key.(k_name) +:+ ":v" +:+ pretty version));
  decrypt_with_dek dek b64_body key.(k_name).

(** [expect] on the derivation: [None] is its panic. *)
Definition mac_subkey (key_material : string) : option string :=
  result_ok (derive_key key_material None "wslvault:transit:mac:v1").

Definition sign_data (key data : string) : option string :=
  mac_key ← mac_subkey key;
  Some (hex_encode (hmac_sha256 mac_key data)).

Definition verify_data (key data signature : string) : option bool :=
  match hex_decode signature with
  | None => Some false
  | Some sig_bytes =>
      mac_key ← mac_subkey key;
      Some (bool_decide (hmac_sha256 mac_key data = sig_bytes))
  end.

Definition rewrap (rng : option string) (key : TransitKey) (old_ciphertext : string) :
    option (vresult string) :=
  match decrypt key old_ciphertext with
  | Err e => Some (Err e)
  | Ok plaintext => encrypt rng key plaintext
  end.

End Operations.

(** ** Versioned ciphertexts *)

Lemma parse_tag (version : N) body :
  (version <= Dec.U32_MAX)%N ->
  parse_versioned_ciphertext (CIPHERTEXT_PREFIX +:+ pretty version +:+ ":" +:+ body)
  = Ok (version, body).
Proof.
  intros Hv. unfold parse_versioned_ciphertext.
  rewrite (proj2 (Str.strip_prefix_Some _ _ (pretty version +:+ ":" +:+ body))) by done.
  cbn [ok_or mbind result_bind].
  rewrite (proj2 (Str.split_once_Some ":" _ (pretty version) body)).
  - cbn [ok_or mbind result_bind fst snd]. by rewrite Dec.parse_u32_pretty.
  - split; [done|]. apply Dec.digits_no_char; [done|]. apply Dec.pretty_digits.
Qed.

(** The version tag of a ciphertext is read back exactly: printing a [u32]
    version and a body and parsing the result gives both again, whatever the
    body contains. *)
Theorem ciphertext_tag_round_trip (version : N) body :
  (version <= Dec.U32_MAX)%N ->
  parse_versioned_ciphertext (CIPHERTEXT_PREFIX +:+ pretty version +:+ ":" +:+ body)
  = Ok (version, body).
Proof. apply parse_tag. Qed.

(** *** Well-formed keys *)

Definition key_wf (key : TransitKey) : Prop :=
  (1 <= key.(current_version) <= Dec.U32_MAX)%N /\
  List.length key.(k_versions) = N.to_nat key.(current_version) /\
  forall i kv, key.(k_versions) !! i = Some kv -> kv.(kv_version) = N.of_nat (S i).

Definition rotate_all (key : TransitKey) (fresh : list string) : TransitKey :=
  fold_left rotated fresh key.

Lemma rotated_wf key fresh :
  key_wf key -> (key.(current_version) + 1 <= Dec.U32_MAX)%N ->
  key_wf (rotated key fresh) /\ (rotated key fresh).(current_version) = (key.(current_version) + 1)%N.
Proof.
  unfold Dec.U32_MAX. intros ((Hlo & Hhi) & Hlen & Hnum) Hb. unfold rotated, key_wf. cbn.
  rewrite N.mod_small by (cbn; lia). split; [|done]. split; [unfold Dec.U32_MAX; lia|]. split.
  - rewrite length_app, Hlen. cbn. lia.
  - intros i kv [Hi|[Hge Hi]]%lookup_app_Some; [by apply Hnum|].
    apply list_lookup_singleton_Some in Hi as [Hi <-]. cbn. lia.
Qed.

Lemma rotate_all_spec key fresh :
  key_wf key -> (key.(current_version) + N.of_nat (List.length fresh) <= Dec.U32_MAX)%N ->
  let key' := rotate_all key fresh in
  key_wf key' /\ key'.(k_name) = key.(k_name) /\
  key'.(current_version) = (key.(current_version) + N.of_nat (List.length fresh))%N /\
  forall i kv, key.(k_versions) !! i = Some kv -> key'.(k_versions) !! i = Some kv.
Proof.
  unfold rotate_all. revert key. induction fresh as [|f fresh IH]; intros key Hwf Hb.
  { cbn in *. split; [done|]. split; [done|]. split; [lia|done]. }
  cbn [fold_left List.length] in *. destruct (rotated_wf key f Hwf) as [Hwf' Hcur]; [lia|].
  destruct (IH (rotated key f) Hwf') as (H1 & H2 & H3 & H4); [rewrite Hcur; lia|].
  split; [done|]. split; [done|]. split; [rewrite H3, Hcur; lia|].
  intros i kv Hi. apply H4. cbn. by apply lookup_app_l_Some.
Qed.

Section OperationLaws.
Context `{Primitives, !PrimitiveLaws}.

Lemma encrypt_shape rng key pt ct :
  encrypt rng key pt = Some (Ok ct) ->
  exists dek env, current_material key = Some dek /\
    encrypt_with_dek rng dek pt key.(k_name) = Ok env /\
    ct = CIPHERTEXT_PREFIX +:+ pretty key.(current_version) +:+ ":" +:+ env.(ciphertext_b64).
Proof.
  unfold encrypt. destruct (current_material key) as [dek|]; [|done]. cbn.
  destruct (encrypt_with_dek _ _ _ _) as [env|] eqn:He; [|done]. intros [= <-].
  by exists dek, env.
Qed.

(** A ciphertext opens under any key of that name that still has its version. *)
Lemma decrypt_with_version rng key key' pt ct :
  (forall n, rng = Some n -> String.length n = AES_GCM_NONCE_LEN) ->
  (key.(current_version) <= Dec.U32_MAX)%N -> key'.(k_name) = key.(k_name) ->
  material_for_version key' key.(current_version) = current_material key ->
  encrypt rng key pt = Some (Ok ct) -> decrypt key' ct = Ok pt.
Proof.
  intros Hrng Hv Hname Hmat (dek & env & Hdek & Henv & ->)%encrypt_shape.
  unfold decrypt. rewrite parse_tag by done. cbn [mbind result_bind].
  rewrite Hmat, Hdek, Hname. cbn [ok_or mbind result_bind].
  by apply (envelope_round_trip _ _ _ _ _ Hrng Henv).
Qed.

Lemma key_wf_current key : key_wf key -> is_Some (current_material key).
Proof.
  intros ((Hlo & Hhi) & Hlen & _). unfold current_material, version_index.
  destruct (lookup_lt_is_Some_2 key.(k_versions) (N.to_nat (N.pred key.(current_version))))
    as [kv ->]; [lia|eauto].
Qed.

(** Rotation never strands data: a ciphertext made under a key decrypts to its
    plaintext after any number of later rotations, and rewrapping it then yields
    (without panicking) a ciphertext tagged with the newest version that decrypts
    to the same plaintext. *)
Theorem rotation_keeps_ciphertexts rng rng' key fresh pt ct :
  key_wf key -> (key.(current_version) + N.of_nat (List.length fresh) <= Dec.U32_MAX)%N ->
  (forall n, rng = Some n -> String.length n = AES_GCM_NONCE_LEN) ->
  (forall n, rng' = Some n -> String.length n = AES_GCM_NONCE_LEN) ->
  encrypt rng key pt = Some (Ok ct) ->
  let key' := rotate_all key fresh in
  decrypt key' ct = Ok pt /\ is_Some (rewrap rng' key' ct) /\
  forall ct', rewrap rng' key' ct = Some (Ok ct') ->
    decrypt key' ct' = Ok pt /\
    exists body, parse_versioned_ciphertext ct' = Ok (key'.(current_version), body).
Proof.
  intros Hwf Hb Hrng Hrng' Henc key'.
  destruct (rotate_all_spec key fresh Hwf Hb) as (Hwf' & Hname & Hcur & Hold).
  change (rotate_all key fresh) with key' in Hwf', Hname, Hcur, Hold.
  assert (Hdec : decrypt key' ct = Ok pt).
  { eapply decrypt_with_version; [exact Hrng| |exact Hname| |exact Henc].
    - destruct Hwf as ((_ & ?) & _). done.
    - destruct (key_wf_current key Hwf) as [dek Hdek].
      unfold material_for_version, current_material in *.
      destruct (key.(k_versions) !! _) as [kv|] eqn:Hkv; [|done]. by rewrite (Hold _ _ Hkv). }
  split; [done|]. unfold rewrap. rewrite Hdec.
  destruct (key_wf_current key' Hwf') as [dek' Hdek']. destruct Hwf' as ((_ & Hhi) & _). split.
  - unfold encrypt. rewrite Hdek'. cbn. eauto.
  - intros ct' Hct'. split; [by eapply (decrypt_with_version rng' key')|].
    apply encrypt_shape in Hct' as (? & env & _ & _ & ->). rewrite parse_tag by done. eauto.
Qed.

End OperationLaws.

(** ** Policy enforcement *)

(** What the policy engine promises its clients: the answer of the [Authorize]
    RPC to a tenant, principal, policies, action and resource. [None] is a failed
    connection and [Err] a failed call. *)
Class PolicyService := {
  authorize_rpc : string -> string -> list string -> string -> string ->
                  option (result string (bool * string));
}.

Definition authorize `{PolicyService} (tenant principal : string) (pols : list string)
    (action resource : string) : vresult () :=
  match authorize_rpc tenant principal pols action resource with
  | None | Some (Err _) => Err (ServiceUnavailable "policy-engine")
  | Some (Ok (allowed, reason)) =>
      if allowed then Ok tt
      else Err (PermissionDenied resource
                  (if Str.is_empty reason then "policy denied" else reason))
  end.

(** ** HTTP handlers *)

Record AuditEvent := {
  a_tenant : string;
  a_principal : string;
  a_action : string;
  a_resource : string;
  a_outcome : string;
  a_detail : string;
  a_client_ip : string;
}.

(** The key store and the audit events sent so far, latest first. *)
Record Engine := { key_store : key_map; audit_log : list AuditEvent }.

Inductive TransitBody :=
| TError (error : string)
| TCiphertext (ciphertext : string)
| TPlaintext (plaintext : string)
| TSignature (signature : string)
| TValid (valid : bool)
| TKeys (keys : list TransitKeySummary)
| TCreated (key_name algorithm : string)
| TRotated (key_name : string) (new_version : N).

(** [None] when the handler panicked and the connection was dropped. *)
Definition Reply : Type := option (Z * TransitBody).

Inductive TransitRequest :=
| REncrypt (rng : option string) (key_name plaintext : string)
| RDecrypt (key_name ciphertext : string)
| RSign (key_name data : string)
| RVerify (key_name data signature : string)
| RRewrap (rng : option string) (key_name ciphertext : string)
| RListKeys
| RCreateKey (now : Z) (fresh key_name : string)
| RRotateKey (fresh key_name : string).

Section Handlers.
Context `{Primitives, Mac, PolicyService} {auth : Authenticator}.
Context (debug_str : string -> string).

Definition extract_client_ip (headers : HeaderMap) : string :=
  default "" (headers !! "x-client-ip").

Definition vault_error_response (err : VaultError) : Z * TransitBody :=
  let s := http_status err in
  (if bool_decide (s ∈ [400; 403; 404; 409; 503]) then s else 500,
   TError (display debug_str err)).

Definition emit (st : Engine) (who : Identity) (action resource outcome detail ip : string) :
    Engine :=
  {| key_store := st.(key_store);
     audit_log := {| a_tenant := who.(tenant_id); a_principal := who.(principal_id);
                     a_action := action; a_resource := resource; a_outcome := outcome;
                     a_detail := detail; a_client_ip := ip |} :: st.(audit_log) |}.

(** The opening of every handler: authenticate, then ask the policy engine, and
    answer and audit a refusal. *)
Definition guarded (st : Engine) (headers : HeaderMap) (event key_name action resource : string)
    (body : Identity -> string -> Reply * Engine) : Reply * Engine :=
  match resolve headers with
  | Err e => (Some (401, TError e), st)
  | Ok who =>
      let ip := extract_client_ip headers in
      match authorize who.(tenant_id) who.(principal_id) who.(Auth.policies) action resource with
      | Err e => (Some (vault_error_response e),
                  emit st who event key_name "failure" (display debug_str e) ip)
      | Ok _ => body who ip
      end
  end.

(** The closing of a handler: report and audit the result of the operation. *)
Definition conclude {A} (st : Engine) (who : Identity) (event key_name ip : string)
    (r : vresult A) (render : A -> Z * TransitBody) : Reply * Engine :=
  match r with
  | Ok a => (Some (render a), emit st who event key_name "success" "" ip)
  | Err e => (Some (vault_error_response e),
              emit st who event key_name "failure" (display debug_str e) ip)
  end.

(** A base64 field that does not decode. *)
Definition bad_field (st : Engine) (who : Identity) (event key_name ip message : string) :
    Reply * Engine :=
  (Some (400, TError message), emit st who event key_name "failure" message ip).

Definition encrypt_handler (st : Engine) (rng : option string) (key_name : string)
    (headers : HeaderMap) (plaintext_b64 : string) : Reply * Engine :=
  guarded st headers "transit.encrypt" key_name "write" ("transit/encrypt/" +:+ key_name)
    (fun who ip =>
       match b64_decode plaintext_b64 with
       | Err _ => bad_field st who "transit.encrypt" key_name ip "plaintext must be valid base64"
       | Ok plaintext =>
           match get_key st.(key_store) who.(tenant_id) key_name with
           | Err e => conclude st who "transit.encrypt" key_name ip (Err e) (fun c => (200, TCiphertext c))
           | Ok key =>
               match encrypt rng key plaintext with
               | None => (None, st)
               | Some r => conclude st who "transit.encrypt" key_name ip r
                             (fun c => (200, TCiphertext c))
               end
           end
       end).

Definition decrypt_handler (st : Engine) (key_name : string) (headers : HeaderMap)
    (ciphertext : string) : Reply * Engine :=
  guarded st headers "transit.decrypt" key_name "read" ("transit/decrypt/" +:+ key_name)
    (fun who ip =>
       conclude st who "transit.decrypt" key_name ip
         (key ← get_key st.(key_store) who.(tenant_id) key_name; decrypt key ciphertext)
         (fun p => (200, TPlaintext (b64_encode p)))).

Definition sign_handler (st : Engine) (key_name : string) (headers : HeaderMap)
    (data_b64 : string) : Reply * Engine :=
  guarded st headers "transit.sign" key_name "write" ("transit/sign/" +:+ key_name)
    (fun who ip =>
       match b64_decode data_b64 with
       | Err _ => bad_field st who "transit.sign" key_name ip "data must be valid base64"
       | Ok data =>
           match get_key st.(key_store) who.(tenant_id) key_name with
           | Err e => conclude st who "transit.sign" key_name ip (Err e) (fun s => (200, TSignature s))
           | Ok key =>
               match (material ← current_material key; sign_data material data) with
               | None => (None, st)
               | Some s => conclude st who "transit.sign" key_name ip (Ok s)
                             (fun s => (200, TSignature s))
               end
           end
       end).

Definition verify_handler (st : Engine) (key_name : string) (headers : HeaderMap)
    (data_b64 signature : string) : Reply * Engine :=
  guarded st headers "transit.verify" key_name "read" ("transit/verify/" +:+ key_name)
    (fun who ip =>
       match b64_decode data_b64 with
       | Err _ => bad_field st who "transit.verify" key_name ip "data must be valid base64"
       | Ok data =>
           match get_key st.(key_store) who.(tenant_id) key_name with
           | Err e => conclude st who "transit.verify" key_name ip (Err e) (fun v => (200, TValid v))
           | Ok key =>
               match (material ← current_material key; verify_data material data signature) with
               | None => (None, st)
               | Some v => conclude st who "transit.verify" key_name ip (Ok v)
                             (fun v => (200, TValid v))
               end
           end
       end).

Definition rewrap_handler (st : Engine) (rng : option string) (key_name : string)
    (headers : HeaderMap) (ciphertext : string) : Reply * Engine :=
  guarded st headers "transit.rewrap" key_name "write" ("transit/rewrap/" +:+ key_name)
    (fun who ip =>
       match get_key st.(key_store) who.(tenant_id) key_name with
       | Err e => conclude st who "transit.rewrap" key_name ip (Err e) (fun c => (200, TCiphertext c))
       | Ok key =>
           match rewrap rng key ciphertext with
           | None => (None, st)
           | Some r => conclude st who "transit.rewrap" key_name ip r
                         (fun c => (200, TCiphertext c))
           end
       end).

(** The one handler that audits refusals only. *)
Definition list_keys_handler (st : Engine) (headers : HeaderMap) : Reply * Engine :=
  guarded st headers "transit.key.list" "" "read" "transit/keys"
    (fun who _ => (Some (200, TKeys (list_keys st.(key_store) who.(tenant_id))), st)).

Definition create_key_handler (st : Engine) (now : Z) (fresh key_name : string)
    (headers : HeaderMap) : Reply * Engine :=
  guarded st headers "transit.key.create" key_name "write" ("transit/keys/" +:+ key_name)
    (fun who ip =>
       let '(r, store') := create_key st.(key_store) now fresh who.(tenant_id) key_name in
       conclude {| key_store := store'; audit_log := st.(audit_log) |} who "transit.key.create"
         key_name ip r (fun _ => (201, TCreated key_name "aes256-gcm"))).

Definition rotate_key_handler (st : Engine) (fresh key_name : string) (headers : HeaderMap) :
    Reply * Engine :=
  guarded st headers "transit.key.rotate" key_name "write"
    ("transit/keys/" +:+ key_name +:+ "/rotate")
    (fun who ip =>
       let '(r, store') := rotate_key st.(key_store) fresh who.(tenant_id) key_name in
       conclude {| key_store := store'; audit_log := st.(audit_log) |} who "transit.key.rotate"
         key_name ip r (fun v => (200, TRotated key_name v))).

Definition handle (st : Engine) (headers : HeaderMap) (req : TransitRequest) : Reply * Engine :=
  match req with
  | REncrypt rng key_name plaintext => encrypt_handler st rng key_name headers plaintext
  | RDecrypt key_name ciphertext => decrypt_handler st key_name headers ciphertext
  | RSign key_name data => sign_handler st key_name headers data
  | RVerify key_name data signature => verify_handler st key_name headers data signature
  | RRewrap rng key_name ciphertext => rewrap_handler st rng key_name headers ciphertext
  | RListKeys => list_keys_handler st headers
  | RCreateKey now fresh key_name => create_key_handler st now fresh key_name headers
  | RRotateKey fresh key_name => rotate_key_handler st fresh key_name headers
  end.

(** *** What the handlers guarantee *)

(** The action and resource the policy engine is asked about. *)
Definition required (req : TransitRequest) : string * string :=
  match req with
  | REncrypt _ k _ => ("write", "transit/encrypt/" +:+ k)
  | RDecrypt k _ => ("read", "transit/decrypt/" +:+ k)
  | RSign k _ => ("write", "transit/sign/" +:+ k)
  | RVerify k _ _ => ("read", "transit/verify/" +:+ k)
  | RRewrap _ k _ => ("write", "transit/rewrap/" +:+ k)
  | RListKeys => ("read", "transit/keys")
  | RCreateKey _ _ k => ("write", "transit/keys/" +:+ k)
  | RRotateKey _ k => ("write", "transit/keys/" +:+ k +:+ "/rotate")
  end.

Definition is_listing (req : TransitRequest) : bool :=
  match req with RListKeys => true | _ => false end.

Definition is_success (s : Z) : bool := (200 <=? s) && (s <? 300).

Definition succeeded (r : Reply) : bool :=
  match r with Some (s, _) => is_success s | None => false end.

Lemma error_not_success e : is_success (vault_error_response e).1 = false.
Proof. by destruct e. Qed.

(** What an authorised handler may leave behind. *)
Definition proper_outcome (st : Engine) (who : Identity) (audited : bool) (out : Reply * Engine) :
    Prop :=
  (forall k, k.1 <> who.(tenant_id) -> out.2.(key_store) !! k = st.(key_store) !! k) /\
  exists evs, out.2.(audit_log) = evs ++ st.(audit_log) /\
    match out.1 with
    | None => evs = []
    | Some (s, _) =>
        if negb audited && is_success s then evs = []
        else exists ev, evs = [ev] /\ ev.(a_tenant) = who.(tenant_id) /\
               ev.(a_principal) = who.(principal_id) /\
               (ev.(a_outcome) = "success" <-> is_success s = true)
    end.

Lemma guarded_eq st headers event k action resource body :
  guarded st headers event k action resource body =
  match resolve headers with
  | Err e => (Some (401, TError e), st)
  | Ok who =>
      match authorize who.(tenant_id) who.(principal_id) who.(Auth.policies) action resource with
      | Err e => (Some (vault_error_response e),
                  emit st who event k "failure" (display debug_str e) (extract_client_ip headers))
      | Ok _ => body who (extract_client_ip headers)
      end
  end.
Proof. done. Qed.

Lemma refusal_proper st who event k detail ip e audited :
  proper_outcome st who audited (Some (vault_error_response e), emit st who event k "failure" detail ip).
Proof.
  split; [done|]. eexists [_]. split; [done|]. cbn [fst].
  pose proof (error_not_success e) as He. destruct (vault_error_response e) as [s b]. cbn [fst] in He.
  rewrite He, andb_false_r. eexists. by do 3 (split; [done|]).
Qed.

Lemma conclude_proper {A} st st0 who event k ip (r : vresult A) render :
  (forall key, key.1 <> who.(tenant_id) -> st.(key_store) !! key = st0.(key_store) !! key) ->
  st.(audit_log) = st0.(audit_log) -> (forall a, is_success (render a).1 = true) ->
  proper_outcome st0 who true (conclude st who event k ip r render).
Proof.
  intros Hk Ha Hr. unfold conclude. destruct r as [a|e].
  - split; [done|]. eexists [_]. cbn [snd emit audit_log]. rewrite Ha. split; [done|]. cbn [fst].
    specialize (Hr a). destruct (render a) as [s b]. cbn [fst] in Hr.
    eexists. do 3 (split; [done|]). by rewrite Hr.
  - split; [done|]. eexists [_]. cbn [snd emit audit_log]. rewrite Ha. split; [done|]. cbn [fst].
    pose proof (error_not_success e) as He. destruct (vault_error_response e) as [s b].
    cbn [fst] in He. eexists. do 3 (split; [done|]). by rewrite He.
Qed.

Lemma bad_field_proper st who event k ip m :
  proper_outcome st who true (bad_field st who event k ip m).
Proof. split; [done|]. eexists [_]. split; [done|]. cbn. eexists. by split. Qed.

Lemma panic_proper st who audited : proper_outcome st who audited (None, st).
Proof. split; [done|]. by exists []. Qed.

Lemma create_key_other store now fresh t n k :
  k.1 <> t -> (create_key store now fresh t n).2 !! k = store !! k.
Proof.
  destruct k as [t' n']. cbn. intros Hne. unfold create_key. case_match; [done|]. cbn.
  by rewrite lookup_insert_ne by congruence.
Qed.

Lemma rotate_key_other store fresh t n k :
  k.1 <> t -> (rotate_key store fresh t n).2 !! k = store !! k.
Proof.
  destruct k as [t' n']. cbn. intros Hne. unfold rotate_key. case_match; [|done]. cbn.
  by rewrite lookup_insert_ne by congruence.
Qed.

Ltac proper := first [ apply refusal_proper | apply bad_field_proper | apply panic_proper
                     | by apply conclude_proper ].

(** Every handler is its guard around a body with a proper outcome. *)
Lemma handle_guarded st headers req :
  exists event k body,
    handle st headers req = guarded st headers event k (required req).1 (required req).2 body /\
    forall who ip, proper_outcome st who (negb (is_listing req)) (body who ip).
Proof.
  destruct req; cbn [handle required fst snd]; do 3 eexists; (split; [reflexivity|]); intros who ip; cbv beta.
  - repeat case_match; proper.
  - proper.
  - repeat case_match; proper.
  - repeat case_match; proper.
  - repeat case_match; proper.
  - split; [done|]. by exists [].
  - pose proof (create_key_other st.(key_store) now fresh who.(tenant_id) key_name) as Hc.
    destruct (create_key _ _ _ _ _). cbn in Hc. proper.
  - pose proof (rotate_key_other st.(key_store) fresh who.(tenant_id) key_name) as Hc.
    destruct (rotate_key _ _ _ _). cbn in Hc. proper.
Qed.

(** *** Other tenants' keys are not consulted

    The keys a request is about: the one it names, or all for a listing. *)
Definition concerns (req : TransitRequest) (n : string) : Prop :=
  match req with
  | REncrypt _ k _ | RDecrypt k _ | RSign k _ | RVerify k _ _ | RRewrap _ k _
  | RCreateKey _ _ k | RRotateKey _ k => n = k
  | RListKeys => True
  end.

(** Two engines with the same keys of one tenant, as far as [P] goes. *)
Definition same_keys (t : string) (P : string -> Prop) (st st2 : Engine) : Prop :=
  forall n, P n -> st2.(key_store) !! (t, n) = st.(key_store) !! (t, n).

(** The same answer; a listing may come in another order. *)
Definition same_answer (r r2 : Reply) : Prop :=
  match r, r2 with
  | Some (s, TKeys l), Some (s2, TKeys l2) => s2 = s /\ l2 ≡ₚ l
  | _, _ => r2 = r
  end.

(** What a request of a tenant leaves in two engines: the same answer, the same
    keys and the same audit events. *)
Definition alike (t : string) (P : string -> Prop) (st st2 : Engine) (out out2 : Reply * Engine) : Prop :=
  same_answer out.1 out2.1 /\ same_keys t P out.2 out2.2 /\
  exists evs, out.2.(audit_log) = evs ++ st.(audit_log) /\ out2.2.(audit_log) = evs ++ st2.(audit_log).

Lemma same_answer_refl r : same_answer r r.
Proof. by destruct r as [[? []]|]. Qed.

Lemma sorted_summaries l : foldr insert_summary [] l ≡ₚ l.
Proof.
  assert (Hins : forall k l', insert_summary k l' ≡ₚ k :: l').
  { intros k l'. induction l' as [|h l' IH]; cbn; [done|]. case_match; [done|]. rewrite IH. constructor. }
  induction l as [|k l IH]; cbn; [done|]. by rewrite Hins, IH.
Qed.

Lemma list_keys_same t st st2 :
  same_keys t (fun _ => True) st st2 -> list_keys st2.(key_store) t ≡ₚ list_keys st.(key_store) t.
Proof.
  intros Hk. unfold list_keys. rewrite !sorted_summaries. apply fmap_Permutation, NoDup_Permutation.
  1,2: apply NoDup_ListNoDup, List.NoDup_filter, NoDup_ListNoDup, NoDup_map_to_list.
  intros [[t' n] k]. rewrite !list_elem_of_In, !List.filter_In, <- !list_elem_of_In, !elem_of_map_to_list.
  cbn. rewrite bool_decide_eq_true. split; intros [Hl ->]; (split; [|done]).
  - by rewrite <- (Hk n).
  - by rewrite (Hk n).
Qed.

Lemma get_key_same t (P : string -> Prop) st st2 n :
  same_keys t P st st2 -> P n -> get_key st2.(key_store) t n = get_key st.(key_store) t n.
Proof. intros Hk Hn. unfold get_key. by rewrite Hk. Qed.

Lemma conclude_alike {A} t P st st2 m m2 who event k ip (r : vresult A) render :
  same_keys t P m m2 -> m.(audit_log) = st.(audit_log) -> m2.(audit_log) = st2.(audit_log) ->
  alike t P st st2 (conclude m who event k ip r render) (conclude m2 who event k ip r render).
Proof.
  intros Hk Hl Hl2. destruct r; (split; [apply same_answer_refl|]); split; try done;
    eexists [_]; cbn; by rewrite Hl, Hl2.
Qed.

Lemma silent_alike t P st st2 r r2 :
  same_keys t P st st2 -> same_answer r r2 -> alike t P st st2 (r, st) (r2, st2).
Proof. intros Hk Hr. split; [done|]. split; [done|]. by exists []. Qed.

Lemma bad_field_alike t P st st2 who event k ip m :
  same_keys t P st st2 -> alike t P st st2 (bad_field st who event k ip m) (bad_field st2 who event k ip m).
Proof. intros Hk. split; [done|]. split; [done|]. by eexists [_]. Qed.

Lemma create_key_same t st st2 now fresh n :
  same_keys t (fun n' => n' = n) st st2 ->
  (create_key st2.(key_store) now fresh t n).1 = (create_key st.(key_store) now fresh t n).1 /\
  forall n', n' = n -> (create_key st2.(key_store) now fresh t n).2 !! (t, n') =
                       (create_key st.(key_store) now fresh t n).2 !! (t, n').
Proof.
  intros Hk. specialize (Hk n eq_refl). unfold create_key. rewrite Hk.
  case_match; cbn; (split; [done|]); intros n' ->; rewrite ?lookup_insert_eq; congruence.
Qed.

Lemma rotate_key_same t st st2 fresh n :
  same_keys t (fun n' => n' = n) st st2 ->
  (rotate_key st2.(key_store) fresh t n).1 = (rotate_key st.(key_store) fresh t n).1 /\
  forall n', n' = n -> (rotate_key st2.(key_store) fresh t n).2 !! (t, n') =
                       (rotate_key st.(key_store) fresh t n).2 !! (t, n').
Proof.
  intros Hk. specialize (Hk n eq_refl). unfold rotate_key. rewrite Hk.
  case_match; cbn; (split; [done|]); intros n' ->; rewrite ?lookup_insert_eq; congruence.
Qed.

Ltac alike := first [ by apply bad_field_alike | by apply silent_alike | by apply conclude_alike ].

Lemma handle_alike st st2 headers req who :
  resolve headers = Ok who ->
  authorize who.(tenant_id) who.(principal_id) who.(Auth.policies) (required req).1 (required req).2 = Ok tt ->
  same_keys who.(tenant_id) (concerns req) st st2 ->
  alike who.(tenant_id) (concerns req) st st2 (handle st headers req) (handle st2 headers req).
Proof.
  intros Hwho Hok Hk. pose proof (fun n => get_key_same _ _ _ _ n Hk) as Hget.
  destruct req; cbn [handle required fst snd] in *;
    unfold encrypt_handler, decrypt_handler, sign_handler, verify_handler, rewrap_handler,
      list_keys_handler, create_key_handler, rotate_key_handler;
    rewrite !guarded_eq, Hwho, Hok; rewrite ?Hget by done.
  - destruct (b64_decode _); [|alike]. destruct (get_key _ _ _) as [key|]; [|alike].
    destruct (encrypt _ _ _); alike.
  - alike.
  - destruct (b64_decode _); [|alike]. destruct (get_key _ _ _) as [key|]; [|alike].
    destruct (current_material key ≫= _); alike.
  - destruct (b64_decode _); [|alike]. destruct (get_key _ _ _) as [key|]; [|alike].
    destruct (current_material key ≫= _); alike.
  - destruct (get_key _ _ _) as [key|]; [|alike]. destruct (rewrap _ _ _); alike.
  - apply silent_alike; [done|]. split; [done|]. by apply list_keys_same.
  - destruct (create_key_same who.(tenant_id) st st2 now fresh key_name Hk) as [Hr Hs].
    destruct (create_key st.(key_store) _ _ _ _), (create_key st2.(key_store) _ _ _ _). cbn in Hr, Hs. subst. alike.
  - destruct (rotate_key_same who.(tenant_id) st st2 fresh key_name Hk) as [Hr Hs].
    destruct (rotate_key st.(key_store) _ _ _), (rotate_key st2.(key_store) _ _ _). cbn in Hr, Hs. subst. alike.
Qed.

(** C29. Nothing happens without the policy engine's consent: a request that is
    not authenticated, or that the policy engine denies, cannot be asked about,
    or fails to answer, is refused with the keys untouched. An authorised one
    changes no key of another tenant, and consults only the key of the caller's
    tenant that it names (a listing, the keys of the tenant): in two engines that
    agree on it the request is answered alike and leaves the same key and the
    same audit events, whatever other keys they hold. *)
Theorem transit_policy_enforced st headers req :
  match resolve headers with
  | Err e => handle st headers req = (Some (401, TError e), st)
  | Ok who =>
      match authorize who.(tenant_id) who.(principal_id) who.(Auth.policies)
                      (required req).1 (required req).2 with
      | Err e => (handle st headers req).1 = Some (vault_error_response e) /\
                 (handle st headers req).2.(key_store) = st.(key_store)
      | Ok _ =>
          (forall k, k.1 <> who.(tenant_id) ->
             (handle st headers req).2.(key_store) !! k = st.(key_store) !! k) /\
          (forall st2, same_keys who.(tenant_id) (concerns req) st st2 ->
             alike who.(tenant_id) (concerns req) st st2 (handle st headers req) (handle st2 headers req))
      end
  end.
Proof.
  destruct (resolve headers) as [who|e] eqn:Hwho.
  - destruct (authorize _ _ _ _ _) as [[]|e] eqn:Hok; [split; [|intros st2 Hk; by apply handle_alike]|].
    all: destruct (handle_guarded st headers req) as (event & k & body & -> & Hbody).
    all: rewrite guarded_eq, Hwho, Hok.
    + apply (Hbody who (extract_client_ip headers)).
    + done.
  - destruct (handle_guarded st headers req) as (event & k & body & -> & _). by rewrite guarded_eq, Hwho.
Qed.

(** Every authenticated request leaves exactly one audit event, under the
    caller's own tenant and principal and marked a success exactly when the
    answer is one; the exceptions are a request that panics and a listing of
    keys that succeeds, which leave none. *)
Theorem transit_audited st headers req who :
  resolve headers = Ok who ->
  let '(reply, st') := handle st headers req in
  exists evs, st'.(audit_log) = evs ++ st.(audit_log) /\
    match reply with
    | None => evs = []
    | Some (s, _) =>
        if is_listing req && is_success s then evs = []
        else exists ev, evs = [ev] /\ ev.(a_tenant) = who.(tenant_id) /\
               ev.(a_principal) = who.(principal_id) /\
               (ev.(a_outcome) = "success" <-> is_success s = true)
    end.
Proof.
  intros Hwho. destruct (handle_guarded st headers req) as (event & k & body & -> & Hbody).
  rewrite guarded_eq, Hwho.
  assert (Hout : proper_outcome st who (negb (is_listing req))
    match authorize who.(tenant_id) who.(principal_id) who.(Auth.policies)
                    (required req).1 (required req).2 with
    | Ok _ => body who (extract_client_ip headers)
    | Err e => (Some (vault_error_response e),
                emit st who event k "failure" (display debug_str e) (extract_client_ip headers))
    end) by (case_match; [apply Hbody|proper]).
  destruct (match authorize _ _ _ _ _ with Ok _ => _ | Err _ => _ end) as [reply st'].
  destruct Hout as [_ Hevs]. by rewrite negb_involutive in Hevs.
Qed.

End Handlers.

(** ** Transit with the policy engine

    The policy engine of [PolicyEngine.v] as the service the client calls. *)

Definition engine_service {S} (state : AppState S) : PolicyService := {|
  authorize_rpc tenant _ pols action resource :=
    Some (match grpc_authorize state tenant pols action resource with
          | Ok answer => Ok answer
          | Err (InvalidArgument m) | Err (NotFound m) => Err m
          end) |}.

Lemma engine_authorize {S} (state : AppState S) tenant principal pols action resource :
  authorize (H := engine_service state) tenant principal pols action resource = Ok tt ->
  Evaluator.allows state.(compiled) tenant pols action resource.
Proof.
  intros Ha. apply Evaluator.evaluate_allow. revert Ha.
  unfold authorize. cbn. unfold grpc_authorize.
  by repeat (case_match; try done; simplify_eq).
Qed.

(** End to end: whatever the transit engine answers with success has been
    allowed by the policies in force, namely a rule of one of the policies in the
    caller's own token, in the caller's own tenant, that grants the action on
    exactly this key and operation, with no matching rule denying it. *)
Theorem transit_success_is_allowed `{Primitives, Mac} {auth : Authenticator} {S}
    (state : AppState S) debug_str st headers req :
  succeeded (handle (H1 := engine_service state) debug_str st headers req).1 = true ->
  exists who, resolve headers = Ok who /\
    Evaluator.allows state.(compiled) who.(tenant_id) who.(Auth.policies)
      (required req).1 (required req).2.
Proof.
  destruct (handle_guarded (H1 := engine_service state) debug_str st headers req)
    as (event & k & body & -> & _).
  rewrite guarded_eq. destruct (resolve headers) as [who|e]; [|done].
  destruct (authorize _ _ _ _ _) as [[]|e] eqn:Ha.
  - intros _. exists who. split; [done|]. by eapply engine_authorize.
  - cbn [fst succeeded]. pose proof (error_not_success debug_str e) as He.
    destruct (vault_error_response debug_str e). cbn [fst] in He. congruence.
Qed.

(** ** Signatures *)

(** A signature verifies under the key material that made it. *)
Theorem sign_verify_round_trip `{Primitives, Mac} key data signature :
  (forall s, hex_decode (hex_encode s) = Some s) ->
  sign_data key data = Some signature -> verify_data key data signature = Some true.
Proof.
  intros Hhex. unfold sign_data, verify_data.
  destruct (mac_subkey key) as [mk|]; [|done]. cbn. intros [= <-].
  rewrite Hhex. cbn. by rewrite bool_decide_true.
Qed.

(** ** Witnesses *)

Lemma ciphertext_tag_round_trip_witness :
  parse_versioned_ciphertext "vault:v12:YWJj" = Ok (12%N, "YWJj").
Proof. apply (ciphertext_tag_round_trip 12 "YWJj"). vm_compute. discriminate. Defined.

Definition sample_transit_key : TransitKey :=
  {| k_name := "orders"; k_versions := [{| kv_version := 1; kv_material := "k1" |}];
     current_version := 1; k_created_at := 0 |}.

Definition sample_ct : string := "vault:v1:gogogogogogogogogogogogogigj".

Lemma sample_key_wf : key_wf sample_transit_key.
Proof.
  split; [unfold Dec.U32_MAX; cbn; lia|]. split; [done|].
  intros [|i] kv Hi; cbn in Hi; by simplify_eq.
Qed.

Lemma rotation_keeps_ciphertexts_witness :
  decrypt (H := stand_in) (rotate_all sample_transit_key ["k2"; "k3"]) sample_ct = Ok "hi".
Proof.
  refine (proj1 (rotation_keeps_ciphertexts (H := stand_in) (H0 := stand_in_laws)
           (Some (Str.repeat "n" 12)) None sample_transit_key ["k2"; "k3"] "hi" sample_ct
           _ _ _ _ _)).
  - apply sample_key_wf.
  - vm_compute. discriminate.
  - intros ? [= <-]. reflexivity.
  - intros ? [=].
  - vm_compute. reflexivity.
Defined.

#[local] Instance transit_auth : Authenticator := {|
  resolve _ := Ok {| tenant_id := "tenant-a"; principal_id := "ada"; Auth.policies := ["admin"];
                     expires_at := None; superuser := false |} |}.
#[local] Instance stand_in_mac : Mac := {| hmac_sha256 k d := k +:+ d; hex_decode := Some |}.

Definition allow_transit : AppState PolicyStore :=
  {| store := {| inner := ∅ |};
     compiled := Evaluator.upsert Evaluator.new "tenant-a" "admin"
       [{| Model.paths := ["transit/**"]; Model.capabilities := {[Model.Read]} |}] |}.

Definition sample_engine : Engine :=
  {| key_store := {[("tenant-a", "orders") := sample_transit_key]}; audit_log := [] |}.

Lemma transit_audited_witness :
  let '(reply, st') := handle (H := stand_in) (H1 := engine_service allow_transit) (fun s => s)
                         sample_engine ∅ (RDecrypt "orders" sample_ct) in
  exists evs, st'.(audit_log) = evs ++ [] /\ reply = reply.
Proof.
  pose proof (transit_audited (H := stand_in) (H1 := engine_service allow_transit) (fun s => s)
    sample_engine ∅ (RDecrypt "orders" sample_ct) _ eq_refl) as Hw.
  destruct (handle _ _ _ _) as [reply st'].
  destruct Hw as (evs & Hevs & _). exists evs. auto.
Defined.

Lemma transit_success_is_allowed_witness :
  exists who, resolve ∅ = Ok who /\
    Evaluator.allows allow_transit.(compiled) who.(tenant_id) who.(Auth.policies)
      "read" "transit/decrypt/orders".
Proof.
  apply (transit_success_is_allowed (H := stand_in) allow_transit (fun s => s)
           sample_engine ∅ (RDecrypt "orders" sample_ct)).
  vm_compute. reflexivity.
Defined.

Lemma sign_verify_round_trip_witness :
  verify_data (H := stand_in) "k1" "data" "k1data" = Some true.
Proof.
  apply (sign_verify_round_trip (H := stand_in) "k1" "data" "k1data");
    [intros s; reflexivity|vm_compute; reflexivity].
Defined.
