(* ===== verification/TransitDb.v ===== *)
(** * Transit keys in PostgreSQL

    [services/transit-engine/src/pg_store.rs]: transit keys wrapped under the root
    key in the named rows of [system.key_descriptors] ([KeyStore]), with a cache of
    unwrapped keys per process, from which every cryptographic operation of
    [Transit] is served.

    The methods of the backend await between their phases, so the processes that
    share the table interleave at those points: [Flight] is a request under way,
    [advance] its next phase, [pg_create_key] and [pg_rotate_key] the phases run
    without interference. A statement may fail with or without its effect. SHA-256
    is a parameter; the table's other rows belong to the crypto service and change
    as it likes. *)

From Stdlib Require Import Lia Ascii Sorted.
From stdpp Require Import pretty.
From S2P Require Import Prelude Errors Envelope Seal KeyStore Transit.

(** ** Tenants as UUIDs *)

Definition bytes_of (s : string) : list Z := map (fun a => Z.of_nat (nat_of_ascii a)) (String.list_ascii_of_string s).

Definition hex_char (n : Z) : ascii := ascii_of_nat (Z.to_nat (if n <? 10 then 48 + n else 87 + n)).

Definition byte_hex (b : Z) : string := String (hex_char (Z.shiftr b 4)) (String (hex_char (Z.land b 15)) "").

Definition hex_text (l : list Z) : string := foldr (fun b s => byte_hex b +:+ s) "" l.

(** [Uuid::from_bytes], as its hyphenated text. *)
Definition uuid_text (b : list Z) : string :=
  hex_text (take 4 b) +:+ "-" +:+ hex_text (take 2 (drop 4 b)) +:+ "-" +:+ hex_text (take 2 (drop 6 b)) +:+ "-"
  +:+ hex_text (take 2 (drop 8 b)) +:+ "-" +:+ hex_text (drop 10 b).

(** A text that is no UUID becomes one made of its digest, version and variant set. *)
Definition tenant_id_to_uuid `{Uuids} (sha256 : string -> string) (tenant_id : string) : string :=
  match uuid_parse tenant_id with
  | Ok u => u
  | Err _ =>
      let buf := take 16 (bytes_of (sha256 tenant_id)) in
      uuid_text (alter (fun b => Z.lor (Z.land b 63) 128) 8%nat (alter (fun b => Z.lor (Z.land b 15) 64) 6%nat buf))
  end.

(** ** Wrapping *)

Definition ROOT_KEY_ENV : string := "VAULT_ROOT_KEY".

Section Wrap.
Context `{Primitives}.

Definition load_root_key (env : option string) : vresult string :=
  match env with
  | None => Err (Internal (ROOT_KEY_ENV +:+ " is required by the PostgreSQL transit backend: key material cannot be persisted without a key to wrap it under"))
  | Some encoded =>
      match b64_decode (Str.trim encoded) with
      | Err e => Err (Internal (ROOT_KEY_ENV +:+ " is not valid base64: " +:+ e))
      | Ok raw => if bool_decide (String.length raw = 32%nat) then Ok raw
                  else Err (Internal (ROOT_KEY_ENV +:+ " must decode to 32 bytes, got " +:+ pretty (N.of_nat (String.length raw))))
      end
  end.

Definition wrap_aad (tenant_id key_name : string) (version : N) : string :=
  "transit:" +:+ tenant_id +:+ ":" +:+ key_name +:+ ":v" +:+ pretty version.

Definition wrap_material (rng : option string) (root tenant_id key_name : string) (version : N) (material : string) :
    vresult string :=
  env ← encrypt_with_dek rng root material (wrap_aad tenant_id key_name version);
  Ok env.(ciphertext_b64).

Definition unwrap_material (root tenant_id key_name : string) (version : N) (wrapped : string) : vresult string :=
  plaintext ← decrypt_with_dek root wrapped (wrap_aad tenant_id key_name version);
  if bool_decide (String.length plaintext = 32%nat) then Ok plaintext
  else Err (Internal ("unwrapped transit key is " +:+ pretty (N.of_nat (String.length plaintext)) +:+ " bytes, expected 32")).

(** ** The cache *)

(** One row of the load, at time [now]. *)
Definition load_row (root : string) (now : Z) (cache : key_map) (row : PersistedKeyEntry) : key_map :=
  match row.(pk_tenant_id), row.(pk_key_name) with
  | Some tenant_id, Some key_name =>
      let version := Z.to_N row.(pk_version) in
      match unwrap_material root tenant_id key_name version row.(pk_wrapped_key) with
      | Err _ => cache
      | Ok material =>
          let entry := default {| k_name := key_name; k_versions := []; current_version := 0; k_created_at := now |}
                         (cache !! (tenant_id, key_name)) in
          <[(tenant_id, key_name) :=
              {| k_name := entry.(k_name);
                 k_versions := entry.(k_versions) ++ [{| kv_version := version; kv_material := material |}];
                 current_version := N.max entry.(current_version) version;
                 k_created_at := entry.(k_created_at) |}]> cache
      end
  | _, _ => cache
  end.

Definition load_from_pg (io : option string) (root : string) (now : Z) (db : KeyDb) : vresult key_map :=
  rows ← list_loadable_keys_with_wrapped_key io db KeyStore.TransitKey;
  Ok (fold_left (load_row root now) rows ∅).

(** [PgTransitKeyBackend::new] *)
Definition new_backend (io : option string) (env : option string) (now : Z) (db : KeyDb) : vresult (string * key_map) :=
  root ← load_root_key env;
  cache ← load_from_pg io root now db;
  Ok (root, cache).

End Wrap.

(** ** The backend *)

(** What a request draws: the time, the id of the new row, the key material, the
    nonce that wraps it, and the fates of its two writes and one read. *)
Record Draw := {
  dr_now : Z;
  dr_db_now : Z;
  dr_id : string;
  dr_material : string;
  dr_nonce : option string;
  dr_read : option string;
  dr_retire : option (string * bool);
  dr_insert : option (string * bool);
}.

(** A write: the state it leaves, applied or not when it fails. *)
Definition write (io : option (string * bool)) (db : KeyDb) (stmt : vresult KeyDb) : vresult () * KeyDb :=
  match io, stmt with
  | None, Ok db' => (Ok tt, db')
  | None, Err e => (Err e, db)
  | Some (e, true), Ok db' => (Err (Database e), db')
  | Some (e, _), _ => (Err (Database e), db)
  end.

Inductive Flight :=
| FCreate                      (** past the check of a creation *)
| FCreated                     (** its row is written *)
| FRotate (v : N)              (** the new version of a rotation is chosen *)
| FRetire (v : N) (id : string) (** the outgoing row is found *)
| FInsert (v : N)              (** the outgoing row is retired *)
| FRotated (v : N).            (** the new row is written *)

Section Backend.
Context `{Primitives, SqlText, Uuids} (sha256 : string -> string) (root : string).

Definition active_descriptor_id_for (io : option string) (db : KeyDb) (tenant_uuid key_name : string) : vresult string :=
  match io with
  | Some e => Err (Database ("failed to locate active transit descriptor: " +:+ e))
  | None =>
      kr_id <$> ok_or (head (order_by version_desc (filter (fun r =>
                  r.(kr_tenant_id) = Some tenant_uuid /\ r.(kr_key_name) = Some key_name
                  /\ r.(kr_purpose) = "transit" /\ r.(kr_state) = "active") db.(kdb_rows))))
                (KeyNotFound (tenant_uuid +:+ "/" +:+ key_name))
  end.

Definition not_found {A} (tenant_id key_name : string) : vresult A := Err (KeyNotFound (tenant_id +:+ "/" +:+ key_name)).

(** The row of a version, as its statement inserts it. *)
Definition insert_version (d : Draw) (db : KeyDb) (tenant_id key_name : string) (v : N) : vresult () * KeyDb :=
  match wrap_material d.(dr_nonce) root tenant_id key_name v d.(dr_material) with
  | Err e => (Err e, db)
  | Ok wrapped =>
      write d.(dr_insert) db
        (insert_named_key_descriptor None d.(dr_db_now) db
           {| kd_id := d.(dr_id); kd_version := Z.of_N v; kd_algorithm := Aes256Gcm; kd_purpose := KeyStore.TransitKey;
              kd_state := Active; kd_tenant_id := Some (tenant_id_to_uuid sha256 tenant_id);
              kd_created_at := d.(dr_now); kd_rotated_at := None; kd_expires_at := None |}
           wrapped None (Some key_name))
  end.

(** The first phase, under the read lock: the answer, or where the request is then. *)
Definition create_check (cache : key_map) (tenant_id key_name : string) : vresult Flight :=
  match cache !! (tenant_id, key_name) with
  | Some _ => Err (ValidationError "key_name" ("key '" +:+ key_name +:+ "' already exists for tenant '"
                                               +:+ tenant_id +:+ "'"))
  | None => Ok FCreate
  end.

Definition rotate_read (cache : key_map) (tenant_id key_name : string) : vresult Flight :=
  match cache !! (tenant_id, key_name) with
  | None => not_found tenant_id key_name
  | Some key => Ok (FRotate ((key.(current_version) + 1) mod 2 ^ 32)%N)
  end.

Definition new_key (d : Draw) (key_name : string) : Transit.TransitKey :=
  {| k_name := key_name; k_versions := [{| kv_version := 1; kv_material := d.(dr_material) |}];
     current_version := 1; k_created_at := d.(dr_now) |}.

Definition push_version (key : Transit.TransitKey) (v : N) (material : string) : Transit.TransitKey :=
  {| k_name := key.(k_name); k_versions := key.(k_versions) ++ [{| kv_version := v; kv_material := material |}];
     current_version := v; k_created_at := key.(k_created_at) |}.

(** The next phase of a request: where it is then, or its answer. *)
Definition advance (d : Draw) (tenant_id key_name : string) (f : Flight) (db : KeyDb) (cache : key_map) :
    (Flight + vresult N) * KeyDb * key_map :=
  match f with
  | FCreate =>
      match insert_version d db tenant_id key_name 1 with
      | (Err e, db) => (inr (Err e), db, cache)
      | (Ok _, db) => (inl FCreated, db, cache)
      end
  | FCreated => (inr (Ok 1%N), db, <[(tenant_id, key_name) := new_key d key_name]> cache)
  | FRotate v =>
      match active_descriptor_id_for d.(dr_read) db (tenant_id_to_uuid sha256 tenant_id) key_name with
      | Err e => (inr (Err e), db, cache)
      | Ok id => (inl (FRetire v id), db, cache)
      end
  | FRetire v id =>
      match write d.(dr_retire) db (update_key_state None d.(dr_db_now) db id RotatingOut) with
      | (Err e, db) => (inr (Err e), db, cache)
      | (Ok _, db) => (inl (FInsert v), db, cache)
      end
  | FInsert v =>
      match insert_version d db tenant_id key_name v with
      | (Err e, db) => (inr (Err e), db, cache)
      | (Ok _, db) => (inl (FRotated v), db, cache)
      end
  | FRotated v =>
      match cache !! (tenant_id, key_name) with
      | None => (inr (not_found tenant_id key_name), db, cache)
      | Some key => (inr (Ok v), db, <[(tenant_id, key_name) := push_version key v d.(dr_material)]> cache)
      end
  end.

(** A request run to its answer; four phases are the most there are. *)
Fixpoint finish (fuel : nat) (d : Draw) (tenant_id key_name : string) (f : Flight) (db : KeyDb) (cache : key_map) :
    option (vresult N) * KeyDb * key_map :=
  match fuel with
  | O => (None, db, cache)
  | S fuel =>
      match advance d tenant_id key_name f db cache with
      | (inr r, db, cache) => (Some r, db, cache)
      | (inl f, db, cache) => finish fuel d tenant_id key_name f db cache
      end
  end.

Definition run_alone (first : vresult Flight) (d : Draw) (tenant_id key_name : string) (db : KeyDb) (cache : key_map) :
    option (vresult N) * KeyDb * key_map :=
  match first with
  | Err e => (Some (Err e), db, cache)
  | Ok f => finish 4 d tenant_id key_name f db cache
  end.

Definition pg_create_key (d : Draw) (db : KeyDb) (cache : key_map) (tenant_id key_name : string) :=
  run_alone (create_check cache tenant_id key_name) d tenant_id key_name db cache.

Definition pg_rotate_key (d : Draw) (db : KeyDb) (cache : key_map) (tenant_id key_name : string) :=
  run_alone (rotate_read cache tenant_id key_name) d tenant_id key_name db cache.

(** Every request is answered: each phase leads to a later one, and no request has more
    than four. *)
Definition phases_left (f : Flight) : nat :=
  match f with FRotate _ => 4 | FRetire _ _ => 3 | FInsert _ | FCreate => 2 | FRotated _ | FCreated => 1 end.

Lemma advance_later d tenant_id key_name f db cache f' db' cache' :
  advance d tenant_id key_name f db cache = (inl f', db', cache') -> (phases_left f' < phases_left f)%nat.
Proof.
  destruct f; cbn [advance phases_left].
  - destruct (insert_version _ _ _ _ _) as [[] ?]; naive_solver lia.
  - done.
  - destruct (active_descriptor_id_for _ _ _ _); [|done]. intros [= <- _ _]. cbn. lia.
  - destruct (write _ _ _) as [[] ?]; [|done]. intros [= <- _ _]. cbn. lia.
  - destruct (insert_version _ _ _ _ _) as [[] ?]; [|done]. intros [= <- _ _]. cbn. lia.
  - by destruct (cache !! _).
Qed.

Lemma finish_answers fuel d tenant_id key_name f db cache :
  (phases_left f <= fuel)%nat -> is_Some (finish fuel d tenant_id key_name f db cache).1.1.
Proof.
  revert f db cache. induction fuel as [|fuel IH]; intros f db cache Hf; [destruct f; cbn in Hf; lia|]. cbn [finish].
  destruct (advance _ _ _ _ _ _) as [[[f'|r] db'] cache'] eqn:Ha; [|by eexists].
  apply IH. apply advance_later in Ha. lia.
Qed.

Lemma run_alone_answers first d tenant_id key_name db cache : is_Some (run_alone first d tenant_id key_name db cache).1.1.
Proof. unfold run_alone. destruct first as [f|]; [|by eexists]. apply finish_answers. destruct f; cbn; lia. Qed.

End Backend.

(** ** What is stored *)

Section Stored.
Context `{Primitives, SqlText, Uuids} (root : string).

(** A loadable row of a version whose wrapped key opens to [m]. *)
Definition row_of (r : KeyRow) (t n : string) (v : N) (m : string) : Prop :=
  r.(kr_purpose) = "transit" /\ r.(kr_tenant_id) = Some t /\ r.(kr_key_name) = Some n /\ r.(kr_version) = Z.of_N v /\
  (1 <= v < 2 ^ 31)%N /\ loadable r = true /\ unwrap_material root t n v r.(kr_wrapped_key) = Ok m.

Definition is_row (db : KeyDb) (t n : string) (v : N) (m : string) : Prop :=
  exists r, r ∈ db.(kdb_rows) /\ row_of r t n v m.

Record table_ok (db : KeyDb) : Prop := {
  to_ids : ids_unique db;
  to_rows : forall r, r ∈ db.(kdb_rows) -> r.(kr_purpose) = "transit" -> exists t n v m, row_of r t n v m;
  to_unique : forall r r', r ∈ db.(kdb_rows) -> r' ∈ db.(kdb_rows) ->
    r.(kr_purpose) = "transit" -> r'.(kr_purpose) = "transit" ->
    r.(kr_tenant_id) = r'.(kr_tenant_id) -> r.(kr_version) = r'.(kr_version) -> r = r';
  to_pred : forall t n v m, is_row db t n v m -> (1 < v)%N -> exists m', is_row db t n (v - 1) m';
}.

(** Every cached version has its row. *)
Definition cache_ok (db : KeyDb) (c : key_map) : Prop :=
  forall t n key, c !! (t, n) = Some key ->
    key.(k_name) = n /\ key_wf key /\
    forall i kv, key.(k_versions) !! i = Some kv -> is_row db t n (N.of_nat (S i)) kv.(kv_material).

(** The table keeps what it has. *)
Definition keeps_rows (db db' : KeyDb) : Prop := forall t n v m, is_row db t n v m -> is_row db' t n v m.

#[global] Instance keeps_rows_preorder : PreOrder keeps_rows.
Proof. split; [by intros db t n v m|]. intros a b c Hab Hbc t n v m Hr. by apply Hbc, Hab. Qed.

Lemma cache_ok_mono db db' c : keeps_rows db db' -> cache_ok db c -> cache_ok db' c.
Proof.
  intros Hk Hc t n key Hkey. destruct (Hc t n key Hkey) as (Hn & Hwf & Hv). split_and!; [done..|].
  intros i kv Hi. by apply Hk, Hv.
Qed.

Lemma cached_version db c t n key v :
  cache_ok db c -> c !! (t, n) = Some key -> (1 <= v <= key.(current_version))%N -> exists m, is_row db t n v m.
Proof.
  intros Hc Hkey Hv. destruct (Hc t n key Hkey) as (_ & (_ & Hlen & _) & Hrow).
  destruct (lookup_lt_is_Some_2 key.(k_versions) (N.to_nat (N.pred v))) as [kv Hkv]; [lia|].
  exists kv.(kv_material). specialize (Hrow _ _ Hkv). by replace (N.of_nat (S (N.to_nat (N.pred v)))) with v in Hrow by lia.
Qed.

(** A version of a tenant is a row of one key only. *)
Lemma is_row_unique db t n n' v m m' : table_ok db -> is_row db t n v m -> is_row db t n' v m' -> n = n' /\ m = m'.
Proof.
  intros Ht (r & Hr & Hp & Htn & Hn & Hv & _ & _ & Hm) (r' & Hr' & Hp' & Htn' & Hn' & Hv' & _ & _ & Hm').
  assert (r = r') as <- by (apply (to_unique _ Ht); congruence).
  assert (n = n') as <- by congruence. split; [done|congruence].
Qed.

(** ** Loading *)

Lemma order_by_sorted l : StronglySorted (fun a b => a.(kr_version) <= b.(kr_version)) (order_by version_asc l).
Proof.
  assert (forall x k, StronglySorted (fun a b => a.(kr_version) <= b.(kr_version)) k ->
    StronglySorted (fun a b => a.(kr_version) <= b.(kr_version)) (insert_by version_asc x k)) as Hins.
  { intros x k Hk. induction Hk as [|y k Hk IH Hy]; cbn; [repeat constructor|].
    destruct (version_asc x y) eqn:Hxy; unfold version_asc in Hxy.
    - apply Z.leb_le in Hxy. constructor; [by constructor|]. constructor; [done|].
      eapply Forall_impl; [exact Hy|]. cbn. lia.
    - apply Z.leb_gt in Hxy. constructor; [done|]. rewrite Forall_forall in Hy |- *.
      intros z [->|Hz]%elem_of_insert_by; [lia|by apply Hy]. }
  induction l; cbn; [constructor|by apply Hins].
Qed.

(** Ascending and closed downwards: no gap. *)
Lemma ascending_contiguous (l : list Z) a :
  StronglySorted Z.le l -> NoDup l -> (forall v, v ∈ l -> a <= v) -> (forall v, v ∈ l -> a < v -> v - 1 ∈ l) ->
  l = seqZ a (len l).
Proof.
  intros Hs. revert a. induction Hs as [|x l Hs IH Hx]; intros a Hnd Hlo Hpred; [done|].
  apply NoDup_cons in Hnd as [Hnot Hnd]. rewrite Forall_forall in Hx.
  assert (x = a) as ->.
  { assert (a <= x) by (apply Hlo; set_solver). destruct (decide (x = a)) as [|Hne]; [done|].
    assert (x - 1 ∈ x :: l) as [?|Hin]%elem_of_cons by (apply Hpred; [set_solver|lia]); [lia|]. specialize (Hx _ Hin). lia. }
  unfold len. cbn [length]. rewrite seqZ_cons by lia. f_equal.
  replace (Z.pred (Z.of_nat (S (length l)))) with (len l) by (unfold len; lia). apply (IH (Z.succ a)); [done| |].
  - intros v Hv. specialize (Hx v Hv). assert (v <> a) by (by intros ->). lia.
  - intros v Hv Hlt. assert (v - 1 ∈ a :: l) as [?|Hin]%elem_of_cons by (apply Hpred; [set_solver|lia]); [lia|done].
Qed.

Definition belongs (t n : string) (r : KeyRow) : Prop := r.(kr_tenant_id) = Some t /\ r.(kr_key_name) = Some n.

#[global] Instance belongs_dec t n r : Decision (belongs t n r).
Proof. unfold belongs. apply _. Defined.

(** What a row adds to its key. *)
Definition material_of (t n : string) (r : KeyRow) : string :=
  default "" (result_ok (unwrap_material root t n (Z.to_N (as_u32 r.(kr_version))) r.(kr_wrapped_key))).

Definition add_row (t n : string) (key : Transit.TransitKey) (r : KeyRow) : Transit.TransitKey :=
  let v := Z.to_N (as_u32 r.(kr_version)) in
  {| k_name := key.(k_name);
     k_versions := key.(k_versions) ++ [{| kv_version := v; kv_material := material_of t n r |}];
     current_version := N.max key.(current_version) v; k_created_at := key.(k_created_at) |}.

Definition blank (now : Z) (n : string) : Transit.TransitKey :=
  {| k_name := n; k_versions := []; current_version := 0; k_created_at := now |}.

Definition opens (t n : string) (r : KeyRow) : Prop :=
  is_Some (result_ok (unwrap_material root t n (Z.to_N (as_u32 r.(kr_version))) r.(kr_wrapped_key))).

#[global] Instance opens_dec t n r : Decision (opens t n r).
Proof. unfold opens. apply _. Defined.

Lemma load_row_eq now c r t n :
  belongs t n r -> opens t n r ->
  load_row root now c (entry_of_row r) = <[(t, n) := add_row t n (default (blank now n) (c !! (t, n))) r]> c.
Proof.
  intros [Ht Hn] [m Hm]. unfold load_row, add_row, material_of. cbn. rewrite Ht, Hn.
  by destruct (unwrap_material root t n _ _).
Qed.

(** A key is made of the rows that carry its name and open. *)
Lemma load_lookup now l c t n :
  fold_left (load_row root now) (entry_of_row <$> l) c !! (t, n) =
  match filter (fun r => belongs t n r /\ opens t n r) l with
  | [] => c !! (t, n)
  | rows => Some (fold_left (add_row t n) rows (default (blank now n) (c !! (t, n))))
  end.
Proof.
  revert c. induction l as [|r l IH]; intros c; [done|]. cbn [fmap list_fmap fold_left]. rewrite IH, filter_cons.
  destruct (decide (belongs t n r /\ opens t n r)) as [[Hb Ho]|Hno].
  - rewrite (load_row_eq _ _ _ t n), lookup_insert_eq by done. by destruct (filter _ l).
  - assert (load_row root now c (entry_of_row r) !! (t, n) = c !! (t, n)) as ->; [|done].
    unfold load_row. cbn. destruct (kr_tenant_id r) as [t'|] eqn:Ht, (kr_key_name r) as [n'|] eqn:Hn; try done.
    destruct (unwrap_material _ t' n' _ _) eqn:Hu; [|done]. rewrite lookup_insert_ne; [done|]. intros [= -> ->].
    apply Hno. split; [done|]. unfold opens. rewrite Hu. by eexists.
Qed.

Lemma filter_opens (l : list KeyRow) t n :
  (forall r, r ∈ l -> belongs t n r -> opens t n r) ->
  filter (fun r => belongs t n r /\ opens t n r) l = filter (belongs t n) l.
Proof.
  induction l as [|r l IH]; intros Hl; [done|]. rewrite !filter_cons, IH by set_solver.
  destruct (decide (belongs t n r)) as [Hb|Hb].
  - rewrite decide_True; [done|]. split; [done|]. apply Hl; [set_solver|done].
  - by rewrite decide_False by tauto.
Qed.

Lemma add_rows_versions t n rows key :
  (fold_left (add_row t n) rows key).(k_name) = key.(k_name) /\
  (fold_left (add_row t n) rows key).(k_versions) = key.(k_versions) ++
    map (fun r => {| kv_version := Z.to_N (as_u32 r.(kr_version)); kv_material := material_of t n r |}) rows.
Proof.
  revert key. induction rows as [|r rows IH]; intros key; cbn; [by rewrite app_nil_r|].
  destruct (IH (add_row t n key r)) as [-> ->]. cbn. by rewrite <- app_assoc.
Qed.

Lemma as_u32_small z : 0 <= z < 2 ^ 31 -> as_u32 z = z.
Proof. intros Hz. unfold as_u32. apply wrap_small. lia. Qed.

Lemma add_rows_current t n rows key :
  map kr_version rows = seqZ (Z.of_N key.(current_version) + 1) (len rows) ->
  (forall r, r ∈ rows -> 0 <= r.(kr_version) < 2 ^ 31) ->
  (fold_left (add_row t n) rows key).(current_version) = (key.(current_version) + N.of_nat (length rows))%N.
Proof.
  revert key. induction rows as [|r rows IH]; intros key Hv Hb; cbn [fold_left length]; [lia|].
  unfold len in Hv. cbn [length map] in Hv. rewrite seqZ_cons in Hv by lia. injection Hv as Hr Hv.
  assert (Hcur : (add_row t n key r).(current_version) = (key.(current_version) + 1)%N).
  { cbn. rewrite as_u32_small by (apply Hb; set_solver). lia. }
  rewrite IH; [rewrite Hcur; lia| |set_solver]. rewrite Hv, Hcur. f_equal; unfold len; lia.
Qed.

(** The transit rows of a key, as they are loaded. *)
Lemma loaded_rows db :
  len db.(kdb_rows) <= I64_MAX ->
  exists l, list_loadable_keys_with_wrapped_key None db KeyStore.TransitKey = Ok (entry_of_row <$> l) /\
    StronglySorted (fun a b => a.(kr_version) <= b.(kr_version)) l /\
    l ≡ₚ filter (fun r => r.(kr_purpose) = "transit" /\ loadable r) db.(kdb_rows).
Proof.
  intros Hlen. eexists. split; [reflexivity|]. split; [apply order_by_sorted|].
  rewrite order_by_perm, limit_all; [apply order_by_perm|].
  transitivity (len db.(kdb_rows)); [|done]. unfold len. rewrite order_by_perm. apply inj_le, length_filter.
Qed.

Lemma StronglySorted_filter {A} (R : relation A) P `{!forall x, Decision (P x)} (l : list A) :
  StronglySorted R l -> StronglySorted R (filter P l).
Proof.
  induction 1 as [|x l Hs IH Hx]; [constructor|]. rewrite filter_cons. case_decide; [|done]. constructor; [done|].
  rewrite Forall_forall in Hx |- *. intros y [_ Hy]%list_elem_of_filter. by apply Hx.
Qed.

(** Of a sound table the rows of a key are its versions from the first, in order. *)
Lemma key_rows db l t n :
  table_ok db -> StronglySorted (fun a b => a.(kr_version) <= b.(kr_version)) l ->
  l ≡ₚ filter (fun r => r.(kr_purpose) = "transit" /\ loadable r) db.(kdb_rows) ->
  let rows := filter (belongs t n) l in
  map kr_version rows = seqZ 1 (len rows) /\
  (forall r, r ∈ rows -> r ∈ db.(kdb_rows) /\ exists v m, row_of r t n v m) /\
  (forall v m, is_row db t n v m -> exists r, r ∈ rows /\ row_of r t n v m).
Proof.
  intros Ht Hs Hp rows.
  assert (Hin : forall r, r ∈ rows <-> r ∈ db.(kdb_rows) /\ r.(kr_purpose) = "transit" /\ loadable r /\ belongs t n r).
  { intros r. unfold rows. rewrite list_elem_of_filter, Hp, list_elem_of_filter. tauto. }
  assert (Hrow : forall r, r ∈ rows -> r ∈ db.(kdb_rows) /\ exists v m, row_of r t n v m).
  { intros r (Hr & Hpu & _ & Ht' & Hn')%Hin. split; [done|].
    destruct (to_rows _ Ht r Hr Hpu) as (t0 & n0 & v & m & Hrow). exists v, m.
    assert (t0 = t) as -> by (destruct Hrow; naive_solver congruence).
    assert (n0 = n) as -> by (destruct Hrow; naive_solver congruence). done. }
  assert (Hall : forall v m, is_row db t n v m -> exists r, r ∈ rows /\ row_of r t n v m).
  { intros v m (r & Hr & Hrow'). exists r. split; [|done]. apply Hin. destruct Hrow' as (? & ? & ? & ? & ? & Hl & ?).
    split_and!; try done. by rewrite Hl. }
  split; [|done]. unfold len. rewrite <- (length_map kr_version). apply ascending_contiguous.
  - assert (StronglySorted (fun a b => a.(kr_version) <= b.(kr_version)) rows) as Hsr by by apply StronglySorted_filter.
    clear -Hsr. induction Hsr as [|x k Hk IH Hx]; cbn; constructor; [done|]. by apply Forall_map.
  - assert (NoDup rows) as Hnd.
    { unfold rows. apply NoDup_filter. rewrite Hp. apply NoDup_filter. by apply (NoDup_fmap_1 kr_id), (to_ids _ Ht). }
    apply NoDup_fmap_2_strong; [|done]. intros r r' Hr Hr' Heq. apply Hin in Hr, Hr'.
    destruct Hr as (? & ? & _ & ? & _), Hr' as (? & ? & _ & ? & _). apply (to_unique _ Ht); congruence.
  - intros z (r & -> & Hr)%list_elem_of_fmap. destruct (Hrow r Hr) as (_ & v & m & _ & _ & _ & -> & Hv & _). lia.
  - intros z (r & -> & Hr)%list_elem_of_fmap Hz. destruct (Hrow r Hr) as (Hr' & v & m & Hrow').
    pose proof Hrow' as (_ & _ & _ & Hver & _). destruct (to_pred _ Ht t n v m) as [m' Hm'].
    { by exists r. } { lia. }
    destruct (Hall _ _ Hm') as (r' & Hr2 & (_ & _ & _ & Hver' & _)). apply list_elem_of_fmap. exists r'. split; [lia|done].
Qed.

Lemma row_opens r t n v m : row_of r t n v m ->
  Z.to_N (as_u32 r.(kr_version)) = v /\ material_of t n r = m /\ opens t n r.
Proof.
  intros (_ & _ & _ & Hv & Hb & _ & Hm). assert (Z.to_N (as_u32 r.(kr_version)) = v) as He.
  { rewrite Hv, as_u32_small by lia. lia. }
  unfold material_of, opens. rewrite He, Hm. split_and!; [done|done|by eexists].
Qed.

Section Load.
Context (now : Z) (db : KeyDb) (l : list KeyRow).
Hypothesis Ht : table_ok db.
Hypothesis Hs : StronglySorted (fun a b => a.(kr_version) <= b.(kr_version)) l.
Hypothesis Hp : l ≡ₚ filter (fun r => r.(kr_purpose) = "transit" /\ loadable r) db.(kdb_rows).

Let c : key_map := fold_left (load_row root now) (entry_of_row <$> l) ∅.

Lemma loaded_lookup t n : c !! (t, n) =
  match filter (belongs t n) l with [] => None | rows => Some (fold_left (add_row t n) rows (blank now n)) end.
Proof.
  destruct (key_rows db l t n Ht Hs Hp) as (_ & Hrow & _). unfold c. rewrite load_lookup, filter_opens.
  - by destruct (filter _ l).
  - intros r Hr Hb. destruct (Hrow r) as (_ & v & m & Hro); [by apply list_elem_of_filter|]. by eapply row_opens.
Qed.

Lemma loaded_key t n key : c !! (t, n) = Some key -> let rows := filter (belongs t n) l in
  key.(k_name) = n /\ key.(current_version) = N.of_nat (length rows) /\ (0 < length rows)%nat /\
  key.(k_versions) = map (fun r => {| kv_version := Z.to_N (as_u32 r.(kr_version)); kv_material := material_of t n r |}) rows.
Proof.
  intros Hk rows. rewrite loaded_lookup in Hk. fold rows in Hk.
  destruct (key_rows db l t n Ht Hs Hp) as (Hseq & Hrow & _). fold rows in Hseq, Hrow.
  assert (Some (fold_left (add_row t n) rows (blank now n)) = Some key /\ (0 < length rows)%nat) as [[= <-] Hlt].
  { destruct rows; [done|]. split; [done|cbn; lia]. }
  destruct (add_rows_versions t n rows (blank now n)) as [-> ->]. split; [done|]. split; [|done].
  rewrite add_rows_current; [done|done|]. intros r Hr. destruct (Hrow r Hr) as (_ & v & m & _ & _ & _ & -> & Hv & _). lia.
Qed.

Lemma row_at t n i r : filter (belongs t n) l !! i = Some r ->
  exists m, row_of r t n (N.of_nat (S i)) m /\ r ∈ db.(kdb_rows).
Proof.
  intros Hi. destruct (key_rows db l t n Ht Hs Hp) as (Hseq & Hrow & _).
  destruct (Hrow r) as (Hr & v & m & Hro); [by eapply list_elem_of_lookup_2|]. exists m. split; [|done].
  assert (map kr_version (filter (belongs t n) l) !! i = Some r.(kr_version)) as Hv by (by rewrite list_lookup_fmap, Hi).
  rewrite Hseq in Hv. apply lookup_seqZ in Hv as [Hv _]. pose proof Hro as (_ & _ & _ & Hver & _).
  by replace (N.of_nat (S i)) with v by lia.
Qed.

Lemma loaded_version t n key i kv : c !! (t, n) = Some key -> key.(k_versions) !! i = Some kv ->
  kv.(kv_version) = N.of_nat (S i) /\ is_row db t n (N.of_nat (S i)) kv.(kv_material) /\ (N.of_nat (S i) < 2 ^ 31)%N.
Proof.
  intros Hk Hi. destruct (loaded_key t n key Hk) as (_ & _ & _ & Hvs). rewrite Hvs in Hi.
  apply list_lookup_fmap_Some in Hi as (r & -> & Hi). destruct (row_at t n i r Hi) as (m & Hro & Hr).
  destruct (row_opens _ _ _ _ _ Hro) as (Hv & Hm & _). cbn. rewrite Hv, Hm. split; [done|]. split; [by exists r|].
  by destruct Hro as (_ & _ & _ & _ & [_ Hb] & _).
Qed.

Lemma loaded_ok : cache_ok db c.
Proof.
  intros t n key Hk. destruct (loaded_key t n key Hk) as (Hn & Hcur & Hlt & Hvs).
  assert (Hlen : length key.(k_versions) = length (filter (belongs t n) l)) by (by rewrite Hvs, length_map).
  split; [done|]. split; [|intros i kv Hi; by eapply loaded_version]. unfold key_wf. rewrite Hcur, Hlen.
  split; [|split; [lia|intros i kv Hi; by eapply loaded_version]]. split; [lia|].
  destruct (lookup_lt_is_Some_2 key.(k_versions) (pred (length (filter (belongs t n) l)))) as [kv Hkv]; [lia|].
  destruct (loaded_version _ _ _ _ _ Hk Hkv) as (_ & _ & Hb). unfold Dec.U32_MAX. lia.
Qed.

Lemma loaded_all t n v m : is_row db t n v m -> exists key, c !! (t, n) = Some key /\ material_for_version key v = Some m.
Proof.
  intros Hrow. destruct (key_rows db l t n Ht Hs Hp) as (_ & _ & Hall).
  destruct (Hall v m Hrow) as (r & [i Hi]%list_elem_of_lookup_1 & Hro). destruct (row_at t n i r Hi) as (m' & Hro' & _).
  assert (v = N.of_nat (S i)) as -> by (destruct Hro as (_&_&_&?&_), Hro' as (_&_&_&?&_); lia).
  assert (exists key, c !! (t, n) = Some key) as [key Hk].
  { rewrite loaded_lookup. destruct (filter _ l); [done|by eexists]. }
  exists key. split; [done|]. destruct (loaded_key t n key Hk) as (_ & _ & _ & Hvs).
  unfold material_for_version, version_index. rewrite Hvs.
  replace (N.to_nat (N.pred (N.of_nat (S i)))) with i by lia. rewrite list_lookup_fmap, Hi. cbn.
  by destruct (row_opens _ _ _ _ _ Hro) as (_ & -> & _).
Qed.

End Load.

(** A load gives every key of the table with all its versions, each in its place. *)
Lemma load_spec now db c :
  table_ok db -> len db.(kdb_rows) <= I64_MAX -> load_from_pg None root now db = Ok c ->
  cache_ok db c /\
  (forall t n v m, is_row db t n v m -> exists key, c !! (t, n) = Some key /\ material_for_version key v = Some m).
Proof.
  intros Ht Hlen. unfold load_from_pg. destruct (loaded_rows db Hlen) as (l & -> & Hs & Hp). cbn [mbind result_bind].
  intros [= <-]. split; [by apply loaded_ok|]. intros t n v m. by apply loaded_all.
Qed.

(** ** Damaged rows *)

Lemma add_rows_max t n rows key : (key.(current_version) <= (fold_left (add_row t n) rows key).(current_version))%N /\
  forall r, r ∈ rows -> (Z.to_N (as_u32 r.(kr_version)) <= (fold_left (add_row t n) rows key).(current_version))%N.
Proof.
  revert key. induction rows as [|x rows IH]; intros key; cbn [fold_left]; [split; [lia|set_solver]|].
  destruct (IH (add_row t n key x)) as [Hle Hin]. cbn in Hle. split; [lia|].
  intros r [->|Hr]%elem_of_cons; [lia|by apply Hin].
Qed.

(** A damaged version breaks its key: when the row of an old version no longer opens
    and the newest does, the load succeeds, and from then on every encryption under
    the key panics, the index of the newest version being out of range. *)
Theorem damaged_version_breaks_key db now c t n m bad top :
  ids_unique db -> len db.(kdb_rows) <= I64_MAX -> (m < 2 ^ 31)%N ->
  let key_row r := r ∈ db.(kdb_rows) /\ r.(kr_purpose) = "transit" /\ loadable r = true /\ belongs t n r in
  (forall r, key_row r -> 1 <= r.(kr_version) <= Z.of_N m) ->
  (forall r r', key_row r -> key_row r' -> r.(kr_version) = r'.(kr_version) -> r = r') ->
  key_row bad -> ~ opens t n bad -> key_row top -> opens t n top -> top.(kr_version) = Z.of_N m ->
  load_from_pg None root now db = Ok c ->
  exists key, get_key c t n = Ok key /\ forall rng pt, encrypt rng key pt = None.
Proof.
  intros Hids Hlen Hm key_row Hrange Huniq Hbad Hno Htop Hyes Hv. unfold load_from_pg.
  destruct (loaded_rows db Hlen) as (l & -> & _ & Hp). cbn [mbind result_bind]. intros [= <-].
  set (rows := filter (fun r => belongs t n r /\ opens t n r) l).
  assert (Hin : forall r, r ∈ rows <-> key_row r /\ opens t n r).
  { intros r. unfold rows, key_row. rewrite list_elem_of_filter, Hp, list_elem_of_filter, Is_true_true. tauto. }
  assert (S (length rows) <= N.to_nat m)%nat as Hshort.
  { rewrite <- (length_map kr_version). replace (N.to_nat m) with (length (seqZ 1 (Z.of_N m))) by (rewrite length_seqZ; lia).
    change (length (bad.(kr_version) :: map kr_version rows) <= length (seqZ 1 (Z.of_N m)))%nat.
    apply submseteq_length, NoDup_submseteq.
    - apply NoDup_cons. split.
      + intros (r & Heq & [Hr Ho]%Hin)%list_elem_of_fmap. apply Hno. by rewrite (Huniq bad r).
      + apply NoDup_fmap_2_strong.
        * intros r r' [Hr _]%Hin [Hr' _]%Hin. by apply Huniq.
        * unfold rows. apply NoDup_filter. rewrite Hp. by apply NoDup_filter, (NoDup_fmap_1 kr_id).
    - intros z [->|(r & -> & [Hr _]%Hin)%list_elem_of_fmap]%elem_of_cons; apply elem_of_seqZ.
      + specialize (Hrange bad Hbad). lia.
      + specialize (Hrange r Hr). lia. }
  assert (Htr : top ∈ rows) by (by apply Hin).
  exists (fold_left (add_row t n) rows (blank now n)). split.
  - unfold get_key. rewrite load_lookup. fold rows. by destruct rows; [apply not_elem_of_nil in Htr|].
  - intros rng pt. unfold encrypt, current_material, version_index.
    destruct (add_rows_versions t n rows (blank now n)) as [_ ->]. destruct (add_rows_max t n rows (blank now n)) as [_ Hmax].
    specialize (Hmax top Htr). rewrite Hv, as_u32_small in Hmax by lia.
    rewrite lookup_ge_None_2; [done|]. cbn. rewrite length_map. lia.
Qed.

End Stored.

(** ** Processes over one table *)

(** A request under way in a process. *)
Record Request := { rq_process : string; rq_draw : Draw; rq_tenant : string; rq_name : string; rq_at : Flight }.

Record World := {
  w_db : KeyDb;
  w_caches : gmap string key_map;
  w_flights : gmap nat Request;
}.

Definition moved (r : Request) (f : Flight) : Request :=
  {| rq_process := r.(rq_process); rq_draw := r.(rq_draw); rq_tenant := r.(rq_tenant); rq_name := r.(rq_name); rq_at := f |}.

Section Processes.
Context `{Primitives, SqlText, Uuids} (sha256 : string -> string) (root : string).

(** A tenant in the text PostgreSQL gives back, drawn values of the right length. *)
Definition admissible (r : Request) : Prop :=
  uuid_parse r.(rq_tenant) = Ok r.(rq_tenant) /\ String.length r.(rq_draw).(dr_material) = 32%nat /\
  (forall x, r.(rq_draw).(dr_nonce) = Some x -> String.length x = AES_GCM_NONCE_LEN).

(** Versions fit the column. *)
Definition in_range (f : Flight) : Prop := match f with FRotate v => (v < 2 ^ 31)%N | _ => True end.

Definition transit_rows (db : KeyDb) : list KeyRow := filter (fun r => r.(kr_purpose) = "transit") db.(kdb_rows).

Inductive world_step : World -> World -> Prop :=
| step_arrive w k r c :
    w.(w_flights) !! k = None -> w.(w_caches) !! r.(rq_process) = Some c -> admissible r -> in_range r.(rq_at) ->
    (create_check c r.(rq_tenant) r.(rq_name) = Ok r.(rq_at) \/ rotate_read c r.(rq_tenant) r.(rq_name) = Ok r.(rq_at)) ->
    world_step w {| w_db := w.(w_db); w_caches := w.(w_caches); w_flights := <[k := r]> w.(w_flights) |}
| step_move w k r c f db c' :
    w.(w_flights) !! k = Some r -> w.(w_caches) !! r.(rq_process) = Some c ->
    advance sha256 root r.(rq_draw) r.(rq_tenant) r.(rq_name) r.(rq_at) w.(w_db) c = (f, db, c') ->
    world_step w {| w_db := db; w_caches := <[r.(rq_process) := c']> w.(w_caches);
                    w_flights := match f with
                                 | inl f => <[k := moved r f]> w.(w_flights)
                                 | inr _ => delete k w.(w_flights)
                                 end |}
| step_restart w p now c :
    load_from_pg None root now w.(w_db) = Ok c -> len w.(w_db).(kdb_rows) <= I64_MAX ->
    world_step w {| w_db := w.(w_db); w_caches := <[p := c]> w.(w_caches);
                    w_flights := filter (fun e => e.2.(rq_process) <> p) w.(w_flights) |}
| step_others w db :
    transit_rows db = transit_rows w.(w_db) -> ids_unique db ->
    world_step w {| w_db := db; w_caches := w.(w_caches); w_flights := w.(w_flights) |}.

(** Whether the row of a request is written and not yet cached. *)
Definition written (f : Flight) : bool := match f with FCreated | FRotated _ => true | _ => false end.

Definition flight_ok (db : KeyDb) (c : key_map) (r : Request) : Prop :=
  match r.(rq_at) with
  | FCreate => True
  | FCreated => c !! (r.(rq_tenant), r.(rq_name)) = None /\
                is_row root db r.(rq_tenant) r.(rq_name) 1 r.(rq_draw).(dr_material)
  | FRotate v | FRetire v _ | FInsert v =>
      exists key, c !! (r.(rq_tenant), r.(rq_name)) = Some key /\ (2 <= v < 2 ^ 31)%N /\ (v <= key.(current_version) + 1)%N
  | FRotated v => exists key, c !! (r.(rq_tenant), r.(rq_name)) = Some key /\ v = (key.(current_version) + 1)%N /\
                  is_row root db r.(rq_tenant) r.(rq_name) v r.(rq_draw).(dr_material)
  end.

Record world_ok (w : World) : Prop := {
  wo_table : table_ok root w.(w_db);
  wo_caches : forall p c, w.(w_caches) !! p = Some c -> cache_ok root w.(w_db) c;
  wo_flights : forall k r, w.(w_flights) !! k = Some r -> admissible r /\
    exists c, w.(w_caches) !! r.(rq_process) = Some c /\ flight_ok w.(w_db) c r;
  wo_alone : forall k k' r r', w.(w_flights) !! k = Some r -> w.(w_flights) !! k' = Some r' ->
    r.(rq_process) = r'.(rq_process) -> (r.(rq_tenant), r.(rq_name)) = (r'.(rq_tenant), r'.(rq_name)) ->
    written r.(rq_at) = true -> written r'.(rq_at) = true -> k = k';
}.

Lemma flight_ok_mono db db' c r : keeps_rows root db db' -> flight_ok db c r -> flight_ok db' c r.
Proof. intros Hk. unfold flight_ok. destruct (rq_at r); naive_solver. Qed.

(** ** Statements and the table *)

Lemma is_row_rows db db' t n v m : transit_rows db' = transit_rows db -> is_row root db t n v m -> is_row root db' t n v m.
Proof.
  intros He (r & Hr & Hro). exists r. split; [|done]. assert (r ∈ transit_rows db') as Hin.
  { rewrite He. apply list_elem_of_filter. split; [apply Hro|done]. }
  by apply list_elem_of_filter in Hin as [_ Hin].
Qed.

Lemma other_rows_ok db db' : transit_rows db' = transit_rows db -> ids_unique db' -> table_ok root db -> table_ok root db'.
Proof.
  intros He Hu Ht.
  assert (Hin : forall r, r ∈ db'.(kdb_rows) -> r.(kr_purpose) = "transit" -> r ∈ db.(kdb_rows)).
  { intros r Hr Hp. assert (r ∈ transit_rows db) as [_ ?]%list_elem_of_filter; [|done].
    rewrite <- He. by apply list_elem_of_filter. }
  split; [done|..].
  - intros r Hr Hp. by apply (to_rows _ _ Ht); [apply Hin|].
  - intros r r' Hr Hr' Hp Hp'. apply (to_unique _ _ Ht); auto.
  - intros t n v m Hro Hv. apply (is_row_rows db' db) in Hro; [|done]. destruct (to_pred _ _ Ht _ _ _ _ Hro Hv) as [m' Hm'].
    exists m'. by apply (is_row_rows db).
Qed.

(** Retiring a row leaves it loadable. *)
Lemma set_state_row now id r t n v m : row_of root r t n v m -> row_of root (set_state now id RotatingOut r) t n v m.
Proof. unfold set_state. case_bool_decide; [|done]. intros (Hp & Ht & Hn & Hv & Hb & _ & Hm). split_and!; first [done|apply Hb]. Qed.

Lemma set_state_same now id r :
  let r' := set_state now id RotatingOut r in
  r'.(kr_purpose) = r.(kr_purpose) /\ r'.(kr_tenant_id) = r.(kr_tenant_id) /\ r'.(kr_version) = r.(kr_version) /\
  r'.(kr_key_name) = r.(kr_key_name) /\ r'.(kr_wrapped_key) = r.(kr_wrapped_key).
Proof. unfold set_state. by case_bool_decide. Qed.

Section Retire.
Context (now : Z) (id : string) (db : KeyDb).
Hypothesis Ht : table_ok root db.

Let db' := with_rows db (set_state now id RotatingOut <$> db.(kdb_rows)).

Lemma retire_keeps : keeps_rows root db db'.
Proof.
  intros t n v m (r & Hr & Hro). exists (set_state now id RotatingOut r). split; [|by apply set_state_row].
  apply list_elem_of_fmap. by exists r.
Qed.

Lemma retire_back t n v m : is_row root db' t n v m -> is_row root db t n v m.
Proof.
  intros (r' & (r & -> & Hr)%list_elem_of_fmap & Hp & Htn & Hn & Hv & Hb & _ & Hm). exists r. split; [done|].
  destruct (set_state_same now id r) as (Ep & Et & Ev & En & Ew). rewrite Ep in Hp.
  destruct (to_rows _ _ Ht r Hr Hp) as (t0 & n0 & v0 & m0 & Hro). pose proof Hro as (_ & Ht0 & Hn0 & Hv0 & _ & _ & Hm0).
  assert (t0 = t) as -> by congruence. assert (n0 = n) as -> by congruence. assert (v0 = v) as -> by (apply N2Z.inj; congruence).
  rewrite Ew, Hm0 in Hm. by injection Hm as ->.
Qed.

Lemma retire_ok : table_ok root db'.
Proof.
  split.
  - by apply (update_ids_unique None now db id RotatingOut db'), eq_refl; apply (to_ids _ _ Ht).
  - intros r' (r & -> & Hr)%list_elem_of_fmap Hp. destruct (set_state_same now id r) as (Ep & _). rewrite Ep in Hp.
    destruct (to_rows _ _ Ht r Hr Hp) as (t & n & v & m & Hro). exists t, n, v, m. by apply set_state_row.
  - intros r1' r2' (r1 & -> & Hr1)%list_elem_of_fmap (r2 & -> & Hr2)%list_elem_of_fmap.
    destruct (set_state_same now id r1) as (-> & -> & -> & _), (set_state_same now id r2) as (-> & -> & -> & _).
    intros. f_equal. by apply (to_unique _ _ Ht).
  - intros t n v m Hro%retire_back Hv. destruct (to_pred _ _ Ht _ _ _ _ Hro Hv) as [m' Hm']. exists m'. by apply retire_keeps.
Qed.

End Retire.

Section Insert.
Context (db : KeyDb) (row : KeyRow) (t n : string) (v : N) (m : string).
Hypothesis Ht : table_ok root db.
Hypothesis Hrow : row_of root row t n v m.
Hypothesis Hfree : violated db row = None.

Let db' := with_rows db (db.(kdb_rows) ++ [row]).

Lemma insert_keeps : keeps_rows root db db'.
Proof. intros t' n' v' m' (r & Hr & Hro). exists r. split; [|done]. apply elem_of_app. by left. Qed.

(** The unique index: no transit key of the tenant has this version yet. *)
Lemma insert_free r : r ∈ db.(kdb_rows) -> r.(kr_purpose) = "transit" -> r.(kr_tenant_id) = Some t ->
  r.(kr_version) <> Z.of_N v.
Proof.
  intros Hr Hp Htn Hv. unfold violated in Hfree. case_bool_decide; [done|].
  destruct (existsb (same_kek_version row) (kdb_rows db)) eqn:He; [done|].
  assert (existsb (same_kek_version row) (kdb_rows db) = true) as Hx; [|congruence].
  apply existsb_exists. exists r. split; [by apply list_elem_of_In|]. destruct Hrow as (Hp' & Ht' & _ & Hv' & _).
  unfold same_kek_version. rewrite Hp', Hp, Ht', Htn, Hv', Hv. rewrite !bool_decide_eq_true_2 by (done || by eexists).
  rewrite Z.eqb_refl. done.
Qed.

Lemma insert_new_version n' m' : ~ is_row root db t n' v m'.
Proof. intros (r & Hr & Hp & Htn & _ & Hv & _). by eapply insert_free. Qed.

Lemma transit_insert_row : is_row root db' t n v m.
Proof. exists row. split; [|done]. apply elem_of_app. right. by apply list_elem_of_singleton. Qed.

Lemma insert_ok : (v = 1%N \/ exists m', is_row root db t n (v - 1) m') -> table_ok root db'.
Proof.
  intros Hpred. split.
  - unfold ids_unique. cbn. rewrite fmap_app. apply NoDup_app. split; [apply (to_ids _ _ Ht)|]. split; [|apply NoDup_singleton].
    intros x Hx ->%list_elem_of_singleton. by apply violated_none_id in Hfree.
  - intros r [Hr| ->%list_elem_of_singleton]%elem_of_app Hp; [by apply (to_rows _ _ Ht)|]. by exists t, n, v, m.
  - destruct Hrow as (Hp' & Ht' & _ & Hv' & _).
    intros r r' [Hr| ->%list_elem_of_singleton]%elem_of_app [Hr2| ->%list_elem_of_singleton]%elem_of_app Hp Hp2 Htn Hv; [| | |done].
    + by apply (to_unique _ _ Ht).
    + exfalso. by apply (insert_free r); congruence.
    + exfalso. by apply (insert_free r'); congruence.
  - intros t' n' v' m' (r & [Hr| ->%list_elem_of_singleton]%elem_of_app & Hro) Hv.
    + destruct (to_pred _ _ Ht t' n' v' m') as [m2 Hm2]; [by exists r|done|]. exists m2. by apply insert_keeps.
    + destruct Hro as (_ & Ht2 & Hn2 & Hv2 & _), Hrow as (_ & Ht1 & Hn1 & Hv1 & _).
      assert (t' = t) as -> by congruence. assert (n' = n) as -> by congruence. assert (v' = v) as -> by lia.
      destruct Hpred as [->|[m2 Hm2]]; [lia|]. exists m2. by apply insert_keeps.
Qed.

End Insert.
(** ** The invariant *)

Section Invariant.
Context `{!PrimitiveLaws}.

Lemma as_i32_small z : 0 <= z < 2 ^ 31 -> as_i32 z = z.
Proof. intros Hz. unfold as_i32. rewrite Z.mod_small; lia. Qed.

Lemma wrapped_opens rng t n v material w :
  (forall x, rng = Some x -> String.length x = AES_GCM_NONCE_LEN) -> String.length material = 32%nat ->
  wrap_material rng root t n v material = Ok w -> unwrap_material root t n v w = Ok material.
Proof.
  intros Hrng Hlen. unfold wrap_material, unwrap_material.
  destruct (encrypt_with_dek _ _ _ _) as [env|] eqn:He; [|done]. cbn [mbind result_bind]. intros [= <-].
  rewrite (envelope_round_trip _ _ _ _ _ Hrng He). cbn [mbind result_bind]. by rewrite bool_decide_eq_true_2.
Qed.

(** A version is written whole or not at all. *)
Lemma insert_version_cases r db v res db' :
  admissible r -> (1 <= v < 2 ^ 31)%N ->
  insert_version sha256 root r.(rq_draw) db r.(rq_tenant) r.(rq_name) v = (res, db') ->
  (db' = db /\ res <> Ok tt) \/
  exists row, row_of root row r.(rq_tenant) r.(rq_name) v r.(rq_draw).(dr_material) /\ violated db row = None /\
    db' = with_rows db (db.(kdb_rows) ++ [row]) /\ row.(kr_state) = "active".
Proof.
  intros (Hcan & Hlen & Hrng) Hv. unfold insert_version.
  destruct (wrap_material _ _ _ _ _ _) as [w|] eqn:Hw; [|intros [= <- <-]; by left].
  apply wrapped_opens in Hw; [|done|done]. unfold insert_named_key_descriptor, sql.
  match goal with |- context [violated db ?x] => set (row := x) end.
  assert (Hrow : row_of root row r.(rq_tenant) r.(rq_name) v r.(rq_draw).(dr_material)).
  { unfold row, row_of. cbn. unfold tenant_id_to_uuid. rewrite Hcan. cbn. rewrite Hcan. cbn.
    rewrite as_i32_small by lia. split_and!; first [done|lia]. }
  destruct (violated db row) eqn:Hviol; unfold write.
  - destruct (dr_insert _) as [[e [|]]|]; intros [= <- <-]; by left.
  - destruct (dr_insert _) as [[e [|]]|]; intros [= <- <-]; [right; by exists row|by left|right; by exists row].
Qed.

Lemma write_cases io db (s : KeyDb) res db' : write io db (Ok s) = (res, db') -> db' = s \/ (db' = db /\ res <> Ok tt).
Proof. unfold write. destruct io as [[e [|]]|]; intros [= <- <-]; auto. Qed.

(** What a phase has to establish. *)
Record phase_ok (w : World) (k : nat) (r : Request) (c : key_map) (f : Flight + vresult N) (db : KeyDb) (c' : key_map) : Prop := {
  ph_table : table_ok root db;
  ph_keeps : keeps_rows root w.(w_db) db;
  ph_cache : cache_ok root db c';
  ph_others : forall k' r', k' <> k -> w.(w_flights) !! k' = Some r' -> r'.(rq_process) = r.(rq_process) ->
    flight_ok w.(w_db) c r' -> flight_ok w.(w_db) c' r';
  ph_next : forall f', f = inl f' -> flight_ok db c' (moved r f') /\
    (written f' = true -> forall k' r', k' <> k -> w.(w_flights) !! k' = Some r' -> r'.(rq_process) = r.(rq_process) ->
     (r'.(rq_tenant), r'.(rq_name)) = (r.(rq_tenant), r.(rq_name)) -> written r'.(rq_at) = false);
}.

Lemma move_ok w k r c f db c' :
  world_ok w -> w.(w_flights) !! k = Some r -> phase_ok w k r c f db c' -> w.(w_caches) !! r.(rq_process) = Some c ->
  world_ok {| w_db := db; w_caches := <[r.(rq_process) := c']> w.(w_caches);
              w_flights := match f with inl f => <[k := moved r f]> w.(w_flights) | inr _ => delete k w.(w_flights) end |}.
Proof.
  intros Hw Hk [Htab Hkeep Hc' Hoth Hnext] Hc.
  assert (Hold : forall k' r', k' <> k -> w.(w_flights) !! k' = Some r' -> admissible r' /\
    exists c2, <[r.(rq_process) := c']> w.(w_caches) !! r'.(rq_process) = Some c2 /\ flight_ok db c2 r').
  { intros k' r' Hne Hr'. destruct (wo_flights _ Hw k' r' Hr') as (Ha & c2 & Hc2 & Hf). split; [done|].
    destruct (decide (r'.(rq_process) = r.(rq_process))) as [He|He].
    - exists c'. rewrite He, lookup_insert_eq. split; [done|]. rewrite He, Hc in Hc2. injection Hc2 as <-.
      apply (flight_ok_mono w.(w_db)); [done|]. by apply (Hoth k').
    - exists c2. rewrite lookup_insert_ne by done. split; [done|]. by apply (flight_ok_mono w.(w_db)). }
  assert (Hcur : forall f', f = inl f' -> admissible (moved r f') /\
    exists c2, <[r.(rq_process) := c']> w.(w_caches) !! (moved r f').(rq_process) = Some c2 /\ flight_ok db c2 (moved r f')).
  { intros f' ->. destruct (wo_flights _ Hw k r Hk) as (Ha & _). split; [exact Ha|]. exists c'. cbn.
    rewrite lookup_insert_eq. split; [done|]. by apply Hnext. }
  split; cbn; [done|..].
  - intros p c2 [[<- <-]|[Hne Hc2]]%lookup_insert_Some; [done|]. by eapply cache_ok_mono, (wo_caches _ Hw).
  - intros k' r'. destruct f as [f'|a].
    + intros [[<- <-]|[Hne Hr']]%lookup_insert_Some; [by apply Hcur|by apply (Hold k')].
    + intros [Hne Hr']%lookup_delete_Some. by apply (Hold k').
  - intros k1 k2 r1 r2. destruct f as [f'|a].
    + destruct (Hnext f' eq_refl) as [_ Hex].
      intros [[<- <-]|[Hne1 Hr1]]%lookup_insert_Some [[<- <-]|[Hne2 Hr2]]%lookup_insert_Some; cbn; intros Hp Hkey Hw1 Hw2.
      * done.
      * by rewrite (Hex Hw1 k2 r2) in Hw2.
      * by rewrite (Hex Hw2 k1 r1) in Hw1.
      * by eapply (wo_alone _ Hw).
    + intros [_ Hr1]%lookup_delete_Some [_ Hr2]%lookup_delete_Some. by eapply (wo_alone _ Hw).
Qed.

(** A phase that leaves the cache and moves the request on without a row. *)
Lemma quiet_phase w k r c f db :
  world_ok w -> w.(w_caches) !! r.(rq_process) = Some c -> table_ok root db -> keeps_rows root w.(w_db) db ->
  (forall f', f = inl f' -> flight_ok db c (moved r f') /\ written f' = false) -> phase_ok w k r c f db c.
Proof.
  intros Hw Hc Ht Hk Hf. split; [done|done| |done|].
  - by eapply cache_ok_mono, (wo_caches _ Hw).
  - intros f' ->. destruct (Hf f' eq_refl) as [Hok Hn]. split; [done|]. by rewrite Hn.
Qed.

Section Phases.
Context (w : World) (k : nat) (r : Request) (c : key_map).
Hypothesis Hw : world_ok w.
Hypothesis Hk : w.(w_flights) !! k = Some r.
Hypothesis Hc : w.(w_caches) !! r.(rq_process) = Some c.

Abbreviation t := (r.(rq_tenant)).
Abbreviation n := (r.(rq_name)).

Lemma phase_flight : admissible r /\ flight_ok w.(w_db) c r.
Proof. destruct (wo_flights _ Hw k r Hk) as (Ha & c2 & Hc2 & Hf). rewrite Hc in Hc2. by injection Hc2 as <-. Qed.

Lemma other_flight k' r' : w.(w_flights) !! k' = Some r' -> r'.(rq_process) = r.(rq_process) -> flight_ok w.(w_db) c r'.
Proof.
  intros Hr' Hp. destruct (wo_flights _ Hw k' r' Hr') as (_ & c2 & Hc2 & Hf). rewrite Hp, Hc in Hc2. by injection Hc2 as <-.
Qed.

(** A new row: no other request of the process is between its row and the cache. *)
Lemma new_row_phase row v f :
  row_of root row t n v r.(rq_draw).(dr_material) -> violated w.(w_db) row = None ->
  (v = 1%N \/ exists m, is_row root w.(w_db) t n (v - 1) m) ->
  let db := with_rows w.(w_db) (w.(w_db).(kdb_rows) ++ [row]) in
  (forall f', f = inl f' -> flight_ok db c (moved r f')) ->
  (forall key, c !! (t, n) = Some key -> v = (key.(current_version) + 1)%N) -> (c !! (t, n) = None -> v = 1%N) ->
  phase_ok w k r c f db c.
Proof.
  intros Hrow Hfree Hpred db Hf Hsome Hnone. pose proof (wo_table _ Hw) as Ht. split.
  - by eapply insert_ok.
  - by apply insert_keeps.
  - eapply cache_ok_mono; [by apply insert_keeps|by apply (wo_caches _ Hw r.(rq_process))].
  - done.
  - intros f' He. split; [by apply Hf|]. intros _ k' r' _ Hr' Hp [= Ht' Hn'].
    pose proof (other_flight k' r' Hr' Hp) as Hfl. unfold flight_ok in Hfl. rewrite Ht', Hn' in Hfl.
    destruct (rq_at r') as [| | | | |v'] eqn:Hat; try done; exfalso.
    + destruct Hfl as [Hcn Hro]. rewrite (Hnone Hcn) in *. by eapply insert_new_version in Hfree.
    + destruct Hfl as (key & Hkey & -> & Hro). rewrite (Hsome key Hkey) in *. by eapply insert_new_version in Hfree.
Qed.

Lemma create_phase f db c' : r.(rq_at) = FCreate ->
  advance sha256 root r.(rq_draw) t n r.(rq_at) w.(w_db) c = (f, db, c') -> phase_ok w k r c f db c'.
Proof.
  intros Hat. rewrite Hat. cbn [advance]. destruct phase_flight as [Ha _].
  destruct (insert_version _ _ _ _ _ _ 1) as [res db1] eqn:Hi.
  apply insert_version_cases in Hi as [[-> Hne]|(row & Hrow & Hfree & -> & _)]; [| |done|lia].
  - destruct res as [[]|]; [done|]. intros [= <- <- <-]. apply quiet_phase; try done. apply (wo_table _ Hw).
  - assert (Hnone : c !! (t, n) = None).
    { destruct (c !! (t, n)) as [key|] eqn:Hkey; [|done]. exfalso.
      destruct (cached_version root w.(w_db) c t n key 1) as [m Hm]; [by apply (wo_caches _ Hw r.(rq_process))|done| |].
      - destruct (wo_caches _ Hw _ _ Hc t n key Hkey) as (_ & ((? & ?) & _) & _). lia.
      - by eapply insert_new_version in Hm. }
    destruct res; intros [= <- <- <-]; apply (new_row_phase row 1); try done; try (by left); try congruence.
    intros f' [= <-]. split; [done|]. by apply transit_insert_row.
Qed.

Lemma created_phase f db c' : r.(rq_at) = FCreated ->
  advance sha256 root r.(rq_draw) t n r.(rq_at) w.(w_db) c = (f, db, c') -> phase_ok w k r c f db c'.
Proof.
  intros Hat. rewrite Hat. intros [= <- <- <-]. destruct phase_flight as [_ Hf]. unfold flight_ok in Hf. rewrite Hat in Hf.
  destruct Hf as [Hnone Hro]. split; [apply (wo_table _ Hw)|done| | |done].
  - intros t' n' key [[[= <- <-] <-]|[_ Hkey]]%lookup_insert_Some; [|by apply (wo_caches _ Hw _ _ Hc)].
    split; [done|]. split.
    + split; [by vm_compute|]. split; [done|]. intros i kv [-> <-]%list_lookup_singleton_Some. done.
    + intros i kv [-> <-]%list_lookup_singleton_Some. done.
  - intros k' r' Hne Hr' Hp Hfl. destruct (decide ((r'.(rq_tenant), r'.(rq_name)) = (t, n))) as [He|He].
    + unfold flight_ok in *. destruct (rq_at r') eqn:Hat'; [done| |..];
        [|injection He as Et En; rewrite Et, En, Hnone in Hfl; by destruct Hfl as (? & ? & _)..].
      exfalso. apply Hne. by eapply (wo_alone _ Hw); [exact Hr'|exact Hk|done|congruence|rewrite Hat'|rewrite Hat].
    + unfold flight_ok in *. destruct (rq_at r'); rewrite ?lookup_insert_ne by congruence; done.
Qed.

Lemma rotate_phase v f db c' : r.(rq_at) = FRotate v ->
  advance sha256 root r.(rq_draw) t n r.(rq_at) w.(w_db) c = (f, db, c') -> phase_ok w k r c f db c'.
Proof.
  intros Hat. rewrite Hat. cbn [advance]. destruct phase_flight as [_ Hf]. unfold flight_ok in Hf. rewrite Hat in Hf.
  destruct (active_descriptor_id_for _ _ _ _); intros [= <- <- <-]; apply quiet_phase; try done; try apply (wo_table _ Hw).
  by intros f' [= <-].
Qed.

Lemma retire_phase v id f db c' : r.(rq_at) = FRetire v id ->
  advance sha256 root r.(rq_draw) t n r.(rq_at) w.(w_db) c = (f, db, c') -> phase_ok w k r c f db c'.
Proof.
  intros Hat. rewrite Hat. cbn [advance]. destruct phase_flight as [_ Hf]. unfold flight_ok in Hf. rewrite Hat in Hf.
  destruct (write _ _ _) as [res db1] eqn:Hwr. apply write_cases in Hwr.
  assert (table_ok root db1 /\ keeps_rows root w.(w_db) db1) as [Ht1 Hk1].
  { destruct Hwr as [->|[-> _]]; [|split; [apply (wo_table _ Hw)|done]].
    split; [apply retire_ok, (wo_table _ Hw)|apply retire_keeps]. }
  destruct res; intros [= <- <- <-]; apply quiet_phase; try done. by intros f' [= <-].
Qed.

Lemma insert_phase v f db c' : r.(rq_at) = FInsert v ->
  advance sha256 root r.(rq_draw) t n r.(rq_at) w.(w_db) c = (f, db, c') -> phase_ok w k r c f db c'.
Proof.
  intros Hat. rewrite Hat. cbn [advance]. destruct phase_flight as [Ha Hf]. unfold flight_ok in Hf. rewrite Hat in Hf.
  destruct Hf as (key & Hkey & Hv & Hle). destruct (insert_version _ _ _ _ _ _ v) as [res db1] eqn:Hi.
  apply insert_version_cases in Hi as [[-> Hne]|(row & Hrow & Hfree & -> & _)]; [| |done|lia].
  - destruct res as [[]|]; [done|]. intros [= <- <- <-]. apply quiet_phase; try done. apply (wo_table _ Hw).
  - pose proof (wo_caches _ Hw _ _ Hc) as Hco. assert (Hcur : v = (key.(current_version) + 1)%N).
    { destruct (decide (v <= key.(current_version))%N) as [Hin|]; [|lia]. exfalso.
      destruct (cached_version root w.(w_db) c t n key v) as [m Hm]; [done|done|lia|]. by eapply insert_new_version in Hm. }
    assert (exists m, is_row root w.(w_db) t n (v - 1) m) as Hpred by (eapply cached_version; [done|done|lia]).
    destruct res; intros [= <- <- <-]; apply (new_row_phase row v); try done; try (by right); try congruence.
    intros f' [= <-]. exists key. split; [done|]. split; [done|]. by apply transit_insert_row.
Qed.

Lemma rotated_phase v f db c' : r.(rq_at) = FRotated v ->
  advance sha256 root r.(rq_draw) t n r.(rq_at) w.(w_db) c = (f, db, c') -> phase_ok w k r c f db c'.
Proof.
  intros Hat. rewrite Hat. cbn [advance]. destruct phase_flight as [Ha Hf]. unfold flight_ok in Hf. rewrite Hat in Hf.
  destruct Hf as (key & Hkey & -> & Hro). rewrite Hkey. intros [= <- <- <-].
  destruct (wo_caches _ Hw _ _ Hc t n key Hkey) as (Hn & (Hb & Hlen & Hnum) & Hrows).
  split; [apply (wo_table _ Hw)|done| | |done].
  - intros t' n' key' [[[= <- <-] <-]|[_ Hkey']]%lookup_insert_Some; [|by apply (wo_caches _ Hw _ _ Hc)].
    split; [done|]. destruct Hro as (row & Hrow & Hro). split.
    + unfold key_wf. cbn. split; [|split].
      * destruct Hro as (_ & _ & _ & _ & Hv & _). unfold Dec.U32_MAX. lia.
      * rewrite length_app, Hlen. cbn. lia.
      * intros i kv [Hi|[Hi Hx]]%lookup_app_Some; [by apply Hnum|].
        apply list_lookup_singleton_Some in Hx as [Hx <-]. cbn. lia.
    + intros i kv [Hi|[Hi Hx]]%lookup_app_Some; [by apply Hrows|].
      apply list_lookup_singleton_Some in Hx as [Hx <-]. cbn. exists row. split; [done|].
      replace (N.of_nat (S i)) with (current_version key + 1)%N by lia. done.
  - intros k' r' Hne Hr' Hp Hfl. destruct (decide ((r'.(rq_tenant), r'.(rq_name)) = (t, n))) as [He|He].
    + unfold flight_ok in *. injection He as Et En. rewrite Et, En in Hfl |- *.
      rewrite Hkey in Hfl. rewrite lookup_insert_eq.
      destruct (rq_at r') eqn:Hat'; [done|by destruct Hfl| | | |].
      1-3: destruct Hfl as (key2 & [= <-] & Hv & Hle); eexists; split; [done|]; cbn; split; [done|lia].
      exfalso. apply Hne. by eapply (wo_alone _ Hw); [exact Hr'|exact Hk|done|congruence|rewrite Hat'|rewrite Hat].
    + unfold flight_ok in *. destruct (rq_at r'); rewrite ?lookup_insert_ne by congruence; done.
Qed.

End Phases.

Lemma phase_sound w k r c f db c' :
  world_ok w -> w.(w_flights) !! k = Some r -> w.(w_caches) !! r.(rq_process) = Some c ->
  advance sha256 root r.(rq_draw) r.(rq_tenant) r.(rq_name) r.(rq_at) w.(w_db) c = (f, db, c') -> phase_ok w k r c f db c'.
Proof.
  intros Hw Hk Hc Ha. destruct (rq_at r) eqn:Hat; rewrite <- Hat in Ha.
  - by apply create_phase.
  - by apply created_phase.
  - by eapply rotate_phase.
  - by eapply retire_phase.
  - by eapply insert_phase.
  - by eapply rotated_phase.
Qed.

Lemma arrive_ok w k r c :
  world_ok w -> w.(w_flights) !! k = None -> w.(w_caches) !! r.(rq_process) = Some c -> admissible r -> in_range r.(rq_at) ->
  (create_check c r.(rq_tenant) r.(rq_name) = Ok r.(rq_at) \/ rotate_read c r.(rq_tenant) r.(rq_name) = Ok r.(rq_at)) ->
  world_ok {| w_db := w.(w_db); w_caches := w.(w_caches); w_flights := <[k := r]> w.(w_flights) |}.
Proof.
  intros Hw Hk Hc Ha Hr Hfirst.
  assert (flight_ok w.(w_db) c r /\ written r.(rq_at) = false) as [Hf Hn].
  { unfold flight_ok. destruct Hfirst as [Hcc|Hrr].
    - unfold create_check in Hcc. destruct (c !! _); [done|]. by injection Hcc as <-.
    - unfold rotate_read in Hrr. destruct (c !! _) as [key|] eqn:Hkey; [|done]. injection Hrr as Hat.
      rewrite <- Hat in Hr |- *. cbn in Hr. destruct (wo_caches _ Hw _ _ Hc _ _ _ Hkey) as (_ & ((Hlo & _) & _) & _).
      destruct (cached_version root w.(w_db) c r.(rq_tenant) r.(rq_name) key key.(current_version)) as
        (m & row & _ & _ & _ & _ & _ & Hb & _); [by apply (wo_caches _ Hw _ _ Hc)|done|lia|].
      split; [|done]. exists key. split; [done|]. rewrite N.mod_small in Hr |- * by lia. lia. }
  split; cbn; [apply (wo_table _ Hw)|apply (wo_caches _ Hw)|..].
  - intros k' r' [[<- <-]|[_ Hr']]%lookup_insert_Some; [|by apply (wo_flights _ Hw k')]. split; [done|]. by exists c.
  - intros k1 k2 r1 r2 [[<- <-]|[_ Hr1]]%lookup_insert_Some [[<- <-]|[_ Hr2]]%lookup_insert_Some; [done|congruence|congruence|].
    by apply (wo_alone _ Hw).
Qed.

Lemma transit_restart_ok w p now c :
  world_ok w -> len w.(w_db).(kdb_rows) <= I64_MAX -> load_from_pg None root now w.(w_db) = Ok c ->
  world_ok {| w_db := w.(w_db); w_caches := <[p := c]> w.(w_caches);
              w_flights := filter (fun e => e.2.(rq_process) <> p) w.(w_flights) |}.
Proof.
  intros Hw Hlen Hload. destruct (load_spec root now _ _ (wo_table _ Hw) Hlen Hload) as [Hc _].
  split; cbn; [apply (wo_table _ Hw)|..].
  - intros q c2 [[<- <-]|[_ Hq]]%lookup_insert_Some; [done|by apply (wo_caches _ Hw q)].
  - intros k r [Hr Hne]%map_lookup_filter_Some. cbn in Hne. destruct (wo_flights _ Hw k r Hr) as (Ha & c2 & Hc2 & Hf).
    split; [done|]. exists c2. by rewrite lookup_insert_ne by congruence.
  - intros k1 k2 r1 r2 [Hr1 _]%map_lookup_filter_Some [Hr2 _]%map_lookup_filter_Some. by apply (wo_alone _ Hw).
Qed.

Lemma step_ok w w' : world_step w w' -> world_ok w -> world_ok w' /\ keeps_rows root w.(w_db) w'.(w_db).
Proof.
  intros [w1 k r c Hk Hc Ha Hr Hf|w1 k r c f db c' Hk Hc Hadv|w1 p now c Hload Hlen|w1 db He Hu] Hw.
  - split; [by eapply arrive_ok|done].
  - pose proof (phase_sound _ _ _ _ _ _ _ Hw Hk Hc Hadv) as Hp. split; [by eapply move_ok|]. cbn. by apply (ph_keeps _ _ _ _ _ _ _ Hp).
  - split; [by eapply transit_restart_ok|done].
  - assert (keeps_rows root w1.(w_db) db) as Hkeep by (intros t n v m; by apply is_row_rows).
    split; [|done]. split; cbn; [by apply (other_rows_ok w1.(w_db)), (wo_table _ Hw)| |..|by apply (wo_alone _ Hw)].
    + intros p c Hc. by eapply cache_ok_mono, (wo_caches _ Hw).
    + intros k r Hk. destruct (wo_flights _ Hw k r Hk) as (Ha & c & Hc & Hf). split; [done|]. exists c. split; [done|].
      by apply (flight_ok_mono w1.(w_db)).
Qed.

Lemma run_ok w w' : rtc world_step w w' -> world_ok w -> world_ok w' /\ keeps_rows root w.(w_db) w'.(w_db).
Proof.
  induction 1 as [|x y z Hxy _ IH]; intros Hw; [done|]. destruct (step_ok x y Hxy Hw) as [Hy Hk].
  destruct (IH Hy) as [Hz Hk']. split; [done|]. by transitivity y.(w_db).
Qed.

(** Before any transit key: a table without their rows, and no process. *)
Definition fresh_world (w : World) : Prop :=
  ids_unique w.(w_db) /\ transit_rows w.(w_db) = [] /\ w.(w_caches) = ∅ /\ w.(w_flights) = ∅.

Lemma fresh_ok w : fresh_world w -> world_ok w.
Proof.
  intros (Hu & Hrows & Hc & Hf).
  assert (Hnone : forall r, r ∈ w.(w_db).(kdb_rows) -> r.(kr_purpose) <> "transit").
  { intros r Hr Hp. assert (r ∈ transit_rows w.(w_db)) as Hin by (by apply list_elem_of_filter). rewrite Hrows in Hin. set_solver. }
  split; [split|..]; rewrite ?Hc, ?Hf; try done.
  - intros r Hr Hp. by destruct (Hnone r Hr).
  - intros r r' Hr _ Hp. by destruct (Hnone r Hr).
  - intros t n v m (r & Hr & Hp & _). by destruct (Hnone r Hr).
Qed.

(** C28. Transit ciphertexts survive. However many processes share the table, however
    their requests interleave and whichever of their statements fail, what a process
    encrypted under a cached key is decrypted by every process that starts later,
    whatever is created, rotated or restarted in between. *)
Theorem transit_ciphertexts_survive w0 w w' p c t n key rng pt ct now :
  fresh_world w0 -> rtc world_step w0 w -> w.(w_caches) !! p = Some c -> get_key c t n = Ok key ->
  (forall x, rng = Some x -> String.length x = AES_GCM_NONCE_LEN) -> encrypt rng key pt = Some (Ok ct) ->
  rtc world_step w w' -> len w'.(w_db).(kdb_rows) <= I64_MAX ->
  exists c' key', load_from_pg None root now w'.(w_db) = Ok c' /\ get_key c' t n = Ok key' /\ decrypt key' ct = Ok pt.
Proof.
  intros Hfresh Hrun Hc Hget Hrng Henc Hrun' Hlen.
  destruct (run_ok _ _ Hrun (fresh_ok _ Hfresh)) as [Hw _]. destruct (run_ok _ _ Hrun' Hw) as [Hw' Hkeep].
  unfold get_key in *. destruct (c !! (t, n)) as [x|] eqn:Hkey; [|done]. injection Hget as ->.
  destruct (wo_caches _ Hw p c Hc t n key Hkey) as (Hn & Hwf & Hrows).
  destruct (key_wf_current key Hwf) as [dek Hdek]. pose proof Hwf as ((Hlo & Hhi) & _).
  assert (Hrow : is_row root w'.(w_db) t n key.(current_version) dek).
  { apply Hkeep. unfold current_material, version_index in Hdek. destruct (k_versions key !! _) as [kv|] eqn:Hkv; [|done].
    injection Hdek as <-. specialize (Hrows _ _ Hkv).
    by replace (N.of_nat (S (N.to_nat (N.pred (current_version key))))) with (current_version key) in Hrows by lia. }
  assert (exists c', load_from_pg None root now w'.(w_db) = Ok c') as [c' Hload].
  { unfold load_from_pg. destruct (loaded_rows w'.(w_db) Hlen) as (l & -> & _). by eexists. }
  destruct (load_spec root now _ _ (wo_table _ Hw') Hlen Hload) as [Hco Hall].
  destruct (Hall _ _ _ _ Hrow) as (key' & Hkey' & Hmat). exists c', key'. split; [done|]. rewrite Hkey'. split; [done|].
  apply (decrypt_with_version rng key); try done.
  - destruct (Hco t n key' Hkey') as [Hn' _]. by rewrite Hn, Hn'.
  - by rewrite Hmat, Hdek.
Qed.

(** ** What the schema forbids *)

Lemma transit_insert_taken r db v n' m : admissible r -> (1 <= v < 2 ^ 31)%N -> is_row root db r.(rq_tenant) n' v m ->
  exists e, insert_version sha256 root r.(rq_draw) db r.(rq_tenant) r.(rq_name) v = (Err e, db).
Proof.
  intros Ha Hv Hro. destruct (insert_version _ _ _ _ _ _ _) as [res db'] eqn:Hi.
  apply insert_version_cases in Hi as [[-> Hne]|(row & Hrow & Hfree & -> & _)]; [|exfalso|done|done].
  - destruct res as [[]|e]; [done|by exists e].
  - by eapply insert_new_version in Hro.
Qed.

Lemma cached_first w p c t n key : world_ok w -> w.(w_caches) !! p = Some c -> c !! (t, n) = Some key ->
  exists m, is_row root w.(w_db) t n 1 m.
Proof.
  intros Hw Hc Hkey. eapply cached_version; [by apply (wo_caches _ Hw p c)|done|].
  destruct (wo_caches _ Hw p c Hc t n key Hkey) as (_ & ((? & ?) & _) & _). lia.
Qed.

(** A tenant has one transit key. The unique index on tenant, purpose and
    version counts transit rows without their name: once any process has a transit
    key of a tenant, every creation of another key for the tenant is refused, in
    every process and for ever. *)
Theorem one_transit_key_per_tenant w0 w w' p c t n key r c2 :
  fresh_world w0 -> rtc world_step w0 w -> w.(w_caches) !! p = Some c -> c !! (t, n) = Some key ->
  rtc world_step w w' -> admissible r -> r.(rq_tenant) = t ->
  exists e, pg_create_key sha256 root r.(rq_draw) w'.(w_db) c2 t r.(rq_name) = (Some (Err e), w'.(w_db), c2).
Proof.
  intros Hfresh Hrun Hc Hkey Hrun' Ha <-. destruct (run_ok _ _ Hrun (fresh_ok _ Hfresh)) as [Hw _].
  destruct (run_ok _ _ Hrun' Hw) as [_ Hkeep]. destruct (cached_first _ _ _ _ _ _ Hw Hc Hkey) as [m Hm%Hkeep].
  unfold pg_create_key, run_alone, create_check. destruct (c2 !! _); [by eexists|].
  destruct (transit_insert_taken r w'.(w_db) 1 n m Ha ltac:(lia) Hm) as [e He]. cbn [finish advance]. rewrite He. by exists e.
Qed.

(** ** Stale caches *)

(** Processes do not follow each other: what one encrypted under a version another
    has not loaded is refused by the other. *)
Theorem stale_process_refuses w p q c c' t n key key' rng pt ct :
  world_ok w -> w.(w_caches) !! p = Some c -> w.(w_caches) !! q = Some c' ->
  c !! (t, n) = Some key -> c' !! (t, n) = Some key' -> (key'.(current_version) < key.(current_version))%N ->
  encrypt rng key pt = Some (Ok ct) -> decrypt key' ct = Err (KeyNotFound (n +:+ ":v" +:+ pretty key.(current_version))).
Proof.
  intros Hw Hc Hc' Hkey Hkey' Hlt (dek & env & _ & _ & ->)%encrypt_shape.
  destruct (wo_caches _ Hw p c Hc t n key Hkey) as (_ & ((? & ?) & _) & _).
  destruct (wo_caches _ Hw q c' Hc' t n key' Hkey') as (Hn & (_ & Hlen & _) & _).
  unfold decrypt. rewrite parse_tag by done. cbn [mbind result_bind].
  assert (material_for_version key' key.(current_version) = None) as ->.
  { unfold material_for_version, version_index. rewrite lookup_ge_None_2; [done|]. lia. }
  by rewrite Hn.
Qed.

(** ** Interrupted rotations *)

Definition active_row (t n : string) (r : KeyRow) : Prop :=
  r.(kr_tenant_id) = Some t /\ r.(kr_key_name) = Some n /\ r.(kr_purpose) = "transit" /\ r.(kr_state) = "active".

(** The key is there, none of its rows is active, and no rotation is past finding one. *)
Record stuck (w : World) (t n : string) : Prop := {
  st_first : exists m, is_row root w.(w_db) t n 1 m;
  st_rows : forall r, r ∈ w.(w_db).(kdb_rows) -> ~ active_row t n r;
  st_flights : forall k r, w.(w_flights) !! k = Some r -> r.(rq_tenant) = t -> r.(rq_name) = n ->
    match r.(rq_at) with FRetire _ _ | FInsert _ => False | _ => True end;
}.

Lemma no_active_row io db t n : (forall r, r ∈ db.(kdb_rows) -> ~ active_row t n r) ->
  exists e, active_descriptor_id_for io db t n = Err e.
Proof.
  intros Hnone. unfold active_descriptor_id_for. destruct io; [by eexists|].
  match goal with |- context [order_by _ ?l] => assert (l = []) as -> end; [|by eexists].
  apply elem_of_nil_inv. intros r [Hact Hr]%list_elem_of_filter. by apply (Hnone r).
Qed.

(** A phase brings no active row of a stuck key. *)
Lemma stuck_phase w t n k r c f db c' :
  world_ok w -> stuck w t n -> w.(w_flights) !! k = Some r -> w.(w_caches) !! r.(rq_process) = Some c ->
  advance sha256 root r.(rq_draw) r.(rq_tenant) r.(rq_name) r.(rq_at) w.(w_db) c = (f, db, c') ->
  (forall x, x ∈ db.(kdb_rows) -> ~ active_row t n x) /\
  (forall f', f = inl f' -> r.(rq_tenant) = t -> r.(rq_name) = n -> match f' with FRetire _ _ | FInsert _ => False | _ => True end).
Proof.
  intros Hw Hs Hk Hc. destruct (st_first _ _ _ Hs) as [m Hm]. pose proof (st_rows _ _ _ Hs) as Hrows.
  pose proof (st_flights _ _ _ Hs k r Hk) as Hfl. destruct (wo_flights _ Hw k r Hk) as (Ha & c2 & Hc2 & Hf).
  assert (Hins : forall v db1 res, (1 <= v < 2 ^ 31)%N -> (r.(rq_tenant) = t -> r.(rq_name) = n -> v = 1%N) ->
    insert_version sha256 root r.(rq_draw) w.(w_db) r.(rq_tenant) r.(rq_name) v = (res, db1) ->
    forall x, x ∈ db1.(kdb_rows) -> ~ active_row t n x).
  { intros v db1 res Hv Hv1 Hi. apply insert_version_cases in Hi as [[-> _]|(row & Hrow & Hfree & -> & _)]; [done| |done|done].
    intros x [Hx| ->%list_elem_of_singleton]%elem_of_app (Ht & Hn & Hp & Hst); [by apply (Hrows x)|].
    pose proof Hrow as (_ & Ht' & Hn' & _). assert (r.(rq_tenant) = t) as Et by congruence. assert (r.(rq_name) = n) as En by congruence.
    rewrite (Hv1 Et En) in *. rewrite <- Et in Hm. by eapply insert_new_version in Hm. }
  unfold flight_ok in Hf. destruct (rq_at r) as [| |v|v id|v|v] eqn:Hat; cbn [advance].
  - destruct (insert_version _ _ _ _ _ _ _) as [[|] db1] eqn:Hi; intros [= <- <- <-]; (split; [by eapply (Hins 1%N); [lia| |]|]).
    + by intros f' [= <-].
    + done.
  - intros [= <- <- <-]. done.
  - destruct (active_descriptor_id_for _ _ _ _) eqn:Hact; intros [= <- <- <-]; (split; [done|]); [|done].
    intros f' [= <-] Et En. destruct Ha as (Hcan & _). unfold tenant_id_to_uuid in Hact. rewrite Hcan, Et, En in Hact.
    destruct (no_active_row r.(rq_draw).(dr_read) _ _ _ Hrows) as [e He]. congruence.
  - destruct (write _ _ _) as [res db1] eqn:Hwr. apply write_cases in Hwr.
    assert (forall x, x ∈ db1.(kdb_rows) -> ~ active_row t n x) as Hdb1.
    { destruct Hwr as [->|[-> _]]; [|done]. intros x (y & -> & Hy)%list_elem_of_fmap (Ht & Hn & Hp & Hst).
      unfold set_state in *. case_bool_decide; [done|]. by apply (Hrows y). }
    destruct res; intros [= <- <- <-]; (split; [done|]); [|done]. intros f' [= <-] Et En. by apply Hfl.
  - destruct Hf as (key & Hkey & Hv & Hle).
    destruct (insert_version _ _ _ _ _ _ _) as [[|] db1] eqn:Hi; intros [= <- <- <-];
      (split; [by eapply (Hins v); [lia|intros Et En; by destruct (Hfl Et En)|]|]); [by intros f' [= <-]|done].
  - destruct (c !! _); intros [= <- <- <-]; done.
Qed.

Lemma stuck_step w w' t n : world_step w w' -> world_ok w -> stuck w t n -> stuck w' t n.
Proof.
  intros Hstep Hw Hs. destruct (step_ok _ _ Hstep Hw) as [_ Hkeep].
  assert (exists m, is_row root w'.(w_db) t n 1 m) as Hfirst by (destruct (st_first _ _ _ Hs) as [m Hm]; exists m; by apply Hkeep).
  destruct Hstep as [w1 k r c Hk Hc Ha Hr Hf|w1 k r c f db c' Hk Hc Hadv|w1 p now c Hload Hlen|w1 db He Hu]; (split; [done|..]); cbn.
  - apply (st_rows _ _ _ Hs).
  - intros k' r' [[<- <-]|[_ Hr']]%lookup_insert_Some Et En; [|by apply (st_flights _ _ _ Hs k')].
    destruct Hf as [Hf|Hf]; [unfold create_check in Hf|unfold rotate_read in Hf]; destruct (c !! _); try done;
      by injection Hf as <-.
  - by eapply stuck_phase.
  - destruct (stuck_phase _ _ _ _ _ _ _ _ _ Hw Hs Hk Hc Hadv) as [_ Hnext]. intros k' r'. destruct f as [f'|a].
    + intros [[<- <-]|[_ Hr']]%lookup_insert_Some Et En; [by apply Hnext|by apply (st_flights _ _ _ Hs k')].
    + intros [_ Hr']%lookup_delete_Some. by apply (st_flights _ _ _ Hs k').
  - apply (st_rows _ _ _ Hs).
  - intros k r [Hr _]%map_lookup_filter_Some. by apply (st_flights _ _ _ Hs k).
  - intros r Hr Hact. assert (r ∈ transit_rows w1.(w_db)) as [_ Hin]%list_elem_of_filter.
    { rewrite <- He. apply list_elem_of_filter. split; [apply Hact|done]. }
    by apply (st_rows _ _ _ Hs r).
  - apply (st_flights _ _ _ Hs).
Qed.

Lemma stuck_run w w' t n : rtc world_step w w' -> world_ok w -> stuck w t n -> stuck w' t n.
Proof.
  induction 1 as [|x y z Hxy _ IH]; intros Hw Hs; [done|]. destruct (step_ok x y Hxy Hw) as [Hy _].
  apply IH; [done|]. by eapply stuck_step.
Qed.

(** The row that is found is an active one of the key. *)
Lemma found_active db t n id : active_descriptor_id_for None db t n = Ok id ->
  exists r, r ∈ db.(kdb_rows) /\ active_row t n r /\ r.(kr_id) = id.
Proof.
  unfold active_descriptor_id_for. set (l := filter _ _). destruct (order_by version_desc l) as [|r k] eqn:Ho; [done|].
  intros [= <-]. assert (r ∈ l) as [Hact Hr]%list_elem_of_filter by (rewrite <- (order_by_perm version_desc), Ho; set_solver).
  by exists r.
Qed.

Lemma finds_active db t n r : r ∈ db.(kdb_rows) -> active_row t n r -> exists id, active_descriptor_id_for None db t n = Ok id.
Proof.
  intros Hr Hact. unfold active_descriptor_id_for. set (l := filter _ _).
  destruct (order_by version_desc l) as [|x k] eqn:Ho; [|by eexists].
  assert (r ∈ l) as Hin by (by apply list_elem_of_filter). rewrite <- (order_by_perm version_desc), Ho in Hin. set_solver.
Qed.

(** An interrupted rotation is final. When the statement that writes the new
    version of a key fails after the outgoing row was retired, the key is served on,
    but every later rotation of it is refused, in every process, after every
    restart, for ever. *)
Theorem interrupted_rotation_is_final w p c t n key d e :
  world_ok w -> w.(w_flights) = ∅ -> w.(w_caches) !! p = Some c -> c !! (t, n) = Some key -> uuid_parse t = Ok t ->
  (exists r, r ∈ w.(w_db).(kdb_rows) /\ active_row t n r) ->
  (forall r r', r ∈ w.(w_db).(kdb_rows) -> r' ∈ w.(w_db).(kdb_rows) -> active_row t n r -> active_row t n r' -> r = r') ->
  d.(dr_read) = None -> d.(dr_retire) = None -> d.(dr_insert) = Some (e, false) ->
  exists e1 db1, pg_rotate_key sha256 root d w.(w_db) c t n = (Some (Err e1), db1, c) /\
  forall w' d' c2, rtc world_step {| w_db := db1; w_caches := w.(w_caches); w_flights := ∅ |} w' ->
    exists e2, pg_rotate_key sha256 root d' w'.(w_db) c2 t n = (Some (Err e2), w'.(w_db), c2).
Proof.
  intros Hw Hfl Hc Hkey Hcan (r & Hr & Hact) Huniq Hread Hret Hins.
  destruct (finds_active _ _ _ _ Hr Hact) as [id Hid]. destruct (found_active _ _ _ _ Hid) as (r0 & Hr0 & Hact0 & <-).
  assert (r0 = r) as -> by (by apply Huniq).
  set (db1 := with_rows w.(w_db) (set_state d.(dr_db_now) r.(kr_id) RotatingOut <$> w.(w_db).(kdb_rows))).
  assert (exists e1, pg_rotate_key sha256 root d w.(w_db) c t n = (Some (Err e1), db1, c)) as [e1 He1].
  { unfold pg_rotate_key, run_alone, rotate_read. rewrite Hkey. cbn [finish advance]. unfold tenant_id_to_uuid at 1.
    rewrite Hcan, Hread, Hid. cbn [finish advance]. rewrite Hret. cbn [finish advance write update_key_state sql].
    unfold insert_version, write. rewrite Hins.
    destruct (wrap_material _ _ _ _ _ _); by eexists. }
  exists e1, db1. split; [done|]. intros w' d' c2 Hrun.
  assert (world_ok {| w_db := db1; w_caches := w.(w_caches); w_flights := ∅ |}) as Hw1.
  { split; cbn; [apply retire_ok, (wo_table _ Hw)| |done|done]. intros q c1 Hq.
    eapply cache_ok_mono; [apply retire_keeps|by apply (wo_caches _ Hw q)]. }
  assert (stuck {| w_db := db1; w_caches := w.(w_caches); w_flights := ∅ |} t n) as Hs.
  { split; cbn; [| |done].
    - destruct (cached_first _ _ _ _ _ _ Hw Hc Hkey) as [m Hm]. exists m. by apply retire_keeps.
    - intros x (y & -> & Hy)%list_elem_of_fmap Hx. unfold set_state in Hx. case_bool_decide as Hi; [by destruct Hx as (_ & _ & _ & ?)|].
      apply Hi. by rewrite (Huniq y r). }
  pose proof (stuck_run _ _ _ _ Hrun Hw1 Hs) as Hs'. destruct (no_active_row d'.(dr_read) _ _ _ (st_rows _ _ _ Hs')) as [e2 He2].
  unfold pg_rotate_key, run_alone, rotate_read. destruct (c2 !! (t, n)); [|by eexists]. cbn [finish advance].
  unfold tenant_id_to_uuid. rewrite Hcan, He2. by eexists.
Qed.

End Invariant.

End Processes.

(** ** On concrete data *)

Module TransitDbDemo.

#[local] Instance uuids : Uuids := fun s => Ok s.
#[local] Instance sql_text : SqlText := fun c => c.
#[local] Instance prim : Primitives := stand_in.
#[local] Instance prim_laws : PrimitiveLaws := stand_in_laws.

Definition root : string := Str.repeat "r" 32.
Definition sha (s : string) : string := s.

Definition draw (id : string) (insert : option (string * bool)) : Draw :=
  {| dr_now := 1; dr_db_now := 1; dr_id := id; dr_material := Str.repeat "m" 32; dr_nonce := Some (Str.repeat "n" 12);
     dr_read := None; dr_retire := None; dr_insert := insert |}.

Definition request (p id : string) (f : Flight) : Request :=
  {| rq_process := p; rq_draw := draw id None; rq_tenant := "t1"; rq_name := "orders"; rq_at := f |}.

Lemma request_admissible p id f : admissible (request p id f).
Proof. split; [done|]. split; [done|]. by intros x [= <-]. Qed.

Definition restart (p : string) (w : World) : World :=
  match load_from_pg None root 0 w.(w_db) with
  | Ok c => {| w_db := w.(w_db); w_caches := <[p := c]> w.(w_caches);
               w_flights := filter (fun e => e.2.(rq_process) <> p) w.(w_flights) |}
  | Err _ => w
  end.

Definition arrive (k : nat) (r : Request) (w : World) : World :=
  {| w_db := w.(w_db); w_caches := w.(w_caches); w_flights := <[k := r]> w.(w_flights) |}.

Definition move (k : nat) (w : World) : World :=
  match w.(w_flights) !! k with
  | Some r =>
      match w.(w_caches) !! r.(rq_process) with
      | Some c =>
          let '(f, db, c') := advance sha root r.(rq_draw) r.(rq_tenant) r.(rq_name) r.(rq_at) w.(w_db) c in
          {| w_db := db; w_caches := <[r.(rq_process) := c']> w.(w_caches);
             w_flights := match f with inl f => <[k := moved r f]> w.(w_flights) | inr _ => delete k w.(w_flights) end |}
      | None => w
      end
  | None => w
  end.

Abbreviation step := (world_step sha root).

Lemma move_run k w : rtc step w (move k w).
Proof.
  unfold move. destruct (w_flights w !! k) as [r|] eqn:Hk; [|done]. destruct (w_caches w !! _) as [c|] eqn:Hc; [|done].
  destruct (advance _ _ _ _ _ _ _ _) as [[f db] c'] eqn:Ha. apply rtc_once. by eapply step_move.
Qed.

Lemma restart_run p w : len w.(w_db).(kdb_rows) <= I64_MAX -> rtc step w (restart p w).
Proof.
  intros Hlen. unfold restart. destruct (load_from_pg None root 0 w.(w_db)) eqn:Hl; [|done].
  apply rtc_once. by eapply step_restart.
Qed.

Lemma arrive_run k r w c : w.(w_flights) !! k = None -> w.(w_caches) !! r.(rq_process) = Some c -> admissible r ->
  in_range r.(rq_at) ->
  (create_check c r.(rq_tenant) r.(rq_name) = Ok r.(rq_at) \/ rotate_read c r.(rq_tenant) r.(rq_name) = Ok r.(rq_at)) ->
  rtc step w (arrive k r w).
Proof. intros. apply rtc_once. by eapply step_arrive. Qed.

Definition w0 : World :=
  {| w_db := {| kdb_rows := []; kdb_tenants := ["t1"]; kdb_events := []; kdb_seal := None |};
     w_caches := ∅; w_flights := ∅ |}.

(** One process creates a key, then a second starts. *)
Definition w1 : World := move 0 (move 0 (arrive 0 (request "p" "a" FCreate) (restart "p" w0))).
Definition w2 : World := restart "q" w1.

Lemma w0_fresh : fresh_world w0.
Proof. split; [apply NoDup_nil_2|]. done. Qed.

Lemma transit_run1 : rtc step w0 w1.
Proof.
  etransitivity; [apply (restart_run "p"); by vm_compute|]. etransitivity; [|etransitivity; apply move_run].
  eapply (arrive_run 0 (request "p" "a" FCreate)); [done|reflexivity|apply request_admissible|done|by left].
Qed.

Lemma transit_run2 : rtc step w1 w2.
Proof. apply restart_run. by vm_compute. Qed.

Definition cache_of (w : World) (p : string) : key_map := default ∅ (w.(w_caches) !! p).
Definition the_key (w : World) (p : string) : Transit.TransitKey :=
  default (blank 0 "") (cache_of w p !! ("t1", "orders")).

Definition sealed : string :=
  default "" (encrypt (Some (Str.repeat "n" 12)) (the_key w1 "p") "hi" ≫= result_ok).

Lemma nonce_length x : Some (Str.repeat "n" 12) = Some x -> String.length x = AES_GCM_NONCE_LEN.
Proof. by intros [= <-]. Qed.

Lemma transit_ciphertexts_survive_witness :
  exists c' key', load_from_pg None root 0 w2.(w_db) = Ok c' /\ get_key c' "t1" "orders" = Ok key' /\ decrypt key' sealed = Ok "hi".
Proof.
  apply (transit_ciphertexts_survive sha root w0 w1 w2 "p" (cache_of w1 "p") "t1" "orders" (the_key w1 "p")
    (Some (Str.repeat "n" 12)) "hi" sealed 0).
  - exact w0_fresh.
  - exact transit_run1.
  - vm_compute. reflexivity.
  - vm_compute. reflexivity.
  - exact nonce_length.
  - vm_compute. reflexivity.
  - exact transit_run2.
  - vm_compute. discriminate.
Defined.

Lemma one_transit_key_per_tenant_witness :
  exists e, pg_create_key sha root (draw "b" None) w2.(w_db) (cache_of w2 "q") "t1" "invoices"
              = (Some (Err e), w2.(w_db), cache_of w2 "q").
Proof.
  apply (one_transit_key_per_tenant sha root w0 w1 w2 "p" (cache_of w1 "p") "t1" "orders" (the_key w1 "p")
    {| rq_process := "q"; rq_draw := draw "b" None; rq_tenant := "t1"; rq_name := "invoices"; rq_at := FCreate |}).
  - exact w0_fresh.
  - exact transit_run1.
  - vm_compute. reflexivity.
  - vm_compute. reflexivity.
  - exact transit_run2.
  - split; [reflexivity|]. split; [reflexivity|]. exact nonce_length.
  - reflexivity.
Defined.

Lemma ok_of w : rtc step w0 w -> world_ok root w.
Proof. intros Hrun. refine (proj1 (run_ok sha root w0 w Hrun _)). apply fresh_ok; [exact prim_laws|exact w0_fresh]. Qed.

(** The only row, active. *)
Lemma one_row w r : w.(w_db).(kdb_rows) = [r] -> active_row "t1" "orders" r ->
  (exists x, x ∈ w.(w_db).(kdb_rows) /\ active_row "t1" "orders" x) /\
  (forall x y, x ∈ w.(w_db).(kdb_rows) -> y ∈ w.(w_db).(kdb_rows) ->
     active_row "t1" "orders" x -> active_row "t1" "orders" y -> x = y).
Proof.
  intros Hr Ha. rewrite Hr. split; [exists r; split; [by apply list_elem_of_singleton|done]|].
  intros x y ->%list_elem_of_singleton ->%list_elem_of_singleton. done.
Qed.

Definition row1 : KeyRow :=
  row_of_desc 1 {| kd_id := "a"; kd_version := 1; kd_algorithm := Aes256Gcm; kd_purpose := KeyStore.TransitKey;
                   kd_state := Active; kd_tenant_id := Some "t1"; kd_created_at := 1; kd_rotated_at := None;
                   kd_expires_at := None |}
    (default "" (result_ok (wrap_material (Some (Str.repeat "n" 12)) root "t1" "orders" 1 (Str.repeat "m" 32))))
    None (Some "orders").

Lemma interrupted_rotation_is_final_witness :
  exists e1 db1, pg_rotate_key sha root (draw "b" (Some ("lost", false))) w1.(w_db) (cache_of w1 "p") "t1" "orders"
                   = (Some (Err e1), db1, cache_of w1 "p").
Proof.
  destruct (interrupted_rotation_is_final sha root w1 "p" (cache_of w1 "p") "t1" "orders" (the_key w1 "p")
    (draw "b" (Some ("lost", false))) "lost") as (e1 & db1 & He & _).
  - apply ok_of, transit_run1.
  - vm_compute. reflexivity.
  - vm_compute. reflexivity.
  - vm_compute. reflexivity.
  - reflexivity.
  - apply (one_row w1 row1); [vm_compute; reflexivity|done].
  - apply (one_row w1 row1); [vm_compute; reflexivity|done].
  - reflexivity.
  - reflexivity.
  - reflexivity.
  - exists e1, db1. exact He.
Defined.

(** A rotation in the first process, the second left with the old version. *)
Definition rotated (k : nat) (p id : string) (w : World) : World :=
  move k (move k (move k (move k (arrive k (request p id (FRotate 2)) w)))).
Definition w3 : World := rotated 1 "p" "b" w2.

Definition sealed2 : string :=
  default "" (encrypt (Some (Str.repeat "n" 12)) (the_key w3 "p") "hi" ≫= result_ok).

Lemma transit_run3 : rtc step w2 w3.
Proof.
  unfold w3, rotated. etransitivity; [|do 3 (etransitivity; [apply move_run|]); apply move_run].
  eapply (arrive_run 1 (request "p" "b" (FRotate 2))); [done|reflexivity|apply request_admissible|done|].
  right. vm_compute. reflexivity.
Qed.

Lemma stale_process_refuses_witness : decrypt (the_key w3 "q") sealed2 = Err (KeyNotFound "orders:v2").
Proof.
  apply (stale_process_refuses root w3 "p" "q" (cache_of w3 "p") (cache_of w3 "q") "t1" "orders" (the_key w3 "p")
    (the_key w3 "q") (Some (Str.repeat "n" 12)) "hi" sealed2).
  - assert (rtc step w0 w3) as Hrun by (etransitivity; [apply transit_run1|etransitivity; [apply transit_run2|apply transit_run3]]).
    by apply ok_of.
  - vm_compute. reflexivity.
  - vm_compute. reflexivity.
  - vm_compute. reflexivity.
  - vm_compute. reflexivity.
  - vm_compute. reflexivity.
  - vm_compute. reflexivity.
Defined.

(** Two processes rotate the key at once: both choose version 2, the second retires
    the first's new row and cannot insert its own, and no row is active after. *)
Definition race : World :=
  let both := arrive 2 (request "q" "c" (FRotate 2)) (arrive 1 (request "p" "b" (FRotate 2)) w2) in
  move 2 (move 2 (move 2 (move 1 (move 1 (move 1 (move 1 both)))))).

Example racing_rotations_stick :
  rtc step w2 race /\ map kr_state race.(w_db).(kdb_rows) = ["rotating_out"; "rotating_out"] /\
  size race.(w_flights) = 0%nat /\
  (pg_rotate_key sha root (draw "d" None) race.(w_db) (cache_of race "p") "t1" "orders").1.1
    = Some (Err (KeyNotFound "t1/orders")).
Proof.
  split; [|by vm_compute]. unfold race. do 7 (etransitivity; [|apply move_run]). etransitivity.
  - apply (arrive_run 1 (request "p" "b" (FRotate 2)) w2 (cache_of w2 "p")); try apply request_admissible;
      [vm_compute; reflexivity..|right; vm_compute; reflexivity].
  - apply (arrive_run 2 (request "q" "c" (FRotate 2)) _ (cache_of w2 "q")); try apply request_admissible;
      [vm_compute; reflexivity..|right; vm_compute; reflexivity].
Qed.

(** The first of two versions damaged. *)
Definition row2 : KeyRow :=
  row_of_desc 1 {| kd_id := "b"; kd_version := 2; kd_algorithm := Aes256Gcm; kd_purpose := KeyStore.TransitKey;
                   kd_state := Active; kd_tenant_id := Some "t1"; kd_created_at := 1; kd_rotated_at := None;
                   kd_expires_at := None |}
    (default "" (result_ok (wrap_material (Some (Str.repeat "n" 12)) root "t1" "orders" 2 (Str.repeat "m" 32))))
    None (Some "orders").
Definition damaged : KeyRow :=
  row_of_desc 1 {| kd_id := "a"; kd_version := 1; kd_algorithm := Aes256Gcm; kd_purpose := KeyStore.TransitKey;
                   kd_state := RotatingOut; kd_tenant_id := Some "t1"; kd_created_at := 1; kd_rotated_at := None;
                   kd_expires_at := None |} "TODO" None (Some "orders").
Definition damaged_db : KeyDb :=
  {| kdb_rows := [damaged; row2]; kdb_tenants := ["t1"]; kdb_events := []; kdb_seal := None |}.

Lemma damaged_version_breaks_key_witness :
  exists key, get_key (default ∅ (result_ok (load_from_pg None root 0 damaged_db))) "t1" "orders" = Ok key /\
    forall rng pt, encrypt rng key pt = None.
Proof.
  apply (damaged_version_breaks_key root damaged_db 0 _ "t1" "orders" 2 damaged row2).
  - apply (bool_decide_unpack _). vm_compute. exact I.
  - vm_compute. discriminate.
  - reflexivity.
  - intros r [[->|[->|[]%not_elem_of_nil]%elem_of_cons]%elem_of_cons _]; vm_compute; split; discriminate.
  - intros r r' [[->|[->|[]%not_elem_of_nil]%elem_of_cons]%elem_of_cons _]
      [[->|[->|[]%not_elem_of_nil]%elem_of_cons]%elem_of_cons _]; try done; vm_compute; discriminate.
  - split; [apply list_elem_of_here|]. done.
  - apply (bool_decide_unpack _). vm_compute. exact I.
  - split; [apply list_elem_of_further, list_elem_of_here|]. done.
  - apply (bool_decide_unpack _). vm_compute. exact I.
  - reflexivity.
  - vm_compute. reflexivity.
Defined.

End TransitDbDemo.
