(* ===== verification/AuditTrail.v ===== *)
(** * The audit trail

    [services/audit-service] (integrity.rs, store.rs, pg_store.rs, grpc.rs,
    http.rs) over [wslvault-storage/src/audit_store.rs] and the functions of
    [022_audit_hash_chain.sql]: records are signed under a key of their tenant,
    linked into the tenant's hash chain inside the transaction that writes them,
    and verified when they are read back.

    Module [Trail] holds the definitions, in the order of the sources; module
    [Appends] runs the append transaction step by step beside others; module
    [Evidence] says what a reader can conclude from a log that passes the
    checks. HMAC, HKDF and hex are the classes of Envelope and Transit; what
    chrono, serde_json and the database's [inet], [jsonb] and [timestamptz]
    types do to a value is [Platform]. *)

From Stdlib Require Import Lia Ascii Sorted.
From stdpp Require Import pretty.
From S2P Require Import Prelude Errors Json Effects Envelope Auth KeyStore KekStore Transit.

Module Trail.

(** ** Records *)

Record AuditRecord := {
  id : string;
  tenant_id : string;
  principal_id : string;
  action : string;
  resource : string;
  outcome : string;
  outcome_detail : string;
  details : Json;
  client_ip : string;
  signature : string;
  timestamp : Z;  (* nanoseconds *)
  seq : Z;
  prev_hash : string;
  verified : option bool;
}.

Record StoredAuditEvent := {
  st_id : string;
  st_tenant_id : string;
  st_principal_id : string;
  st_action : string;
  st_resource : string;
  st_outcome : string;
  st_outcome_detail : string;
  st_details : Json;
  st_client_ip : string;
  st_signature : string;
  st_timestamp : Z;
  st_seq : Z;
  st_prev_hash : string;
}.

(** A row of [shared.audit_events]; [None] is NULL. *)
Record AuditRow := {
  row_id : string;
  row_tenant_id : string;
  row_principal_id : string;
  row_action : string;
  row_resource : string;
  row_outcome : string;
  row_outcome_detail : option string;
  row_details : Json;
  row_client_ip : option string;
  row_signature : option string;
  row_timestamp : Z;
  row_seq : option Z;
  row_prev_hash : option string;
}.

Abbreviation Table := (list AuditRow).

Class Platform := {
  (** chrono's [to_rfc3339] of an instant in UTC, and its parser *)
  to_rfc3339 : Z -> string;
  parse_from_rfc3339 : string -> result string Z;
  (** serde_json, compact *)
  json_text : Json -> string;
  json_parse : string -> result string Json;
  (** a value written to a [jsonb] column and read back, unless refused *)
  jsonb : Json -> option Json;
  (** a text cast to [inet] and back to text, unless refused *)
  inet_text : string -> option string;
}.

(** ** integrity.rs *)

(** An [unreachable!] reached, or an error. *)
Inductive fault (E : Type) := Failed (e : E) | Panicked.
Arguments Failed {E} _.
Arguments Panicked {E}.

Record AuditSigner := { master : string }.

Definition MIN_LEN : nat := 32.

Definition from_key (key : string) : AuditSigner := {| master := key |}.

Definition from_env (AUDIT_SIGNING_KEY : option string) : result string AuditSigner :=
  key ← ok_or AUDIT_SIGNING_KEY
    "AUDIT_SIGNING_KEY is required: audit records cannot be signed without it";
  if (String.length key <? MIN_LEN)%nat
  then Err ("AUDIT_SIGNING_KEY must be at least " +:+ pretty (N.of_nat MIN_LEN) +:+ " bytes, got "
            +:+ pretty (N.of_nat (String.length key)))
  else Ok (from_key key).

Definition NUL : ascii := "000".

Section Integrity.
Context `{Primitives, Mac, Platform}.

Definition key_for {E} (self : AuditSigner) (tenant : string) : result (fault E) string :=
  match derive_key self.(master) None ("wslvault:audit:v1:" +:+ tenant) with
  | Ok k => Ok k
  | Err _ => Err Panicked
  end.

(** The fields of the canonical message, in its order. *)
Definition signed_fields (record : AuditRecord) (s : Z) (prev : string) : list string :=
  [record.(id); record.(tenant_id); record.(principal_id); record.(action); record.(resource);
   record.(outcome); record.(outcome_detail); record.(client_ip); to_rfc3339 record.(timestamp);
   json_text record.(details); pretty s; prev].

Definition build_canonical_message_chained (record : AuditRecord) (s : Z) (prev : string) : string :=
  Str.join NUL (signed_fields record s prev).

Definition build_canonical_message (record : AuditRecord) : string :=
  build_canonical_message_chained record record.(seq) record.(prev_hash).

Definition sign_event_chained (record : AuditRecord) (key : string) (s : Z) (prev : string) : string :=
  hex_encode (hmac_sha256 key (build_canonical_message_chained record s prev)).

Definition sign_event (record : AuditRecord) (key : string) : string :=
  sign_event_chained record key record.(seq) record.(prev_hash).

Definition verify_signature (record : AuditRecord) (key sig : string) : bool :=
  match hex_decode sig with
  | None => false
  | Some sig_bytes => bool_decide (hmac_sha256 key (build_canonical_message record) = sig_bytes)
  end.

End Integrity.

(** ** audit_store.rs *)

Definition client_ip_or_null (ip : string) : option string :=
  let trimmed := Str.trim ip in
  if Str.is_empty trimmed then None else Some trimmed.

(** [seq] columns are [BIGINT] and the arithmetic on them wraps. *)
Definition as_i64 (z : Z) : Z := (z + 2 ^ 63) mod 2 ^ 64 - 2 ^ 63.

Definition seq_asc (a b : AuditRow) : bool := default 0 a.(row_seq) <=? default 0 b.(row_seq).
Definition seq_desc (a b : AuditRow) : bool := seq_asc b a.
Definition timestamp_desc (a b : AuditRow) : bool := b.(row_timestamp) <=? a.(row_timestamp).

(** The rows of a tenant's chain: [tenant_id = $1 AND seq IS NOT NULL]. *)
Definition chain_of (tenant : string) (t : Table) : Table :=
  filter (fun r => r.(row_tenant_id) = tenant /\ is_Some r.(row_seq)) t.

Definition audit_chain_tip (t : Table) (tenant : string) : option (Z * string) :=
  r ← head (order_by seq_desc (chain_of tenant t));
  Some (default 0 r.(row_seq), default "" r.(row_signature)).

(** The position after a tip: [tip.unwrap_or((0, String::new()))], one further. *)
Definition next_link (tip : option (Z * string)) : Z * string :=
  let '(prev_seq, prev) := default (0, "") tip in (as_i64 (prev_seq + 1), prev).

Definition SEQUENCE_GAP : string := "sequence gap: records are missing".
Definition HASH_MISMATCH : string := "prev_hash does not match the preceding record".

(** One row of the window query against the row before it. *)
Definition break_at (prior r : AuditRow) : list (Z * string) :=
  let s := default 0 r.(row_seq) in
  if negb (s =? default 0 prior.(row_seq) + 1) then [(s, SEQUENCE_GAP)]
  else if bool_decide (is_Some prior.(row_signature) /\ r.(row_prev_hash) <> prior.(row_signature))
  then [(s, HASH_MISMATCH)] else [].

Fixpoint breaks_in (l : Table) : list (Z * string) :=
  match l with
  | r :: ((r' :: _) as l') => break_at r r' ++ breaks_in l'
  | _ => []
  end.

Definition sql_audit_chain_breaks (t : Table) (tenant : string) : list (Z * string) :=
  breaks_in (order_by seq_asc (chain_of tenant t)).

(** What the driver or the server answers to each statement of an append.
    A commit whose answer is lost may have taken effect. *)
Record AppendIo := {
  io_begin : option string;
  io_lock : option string;
  io_tip : option string;
  io_insert : option string;
  io_commit : option (string * bool);
}.

Definition calm : AppendIo :=
  {| io_begin := None; io_lock := None; io_tip := None; io_insert := None; io_commit := None |}.

Section Store.
Context `{SqlText, Uuids, Platform}.

Definition parse_tenant (s : string) : vresult string :=
  match uuid_parse s with
  | Ok u => Ok u
  | Err e => Err (ValidationError "tenant_id" ("invalid UUID: " +:+ e))
  end.

(** The server refuses a text parameter with a NUL byte. *)
Definition text_params (l : list string) : vresult () :=
  if bool_decide (Exists (fun x => Str.mem NUL x = true) l)
  then Err (Database (violation "text")) else Ok tt.

(** The values of a row as the server stores them: text with a NUL byte, an
    address that does not parse and a document [jsonb] cannot hold are refused. *)
Definition stored_row (event : StoredAuditEvent) (tenant sig : string) (s : option Z)
    (prev : option string) : vresult AuditRow :=
  text_params [event.(st_principal_id); event.(st_action); event.(st_resource);
               event.(st_outcome); event.(st_outcome_detail); sig; default "" prev];;
  d ← ok_or (jsonb event.(st_details)) (Database (violation "jsonb"));
  ip ← match client_ip_or_null event.(st_client_ip) with
       | None => Ok None
       | Some x => Some <$> ok_or (inet_text x) (Database (violation "inet"))
       end;
  Ok {| row_id := event.(st_id); row_tenant_id := tenant;
        row_principal_id := event.(st_principal_id); row_action := event.(st_action);
        row_resource := event.(st_resource); row_outcome := event.(st_outcome);
        row_outcome_detail := Some event.(st_outcome_detail); row_details := d;
        row_client_ip := ip; row_signature := Some sig;
        row_timestamp := timestamptz event.(st_timestamp); row_seq := s; row_prev_hash := prev |}.

Definition sql_fails (what : string) (io : option string) : vresult () :=
  match io with Some e => Err (Database (what +:+ e)) | None => Ok tt end.

(** The transaction up to its commit: the new row and the link it was given. *)
Definition append_row (io : AppendIo) (t : Table) (event : StoredAuditEvent)
    (sign : Z -> string -> string) : vresult (AuditRow * (Z * string)) :=
  tenant ← parse_tenant event.(st_tenant_id);
  sql_fails "could not begin audit transaction: " io.(io_begin);;
  sql_fails "could not lock the audit chain: " io.(io_lock);;
  sql_fails "could not read the audit chain tip: " io.(io_tip);;
  let '(s, prev) := next_link (audit_chain_tip t tenant) in
  let sig := sign s prev in
  sql_fails "" io.(io_insert);;
  row ← stored_row event tenant sig (Some s) (Some prev);
  Ok (row, (s, prev)).

Definition insert_event_chained (io : AppendIo) (t : Table) (event : StoredAuditEvent)
    (sign : Z -> string -> string) : vresult (Z * string) * Table :=
  match append_row io t event sign with
  | Err e => (Err e, t)
  | Ok (row, link) =>
      match io.(io_commit) with
      | None => (Ok link, t ++ [row])
      | Some (e, applied) =>
          (Err (Database ("could not commit the audit record: " +:+ e)),
           if applied then t ++ [row] else t)
      end
  end.

Definition audit_chain_breaks (io : option string) (t : Table) (tenant : string) :
    vresult (list (Z * string)) :=
  tenant ← parse_tenant tenant;
  sql_fails "chain verification query failed: " io;;
  Ok (sql_audit_chain_breaks t tenant).

Definition insert_event (io : option string) (t : Table) (event : StoredAuditEvent) : vresult Table :=
  tenant ← parse_tenant event.(st_tenant_id);
  sql_fails "" io;;
  row ← stored_row event tenant event.(st_signature) None None;
  Ok (t ++ [row]).

(** [$n IS NULL OR P $n] *)
Definition unless_null {A} (p : option A) (P : A -> bool) : bool :=
  match p with None => true | Some a => P a end.

Definition row_matches (tenant : option string) (start_time end_time : option Z)
    (action_filter principal_filter : option string) (r : AuditRow) : bool :=
  unless_null tenant (fun u => bool_decide (r.(row_tenant_id) = u))
  && unless_null start_time (fun b => timestamptz b <=? r.(row_timestamp))
  && unless_null end_time (fun b => r.(row_timestamp) <=? timestamptz b)
  && unless_null action_filter (fun a => bool_decide (r.(row_action) = a))
  && unless_null principal_filter (fun a => bool_decide (r.(row_principal_id) = a)).

Definition event_of_row (r : AuditRow) : StoredAuditEvent :=
  {| st_id := r.(row_id); st_tenant_id := r.(row_tenant_id);
     st_principal_id := r.(row_principal_id); st_action := r.(row_action);
     st_resource := r.(row_resource); st_outcome := r.(row_outcome);
     st_outcome_detail := default "" r.(row_outcome_detail); st_details := r.(row_details);
     st_client_ip := default "" r.(row_client_ip); st_signature := default "" r.(row_signature);
     st_timestamp := r.(row_timestamp); st_seq := default 0 r.(row_seq);
     st_prev_hash := default "" r.(row_prev_hash) |}.

(** The two statements see the same rows. *)
Definition stored_query_events (io_count io_page : option string) (t : Table)
    (tenant : option string) (start_time end_time : option Z)
    (action_filter principal_filter : option string) (lim offset : Z) :
    vresult (list StoredAuditEvent * Z) :=
  tenant ← match tenant with None => Ok None | Some s => Some <$> parse_tenant s end;
  sql_fails "" io_count;;
  text_params [default "" action_filter; default "" principal_filter];;
  let hits := filter (fun r => row_matches tenant start_time end_time action_filter
                                 principal_filter r = true) t in
  sql_fails "" io_page;;
  let page := limit lim (drop (Z.to_nat offset) (order_by timestamp_desc hits)) in
  Ok (event_of_row <$> page, len hits).

End Store.

(** ** store.rs: the in-memory backend *)

Definition mem_insert_record (store : list AuditRecord) (record : AuditRecord) : list AuditRecord :=
  store ++ [{| id := record.(id); tenant_id := record.(tenant_id);
               principal_id := record.(principal_id); action := record.(action);
               resource := record.(resource); outcome := record.(outcome);
               outcome_detail := record.(outcome_detail); details := record.(details);
               client_ip := record.(client_ip); signature := record.(signature);
               timestamp := record.(timestamp); seq := as_i64 (len store + 1);
               prev_hash := default "" (signature <$> last store);
               verified := record.(verified) |}].

Definition record_matches (tenant : string) (start_time end_time : option Z)
    (action_filter principal_filter : option string) (r : AuditRecord) : bool :=
  bool_decide (r.(tenant_id) = tenant)
  && unless_null start_time (fun t => t <=? r.(timestamp))
  && unless_null end_time (fun t => r.(timestamp) <=? t)
  && unless_null action_filter (fun f => Str.is_empty f || bool_decide (r.(action) = f))
  && unless_null principal_filter (fun f => Str.is_empty f || bool_decide (r.(principal_id) = f)).

Definition mem_query_events (store : list AuditRecord) (tenant : string)
    (start_time end_time : option Z) (action_filter principal_filter : option string)
    (lim offset : Z) : list AuditRecord * Z :=
  let matching := filter (fun r => record_matches tenant start_time end_time action_filter
                                     principal_filter r = true) store in
  let rest := drop (Z.to_nat offset) matching in
  (if lim =? 0 then rest else take (Z.to_nat lim) rest, len matching).

(** ** pg_store.rs *)

Definition record_to_stored (record : AuditRecord) : StoredAuditEvent :=
  {| st_id := record.(id); st_tenant_id := record.(tenant_id);
     st_principal_id := record.(principal_id); st_action := record.(action);
     st_resource := record.(resource); st_outcome := record.(outcome);
     st_outcome_detail := record.(outcome_detail); st_details := record.(details);
     st_client_ip := record.(client_ip); st_signature := record.(signature);
     st_timestamp := record.(timestamp); st_seq := record.(seq);
     st_prev_hash := record.(prev_hash) |}.

Definition stored_to_record (event : StoredAuditEvent) : AuditRecord :=
  {| id := event.(st_id); tenant_id := event.(st_tenant_id);
     principal_id := event.(st_principal_id); action := event.(st_action);
     resource := event.(st_resource); outcome := event.(st_outcome);
     outcome_detail := event.(st_outcome_detail); details := event.(st_details);
     client_ip := event.(st_client_ip); signature := event.(st_signature);
     timestamp := event.(st_timestamp); seq := event.(st_seq);
     prev_hash := event.(st_prev_hash); verified := None |}.

Definition set_verified (r : AuditRecord) (ok : bool) : AuditRecord :=
  {| id := r.(id); tenant_id := r.(tenant_id); principal_id := r.(principal_id);
     action := r.(action); resource := r.(resource); outcome := r.(outcome);
     outcome_detail := r.(outcome_detail); details := r.(details); client_ip := r.(client_ip);
     signature := r.(signature); timestamp := r.(timestamp); seq := r.(seq);
     prev_hash := r.(prev_hash); verified := Some ok |}.

Definition I32_MAX : Z := 2147483647.

(** What the environment answers during a read. *)
Record ReadIo := { io_count : option string; io_page : option string; io_breaks : option string }.

Section Backends.
Context `{Primitives, Mac, SqlText, Uuids, Platform} (debug_str : string -> string).

(** [err.to_string()] *)
Definition told {A} (r : vresult A) : result (fault string) A :=
  match r with Ok a => Ok a | Err e => Err (Failed (display debug_str e)) end.

Definition pg_insert_record (io : AppendIo) (signer : AuditSigner) (t : Table)
    (record : AuditRecord) : result (fault string) () * Table :=
  match key_for signer record.(tenant_id) with
  | Err e => (Err e, t)
  | Ok signing_key =>
      let event := record_to_stored record in
      let '(r, t') := insert_event_chained io t event
                        (fun s prev => sign_event_chained record signing_key s prev) in
      (_ ← told r; Ok tt, t')
  end.

(** A record of a page, with the outcome of its signature check. *)
Definition read_back (key : string) (e : StoredAuditEvent) : AuditRecord :=
  let r := stored_to_record e in
  set_verified r (verify_signature r key r.(signature)).

Definition pg_query_events (io : ReadIo) (signer : AuditSigner) (t : Table) (tenant : string)
    (start_time end_time : option Z) (action_filter principal_filter : option string)
    (lim offset : Z) : result (fault string) (list AuditRecord * Z) :=
  found ← told (stored_query_events io.(io_count) io.(io_page) t (Some tenant)
      start_time end_time action_filter principal_filter (Z.min lim I32_MAX) (Z.min offset I32_MAX));
  key ← key_for signer tenant;
  Ok (List.map (read_back key) found.1, found.2).

(** [dyn AuditStoreBackend]: main.rs picks the variant by [DATABASE_URL]. *)
Inductive Backend :=
| InMemory (records : list AuditRecord)
| Postgres (table : Table).

Definition insert_record (io : AppendIo) (signer : AuditSigner) (self : Backend)
    (record : AuditRecord) : result (fault string) () * Backend :=
  match self with
  | InMemory records => (Ok tt, InMemory (mem_insert_record records record))
  | Postgres t => let '(r, t') := pg_insert_record io signer t record in (r, Postgres t')
  end.

Definition query_events (io : ReadIo) (signer : AuditSigner) (self : Backend) (tenant : string)
    (start_time end_time : option Z) (action_filter principal_filter : option string)
    (lim offset : Z) : result (fault string) (list AuditRecord * Z) :=
  match self with
  | InMemory records => Ok (mem_query_events records tenant start_time end_time action_filter
                              principal_filter lim offset)
  | Postgres t => pg_query_events io signer t tenant start_time end_time action_filter
                    principal_filter lim offset
  end.

Definition chain_breaks (io : ReadIo) (self : Backend) (tenant : string) :
    result (fault string) (list (Z * string)) :=
  match self with
  | InMemory _ => Ok []
  | Postgres t => told (audit_chain_breaks io.(io_breaks) t tenant)
  end.

(** ** grpc.rs *)

Record EmitEventRequest := {
  em_tenant_id : string;
  em_principal_id : string;
  em_action : string;
  em_resource : string;
  em_outcome : string;
  em_outcome_detail : string;
  em_details_json : string;
  em_client_ip : string;
}.

(** A status, or the panic of the task. *)
Abbreviation Answer := (result (fault Status)).

Definition refused {A} (what : string) (r : result (fault string) A) : Answer A :=
  match r with
  | Ok a => Ok a
  | Err (Failed e) => Err (Failed (InternalStatus (what +:+ e)))
  | Err Panicked => Err Panicked
  end.

Definition parse_details (details_json : string) : Answer Json :=
  if Str.is_empty details_json then Ok JNull
  else match json_parse details_json with
       | Ok v => Ok v
       | Err e => Err (Failed (InvalidArgument ("invalid details_json: " +:+ e)))
       end.

(** The record before it is signed; [Uuid::now_v7] and [Utc::now] are given. *)
Definition unsigned (uuid : string) (now : Z) (req : EmitEventRequest) (d : Json) : AuditRecord :=
  {| id := uuid; tenant_id := req.(em_tenant_id); principal_id := req.(em_principal_id);
     action := req.(em_action); resource := req.(em_resource); outcome := req.(em_outcome);
     outcome_detail := req.(em_outcome_detail); details := d; client_ip := req.(em_client_ip);
     signature := ""; timestamp := now; seq := 0; prev_hash := ""; verified := None |}.

Definition set_signature (r : AuditRecord) (sig : string) : AuditRecord :=
  {| id := r.(id); tenant_id := r.(tenant_id); principal_id := r.(principal_id);
     action := r.(action); resource := r.(resource); outcome := r.(outcome);
     outcome_detail := r.(outcome_detail); details := r.(details); client_ip := r.(client_ip);
     signature := sig; timestamp := r.(timestamp); seq := r.(seq);
     prev_hash := r.(prev_hash); verified := r.(verified) |}.

Definition emit_event (io : AppendIo) (signer : AuditSigner) (self : Backend) (uuid : string)
    (now : Z) (req : EmitEventRequest) : Answer string * Backend :=
  if Str.is_empty req.(em_tenant_id)
  then (Err (Failed (InvalidArgument "tenant_id is required")), self)
  else if Str.is_empty req.(em_action)
  then (Err (Failed (InvalidArgument "action is required")), self)
  else match parse_details req.(em_details_json) with
       | Err e => (Err e, self)
       | Ok d =>
           let record := unsigned uuid now req d in
           match key_for signer record.(tenant_id) with
           | Err e => (Err e, self)
           | Ok key =>
               let record := set_signature record (sign_event record key) in
               let '(r, self') := insert_record io signer self record in
               (_ ← refused "audit record was not persisted: " r; Ok uuid, self')
           end
       end.

Definition parse_optional_timestamp (s : string) : Answer (option Z) :=
  if Str.is_empty s then Ok None
  else match parse_from_rfc3339 s with
       | Ok t => Ok (Some t)
       | Err e => Err (Failed (InvalidArgument
                    ("invalid timestamp '" +:+ s +:+ "': " +:+ e)))
       end.

Record QueryEventsRequest := {
  q_tenant_id : string;
  q_start_time : string;
  q_end_time : string;
  q_action_filter : string;
  q_principal_filter : string;
  q_limit : Z;
  q_offset : Z;
}.

Record AuditEventInfo := {
  in_event_id : string;
  in_tenant_id : string;
  in_principal_id : string;
  in_action : string;
  in_resource : string;
  in_outcome : string;
  in_timestamp : string;
  in_client_ip : string;
}.

Definition info_of (r : AuditRecord) : AuditEventInfo :=
  {| in_event_id := r.(id); in_tenant_id := r.(tenant_id); in_principal_id := r.(principal_id);
     in_action := r.(action); in_resource := r.(resource); in_outcome := r.(outcome);
     in_timestamp := to_rfc3339 r.(timestamp); in_client_ip := r.(client_ip) |}.

Definition non_empty (s : string) : option string := if Str.is_empty s then None else Some s.

(** The response, and the breaks reported in the service's log. *)
Definition grpc_query_events (io : ReadIo) (signer : AuditSigner) (self : Backend)
    (req : QueryEventsRequest) :
    Answer (list AuditEventInfo * Z) * result (fault string) (list (Z * string)) :=
  let answer :=
    if Str.is_empty req.(q_tenant_id)
    then Err (Failed (InvalidArgument "tenant_id is required"))
    else start_time ← parse_optional_timestamp req.(q_start_time);
         end_time ← parse_optional_timestamp req.(q_end_time);
         found ← refused "audit query failed: "
           (query_events io signer self req.(q_tenant_id) start_time end_time
              (non_empty req.(q_action_filter)) (non_empty req.(q_principal_filter))
              (Z.max req.(q_limit) 0) (Z.max req.(q_offset) 0));
         Ok (List.map info_of found.1, found.2) in
  (answer, match answer with Ok _ => chain_breaks io self req.(q_tenant_id) | Err _ => Ok [] end).

(** ** http.rs *)

Definition DEFAULT_LIMIT : Z := 100.
Definition MAX_LIMIT : Z := 1000.

Record EventsQuery := {
  eq_limit : option Z;
  eq_offset : option Z;
  eq_action : option string;
  eq_principal : option string;
  eq_from : option string;
  eq_to : option string;
}.

Record AuditEventView := {
  v_event_id : string;
  v_action : string;
  v_resource : string;
  v_principal : string;
  v_outcome : string;
  v_timestamp : Z;
  v_outcome_detail : option string;
  v_ip_address : option string;
  v_metadata : option Json;
  v_verified : option bool;
}.

Definition view_of (r : AuditRecord) : AuditEventView :=
  {| v_event_id := r.(id); v_action := r.(action); v_resource := r.(resource);
     v_principal := r.(principal_id); v_outcome := r.(outcome); v_timestamp := r.(timestamp);
     v_outcome_detail := non_empty r.(outcome_detail); v_ip_address := non_empty r.(client_ip);
     v_metadata := if is_null r.(details) then None else Some r.(details);
     v_verified := r.(verified) |}.

Inductive EventsReply :=
| Events (events : list AuditEventView) (total : Z)
| Message (status : Z) (message : string)
| Dropped.

Definition parse_bound (raw : option string) (field : string) : result EventsReply (option Z) :=
  match raw with
  | None => Ok None
  | Some s =>
      if Str.is_empty (Str.trim s) then Ok None
      else match parse_from_rfc3339 s with
           | Ok t => Ok (Some t)
           | Err e => Err (Message 400 ("`" +:+ field +:+ "` must be an RFC 3339 timestamp: " +:+ e))
           end
  end.

Definition clamp (z lo hi : Z) : Z := if z <? lo then lo else if hi <? z then hi else z.

Definition empty_to_none (s : option string) : option string :=
  v ← s; if Str.is_empty (Str.trim v) then None else Some v.

Context {auth : Authenticator}.

Definition list_events (io : ReadIo) (signer : AuditSigner) (store : Backend)
    (headers : HeaderMap) (q : EventsQuery) : EventsReply :=
  match resolve headers with
  | Err reason => Message 401 reason
  | Ok who =>
      match parse_bound q.(eq_from) "from" with
      | Err resp => resp
      | Ok start_time =>
          match parse_bound q.(eq_to) "to" with
          | Err resp => resp
          | Ok end_time =>
              match query_events io signer store who.(Auth.tenant_id) start_time end_time
                      (empty_to_none q.(eq_action)) (empty_to_none q.(eq_principal))
                      (clamp (default DEFAULT_LIMIT q.(eq_limit)) 1 MAX_LIMIT)
                      (default 0 q.(eq_offset)) with
              | Ok (records, total) => Events (view_of <$> records) total
              | Err (Failed _) => Message 500 "audit query failed"
              | Err Panicked => Dropped
              end
          end
      end
  end.

End Backends.
End Trail.

(** ** Sorting a chain *)

Lemma insert_by_last {A} (le : A -> A -> bool) x l :
  (forall y, y ∈ l -> le x y = false) -> insert_by le x l = l ++ [x].
Proof.
  induction l as [|y l IH]; intros Hl; [done|]. cbn [insert_by]. rewrite (Hl y) by set_solver.
  rewrite IH by set_solver. done.
Qed.

Lemma StronglySorted_weaken {A} (R S : A -> A -> Prop) l :
  (forall x y, R x y -> S x y) -> StronglySorted R l -> StronglySorted S l.
Proof. intros HRS. induction 1; constructor; [done|]. eapply Forall_impl; [done|]. auto. Qed.

Lemma StronglySorted_sublist {A} (R : A -> A -> Prop) l k :
  l `sublist_of` k -> StronglySorted R k -> StronglySorted R l.
Proof.
  induction 1 as [|x l k Hlk IH|x l k Hlk IH]; intros Hk; [done| |];
    apply StronglySorted_inv in Hk as [Hk Hx]; [|by apply IH].
  constructor; [by apply IH|]. rewrite Forall_forall in Hx |- *. intros y Hy. apply Hx.
  by apply (sublist_subseteq l k).
Qed.

Lemma order_by_reverse {A} (le : A -> A -> bool) l :
  StronglySorted (fun x y => le x y = false) l -> order_by le l = reverse l.
Proof.
  induction 1 as [|x l Hl IH Hx]; [done|]. cbn [order_by]. rewrite IH, reverse_cons.
  apply insert_by_last. intros y Hy. rewrite elem_of_reverse in Hy.
  by rewrite Forall_forall in Hx; apply Hx.
Qed.

Lemma order_by_id {A} (le : A -> A -> bool) l :
  Sorted (fun x y => le x y = true) l -> order_by le l = l.
Proof.
  induction 1 as [|x l Hl IH Hx]; [done|]. cbn [order_by]. rewrite IH.
  destruct Hx as [|y l Hxy]; [done|]. cbn [insert_by]. by rewrite Hxy.
Qed.

(** ** Appends beside each other

    The append transaction, one statement at a time. [history] keeps the
    records whose append committed, in the order of the commits. *)

Module Appends.
Import Trail.

Inductive Phase :=
| Begun
| Holding
| Placed (s : Z) (prev : string)
| Written (row : AuditRow).

Record Tx := { tx_record : AuditRecord; tx_tenant : string; tx_phase : Phase }.

Record Db := {
  committed : Table;
  history : list AuditRecord;
  txs : gmap nat Tx;
  locks : gmap Z nat;  (* advisory locks and their holders *)
}.

Definition empty : Db := {| committed := []; history := []; txs := ∅; locks := ∅ |}.

Definition set_tx (db : Db) (n : nat) (x : Tx) : Db :=
  {| committed := db.(committed); history := db.(history); txs := <[n := x]> db.(txs);
     locks := db.(locks) |}.

(** The end of a transaction frees its locks. *)
Definition end_tx (db : Db) (n : nat) : Db :=
  {| committed := db.(committed); history := db.(history); txs := delete n db.(txs);
     locks := filter (fun kv => kv.2 <> n) db.(locks) |}.

Definition take_lock (db : Db) (h : Z) (n : nat) : Db :=
  {| committed := db.(committed); history := db.(history); txs := db.(txs);
     locks := <[h := n]> db.(locks) |}.

Definition commit_row (db : Db) (row : AuditRow) (r : AuditRecord) : Db :=
  {| committed := db.(committed) ++ [row]; history := db.(history) ++ [r]; txs := db.(txs);
     locks := db.(locks) |}.

Section Appends.
Context `{Primitives, Mac, SqlText, Uuids, Platform} (hashtext : string -> Z) (signer : AuditSigner).

(** The row the service writes for a record at a position of its chain. *)
Definition written (r : AuditRecord) (u : string) (s : Z) (prev : string) : vresult AuditRow :=
  key ← match key_for signer r.(tenant_id) with
        | Ok k => Ok k
        | Err (Failed e) => Err e
        | Err Panicked => Err (Internal "")
        end;
  stored_row (record_to_stored r) u (sign_event_chained r key s prev) (Some s) (Some prev).

Inductive step : Db -> Db -> Prop :=
| step_begin db n r u :
    db.(txs) !! n = None -> uuid_parse r.(tenant_id) = Ok u ->
    step db (set_tx db n {| tx_record := r; tx_tenant := u; tx_phase := Begun |})
| step_lock db n r u :
    db.(txs) !! n = Some {| tx_record := r; tx_tenant := u; tx_phase := Begun |} ->
    db.(locks) !! hashtext u = None ->
    step db (set_tx (take_lock db (hashtext u) n) n
               {| tx_record := r; tx_tenant := u; tx_phase := Holding |})
| step_tip db n r u s prev :
    db.(txs) !! n = Some {| tx_record := r; tx_tenant := u; tx_phase := Holding |} ->
    next_link (audit_chain_tip db.(committed) u) = (s, prev) ->
    step db (set_tx db n {| tx_record := r; tx_tenant := u; tx_phase := Placed s prev |})
| step_insert db n r u s prev row :
    db.(txs) !! n = Some {| tx_record := r; tx_tenant := u; tx_phase := Placed s prev |} ->
    written r u s prev = Ok row ->
    step db (set_tx db n {| tx_record := r; tx_tenant := u; tx_phase := Written row |})
| step_commit db n r u row :
    db.(txs) !! n = Some {| tx_record := r; tx_tenant := u; tx_phase := Written row |} ->
    step db (end_tx (commit_row db row r) n)
| step_rollback db n x :
    db.(txs) !! n = Some x -> step db (end_tx db n).

(** ** The chain a list of records stands for *)

Definition signature_at (r : AuditRecord) (s : Z) (prev : string) : string :=
  match key_for (E := string) signer r.(tenant_id) with
  | Ok key => sign_event_chained r key s prev
  | Err _ => ""
  end.

(** Each record with its position and the signature it commits to. *)
Fixpoint placed (n : Z) (prev : string) (es : list AuditRecord) : list (AuditRecord * (Z * string)) :=
  match es with
  | [] => []
  | r :: es' => (r, (n + 1, prev)) :: placed (n + 1) (signature_at r (n + 1) prev) es'
  end.

Definition history_of (u : string) (es : list AuditRecord) : list AuditRecord :=
  filter (fun r => uuid_parse r.(tenant_id) = Ok u) es.

Definition chain_is (u : string) (db : Db) : Prop :=
  Forall2 (fun e row => written e.1 u e.2.1 e.2.2 = Ok row)
    (placed 0 "" (history_of u db.(history))) (chain_of u db.(committed)).

(** ** Lemmas *)

Lemma written_spec r u s prev row :
  written r u s prev = Ok row ->
  row.(row_tenant_id) = u /\ row.(row_seq) = Some s /\ row.(row_prev_hash) = Some prev /\
  row.(row_signature) = Some (signature_at r s prev).
Proof.
  unfold written, signature_at, key_for. destruct (derive_key _ _ _) as [key|e]; [|done]. cbn.
  unfold stored_row. intros Hr. repeat (apply result_bind_ok in Hr as (? & _ & Hr)).
  by simplify_eq/=.
Qed.

Lemma placed_app n prev es es' :
  placed n prev (es ++ es') =
  placed n prev es ++ placed (n + len es) (default prev (last (placed n prev es) ≫=
    fun e => Some (signature_at e.1 e.2.1 e.2.2))) es'.
Proof.
  revert n prev. induction es as [|r es IH]; intros n prev; cbn [app placed].
  - cbn. by rewrite Z.add_0_r.
  - rewrite IH. cbn [app]. do 3 f_equal.
    + unfold len. cbn [List.length]. lia.
    + destruct (placed (n + 1) _ es) as [|e l] eqn:He; [done|].
      change ((r, (n + 1, prev)) :: e :: l) with ([(r, (n + 1, prev))] ++ e :: l).
      rewrite last_app_cons. destruct (last (e :: l)) eqn:Hl; [done|].
      by rewrite last_None in Hl.
Qed.

Lemma placed_length n prev es : List.length (placed n prev es) = List.length es.
Proof. revert n prev. induction es as [|r es IH]; intros; [done|]. cbn. by rewrite IH. Qed.

Lemma placed_lookup n prev es i e :
  placed n prev es !! i = Some e -> es !! i = Some e.1 /\ e.2.1 = n + Z.of_nat i + 1.
Proof.
  revert n prev i. induction es as [|r es IH]; intros n prev [|i]; cbn [placed]; try done.
  - intros [= <-]. cbn. split; [done|lia].
  - intros He. apply IH in He as [? ?]. split; [done|lia].
Qed.

Lemma placed_next n prev es i e e' :
  placed n prev es !! i = Some e -> placed n prev es !! S i = Some e' ->
  e'.2.2 = signature_at e.1 e.2.1 e.2.2.
Proof.
  revert n prev i. induction es as [|r es IH]; intros n prev [|i]; cbn [placed]; try done.
  - destruct es as [|r' es]; [done|]. by intros [= <-] [= <-].
  - apply IH.
Qed.

Lemma chain_app u t t' : chain_of u (t ++ t') = chain_of u t ++ chain_of u t'.
Proof. apply filter_app. Qed.

Section Rows.
Context (u : string) (n : Z) (prev : string) (es : list AuditRecord) (rows : Table).
Hypothesis Hrows : Forall2 (fun e row => written e.1 u e.2.1 e.2.2 = Ok row) (placed n prev es) rows.

Lemma chain_lookup i row :
  rows !! i = Some row -> exists r p, es !! i = Some r /\
    placed n prev es !! i = Some (r, (n + Z.of_nat i + 1, p)) /\
    written r u (n + Z.of_nat i + 1) p = Ok row.
Proof.
  intros Hi. destruct (Forall2_lookup_r _ _ _ _ _ Hrows Hi) as ([r [s p]] & Hp & Hw).
  destruct (placed_lookup _ _ _ _ _ Hp) as [He Hs]. cbn in *. subst s. eauto.
Qed.

Lemma chain_seq i row : rows !! i = Some row -> row.(row_seq) = Some (n + Z.of_nat i + 1).
Proof. intros (r & p & _ & _ & Hw)%chain_lookup. apply written_spec in Hw. naive_solver. Qed.

Lemma chain_ascending :
  StronglySorted (fun a b => default 0 a.(row_seq) < default 0 b.(row_seq)) rows.
Proof.
  assert (Hlt : forall i j a b, (i < j)%nat -> rows !! i = Some a -> rows !! j = Some b ->
            default 0 a.(row_seq) < default 0 b.(row_seq)).
  { intros i j a b Hij Ha Hb. rewrite (chain_seq _ _ Ha), (chain_seq _ _ Hb). cbn. lia. }
  clear Hrows. induction rows as [|a l IH]; constructor.
  - apply IH. intros i j x y Hij. apply (Hlt (S i) (S j)); lia.
  - apply Forall_forall. intros b [j Hj]%list_elem_of_lookup. apply (Hlt 0%nat (S j)); [lia|done|done].
Qed.

Lemma chain_sorted_asc : order_by seq_asc rows = rows.
Proof.
  apply order_by_id, StronglySorted_Sorted. generalize chain_ascending.
  apply StronglySorted_weaken. intros a b Hab. unfold seq_asc. lia.
Qed.

Lemma chain_sorted_desc : order_by seq_desc rows = reverse rows.
Proof.
  apply order_by_reverse. generalize chain_ascending.
  apply StronglySorted_weaken. intros a b Hab. unfold seq_desc, seq_asc. lia.
Qed.

(** The link after the chain: one further than its length, after the signature
    of its last record. *)
Lemma chain_next_link :
  head (order_by seq_desc rows) ≫=
    (fun r => Some (default 0 r.(row_seq), default "" r.(row_signature)))
  = e ← last (placed n prev es); Some (n + len rows, signature_at e.1 e.2.1 e.2.2).
Proof.
  rewrite chain_sorted_desc. rewrite head_reverse.
  assert (Hlen : List.length (placed n prev es) = List.length rows) by exact (Forall2_length _ _ _ Hrows).
  rewrite !last_lookup, Hlen.
  destruct (rows !! pred (List.length rows)) as [row|] eqn:Hrow.
  - destruct (chain_lookup _ _ Hrow) as (r & p & _ & Hp & Hw). rewrite Hp.
    apply written_spec in Hw as (_ & Hs & _ & Hsig). cbn. rewrite Hs, Hsig. cbn.
    apply lookup_lt_Some in Hrow. unfold len. do 2 f_equal. lia.
  - destruct (placed n prev es !! _) eqn:Hp; [|done].
    apply lookup_ge_None in Hrow. apply lookup_lt_Some in Hp. lia.
Qed.

End Rows.

Lemma as_i64_small z : - 2 ^ 63 <= z < 2 ^ 63 -> as_i64 z = z.
Proof. intros Hz. unfold as_i64. rewrite Z.mod_small by lia. lia. Qed.

Lemma len_chain u t : len (chain_of u t) <= len t.
Proof.
  unfold len, chain_of. apply Nat2Z.inj_le. induction t as [|r t IH]; [done|].
  rewrite filter_cons. case_decide; cbn [List.length]; lia.
Qed.

Lemma next_link_of_chain u db :
  chain_is u db -> len db.(committed) < 2 ^ 63 - 1 ->
  next_link (audit_chain_tip db.(committed) u) =
  (len (chain_of u db.(committed)) + 1,
   default "" (e ← last (placed 0 "" (history_of u db.(history)));
               Some (signature_at e.1 e.2.1 e.2.2))).
Proof.
  intros Hc Hlen. unfold audit_chain_tip. rewrite (chain_next_link _ _ _ _ _ Hc).
  pose proof (len_chain u db.(committed)) as Hle.
  pose proof (len_nonneg (chain_of u db.(committed))) as Hpos.
  assert (Hl : List.length (placed 0 "" (history_of u db.(history)))
               = List.length (chain_of u db.(committed))) by exact (Forall2_length _ _ _ Hc).
  destruct (last (placed 0 "" _)) as [e|] eqn:He; cbn.
  - rewrite as_i64_small by lia. f_equal; lia.
  - apply last_None in He. rewrite He in Hl. unfold len. rewrite <- Hl. done.
Qed.

Lemma chain_is_snoc u db row r s prev :
  chain_is u db -> len db.(committed) < 2 ^ 63 - 1 -> uuid_parse r.(tenant_id) = Ok u ->
  next_link (audit_chain_tip db.(committed) u) = (s, prev) -> written r u s prev = Ok row ->
  chain_is u (commit_row db row r).
Proof.
  intros Hc Hlen Hu Hlink Hw. rewrite next_link_of_chain in Hlink by done.
  injection Hlink as Hs Hp. pose proof (written_spec _ _ _ _ _ Hw) as (Ht & Hseq & _).
  unfold chain_is. cbn [committed history commit_row]. rewrite chain_app.
  unfold history_of. rewrite filter_app. fold (history_of u db.(history)).
  replace (filter _ [r]) with [r] by (by rewrite filter_cons_True).
  replace (chain_of u [row]) with [row]
    by (unfold chain_of; rewrite filter_cons_True; [done|]; split; [done|by rewrite Hseq]).
  rewrite placed_app. apply Forall2_app; [exact Hc|]. constructor; [|constructor].
  cbn [placed fst snd]. rewrite Hp.
  replace (0 + len (history_of u db.(history)) + 1) with s; [done|].
  subst s. unfold len. rewrite <- (Forall2_length _ _ _ Hc), placed_length. lia.
Qed.

Lemma chain_is_other u v db row r s prev :
  u <> v -> uuid_parse r.(tenant_id) = Ok v -> written r v s prev = Ok row ->
  chain_is u db -> chain_is u (commit_row db row r).
Proof.
  intros Huv Hv Hw Hc. pose proof (written_spec _ _ _ _ _ Hw) as (Ht & _).
  unfold chain_is. cbn [committed history commit_row]. rewrite chain_app.
  unfold history_of. rewrite filter_app. fold (history_of u db.(history)).
  replace (filter _ [r]) with (@nil AuditRecord) by (rewrite filter_cons_False; [done|congruence]).
  replace (chain_of u [row]) with (@nil AuditRow)
    by (unfold chain_of; rewrite filter_cons_False; [done|]; intros [? _]; congruence).
  by rewrite !app_nil_r.
Qed.

Lemma tip_other u t row : row.(row_tenant_id) <> u ->
  audit_chain_tip (t ++ [row]) u = audit_chain_tip t u.
Proof.
  intros Hu. unfold audit_chain_tip. rewrite chain_app.
  replace (chain_of u [row]) with (@nil AuditRow)
    by (unfold chain_of; rewrite filter_cons_False; [done|]; by intros [? _]).
  by rewrite app_nil_r.
Qed.

(** ** The invariant *)

Definition tx_ok (db : Db) (n : nat) (x : Tx) : Prop :=
  let link := next_link (audit_chain_tip db.(committed) x.(tx_tenant)) in
  uuid_parse x.(tx_record).(tenant_id) = Ok x.(tx_tenant) /\
  (x.(tx_phase) <> Begun -> db.(locks) !! hashtext x.(tx_tenant) = Some n) /\
  match x.(tx_phase) with
  | Begun | Holding => True
  | Placed s prev => link = (s, prev)
  | Written row => written x.(tx_record) x.(tx_tenant) link.1 link.2 = Ok row
  end.

Lemma holding_or_not p : p = Begun \/ p <> Begun.
Proof. destruct p; auto. Qed.

Definition inv (db : Db) : Prop :=
  map_Forall (tx_ok db) db.(txs) /\ (len db.(committed) < 2 ^ 63 -> forall u, chain_is u db).

Lemma inv_set_tx db n x : inv db -> tx_ok db n x -> inv (set_tx db n x).
Proof.
  intros [Ht Hc] Hx. split; [|exact Hc]. by apply map_Forall_insert_2.
Qed.

Lemma inv_take_lock db n u : inv db -> db.(locks) !! hashtext u = None -> inv (take_lock db (hashtext u) n).
Proof.
  intros [Ht Hc] Hfree. split; [|exact Hc]. intros m x Hm. destruct (Ht m x Hm) as (Hu & Hl & Hp).
  split; [exact Hu|]. split; [|exact Hp]. intros Hph. cbn [take_lock locks].
  specialize (Hl Hph). rewrite lookup_insert_ne; [done|congruence].
Qed.

Lemma inv_end_tx db n : inv db -> inv (end_tx db n).
Proof.
  intros [Ht Hc]. split; [|exact Hc]. intros m x. cbn [end_tx txs].
  rewrite lookup_delete_Some. intros [Hne Hm]. destruct (Ht m x Hm) as (Hu & Hl & Hp).
  split; [exact Hu|]. split; [|exact Hp]. intros Hph. cbn [end_tx locks].
  apply map_lookup_filter_Some. auto.
Qed.

Lemma inv_commit db n r u row :
  inv db -> db.(txs) !! n = Some {| tx_record := r; tx_tenant := u; tx_phase := Written row |} ->
  inv (end_tx (commit_row db row r) n).
Proof.
  intros [Ht Hc] Hn. destruct (Ht n _ Hn) as (Hu & Hl & Hw). cbn in Hu, Hl, Hw.
  specialize (Hl ltac:(done)). split.
  - intros m x. cbn [end_tx commit_row txs]. rewrite lookup_delete_Some. intros [Hne Hm].
    destruct (Ht m x Hm) as (Hu' & Hl' & Hp). split; [exact Hu'|]. split.
    + intros Hph. cbn. apply map_lookup_filter_Some. auto.
    + cbn [end_tx commit_row committed]. destruct (holding_or_not x.(tx_phase)) as [->|Hph]; [done|].
      rewrite tip_other; [done|].
      apply written_spec in Hw as [-> _]. specialize (Hl' Hph). congruence.
  - cbn [end_tx commit_row committed]. rewrite len_app.
    change (len [row]) with 1. intros Hlen v.
    change (chain_is v (commit_row db row r)). pose proof (Hc ltac:(lia)) as Hchains.
    destruct (next_link _) as [s prev] eqn:Hlink. cbn in Hw.
    destruct (decide (v = u)) as [->|Hvu].
    + eapply chain_is_snoc; eauto; lia.
    + eapply chain_is_other; eauto.
Qed.

Lemma inv_step db db' : step db db' -> inv db -> inv db'.
Proof.
  intros Hs Hinv. destruct Hs as [db n r u Hn Hu|db n r u Hn Hfree|db n r u s prev Hn Hlink
    |db n r u s prev row Hn Hw|db n r u row Hn|db n x Hn].
  - by apply inv_set_tx.
  - pose proof (proj1 Hinv n _ Hn) as (Hu & _ & _). apply inv_set_tx; [by apply inv_take_lock|].
    split; [exact Hu|]. split; [|done]. intros _. cbn. by rewrite lookup_insert_eq.
  - pose proof (proj1 Hinv n _ Hn) as (Hu & Hl & _). apply inv_set_tx; [done|].
    split; [exact Hu|]. split; [|exact Hlink]. intros _. by apply Hl.
  - pose proof (proj1 Hinv n _ Hn) as (Hu & Hl & Hp). apply inv_set_tx; [done|].
    split; [exact Hu|]. split; [intros _; by apply Hl|]. cbn in Hp |- *. by rewrite Hp.
  - by eapply inv_commit.
  - by apply inv_end_tx.
Qed.

Definition reachable : Db -> Prop := rtc step empty.

Lemma reachable_inv db : reachable db -> inv db.
Proof.
  assert (H0' : inv empty).
  { split; [apply map_Forall_empty|]. intros _ u. constructor. }
  unfold reachable. generalize dependent empty. intros db0 H0'.
  induction 1 as [|x y z Hxy _ IH]; [done|]. apply IH. by eapply inv_step.
Qed.

End Appends.
End Appends.

(** ** What a log that passes the checks says *)

Module Evidence.
Import Trail Appends.

(** Documented behaviour of the libraries: the texts hold no NUL byte, and a
    UUID or an address that parses held none. *)
Class PlatformLaws `{Uuids, Platform} : Prop := {
  rfc3339_text : forall t, Str.mem NUL (to_rfc3339 t) = false;
  rfc3339_inj : forall t t', to_rfc3339 t = to_rfc3339 t' -> t = t';
  json_no_nul : forall v, Str.mem NUL (json_text v) = false;
  uuid_no_nul : forall s u, uuid_parse s = Ok u -> Str.mem NUL s = false /\ Str.mem NUL u = false;
  inet_no_nul : forall s x, inet_text s = Some x -> Str.mem NUL s = false /\ Str.mem NUL x = false;
}.

(** HMAC-SHA256 and hex, up to the chance of a collision. *)
Class MacLaws `{Primitives, Mac} : Prop := {
  hex_round_trip : forall s, hex_decode (hex_encode s) = Some s;
  hmac_collision_free : forall k k' m m', hmac_sha256 k m = hmac_sha256 k' m' -> m = m';
}.

(** A digest of HMAC-SHA256 is not empty, and the empty text decodes to nothing. *)
Class TagLaws `{Mac} : Prop := {
  hmac_not_empty : forall k m, hmac_sha256 k m <> "";
  hex_decode_nothing : hex_decode "" = Some "";
}.

Definition nul_free (l : list string) : Prop := Forall (fun x => Str.mem NUL x = false) l.

Section Evidence.
Context `{Primitives, Mac, SqlText, Uuids, Platform}.

Definition set_target (r : AuditRecord) (a b : string) : AuditRecord :=
  {| id := r.(id); tenant_id := r.(tenant_id); principal_id := r.(principal_id); action := a;
     resource := b; outcome := r.(outcome); outcome_detail := r.(outcome_detail);
     details := r.(details); client_ip := r.(client_ip); signature := r.(signature);
     timestamp := r.(timestamp); seq := r.(seq); prev_hash := r.(prev_hash);
     verified := r.(verified) |}.

Lemma canonical_fields r s p r' s' p' :
  nul_free (signed_fields r s p) -> nul_free (signed_fields r' s' p') ->
  build_canonical_message_chained r s p = build_canonical_message_chained r' s' p' ->
  signed_fields r s p = signed_fields r' s' p'.
Proof.
  intros Hr Hr' Heq. rewrite <- (Str.split_join NUL (signed_fields r s p)) by done.
  rewrite <- (Str.split_join NUL (signed_fields r' s' p')) by done. by f_equal.
Qed.

Lemma fields_seq r s p r' s' p' : signed_fields r s p = signed_fields r' s' p' -> s = s' /\ p = p'.
Proof. intros [= ]. split; [|done]. by apply (inj pretty). Qed.

Lemma pretty_no_nul (z : Z) : Str.mem NUL (pretty z) = false.
Proof.
  assert (Hp : forall p : positive, Str.mem NUL (pretty p) = false).
  { intros p. apply Dec.digits_no_char; [done|]. apply (Dec.pretty_digits (N.pos p)). }
  destruct z as [|p|p]; [done|apply Hp|]. change (pretty (Z.neg p)) with ("-" +:+ pretty p).
  rewrite Str.mem_app, Hp. done.
Qed.

Section Log.
Context (signer : AuditSigner) `{!PlatformLaws}.

Lemma text_params_ok l : text_params l = Ok tt <-> nul_free l.
Proof.
  unfold text_params, nul_free. case_bool_decide as Hl; split; try done.
  - intros Hn. exfalso. rewrite Exists_exists in Hl. rewrite Forall_forall in Hn.
    destruct Hl as (x & Hx & Hm). by rewrite Hn in Hm.
  - intros _. apply Forall_Exists_neg in Hl. apply Forall_impl with (1 := Hl).
    intros x Hx. by apply not_true_is_false.
Qed.

Lemma written_nul_free r u s p row :
  Str.mem NUL r.(id) = false -> uuid_parse r.(tenant_id) = Ok u -> written signer r u s p = Ok row ->
  nul_free (signed_fields r s p).
Proof.
  intros Hid Hu. unfold written. intros Hw. apply result_bind_ok in Hw as (key & _ & Hw).
  unfold stored_row in Hw. apply result_bind_ok in Hw as ([] & Ht & Hw).
  apply text_params_ok in Ht. cbn in Ht. apply result_bind_ok in Hw as (d & _ & Hw).
  apply result_bind_ok in Hw as (ip & Hip & _). cbn in Hip.
  assert (Hc : Str.mem NUL r.(client_ip) = false).
  { rewrite <- Str.mem_nul_trim. unfold client_ip_or_null in Hip.
    destruct (Str.is_empty (Str.trim _)) eqn:He.
    - unfold Str.is_empty in He. apply bool_decide_eq_true in He. by rewrite He.
    - destruct (inet_text (Str.trim _)) as [x|] eqn:Hx; [|done]. apply (inet_no_nul _ _ Hx). }
  destruct (uuid_no_nul _ _ Hu) as [Hten _].
  unfold nul_free in *. rewrite !Forall_cons in Ht. destruct_and! Ht.
  unfold signed_fields. rewrite !Forall_cons. split_and!;
    first [done|apply rfc3339_text|apply json_no_nul|apply pretty_no_nul].
Qed.

(** ** Breaks *)

Definition follows (a b : AuditRow) : Prop :=
  default 0 b.(row_seq) = default 0 a.(row_seq) + 1 /\
  (is_Some a.(row_signature) -> b.(row_prev_hash) = a.(row_signature)).

Lemma break_at_nil a b : break_at a b = [] <-> follows a b.
Proof.
  unfold break_at, follows. destruct (default 0 b.(row_seq) =? _) eqn:Hs; cbn [negb].
  - case_bool_decide as Hd; split; try done.
    + intros [_ Hf]. destruct Hd as [Hsig Hne]. by rewrite Hf in Hne.
    + intros _. split; [lia|]. intros Hsig. destruct (decide (row_prev_hash b = row_signature a)); [done|].
      by destruct Hd.
  - split; [done|]. intros [? _]. lia.
Qed.

Lemma breaks_nil l :
  breaks_in l = [] <->
  forall i a b, l !! i = Some a -> l !! S i = Some b -> follows a b.
Proof.
  induction l as [|a [|b l] IH]; cbn [breaks_in]; [done| |].
  { split; [|done]. intros _ [|i]; done. }
  rewrite app_nil, break_at_nil, IH. split.
  - intros [Hab Hl] [|i] x y; cbn; [congruence|]. apply (Hl i).
  - intros Hl. split; [by apply (Hl 0%nat)|]. intros i x y. apply (Hl (S i)).
Qed.

Lemma chain_follows u n prev es rows i a b :
  Forall2 (fun e row => written signer e.1 u e.2.1 e.2.2 = Ok row) (placed signer n prev es) rows ->
  rows !! i = Some a -> rows !! S i = Some b -> follows a b.
Proof.
  intros Hrows Ha Hb. destruct (chain_lookup _ _ _ _ _ _ Hrows _ _ Ha) as (r & p & _ & Hp & Hw).
  destruct (chain_lookup _ _ _ _ _ _ Hrows _ _ Hb) as (r' & p' & _ & Hp' & Hw').
  apply written_spec in Hw as (_ & Hs & _ & Hsig). apply written_spec in Hw' as (_ & Hs' & Hprev & _).
  split; [rewrite Hs, Hs'; cbn; lia|]. intros _. rewrite Hsig, Hprev. f_equal.
  exact (placed_next _ _ _ _ _ _ _ Hp Hp').
Qed.

(** ** Theorems *)

(** The record a reader gets for a row. *)
Definition as_read (row : AuditRow) : AuditRecord := stored_to_record (event_of_row row).

Definition fields_read (row : AuditRow) : list string :=
  signed_fields (as_read row) (as_read row).(seq) (as_read row).(prev_hash).

(** The rows of a tenant in the order of their positions, and what the service
    signed for the tenant. *)
Definition log_read (u : string) (t : Table) : list (list string) :=
  fields_read <$> order_by seq_asc (filter (fun r => r.(row_tenant_id) = u) t).

Definition log_signed (u : string) (db : Db) : list (list string) :=
  (fun e => signed_fields e.1 e.2.1 e.2.2) <$> placed signer 0 "" (history_of u db.(history)).

(** A table whose rows all verify under the tenant's key and in which the chain
    query finds nothing. *)
Definition accepted (u key : string) (t : Table) : Prop :=
  Forall (fun r => r.(row_tenant_id) = u ->
            (read_back key (event_of_row r)).(verified) = Some true) t /\
  sql_audit_chain_breaks t u = [].

(** Without the key, only messages the service signed have a valid tag. *)
Definition no_forgery (u key : string) (db : Db) (t : Table) : Prop :=
  Forall (fun r => r.(row_tenant_id) = u ->
            verify_signature (as_read r) key (as_read r).(signature) = true ->
            build_canonical_message (as_read r) ∈ (Str.join NUL <$> log_signed u db)) t.

(** The server stores no text with a NUL byte. *)
Definition texts_stored (t : Table) : Prop := Forall (fun r => nul_free (fields_read r)) t.

Definition ids_are_uuids (db : Db) : Prop := Forall (fun r => Str.mem NUL r.(id) = false) db.(history).

Lemma log_signed_lookup u db i f :
  log_signed u db !! i = Some f -> exists r p, f = signed_fields r (Z.of_nat i + 1) p.
Proof.
  unfold log_signed. rewrite list_lookup_fmap_Some. intros ([r [s p]] & -> & He).
  apply placed_lookup in He as [_ Hs]. cbn in Hs |- *. exists r, p. f_equal. lia.
Qed.

Lemma log_signed_nul_free u db :
  chain_is signer u db -> ids_are_uuids db -> Forall nul_free (log_signed u db).
Proof.
  intros Hc Hids. apply Forall_fmap, Forall_lookup_2. intros i [r [s p]] He.
  destruct (Forall2_lookup_l _ _ _ _ _ Hc He) as (row & _ & Hw). cbn in Hw |- *.
  apply placed_lookup in He as [He _]. cbn in He. apply list_elem_of_lookup_2 in He.
  unfold history_of in He. apply list_elem_of_filter in He as [Hu He].
  unfold ids_are_uuids in Hids. rewrite Forall_forall in Hids. eapply written_nul_free; eauto.
Qed.

(** An accepted row is one the service signed, at the position it claims. *)
Lemma accepted_row u key db t row :
  chain_is signer u db -> ids_are_uuids db -> texts_stored t -> no_forgery u key db t ->
  accepted u key t -> row ∈ t -> row.(row_tenant_id) = u ->
  exists i, log_signed u db !! i = Some (fields_read row) /\ row.(row_seq) = Some (Z.of_nat i + 1).
Proof.
  intros Hc Hids Htext Hforge [Hver _] Hrow Hu. unfold texts_stored, no_forgery in *.
  rewrite Forall_forall in Htext, Hforge, Hver.
  specialize (Hver row Hrow Hu). cbn in Hver. injection Hver as Hver.
  specialize (Hforge row Hrow Hu Hver). apply list_elem_of_fmap in Hforge as (f & Hmsg & Hf).
  pose proof (log_signed_nul_free u db Hc Hids) as Hnul. rewrite Forall_forall in Hnul.
  apply list_elem_of_lookup in Hf as [i Hi]. exists i.
  destruct (log_signed_lookup _ _ _ _ Hi) as (r & p & ->).
  assert (Heq : fields_read row = signed_fields r (Z.of_nat i + 1) p).
  { apply canonical_fields; [by apply Htext| |exact Hmsg]. by eapply Hnul, list_elem_of_lookup_2. }
  rewrite Heq. split; [exact Hi|]. apply fields_seq in Heq as [Hs _]. cbn in Hs.
  destruct row.(row_seq) as [z|]; cbn in Hs; [by f_equal|lia].
Qed.

Lemma consecutive (l : Table) i0 :
  breaks_in l = [] -> (forall a, l !! 0%nat = Some a -> default 0 a.(row_seq) = i0) ->
  forall j a, l !! j = Some a -> default 0 a.(row_seq) = i0 + Z.of_nat j.
Proof.
  intros Hb H00 j. rewrite breaks_nil in Hb. induction j as [|j IH]; intros a Ha.
  - rewrite (H00 a Ha). lia.
  - destruct (l !! j) as [b|] eqn:Hbj.
    + destruct (Hb j b a Hbj Ha) as [-> _]. rewrite (IH b eq_refl). lia.
    + apply lookup_ge_None in Hbj. apply lookup_lt_Some in Ha. lia.
Qed.

Lemma segment_of {A B} (f : A -> B) (l : list A) (m : list B) i0 :
  (forall j a, l !! j = Some a -> m !! (i0 + j)%nat = Some (f a)) ->
  f <$> l = take (List.length l) (drop i0 m).
Proof.
  intros Hl. apply list_eq. intros j. rewrite list_lookup_fmap.
  destruct (l !! j) as [a|] eqn:Ha.
  - rewrite lookup_take_lt by (by eapply lookup_lt_Some). rewrite lookup_drop, (Hl j a Ha). done.
  - apply lookup_ge_None in Ha. by rewrite lookup_take_ge.
Qed.

(** Where the service itself appended to an untouched table, whatever was done to a
    copy of it afterwards: a log whose records verify and whose chain shows no break
    is a contiguous stretch of what was committed for the tenant, in its order. *)
Theorem accepted_log_is_a_segment hashtext db u key t :
  reachable hashtext signer db -> len db.(committed) < 2 ^ 63 -> ids_are_uuids db ->
  texts_stored t -> no_forgery u key db t -> accepted u key t ->
  exists i n, log_read u t = take n (drop i (log_signed u db)).
Proof.
  intros Hreach Hlen Hids Htext Hforge Hacc.
  pose proof (proj2 (reachable_inv _ _ _ Hreach) Hlen u) as Hc.
  pose proof (fun row => accepted_row u key db t row Hc Hids Htext Hforge Hacc) as Hrow.
  assert (Hchain : chain_of u t = filter (fun r => r.(row_tenant_id) = u) t).
  { unfold chain_of. clear -Hrow. induction t as [|r t IH]; [done|].
    rewrite !filter_cons, IH by (intros; apply Hrow; set_solver).
    destruct (decide (r.(row_tenant_id) = u)) as [Hu|Hu].
    - rewrite !decide_True; try done. split; [done|].
      destruct (Hrow r ltac:(set_solver) Hu) as (i & _ & ->). done.
    - by rewrite !decide_False by tauto. }
  destruct Hacc as [_ Hb]. unfold sql_audit_chain_breaks in Hb. rewrite Hchain in Hb.
  unfold log_read. set (rows := order_by seq_asc _) in *.
  assert (Hin : forall j a, rows !! j = Some a -> exists i,
            log_signed u db !! i = Some (fields_read a) /\ default 0 a.(row_seq) = Z.of_nat i + 1).
  { intros j a Ha%list_elem_of_lookup_2. unfold rows in Ha. rewrite order_by_perm in Ha.
    apply list_elem_of_filter in Ha as [Hu Ha]. destruct (Hrow a Ha Hu) as (i & Hi & ->). eauto. }
  destruct (rows !! 0%nat) as [first|] eqn:Hfirst.
  2:{ exists 0%nat, 0%nat. by destruct rows. }
  destruct (Hin _ _ Hfirst) as (i0 & _ & Hs0). exists i0, (List.length rows).
  apply segment_of. intros j a Ha. destruct (Hin j a Ha) as (i & Hi & Hs).
  assert (Hj : default 0 a.(row_seq) = Z.of_nat i0 + 1 + Z.of_nat j).
  { apply (consecutive rows (Z.of_nat i0 + 1) Hb); [|done]. congruence. }
  rewrite <- Hi. f_equal. lia.
Qed.

(** ** Appends to a table that is being tampered with

    The appends of [step], while somebody with access to the database replaces the
    committed rows with others, at any time and as often as he likes. [tips] is the
    table each transaction read its place from, and a [Signing] what the service
    signed, of which table, whether or not the append was committed in the end. *)

Record Signing := { sg_record : AuditRecord; sg_tenant : string; sg_seq : Z; sg_prev : string; sg_table : Table }.

Record Watched := { w_db : Db; w_tips : gmap nat Table; w_signed : list Signing }.

Definition set_committed (db : Db) (t : Table) : Db :=
  {| committed := t; history := db.(history); txs := db.(txs); locks := db.(locks) |}.

Definition has_place (p : Phase) : bool :=
  match p with Begun | Holding => false | Placed _ _ | Written _ => true end.

(** A step that takes no place in a chain and signs nothing. *)
Definition places_nothing (db db' : Db) : Prop :=
  forall n x, db'.(txs) !! n = Some x -> has_place x.(tx_phase) = true -> db.(txs) !! n = Some x.

Inductive tampered_step (hashtext : string -> Z) : Watched -> Watched -> Prop :=
| tampered_quiet db db' tips sg :
    step hashtext signer db db' -> places_nothing db db' ->
    tampered_step hashtext {| w_db := db; w_tips := tips; w_signed := sg |} {| w_db := db'; w_tips := tips; w_signed := sg |}
| tampered_tip db tips sg n r u s prev :
    db.(txs) !! n = Some {| tx_record := r; tx_tenant := u; tx_phase := Holding |} ->
    next_link (audit_chain_tip db.(committed) u) = (s, prev) ->
    tampered_step hashtext {| w_db := db; w_tips := tips; w_signed := sg |}
      {| w_db := set_tx db n {| tx_record := r; tx_tenant := u; tx_phase := Placed s prev |};
         w_tips := <[n := db.(committed)]> tips; w_signed := sg |}
| tampered_insert db tips sg n r u s prev row t :
    db.(txs) !! n = Some {| tx_record := r; tx_tenant := u; tx_phase := Placed s prev |} ->
    written signer r u s prev = Ok row -> tips !! n = Some t ->
    tampered_step hashtext {| w_db := db; w_tips := tips; w_signed := sg |}
      {| w_db := set_tx db n {| tx_record := r; tx_tenant := u; tx_phase := Written row |}; w_tips := tips;
         w_signed := sg ++ [{| sg_record := r; sg_tenant := u; sg_seq := s; sg_prev := prev; sg_table := t |}] |}
| tampered_rows db tips sg t :
    tampered_step hashtext {| w_db := db; w_tips := tips; w_signed := sg |}
      {| w_db := set_committed db t; w_tips := tips; w_signed := sg |}.

Definition untouched : Watched := {| w_db := Appends.empty; w_tips := ∅; w_signed := [] |}.

(** What a signing is: the record, at the place the table it read called for. *)
Definition signing_ok (e : Signing) : Prop :=
  uuid_parse e.(sg_record).(tenant_id) = Ok e.(sg_tenant) /\
  next_link (audit_chain_tip e.(sg_table) e.(sg_tenant)) = (e.(sg_seq), e.(sg_prev)) /\
  exists row, written signer e.(sg_record) e.(sg_tenant) e.(sg_seq) e.(sg_prev) = Ok row.

Record watched_inv (w : Watched) : Prop := {
  wi_tenant : forall n x, w.(w_db).(txs) !! n = Some x -> uuid_parse x.(tx_record).(tenant_id) = Ok x.(tx_tenant);
  wi_placed : forall n r u s prev,
    w.(w_db).(txs) !! n = Some {| tx_record := r; tx_tenant := u; tx_phase := Placed s prev |} ->
    exists t, w.(w_tips) !! n = Some t /\ next_link (audit_chain_tip t u) = (s, prev);
  wi_signed : Forall signing_ok w.(w_signed);
}.

Lemma step_tenant hashtext db db' :
  step hashtext signer db db' ->
  (forall n x, db.(txs) !! n = Some x -> uuid_parse x.(tx_record).(tenant_id) = Ok x.(tx_tenant)) ->
  forall n x, db'.(txs) !! n = Some x -> uuid_parse x.(tx_record).(tenant_id) = Ok x.(tx_tenant).
Proof.
  intros Hs Hdb n x Hx.
  destruct Hs as [db m r u ? Hu|db m r u Hm ?|db m r u s prev Hm ?|db m r u s prev row Hm ?|db m r u row ?|db m y ?]; cbn in Hx.
  1-4: rewrite lookup_insert_Some in Hx; destruct Hx as [[_ <-]|[_ Hx]]; [|by eapply Hdb].
  - done.
  - exact (Hdb _ _ Hm).
  - exact (Hdb _ _ Hm).
  - exact (Hdb _ _ Hm).
  - apply lookup_delete_Some in Hx as [_ Hx]. by eapply Hdb.
  - apply lookup_delete_Some in Hx as [_ Hx]. by eapply Hdb.
Qed.

Lemma tampered_inv_step hashtext w w' : tampered_step hashtext w w' -> watched_inv w -> watched_inv w'.
Proof.
  intros [db db' tips sg Hs Hq|db tips sg n r u s prev Hn Hl|db tips sg n r u s prev row t Hn Hw Ht|db tips sg t] [Hten Hpl Hsg];
    cbn in *; split; cbn; try done.
  - by eapply step_tenant.
  - intros m r u s prev Hm. exact (Hpl _ _ _ _ _ (Hq _ _ Hm eq_refl)).
  - intros m x [[<- <-]|[_ Hx]]%lookup_insert_Some; [exact (Hten _ _ Hn)|by eapply Hten].
  - intros m r' u' s' prev' [[<- [= <- <- <- <-]]|[Hne Hx]]%lookup_insert_Some.
    + exists db.(committed). by rewrite lookup_insert_eq.
    + rewrite lookup_insert_ne by done. by eapply Hpl.
  - intros m x [[<- <-]|[_ Hx]]%lookup_insert_Some; [exact (Hten _ _ Hn)|by eapply Hten].
  - intros m r' u' s' prev' [[_ [=]]|[_ Hx]]%lookup_insert_Some. by eapply Hpl.
  - apply Forall_app. split; [done|]. constructor; [|constructor].
    destruct (Hpl _ _ _ _ _ Hn) as (t' & Ht' & Hl). rewrite Ht in Ht'. injection Ht' as <-.
    split_and!; [exact (Hten _ _ Hn)|done|by exists row].
Qed.

Lemma tampered_inv hashtext w : rtc (tampered_step hashtext) untouched w -> watched_inv w.
Proof.
  assert (watched_inv untouched) as H0' by (split; cbn; [by intros n x ?%lookup_empty_Some|by intros n r u s p ?%lookup_empty_Some|constructor]).
  generalize dependent untouched. intros w0 H0'. induction 1 as [|x y z Hxy _ IH]; [done|].
  apply IH. by eapply tampered_inv_step.
Qed.

(** No step of the service is left out: each is one of these. *)
Lemma step_is_watched hashtext w db' :
  watched_inv w -> step hashtext signer w.(w_db) db' ->
  exists w', tampered_step hashtext w w' /\ w'.(w_db) = db'.
Proof.
  destruct w as [db tips sg]. cbn. intros Hinv Hs.
  destruct Hs as [db m r u Hm Hu|db m r u Hm Hf|db m r u s prev Hm Hl|db m r u s prev row Hm Hw|db m r u row Hm|db m y Hm].
  - eexists. split; [apply tampered_quiet; [by apply (step_begin _ _ db m r u)|]|done].
    intros n x Hx Hp. cbn in Hx. by apply lookup_insert_Some in Hx as [[_ <-]|[_ Hx]].
  - eexists. split; [apply tampered_quiet; [by apply (step_lock _ _ db m r u)|]|done].
    intros n x Hx Hp. cbn in Hx. by apply lookup_insert_Some in Hx as [[_ <-]|[_ Hx]].
  - eexists. split; [by eapply tampered_tip|done].
  - destruct (wi_placed _ Hinv _ _ _ _ _ Hm) as (t & Ht & _).
    eexists. split; [by eapply tampered_insert|done].
  - eexists. split; [apply tampered_quiet; [by eapply step_commit|]|done].
    intros n x Hx _. cbn in Hx. by apply lookup_delete_Some in Hx as [_ Hx].
  - eexists. split; [apply tampered_quiet; [by eapply step_rollback|]|done].
    intros n x Hx _. cbn in Hx. by apply lookup_delete_Some in Hx as [_ Hx].
Qed.

(** Without the key, only messages the service signed for the tenant have a valid
    tag; the ones whose append was rolled back count. *)
Definition unforged (u key : string) (sg : list Signing) (t : Table) : Prop :=
  Forall (fun r => r.(row_tenant_id) = u ->
            verify_signature (as_read r) key (as_read r).(signature) = true ->
            exists e, e ∈ sg /\ e.(sg_tenant) = u /\
              build_canonical_message (as_read r) =
              build_canonical_message_chained e.(sg_record) e.(sg_seq) e.(sg_prev)) t.

(** A row that says what was signed. *)
Definition says (row : AuditRow) (e : Signing) : Prop :=
  fields_read row = signed_fields e.(sg_record) e.(sg_seq) e.(sg_prev).

Lemma accepted_row_signed u key sg t row :
  Forall signing_ok sg -> Forall (fun e => Str.mem NUL e.(sg_record).(id) = false) sg ->
  texts_stored t -> unforged u key sg t -> accepted u key t -> row ∈ t -> row.(row_tenant_id) = u ->
  exists e, e ∈ sg /\ e.(sg_tenant) = u /\ says row e.
Proof.
  intros Hok Hids Htext Hforge [Hver _] Hrow Hu. unfold texts_stored, unforged in *.
  rewrite Forall_forall in Htext, Hforge, Hver.
  specialize (Hver row Hrow Hu). cbn in Hver. injection Hver as Hver.
  destruct (Hforge row Hrow Hu Hver) as (e & He & Heu & Hmsg). exists e. split; [done|]. split; [done|].
  pose proof (proj1 (Forall_forall _ _) Hids e He) as Hid. cbn in Hid.
  destruct (proj1 (Forall_forall _ _) Hok e He) as (Hten & _ & (r' & Hw)).
  apply canonical_fields; [by apply Htext| |exact Hmsg]. eapply written_nul_free; eauto.
Qed.

(** A record that verifies has a signature. *)
Lemma verified_has_signature `{!TagLaws} key row :
  (read_back key (event_of_row row)).(verified) = Some true -> is_Some row.(row_signature).
Proof.
  intros Hv. cbn [read_back set_verified verified] in Hv. injection Hv as Hv.
  unfold verify_signature in Hv. cbn [stored_to_record event_of_row signature st_signature] in Hv.
  destruct row.(row_signature) as [x|]; [eauto|]. cbn [default from_option] in Hv.
  rewrite hex_decode_nothing in Hv. apply bool_decide_eq_true in Hv. by apply hmac_not_empty in Hv.
Qed.

(** C15. Somebody may replace the rows of the table at any time, also between the
    statements of an append, while the service goes on signing and appending on top
    of what it finds. Whatever table [t] is then presented: if its records of the
    tenant verify and its chain shows no break, every one of them says exactly what the
    service signed for the tenant at some time (its append may have been rolled back),
    and of two neighbours in the chain the later one was signed when the tenant's
    newest record had the position and the signature of the earlier one. So nothing
    is edited or made up and no two records change places; a record can be missing
    between neighbours only where the service itself signed on a log without it. *)
Theorem accepted_log_was_signed `{!TagLaws} hashtext w u key t :
  rtc (tampered_step hashtext) untouched w ->
  Forall (fun e => Str.mem NUL e.(sg_record).(id) = false) w.(w_signed) ->
  texts_stored t -> unforged u key w.(w_signed) t -> accepted u key t ->
  (forall row, row ∈ t -> row.(row_tenant_id) = u ->
     exists e, e ∈ w.(w_signed) /\ e.(sg_tenant) = u /\ says row e) /\
  (forall i a b, let chain := order_by seq_asc (chain_of u t) in
     chain !! i = Some a -> chain !! S i = Some b ->
     exists e, e ∈ w.(w_signed) /\ e.(sg_tenant) = u /\ says b e /\
       next_link (audit_chain_tip e.(sg_table) u) = (default 0 a.(row_seq) + 1, default "" a.(row_signature))).
Proof.
  intros Hrun%tampered_inv Hids Htext Hforge Hacc. pose proof (wi_signed _ Hrun) as Hok.
  pose proof (fun row => accepted_row_signed u key _ t row Hok Hids Htext Hforge Hacc) as Hrow.
  split; [exact Hrow|]. intros i a b chain Ha Hb.
  assert (Hin : forall x j, chain !! j = Some x -> x ∈ t /\ x.(row_tenant_id) = u).
  { intros x j Hx%list_elem_of_lookup_2. unfold chain in Hx. rewrite order_by_perm in Hx.
    apply list_elem_of_filter in Hx as [[Hu _] Hx]. done. }
  destruct (Hin _ _ Hb) as [Hbt Hbu]. destruct (Hin _ _ Ha) as [Hat Hau].
  destruct (Hrow b Hbt Hbu) as (e & He & Heu & Hsays). exists e. split_and!; try done.
  destruct Hacc as [Hver Hbreaks]. rewrite Forall_forall in Hver.
  destruct (proj1 (breaks_nil chain) Hbreaks i a b Ha Hb) as [Hseq Hprev].
  apply fields_seq in Hsays as [Hs Hp]. cbn in Hs, Hp.
  destruct (proj1 (Forall_forall _ _) Hok e He) as (_ & Hl & _). rewrite Heu in Hl.
  rewrite Hl, <- Hs, <- Hp, Hseq, Hprev; [done|]. exact (verified_has_signature key a (Hver a Hat Hau)).
Qed.

(** And any stretch passes: a reader cannot tell that the oldest or the newest
    records, or all of them, were removed. *)
Theorem removed_ends_go_unnoticed hashtext db u t i n :
  reachable hashtext signer db -> len db.(committed) < 2 ^ 63 ->
  chain_of u t = take n (drop i (chain_of u db.(committed))) ->
  sql_audit_chain_breaks t u = [].
Proof.
  intros Hreach Hlen Ht.
  pose proof (proj2 (reachable_inv _ _ _ Hreach) Hlen u) as Hc.
  unfold sql_audit_chain_breaks. rewrite Ht.
  assert (Hs : order_by seq_asc (take n (drop i (chain_of u db.(committed))))
               = take n (drop i (chain_of u db.(committed)))).
  { apply order_by_id, StronglySorted_Sorted.
    apply (StronglySorted_sublist _ _ (chain_of u db.(committed))).
    - etransitivity; [apply sublist_take|apply sublist_drop].
    - generalize (chain_ascending _ _ _ _ _ _ Hc). apply StronglySorted_weaken.
      intros a b Hab. unfold seq_asc. lia. }
  rewrite Hs. apply breaks_nil. intros j a b [Ha _]%lookup_take_Some [Hb _]%lookup_take_Some.
  rewrite lookup_drop in Ha, Hb. rewrite <- plus_n_Sm in Hb. by eapply (chain_follows u).
Qed.

(** C18. However the appends of all tenants interleave, fail or are rolled back, the
    chain the table holds for a tenant is the one of its committed records in
    the order of their commits, and the chain query finds no break in it. *)
Theorem concurrent_appends_never_fork hashtext db u :
  reachable hashtext signer db -> len db.(committed) < 2 ^ 63 ->
  chain_is signer u db /\ sql_audit_chain_breaks db.(committed) u = [].
Proof.
  intros Hreach Hlen.
  pose proof (proj2 (reachable_inv _ _ _ Hreach) Hlen u) as Hc.
  split; [done|]. unfold sql_audit_chain_breaks. rewrite (chain_sorted_asc _ _ _ _ _ _ Hc).
  apply breaks_nil. intros i a b. by eapply (chain_follows u).
Qed.

(** What a row keeps of the record it was written from. *)
Lemma written_kept r u s p row :
  written signer r u s p = Ok row ->
  signed_fields (as_read row) (as_read row).(seq) (as_read row).(prev_hash) =
  [r.(id); u; r.(principal_id); r.(action); r.(resource); r.(outcome); r.(outcome_detail);
   default "" row.(row_client_ip); to_rfc3339 (timestamptz r.(timestamp));
   json_text row.(row_details); pretty s; p] /\
  match client_ip_or_null r.(client_ip) with
  | None => row.(row_client_ip) = None
  | Some x => row.(row_client_ip) = inet_text x
  end /\ jsonb r.(details) = Some row.(row_details).
Proof.
  unfold written. intros Hw. apply result_bind_ok in Hw as (key & _ & Hw). unfold stored_row in Hw.
  apply result_bind_ok in Hw as ([] & _ & Hw). apply result_bind_ok in Hw as (d & Hd & Hw).
  apply result_bind_ok in Hw as (ip & Hip & Hw). injection Hw as <-. cbn in Hip, Hd |- *.
  split; [done|]. split.
  - destruct (client_ip_or_null _) as [x|]; [|congruence].
    destruct (inet_text x); cbn in Hip; congruence.
  - destruct (jsonb _); cbn in Hd; congruence.
Qed.

Lemma read_nul_free r u s p row :
  Str.mem NUL r.(id) = false -> uuid_parse r.(tenant_id) = Ok u -> written signer r u s p = Ok row ->
  nul_free (fields_read row).
Proof.
  intros Hid Hu Hw. pose proof (written_nul_free _ _ _ _ _ Hid Hu Hw) as Hn.
  destruct (written_kept _ _ _ _ _ Hw) as (Hf & Hip & _). unfold fields_read. rewrite Hf.
  unfold nul_free, signed_fields in *. rewrite !Forall_cons in Hn. destruct_and! Hn.
  destruct (uuid_no_nul _ _ Hu) as [_ Hu'].
  assert (Hc : Str.mem NUL (default "" row.(row_client_ip)) = false).
  { destruct (client_ip_or_null _) as [x|]; [|by rewrite Hip]. rewrite Hip.
    destruct (inet_text x) eqn:Hx; [|done]. by apply (inet_no_nul _ _ Hx). }
  rewrite !Forall_cons. split_and!; first [done|apply rfc3339_text|apply json_no_nul].
Qed.

(** C14. A record read back is reported intact exactly when the table gives back the
    tenant, the address, the instant and the document it was signed with: a time
    below the microsecond or an address, which the server returns with its
    netmask, is reported as tampering. *)
Theorem verified_iff_storage_keeps `{!MacLaws} r u key s p row :
  Str.mem NUL r.(id) = false -> uuid_parse r.(tenant_id) = Ok u ->
  key_for (E := string) signer r.(tenant_id) = Ok key -> written signer r u s p = Ok row ->
  (read_back key (event_of_row row)).(verified) = Some true <->
  r.(tenant_id) = u /\ r.(client_ip) = default "" row.(row_client_ip) /\
  r.(timestamp) = timestamptz r.(timestamp) /\ json_text r.(details) = json_text row.(row_details).
Proof.
  intros Hid Hu Hkey Hw. pose proof (written_spec _ _ _ _ _ _ Hw) as (_ & _ & _ & Hsig).
  unfold signature_at in Hsig. rewrite Hkey in Hsig.
  pose proof (written_nul_free _ _ _ _ _ Hid Hu Hw) as Hn.
  pose proof (read_nul_free _ _ _ _ _ Hid Hu Hw) as Hn'.
  destruct (written_kept _ _ _ _ _ Hw) as (Hf & _ & _).
  assert (Hv : (read_back key (event_of_row row)).(verified) = Some true <->
               signed_fields r s p = fields_read row).
  { cbn [read_back set_verified verified]. unfold verify_signature.
    change (signature (stored_to_record (event_of_row row))) with (default "" row.(row_signature)).
    rewrite Hsig. cbv [default from_option Datatypes.id]. unfold sign_event_chained. rewrite hex_round_trip. split.
    - intros [= Hm%bool_decide_eq_true]. apply hmac_collision_free in Hm.
      symmetry. by apply canonical_fields.
    - intros Heq. f_equal. apply bool_decide_eq_true. f_equal. symmetry.
      unfold build_canonical_message, build_canonical_message_chained. by f_equal. }
  rewrite Hv. unfold fields_read. rewrite Hf. unfold signed_fields. split.
  - intros [= ? ? ?%rfc3339_inj ?]. done.
  - intros (<- & -> & <- & ->). done.
Qed.

End Log.

(** ** The append as the service runs it *)

Section Service.
Context (signer : AuditSigner) (debug_str : string -> string).

(** What the transaction of [pg_insert_record] computes is [written] at the next
    link; nothing is stored otherwise, unless the commit's answer was lost. *)
Lemma pg_insert_record_spec io t r res t' :
  pg_insert_record debug_str io signer t r = (res, t') ->
  match res with
  | Ok _ => exists u row s p, uuid_parse r.(tenant_id) = Ok u /\
      next_link (audit_chain_tip t u) = (s, p) /\ written signer r u s p = Ok row /\ t' = t ++ [row]
  | Err _ => t' = t \/ exists e, io.(io_commit) = Some (e, true)
  end.
Proof.
  unfold pg_insert_record, insert_event_chained.
  destruct (key_for signer r.(tenant_id)) as [key|e] eqn:Hkey; [|intros [= <- <-]; by left].
  destruct (append_row _ _ _ _) as [[row [s p]]|e] eqn:Happ; [|intros [= <- <-]; by left].
  destruct io.(io_commit) as [[e applied]|] eqn:Hio.
  { intros [= <- <-]. destruct applied; [right; eauto|by left]. }
  intros [= <- <-]. unfold append_row in Happ.
  apply result_bind_ok in Happ as (u & Hu & Happ).
  do 3 (apply result_bind_ok in Happ as (? & _ & Happ)).
  destruct (next_link _) as [s' p'] eqn:Hlink. apply result_bind_ok in Happ as (? & _ & Happ).
  apply result_bind_ok in Happ as (row' & Hrow & Happ). simplify_eq.
  exists u, row, s, p. cbn in Hu. unfold parse_tenant in Hu.
  destruct (uuid_parse (tenant_id r)) as [u'|] eqn:Hu'; [|done]. simplify_eq.
  split; [done|]. split; [done|]. split; [|done]. unfold written.
  unfold key_for in Hkey |- *. destruct (derive_key _ _ _); [|done]. simplify_eq. exact Hrow.
Qed.

(** C24. An event is acknowledged exactly when its record became the tip of its
    tenant's chain; when it is refused the table is as it was, unless the
    connection failed after the commit took effect. *)
Theorem emit_event_recorded_or_refused io t uuid now req res b :
  emit_event debug_str io signer (Postgres t) uuid now req = (res, b) ->
  match res with
  | Ok i => i = uuid /\ exists d u row s p,
      uuid_parse req.(em_tenant_id) = Ok u /\ next_link (audit_chain_tip t u) = (s, p) /\
      written signer (unsigned uuid now req d) u s p = Ok row /\ b = Postgres (t ++ [row])
  | Err _ => b = Postgres t \/ exists e, io.(io_commit) = Some (e, true)
  end.
Proof.
  unfold emit_event.
  destruct (Str.is_empty req.(em_tenant_id)); [intros [= <- <-]; by left|].
  destruct (Str.is_empty req.(em_action)); [intros [= <- <-]; by left|].
  destruct (parse_details req.(em_details_json)) as [d|e]; [|intros [= <- <-]; by left].
  set (r := unsigned uuid now req d).
  destruct (key_for signer r.(tenant_id)) as [key|e] eqn:Hkey; [|intros [= <- <-]; by left].
  cbn [insert_record]. set (r' := set_signature r _).
  destruct (pg_insert_record debug_str io signer t r') as [ri t'] eqn:Hins.
  pose proof (pg_insert_record_spec _ _ _ _ _ Hins) as Hspec. intros [= <- <-].
  destruct ri as [[]|[e|]]; cbn.
  - split; [done|]. destruct Hspec as (u & row & s & p & Hu & Hl & Hw & ->).
    by exists d, u, row, s, p.
  - destruct Hspec as [->|Hc]; [by left|by right].
  - destruct Hspec as [->|Hc]; [by left|by right].
Qed.

(** The five statements of an append with no other transaction in its way. *)
Definition append_in (hashtext : string -> Z) (db : Db) (n : nat) (r : AuditRecord) : option Db :=
  match uuid_parse r.(tenant_id), db.(txs) !! n with
  | Ok u, None =>
      if decide (db.(locks) !! hashtext u = None)
      then let '(s, p) := next_link (audit_chain_tip db.(committed) u) in
           let at_ p := {| tx_record := r; tx_tenant := u; tx_phase := p |} in
           row ← result_ok (written signer r u s p);
           Some (end_tx (commit_row (set_tx (set_tx (set_tx (take_lock
             (set_tx db n (at_ Begun)) (hashtext u) n) n (at_ Holding)) n (at_ (Placed s p))) n
             (at_ (Written row))) row r) n)
      else None
  | _, _ => None
  end.

Lemma append_in_steps hashtext db n r db' :
  append_in hashtext db n r = Some db' -> rtc (step hashtext signer) db db'.
Proof.
  unfold append_in. destruct (uuid_parse r.(tenant_id)) as [u|] eqn:Hu; [|done].
  destruct (db.(txs) !! n) eqn:Hn; [done|]. case_decide as Hfree; [|done].
  destruct (next_link _) as [s p] eqn:Hl.
  destruct (written signer r u s p) as [row|] eqn:Hw; [|done]. intros [= <-].
  eapply rtc_l; [by apply (step_begin _ _ db n r u)|].
  eapply rtc_l; [apply step_lock; [apply lookup_insert_eq|exact Hfree]|].
  eapply rtc_l; [eapply step_tip; [apply lookup_insert_eq|exact Hl]|].
  eapply rtc_l; [eapply step_insert; [apply lookup_insert_eq|exact Hw]|].
  eapply rtc_l; [eapply step_commit, lookup_insert_eq|]. apply rtc_refl.
Qed.

(** The same run, watched: it reads its place from the table and signs once. *)
Lemma append_in_watched hashtext db n r db' tips sg u s p :
  append_in hashtext db n r = Some db' -> uuid_parse r.(tenant_id) = Ok u ->
  next_link (audit_chain_tip db.(committed) u) = (s, p) ->
  rtc (tampered_step signer hashtext) {| w_db := db; w_tips := tips; w_signed := sg |}
    {| w_db := db'; w_tips := <[n := db.(committed)]> tips;
       w_signed := sg ++ [{| sg_record := r; sg_tenant := u; sg_seq := s; sg_prev := p;
                             sg_table := db.(committed) |}] |}.
Proof.
  unfold append_in. intros Happ Hu Hl. rewrite Hu in Happ.
  destruct (db.(txs) !! n) eqn:Hn; [done|]. case_decide as Hfree; [|done]. rewrite Hl in Happ.
  destruct (written signer r u s p) as [row|] eqn:Hw; [|done]. injection Happ as <-.
  eapply rtc_l; [apply tampered_quiet; [by apply (step_begin _ _ db n r u)|]|].
  { intros m x Hx Hp. cbn in Hx. by apply lookup_insert_Some in Hx as [[_ <-]|[_ Hx]]. }
  eapply rtc_l; [apply tampered_quiet; [apply step_lock; [apply lookup_insert_eq|exact Hfree]|]|].
  { intros m x Hx Hp. cbn in Hx. by apply lookup_insert_Some in Hx as [[_ <-]|[_ Hx]]. }
  eapply rtc_l; [eapply tampered_tip; [apply lookup_insert_eq|exact Hl]|].
  eapply rtc_l; [eapply tampered_insert; [apply lookup_insert_eq|exact Hw|apply lookup_insert_eq]|].
  eapply rtc_l; [apply tampered_quiet; [eapply step_commit, lookup_insert_eq|]|apply rtc_refl].
  intros m x Hx _. cbn in Hx. by apply lookup_delete_Some in Hx as [_ Hx].
Qed.

(** One call of the service is one run of the transaction. *)
Lemma append_is_a_run hashtext db n r t' :
  db.(txs) !! n = None ->
  (forall u, uuid_parse r.(tenant_id) = Ok u -> db.(locks) !! hashtext u = None) ->
  pg_insert_record debug_str calm signer db.(committed) r = (Ok tt, t') ->
  exists db', rtc (step hashtext signer) db db' /\ db'.(committed) = t' /\
              db'.(history) = db.(history) ++ [r].
Proof.
  intros Hn Hfree Hins.
  destruct (pg_insert_record_spec _ _ _ _ _ Hins) as (u & row & s & p & Hu & Hl & Hw & ->).
  destruct (append_in hashtext db n r) as [db'|] eqn:Happ.
  - exists db'. split; [by eapply append_in_steps|]. revert Happ. unfold append_in.
    rewrite Hu, Hn, decide_True, Hl, Hw by auto. by intros [= <-].
  - revert Happ. unfold append_in. by rewrite Hu, Hn, decide_True, Hl, Hw by auto.
Qed.

(** ** Reading *)

Context {auth : Authenticator}.

(** The events a tenant's reader may be shown. *)
Definition shown (store : Backend) (tenant : string) (v : AuditEventView) : Prop :=
  match store with
  | InMemory records => exists r, r ∈ records /\ r.(tenant_id) = tenant /\ v = view_of r
  | Postgres t => exists u key row, uuid_parse tenant = Ok u /\
      key_for (E := string) signer tenant = Ok key /\ row ∈ t /\ row.(row_tenant_id) = u /\
      v = view_of (read_back key (event_of_row row))
  end.

Lemma limit_length {A} n (l : list A) : 0 <= n -> len (limit n l) <= n.
Proof.
  revert n. induction l as [|x l IH]; intros n Hn; cbn [limit]; [done|].
  destruct (n <=? 0) eqn:H00; [done|]. specialize (IH (n - 1) ltac:(lia)).
  unfold len in *. cbn [List.length]. lia.
Qed.

Lemma query_events_shown io store tenant start_time end_time af pf lim offset records total :
  1 <= lim <= MAX_LIMIT ->
  query_events debug_str io signer store tenant start_time end_time af pf lim offset
  = Ok (records, total) ->
  len records <= lim /\ Forall (shown store tenant) (view_of <$> records).
Proof.
  intros Hlim. destruct store as [l|t]; cbn [query_events].
  - unfold mem_query_events. replace (lim =? 0) with false by lia. intros [= <- <-]. split.
    + unfold len. rewrite length_take. lia.
    + apply Forall_fmap, Forall_forall. intros r Hr.
      apply (sublist_subseteq _ _ (sublist_take _ _)) in Hr.
      apply (sublist_subseteq _ _ (sublist_drop _ _)) in Hr.
      apply list_elem_of_filter in Hr as [Hm Hr]. exists r. split_and!; [done| |done].
      unfold record_matches in Hm. rewrite !andb_true_iff in Hm. destruct_and! Hm.
      by eapply bool_decide_eq_true.
  - unfold pg_query_events. intros (found & Hq & Hk)%result_bind_ok.
    apply result_bind_ok in Hk as (key & Hkey & [= <- <-]).
    unfold told, stored_query_events in Hq.
    destruct (parse_tenant tenant) as [u|e] eqn:Hu; [|done]. cbn in Hq.
    destruct (sql_fails "" io.(io_count)) as [[]|]; [|done]. cbn in Hq.
    destruct (text_params _) as [[]|]; [|done]. cbn in Hq.
    destruct (sql_fails "" io.(io_page)) as [[]|]; [|done]. injection Hq as <-. cbn [fst]. split.
    + unfold len. rewrite length_map, length_fmap.
      change (len (limit (Z.min lim I32_MAX) (drop (Z.to_nat (Z.min offset I32_MAX))
        (order_by timestamp_desc (filter (fun r => row_matches (Some u) start_time end_time af pf r
           = true) t)))) <= lim).
      etransitivity; [apply limit_length|]; unfold I32_MAX, MAX_LIMIT in *; lia.
    + apply Forall_fmap, Forall_fmap, Forall_fmap, Forall_forall. intros row Hr.
      apply (sublist_subseteq _ _ (limit_sublist _ _)) in Hr.
      apply (sublist_subseteq _ _ (sublist_drop _ _)) in Hr.
      rewrite order_by_perm in Hr. apply list_elem_of_filter in Hr as [Hm Hr].
      exists u, key, row. unfold parse_tenant in Hu. destruct (uuid_parse tenant); [|done].
      simplify_eq. split_and!; try done.
      unfold row_matches in Hm. rewrite !andb_true_iff in Hm. destruct_and! Hm.
      by eapply bool_decide_eq_true.
Qed.

Lemma clamp_bounds z lo hi : lo <= hi -> lo <= clamp z lo hi <= hi.
Proof. intros Hle. unfold clamp. repeat case_match; lia. Qed.

(** Over HTTP a caller reads only events of the tenant its credentials name,
    and at most a thousand of them, whatever the query asks for; without
    credentials there is no answer but 401. *)
Theorem list_events_scoped io store headers q :
  match list_events debug_str io signer store headers q with
  | Events evs _ => exists who, resolve headers = Ok who /\
      len evs <= MAX_LIMIT /\ Forall (shown store who.(Auth.tenant_id)) evs
  | Message status _ => status = 401 <-> exists e, resolve headers = Err e
  | Dropped => True
  end.
Proof.
  unfold list_events. destruct (resolve headers) as [who|e] eqn:Hr; [|naive_solver].
  destruct (parse_bound q.(eq_from) "from") as [st|resp] eqn:Hfrom.
  2:{ unfold parse_bound in Hfrom. repeat case_match; simplify_eq. naive_solver. }
  destruct (parse_bound q.(eq_to) "to") as [en|resp] eqn:Hto.
  2:{ unfold parse_bound in Hto. repeat case_match; simplify_eq. naive_solver. }
  destruct (query_events _ _ _ _ _ _ _ _ _ _ _) as [[records total]|[e|]] eqn:Hq; [|naive_solver|done].
  pose proof (clamp_bounds (default DEFAULT_LIMIT q.(eq_limit)) 1 MAX_LIMIT ltac:(done)) as Hc.
  destruct (query_events_shown _ _ _ _ _ _ _ _ _ _ _ Hc Hq) as [Hlen Hall].
  exists who. split; [done|]. split; [|exact Hall].
  unfold len in *. rewrite length_fmap. lia.
Qed.

Lemma limit_nonpos {A} n (l : list A) : n <= 0 -> limit n l = [].
Proof. intros Hn. destruct l; cbn [limit]; [done|]. by replace (n <=? 0) with true by lia. Qed.

Lemma stored_query_nonpos ioc iop t tenant st en af pf lim offset found :
  lim <= 0 -> stored_query_events ioc iop t tenant st en af pf lim offset = Ok found -> found.1 = [].
Proof.
  intros Hl (u & _ & Hq)%result_bind_ok. do 3 (apply result_bind_ok in Hq as (? & _ & Hq)).
  injection Hq as <-. cbn [fst]. by rewrite limit_nonpos.
Qed.

(** The backend of a database returns nothing when the caller names no limit,
    where the one in memory returns everything. *)
Lemma grpc_limit_zero_is_empty io t req infos total breaks :
  req.(q_limit) <= 0 ->
  grpc_query_events debug_str io signer (Postgres t) req = (Ok (infos, total), breaks) -> infos = [].
Proof.
  intros Hl. unfold grpc_query_events. destruct (Str.is_empty _); [done|].
  intros [= Hq _]. apply result_bind_ok in Hq as (st & _ & Hq).
  apply result_bind_ok in Hq as (en & _ & Hq). apply result_bind_ok in Hq as (found & Hq & [= <- <-]).
  cbn [query_events] in Hq.
  destruct (pg_query_events _ _ _ _ _ _ _ _ _ _ _) as [found'|[e|]] eqn:Hpg; [|done|done].
  injection Hq as ->. apply result_bind_ok in Hpg as (evs & Hevs & Hk).
  apply result_bind_ok in Hk as (key & _ & [= <-]). unfold told in Hevs.
  destruct (stored_query_events _ _ _ _ _ _ _ _ _ _) as [evs'|e] eqn:Hst; [|done].
  injection Hevs as ->. apply stored_query_nonpos in Hst; [|unfold I32_MAX; lia]. cbn. by rewrite Hst.
Qed.

End Service.

(** The delimiter does not separate fields that may hold it: these two records
    have the same canonical message, hence the same signature. *)
Lemma delimiter_is_not_escaped r key s p a b c :
  sign_event_chained (set_target r (a +:+ String NUL b) c) key s p
  = sign_event_chained (set_target r a (b +:+ String NUL c)) key s p.
Proof.
  unfold sign_event_chained, build_canonical_message_chained, signed_fields. cbn -[Str.join].
  do 2 f_equal. cbn [Str.join]. rewrite <- !Str.app_assoc. done.
Qed.

End Evidence.
End Evidence.

(** ** Witnesses

    Stand-ins that satisfy the laws: the tag of a message is the message, hex is
    two letters a byte, an address is returned with its netmask. *)

Module AuditDemo.
Import Trail Appends Evidence.

#[local] Instance prim : Primitives := {|
  gcm_encrypt _ _ m _ := Some m; gcm_decrypt _ _ c _ := Some c;
  b64_encode := letters; b64_decode := unletters;
  hkdf_expand ikm _ info := Some (ikm +:+ info); hex_encode := letters |}.
#[local] Instance mac : Mac := {| hmac_sha256 _ m := "#" +:+ m; hex_decode s := result_ok (unletters s) |}.
#[local] Instance sql_text : SqlText := fun s => s.
#[local] Instance uuids : Uuids := fun s => if Str.mem NUL s then Err "bad" else Ok s.
#[local] Instance platform : Platform := {|
  to_rfc3339 t := pretty t; parse_from_rfc3339 _ := Err "bad"; json_text _ := "{}";
  json_parse _ := Ok JNull; jsonb v := Some v;
  inet_text s := if Str.mem NUL s then None else Some (s +:+ "/32") |}.

#[local] Instance mac_laws : MacLaws.
Proof. split; [intros s; cbn; by rewrite letters_round_trip|by intros k k' m m' [= ->]]. Qed.

#[local] Instance tag_laws : TagLaws.
Proof. by split. Qed.

#[local] Instance platform_laws : PlatformLaws.
Proof.
  split; [apply pretty_no_nul|intros t t' Ht; exact (inj pretty t t' Ht)|done| |].
  - intros s u. unfold uuid_parse, uuids. destruct (Str.mem NUL s) eqn:Hs; [done|]. by intros [= <-].
  - intros s x. cbn. destruct (Str.mem NUL s) eqn:Hs; [done|]. intros [= <-]. split; [done|].
    by rewrite Str.mem_app, Hs.
Qed.

Definition signer : AuditSigner := {| master := "m" |}.
Definition key : string := "mwslvault:audit:v1:t1".
Definition event (i ip : string) (at_ : Z) : AuditRecord :=
  {| id := i; tenant_id := "t1"; principal_id := "ada"; action := "secret.read"; resource := "db";
     outcome := "success"; outcome_detail := ""; details := JNull; client_ip := ip; signature := "";
     timestamp := at_; seq := 0; prev_hash := ""; verified := None |}.

(** Three appends to one chain. *)
Definition hash (_ : string) : Z := 0.
Definition three : option Db :=
  db ← append_in signer hash empty 0 (event "e1" "" 1000);
  db ← append_in signer hash db 1 (event "e2" "" 2000);
  append_in signer hash db 2 (event "e3" "" 3000).
Definition db3 : Db := default empty three.
Definition cut : Table := take 1 (drop 1 db3.(committed)).

Lemma three_runs : reachable hash signer db3.
Proof.
  assert (H1 : three = Some db3) by (vm_compute; reflexivity). unfold three in H1.
  unfold reachable. apply bind_Some in H1 as (d1 & E1 & H1). apply bind_Some in H1 as (d2 & E2 & E3).
  etransitivity; [exact (append_in_steps _ _ _ _ _ _ E1)|].
  etransitivity; [exact (append_in_steps _ _ _ _ _ _ E2)|].
  exact (append_in_steps _ _ _ _ _ _ E3).
Qed.

Definition no_nul (l : list string) : bool := forallb (fun x => negb (Str.mem NUL x)) l.

Lemma no_nul_free l : no_nul l = true -> nul_free l.
Proof.
  unfold no_nul. intros Hl. apply Forall_forall. intros x Hx. rewrite forallb_forall in Hl.
  apply list_elem_of_In in Hx. specialize (Hl x Hx). by apply negb_true_iff.
Qed.

Lemma db3_short : len db3.(committed) < 2 ^ 63.
Proof. vm_compute. reflexivity. Qed.

Lemma db3_ids : ids_are_uuids db3.
Proof. repeat constructor. Qed.

Lemma cut_texts : texts_stored cut.
Proof. constructor; [apply no_nul_free; vm_compute; reflexivity|constructor]. Qed.

Lemma cut_not_forged : no_forgery signer "t1" key db3 cut.
Proof.
  constructor; [|constructor]. intros _ _. apply (list_elem_of_lookup_2 _ 1). vm_compute. reflexivity.
Qed.

Lemma cut_accepted : accepted "t1" key cut.
Proof. split; [constructor; [intros _; vm_compute; reflexivity|constructor]|vm_compute; reflexivity]. Qed.

Lemma accepted_log_is_a_segment_witness :
  exists i n, log_read "t1" cut = take n (drop i (log_signed signer "t1" db3)).
Proof.
  exact (accepted_log_is_a_segment signer hash db3 "t1" key cut three_runs db3_short db3_ids
    cut_texts cut_not_forged cut_accepted).
Defined.

(** Two appends, the second row removed behind the service's back, and a third
    append, which the service signs on top of the first. *)
Definition one_db : Db := default empty (append_in signer hash empty 0 (event "e1" "" 1000)).
Definition two_db : Db := default empty (append_in signer hash one_db 1 (event "e2" "" 2000)).
Definition cut_db : Db := set_committed two_db (take 1 two_db.(committed)).
Definition again_db : Db := default empty (append_in signer hash cut_db 2 (event "e3" "" 3000)).

Definition first_sig : string := default "" (head one_db.(committed) ≫= row_signature).

Definition sign1 : Signing :=
  {| sg_record := event "e1" "" 1000; sg_tenant := "t1"; sg_seq := 1; sg_prev := ""; sg_table := empty.(committed) |}.
Definition sign2 : Signing :=
  {| sg_record := event "e2" "" 2000; sg_tenant := "t1"; sg_seq := 2; sg_prev := first_sig; sg_table := one_db.(committed) |}.
Definition sign3 : Signing :=
  {| sg_record := event "e3" "" 3000; sg_tenant := "t1"; sg_seq := 2; sg_prev := first_sig; sg_table := cut_db.(committed) |}.

Definition after_two : Watched :=
  {| w_db := two_db; w_tips := <[1%nat := one_db.(committed)]> (<[0%nat := empty.(committed)]> ∅);
     w_signed := ([] ++ [sign1]) ++ [sign2] |}.
Definition after_cut : Watched :=
  {| w_db := cut_db; w_tips := after_two.(w_tips); w_signed := after_two.(w_signed) |}.
Definition after_all : Watched :=
  {| w_db := again_db; w_tips := <[2%nat := cut_db.(committed)]> after_cut.(w_tips);
     w_signed := after_cut.(w_signed) ++ [sign3] |}.

Lemma tampered_run : rtc (tampered_step signer hash) untouched after_all.
Proof.
  etransitivity; [|etransitivity; [|eapply rtc_l]].
  - apply (append_in_watched signer hash empty 0 (event "e1" "" 1000) one_db ∅ [] "t1" 1 ""); vm_compute; reflexivity.
  - apply (append_in_watched signer hash one_db 1 (event "e2" "" 2000) two_db _ _ "t1" 2 first_sig); vm_compute; reflexivity.
  - apply (tampered_rows signer hash two_db after_two.(w_tips) after_two.(w_signed) (take 1 two_db.(committed))).
  - apply (append_in_watched signer hash cut_db 2 (event "e3" "" 3000) again_db after_cut.(w_tips) after_cut.(w_signed)
             "t1" 2 first_sig); vm_compute; reflexivity.
Qed.

Lemma accepted_log_was_signed_witness :
  let t := again_db.(committed) in
  len t = 2 /\
  (forall row, row ∈ t -> row.(row_tenant_id) = "t1" ->
     exists e, e ∈ after_all.(w_signed) /\ e.(sg_tenant) = "t1" /\ says row e) /\
  (forall i a b, let chain := order_by seq_asc (chain_of "t1" t) in
     chain !! i = Some a -> chain !! S i = Some b ->
     exists e, e ∈ after_all.(w_signed) /\ e.(sg_tenant) = "t1" /\ says b e /\
       next_link (audit_chain_tip e.(sg_table) "t1") = (default 0 a.(row_seq) + 1, default "" a.(row_signature))).
Proof.
  intros t. split; [vm_compute; reflexivity|].
  apply (accepted_log_was_signed signer hash after_all "t1" key t).
  - exact tampered_run.
  - repeat constructor.
  - repeat (constructor; [apply no_nul_free; vm_compute; reflexivity|]). constructor.
  - constructor; [|constructor; [|constructor]]; intros _ _.
    + exists sign1. split; [by left|]. split; vm_compute; reflexivity.
    + exists sign3. split; [right; right; by left|]. split; vm_compute; reflexivity.
  - split; [|vm_compute; reflexivity].
    constructor; [|constructor; [|constructor]]; intros _; vm_compute; reflexivity.
Defined.

Lemma cut_is_a_cut : chain_of "t1" cut = take 1 (drop 1 (chain_of "t1" db3.(committed))).
Proof. vm_compute. reflexivity. Qed.

(** Of three records the first and the last are gone. *)
Lemma removed_ends_go_unnoticed_witness :
  len db3.(committed) = 3 /\ len cut = 1 /\ sql_audit_chain_breaks cut "t1" = [].
Proof.
  split; [vm_compute; reflexivity|]. split; [vm_compute; reflexivity|].
  exact (removed_ends_go_unnoticed signer hash db3 "t1" cut 1 1 three_runs db3_short cut_is_a_cut).
Defined.

Lemma concurrent_appends_never_fork_witness :
  chain_is signer "t1" db3 /\ sql_audit_chain_breaks db3.(committed) "t1" = [].
Proof. exact (concurrent_appends_never_fork signer hash db3 "t1" three_runs db3_short). Defined.

(** A record with an address, as it is stored. *)
Definition with_ip : AuditRecord := event "e4" "10.0.0.1" 4000.
Definition with_ip_row : AuditRow :=
  {| row_id := "e4"; row_tenant_id := "t1"; row_principal_id := "ada"; row_action := "secret.read";
     row_resource := "db"; row_outcome := "success"; row_outcome_detail := Some "";
     row_details := JNull; row_client_ip := Some "10.0.0.1/32";
     row_signature := Some (sign_event_chained with_ip key 1 ""); row_timestamp := 4000;
     row_seq := Some 1; row_prev_hash := Some "" |}.

Lemma with_ip_written : written signer with_ip "t1" 1 "" = Ok with_ip_row.
Proof. vm_compute. reflexivity. Qed.

Lemma with_ip_key : key_for (E := string) signer with_ip.(tenant_id) = Ok key.
Proof. vm_compute. reflexivity. Qed.

(** It is reported as tampered with. *)
Lemma verified_iff_storage_keeps_witness :
  (read_back key (event_of_row with_ip_row)).(verified) <> Some true.
Proof.
  intros Hv.
  destruct (proj1 (verified_iff_storage_keeps (H2 := uuids) (H3 := platform) signer with_ip "t1" key 1 "" with_ip_row eq_refl eq_refl
                     with_ip_key with_ip_written) Hv) as (_ & Hip & _). discriminate Hip.
Defined.

Definition login : EmitEventRequest :=
  {| em_tenant_id := "t1"; em_principal_id := "ada"; em_action := "auth.login"; em_resource := "";
     em_outcome := "success"; em_outcome_detail := ""; em_details_json := ""; em_client_ip := "" |}.

Definition login_stored : Backend := (emit_event (fun s => s) calm signer (Postgres []) "e1" 1000 login).2.

Lemma login_emitted :
  emit_event (fun s => s) calm signer (Postgres []) "e1" 1000 login = (Ok "e1", login_stored).
Proof. vm_compute. reflexivity. Qed.

Lemma emit_event_recorded_or_refused_witness :
  "e1" = "e1" /\ exists d u row s p,
    uuid_parse "t1" = Ok u /\ next_link (audit_chain_tip [] u) = (s, p) /\
    written signer (unsigned "e1" 1000 login d) u s p = Ok row /\ login_stored = Postgres [row].
Proof.
  exact (emit_event_recorded_or_refused signer (fun s => s) calm [] "e1" 1000 login (Ok "e1")
           login_stored login_emitted).
Defined.

End AuditDemo.
