(* ===== verification/SecretEngine.v ===== *)
(** * The secret engine

    [services/secret-engine/src]: the native REST handlers ([http.rs]), the
    Vault-compatible mount ([kv2.rs]), the gRPC service ([grpc.rs]) and the
    policy and audit clients, with the gateway check of
    [wslvault-core/src/middleware.rs] and the tenant lookup of
    [wslvault-storage/src/tenant_store.rs].

    The handlers are written against interfaces: [SecretStoreBackend], which the
    in-memory store and PostgreSQL implement; [CryptoApi], which the crypto service
    implements; [PolicyService] and [Authenticator]. A handler is a computation on
    the engine's state that returns early with a response; an audit event is sent
    in the background, and [e_events] collects what was sent, latest first. *)

From Stdlib Require Import Lia Ascii.
From stdpp Require Import pretty.
From S2P Require Import Prelude Errors Json Effects Policy Auth PolicyEngine SecretPath.
From S2P Require Import Envelope Seal KeyStore KekStore CryptoService Transit AuditTrail KvStore SecretDb.

(** ** The backend trait *)

(** What one store call draws: the database call, and whether the replication
    event written after a commit was stored. *)
Record StoreDraw := { draw : Draw; announced : bool }.

Class SecretStoreBackend (S : Type) := {
  st_get : StoreDraw -> S -> string -> string -> option Z -> vresult VersionEntry;
  st_put : StoreDraw -> S -> string -> string -> string -> string -> option Z -> metadata ->
    option Z -> vresult (string * Z) * S;
  st_soft_delete : StoreDraw -> S -> string -> string -> list Z -> vresult Z * S;
  st_destroy : StoreDraw -> S -> string -> string -> list Z -> vresult Z * S;
  st_list : StoreDraw -> S -> string -> string -> list string;
  st_get_metadata : StoreDraw -> S -> string -> string -> vresult SecretEntry;
  st_initiate_rotation : StoreDraw -> S -> string -> string -> string -> string -> string ->
    option string -> option Z -> vresult (string * Z) * S;
  st_confirm_rotation : StoreDraw -> S -> string -> string -> string -> vresult (Z * Z * Z) * S;
  st_rollback : StoreDraw -> S -> string -> string -> Z -> string -> vresult Z * S;
  st_list_versions : StoreDraw -> S -> string -> string -> vresult (list StoredVersionMeta);
}.

Definition unsupported (operation : string) : VaultError :=
  UnsupportedOperation "kv_memory" operation.

Definition stored_meta (m : VersionMeta) : StoredVersionMeta :=
  {| SecretDb.sm_version := m.(m_version); sm_status := VActive; sm_created_by := None;
     SecretDb.sm_created_at := m.(m_created_at); sm_deleted_at := m.(m_deleted_at);
     sm_deprecated_at := None; sm_revoked_at := None; sm_destroyed := m.(m_destroyed) |}.

Definition kv_secrets : SecretStoreBackend KvStore := {|
  st_get _ s t p v := KvStore.get s t p v;
  st_put d s t p ct dek cas md max :=
    KvStore.put s d.(draw).(now) d.(draw).(fresh) t p ct dek cas md max;
  st_soft_delete d s t p vs := soft_delete s d.(draw).(now) t p vs;
  st_destroy d s t p vs := destroy s d.(draw).(now) t p vs;
  st_list _ s t prefix := kv_list s t prefix;
  st_get_metadata _ s t p := KvStore.get_metadata s t p;
  st_initiate_rotation _ s _ _ _ _ _ _ _ := (Err (unsupported "initiate_rotation"), s);
  st_confirm_rotation _ s _ _ _ := (Err (unsupported "confirm_rotation"), s);
  st_rollback _ s _ _ _ _ := (Err (unsupported "rollback"), s);
  st_list_versions _ s t p := ms ← KvStore.list_versions s t p; Ok (List.map stored_meta ms);
|}.

Definition pg_secrets `{SqlText, Uuids} (to_uppercase : string -> string) :
    SecretStoreBackend SecretDb := {|
  st_get d s t p v := (pg_get to_uppercase d.(draw) s t p v).1;
  st_put d s t p ct dek cas md max :=
    pg_put to_uppercase d.(draw) d.(announced) s t p ct dek cas md max;
  st_soft_delete d s t p vs := pg_soft_delete to_uppercase d.(draw) s t p vs;
  st_destroy d s t p vs := pg_destroy to_uppercase d.(draw) s t p vs;
  st_list d s t prefix := pg_list d.(draw) s t prefix;
  st_get_metadata d s t p := (pg_get_metadata to_uppercase d.(draw) s t p).1;
  st_initiate_rotation d s t p ct dek by_ webhook timeout :=
    pg_initiate_rotation d.(draw) s t p ct dek by_ webhook timeout;
  st_confirm_rotation d s t rid by_ := pg_confirm_rotation d.(draw) s t rid by_;
  st_rollback d s t p target by_ := pg_rollback d.(draw) s t p target by_;
  st_list_versions d s t p := (pg_list_versions d.(draw) s t p).1;
|}.

(** ** The crypto service, as its clients see it

    The first argument is a failure of the call, after the service ran it or
    before; an error is the text of a gRPC status. *)
Class CryptoApi (W : Type) := {
  crypto_encrypt : option (string * bool) -> string -> string -> string -> W ->
    result string EncryptResponse * W;
  crypto_decrypt : option (string * bool) -> string -> string -> string -> W ->
    result string string * W;
}.

Definition over_wire {W A} (status_text : Status -> string) (net : option (string * bool))
    (m : eff W Status A) (w : W) : result string A * W :=
  match net with
  | Some (e, false) => (Err e, w)
  | Some (e, true) => (Err e, (m w).2)
  | None => match m w with
            | (Ok a, w') => (Ok a, w')
            | (Err s, w') => (Err (status_text s), w')
            end
  end.

Definition kek_crypto `{Primitives, SqlText, Uuids} (out : Outside) (debug_str : string -> string)
    (status_text : Status -> string) : CryptoApi World := {|
  crypto_encrypt net t p a := over_wire status_text net (KekStore.encrypt out debug_str t p a);
  crypto_decrypt net t c a := over_wire status_text net (KekStore.decrypt out debug_str t c a);
|}.

(** ** Requests and responses *)

Record PutSecretBody := {
  pb_data : string;
  pb_cas : option Z;
  pb_metadata : metadata;
  pb_environment : option string;
  pb_tags : option (list string);
}.

Record MetadataResponseBody := {
  mr_secret_id : string;
  mr_path : string;
  mr_engine : string;
  mr_current_version : Z;
  mr_max_versions : Z;
  mr_cas_required : bool;
  mr_created_at : string;
  mr_updated_at : string;
  mr_environment : string;
  mr_tags : list string;
  mr_metadata : metadata;
}.

Record ListSecretItem := { li_path : string; li_environment : string; li_tags : list string }.

Record VersionMetaItem := {
  vi_version : Z;
  vi_status : string;
  vi_created_by : option string;
  vi_created_at : string;
  vi_deleted_at : option string;
  vi_deprecated_at : option string;
  vi_revoked_at : option string;
  vi_destroyed : bool;
}.

Record Kv2Metadata := {
  km_created_time : string;
  km_deletion_time : string;
  km_destroyed : bool;
  km_version : Z;
  km_custom_metadata : option metadata;
}.

Inductive EngineBody :=
| BApiError (code message : string)
| BVaultErrors (errors : list string)
| BSecret (data : string) (version : Z) (created_at : string) (md : metadata)
| BWritten (secret_id : string) (version : Z)
| BCount (count : Z)
| BMetadata (m : MetadataResponseBody)
| BListing (paths : list string) (secrets : list ListSecretItem)
| BInitiated (rotation_id : string) (new_version : Z)
| BConfirmed (old_version new_version : Z) (grace_ends_at : string)
| BRolledBack (new_version : Z)
| BVersions (versions : list VersionMetaItem)
| BKv2Read (data : list (string * Json)) (m : Kv2Metadata)
| BKv2Written (m : Kv2Metadata)
| BJson (v : Json).

Definition EngineResponse : Type := Z * EngineBody.

Inductive EngineRequest :=
| GetSecret (path : string) (version : option Z)
| PutSecret (path : string) (body : PutSecretBody)
| DeleteSecret (path : string) (versions : list Z)
| DestroySecret (path : string) (versions : list Z)
| GetMetadata (path : string)
| ListSecrets (prefix environment tag : option string)
| InitiateRotation (path data : string) (webhook_url : option string) (timeout_secs : option Z)
| ConfirmRotation (path rotation_id : string)
| RollbackSecret (path : string) (target_version : Z)
| ListVersions (path : string)
| Kv2Read (path : string) (version : option Z)
| Kv2Write (path : string) (data : list (string * Json)) (cas : option Z)
| LookupSelf
| SysHealth.

(** The engine: its store, the crypto service it calls, the events it sent. *)
Record SecretEngine (S W : Type) := {
  e_store : S;
  e_crypto : W;
  e_events : list Trail.EmitEventRequest;
}.
Arguments e_store {S W} _.
Arguments e_crypto {S W} _.
Arguments e_events {S W} _.

(** What the outside answers during one request: the store calls, one call of the
    crypto service, the tenant lookups (a failure of the query each) and the
    clock. *)
Record Turn := {
  d_store : StoreDraw;
  d_meta : nat -> StoreDraw;
  d_crypto : option (string * bool);
  d_tenant : nat -> option string;
  d_clock : Z;
}.

(** [impl FromStr for VersionStatus], backwards. *)
Definition status_str (st : VersionStatus) : string :=
  match st with
  | VActive => "active" | VPending => "pending"
  | VDeprecated => "deprecated" | VRevoked => "revoked"
  end.

(** *** Gateway origin *)

(** [GatewayAuth::from_env] on the variable's value. *)
Definition gateway_expected (secret : option string) : option string :=
  match secret with Some s => if Str.is_empty s then None else Some s | None => None end.

Definition is_authorized (expected provided : option string) : bool :=
  match expected with
  | None => true
  | Some e => bool_decide (provided = Some e)
  end.

Section Engine.
Context {S W : Type} `{!SecretStoreBackend S, !CryptoApi W, Primitives, PolicyService, Uuids}
  {auth : Authenticator}.

(** The text functions of the standard library over Unicode, and [serde_json]. *)
Context (to_lowercase to_uppercase debug_str : string -> string) (rfc3339 : Z -> string)
  (utf8 : string -> bool) (json_parse : string -> option Json) (json_print : Json -> string)
  (pkg_version : string).

(** [tenant_pool] with the tenants table the rows of a store show. *)
Context (tenant_pool : option (S -> string -> option TenantInfo)).

Abbreviation Engine := (SecretEngine S W).
Abbreviation Handler := (eff Engine EngineResponse).

(** ** Building blocks *)

Definition call_store {A} (f : S -> A * S) : Handler A := fun s =>
  let '(a, st) := f s.(e_store) in
  (Ok a, {| e_store := st; e_crypto := s.(e_crypto); e_events := s.(e_events) |}).

Definition read_store {A} (f : S -> A) : Handler A := gets (fun s : Engine => f s.(e_store)).

Definition call_crypto {A} (f : W -> A * W) : Handler A := fun s =>
  let '(a, w) := f s.(e_crypto) in
  (Ok a, {| e_store := s.(e_store); e_crypto := w; e_events := s.(e_events) |}).

(** [AuditClient::emit] *)
Definition send (ev : Trail.EmitEventRequest) : Handler () :=
  modify (fun s : Engine => {| e_store := s.(e_store); e_crypto := s.(e_crypto);
                               e_events := ev :: s.(e_events) |}).

Definition vault_err_to_response (e : VaultError) : EngineResponse :=
  (http_status e, BApiError (code e) (display debug_str e)).

Definition extract_client_ip (headers : HeaderMap) : string := default "" (headers !! "x-client-ip").

Record Caller := {
  c_tenant : string;
  c_principal : string;
  c_policies : list string;
  c_ip : string;
}.

Definition event (c : Caller) (action resource outcome detail details : string) :
    Trail.EmitEventRequest :=
  {| Trail.em_tenant_id := c.(c_tenant); Trail.em_principal_id := c.(c_principal);
     Trail.em_action := action; Trail.em_resource := resource; Trail.em_outcome := outcome;
     Trail.em_outcome_detail := detail; Trail.em_details_json := details;
     Trail.em_client_ip := c.(c_ip) |}.

Definition emit (c : Caller) (action resource outcome detail : string) : Handler () :=
  send (event c action resource outcome detail "").

Definition authenticate (headers : HeaderMap) : Handler Identity :=
  match resolve headers with
  | Ok i => mret i
  | Err e => throw (401, BApiError "unauthenticated" e)
  end.

(** The head of every native handler. A superuser's crossing into another tenant
    is only logged. *)
Definition acting_caller (headers : HeaderMap) : Handler Caller :=
  i ← authenticate headers;
  let i' := {| tenant_id := i.(tenant_id); principal_id := i.(principal_id);
               policies := i.(policies); expires_at := None; superuser := i.(superuser) |} in
  mret {| c_tenant := (act_as_tenant i' headers).1; c_principal := i.(principal_id);
          c_policies := i.(policies); c_ip := extract_client_ip headers |}.

Definition normalized (path : string) : Handler string :=
  match normalize_and_validate path with
  | Ok p => mret p
  | Err e => throw (vault_err_to_response e)
  end.

(** [policy_client.authorize], refused with an event when [audited]. *)
Definition gate (audited : bool) (c : Caller) (verb resource action target : string) : Handler () :=
  match authorize c.(c_tenant) c.(c_principal) c.(c_policies) verb resource with
  | Ok _ => mret tt
  | Err e => _ ← when audited (emit c action target "failure" (display debug_str e));
             throw (vault_err_to_response e)
  end.

(** The answer of the store, a failure audited. *)
Definition or_audit {A} (c : Caller) (action target : string) (r : vresult A) : Handler A :=
  match r with
  | Ok a => mret a
  | Err e => _ ← emit c action target "failure" (display debug_str e);
             throw (vault_err_to_response e)
  end.

Definition data_resource (p : string) : string := "secret/data/" +:+ p.
Definition metadata_resource (p : string) : string := "secret/metadata/" +:+ p.
Definition build_aad (tenant p : string) : string := tenant +:+ ":" +:+ p.
Definition combined_ciphertext (dek ct : string) : string := dek +:+ ":" +:+ ct.

Definition bad_request (c message : string) : EngineResponse := (400, BApiError c message).

(** ** Environments and tags *)

(** [tenant_store::get_tenant] *)
Definition get_tenant (io : option string) (rows : string -> option TenantInfo) (tid : string) :
    vresult TenantInfo :=
  match io with
  | Some e => Err (Database e)
  | None => ok_or (rows tid) (TenantNotFound tid)
  end.

Fixpoint normalize_from (out tags : list string) : list string :=
  match tags with
  | [] => out
  | t :: rest =>
      let n := to_lowercase (Str.trim t) in
      normalize_from (if negb (Str.is_empty n) && negb (bool_decide (n ∈ out)) then out ++ [n] else out)
        rest
  end.

Definition normalize_tags (tags : list string) : list string := normalize_from [] tags.

(** [.map(str::trim).filter(|s| !s.is_empty())] *)
Definition trimmed (s : option string) : option string :=
  match Str.trim <$> s with Some x => if Str.is_empty x then None else Some x | None => None end.

Definition resolve_put_environment (t : Turn) (tenant : string) (explicit : option string) :
    Handler SecretEnvironment :=
  match trimmed explicit with
  | Some raw =>
      match env_of_str to_uppercase raw with
      | Ok e => mret e
      | Err msg => throw (bad_request "invalid_environment" msg)
      end
  | None =>
      match tenant_pool with
      | Some rows =>
          st ← read_store id;
          mret (match uuid_parse tenant with
                | Ok tid =>
                    match get_tenant (t.(d_tenant) 0%nat) (rows st) tid with
                    | Ok i => i.(ti_default)
                    | Err _ => Int
                    end
                | Err _ => Int
                end)
      | None => mret Int
      end
  end.

Definition kind_debug (i : TenantInfo) : string :=
  if i.(ti_production) then "Production" else "Project".

Definition join (sep : string) (l : list string) : string := String.concat sep l.

Definition not_allowed_message (env : SecretEnvironment) (i : TenantInfo) : string :=
  "environment " +:+ env_str env +:+ " is not allowed for tenant '" +:+ i.(ti_slug) +:+ "' ("
  +:+ kind_debug i +:+ "). Allowed: " +:+ join ", " (env_str <$> i.(ti_allowed))
  +:+ ". Keep PROD secrets in a separate production tenant (e.g. project-dta-prod); project tenants hold INT/TEST/ACC only.".

Definition validate_secret_environment (t : Turn) (tenant : string) (env : SecretEnvironment) :
    Handler () :=
  match tenant_pool with
  | None => mret tt
  | Some rows =>
      match uuid_parse tenant with
      | Err _ => throw (bad_request "invalid_tenant" "tenant id is not a valid UUID")
      | Ok tid =>
          st ← read_store id;
          match get_tenant (t.(d_tenant) 1%nat) (rows st) tid with
          | Err (TenantNotFound _) => mret tt
          | Err _ => throw (503, BApiError "tenant_lookup_failed"
                                   "could not verify tenant environment policy")
          | Ok i =>
              if bool_decide (env ∈ i.(ti_allowed)) then mret tt
              else throw (bad_request "environment_not_allowed" (not_allowed_message env i))
          end
      end
  end.

(** The labels of a write, in the metadata the store receives. *)
Definition put_labels (t : Turn) (tenant : string) (body : PutSecretBody) : Handler metadata :=
  let md := body.(pb_metadata) in
  let explicit := match body.(pb_environment) with Some e => Some e | None => md !! "environment" end in
  env ← resolve_put_environment t tenant explicit;
  _ ← validate_secret_environment t tenant env;
  let tags := match body.(pb_tags) with
              | Some l => l
              | None => match md !! "tags" with Some s => parse_tags s | None => [] end
              end in
  mret (<["tags" := join "," (normalize_tags tags)]> (<["environment" := env_str env]> md)).

(** ** Native handlers *)

Definition encrypt_for (t : Turn) (c : Caller) (p plaintext : string) :
    Handler (result string EncryptResponse) :=
  call_crypto (crypto_encrypt t.(d_crypto) c.(c_tenant) plaintext (build_aad c.(c_tenant) p)).

Definition get_secret (t : Turn) (headers : HeaderMap) (path : string) (version : option Z) :
    Handler EngineResponse :=
  c ← acting_caller headers;
  p ← normalized path;
  _ ← gate true c "read" (data_resource p) "secret.read" p;
  r ← read_store (fun st => st_get t.(d_store) st c.(c_tenant) p version);
  e ← or_audit c "secret.read" p r;
  d ← call_crypto (crypto_decrypt t.(d_crypto) c.(c_tenant)
                     (combined_ciphertext e.(dek_id) e.(ciphertext)) (build_aad c.(c_tenant) p));
  match d with
  | Err m =>
      _ ← emit c "secret.read" p "failure" ("decryption failed: " +:+ m);
      throw (500, BApiError "decryption_failed" ("decryption failed: " +:+ m))
  | Ok plaintext =>
      _ ← emit c "secret.read" p "success" "";
      mret (200, BSecret (b64_encode plaintext) e.(KvStore.version) (rfc3339 e.(v_created_at))
                   e.(v_custom_metadata))
  end.

Definition put_secret (t : Turn) (headers : HeaderMap) (path : string) (body : PutSecretBody) :
    Handler EngineResponse :=
  c ← acting_caller headers;
  p ← normalized path;
  _ ← gate true c "write" (data_resource p) "secret.write" p;
  match b64_decode body.(pb_data) with
  | Err _ => throw (bad_request "validation_error" "data field must be valid base64")
  | Ok plaintext =>
      if Str.is_empty plaintext then throw (bad_request "validation_error" "data must not be empty")
      else
        d ← encrypt_for t c p plaintext;
        match d with
        | Err m =>
            _ ← emit c "secret.write" p "failure" ("encryption failed: " +:+ m);
            throw (500, BApiError "encryption_failed" ("encryption failed: " +:+ m))
        | Ok enc =>
            md ← put_labels t c.(c_tenant) body;
            r ← call_store (fun st => st_put t.(d_store) st c.(c_tenant) p enc.(er_ciphertext_b64)
                                        enc.(er_dek_id) body.(pb_cas) md None);
            '(sid, v) ← or_audit c "secret.write" p r;
            _ ← emit c "secret.write" p "success" "";
            mret (200, BWritten sid v)
        end
  end.

(** The two handlers that remove versions. *)
Definition remove_versions (headers : HeaderMap) (path action : string)
    (op : Caller -> string -> S -> vresult Z * S) : Handler EngineResponse :=
  c ← acting_caller headers;
  p ← normalized path;
  _ ← gate true c "delete" (data_resource p) action p;
  r ← call_store (op c p);
  n ← or_audit c action p r;
  _ ← emit c action p "success" "";
  mret (200, BCount n).

Definition delete_secret (t : Turn) (headers : HeaderMap) (path : string) (vs : list Z) :
    Handler EngineResponse :=
  remove_versions headers path "secret.delete"
    (fun c p st => st_soft_delete t.(d_store) st c.(c_tenant) p vs).

Definition destroy_secret (t : Turn) (headers : HeaderMap) (path : string) (vs : list Z) :
    Handler EngineResponse :=
  remove_versions headers path "secret.destroy"
    (fun c p st => st_destroy t.(d_store) st c.(c_tenant) p vs).

Definition metadata_body (e : SecretEntry) : MetadataResponseBody :=
  {| mr_current_version := current_version_number e; mr_secret_id := e.(secret_id);
     mr_path := e.(e_path); mr_engine := "kv-v2"; mr_max_versions := e.(max_versions);
     mr_cas_required := e.(cas_required); mr_created_at := rfc3339 e.(created_at);
     mr_updated_at := rfc3339 e.(updated_at); mr_environment := e.(environment);
     mr_tags := e.(KvStore.tags); mr_metadata := e.(custom_metadata) |}.

Definition get_metadata_handler (t : Turn) (headers : HeaderMap) (path : string) :
    Handler EngineResponse :=
  c ← acting_caller headers;
  p ← normalized path;
  _ ← gate true c "read" (metadata_resource p) "secret.metadata.read" p;
  r ← read_store (fun st => st_get_metadata t.(d_store) st c.(c_tenant) p);
  e ← or_audit c "secret.metadata.read" p r;
  _ ← emit c "secret.metadata.read" p "success" "";
  mret (200, BMetadata (metadata_body e)).

Definition listing_prefix (prefix : option string) : Handler string :=
  match prefix with
  | Some p => if Str.is_empty p then mret "" else normalized p
  | None => mret ""
  end.

Definition label_of (r : vresult SecretEntry) : string * list string :=
  match r with Ok e => (e.(environment), e.(KvStore.tags)) | Err _ => ("INT", []) end.

Definition listed (env_filter tag_filter : option string) (environment : string) (tags : list string) :
    bool :=
  match env_filter with Some want => bool_decide (to_uppercase environment = want) | None => true end
  && match tag_filter with
     | Some want =>
         existsb (fun t => bool_decide (Str.to_ascii_lowercase t = Str.to_ascii_lowercase want)) tags
     | None => true
     end.

(** The loop over the sorted paths; the [n]-th one draws [d_meta n]. *)
Fixpoint list_items (t : Turn) (st : S) (tenant : string) (env_filter tag_filter : option string)
    (n : nat) (paths : list string) : list ListSecretItem :=
  match paths with
  | [] => []
  | p :: rest =>
      let '(env, tags) := label_of (st_get_metadata (t.(d_meta) n) st tenant p) in
      let items := list_items t st tenant env_filter tag_filter (Datatypes.S n) rest in
      if listed env_filter tag_filter env tags
      then {| li_path := p; li_environment := env; li_tags := tags |} :: items
      else items
  end.

Definition list_secrets (t : Turn) (headers : HeaderMap) (prefix env tag : option string) :
    Handler EngineResponse :=
  c ← acting_caller headers;
  prefix ← listing_prefix prefix;
  _ ← gate true c "list" "secret/list" "secret.list" prefix;
  paths ← read_store (fun st => order_by String.leb (st_list t.(d_store) st c.(c_tenant) prefix));
  let env_filter := to_uppercase <$> trimmed env in
  let tag_filter := to_lowercase <$> trimmed tag in
  items ← read_store (fun st => list_items t st c.(c_tenant) env_filter tag_filter 0 paths);
  _ ← emit c "secret.list" prefix "success" "";
  mret (200, BListing (List.map li_path items) items).

(** *** Lifecycle *)

Definition initiate_rotation_handler (t : Turn) (headers : HeaderMap) (path data : string)
    (webhook : option string) (timeout : option Z) : Handler EngineResponse :=
  c ← acting_caller headers;
  p ← normalized path;
  _ ← gate true c "write" (data_resource p) "secret.rotation.initiate" p;
  match b64_decode data with
  | Err _ => throw (bad_request "validation_error" "data field must be valid base64")
  | Ok plaintext =>
      d ← encrypt_for t c p plaintext;
      match d with
      | Err m => throw (500, BApiError "encryption_failed" ("encryption failed: " +:+ m))
      | Ok enc =>
          r ← call_store (fun st => st_initiate_rotation t.(d_store) st c.(c_tenant) p
                 enc.(er_ciphertext_b64) enc.(er_dek_id) c.(c_principal) webhook timeout);
          '(rid, v) ← or_audit c "secret.rotation.initiate" p r;
          _ ← emit c "secret.rotation.initiate" p "success" rid;
          mret (200, BInitiated rid v)
      end
  end.

(** A refusal here leaves no event. *)
Definition confirm_rotation_handler (t : Turn) (headers : HeaderMap) (path rotation_id : string) :
    Handler EngineResponse :=
  c ← acting_caller headers;
  p ← normalized path;
  _ ← gate false c "write" (data_resource p) "secret.rotation.confirm" p;
  r ← call_store (fun st => st_confirm_rotation t.(d_store) st c.(c_tenant) rotation_id c.(c_principal));
  '(old, new, grace) ← or_audit c "secret.rotation.confirm" p r;
  _ ← emit c "secret.rotation.confirm" p "success" rotation_id;
  mret (200, BConfirmed old new (rfc3339 grace)).

Definition rollback_handler (t : Turn) (headers : HeaderMap) (path : string) (target : Z) :
    Handler EngineResponse :=
  c ← acting_caller headers;
  p ← normalized path;
  _ ← gate true c "rollback" (data_resource p) "secret.rollback" p;
  r ← call_store (fun st => st_rollback t.(d_store) st c.(c_tenant) p target c.(c_principal));
  v ← or_audit c "secret.rollback" p r;
  _ ← emit c "secret.rollback" p "success" ("target=" +:+ pretty target +:+ " new=" +:+ pretty v);
  mret (200, BRolledBack v).

Definition version_item (m : StoredVersionMeta) : VersionMetaItem :=
  {| vi_version := m.(SecretDb.sm_version); vi_status := status_str m.(sm_status);
     vi_created_by := m.(sm_created_by); vi_created_at := rfc3339 m.(SecretDb.sm_created_at);
     vi_deleted_at := rfc3339 <$> m.(sm_deleted_at);
     vi_deprecated_at := rfc3339 <$> m.(sm_deprecated_at);
     vi_revoked_at := rfc3339 <$> m.(sm_revoked_at); vi_destroyed := m.(sm_destroyed) |}.

Definition list_versions_handler (t : Turn) (headers : HeaderMap) (path : string) :
    Handler EngineResponse :=
  c ← acting_caller headers;
  p ← normalized path;
  _ ← gate false c "read" (metadata_resource p) "secret.versions.list" p;
  r ← read_store (fun st => st_list_versions t.(d_store) st c.(c_tenant) p);
  vs ← or_audit c "secret.versions.list" p r;
  _ ← emit c "secret.versions.list" p "success" "";
  mret (200, BVersions (List.map version_item vs)).

(** ** The Vault-compatible mount *)

Definition vault_error (status : Z) (message : string) : EngineResponse :=
  (status, BVaultErrors [message]).

Definition vault_error_of (e : VaultError) : EngineResponse :=
  vault_error (http_status e) (display debug_str e).

(** [resolve_identity] of [kv2.rs]: no acting tenant here. *)
Definition kv2_caller (headers : HeaderMap) : Handler Caller :=
  match resolve headers with
  | Ok i => mret {| c_tenant := i.(tenant_id); c_principal := i.(principal_id);
                    c_policies := i.(policies); c_ip := extract_client_ip headers |}
  | Err e => throw (vault_error 403 e)
  end.

Definition kv2_normalized (path : string) : Handler string :=
  match normalize_and_validate path with
  | Ok p => mret p
  | Err e => throw (vault_error 400 (display debug_str e))
  end.

Definition quoted (s : string) : string := String "034" (s +:+ String "034" "").
Definition KV2_DETAILS : string := "{" +:+ quoted "mount" +:+ ":" +:+ quoted "kv2" +:+ "}".

Definition audit (c : Caller) (action path outcome detail : string) : Handler () :=
  send (event c action path outcome detail KV2_DETAILS).

Definition kv2_gate (c : Caller) (verb action p : string) : Handler () :=
  match authorize c.(c_tenant) c.(c_principal) c.(c_policies) verb (data_resource p) with
  | Ok _ => mret tt
  | Err e => _ ← audit c action p "failure" (display debug_str e);
             throw (vault_error 403 (display debug_str e))
  end.

Definition kv2_or_audit {A} (c : Caller) (action p : string) (r : vresult A) : Handler A :=
  match r with
  | Ok a => mret a
  | Err e => _ ← audit c action p "failure" (display debug_str e); throw (vault_error_of e)
  end.

(** A blob that is no JSON object is shown under one key. *)
Definition plaintext_to_map (plaintext : string) : list (string * Json) :=
  match (if utf8 plaintext then json_parse plaintext else None) with
  | Some (JObj m) => m
  | _ => [("value", JStr (if utf8 plaintext then plaintext else b64_encode plaintext))]
  end.

Definition kv2_read (t : Turn) (headers : HeaderMap) (path : string) (version : option Z) :
    Handler EngineResponse :=
  c ← kv2_caller headers;
  p ← kv2_normalized path;
  _ ← kv2_gate c "read" "secret.read" p;
  r ← read_store (fun st => st_get t.(d_store) st c.(c_tenant) p version);
  e ← kv2_or_audit c "secret.read" p r;
  d ← call_crypto (crypto_decrypt t.(d_crypto) c.(c_tenant)
                     (combined_ciphertext e.(dek_id) e.(ciphertext)) (build_aad c.(c_tenant) p));
  match d with
  | Err m => throw (vault_error 500 ("decryption failed: " +:+ m))
  | Ok plaintext =>
      _ ← audit c "secret.read" p "success" "";
      mret (200, BKv2Read (plaintext_to_map plaintext)
        {| km_created_time := rfc3339 e.(v_created_at);
           km_deletion_time := match e.(deleted_at) with Some d => rfc3339 d | None => "" end;
           km_destroyed := e.(destroyed); km_version := e.(KvStore.version);
           km_custom_metadata :=
             if bool_decide (e.(v_custom_metadata) = ∅) then None else Some e.(v_custom_metadata) |})
  end.

Definition kv2_write (t : Turn) (headers : HeaderMap) (path : string) (data : list (string * Json))
    (cas : option Z) : Handler EngineResponse :=
  c ← kv2_caller headers;
  p ← kv2_normalized path;
  match data with
  | [] => throw (vault_error 400 "data must not be empty")
  | _ =>
      _ ← kv2_gate c "write" "secret.write" p;
      d ← encrypt_for t c p (json_print (JObj data));
      match d with
      | Err m => throw (vault_error 500 ("encryption failed: " +:+ m))
      | Ok enc =>
          r ← call_store (fun st => st_put t.(d_store) st c.(c_tenant) p enc.(er_ciphertext_b64)
                                      enc.(er_dek_id) cas ∅ None);
          '(_, v) ← kv2_or_audit c "secret.write" p r;
          _ ← audit c "secret.write" p "success" "";
          mret (200, BKv2Written {| km_created_time := rfc3339 t.(d_clock); km_deletion_time := "";
                                    km_destroyed := false; km_version := v;
                                    km_custom_metadata := None |})
      end
  end.

(** The clock counts nanoseconds; [exp] is in seconds. The dates of the answer
    are left out when [exp] is outside the range of the calendar. *)
Definition lookup_self (in_calendar : Z -> bool) (t : Turn) (headers : HeaderMap) :
    Handler EngineResponse :=
  match resolve headers with
  | Err e => throw (vault_error 403 e)
  | Ok i =>
      let now := t.(d_clock) / SECOND in
      let exp := default (now + 86400) i.(expires_at) in
      let dates := if in_calendar exp
                   then [("expire_time", JStr (rfc3339 (exp * SECOND)));
                         ("issue_time", JStr (rfc3339 t.(d_clock)))]
                   else [] in
      mret (200, BJson (JObj [("data", JObj (
        [("id", JStr ""); ("display_name", JStr i.(principal_id));
         ("policies", JArr (JStr <$> i.(policies)));
         ("meta", JObj [("tenant_id", JStr i.(tenant_id))]);
         ("type", JStr "service"); ("accessor", JStr "");
         ("path", JStr "auth/token/lookup-self"); ("orphan", JBool true);
         ("renewable", JBool false); ("num_uses", JInt 0);
         ("ttl", JInt (Z.max 0 (exp - now))); ("explicit_max_ttl", JInt 0)] ++ dates))]))
  end.

Definition sys_health : Handler EngineResponse :=
  mret (200, BJson (JObj [("initialized", JBool true); ("sealed", JBool false);
                          ("standby", JBool false); ("version", JStr pkg_version)])).

(** ** The router *)

Context (in_calendar : Z -> bool).

Definition handle_engine (t : Turn) (headers : HeaderMap) (req : EngineRequest) :
    Handler EngineResponse :=
  match req with
  | GetSecret path v => get_secret t headers path v
  | PutSecret path body => put_secret t headers path body
  | DeleteSecret path vs => delete_secret t headers path vs
  | DestroySecret path vs => destroy_secret t headers path vs
  | GetMetadata path => get_metadata_handler t headers path
  | ListSecrets prefix env tag => list_secrets t headers prefix env tag
  | InitiateRotation path data webhook timeout =>
      initiate_rotation_handler t headers path data webhook timeout
  | ConfirmRotation path rid => confirm_rotation_handler t headers path rid
  | RollbackSecret path target => rollback_handler t headers path target
  | ListVersions path => list_versions_handler t headers path
  | Kv2Read path v => kv2_read t headers path v
  | Kv2Write path data cas => kv2_write t headers path data cas
  | LookupSelf => lookup_self in_calendar t headers
  | SysHealth => sys_health
  end.

(** [path.starts_with("/v1/kv/")] *)
Definition on_kv_mount (req : EngineRequest) : bool :=
  match req with Kv2Read _ _ | Kv2Write _ _ _ => true | _ => false end.

(** [require_authenticated], around every route. *)
Definition unauthenticated (req : EngineRequest) (reason : string) : EngineResponse :=
  (401, if on_kv_mount req then BVaultErrors [reason] else BApiError "unauthenticated" reason).

Definition reply {A} (r : result A A * Engine) : A * Engine :=
  match r with (Ok a, s) | (Err a, s) => (a, s) end.

(** A request through both layers; [gw] is [VAULT_GATEWAY_SECRET]. *)
Definition serve (gw : option string) (t : Turn) (headers : HeaderMap) (req : EngineRequest)
    (s : Engine) : EngineResponse * Engine :=
  if is_authorized (gateway_expected gw) (headers !! "x-gateway-auth") then
    match resolve headers with
    | Err reason => (unauthenticated req reason, s)
    | Ok _ => reply (handle_engine t headers req s)
    end
  else ((401, BApiError "gateway_auth_required" "request must originate from the WSLVault gateway"), s).

End Engine.

(** ** The gRPC service *)

Module Grpc.

Inductive StatusCode :=
| CodeNotFound | CodeInvalidArgument | CodeAborted | CodePermissionDenied | CodeUnauthenticated
| CodeUnavailable | CodeInternal.

#[global] Instance StatusCode_eq_dec : EqDecision StatusCode.
Proof. solve_decision. Defined.

Definition GrpcStatus : Type := StatusCode * string.

Definition status_code (err : VaultError) : StatusCode :=
  match err with
  | SecretNotFound _ _ => CodeNotFound
  | InvalidPath _ _ | ValidationError _ _ => CodeInvalidArgument
  | CasConflict _ _ => CodeAborted
  | VersionDestroyed _ => CodeNotFound
  | PermissionDenied _ _ => CodePermissionDenied
  | Unauthenticated _ => CodeUnauthenticated
  | ServiceUnavailable _ => CodeUnavailable
  | EncryptionFailed _ | DecryptionFailed => CodeInternal
  | _ => CodeInternal
  end.

Record GetSecretResponse := {
  gs_data : string; gs_version : Z; gs_created_at : string; gs_metadata : metadata }.

Record GetMetadataResponse := {
  gm_current_version : Z; gm_secret_id : string; gm_path : string; gm_engine : string;
  gm_max_versions : Z; gm_cas_required : bool; gm_created_at : string; gm_updated_at : string }.

(** The metadata of a request: [x-principal-id] and [x-policies] as the caller
    sent them. *)
Definition extract_grpc_principal_id (md : HeaderMap) : string :=
  default "anonymous" (header_value md "x-principal-id").

Definition extract_grpc_policies (md : HeaderMap) : list string :=
  match md !! "x-policies" with Some raw => parse_tags raw | None => [] end.

Section Service.
Context {S W : Type} `{!SecretStoreBackend S, !CryptoApi W, PolicyService}.
Context (debug_str : string -> string) (rfc3339 : Z -> string).

Abbreviation Engine := (SecretEngine S W).
Abbreviation Call := (eff Engine GrpcStatus).

Definition vault_err_to_status (err : VaultError) : GrpcStatus := (status_code err, display debug_str err).

Definition grpc_call_store {A} (f : S -> A * S) : Call A := fun s =>
  let '(a, st) := f s.(e_store) in
  (Ok a, {| e_store := st; e_crypto := s.(e_crypto); e_events := s.(e_events) |}).

Definition grpc_read_store {A} (f : S -> A) : Call A := gets (fun s : Engine => f s.(e_store)).

Definition grpc_call_crypto {A} (f : W -> A * W) : Call A := fun s =>
  let '(a, w) := f s.(e_crypto) in
  (Ok a, {| e_store := s.(e_store); e_crypto := w; e_events := s.(e_events) |}).

Definition grpc_emit (c : Caller) (action resource outcome detail : string) : Call () :=
  modify (fun s : Engine =>
    {| e_store := s.(e_store); e_crypto := s.(e_crypto);
       e_events := event c action resource outcome detail "" :: s.(e_events) |}).

Definition caller (md : HeaderMap) (tenant : string) : Caller :=
  {| c_tenant := tenant; c_principal := extract_grpc_principal_id md;
     c_policies := extract_grpc_policies md; c_ip := "" |}.

Definition grpc_normalized (path : string) : Call string :=
  match normalize_and_validate path with
  | Ok p => mret p
  | Err e => throw (vault_err_to_status e)
  end.

Definition require (value what : string) : Call () :=
  if Str.is_empty value then throw (CodeInvalidArgument, what +:+ " must not be empty") else mret tt.

Definition grpc_gate (c : Caller) (verb resource action target : string) : Call () :=
  match authorize c.(c_tenant) c.(c_principal) c.(c_policies) verb resource with
  | Ok _ => mret tt
  | Err e => _ ← grpc_emit c action target "failure" (display debug_str e); throw (vault_err_to_status e)
  end.

Definition grpc_or_audit {A} (c : Caller) (action target : string) (r : vresult A) : Call A :=
  match r with
  | Ok a => mret a
  | Err e => _ ← grpc_emit c action target "failure" (display debug_str e); throw (vault_err_to_status e)
  end.

(** The ciphertext is sent without the key id the service asks for. *)
Definition grpc_get_secret (t : Turn) (md : HeaderMap) (tenant path : string) (version : option Z) :
    Call GetSecretResponse :=
  let c := caller md tenant in
  p ← grpc_normalized path;
  _ ← require tenant "tenant_id";
  _ ← grpc_gate c "read" (data_resource p) "secret.read" p;
  r ← grpc_read_store (fun st => st_get t.(d_store) st tenant p version);
  e ← grpc_or_audit c "secret.read" p r;
  d ← grpc_call_crypto (crypto_decrypt t.(d_crypto) tenant e.(ciphertext) (build_aad tenant p));
  match d with
  | Err m =>
      _ ← grpc_emit c "secret.read" p "failure" ("decryption failed: " +:+ m);
      throw (CodeInternal, "decryption failed: " +:+ m)
  | Ok plaintext =>
      _ ← grpc_emit c "secret.read" p "success" "";
      mret {| gs_data := plaintext; gs_version := e.(KvStore.version);
              gs_created_at := rfc3339 e.(v_created_at); gs_metadata := e.(v_custom_metadata) |}
  end.

Definition grpc_put_secret (t : Turn) (md : HeaderMap) (tenant path data : string) (cas : option Z)
    (custom : metadata) : Call (string * Z) :=
  let c := caller md tenant in
  p ← grpc_normalized path;
  _ ← require tenant "tenant_id";
  _ ← require data "data";
  _ ← grpc_gate c "write" (data_resource p) "secret.write" p;
  d ← grpc_call_crypto (crypto_encrypt t.(d_crypto) tenant data (build_aad tenant p));
  match d with
  | Err m =>
      _ ← grpc_emit c "secret.write" p "failure" ("encryption failed: " +:+ m);
      throw (CodeInternal, "encryption failed: " +:+ m)
  | Ok enc =>
      r ← grpc_call_store (fun st => st_put t.(d_store) st tenant p enc.(er_ciphertext_b64)
                                  enc.(er_dek_id) cas custom None);
      '(sid, v) ← grpc_or_audit c "secret.write" p r;
      _ ← grpc_emit c "secret.write" p "success" "";
      mret (sid, v)
  end.

Definition grpc_remove_versions (md : HeaderMap) (tenant path action : string)
    (op : string -> S -> vresult Z * S) : Call Z :=
  let c := caller md tenant in
  p ← grpc_normalized path;
  _ ← require tenant "tenant_id";
  _ ← grpc_gate c "delete" (data_resource p) action p;
  r ← grpc_call_store (op p);
  n ← grpc_or_audit c action p r;
  _ ← grpc_emit c action p "success" "";
  mret n.

Definition grpc_delete_secret (t : Turn) (md : HeaderMap) (tenant path : string) (vs : list Z) : Call Z :=
  grpc_remove_versions md tenant path "secret.delete"
    (fun p st => st_soft_delete t.(d_store) st tenant p vs).

Definition grpc_destroy_secret (t : Turn) (md : HeaderMap) (tenant path : string) (vs : list Z) : Call Z :=
  grpc_remove_versions md tenant path "secret.destroy"
    (fun p st => st_destroy t.(d_store) st tenant p vs).

Definition grpc_list_secrets (t : Turn) (md : HeaderMap) (tenant prefix : string) : Call (list string) :=
  let c := caller md tenant in
  _ ← require tenant "tenant_id";
  prefix ← (if Str.is_empty prefix then mret "" else grpc_normalized prefix);
  _ ← grpc_gate c "list" "secret/list" "secret.list" prefix;
  paths ← grpc_read_store (fun st => order_by String.leb (st_list t.(d_store) st tenant prefix));
  _ ← grpc_emit c "secret.list" prefix "success" "";
  mret paths.

Definition grpc_get_metadata (t : Turn) (md : HeaderMap) (tenant path : string) : Call GetMetadataResponse :=
  let c := caller md tenant in
  p ← grpc_normalized path;
  _ ← require tenant "tenant_id";
  _ ← grpc_gate c "read" (metadata_resource p) "secret.metadata.read" p;
  r ← grpc_read_store (fun st => st_get_metadata t.(d_store) st tenant p);
  e ← grpc_or_audit c "secret.metadata.read" p r;
  _ ← grpc_emit c "secret.metadata.read" p "success" "";
  mret {| gm_current_version := current_version_number e; gm_secret_id := e.(secret_id);
          gm_path := e.(e_path); gm_engine := "kv-v2"; gm_max_versions := e.(max_versions);
          gm_cas_required := e.(cas_required); gm_created_at := rfc3339 e.(created_at);
          gm_updated_at := rfc3339 e.(updated_at) |}.

End Service.
End Grpc.
