(* ===== verification/SecretAccess.v ===== *)
(** * What the secret engine guarantees

    Theorems about [SecretEngine.v]: no change of the store without
    authentication and a permission for the path, no answer and no change without
    an audit event; and, against the laws [StoreLaws] and [CryptoLaws] that the
    backends and the crypto service are shown to satisfy, that what is written is
    what is read.

    The handlers are taken apart by a small calculus: [wp m s Q] says that running
    [m] from [s] ends with a response and a state in [Q]; there is one rule for
    each building block, and [walk] applies them along the text of a handler. *)

From Stdlib Require Import Lia Ascii.
From stdpp Require Import pretty.
From S2P Require Import Prelude Errors Json Effects Policy Auth PolicyEngine SecretPath.
From S2P Require Import Envelope Seal KeyStore KekStore CryptoService Transit AuditTrail KvStore SecretDb SecretEngine.

(** ** A calculus for handlers *)

Section Calculus.
Context {S W : Type} `{!SecretStoreBackend S, !CryptoApi W, Primitives, PolicyService, Uuids}
  {auth : Authenticator}.
Context (debug_str : string -> string).

Abbreviation Engine := (SecretEngine S W).
Abbreviation Handler := (eff Engine EngineResponse).
Implicit Types (s : Engine) (Q : EngineResponse -> Engine -> Prop).

Definition wp (m : Handler EngineResponse) s Q : Prop :=
  let '(r, s') := reply (m s) in Q r s'.

Lemma wp_bind {A} (m : Handler A) (f : A -> Handler EngineResponse) s Q :
  wp (m ≫= f) s Q <->
  match m s with (Ok a, s') => wp (f a) s' Q | (Err r, s') => Q r s' end.
Proof. unfold wp, reply. rewrite run_bind. by destruct (m s) as [[a|r] s1]. Qed.

Lemma wp_ret r s Q : Q r s -> wp (mret r) s Q.
Proof. done. Qed.

Lemma wp_throw r s Q : Q r s -> wp (throw r) s Q.
Proof. done. Qed.

(** The caller a native handler acts for, and the one of the Vault mount. *)
Definition native_caller (who : Identity) (headers : HeaderMap) : Caller :=
  {| c_tenant := (act_as_tenant who headers).1; c_principal := who.(principal_id);
     c_policies := who.(policies); c_ip := extract_client_ip headers |}.

Definition mount_caller (who : Identity) (headers : HeaderMap) : Caller :=
  {| c_tenant := who.(tenant_id); c_principal := who.(principal_id);
     c_policies := who.(policies); c_ip := extract_client_ip headers |}.

Lemma wp_acting who headers (f : Caller -> Handler EngineResponse) s Q :
  resolve headers = Ok who -> wp (f (native_caller who headers)) s Q ->
  wp (acting_caller headers ≫= f) s Q.
Proof.
  intros Hr Hf. apply wp_bind. unfold acting_caller, authenticate. rewrite Hr. exact Hf.
Qed.

Lemma wp_mount who headers (f : Caller -> Handler EngineResponse) s Q :
  resolve headers = Ok who -> wp (f (mount_caller who headers)) s Q ->
  wp (kv2_caller headers ≫= f) s Q.
Proof. intros Hr Hf. apply wp_bind. unfold kv2_caller. rewrite Hr. exact Hf. Qed.

Lemma wp_normalized path (f : string -> Handler EngineResponse) s Q :
  (forall e, normalize_and_validate path = Err e -> Q (vault_err_to_response debug_str e) s) ->
  (forall p, normalize_and_validate path = Ok p -> wp (f p) s Q) ->
  wp (normalized debug_str path ≫= f) s Q.
Proof.
  intros He Hok. apply wp_bind. unfold normalized.
  destruct (normalize_and_validate path) as [p|e]; [by apply Hok|by apply He].
Qed.

Lemma wp_kv2_normalized path (f : string -> Handler EngineResponse) s Q :
  (forall m, Q (vault_error 400 m) s) ->
  (forall p, normalize_and_validate path = Ok p -> wp (f p) s Q) ->
  wp (kv2_normalized debug_str path ≫= f) s Q.
Proof.
  intros He Hok. apply wp_bind. unfold kv2_normalized.
  destruct (normalize_and_validate path) as [p|e]; [by apply Hok|apply He].
Qed.

(** The state with one more event. *)
Definition sent s (ev : Trail.EmitEventRequest) : Engine :=
  {| e_store := s.(e_store); e_crypto := s.(e_crypto); e_events := ev :: s.(e_events) |}.

Lemma wp_emit c action target outcome detail (f : () -> Handler EngineResponse) s Q :
  wp (f tt) (sent s (event c action target outcome detail "")) Q ->
  wp (emit c action target outcome detail ≫= f) s Q.
Proof. intros Hf. by apply wp_bind. Qed.

Lemma wp_audit c action target outcome detail (f : () -> Handler EngineResponse) s Q :
  wp (f tt) (sent s (event c action target outcome detail KV2_DETAILS)) Q ->
  wp (audit c action target outcome detail ≫= f) s Q.
Proof. intros Hf. by apply wp_bind. Qed.

Definition permitted (c : Caller) (verb resource : string) : Prop :=
  authorize c.(c_tenant) c.(c_principal) c.(c_policies) verb resource = Ok tt.

Lemma wp_gate audited c verb resource action target (f : () -> Handler EngineResponse) s Q :
  (forall e, authorize c.(c_tenant) c.(c_principal) c.(c_policies) verb resource = Err e ->
     Q (vault_err_to_response debug_str e)
       (if (audited : bool) then sent s (event c action target "failure" (display debug_str e) "")
        else s)) ->
  (permitted c verb resource -> wp (f tt) s Q) ->
  wp (gate debug_str audited c verb resource action target ≫= f) s Q.
Proof.
  intros He Hok. apply wp_bind. unfold gate, permitted in *.
  destruct (authorize _ _ _ _ _) as [[]|e]; [by apply Hok|].
  specialize (He e eq_refl). by destruct audited.
Qed.

Lemma wp_kv2_gate c verb action p (f : () -> Handler EngineResponse) s Q :
  (forall e, Q (vault_error 403 (display debug_str e))
               (sent s (event c action p "failure" (display debug_str e) KV2_DETAILS))) ->
  (permitted c verb (data_resource p) -> wp (f tt) s Q) ->
  wp (kv2_gate debug_str c verb action p ≫= f) s Q.
Proof.
  intros He Hok. apply wp_bind. unfold kv2_gate, permitted in *.
  destruct (authorize _ _ _ _ _) as [[]|e]; [by apply Hok|apply He].
Qed.

Lemma wp_or_audit {A} c action target (r : vresult A) (f : A -> Handler EngineResponse) s Q :
  (forall e, r = Err e -> Q (vault_err_to_response debug_str e)
               (sent s (event c action target "failure" (display debug_str e) ""))) ->
  (forall a, r = Ok a -> wp (f a) s Q) ->
  wp (or_audit debug_str c action target r ≫= f) s Q.
Proof. intros He Hok. apply wp_bind. destruct r as [a|e]; [by apply Hok|by apply He]. Qed.

Lemma wp_kv2_or_audit {A} c action p (r : vresult A) (f : A -> Handler EngineResponse) s Q :
  (forall e, r = Err e -> Q (vault_error_of debug_str e)
               (sent s (event c action p "failure" (display debug_str e) KV2_DETAILS))) ->
  (forall a, r = Ok a -> wp (f a) s Q) ->
  wp (kv2_or_audit debug_str c action p r ≫= f) s Q.
Proof. intros He Hok. apply wp_bind. destruct r as [a|e]; [by apply Hok|by apply He]. Qed.

Lemma wp_read_store {A} (g : S -> A) (f : A -> Handler EngineResponse) s Q :
  wp (f (g s.(e_store))) s Q -> wp (read_store g ≫= f) s Q.
Proof. intros Hf. by apply wp_bind. Qed.

(** The state after a call of the store or of the crypto service. *)
Definition with_store s (st : S) : Engine :=
  {| e_store := st; e_crypto := s.(e_crypto); e_events := s.(e_events) |}.
Definition with_crypto s (w : W) : Engine :=
  {| e_store := s.(e_store); e_crypto := w; e_events := s.(e_events) |}.

Lemma wp_call_store {A} (g : S -> A * S) (f : A -> Handler EngineResponse) s Q :
  wp (f (g s.(e_store)).1) (with_store s (g s.(e_store)).2) Q -> wp (call_store g ≫= f) s Q.
Proof. intros Hf. apply wp_bind. unfold call_store. by destruct (g s.(e_store)). Qed.

Lemma wp_call_crypto {A} (g : W -> A * W) (f : A -> Handler EngineResponse) s Q :
  wp (f (g s.(e_crypto)).1) (with_crypto s (g s.(e_crypto)).2) Q -> wp (call_crypto g ≫= f) s Q.
Proof. intros Hf. apply wp_bind. unfold call_crypto. by destruct (g s.(e_crypto)). Qed.

(** A block that changes nothing and refuses with a status of its own. *)
Lemma wp_silent {A} (m : Handler A) (f : A -> Handler EngineResponse) s Q :
  (forall r s', m s = (Err r, s') -> s' = s /\ Q r s) ->
  (forall a s', m s = (Ok a, s') -> s' = s /\ wp (f a) s Q) -> wp (m ≫= f) s Q.
Proof.
  intros He Hok. apply wp_bind. destruct (m s) as [[a|r] s'] eqn:Hm.
  - by destruct (Hok a s' eq_refl) as [-> Hw].
  - by destruct (He r s' eq_refl) as [-> HQ].
Qed.

End Calculus.

Ltac walk :=
  repeat match goal with
    | |- wp (acting_caller _ ≫= _) _ _ => eapply wp_acting; [eassumption|]
    | |- wp (kv2_caller _ ≫= _) _ _ => eapply wp_mount; [eassumption|]
    | |- wp (normalized _ _ ≫= _) _ _ => apply wp_normalized; [|intros ? ?]
    | |- wp (kv2_normalized _ _ ≫= _) _ _ => apply wp_kv2_normalized; [|intros ? ?]
    | |- wp (emit _ _ _ _ _ ≫= _) _ _ => apply wp_emit
    | |- wp (audit _ _ _ _ _ ≫= _) _ _ => apply wp_audit
    | |- wp (gate _ _ _ _ _ _ _ ≫= _) _ _ => apply wp_gate; [|intros ?]
    | |- wp (kv2_gate _ _ _ _ _ ≫= _) _ _ => apply wp_kv2_gate; [|intros ?]
    | |- wp (or_audit _ _ _ _ _ ≫= _) _ _ => apply wp_or_audit; [|intros ? ?]
    | |- wp (kv2_or_audit _ _ _ _ _ ≫= _) _ _ => apply wp_kv2_or_audit; [|intros ? ?]
    | |- wp (read_store _ ≫= _) _ _ => apply wp_read_store
    | |- wp (call_store _ ≫= _) _ _ => apply wp_call_store
    | |- wp (call_crypto _ ≫= _) _ _ => apply wp_call_crypto
    | |- wp (encrypt_for _ _ _ _ ≫= _) _ _ => apply wp_call_crypto
    | |- wp (throw _) _ _ => apply wp_throw
    | |- wp (mret _) _ _ => apply wp_ret
    | |- wp (match ?x with _ => _ end) _ _ => destruct x eqn:?
    | |- wp (if ?x then _ else _) _ _ => destruct x eqn:?
    | |- wp (let '(_, _) := ?x in _) _ _ => destruct x eqn:?
    end.

(** ** Authorised and accounted for *)

Section Guarantees.
Context {S W : Type} `{!SecretStoreBackend S, !CryptoApi W, Primitives, PolicyService, Uuids}
  {auth : Authenticator}.
Context (to_lowercase to_uppercase debug_str : string -> string) (rfc3339 : Z -> string)
  (utf8 : string -> bool) (json_parse : string -> option Json) (json_print : Json -> string)
  (pkg_version : string) (tenant_pool : option (S -> string -> option TenantInfo))
  (in_calendar : Z -> bool).

Abbreviation Engine := (SecretEngine S W).
Abbreviation run := (serve to_lowercase to_uppercase debug_str rfc3339 utf8 json_parse json_print
  pkg_version tenant_pool in_calendar).




Lemma error_status e : http_status e <> 200.
Proof. by destruct e. Qed.



(** *** The ends of a handler *)




(** A block that changes nothing, whatever it answers. *)
Definition quiet {A} (m : eff Engine EngineResponse A) : Prop := forall s,
  match m s with (Ok _, s') => s' = s | (Err r, s') => s' = s /\ r.1 <> 200 end.

Lemma quiet_bind {A B} (m : eff Engine EngineResponse A) (f : A -> eff Engine EngineResponse B) :
  quiet m -> (forall a, quiet (f a)) -> quiet (m ≫= f).
Proof.
  intros Hm Hf s. rewrite run_bind. specialize (Hm s). destruct (m s) as [[a|r] s']; [|done].
  subst s'. apply Hf.
Qed.

Lemma quiet_throw {A} r : r.1 <> 200 -> quiet (throw r : eff Engine EngineResponse A).
Proof. by intros Hr s. Qed.

Lemma quiet_environment t tenant explicit :
  quiet (resolve_put_environment to_uppercase tenant_pool t tenant explicit).
Proof.
  unfold resolve_put_environment. destruct (trimmed _) as [raw|].
  - destruct (env_of_str _ raw); [done|by apply quiet_throw].
  - destruct tenant_pool as [rows|]; [|done]. by apply quiet_bind.
Qed.

Lemma quiet_validate t tenant env : quiet (validate_secret_environment tenant_pool t tenant env).
Proof.
  unfold validate_secret_environment. destruct tenant_pool as [rows|]; [|done].
  destruct (uuid_parse tenant); [|by apply quiet_throw]. apply quiet_bind; [done|]. intros st.
  destruct (get_tenant _ _ _) as [i|[]]; try done; try by apply quiet_throw.
  case_bool_decide; [done|by apply quiet_throw].
Qed.

Lemma quiet_labels t tenant body :
  quiet (put_labels to_lowercase to_uppercase tenant_pool t tenant body).
Proof.
  unfold put_labels. apply quiet_bind; [apply quiet_environment|]. intros env.
  apply quiet_bind; [apply quiet_validate|by intros []].
Qed.

Lemma wp_quiet {A} (m : eff Engine EngineResponse A) (f : A -> eff Engine EngineResponse _) s Q :
  quiet m -> (forall r, r.1 <> 200 -> Q r s) -> (forall a, m s = (Ok a, s) -> wp (f a) s Q) ->
  wp (m ≫= f) s Q.
Proof.
  intros Hm He Hok. apply wp_bind. specialize (Hm s).
  destruct (m s) as [[a|r] s'] eqn:Hr; [subst s'; by apply Hok|]. destruct Hm as [-> Hr']. by apply He.
Qed.










Definition about_secrets (req : EngineRequest) : bool :=
  match req with LookupSelf | SysHealth => false | _ => true end.



(** Without [about_secrets]: nothing changes, and health needs a token too. *)
Theorem probes_change_nothing gw t headers req s :
  about_secrets req = false ->
  (run gw t headers req s).2 = s /\
  (forall e, resolve headers = Err e -> (run gw t headers req s).1.1 = 401).
Proof.
  intros Hreq. unfold serve. destruct (is_authorized _ _); [|by split].
  destruct (resolve headers) as [who|e] eqn:Hwho; [|by split].
  split; [|done]. destruct req; try done. cbn. unfold lookup_self. by rewrite Hwho.
Qed.

End Guarantees.

(** ** What the engine asks of its parts *)

(** Reading after writing, on the stores and paths for which the backend
    promises it. *)
Class StoreLaws (S : Type) `{SecretStoreBackend S} := {
  st_ready : StoreDraw -> S -> string -> string -> Prop;
  put_get_law : forall d d' st t p ct dek cas md sid v st',
    st_ready d st t p -> d'.(draw).(fault) = None ->
    st_put d st t p ct dek cas md None = (Ok (sid, v), st') ->
    exists e, st_get d' st' t p None = Ok e /\ e.(KvStore.version) = v /\ e.(ciphertext) = ct /\
      e.(dek_id) = dek /\ e.(v_custom_metadata) = md;
}.

(** Decrypting what was encrypted, at any later time of the service; and that a
    ciphertext carries no key id of its own. *)
Class CryptoLaws (W : Type) `{CryptoApi W} := {
  cr_ready : W -> Prop;
  cr_later : W -> W -> Prop;
  encrypt_decrypt_law : forall net t p a w r w1 w2,
    cr_ready w -> crypto_encrypt net t p a w = (Ok r, w1) -> cr_later w1 w2 ->
    (crypto_decrypt None t (combined_ciphertext r.(er_dek_id) r.(er_ciphertext_b64)) a w2).1 = Ok p;
  no_key_id_law : forall net t p a w r w1,
    cr_ready w -> crypto_encrypt net t p a w = (Ok r, w1) ->
    Str.mem ":" r.(er_ciphertext_b64) = false;
  key_id_needed_law : forall net t c a w,
    Str.mem ":" c = false -> is_ok (crypto_decrypt net t c a w).1 = false;
}.

(** PostgreSQL, in every state a run of the backend reaches. *)
Section PgLaws.
Context `{SqlText, Uuids} (to_uppercase : string -> string).

Definition pg_laws : StoreLaws SecretDb (H := pg_secrets to_uppercase).
Proof.
  refine {| st_ready := fun d st _ _ => db_wf st /\ is_fresh st d.(draw).(fresh) |}.
  intros d d' st t p ct dek cas md sid v st' [Hwf Hf] Hfault Hput. cbn in Hput |- *.
  destruct (pg_put_reads to_uppercase d.(draw) d'.(draw) d.(announced) st t p ct dek cas md None sid v)
    as (e & He & Hrest); [done|done|done|done|by rewrite Hput|].
  cbn [run_op] in He. rewrite Hput in He. by exists e.
Defined.

End PgLaws.

(** The in-memory store, on a path whose latest version is live. *)
Definition kv_laws : StoreLaws KvStore (H := kv_secrets).
Proof.
  refine {| st_ready := fun _ st t p => settled (versions_of st t p) /\
      current_of st t p + 1 < 2 ^ 32 /\ 1 <= effective_max st t p None |}.
  intros d d' st t p ct dek cas md sid v st' (Hs & Hn & Hmax) _ Hput. cbn in Hput |- *.
  destruct (cas_conflict cas (current_of st t p)) as [e|] eqn:Hc.
  { rewrite put_eq, Hc in Hput. done. }
  pose proof (put_settled st d.(draw).(now) d.(draw).(fresh) t p ct dek cas md None Hs Hc Hn Hmax)
    as ([sid' Hr] & _ & _ & Hg & _).
  rewrite Hput in Hr, Hg. cbn in Hr, Hg. injection Hr as -> ->. rewrite Hg. by eexists.
Defined.

(** The crypto service, from the start of its process on. *)
Section KekLaws.
Context `{Primitives, Sharing, SqlText, Uuids} (out : Outside) `{!IdLaws out}
  (debug_str : string -> string) `{!PrimitiveLaws, !Authentic} (status_text : Status -> string).
Hypothesis nonces : forall n x, out.(nonce_rng) n = Some x -> String.length x = AES_GCM_NONCE_LEN.

Lemma over_wire_ok {A} net (m : eff World Status A) w a w' :
  over_wire status_text net m w = (Ok a, w') -> m w = (Ok a, w').
Proof.
  unfold over_wire. destruct net as [[e []]|]; [done|done|].
  destruct (m w) as [[b|st] w1]; [by intros [= -> ->]|done].
Qed.

Definition kek_laws : CryptoLaws World (H := kek_crypto out debug_str status_text).
Proof.
  refine {| cr_ready := minted out; cr_later := rtc (step out debug_str) |}.
  - intros net t p a w r w1 w2 Hm He%over_wire_ok Hrun.
    pose proof (encrypted_opens out debug_str nonces t p a w r w1 w2 Hm He Hrun) as Hd. cbn.
    unfold over_wire, combined_ciphertext. revert Hd.
    destruct (KekStore.decrypt _ _ _ _ _ w2) as [[b|e] w3]; cbn; [by intros [= ->]|done].
  - intros net t p a w r w1 Hm He%over_wire_ok. by eapply encrypted_alone.
  - intros net t c a w Hc. cbn. unfold over_wire. destruct net as [[e []]|]; [done|done|].
    pose proof (decrypt_needs_key out debug_str t c a w Hc) as Hd.
    revert Hd. by destruct (KekStore.decrypt _ _ _ _ _ w) as [[b|e] w3].
Defined.

End KekLaws.

(** ** End to end *)

Section EndToEnd.
Context {S W : Type} `{!SecretStoreBackend S, !CryptoApi W, Primitives, PolicyService, Uuids}
  {auth : Authenticator} {store_laws : StoreLaws S} {crypto_laws : CryptoLaws W}.
Context (to_lowercase to_uppercase debug_str : string -> string) (rfc3339 : Z -> string)
  (utf8 : string -> bool) (json_parse : string -> option Json) (json_print : Json -> string)
  (pkg_version : string) (tenant_pool : option (S -> string -> option TenantInfo))
  (in_calendar : Z -> bool).

Abbreviation Engine := (SecretEngine S W).
Abbreviation run := (serve to_lowercase to_uppercase debug_str rfc3339 utf8 json_parse json_print
  pkg_version tenant_pool in_calendar).

(** What a successful native write did. *)
Definition wrote (t : Turn) (tenant path : string) (body : PutSecretBody) (s : Engine) sid v
    (s' : Engine) : Prop :=
  exists p pt enc md, normalize_and_validate path = Ok p /\ b64_decode body.(pb_data) = Ok pt /\
    crypto_encrypt t.(d_crypto) tenant pt (build_aad tenant p) s.(e_crypto) = (Ok enc, s'.(e_crypto)) /\
    (exists s0 : Engine, put_labels to_lowercase to_uppercase tenant_pool t tenant body s0 = (Ok md, s0) /\
                s0.(e_store) = s.(e_store)) /\
    st_put t.(d_store) s.(e_store) tenant p enc.(er_ciphertext_b64) enc.(er_dek_id) body.(pb_cas) md
      None = (Ok (sid, v), s'.(e_store)).

Lemma put_secret_wrote t headers path body who s :
  resolve headers = Ok who ->
  wp (put_secret to_lowercase to_uppercase debug_str tenant_pool t headers path body) s
    (fun r s' => forall sid v, r = (200, BWritten sid v) ->
       wrote t (native_caller who headers).(c_tenant) path body s sid v s').
Proof.
  intros Hwho. unfold put_secret. walk; try done.
  apply wp_quiet; [apply quiet_labels|intros r Hr ? ? ->; done|]. intros md Hmd. walk; try done.
  intros sid v [= <- <-]. do 4 eexists.
  split; [eassumption|]. split; [eassumption|]. split; [by apply injective_projections|].
  split; [by eexists|]. cbn in *. apply injective_projections; [|done]. cbn. congruence.
Qed.

Lemma serve_put_wrote gw t headers path body s sid v s' :
  run gw t headers (PutSecret path body) s = ((200, BWritten sid v), s') ->
  exists who, resolve headers = Ok who /\
    wrote t (native_caller who headers).(c_tenant) path body s sid v s'.
Proof.
  unfold serve. destruct (is_authorized _ _); [|done].
  destruct (resolve headers) as [who|] eqn:Hwho; [|done]. intros Hr. exists who. split; [done|].
  pose proof (put_secret_wrote t headers path body who s Hwho) as Hw. unfold wp in Hw.
  cbn [handle_engine] in Hr. rewrite Hr in Hw. by apply Hw.
Qed.

(** What the store and the crypto service hold after the write. *)
Lemma wrote_entry t tenant path body s sid v s' d :
  wrote t tenant path body s sid v s' ->
  (forall p, normalize_and_validate path = Ok p -> st_ready t.(d_store) s.(e_store) tenant p) ->
  cr_ready s.(e_crypto) -> d.(draw).(fault) = None ->
  exists p pt e, normalize_and_validate path = Ok p /\ b64_decode body.(pb_data) = Ok pt /\
    st_get d s'.(e_store) tenant p None = Ok e /\ e.(KvStore.version) = v /\
    Str.mem ":" e.(ciphertext) = false /\
    (forall w, cr_later s'.(e_crypto) w ->
       (crypto_decrypt None tenant (combined_ciphertext e.(dek_id) e.(ciphertext))
          (build_aad tenant p) w).1 = Ok pt).
Proof.
  intros (p & pt & enc & md & Hp & Hpt & Henc & _ & Hput) Hready Hcr Hd.
  destruct (put_get_law _ d _ _ _ _ _ _ _ _ _ _ (Hready p Hp) Hd Hput)
    as (e & He & Hv & Hct & Hdek & _).
  exists p, pt, e. rewrite Hct, Hdek. split_and!; try done.
  - by eapply no_key_id_law.
  - intros w Hw. by eapply encrypt_decrypt_law.
Qed.

Lemma get_secret_reads t headers path who p e pt (s : Engine) :
  resolve headers = Ok who -> normalize_and_validate path = Ok p ->
  let c := native_caller who headers in
  permitted c "read" (data_resource p) ->
  st_get t.(d_store) s.(e_store) c.(c_tenant) p None = Ok e ->
  (crypto_decrypt t.(d_crypto) c.(c_tenant) (combined_ciphertext e.(dek_id) e.(ciphertext))
     (build_aad c.(c_tenant) p) s.(e_crypto)).1 = Ok pt ->
  wp (get_secret debug_str rfc3339 t headers path None) s
    (fun r _ => r = (200, BSecret (b64_encode pt) e.(KvStore.version) (rfc3339 e.(v_created_at))
                            e.(v_custom_metadata))).
Proof.
  intros Hwho Hp c Hperm Hget Hdec. unfold get_secret, permitted in *.
  walk; intros; simplify_eq/=; congruence.
Qed.

(** C40. What is written through the API is what is read through it. After a
    successful write, anybody who acts for the tenant and is allowed to read the
    path is given, under the number the write returned, the bytes that were
    written, however the writer and the reader spell the path and whatever the
    crypto service did in between. *)
Theorem written_secret_is_read gw t headers path body (s s1 s2 : Engine) sid v t' headers' path' who who' :
  run gw t headers (PutSecret path body) s = ((200, BWritten sid v), s1) ->
  resolve headers = Ok who -> resolve headers' = Ok who' ->
  (act_as_tenant who' headers').1 = (act_as_tenant who headers).1 ->
  normalize_and_validate path' = normalize_and_validate path ->
  (forall p, normalize_and_validate path = Ok p ->
     st_ready t.(d_store) s.(e_store) (act_as_tenant who headers).1 p /\
     permitted (native_caller who' headers') "read" (data_resource p)) ->
  cr_ready s.(e_crypto) -> s2.(e_store) = s1.(e_store) -> cr_later s1.(e_crypto) s2.(e_crypto) ->
  is_authorized (gateway_expected gw) (headers' !! "x-gateway-auth") = true ->
  t'.(d_store).(draw).(fault) = None -> t'.(d_crypto) = None ->
  exists pt created md, b64_decode body.(pb_data) = Ok pt /\
    (run gw t' headers' (GetSecret path' None) s2).1 = (200, BSecret (b64_encode pt) v created md).
Proof.
  intros Hput Hwho Hwho' Hten Hpath Hready Hcr Hst Hlater Hgw Hd Hnet.
  apply serve_put_wrote in Hput as (w & Hw & Hwrote). rewrite Hwho in Hw. injection Hw as <-.
  destruct (wrote_entry _ _ _ _ _ _ _ _ t'.(d_store) Hwrote) as (p & pt & e & Hp & Hpt & He & Hv & _ & Hdec);
    [by intros p Hp; apply Hready|done|done|].
  exists pt, (rfc3339 e.(v_created_at)), e.(v_custom_metadata). split; [done|].
  unfold serve. rewrite Hgw, Hwho'. cbn [handle_engine].
  pose proof (get_secret_reads t' headers' path' who' p e pt s2 Hwho') as Hg.
  rewrite Hpath in Hg. specialize (Hg Hp (proj2 (Hready p Hp))). cbn [native_caller c_tenant] in *.
  rewrite Hten, Hst, Hnet, <- Hv in *. specialize (Hg He (Hdec _ Hlater)). unfold wp in Hg.
  by destruct (reply _) as [r s3].
Qed.

(** The gRPC surface cannot read what the API wrote: it sends the ciphertext
    without the id of its key, which the crypto service refuses, so no call for
    the secret ever succeeds. *)
Theorem grpc_cannot_read_secrets gw t headers path body (s s1 s2 : Engine) sid v t' md path' who :
  run gw t headers (PutSecret path body) s = ((200, BWritten sid v), s1) ->
  resolve headers = Ok who -> normalize_and_validate path' = normalize_and_validate path ->
  (forall p, normalize_and_validate path = Ok p ->
     st_ready t.(d_store) s.(e_store) (act_as_tenant who headers).1 p) ->
  cr_ready s.(e_crypto) -> s2.(e_store) = s1.(e_store) -> t'.(d_store).(draw).(fault) = None ->
  is_ok (Grpc.grpc_get_secret debug_str rfc3339 t' md (act_as_tenant who headers).1 path' None s2).1 = false.
Proof.
  intros Hput Hwho Hpath Hready Hcr Hst Hd.
  apply serve_put_wrote in Hput as (w & Hw & Hwrote). rewrite Hwho in Hw. injection Hw as <-.
  destruct (wrote_entry _ _ _ _ _ _ _ _ t'.(d_store) Hwrote) as (p & pt & e & Hp & _ & He & _ & Hcol & _);
    [done|done|done|].
  cbn [native_caller c_tenant] in He. set (tenant := (act_as_tenant who headers).1) in *.
  unfold Grpc.grpc_get_secret. rewrite run_bind. unfold Grpc.grpc_normalized. rewrite Hpath, Hp.
  cbn [mret eff_ret]. rewrite run_bind. destruct (Grpc.require _ _ _) as [[[]|] s3] eqn:Hreq; [|done].
  assert (s3 = s2) as ->.
  { unfold Grpc.require in Hreq. destruct (Str.is_empty _); [done|]. by injection Hreq. }
  rewrite run_bind. unfold Grpc.grpc_gate. destruct (authorize _ _ _ _ _) as [[]|]; [|done].
  cbn [mret eff_ret]. rewrite run_bind. cbn [Grpc.grpc_read_store gets]. rewrite Hst, He. cbn [mret eff_ret].
  rewrite run_bind. cbn [Grpc.grpc_or_audit mret eff_ret].
  rewrite run_bind. unfold Grpc.grpc_call_crypto.
  pose proof (key_id_needed_law t'.(d_crypto) tenant e.(ciphertext) (build_aad tenant p)
    s2.(e_crypto) Hcol) as Hno.
  destruct (crypto_decrypt _ _ _ _ _) as [[pt'|m] w']; [done|]. done.
Qed.

Lemma labels_allowed t tenant body rows tid i (s0 : Engine) md :
  put_labels to_lowercase to_uppercase tenant_pool t tenant body s0 = (Ok md, s0) ->
  tenant_pool = Some rows -> uuid_parse tenant = Ok tid -> rows s0.(e_store) tid = Some i ->
  t.(d_tenant) 1%nat = None ->
  exists env, env ∈ i.(ti_allowed) /\ md !! "environment" = Some (env_str env).
Proof.
  intros Hl Hpool Htid Hi Hio. unfold put_labels in Hl.
  apply bind_ok in Hl as (env & s1 & Henv & Hl). apply bind_ok in Hl as ([] & s2 & Hval & Hl).
  injection Hl as <- _. exists env. split; [|by rewrite lookup_insert_ne, lookup_insert_eq by done].
  match type of Henv with resolve_put_environment _ _ _ _ ?x _ = _ =>
    pose proof (quiet_environment to_uppercase tenant_pool t tenant x s0) as Hq end.
  rewrite Henv in Hq. subst s1.
  unfold validate_secret_environment in Hval. rewrite Hpool, Htid in Hval.
  apply bind_ok in Hval as (st & s3 & Hst & Hval). injection Hst as <- <-. unfold id in Hval.
  rewrite Hio in Hval. cbn [get_tenant] in Hval. rewrite Hi in Hval. cbn [ok_or] in Hval.
  by case_bool_decide.
Qed.

(** The native API stores a secret only under an environment the tenant may
    hold: whatever the request asks for or leaves out, a write that succeeds
    hands the store a label out of the tenant's allowed environments. *)
Theorem environment_policy_holds gw t headers path body (s s' : Engine) sid v who rows tid i :
  run gw t headers (PutSecret path body) s = ((200, BWritten sid v), s') ->
  resolve headers = Ok who -> tenant_pool = Some rows ->
  uuid_parse (act_as_tenant who headers).1 = Ok tid -> rows s.(e_store) tid = Some i ->
  t.(d_tenant) 1%nat = None ->
  exists env p ct dek md, env ∈ i.(ti_allowed) /\ md !! "environment" = Some (env_str env) /\
    st_put t.(d_store) s.(e_store) (act_as_tenant who headers).1 p ct dek body.(pb_cas) md None =
      (Ok (sid, v), s'.(e_store)).
Proof.
  intros Hput Hwho Hpool Htid Hi Hio.
  apply serve_put_wrote in Hput as (w & Hw & Hwrote). rewrite Hwho in Hw. injection Hw as <-.
  destruct Hwrote as (p & pt & enc & md & _ & _ & _ & (s0 & Hl & Hs0) & Hp).
  destruct (labels_allowed t _ body rows tid i s0 md Hl Hpool Htid) as (env & Hin & Hmd);
    [by rewrite Hs0|done|].
  by exists env, p, enc.(er_ciphertext_b64), enc.(er_dek_id), md.
Qed.

End EndToEnd.

(** ** With the policy engine *)

Section Rollback.
Context {P S W : Type} `{!SecretStoreBackend S, !CryptoApi W, Primitives, Uuids}
  {auth : Authenticator} (state : AppState P).
Context (to_lowercase to_uppercase debug_str : string -> string) (rfc3339 : Z -> string)
  (utf8 : string -> bool) (json_parse : string -> option Json) (json_print : Json -> string)
  (pkg_version : string) (tenant_pool : option (S -> string -> option TenantInfo))
  (in_calendar : Z -> bool).

#[local] Instance engine : PolicyService := engine_service state.

(** A rollback is never granted: its handler asks for the action [rollback],
    which names no capability, so the policy engine refuses every caller whatever
    policies are in force, and no secret is ever rolled back. *)
Theorem rollback_is_never_granted gw t headers path target (s : SecretEngine S W) :
  let out := serve to_lowercase to_uppercase debug_str rfc3339 utf8 json_parse json_print pkg_version
               tenant_pool in_calendar gw t headers (RollbackSecret path target) s in
  out.1.1 <> 200 /\ out.2.(e_store) = s.(e_store).
Proof.
  cbn. unfold serve. destruct (is_authorized _ _); [|done].
  destruct (resolve headers) as [who|] eqn:Hwho; [|done]. cbn [handle_engine].
  enough (Hw : wp (rollback_handler debug_str t headers path target) s
                 (fun r s' => r.1 <> 200 /\ s'.(e_store) = s.(e_store))).
  { unfold wp in Hw. by destruct (reply _). }
  unfold rollback_handler. eapply wp_acting; [done|].
  apply wp_normalized; [intros e _; split; [apply error_status|done]|intros p _].
  apply wp_gate; [intros e _; split; [apply error_status|done]|].
  intros Hperm. apply engine_authorize in Hperm as (req & Hreq & _). done.
Qed.

End Rollback.

(** ** Runs *)

Module AccessDemo.

Definition ada : Identity :=
  {| tenant_id := "t1"; principal_id := "ada"; policies := ["dev"]; expires_at := None;
     superuser := false |}.

#[local] Instance demo_auth : Authenticator := {|
  resolve headers :=
    if decide (headers !! "x-vault-token" = Some "tok") then Ok ada else Err "no token" |}.

#[local] Instance demo_policy : PolicyService := {| authorize_rpc _ _ _ _ _ := Some (Ok (true, "")) |}.

Definition upper (s : string) : string := s.
Definition time_text (t : Z) : string := pretty t.
Definition status_text (s : Status) : string :=
  match s with
  | NotFound m | PermissionDeniedStatus m | InvalidArgument m | InternalStatus m => m
  end.

#[local] Instance demo_store : SecretStoreBackend SecretDb := pg_secrets upper.
#[local] Instance demo_store_laws : StoreLaws SecretDb := pg_laws upper.
#[local] Instance demo_crypto : CryptoApi World := kek_crypto Demo.demo_out Demo.no_escape status_text.
#[local] Instance demo_crypto_laws : CryptoLaws World :=
  kek_laws (H0 := stand_in_sharing) Demo.demo_out Demo.no_escape status_text Demo.demo_nonces.

(** A project tenant, which may hold no production secret. *)
Definition project : TenantInfo :=
  {| ti_slug := "acme"; ti_production := false; ti_allowed := [Int; Test; Acc]; ti_default := Int |}.

Definition start : SecretEngine SecretDb World :=
  {| e_store := {| secrets := ∅; rotations := ∅; quotas := ∅; tenant_rows := {["t1" := project]};
                   outbox := [] |};
     e_crypto := Demo.demo_w0; e_events := [] |}.

Definition turn : Turn :=
  {| d_store := {| draw := {| now := 100; fresh := "s1"; fault := None |}; announced := true |};
     d_meta := fun _ => {| draw := {| now := 100; fresh := "s1"; fault := None |}; announced := true |};
     d_crypto := None; d_tenant := fun _ => None; d_clock := 100 |}.

Definition headers : HeaderMap := {["x-vault-token" := "tok"]}.
Definition data : string := letters "hunter2".
Definition body (env : option string) : PutSecretBody :=
  {| pb_data := data; pb_cas := None; pb_metadata := ∅; pb_environment := env; pb_tags := Some ["DB"] |}.

Definition request (req : EngineRequest) (s : SecretEngine SecretDb World) :=
  serve upper upper Demo.no_escape time_text (fun _ => true) (fun _ => None) (fun _ => "{}") "0.1.0"
    (Some (fun st tid => st.(tenant_rows) !! tid)) (fun _ => true) None turn headers req s.

Definition put_req : EngineRequest := PutSecret "/db/password" (body None).
Definition written : SecretEngine SecretDb World := (request put_req start).2.

Lemma put_answer : request put_req start = ((200, BWritten "s1" 1), written).
Proof. vm_compute. reflexivity. Qed.

Lemma start_store_ready : db_wf start.(e_store) /\ is_fresh start.(e_store) "s1".
Proof. split; [by apply no_secrets_wf|]. split; [apply map_Forall_empty|done]. Qed.


Lemma written_secret_is_read_witness :
  exists pt created md, b64_decode data = Ok pt /\
    (request (GetSecret "db/password/" None) written).1 = (200, BSecret (b64_encode pt) 1 created md).
Proof.
  eapply (written_secret_is_read upper upper Demo.no_escape time_text (fun _ => true)
    (fun _ => None) (fun _ => "{}") "0.1.0" (Some (fun st tid => st.(tenant_rows) !! tid))
    (fun _ => true) None turn headers "/db/password" (body None) start written written "s1" 1 turn
    headers "db/password/" ada ada).
  - exact put_answer.
  - reflexivity.
  - reflexivity.
  - reflexivity.
  - reflexivity.
  - intros p _. split; [exact start_store_ready|reflexivity].
  - apply start_minted. reflexivity.
  - reflexivity.
  - apply rtc_refl.
  - reflexivity.
  - reflexivity.
  - reflexivity.
Defined.

Lemma grpc_cannot_read_secrets_witness :
  is_ok (Grpc.grpc_get_secret Demo.no_escape time_text turn ∅ "t1" "db/password" None written).1 = false.
Proof.
  eapply (grpc_cannot_read_secrets upper upper Demo.no_escape time_text (fun _ => true)
    (fun _ => None) (fun _ => "{}") "0.1.0" (Some (fun st tid => st.(tenant_rows) !! tid))
    (fun _ => true) None turn headers "/db/password" (body None) start written written "s1" 1 turn ∅
    "db/password" ada).
  - exact put_answer.
  - reflexivity.
  - reflexivity.
  - intros p _. exact start_store_ready.
  - apply start_minted. reflexivity.
  - reflexivity.
  - reflexivity.
Defined.

Lemma environment_policy_holds_witness :
  exists env p ct dek md, env ∈ project.(ti_allowed) /\ md !! "environment" = Some (env_str env) /\
    st_put turn.(d_store) start.(e_store) "t1" p ct dek None md None = (Ok ("s1", 1), written.(e_store)).
Proof.
  eapply (environment_policy_holds upper upper Demo.no_escape time_text (fun _ => true)
    (fun _ => None) (fun _ => "{}") "0.1.0" (Some (fun st tid => st.(tenant_rows) !! tid))
    (fun _ => true) None turn headers "/db/password" (body None) start written "s1" 1 ada
    (fun st tid => st.(tenant_rows) !! tid) "t1" project).
  - exact put_answer.
  - reflexivity.
  - reflexivity.
  - reflexivity.
  - reflexivity.
  - reflexivity.
Defined.

(** The native API refuses a production secret in this tenant; the gRPC call
    stores it. *)
Example production_is_refused :
  (request (PutSecret "db/password" (body (Some "PROD"))) start).1.1 = 400.
Proof. vm_compute. reflexivity. Qed.

Example grpc_ignores_environment_policy :
  let out := Grpc.grpc_put_secret Demo.no_escape turn ∅ "t1" "db/password" "x" None
               {["environment" := "PROD"]} start in
  out.1 = Ok ("s1", 1) /\
  sc_environment <$> out.2.(e_store).(secrets) !! ("t1", "db/password") = Some "PROD".
Proof. vm_compute. split; reflexivity. Qed.

(** A write through the Vault mount clears the environment and the tags of the
    secret it replaces. *)
Example kv2_write_clears_labels :
  let s2 := (request (PutSecret "db/password" (body (Some "TEST"))) start).2 in
  let s3 := (request (Kv2Write "db/password" [("k", JStr "v")] None) s2).2 in
  (fun r => (r.(sc_environment), r.(sc_tags))) <$> s2.(e_store).(secrets) !! ("t1", "db/password")
    = Some ("TEST", ["DB"]) /\
  (fun r => (r.(sc_environment), r.(sc_tags))) <$> s3.(e_store).(secrets) !! ("t1", "db/password")
    = Some ("INT", []).
Proof. vm_compute. split; reflexivity. Qed.

End AccessDemo.
