(* ===== verification/Replication.v ===== *)
(** * Cross-region replication

    [services/replication-agent/src]: conflict resolution ([conflict.rs], Module
    [Conflict]), the outbox a region serves to its peers and the cursor a peer
    keeps on it ([producer.rs], [consumer.rs], Module [Outbox]), and the
    application of received events to the local tables ([applier.rs], Module
    [Applier]). *)

From Stdlib Require Import Lia Ascii Sorted.
From stdpp Require Import pretty.
From S2P Require Import Prelude Json Envelope.

(** ** Events *)

Record ReplicationEvent := {
  ev_id : string;
  event_type : string;
  source_region : string;
  payload : Json;
  vector_clock : Json;
  ev_created_at : Z;
}.

(** ** Conflict resolution *)

Module Conflict.

Inductive Resolution := AcceptRemote | KeepLocal | ManualReview.

#[global] Instance Resolution_eq_dec : EqDecision Resolution.
Proof. solve_decision. Defined.

Abbreviation vclock := (gmap string Z).

Record ConflictContext := {
  local_updated_at : option Z;
  remote_updated_at : Z;
  local_vector_clock : vclock;
  remote_vector_clock : vclock;
  local_region : string;
  remote_region : string;
}.

(** [a > b] on [String]: lexicographic by bytes. *)
Definition string_gt (a b : string) : bool := String.ltb b a.

Definition region_tiebreak (ctx : ConflictContext) : Resolution :=
  if string_gt ctx.(remote_region) ctx.(local_region) then AcceptRemote else KeepLocal.

Definition resolve_lww (ctx : ConflictContext) : Resolution :=
  match ctx.(local_updated_at) with
  | None => AcceptRemote
  | Some local_ts =>
      if ctx.(remote_updated_at) >? local_ts then AcceptRemote
      else if ctx.(remote_updated_at) <? local_ts then KeepLocal
      else region_tiebreak ctx
  end.

(** [a] is at least [b] on every region of [a], and above it on one. *)
Definition dominates (a b : vclock) : bool :=
  forallb (fun e : string * Z => default 0 (b !! e.1) <=? e.2) (map_to_list a)
  && existsb (fun e : string * Z => default 0 (b !! e.1) <? e.2) (map_to_list a).

Definition resolve_vector_clock (ctx : ConflictContext) : Resolution :=
  if dominates ctx.(remote_vector_clock) ctx.(local_vector_clock) then AcceptRemote
  else if dominates ctx.(local_vector_clock) ctx.(remote_vector_clock) then KeepLocal
  else region_tiebreak ctx.

Definition resolve (strategy : string) (ctx : ConflictContext) : Resolution :=
  if bool_decide (strategy = "vector_clock") then resolve_vector_clock ctx
  else if bool_decide (strategy = "manual") then ManualReview
  else resolve_lww ctx.

(** *** Two regions with the same conflict *)

(** The conflict as the other region sees it. *)
Definition mirror (ctx : ConflictContext) (local_ts : Z) : ConflictContext :=
  {| local_updated_at := Some ctx.(remote_updated_at); remote_updated_at := local_ts;
     local_vector_clock := ctx.(remote_vector_clock);
     remote_vector_clock := ctx.(local_vector_clock);
     local_region := ctx.(remote_region); remote_region := ctx.(local_region) |}.

(** The two regions end up with the same write: one accepts, the other keeps. *)
Definition agree (r r' : Resolution) : Prop :=
  (r = AcceptRemote /\ r' = KeepLocal) \/ (r = KeepLocal /\ r' = AcceptRemote).

Lemma string_gt_total a b : a <> b -> string_gt a b = negb (string_gt b a).
Proof.
  intros Hne. unfold string_gt, String.ltb. pose proof (String.compare_antisym a b) as Ha.
  destruct (String.compare a b) eqn:E, (String.compare b a); try done.
  by apply String.compare_eq_iff in E.
Qed.

Lemma tiebreak_agree ctx ts :
  ctx.(local_region) <> ctx.(remote_region) ->
  agree (region_tiebreak ctx) (region_tiebreak (mirror ctx ts)).
Proof.
  intros Hne. unfold region_tiebreak, agree. cbn.
  rewrite (string_gt_total ctx.(local_region) ctx.(remote_region) Hne).
  destruct (string_gt _ _); cbn; auto.
Qed.

Lemma lww_agree ctx local_ts :
  ctx.(local_updated_at) = Some local_ts -> ctx.(local_region) <> ctx.(remote_region) ->
  agree (resolve_lww ctx) (resolve_lww (mirror ctx local_ts)).
Proof.
  intros Hts Hne. unfold resolve_lww. rewrite Hts. cbn -[Z.gtb Z.ltb].
  destruct (Z.gtb_spec ctx.(remote_updated_at) local_ts);
    destruct (Z.gtb_spec local_ts ctx.(remote_updated_at));
    destruct (Z.ltb_spec ctx.(remote_updated_at) local_ts);
    destruct (Z.ltb_spec local_ts ctx.(remote_updated_at)); try lia;
    try (by apply tiebreak_agree); unfold agree; auto.
Qed.

(** The pointwise order on clocks over the same regions. *)
Lemma dominates_spec a b :
  dominates a b = true <->
  (forall r n, a !! r = Some n -> default 0 (b !! r) <= n) /\
  (exists r n, a !! r = Some n /\ default 0 (b !! r) < n).
Proof.
  unfold dominates. rewrite andb_true_iff, forallb_forall, existsb_exists. split.
  - intros [Hall ([r n] & Hin & Hlt)]. split.
    + intros r' n' Hr. specialize (Hall (r', n')). cbn in Hall.
      apply Z.leb_le, Hall, list_elem_of_In, elem_of_map_to_list, Hr.
    + exists r, n. cbn in Hlt. split; [|by apply Z.ltb_lt].
      by apply elem_of_map_to_list, list_elem_of_In.
  - intros [Hall (r & n & Hr & Hlt)]. split.
    + intros [r' n'] Hin. cbn. apply Z.leb_le, Hall.
      by apply elem_of_map_to_list, list_elem_of_In.
    + exists (r, n). split; [by apply list_elem_of_In, elem_of_map_to_list|].
      cbn. by apply Z.ltb_lt.
Qed.

Lemma dominates_antisym a b :
  dom a = dom b -> dominates a b = true -> dominates b a = true -> False.
Proof.
  intros Hdom [_ (r & n & Hr & Hlt)]%dominates_spec [Hall _]%dominates_spec.
  assert (Hb : r ∈ dom b) by (rewrite <- Hdom; by eapply elem_of_dom_2).
  apply elem_of_dom in Hb as [k Hk]. specialize (Hall r k Hk).
  rewrite Hr in Hall. rewrite Hk in Hlt. cbn in *. lia.
Qed.

(** Two regions that hold each other's concurrent write decide the same way
    round: one accepts the other's write exactly when the other keeps its own,
    under last-write-wins always, and under vector clocks whenever the two
    clocks name the same regions. *)
Theorem conflict_resolution_agrees strategy ctx local_ts :
  ctx.(local_updated_at) = Some local_ts ->
  ctx.(local_region) <> ctx.(remote_region) ->
  strategy <> "manual" ->
  (strategy = "vector_clock" -> dom ctx.(local_vector_clock) = dom ctx.(remote_vector_clock)) ->
  agree (resolve strategy ctx) (resolve strategy (mirror ctx local_ts)).
Proof.
  intros Hts Hne Hman Hdom. unfold resolve. case_bool_decide as Hv.
  - unfold resolve_vector_clock. cbn. specialize (Hdom Hv).
    destruct (dominates ctx.(remote_vector_clock) ctx.(local_vector_clock)) eqn:E1;
      destruct (dominates ctx.(local_vector_clock) ctx.(remote_vector_clock)) eqn:E2.
    + exfalso. by eapply dominates_antisym; [|exact E2|exact E1].
    + by left.
    + by right.
    + by apply tiebreak_agree.
  - rewrite bool_decide_false by done. by apply lww_agree.
Qed.

(** Clocks over different regions: each looks only at its own entries, so both
    sides find the other dominant, accept the other's write, and swap values. *)
Definition swapped : ConflictContext :=
  {| local_updated_at := Some 0; remote_updated_at := 0;
     local_vector_clock := {["b" := 5]}; remote_vector_clock := {["a" := 2]};
     local_region := "b"; remote_region := "a" |}.

Theorem vector_clock_divergence :
  resolve "vector_clock" swapped = AcceptRemote /\
  resolve "vector_clock" (mirror swapped 0) = AcceptRemote.
Proof. vm_compute. split; reflexivity. Qed.

Lemma conflict_resolution_agrees_witness :
  agree (resolve "lww" swapped) (resolve "lww" (mirror swapped 0)).
Proof.
  apply (conflict_resolution_agrees "lww" swapped 0);
    [reflexivity|discriminate|discriminate|discriminate].
Defined.

End Conflict.

(** ** The outbox and its cursor *)

Module Outbox.

(** [ORDER BY created_at]. *)
Fixpoint insert_event (e : ReplicationEvent) (l : list ReplicationEvent) : list ReplicationEvent :=
  match l with
  | [] => [e]
  | h :: t => if e.(ev_created_at) <=? h.(ev_created_at) then e :: l else h :: insert_event e t
  end.

Definition by_created (table : list ReplicationEvent) : list ReplicationEvent :=
  foldr insert_event [] table.

(** The query of [get_events_handler] on the events table. The pivot is the
    creation time of the row at the offset, over the events of every region, or
    1970 when the offset is past the end; a negative offset or limit is a
    database error, answered with no events. *)
Definition select_events (table : list ReplicationEvent) (requesting_region : string)
    (after_seq limit : Z) : list ReplicationEvent :=
  if (after_seq <? 0) || (limit <? 0) then []
  else
    let ordered := by_created table in
    let pivot := match ordered !! Z.to_nat after_seq with
                 | Some e => e.(ev_created_at) | None => 0 end in
    take (Z.to_nat limit)
      (List.filter (fun e => negb (bool_decide (e.(source_region) = requesting_region))
                             && (e.(ev_created_at) >? pivot)) ordered).

Definition get_events_handler (table : list ReplicationEvent) (requesting_region : option string)
    (after_seq limit : option Z) : list ReplicationEvent :=
  let limit := Z.min (default 100 limit) 1000 in
  let after_seq := default 0 after_seq in
  match requesting_region with
  | Some r => select_events table r after_seq limit
  | None => []
  end.

(** [ack_handler] on the recorded sequences. *)
Definition ack_handler (sequences : gmap string Z) (region_id : string) (last_sequence : Z) :
    gmap string Z :=
  <[region_id := match sequences !! region_id with
                 | Some old => Z.max old last_sequence
                 | None => last_sequence
                 end]> sequences.

Definition events_last_seq (events : list ReplicationEvent) (base : Z) : option Z :=
  match events with [] => None | _ => Some (base + len events) end.

(** The cursor side of [fetch_and_apply_events]: the batch, and the sequence
    recorded for the peer afterwards, whether or not the events applied. *)
Definition poll (table : list ReplicationEvent) (local_region : string) (batch_size cursor : Z) :
    list ReplicationEvent * Z :=
  let events := get_events_handler table (Some local_region) (Some cursor) (Some batch_size) in
  (events, default cursor (events_last_seq events cursor)).

(** [n] polls of a table that does not change, with everything delivered. *)
Fixpoint polls (n : nat) (table : list ReplicationEvent) (local_region : string)
    (batch_size cursor : Z) : list ReplicationEvent * Z :=
  match n with
  | O => ([], cursor)
  | S n' =>
      let '(events, cursor') := poll table local_region batch_size cursor in
      let '(rest, last) := polls n' table local_region batch_size cursor' in
      (events ++ rest, last)
  end.

(** *** Delivery *)

Definition chronological (table : list ReplicationEvent) : Prop :=
  StronglySorted Z.lt (0 :: (ev_created_at <$> table)).

Lemma by_created_sorted table :
  StronglySorted Z.lt (ev_created_at <$> table) -> by_created table = table.
Proof.
  induction table as [|e t IH]; [done|]. cbn. inversion 1 as [|? ? Hs Hall]; subst.
  unfold by_created in *. cbn. rewrite IH by done. destruct t as [|h t]; [done|].
  inversion Hall; subst. cbn. by rewrite (proj2 (Z.leb_le _ _)) by lia.
Qed.

(** On a sorted table, "created after the row at the offset" is the suffix. *)
Lemma filter_after_pivot (f : ReplicationEvent -> bool) table i pivot :
  StronglySorted Z.lt (ev_created_at <$> table) -> table !! i = Some pivot ->
  List.filter (fun e => f e && (e.(ev_created_at) >? pivot.(ev_created_at))) table
  = List.filter f (drop (S i) table).
Proof.
  revert i. induction table as [|e t IH]; intros i Hs Hi; [done|].
  inversion Hs as [|? ? Hs' Hall]; subst. destruct i as [|i].
  - cbn in Hi. injection Hi as ->. cbn. rewrite Z.gtb_ltb, Z.ltb_irrefl, andb_false_r, drop_0.
    apply List.filter_ext_in. intros a Ha.
    assert (Hlt : pivot.(ev_created_at) < a.(ev_created_at)).
    { eapply (proj1 (List.Forall_forall _ _) Hall). by apply in_map. }
    rewrite (proj2 (Z.gtb_lt _ _)) by lia. by rewrite andb_true_r.
  - cbn in Hi. cbn [List.filter drop skipn]. rewrite (IH i) by done.
    assert (Hlt : e.(ev_created_at) < pivot.(ev_created_at)).
    { eapply (proj1 (List.Forall_forall _ _) Hall). apply in_map.
      apply list_elem_of_In. by eapply list_elem_of_lookup_2. }
    replace (e.(ev_created_at) >? pivot.(ev_created_at)) with false
      by (symmetry; rewrite Z.gtb_ltb; apply Z.ltb_ge; lia).
    by rewrite andb_false_r.
Qed.

Section Delivery.
Context (table : list ReplicationEvent) (local : string) (batch : Z).
Hypothesis Hsorted : chronological table.
Hypothesis Hbatch : 1 <= batch.

Definition foreign (e : ReplicationEvent) : bool := negb (bool_decide (e.(source_region) = local)).

Lemma table_sorted : StronglySorted Z.lt (ev_created_at <$> table).
Proof. by inversion Hsorted. Qed.

(** What is still ahead of a cursor inside the table. *)
Definition ahead (c : nat) : list ReplicationEvent := List.filter foreign (drop (S c) table).

Lemma poll_inside (c : nat) :
  (c < List.length table)%nat ->
  let events := take (Z.to_nat (Z.min batch 1000)) (ahead c) in
  poll table local batch (Z.of_nat c) = (events, Z.of_nat (c + List.length events)).
Proof.
  intros Hc events. destruct (lookup_lt_is_Some_2 table c Hc) as [pivot Hp].
  assert (Hsel : select_events table local (Z.of_nat c) (Z.min batch 1000) = events).
  { unfold select_events. rewrite (proj2 (Z.ltb_ge (Z.of_nat c) 0)) by lia.
    rewrite (proj2 (Z.ltb_ge (Z.min batch 1000) 0)) by lia. cbn [orb].
    rewrite by_created_sorted by apply table_sorted. rewrite Nat2Z.id, Hp.
    exact (f_equal (take _) (filter_after_pivot foreign table c pivot table_sorted Hp)). }
  unfold poll, get_events_handler. cbn [from_option id]. rewrite Hsel. unfold events_last_seq, len.
  destruct events as [|e es]; cbn [from_option id List.length]; f_equal; lia.
Qed.

Lemma ahead_length c : (List.length (ahead c) <= List.length table - S c)%nat.
Proof.
  unfold ahead. etrans; [apply List.filter_length_le|]. by rewrite length_drop.
Qed.

Lemma filter_lookup_before {A} (f : A -> bool) (l : list A) k a :
  l !! k = Some a -> f a = true -> exists j, (j <= k)%nat /\ List.filter f l !! j = Some a.
Proof.
  revert k. induction l as [|b l IH]; intros k Hk Hf; [done|]. destruct k as [|k]; cbn in Hk.
  - injection Hk as ->. exists 0%nat. cbn. by rewrite Hf.
  - destruct (IH k Hk Hf) as (j & Hj & Hl). cbn. destruct (f b).
    + exists (S j). split; [lia|done].
    + exists j. split; [lia|done].
Qed.

(** Nothing the cursor moves past is left out of the batch. *)
Lemma batch_complete c n i e :
  (c < i <= c + List.length (take n (ahead c)))%nat -> table !! i = Some e -> foreign e = true ->
  e ∈ take n (ahead c).
Proof.
  intros Hi He Hf. rewrite length_take in Hi.
  assert (Hd : drop (S c) table !! (i - S c)%nat = Some e).
  { rewrite lookup_drop. by replace (S c + (i - S c))%nat with i by lia. }
  destruct (filter_lookup_before foreign _ _ _ Hd Hf) as (j & Hj & Hl). fold (ahead c) in Hl.
  eapply (list_elem_of_lookup_2 _ j). rewrite lookup_take_lt; [done|lia].
Qed.

Lemma polls_deliver n (c : nat) :
  (c < List.length table)%nat ->
  let '(delivered, last) := polls n table local batch (Z.of_nat c) in
  exists c' : nat, last = Z.of_nat c' /\ (c <= c' < List.length table)%nat /\
    ((c + n <= c')%nat \/ ahead c' = []) /\
    (forall i e, (c < i <= c')%nat -> table !! i = Some e -> foreign e = true -> e ∈ delivered) /\
    (forall e, e ∈ delivered -> e ∈ drop 1 table).
Proof.
  revert c. induction n as [|n IH]; intros c Hc; cbn [polls].
  { exists c. split; [done|]. split; [lia|]. split; [left; lia|]. split; [lia|].
    by intros e He%not_elem_of_nil. }
  rewrite (poll_inside c Hc). set (events := take _ (ahead c)).
  pose proof (ahead_length c) as Hal.
  assert (Hev : (List.length events <= List.length (ahead c))%nat)
    by (unfold events; rewrite length_take; lia).
  specialize (IH (c + List.length events)%nat).
  destruct (polls n table local batch _) as [rest last].
  destruct IH as (c' & -> & Hc' & Hprog & Hdel & Hin); [lia|].
  exists c'. split; [done|]. split; [lia|]. split; [|split].
  - destruct events as [|e es] eqn:E.
    + right. destruct (ahead c) as [|a l] eqn:Ea.
      * destruct Hprog as [Hge|Hnil]; [|done].
        destruct (decide (c' = c)) as [->|Hne]; [done|].
        clear -Ea Hc' Hne Hal. unfold ahead in *. cbn in Hc'.
        replace (S c') with (S c + (c' - c))%nat by lia. rewrite <- drop_drop.
        assert (Hsub : forall l k, List.filter foreign l = [] -> List.filter foreign (drop k l) = []).
        { intros l k. rewrite <- (take_drop k l) at 1. rewrite List.filter_app.
          intros [_ ?]%app_nil. done. }
        by apply Hsub.
      * exfalso. unfold events in E. replace (Z.to_nat (Z.min batch 1000)) with
          (S (Z.to_nat (Z.min batch 1000) - 1))%nat in E by lia. done.
    + cbn [List.length] in *. destruct Hprog as [Hge|Hnil]; [left; lia|by right].
  - intros i e Hi He Hf. apply elem_of_app.
    destruct (decide (i <= c + List.length events)%nat); [left|right; apply (Hdel i); try done; lia].
    eapply batch_complete; [|done..]. fold events. lia.
  - intros e [He|He]%elem_of_app; [|auto].
    apply subseteq_take in He. unfold ahead in He.
    apply list_elem_of_In, List.filter_In in He as [He%list_elem_of_In _].
    replace (S c) with (1 + c)%nat in He by lia. rewrite <- drop_drop in He.
    by apply subseteq_drop in He.
Qed.

(** A peer that keeps polling catches up: after as many polls as the outbox
    has events, every event of another region but the very first has been
    delivered, whatever the batch size. *)
Theorem polling_catches_up delivered last :
  polls (List.length table) table local batch 0 = (delivered, last) ->
  forall i e, (1 <= i)%nat -> table !! i = Some e -> e.(source_region) <> local -> e ∈ delivered.
Proof.
  intros Hp i e Hi He Hne.
  assert (Hlt : (i < List.length table)%nat) by (eapply lookup_lt_Some; done).
  pose proof (polls_deliver (List.length table) 0%nat ltac:(lia)) as H.
  change (Z.of_nat 0) with 0 in H. rewrite Hp in H.
  destruct H as (c' & _ & Hc' & Hprog & Hdel & _).
  assert (Hf : foreign e = true) by (unfold foreign; by rewrite bool_decide_false).
  destruct (decide (i <= c')%nat); [by apply (Hdel i); try lia|].
  destruct Hprog as [Hge|Hnil]; [lia|]. exfalso.
  assert (Hd : drop (S c') table !! (i - S c')%nat = Some e).
  { rewrite lookup_drop. by replace (S c' + (i - S c'))%nat with i by lia. }
  destruct (filter_lookup_before foreign _ _ _ Hd Hf) as (j & _ & Hl).
  unfold ahead in Hnil. rewrite Hnil in Hl. done.
Qed.

(** The first event of an outbox is never delivered: the query asks for events
    created after the row at the cursor, and the cursor starts at that row. *)
Theorem first_event_never_delivered n e0 rest delivered last :
  table = e0 :: rest ->
  polls n table local batch 0 = (delivered, last) -> ~ e0 ∈ delivered.
Proof.
  intros Ht Hp Hin. pose proof (polls_deliver n 0%nat) as H. change (Z.of_nat 0) with 0 in H.
  rewrite Hp in H. destruct H as (c' & _ & _ & _ & _ & Hrest); [rewrite Ht; cbn; lia|].
  apply Hrest in Hin. rewrite Ht in Hin. cbn in Hin. rewrite drop_0 in Hin.
  pose proof table_sorted as Hs. rewrite Ht in Hs. cbn in Hs.
  inversion Hs as [|? ? _ Hall]; subst.
  apply list_elem_of_In, (in_map ev_created_at) in Hin.
  pose proof (proj1 (List.Forall_forall _ _) Hall _ Hin). cbn in *. lia.
Qed.

End Delivery.

Definition sample_event (id : string) (at_ : Z) : ReplicationEvent :=
  {| ev_id := id; event_type := "policy_update"; source_region := "eu"; payload := JNull;
     vector_clock := JNull; ev_created_at := at_ |}.

Definition sample_table : list ReplicationEvent :=
  [sample_event "e0" 1; sample_event "e1" 2; sample_event "e2" 3].

Lemma polling_catches_up_witness :
  sample_event "e2" 3 ∈ (polls 3 sample_table "us" 1 0).1.
Proof.
  eapply (polling_catches_up sample_table "us" 1 ltac:(repeat constructor; cbn; lia)
            ltac:(lia) _ _ (surjective_pairing _) 2); [lia|reflexivity|discriminate].
Defined.

Lemma first_event_never_delivered_witness :
  ~ sample_event "e0" 1 ∈ (polls 5 sample_table "us" 100 0).1.
Proof.
  eapply (first_event_never_delivered sample_table "us" 100 ltac:(repeat constructor; cbn; lia)
            ltac:(lia) 5 (sample_event "e0" 1)); [reflexivity|apply surjective_pairing].
Defined.

End Outbox.

(** ** Applying events *)

Module Applier.

Record PolicyRow := { p_document : Json; p_updated_at : Z }.

Record TenantRow := {
  slug : string; display_name : string; tier : string; root_key_id : string;
  t_updated_at : Z; t_deleted_at : option Z;
}.

Record ApiKeyRow := {
  ak_tenant_id : string; ak_name : string; ak_key_hash : string; ak_key_prefix : string;
  ak_path_prefixes : list string; ak_policies : list string; ak_created_by : string;
  ak_created_at : Z; ak_expires_at : option Z; ak_revoked_at : option Z;
  ak_rate_limit_per_minute : Z;
}.

Record DekRow := { d_version : Z; d_algorithm : string; d_tenant_id : string; d_wrapped_key : string }.

Record RegionRow := { r_status : string; r_last_seen : Z }.

Record SecretVersion := {
  sv_version : Z; sv_ciphertext : string; sv_dek_id : string;
  sv_deleted_at : option Z; sv_destroyed : bool;
}.

Record SecretRow := {
  s_current_version : Z; s_updated_at : Z; s_vector_clock : Json; s_origin_region : string;
  s_versions : list SecretVersion;
}.

Record Promotion := { pr_target : string; pr_initiated_by : string; pr_source : string; pr_local : string }.

(** The tables events are applied to. *)
Record Db := {
  secrets : gmap (string * string) SecretRow;
  policies : gmap (string * string) PolicyRow;
  tenants : gmap string TenantRow;
  api_keys : gmap string ApiKeyRow;
  key_descriptors : gmap string DekRow;
  regions : gmap string RegionRow;
  promotions : list Promotion;
}.

Definition set_secrets (db : Db) t := {| secrets := t; policies := db.(policies);
  tenants := db.(tenants); api_keys := db.(api_keys); key_descriptors := db.(key_descriptors);
  regions := db.(regions); promotions := db.(promotions) |}.
Definition set_policies (db : Db) t := {| secrets := db.(secrets); policies := t;
  tenants := db.(tenants); api_keys := db.(api_keys); key_descriptors := db.(key_descriptors);
  regions := db.(regions); promotions := db.(promotions) |}.
Definition set_tenants (db : Db) t := {| secrets := db.(secrets); policies := db.(policies);
  tenants := t; api_keys := db.(api_keys); key_descriptors := db.(key_descriptors);
  regions := db.(regions); promotions := db.(promotions) |}.
Definition set_api_keys (db : Db) t := {| secrets := db.(secrets); policies := db.(policies);
  tenants := db.(tenants); api_keys := t; key_descriptors := db.(key_descriptors);
  regions := db.(regions); promotions := db.(promotions) |}.
Definition set_key_descriptors (db : Db) t := {| secrets := db.(secrets); policies := db.(policies);
  tenants := db.(tenants); api_keys := db.(api_keys); key_descriptors := t;
  regions := db.(regions); promotions := db.(promotions) |}.
Definition set_regions (db : Db) t log := {| secrets := db.(secrets); policies := db.(policies);
  tenants := db.(tenants); api_keys := db.(api_keys); key_descriptors := db.(key_descriptors);
  regions := t; promotions := log |}.

(** [as i32]. *)
Definition as_i32 (z : Z) : Z := (z + 2 ^ 31) mod 2 ^ 32 - 2 ^ 31.

Definition in_i32 (z : Z) : bool := (- 2 ^ 31 <=? z) && (z <? 2 ^ 31).

(** [from_value::<Vec<i32>>] and [from_value::<HashMap<String, i64>>], empty on
    any other value. *)
Definition i32_list (v : Json) : list Z :=
  match v with
  | JArr l => default [] (mapM (fun j => n ← as_i64 j; if in_i32 n then Some n else None) l)
  | _ => []
  end.

Definition clock_of (v : Json) : Conflict.vclock :=
  match v with
  | JObj fields =>
      default ∅ (list_to_map <$> mapM (fun e : string * Json => n ← as_i64 e.2; Some (e.1, n))
                                      (reverse fields))
  | _ => ∅
  end.

(** *** The stored functions of [storage/postgres/init/003_functions.sql] and
    [010_secret_lifecycle.sql] *)

Definition vault_upsert_secret (row : option SecretRow) (now : Z) (ct dek : string) : SecretRow :=
  let cur := match row with Some r => r.(s_current_version) | None => 0 end in
  let old := match row with Some r => r.(s_versions) | None => [] end in
  {| s_current_version := cur + 1; s_updated_at := now;
     s_vector_clock := match row with Some r => r.(s_vector_clock) | None => JObj [] end;
     s_origin_region := match row with Some r => r.(s_origin_region) | None => "" end;
     s_versions := List.filter (fun v => negb ((v.(sv_version) <=? cur + 1 - 10)
                                               && negb v.(sv_destroyed)))
       (old ++ [{| sv_version := cur + 1; sv_ciphertext := ct; sv_dek_id := dek;
                   sv_deleted_at := None; sv_destroyed := false |}]) |}.

Definition vault_soft_delete_versions (row : SecretRow) (now : Z) (vs : list Z) : SecretRow :=
  {| s_current_version := row.(s_current_version); s_updated_at := row.(s_updated_at);
     s_vector_clock := row.(s_vector_clock); s_origin_region := row.(s_origin_region);
     s_versions := (fun v =>
       if bool_decide (v.(sv_version) ∈ vs) && bool_decide (v.(sv_deleted_at) = None)
          && negb v.(sv_destroyed)
       then {| sv_version := v.(sv_version); sv_ciphertext := v.(sv_ciphertext);
               sv_dek_id := v.(sv_dek_id); sv_deleted_at := Some now;
               sv_destroyed := v.(sv_destroyed) |}
       else v) <$> row.(s_versions) |}.

Definition vault_destroy_versions (row : SecretRow) (now : Z) (vs : list Z) : SecretRow :=
  {| s_current_version := row.(s_current_version); s_updated_at := row.(s_updated_at);
     s_vector_clock := row.(s_vector_clock); s_origin_region := row.(s_origin_region);
     s_versions := (fun v =>
       if bool_decide (v.(sv_version) ∈ vs) && negb v.(sv_destroyed)
       then {| sv_version := v.(sv_version); sv_ciphertext := ""; sv_dek_id := "";
               sv_deleted_at := Some (default now v.(sv_deleted_at)); sv_destroyed := true |}
       else v) <$> row.(s_versions) |}.

(** *** The handlers

    Each runs in one transaction at time [now], which an error rolls back. An
    ill-formed UUID is a database error; the other constraints of the schema are
    not modelled. A row that is updated has its [updated_at] set to the
    transaction's time by the trigger of [storage/postgres/init/001_schema.sql];
    an inserted row keeps the value it is given. *)

Section Apply.
Context `{Primitives}.
Context (uuid_canon : string -> option string) (parse_time : string -> option Z).

Definition require (ev : ReplicationEvent) (k message : string) : result string string :=
  ok_or (as_str (field ev.(payload) k)) message.

Definition cast_uuid (s : string) : result string string :=
  ok_or (uuid_canon s) "invalid input syntax for type uuid".

Definition time_field (ev : ReplicationEvent) (k : string) : option Z :=
  match field ev.(payload) k with JStr s => parse_time s | _ => None end.

Definition apply_dek_upsert (db : Db) (ev : ReplicationEvent) : result string Db :=
  tenant_id ← require ev "tenant_id" "missing tenant_id in dek_upsert payload";
  key_id ← require ev "key_id" "missing key_id in dek_upsert payload";
  wrapped ← require ev "dek_wrapped_root" "missing dek_wrapped_root in dek_upsert payload";
  let algorithm := default "aes-256-gcm" (as_str (field ev.(payload) "algorithm")) in
  let version := as_i32 (default 1 (as_i64 (field ev.(payload) "version"))) in
  id ← cast_uuid key_id;
  tid ← cast_uuid tenant_id;
  Ok (match db.(key_descriptors) !! id with
      | Some _ => db
      | None => set_key_descriptors db (<[id := {| d_version := version; d_algorithm := algorithm;
                    d_tenant_id := tid; d_wrapped_key := wrapped |}]> db.(key_descriptors))
      end).

Definition apply_secret_upsert (strategy local_region : string) (now : Z) (db : Db)
    (ev : ReplicationEvent) : result string Db :=
  tenant_id ← require ev "tenant_id" "missing tenant_id in secret_upsert payload";
  path ← require ev "path" "missing path in secret_upsert payload";
  ct ← require ev "ciphertext" "missing ciphertext in secret_upsert payload";
  dek ← require ev "dek_id" "missing dek_id in secret_upsert payload";
  tid ← cast_uuid tenant_id;
  let local := db.(secrets) !! (tid, path) in
  let resolution :=
    match local with
    | Some row =>
        Conflict.resolve strategy
          {| Conflict.local_updated_at := Some row.(s_updated_at);
             Conflict.remote_updated_at := ev.(ev_created_at);
             Conflict.local_vector_clock := clock_of row.(s_vector_clock);
             Conflict.remote_vector_clock := clock_of ev.(vector_clock);
             Conflict.local_region := local_region;
             Conflict.remote_region := ev.(source_region) |}
    | None => Conflict.AcceptRemote
    end in
  match resolution with
  | Conflict.KeepLocal | Conflict.ManualReview => Ok db
  | Conflict.AcceptRemote =>
      let row := vault_upsert_secret local now ct dek in
      Ok (set_secrets db (<[(tid, path) :=
            {| s_current_version := row.(s_current_version); s_updated_at := now;
               s_vector_clock := ev.(vector_clock); s_origin_region := ev.(source_region);
               s_versions := row.(s_versions) |}]> db.(secrets)))
  end.

(** The common shape of [apply_secret_delete] and [apply_secret_destroy]. *)
Definition apply_secret_versions (f : SecretRow -> Z -> list Z -> SecretRow) (now : Z) (db : Db)
    (ev : ReplicationEvent) : result string Db :=
  tenant_id ← require ev "tenant_id" "missing tenant_id";
  path ← require ev "path" "missing path";
  match i32_list (field ev.(payload) "versions") with
  | [] => Ok db
  | vs =>
      tid ← cast_uuid tenant_id;
      Ok (match db.(secrets) !! (tid, path) with
          | Some row => set_secrets db (<[(tid, path) := f row now vs]> db.(secrets))
          | None => db
          end)
  end.

Definition apply_secret_delete := apply_secret_versions vault_soft_delete_versions.
Definition apply_secret_destroy := apply_secret_versions vault_destroy_versions.

Definition apply_key_rotate (db : Db) (ev : ReplicationEvent) : result string Db := Ok db.

Definition apply_policy_update (now : Z) (db : Db) (ev : ReplicationEvent) : result string Db :=
  tenant_id ← require ev "tenant_id" "missing tenant_id in policy_update payload";
  name ← require ev "name" "missing name in policy_update payload";
  document ← ok_or (get_field ev.(payload) "document") "missing document in policy_update payload";
  tid ← cast_uuid tenant_id;
  match db.(policies) !! (tid, name) with
  | Some row =>
      if row.(p_updated_at) >? ev.(ev_created_at) then Ok db
      else Ok (set_policies db (<[(tid, name) :=
                 {| p_document := document; p_updated_at := now |}]> db.(policies)))
  | None =>
      Ok (set_policies db (<[(tid, name) :=
            {| p_document := document; p_updated_at := ev.(ev_created_at) |}]> db.(policies)))
  end.

Definition apply_api_key_upsert (now : Z) (db : Db) (ev : ReplicationEvent) : result string Db :=
  id ← require ev "id" "missing id in api_key_upsert payload";
  tenant_id ← require ev "tenant_id" "missing tenant_id in api_key_upsert payload";
  name ← require ev "name" "missing name in api_key_upsert payload";
  prefix ← require ev "key_prefix" "missing key_prefix in api_key_upsert payload";
  created_by ← require ev "created_by" "missing created_by in api_key_upsert payload";
  hash_b64 ← require ev "key_hash_b64" "missing key_hash_b64 in api_key_upsert payload";
  key_hash ← match b64_decode hash_b64 with
             | Ok h => Ok h
             | Err e => Err ("key_hash_b64 is not valid base64: " +:+ e)
             end;
  kid ← cast_uuid id;
  tid ← cast_uuid tenant_id;
  let old := db.(api_keys) !! kid in
  let revoked := time_field ev "revoked_at" in
  let row :=
    {| ak_tenant_id := match old with Some o => o.(ak_tenant_id) | None => tid end;
       ak_name := name; ak_key_hash := key_hash; ak_key_prefix := prefix;
       ak_path_prefixes := string_list (field ev.(payload) "path_prefixes");
       ak_policies := string_list (field ev.(payload) "policies");
       ak_created_by := match old with Some o => o.(ak_created_by) | None => created_by end;
       ak_created_at := match old with Some o => o.(ak_created_at) | None => now end;
       ak_expires_at := time_field ev "expires_at";
       ak_revoked_at := match old with
                        | Some o => match o.(ak_revoked_at) with
                                    | Some t => Some t | None => revoked end
                        | None => revoked
                        end;
       ak_rate_limit_per_minute :=
         as_i32 (default 60 (as_i64 (field ev.(payload) "rate_limit_per_minute"))) |} in
  Ok (set_api_keys db (<[kid := row]> db.(api_keys))).

Definition apply_tenant_update (now : Z) (db : Db) (ev : ReplicationEvent) : result string Db :=
  tenant_id ← require ev "id" "missing id in tenant_update payload";
  slug ← require ev "slug" "missing slug in tenant_update payload";
  dname ← require ev "display_name" "missing display_name in tenant_update payload";
  tier ← require ev "tier" "missing tier in tenant_update payload";
  root ← require ev "root_key_id" "missing root_key_id in tenant_update payload";
  tid ← cast_uuid tenant_id;
  let row at_ := {| slug := slug; display_name := dname; tier := tier; root_key_id := root;
                    t_updated_at := at_; t_deleted_at := time_field ev "deleted_at" |} in
  match db.(tenants) !! tid with
  | Some old =>
      if old.(t_updated_at) >? ev.(ev_created_at) then Ok db
      else Ok (set_tenants db (<[tid := row now]> db.(tenants)))
  | None => Ok (set_tenants db (<[tid := row ev.(ev_created_at)]> db.(tenants)))
  end.

(** [UPDATE system.regions SET status, last_seen = now() WHERE id]. *)
Definition set_region_status (t : gmap string RegionRow) (id status : string) (now : Z) :
    gmap string RegionRow :=
  match t !! id with
  | Some _ => <[id := {| r_status := status; r_last_seen := now |}]> t
  | None => t
  end.

Definition apply_region_promote (local_region : string) (now : Z) (db : Db)
    (ev : ReplicationEvent) : result string Db :=
  target ← require ev "target_region" "missing target_region in region_promote payload";
  let initiated_by := default ev.(source_region) (as_str (field ev.(payload) "initiated_by")) in
  let t := set_region_status db.(regions) target "active" now in
  let t := if bool_decide (target = local_region) && negb (bool_decide (initiated_by = local_region))
           then set_region_status t initiated_by "degraded" now else t in
  Ok (set_regions db t ({| pr_target := target; pr_initiated_by := initiated_by;
        pr_source := ev.(source_region); pr_local := local_region |} :: db.(promotions))).

Definition apply_event_inner (strategy local_region : string) (now : Z) (db : Db)
    (ev : ReplicationEvent) : result string Db :=
  let ty := ev.(event_type) in
  if bool_decide (ty = "dek_upsert") then apply_dek_upsert db ev
  else if bool_decide (ty = "secret_upsert") then apply_secret_upsert strategy local_region now db ev
  else if bool_decide (ty = "secret_delete") then apply_secret_delete now db ev
  else if bool_decide (ty = "secret_destroy") then apply_secret_destroy now db ev
  else if bool_decide (ty = "key_rotate") then apply_key_rotate db ev
  else if bool_decide (ty = "policy_update") then apply_policy_update now db ev
  else if bool_decide (ty = "tenant_update") then apply_tenant_update now db ev
  else if bool_decide (ty = "api_key_upsert") then apply_api_key_upsert now db ev
  else if bool_decide (ty = "region_failover") then Ok db
  else if bool_decide (ty = "region_promote") then apply_region_promote local_region now db ev
  else Ok db.

(** Commit on success, roll back on error. *)
Definition apply_event (strategy local_region : string) (now : Z) (db : Db)
    (ev : ReplicationEvent) : result string () * Db :=
  match apply_event_inner strategy local_region now db ev with
  | Ok db' => (Ok tt, db')
  | Err e => (Err e, db)
  end.

(** The loop of [fetch_and_apply_events]: every event of the batch is tried, each
    at its own time, and a failure is only counted. *)
Definition apply_batch (strategy local_region : string) (db : Db)
    (batch : list (Z * ReplicationEvent)) : Db :=
  fold_left (fun db e => (apply_event strategy local_region e.1 db e.2).2) batch db.

(** One poll of a peer, from its recorded sequence. *)
Definition fetch_and_apply_events (strategy local_region : string) (batch_size : Z)
    (clock : nat -> Z) (table : list ReplicationEvent) (peer : string)
    (db : Db) (sequences : gmap string Z) : Db * gmap string Z :=
  let last_seq := default 0 (sequences !! peer) in
  let '(events, cursor) := Outbox.poll table local_region batch_size last_seq in
  (apply_batch strategy local_region db (imap (fun i e => (clock i, e)) events),
   match events with [] => sequences | _ => <[peer := cursor]> sequences end).

(** *** API keys *)

(** Through the binds of a handler that succeeded. *)
Ltac run H := repeat (apply result_bind_ok in H as (? & _ & H)).

Lemma apply_event_api_keys strategy local now db ev db' :
  apply_event_inner strategy local now db ev = Ok db' ->
  db'.(api_keys) = db.(api_keys) \/ apply_api_key_upsert now db ev = Ok db'.
Proof.
  unfold apply_event_inner.
  repeat (case_bool_decide; [intros Hok; try (by right); left|]); [..|intros [= <-]; by left].
  - unfold apply_dek_upsert in Hok. run Hok. res_inv. by case_match.
  - unfold apply_secret_upsert in Hok. run Hok. case_match; by res_inv.
  - unfold apply_secret_delete, apply_secret_versions in Hok. run Hok.
    case_match; [by res_inv|]. run Hok. res_inv. by case_match.
  - unfold apply_secret_destroy, apply_secret_versions in Hok. run Hok.
    case_match; [by res_inv|]. run Hok. res_inv. by case_match.
  - unfold apply_key_rotate in Hok. by res_inv.
  - unfold apply_policy_update in Hok. run Hok. repeat case_match; by res_inv.
  - unfold apply_tenant_update in Hok. run Hok. repeat case_match; by res_inv.
  - by res_inv.
  - unfold apply_region_promote in Hok. run Hok. by res_inv.
Qed.

Lemma apply_api_key_revoked now db ev db' k r t :
  apply_api_key_upsert now db ev = Ok db' ->
  db.(api_keys) !! k = Some r -> r.(ak_revoked_at) = Some t ->
  exists r', db'.(api_keys) !! k = Some r' /\ r'.(ak_revoked_at) = Some t /\
    r'.(ak_tenant_id) = r.(ak_tenant_id).
Proof.
  intros Hok Hk Hr. unfold apply_api_key_upsert in Hok. run Hok. res_inv. cbn [api_keys set_api_keys].
  match goal with |- context [<[?kid := _]> _] => destruct (decide (kid = k)) as [->|Hne] end.
  - rewrite lookup_insert_eq, Hk. eexists. split; [done|]. cbn. by rewrite Hr.
  - rewrite lookup_insert_ne by done. eauto.
Qed.

(** A revoked API key stays revoked: no sequence of events from peer regions,
    late, replayed or out of order, clears or changes the revocation time of a
    key this region knows to be revoked, or moves the key to another tenant. *)
Theorem api_key_revocation_permanent strategy local db batch k r t :
  db.(api_keys) !! k = Some r -> r.(ak_revoked_at) = Some t ->
  exists r', (apply_batch strategy local db batch).(api_keys) !! k = Some r' /\
    r'.(ak_revoked_at) = Some t /\ r'.(ak_tenant_id) = r.(ak_tenant_id).
Proof.
  unfold apply_batch. revert db r. induction batch as [|[now ev] batch IH]; intros db r Hk Hr.
  { eauto. }
  cbn [fold_left fst snd]. unfold apply_event at 2.
  destruct (apply_event_inner strategy local now db ev) as [db'|e] eqn:E; cbn [snd]; [|eauto].
  destruct (apply_event_api_keys _ _ _ _ _ _ E) as [Hsame|Hup].
  - apply IH; [by rewrite Hsame|done].
  - destruct (apply_api_key_revoked _ _ _ _ _ _ _ Hup Hk Hr) as (r1 & Hk1 & Hr1 & Ht1).
    destruct (IH db' r1 Hk1 Hr1) as (r2 & Hk2 & Hr2 & Ht2). exists r2. split; [done|].
    split; [done|congruence].
Qed.

(** *** Policies *)

Lemma apply_policy_event strategy local now db ev :
  ev.(event_type) = "policy_update" ->
  apply_event_inner strategy local now db ev = apply_policy_update now db ev.
Proof. intros Ht. unfold apply_event_inner. by rewrite Ht. Qed.

Lemma policy_update_on_row now db ev tid name doc row :
  require ev "tenant_id" "missing tenant_id in policy_update payload" = Ok tid ->
  require ev "name" "missing name in policy_update payload" = Ok name ->
  get_field ev.(payload) "document" = Some doc ->
  uuid_canon tid = Some tid -> db.(policies) !! (tid, name) = Some row ->
  apply_policy_update now db ev =
  if row.(p_updated_at) >? ev.(ev_created_at) then Ok db
  else Ok (set_policies db (<[(tid, name) := {| p_document := doc; p_updated_at := now |}]>
                              db.(policies))).
Proof.
  intros Ht Hn Hd Hu Hr. unfold apply_policy_update, cast_uuid.
  rewrite Ht, Hn, Hd. cbn [mbind result_bind ok_or]. rewrite Hu. cbn [mbind result_bind ok_or].
  by rewrite Hr.
Qed.

(** A policy known here is updated by the first event applied and then carries
    the time of that application, so a second event for the same policy that was
    created before that moment, in particular one of the same batch, is
    discarded although it is the newer write. *)
Theorem second_policy_update_lost strategy local now now' db ev1 ev2 tid name row doc1 :
  now <= now' -> ev2.(ev_created_at) < now ->
  ev1.(event_type) = "policy_update" -> ev2.(event_type) = "policy_update" ->
  require ev1 "tenant_id" "missing tenant_id in policy_update payload" = Ok tid ->
  require ev2 "tenant_id" "missing tenant_id in policy_update payload" = Ok tid ->
  require ev1 "name" "missing name in policy_update payload" = Ok name ->
  require ev2 "name" "missing name in policy_update payload" = Ok name ->
  get_field ev1.(payload) "document" = Some doc1 ->
  is_Some (get_field ev2.(payload) "document") ->
  uuid_canon tid = Some tid -> db.(policies) !! (tid, name) = Some row ->
  row.(p_updated_at) <= ev1.(ev_created_at) ->
  (apply_batch strategy local db [(now, ev1); (now', ev2)]).(policies) !! (tid, name)
  = Some {| p_document := doc1; p_updated_at := now |}.
Proof.
  intros Hn Hlt Ht1 Ht2 Hti1 Hti2 Hn1 Hn2 Hd1 [doc2 Hd2] Hu Hrow Hle.
  unfold apply_batch, apply_event. cbn [fold_left fst snd]. rewrite !apply_policy_event by done.
  rewrite (policy_update_on_row now db ev1 tid name doc1 row) by done.
  rewrite Z.gtb_ltb, (proj2 (Z.ltb_ge _ _)) by lia. cbn [snd].
  erewrite (policy_update_on_row now' _ ev2 tid name doc2); [|done..|apply lookup_insert_eq].
  cbn [p_updated_at]. rewrite (proj2 (Z.gtb_lt _ _)) by lia. apply lookup_insert_eq.
Qed.

End Apply.

(** *** Witnesses *)

Definition empty_db : Db :=
  {| secrets := ∅; policies := ∅; tenants := ∅; api_keys := ∅; key_descriptors := ∅;
     regions := ∅; promotions := [] |}.

Definition revoked_key : ApiKeyRow :=
  {| ak_tenant_id := "t"; ak_name := "ci"; ak_key_hash := "h"; ak_key_prefix := "p";
     ak_path_prefixes := []; ak_policies := []; ak_created_by := "ada"; ak_created_at := 0;
     ak_expires_at := None; ak_revoked_at := Some 7; ak_rate_limit_per_minute := 60 |}.

Definition revive : ReplicationEvent :=
  {| ev_id := "e"; event_type := "api_key_upsert"; source_region := "eu";
     payload := JObj [("id", JStr "k"); ("tenant_id", JStr "t2"); ("name", JStr "ci");
                      ("key_prefix", JStr "p"); ("created_by", JStr "eve");
                      ("key_hash_b64", JStr "")];
     vector_clock := JNull; ev_created_at := 9 |}.

Lemma api_key_revocation_permanent_witness :
  exists r', (apply_batch (H := stand_in) Some (fun _ => None) "lww" "us"
                (set_api_keys empty_db {["k" := revoked_key]}) [(10, revive)]).(api_keys) !! "k"
             = Some r' /\ r'.(ak_revoked_at) = Some 7 /\ r'.(ak_tenant_id) = "t".
Proof.
  apply (api_key_revocation_permanent (H := stand_in) Some (fun _ => None) "lww" "us"
           (set_api_keys empty_db {["k" := revoked_key]}) [(10, revive)] "k" revoked_key 7);
    reflexivity.
Defined.

Definition policy_event (doc : string) (at_ : Z) : ReplicationEvent :=
  {| ev_id := "e"; event_type := "policy_update"; source_region := "eu";
     payload := JObj [("tenant_id", JStr "t"); ("name", JStr "p"); ("document", JStr doc)];
     vector_clock := JNull; ev_created_at := at_ |}.

Lemma second_policy_update_lost_witness :
  (apply_batch (H := stand_in) Some (fun _ => None) "lww" "us"
     (set_policies empty_db {[("t", "p") := {| p_document := JStr "v0"; p_updated_at := 0 |}]})
     [(10, policy_event "v1" 1); (10, policy_event "v2" 2)]).(policies) !! ("t", "p")
  = Some {| p_document := JStr "v1"; p_updated_at := 10 |}.
Proof.
  apply (second_policy_update_lost (H := stand_in) Some (fun _ => None) "lww" "us" 10 10
           (set_policies empty_db {[("t", "p") := {| p_document := JStr "v0"; p_updated_at := 0 |}]})
           (policy_event "v1" 1) (policy_event "v2" 2) "t" "p"
           {| p_document := JStr "v0"; p_updated_at := 0 |} (JStr "v1"));
    try reflexivity; try (vm_compute; discriminate); eexists; reflexivity.
Defined.

End Applier.
