(* ===== verification/IdentityDb.v ===== *)
(** * Identity storage

    [crates/wslvault-storage]: the tables the identity service keeps in
    PostgreSQL and the statements it runs on them. [Module ApiKeyStore] is
    [api_key_store.rs] ([shared.api_keys]), [Module MfaStore] is [mfa_store.rs]
    ([shared.mfa_totp], [shared.mfa_recovery_codes]). A statement is a function
    on the tables, with its WHERE clause written out and the constraints of the
    schema checked where it inserts; a statement inside a transaction that is
    not committed has no effect. The services connect as the owner of the tables,
    to which row-level security does not apply, so the tenant scope a
    transaction sets is not a filter here.

    The database driver may refuse any call: [Io] says which calls of a handler
    fail, and with what message. *)

From Stdlib Require Import Lia.
From stdpp Require Import sorting.
From S2P Require Import Prelude Errors.

(** ** Tables *)

Record Tenant := { t_id : string; t_slug : string; t_deleted_at : option Z }.

Record ApiKeyRow := {
  row_id : string;
  row_tenant_id : string;
  row_name : string;
  key_hash : string;
  key_prefix : string;
  row_path_prefixes : list string;
  row_policies : list string;
  created_by : string;
  row_created_at : Z;
  row_expires_at : option Z;
  last_used_at : option Z;
  revoked_at : option Z;
  rate_limit_per_minute : Z;
  is_superuser : bool;
  mfa_required : bool;
}.

Record TotpEnrolment := {
  e_api_key_id : string;
  e_tenant_id : string;
  wrapped_secret : string;
  last_used_step : Z;
  confirmed_at : option Z;
}.

Record RecoveryCode := {
  rc_api_key_id : string;
  rc_tenant_id : string;
  code_hash : string;
  used_at : option Z;
}.

Record Pg := {
  tenants : list Tenant;
  api_keys : gmap string ApiKeyRow;
  mfa_totp : gmap string TotpEnrolment;
  recovery_codes : list RecoveryCode;
}.

Definition with_api_keys (db : Pg) (m : gmap string ApiKeyRow) : Pg :=
  {| tenants := db.(tenants); api_keys := m; mfa_totp := db.(mfa_totp);
     recovery_codes := db.(recovery_codes) |}.

Definition with_mfa_totp (db : Pg) (m : gmap string TotpEnrolment) : Pg :=
  {| tenants := db.(tenants); api_keys := db.(api_keys); mfa_totp := m;
     recovery_codes := db.(recovery_codes) |}.

Definition with_recovery_codes (db : Pg) (l : list RecoveryCode) : Pg :=
  {| tenants := db.(tenants); api_keys := db.(api_keys); mfa_totp := db.(mfa_totp);
     recovery_codes := l |}.

(** ** The driver

    [io i] is the message the [i]-th call of a handler fails with, if it does. *)

Definition Io := nat -> option string.

Definition all_well : Io := fun _ => None.

Definition call {A} (io : Io) (i : nat) (wrap : string -> VaultError) (a : A) : vresult A :=
  match io i with Some e => Err (wrap e) | None => Ok a end.

(** [DbPool::begin_tenant], [DbPool::begin_cross_tenant] and [ScopedTx::commit]. *)
Definition begin_tx (io : Io) (i : nat) : vresult () :=
  call io i (fun e => Database ("begin failed: " +:+ e)) tt.

Definition commit (io : Io) (i : nat) : vresult () :=
  call io i (fun e => Database ("commit failed: " +:+ e)) tt.

Lemma begin_well i : begin_tx all_well i = Ok tt.
Proof. done. Qed.

Lemma commit_well i : commit all_well i = Ok tt.
Proof. done. Qed.

Module ApiKeyStore.

Definition db_err (op e : string) : VaultError := Database ("api_keys " +:+ op +:+ ": " +:+ e).

Definition rows (db : Pg) : list ApiKeyRow := (map_to_list db.(api_keys)).*2.

(** The reference is tried as a UUID first ([parse_uuid] gives its canonical
    text), then as a slug; deleted tenants do not resolve. *)
Definition resolve_tenant_id (parse_uuid : string -> option string) (io : Io) (i : nat) (db : Pg)
    (reference : string) : vresult string :=
  let wanted t := match parse_uuid reference with
                  | Some uuid => bool_decide (t.(t_id) = uuid)
                  | None => bool_decide (t.(t_slug) = reference)
                  end in
  row ← call io i (db_err "resolve_tenant")
          (List.find (fun t => wanted t && bool_decide (t.(t_deleted_at) = None)) db.(tenants));
  ok_or (t_id <$> row) (TenantNotFound reference).

Definition find_by_hash (io : Io) (i : nat) (db : Pg) (hash : string) :
    vresult (option ApiKeyRow) :=
  call io i (db_err "find_by_hash")
    (List.find (fun r => bool_decide (r.(key_hash) = hash)) (rows db)).

Definition owned (r : ApiKeyRow) (key_id tenant_id : string) : bool :=
  bool_decide (r.(row_id) = key_id) && bool_decide (r.(row_tenant_id) = tenant_id).

Definition find_by_id (io : Io) (i : nat) (db : Pg) (key_id tenant_id : string) :
    vresult (option ApiKeyRow) :=
  call io i (db_err "find_by_id") (List.find (fun r => owned r key_id tenant_id) (rows db)).

#[global] Instance newest_first_dec :
  RelDecision (fun a b : ApiKeyRow => b.(row_created_at) <= a.(row_created_at)).
Proof. intros a b. apply _. Defined.

Definition list_active_for_tenant (io : Io) (i : nat) (now : Z) (db : Pg) (tenant_id : string) :
    vresult (list ApiKeyRow) :=
  call io i (db_err "list_active")
    (merge_sort (fun a b : ApiKeyRow => b.(row_created_at) <= a.(row_created_at))
       (List.filter (fun r => bool_decide (r.(row_tenant_id) = tenant_id)
                              && bool_decide (r.(revoked_at) = None)
                              && match r.(row_expires_at) with
                                 | None => true | Some t => now <=? t end) (rows db))).

Definition active_name (tenant_id name : string) (r : ApiKeyRow) : bool :=
  bool_decide (r.(row_tenant_id) = tenant_id) && bool_decide (r.(row_name) = name)
  && bool_decide (r.(revoked_at) = None).

Definition active_name_exists (io : Io) (i : nat) (db : Pg) (tenant_id name : string) :
    vresult bool :=
  call io i (db_err "active_name_exists") (existsb (active_name tenant_id name) (rows db)).

(** The row [insert_query] binds: [last_used_at] and [revoked_at] are left to
    their defaults. *)
Definition insert_query (row : ApiKeyRow) : ApiKeyRow :=
  {| row_id := row.(row_id); row_tenant_id := row.(row_tenant_id); row_name := row.(row_name);
     key_hash := row.(key_hash); key_prefix := row.(key_prefix);
     row_path_prefixes := row.(row_path_prefixes); row_policies := row.(row_policies);
     created_by := row.(created_by); row_created_at := row.(row_created_at);
     row_expires_at := row.(row_expires_at); last_used_at := None; revoked_at := None;
     rate_limit_per_minute := row.(rate_limit_per_minute);
     is_superuser := row.(is_superuser);
     mfa_required := row.(mfa_required) || row.(is_superuser) |}.

(** The primary key, [UNIQUE (key_hash)] and the partial index of migration 016. *)
Definition unique_violation (db : Pg) (row : ApiKeyRow) : bool :=
  bool_decide (is_Some (db.(api_keys) !! row.(row_id)))
  || existsb (fun r => bool_decide (r.(key_hash) = row.(key_hash))
                       || active_name row.(row_tenant_id) row.(row_name) r) (rows db).

Definition tenant_exists (db : Pg) (tenant_id : string) : bool :=
  existsb (fun t => bool_decide (t.(t_id) = tenant_id)) db.(tenants).

Definition insert (io : Io) (i : nat) (db : Pg) (row : ApiKeyRow) : vresult Pg :=
  match io i with
  | Some e => Err (db_err "insert" e)
  | None =>
      if unique_violation db row
      then Err (ValidationError "name"
             ("an active api key named '" +:+ row.(row_name) +:+ "' already exists"))
      else if negb (tenant_exists db row.(row_tenant_id))
      then Err (db_err "insert" "violates foreign key constraint")
      else Ok (with_api_keys db (<[row.(row_id) := insert_query row]> db.(api_keys)))
  end.

Definition set_revoked (now : Z) (r : ApiKeyRow) : ApiKeyRow :=
  {| row_id := r.(row_id); row_tenant_id := r.(row_tenant_id); row_name := r.(row_name);
     key_hash := r.(key_hash); key_prefix := r.(key_prefix);
     row_path_prefixes := r.(row_path_prefixes); row_policies := r.(row_policies);
     created_by := r.(created_by); row_created_at := r.(row_created_at);
     row_expires_at := r.(row_expires_at); last_used_at := r.(last_used_at);
     revoked_at := Some now; rate_limit_per_minute := r.(rate_limit_per_minute);
     is_superuser := r.(is_superuser); mfa_required := r.(mfa_required) |}.

Definition set_last_used (now : Z) (r : ApiKeyRow) : ApiKeyRow :=
  {| row_id := r.(row_id); row_tenant_id := r.(row_tenant_id); row_name := r.(row_name);
     key_hash := r.(key_hash); key_prefix := r.(key_prefix);
     row_path_prefixes := r.(row_path_prefixes); row_policies := r.(row_policies);
     created_by := r.(created_by); row_created_at := r.(row_created_at);
     row_expires_at := r.(row_expires_at); last_used_at := Some now;
     revoked_at := r.(revoked_at); rate_limit_per_minute := r.(rate_limit_per_minute);
     is_superuser := r.(is_superuser); mfa_required := r.(mfa_required) |}.

Definition set_mfa_required (r : ApiKeyRow) : ApiKeyRow :=
  {| row_id := r.(row_id); row_tenant_id := r.(row_tenant_id); row_name := r.(row_name);
     key_hash := r.(key_hash); key_prefix := r.(key_prefix);
     row_path_prefixes := r.(row_path_prefixes); row_policies := r.(row_policies);
     created_by := r.(created_by); row_created_at := r.(row_created_at);
     row_expires_at := r.(row_expires_at); last_used_at := r.(last_used_at);
     revoked_at := r.(revoked_at); rate_limit_per_minute := r.(rate_limit_per_minute);
     is_superuser := r.(is_superuser); mfa_required := true |}.

(** [revoke] and [touch_last_used]: the row is found by its primary key. *)
Definition revoke (io : Io) (i : nat) (now : Z) (db : Pg) (key_id tenant_id : string) :
    vresult (bool * Pg) :=
  call io i (db_err "revoke")
    (match db.(api_keys) !! key_id with
     | Some r => if bool_decide (r.(row_tenant_id) = tenant_id) && bool_decide (r.(revoked_at) = None)
                 then (true, with_api_keys db (<[key_id := set_revoked now r]> db.(api_keys)))
                 else (false, db)
     | None => (false, db)
     end).

Definition touch_last_used (io : Io) (i : nat) (now : Z) (db : Pg) (key_id tenant_id : string) :
    vresult Pg :=
  call io i (db_err "touch_last_used")
    (match db.(api_keys) !! key_id with
     | Some r => if bool_decide (r.(row_tenant_id) = tenant_id)
                 then with_api_keys db (<[key_id := set_last_used now r]> db.(api_keys)) else db
     | None => db
     end).

End ApiKeyStore.

Module MfaStore.

Definition is_active (e : TotpEnrolment) : bool := bool_decide (is_Some e.(confirmed_at)).

Definition find (io : Io) (i : nat) (db : Pg) (api_key_id : string) :
    vresult (option TotpEnrolment) :=
  call io i (fun e => Database ("mfa lookup failed: " +:+ e)) (db.(mfa_totp) !! api_key_id).

(** [upsert_pending]; the key and its tenant exist, so the foreign keys of the
    new row hold. *)
Definition upsert_pending (io : Io) (i : nat) (db : Pg) (api_key_id tenant_id wrapped : string) :
    vresult Pg :=
  let fresh tenant := {| e_api_key_id := api_key_id; e_tenant_id := tenant;
                         wrapped_secret := wrapped; last_used_step := 0;
                         confirmed_at := None |} in
  affected ← call io i (fun e => Database ("could not start MFA enrolment: " +:+ e))
    (match db.(mfa_totp) !! api_key_id with
     | None => Some (<[api_key_id := fresh tenant_id]> db.(mfa_totp))
     | Some old => if bool_decide (old.(confirmed_at) = None)
                   then Some (<[api_key_id := fresh old.(e_tenant_id)]> db.(mfa_totp))
                   else None
     end);
  match affected with
  | Some m => Ok (with_mfa_totp db m)
  | None => Err (ValidationError "mfa"
      "this key already has a confirmed authenticator; remove it before re-enrolling")
  end.

Definition set_confirmed (now step : Z) (e : TotpEnrolment) : TotpEnrolment :=
  {| e_api_key_id := e.(e_api_key_id); e_tenant_id := e.(e_tenant_id);
     wrapped_secret := e.(wrapped_secret); last_used_step := step;
     confirmed_at := Some now |}.

Definition set_step (step : Z) (e : TotpEnrolment) : TotpEnrolment :=
  {| e_api_key_id := e.(e_api_key_id); e_tenant_id := e.(e_tenant_id);
     wrapped_secret := e.(wrapped_secret); last_used_step := step;
     confirmed_at := e.(confirmed_at) |}.

Definition confirm (io : Io) (i j : nat) (now : Z) (db : Pg) (api_key_id : string) (step : Z) :
    vresult Pg :=
  confirmed ← call io i (fun e => Database ("could not confirm MFA enrolment: " +:+ e))
                (db.(mfa_totp) !! api_key_id);
  match confirmed with
  | None => Err (ValidationError "mfa" "no enrolment to confirm")
  | Some e =>
      call io j (fun e => Database ("could not enable MFA on the key: " +:+ e))
        (with_api_keys (with_mfa_totp db (<[api_key_id := set_confirmed now step e]> db.(mfa_totp)))
           (alter ApiKeyStore.set_mfa_required api_key_id db.(api_keys)))
  end.

Definition try_consume_step (io : Io) (i : nat) (db : Pg) (api_key_id : string) (step : Z) :
    vresult (bool * Pg) :=
  call io i (fun e => Database ("could not record the MFA step: " +:+ e))
    (match db.(mfa_totp) !! api_key_id with
     | Some e => if e.(last_used_step) <? step
                 then (true, with_mfa_totp db (<[api_key_id := set_step step e]> db.(mfa_totp)))
                 else (false, db)
     | None => (false, db)
     end).

(** [delete]: nothing calls it. *)
Definition delete (io : Io) (i : nat) (db : Pg) (api_key_id : string) : vresult Pg :=
  call io i (fun e => Database ("could not remove MFA enrolment: " +:+ e))
    (with_mfa_totp db (base.delete api_key_id db.(mfa_totp))).

(** [replace_recovery_codes]: the DELETE is call [i], the INSERTs follow. *)
Fixpoint insert_codes (io : Io) (i : nat) (db : Pg) (api_key_id tenant_id : string)
    (hashes : list string) : vresult Pg :=
  match hashes with
  | [] => Ok db
  | hash :: hashes' =>
      match io i with
      | Some e => Err (Database ("could not store a recovery code: " +:+ e))
      | None =>
          if existsb (fun c => bool_decide (c.(rc_api_key_id) = api_key_id)
                               && bool_decide (c.(code_hash) = hash)) db.(recovery_codes)
          then Err (Database "could not store a recovery code: duplicate key value")
          else insert_codes io (S i)
                 (with_recovery_codes db (db.(recovery_codes) ++
                    [{| rc_api_key_id := api_key_id; rc_tenant_id := tenant_id;
                        code_hash := hash; used_at := None |}]))
                 api_key_id tenant_id hashes'
      end
  end.

Definition replace_recovery_codes (io : Io) (i : nat) (db : Pg) (api_key_id tenant_id : string)
    (hashes : list string) : vresult Pg :=
  cleared ← call io i (fun e => Database ("could not clear old recovery codes: " +:+ e))
    (with_recovery_codes db
       (List.filter (fun c => negb (bool_decide (c.(rc_api_key_id) = api_key_id)))
          db.(recovery_codes)));
  insert_codes io (S i) cleared api_key_id tenant_id hashes.

Definition count_recovery_codes (io : Io) (i : nat) (db : Pg) (api_key_id : string) :
    vresult (Z * Z) :=
  let mine := List.filter (fun c => bool_decide (c.(rc_api_key_id) = api_key_id))
                db.(recovery_codes) in
  call io i (fun e => Database ("could not count recovery codes: " +:+ e))
    (len mine, len (List.filter (fun c => bool_decide (c.(used_at) = None)) mine)).

(** The rows a set of hashes spends. *)
Definition spends (api_key_id : string) (hashes : list string) (c : RecoveryCode) : bool :=
  bool_decide (c.(rc_api_key_id) = api_key_id) && bool_decide (c.(code_hash) ∈ hashes)
  && bool_decide (c.(used_at) = None).

Definition spend (now : Z) (api_key_id : string) (hashes : list string) (c : RecoveryCode) :
    RecoveryCode :=
  if spends api_key_id hashes c
  then {| rc_api_key_id := c.(rc_api_key_id); rc_tenant_id := c.(rc_tenant_id);
          code_hash := c.(code_hash); used_at := Some now |}
  else c.

Definition consume_recovery_code (io : Io) (i : nat) (now : Z) (db : Pg) (api_key_id : string)
    (hashes : list string) : vresult (bool * Pg) :=
  call io i (fun e => Database ("could not consume a recovery code: " +:+ e))
    (existsb (spends api_key_id hashes) db.(recovery_codes),
     with_recovery_codes db (spend now api_key_id hashes <$> db.(recovery_codes))).

End MfaStore.
