(* ===== verification/ApiKeys.v ===== *)
(** * API keys

    [services/identity-service/src/api_keys.rs], the key manager and its
    administration: generating, validating, revoking, listing and rotating keys
    on both backends, the administrator gate and the HTTP handlers of
    [/v1/api-keys]. The login and second-factor handlers of the same source file
    are in [Mfa]. Hashing, base64, UUID parsing, date arithmetic and token
    verification are parameters. *)

From Stdlib Require Import Lia Ascii.
From stdpp Require Import sorting.
From S2P Require Import Prelude Errors Auth IdentityDb.

(** ** Errors *)

Inductive ApiKeyError :=
| KeyNotFound
| KeyExpired
| KeyRevoked
| DuplicateName (name : string)
| InvalidKeyFormat
| RateLimitExceeded
| TokenIssuance (reason : string)
| TenantNotFound (tenant : string)
| Storage (reason : string)
| MissingTenantId (reason : string).

Definition status_code (e : ApiKeyError) : Z :=
  match e with
  | KeyNotFound => 404 | KeyExpired => 401 | KeyRevoked => 401 | DuplicateName _ => 409
  | InvalidKeyFormat => 400 | RateLimitExceeded => 429 | TokenIssuance _ => 500
  | TenantNotFound _ => 404 | Storage _ => 500 | MissingTenantId _ => 400
  end.

Definition error_code (e : ApiKeyError) : string :=
  match e with
  | KeyNotFound => "key_not_found" | KeyExpired => "key_expired" | KeyRevoked => "key_revoked"
  | DuplicateName _ => "duplicate_name" | InvalidKeyFormat => "invalid_key_format"
  | RateLimitExceeded => "rate_limit_exceeded" | TokenIssuance _ => "token_issuance_failed"
  | TenantNotFound _ => "tenant_not_found" | Storage _ => "storage_error"
  | MissingTenantId _ => "missing_tenant_id"
  end.

Definition api_key_error_display (e : ApiKeyError) : string :=
  match e with
  | KeyNotFound => "api key not found"
  | KeyExpired => "api key has expired"
  | KeyRevoked => "api key has been revoked"
  | DuplicateName n => "an api key with name '" +:+ n +:+ "' already exists for this tenant"
  | InvalidKeyFormat =>
      "api key format is invalid; expected 'wslv_<base64url>'. "
      +:+ "This must be an API key from POST /v1/api-keys — not VAULT_ADMIN_TOKEN "
      +:+ "or another deployment secret"
  | RateLimitExceeded => "rate limit exceeded"
  | TokenIssuance r => "token issuance failed: " +:+ r
  | TenantNotFound t => "tenant '" +:+ t +:+ "' does not exist"
  | Storage r => "api key store unavailable: " +:+ r
  | MissingTenantId r => r
  end.

(** A request ends in an error of the manager, or the handler panics (a date
    out of range). *)
Inductive failure := Refused (e : ApiKeyError) | Panicked.

Definition refuse {A} (r : result ApiKeyError A) : result failure A :=
  match r with Ok a => Ok a | Err e => Err (Refused e) end.

(** ** Data

    [ApiKeyRecord] has the fields of the stored row, with the tenant as text. *)

Abbreviation ApiKeyRecord := ApiKeyRow.

Record ApiKeyCreateRequest := {
  req_name : string;
  req_tenant_id : string;
  req_policies : option (list string);
  req_path_prefixes : option (list string);
  expires_in_seconds : option Z;
  req_rate_limit : option Z;
  req_is_superuser : bool;
  req_mfa_required : bool;
}.

Record ApiKeyCreateResponse := {
  resp_id : string;
  resp_key : string;
  resp_key_prefix : string;
  resp_name : string;
  resp_tenant_id : string;
  resp_policies : list string;
  resp_path_prefixes : list string;
  resp_expires_at : option Z;
  resp_created_at : Z;
}.

Record ApiKeyValidationResult := {
  v_key_id : string;
  v_tenant_id : string;
  v_policies : list string;
  v_path_prefixes : list string;
  v_rate_limit_per_minute : Z;
  v_is_superuser : bool;
  v_mfa_required : bool;
}.

(** [Backend]: PostgreSQL, or two maps in the process. *)
Inductive Backend :=
| DatabaseBackend (db : Pg)
| MemoryBackend (by_hash : gmap string ApiKeyRecord) (id_to_hash : gmap string string).

(** What the random generator and the UUID generator return to one request. *)
Record Fresh := { random_bytes : string; fresh_id : string }.

Definition RAW_KEY_PREFIX : string := "wslv_".
Definition KEY_PREFIX_DISPLAY_LEN : nat := 8.

(** ** Constant-time comparison *)

Fixpoint ct_diff (a b : string) (acc : N) : N :=
  match a, b with
  | String x a', String y b' => ct_diff a' b' (N.lor acc (N.lxor (N_of_ascii x) (N_of_ascii y)))
  | _, _ => acc
  end.

Definition ct_bytes_equal (a b : string) : bool :=
  if negb (String.length a =? String.length b)%nat then false else (ct_diff a b 0 =? 0)%N.

Section Manager.

Context (sha256 : string -> string) (b64url_encode : string -> string).
Context (parse_uuid : string -> option string).
(** [DateTime + Duration::seconds(n)]; [None] is a panic. *)
Context (add_seconds : Z -> Z -> option Z).
(** [{:?}] on a string. *)
Context (debug_str : string -> string).

Definition store_err (e : VaultError) : ApiKeyError :=
  match e with
  | Errors.TenantNotFound t => TenantNotFound t
  | other => Storage (display debug_str other)
  end.

Definition stored {A} (r : vresult A) : result ApiKeyError A :=
  match r with Ok a => Ok a | Err e => Err (store_err e) end.

(** ** Keys *)

Definition generate_key (fresh : Fresh) : string :=
  RAW_KEY_PREFIX +:+ b64url_encode fresh.(random_bytes).

Definition hash_key (raw_key : string) : string := sha256 raw_key.

Definition parse_key_random_portion (raw_key : string) : result ApiKeyError string :=
  match Str.strip_prefix RAW_KEY_PREFIX raw_key with
  | Some s => if Str.is_empty s then Err InvalidKeyFormat else Ok s
  | None => Err InvalidKeyFormat
  end.

(** The display prefix: the encoded part is ASCII, so characters are bytes. *)
Definition mint (fresh : Fresh) (now : Z) (req : ApiKeyCreateRequest) (name creator : string) :
    result failure (string * ApiKeyRecord) :=
  let raw_key := generate_key fresh in
  let prefix := String.substring 0 KEY_PREFIX_DISPLAY_LEN
                  (default raw_key (Str.strip_prefix RAW_KEY_PREFIX raw_key)) in
  expires ← match req.(expires_in_seconds) with
            | None => Ok None
            | Some secs => match add_seconds now secs with
                           | Some t => Ok (Some t)
                           | None => Err Panicked
                           end
            end;
  Ok (raw_key,
      {| row_id := fresh.(fresh_id); row_tenant_id := req.(req_tenant_id); row_name := name;
         key_hash := hash_key raw_key; key_prefix := prefix;
         row_path_prefixes := default [] req.(req_path_prefixes);
         row_policies := default [] req.(req_policies); created_by := creator;
         row_created_at := now; row_expires_at := expires; last_used_at := None;
         revoked_at := None; rate_limit_per_minute := default 60 req.(req_rate_limit);
         is_superuser := req.(req_is_superuser);
         mfa_required := req.(req_mfa_required) || req.(req_is_superuser) |}).

Definition create_response (raw_key : string) (record : ApiKeyRecord) : ApiKeyCreateResponse :=
  {| resp_id := record.(row_id); resp_key := raw_key; resp_key_prefix := record.(key_prefix);
     resp_name := record.(row_name); resp_tenant_id := record.(row_tenant_id);
     resp_policies := record.(row_policies); resp_path_prefixes := record.(row_path_prefixes);
     resp_expires_at := record.(row_expires_at); resp_created_at := record.(row_created_at) |}.

Definition with_tenant (req : ApiKeyCreateRequest) (name tenant : string) : ApiKeyCreateRequest :=
  {| req_name := name; req_tenant_id := tenant; req_policies := req.(req_policies);
     req_path_prefixes := req.(req_path_prefixes);
     expires_in_seconds := req.(expires_in_seconds); req_rate_limit := req.(req_rate_limit);
     req_is_superuser := req.(req_is_superuser); req_mfa_required := req.(req_mfa_required) |}.

(** The database branch of [create_key]: five calls, committed by the last. *)
Definition create_in_db (io : Io) (fresh : Fresh) (now : Z) (db : Pg) (req : ApiKeyCreateRequest)
    (name creator : string) : result failure (ApiKeyCreateResponse * Pg) :=
  tenant_uuid ← refuse (stored (ApiKeyStore.resolve_tenant_id parse_uuid io 0 db req.(req_tenant_id)));
  _ ← refuse (stored (begin_tx io 1));
  dup ← refuse (stored (ApiKeyStore.active_name_exists io 2 db tenant_uuid name));
  if (dup : bool) then Err (Refused (DuplicateName name))
  else
    '(raw_key, record) ← mint fresh now (with_tenant req name tenant_uuid) name creator;
    db' ← match ApiKeyStore.insert io 3 db record with
          | Ok db' => Ok db'
          | Err (ValidationError field r) =>
              if bool_decide (field = "name") then Err (Refused (DuplicateName name))
              else Err (Refused (store_err (ValidationError field r)))
          | Err other => Err (Refused (store_err other))
          end;
    _ ← refuse (stored (commit io 4));
    Ok (create_response raw_key record, db').

Definition create_key (io : Io) (fresh : Fresh) (now : Z) (self : Backend)
    (req : ApiKeyCreateRequest) (creator : string) :
    result failure ApiKeyCreateResponse * Backend :=
  let name := Str.trim req.(req_name) in
  if Str.is_empty name then (Err (Refused InvalidKeyFormat), self)
  else match self with
       | DatabaseBackend db =>
           match create_in_db io fresh now db req name creator with
           | Ok (resp, db') => (Ok resp, DatabaseBackend db')
           | Err e => (Err e, self)
           end
       | MemoryBackend by_hash id_to_hash =>
           if existsb (ApiKeyStore.active_name req.(req_tenant_id) name) (map_to_list by_hash).*2
           then (Err (Refused (DuplicateName name)), self)
           else match mint fresh now req name creator with
                | Err e => (Err e, self)
                | Ok (raw_key, record) =>
                    (Ok (create_response raw_key record),
                     MemoryBackend (<[record.(key_hash) := record]> by_hash)
                                   (<[record.(row_id) := record.(key_hash)]> id_to_hash))
                end
       end.

(** ** Validation *)

Definition validation_of (r : ApiKeyRecord) : ApiKeyValidationResult :=
  {| v_key_id := r.(row_id); v_tenant_id := r.(row_tenant_id); v_policies := r.(row_policies);
     v_path_prefixes := r.(row_path_prefixes);
     v_rate_limit_per_minute := r.(rate_limit_per_minute);
     v_is_superuser := r.(is_superuser); v_mfa_required := r.(mfa_required) |}.

(** The checks both branches make on the record they found. *)
Definition usable (now : Z) (r : ApiKeyRecord) : result ApiKeyError () :=
  if bool_decide (is_Some r.(revoked_at)) then Err KeyRevoked
  else match r.(row_expires_at) with
       | Some t => if t <? now then Err KeyExpired else Ok tt
       | None => Ok tt
       end.

(** The best-effort stamp: calls 2 to 4. *)
Definition stamp (io : Io) (now : Z) (db : Pg) (r : ApiKeyRow) : Pg :=
  match begin_tx io 2 with
  | Err _ => db
  | Ok _ =>
      match ApiKeyStore.touch_last_used io 3 now db r.(row_id) r.(row_tenant_id) with
      | Err _ => db
      | Ok db' => match commit io 4 with Err _ => db | Ok _ => db' end
      end
  end.

Definition validate_key (io : Io) (now : Z) (self : Backend) (raw_key : string) :
    result ApiKeyError ApiKeyValidationResult * Backend :=
  match parse_key_random_portion raw_key with
  | Err e => (Err e, self)
  | Ok _ =>
      let candidate_hash := hash_key raw_key in
      match self with
      | DatabaseBackend db =>
          let row := (_ ← stored (begin_tx io 0);
                      found ← stored (ApiKeyStore.find_by_hash io 1 db candidate_hash);
                      row ← ok_or found KeyNotFound;
                      _ ← usable now row;
                      Ok row) in
          match row with
          | Err e => (Err e, self)
          | Ok row => (Ok (validation_of row), DatabaseBackend (stamp io now db row))
          end
      | MemoryBackend by_hash id_to_hash =>
          match List.find (fun e => ct_bytes_equal e.1 candidate_hash) (map_to_list by_hash) with
          | None => (Err KeyNotFound, self)
          | Some (stored_hash, record) =>
              match usable now record with
              | Err e => (Err e, self)
              | Ok _ =>
                  (Ok (validation_of record),
                   MemoryBackend (<[stored_hash := ApiKeyStore.set_last_used now record]> by_hash)
                                 id_to_hash)
              end
          end
      end
  end.

(** ** Revocation, listing and rotation *)

Definition revoke_in_db (io : Io) (now : Z) (db : Pg) (key_id tenant : string) :
    result ApiKeyError () * Pg :=
  let run :=
    (tenant_uuid ← stored (ApiKeyStore.resolve_tenant_id parse_uuid io 0 db tenant);
     _ ← stored (begin_tx io 1);
     '(hit, db') ← stored (ApiKeyStore.revoke io 2 now db key_id tenant_uuid);
     if (hit : bool) then _ ← stored (commit io 3); Ok (Ok tt, db')
     else
       existing ← stored (ApiKeyStore.find_by_id io 3 db' key_id tenant_uuid);
       _ ← stored (commit io 4);
       Ok (match existing with Some _ => Ok tt | None => Err KeyNotFound end, db')) in
  match run with Ok p => p | Err e => (Err e, db) end.

Definition revoke_key (io : Io) (now : Z) (self : Backend) (key_id tenant : string) :
    result ApiKeyError () * Backend :=
  match self with
  | DatabaseBackend db =>
      let '(r, db') := revoke_in_db io now db key_id tenant in (r, DatabaseBackend db')
  | MemoryBackend by_hash id_to_hash =>
      match id_to_hash !! key_id with
      | None => (Err KeyNotFound, self)
      | Some hash =>
          match by_hash !! hash with
          | None => (Err KeyNotFound, self)
          | Some record =>
              if negb (bool_decide (record.(row_tenant_id) = tenant)) then (Err KeyNotFound, self)
              else if bool_decide (is_Some record.(revoked_at)) then (Ok tt, self)
              else (Ok tt, MemoryBackend (<[hash := ApiKeyStore.set_revoked now record]> by_hash)
                                         id_to_hash)
          end
      end
  end.

(** [record_from_row], and the projection of the memory branch: the digest is
    dropped. *)
Definition record_from_row (row : ApiKeyRow) : ApiKeyRecord :=
  {| row_id := row.(row_id); row_tenant_id := row.(row_tenant_id); row_name := row.(row_name);
     key_hash := ""; key_prefix := row.(key_prefix);
     row_path_prefixes := row.(row_path_prefixes); row_policies := row.(row_policies);
     created_by := row.(created_by); row_created_at := row.(row_created_at);
     row_expires_at := row.(row_expires_at); last_used_at := row.(last_used_at);
     revoked_at := row.(revoked_at); rate_limit_per_minute := row.(rate_limit_per_minute);
     is_superuser := row.(is_superuser); mfa_required := row.(mfa_required) |}.

Definition list_keys (io : Io) (now : Z) (self : Backend) (tenant : string) :
    result ApiKeyError (list ApiKeyRecord) :=
  match self with
  | DatabaseBackend db =>
      tenant_uuid ← stored (ApiKeyStore.resolve_tenant_id parse_uuid io 0 db tenant);
      _ ← stored (begin_tx io 1);
      rows ← stored (ApiKeyStore.list_active_for_tenant io 2 now db tenant_uuid);
      _ ← stored (commit io 3);
      Ok (List.map record_from_row rows)
  | MemoryBackend by_hash _ =>
      Ok (merge_sort (fun a b : ApiKeyRow => b.(row_created_at) <= a.(row_created_at))
            (List.map record_from_row
               (List.filter (fun r => bool_decide (r.(row_tenant_id) = tenant)
                                     && bool_decide (r.(revoked_at) = None)
                                     && match r.(row_expires_at) with
                                        | None => true | Some t => now <=? t end)
                 (map_to_list by_hash).*2)))
  end.

(** The configuration [rotate_key] captures before it revokes. *)
Definition rotation_source (io : Io) (self : Backend) (key_id tenant : string) :
    result ApiKeyError ApiKeyRecord :=
  match self with
  | DatabaseBackend db =>
      tenant_uuid ← stored (ApiKeyStore.resolve_tenant_id parse_uuid io 0 db tenant);
      _ ← stored (begin_tx io 1);
      found ← stored (ApiKeyStore.find_by_id io 2 db key_id tenant_uuid);
      _ ← stored (commit io 3);
      ok_or found KeyNotFound
  | MemoryBackend by_hash id_to_hash =>
      hash ← ok_or (id_to_hash !! key_id) KeyNotFound;
      record ← ok_or (by_hash !! hash) KeyNotFound;
      if negb (bool_decide (record.(row_tenant_id) = tenant)) then Err KeyNotFound else Ok record
  end.

Definition replacement (old : ApiKeyRecord) (tenant : string) : ApiKeyCreateRequest :=
  {| req_name := old.(row_name); req_tenant_id := tenant;
     req_policies := Some old.(row_policies);
     req_path_prefixes := Some old.(row_path_prefixes); expires_in_seconds := None;
     req_rate_limit := Some old.(rate_limit_per_minute);
     req_is_superuser := old.(is_superuser); req_mfa_required := old.(mfa_required) |}.

(** Calls 0 to 3 read the old key, 4 to 8 revoke it, 9 to 13 create the new one. *)
Definition rotate_key (io : Io) (fresh : Fresh) (now : Z) (self : Backend)
    (key_id tenant : string) : result failure ApiKeyCreateResponse * Backend :=
  match rotation_source io self key_id tenant with
  | Err e => (Err (Refused e), self)
  | Ok old =>
      match revoke_key (fun i => io (4 + i)%nat) now self key_id tenant with
      | (Err e, self') => (Err (Refused e), self')
      | (Ok _, self') =>
          create_key (fun i => io (9 + i)%nat) fresh now self' (replacement old tenant)
            old.(created_by)
      end
  end.

End Manager.

(** ** The administrator gate *)

Record AdminIdentity := {
  admin_principal_id : string;
  admin_tenant_id : option string;
  admin_superuser : bool;
}.

Inductive AdminRejection := AdminUnauthenticated | AdminForbidden.

(** [AdminAuth] and what it calls: the revocation list, the per-tenant signing
    keys and the legacy shared-secret verifier. *)
Record AdminAuth := {
  bootstrap_token : option string;
  required_policy : string;
  revoked_token : string -> result AuthFailure bool;
  signing_keys_verify : option (string -> result string TokenClaims);
  validate_token : string -> result string TokenClaims;
}.

(** The values of the request's headers, as bytes; [HeaderValue::to_str] accepts
    visible ASCII, space and tab. *)
Definition to_str (v : string) : option string :=
  if Str.forallb (fun a => Str.ascii_in 32 126 a || Str.ascii_in 9 9 a) v then Some v else None.

Definition bearer_token (headers : HeaderMap) : option string :=
  raw ← headers !! "authorization";
  v ← to_str raw;
  t ← Str.strip_prefix "Bearer " v;
  let t := Str.trim t in
  if Str.is_empty t then None else Some t.

Definition admin_claims (auth : AdminAuth) (bearer : string) : result string TokenClaims :=
  match auth.(signing_keys_verify) with
  | Some verify => match verify bearer with
                   | Ok c => Ok c
                   | Err _ => auth.(validate_token) bearer
                   end
  | None => auth.(validate_token) bearer
  end.

Definition authenticate (auth : AdminAuth) (headers : HeaderMap) :
    result AdminRejection AdminIdentity :=
  let bootstrap := match auth.(bootstrap_token), headers !! "x-admin-token" with
                   | Some expected, Some provided => ct_bytes_equal provided expected
                   | _, _ => false
                   end in
  if bootstrap
  then Ok {| admin_principal_id := "bootstrap-admin"; admin_tenant_id := None;
             admin_superuser := true |}
  else
    bearer ← ok_or (bearer_token headers) AdminUnauthenticated;
    match auth.(revoked_token) bearer with
    | Ok true => Err AdminUnauthenticated
    | Err _ => Err AdminUnauthenticated
    | Ok false =>
        match admin_claims auth bearer with
        | Err _ => Err AdminUnauthenticated
        | Ok claims =>
            if claims.(claim_superuser)
            then Ok {| admin_principal_id := claims.(claim_sub);
                       admin_tenant_id := Some claims.(claim_tenant_id);
                       admin_superuser := true |}
            else if negb (existsb (fun p => bool_decide (p = auth.(required_policy)))
                            claims.(claim_policies))
            then Err AdminForbidden
            else Ok {| admin_principal_id := claims.(claim_sub);
                       admin_tenant_id := Some claims.(claim_tenant_id);
                       admin_superuser := false |}
        end
    end.

(** ** HTTP *)

Record ApiKeyMetadataResponse := {
  m_id : string; m_name : string; m_tenant_id : string; m_key_prefix : string;
  m_policies : list string; m_path_prefixes : list string; m_created_by : string;
  m_created_at : Z; m_expires_at : option Z; m_last_used_at : option Z;
  m_rate_limit_per_minute : Z; m_mfa_required : bool;
}.

Definition metadata_of (r : ApiKeyRecord) : ApiKeyMetadataResponse :=
  {| m_id := r.(row_id); m_name := r.(row_name); m_tenant_id := r.(row_tenant_id);
     m_key_prefix := r.(key_prefix); m_policies := r.(row_policies);
     m_path_prefixes := r.(row_path_prefixes); m_created_by := r.(created_by);
     m_created_at := r.(row_created_at); m_expires_at := r.(row_expires_at);
     m_last_used_at := r.(last_used_at);
     m_rate_limit_per_minute := r.(rate_limit_per_minute); m_mfa_required := r.(mfa_required) |}.

Inductive KeyBody :=
| KCreated (resp : ApiKeyCreateResponse)
| KList (keys : list ApiKeyMetadataResponse)
| KError (code message : string)
| KNone.

(** [None]: the handler panicked and nothing was sent. *)
Definition KeyReply := option (Z * KeyBody).

Definition error_response (e : ApiKeyError) : Z * KeyBody :=
  (status_code e, KError (error_code e) (api_key_error_display e)).

Definition failed (e : failure) : KeyReply :=
  match e with Refused e => Some (error_response e) | Panicked => None end.

Definition require_admin {A} (auth : AdminAuth) (headers : HeaderMap) (self : A)
    (next : AdminIdentity -> KeyReply * A) : KeyReply * A :=
  match authenticate auth headers with
  | Ok who => next who
  | Err AdminUnauthenticated =>
      (Some (401, KError "admin_auth_required"
         ("api key management requires an administrator credential: "
          +:+ "a Bearer token carrying the administrator policy, or X-Admin-Token")), self)
  | Err AdminForbidden =>
      (Some (403, KError "admin_policy_required"
         ("this account is signed in but does not carry the administrator "
          +:+ "policy required to manage tenants and API keys")), self)
  end.

Definition request_tenant (who : AdminIdentity) (headers : HeaderMap) :
    result ApiKeyError string :=
  match who.(admin_tenant_id) with
  | Some tenant => Ok tenant
  | None =>
      match headers !! "x-tenant-id" ≫= to_str with
      | Some s => if Str.is_empty s
                  then Err (MissingTenantId
                    "X-Tenant-Id header is required when authenticating with X-Admin-Token")
                  else Ok s
      | None => Err (MissingTenantId
                  "X-Tenant-Id header is required when authenticating with X-Admin-Token")
      end
  end.

Section Handlers.

Context (sha256 : string -> string) (b64url_encode : string -> string).
Context (parse_uuid : string -> option string) (add_seconds : Z -> Z -> option Z).
Context (debug_str : string -> string).

Abbreviation create := (create_key sha256 b64url_encode parse_uuid add_seconds debug_str).
Abbreviation rotate := (rotate_key sha256 b64url_encode parse_uuid add_seconds debug_str).
Abbreviation revoke := (revoke_key parse_uuid debug_str).

Definition handle_create_api_key (io : Io) (fresh : Fresh) (now : Z) (self : Backend)
    (who : AdminIdentity) (payload : ApiKeyCreateRequest) : KeyReply * Backend :=
  if payload.(req_is_superuser) && negb who.(admin_superuser)
  then (Some (403, KError "superuser_grant_denied" "only a superuser can create a superuser key"),
        self)
  else
    let go payload :=
      match create io fresh now self payload who.(admin_principal_id) with
      | (Ok resp, self') => (Some (201, KCreated resp), self')
      | (Err e, self') => (failed e, self')
      end in
    match who.(admin_tenant_id) with
    | Some tenant => go (with_tenant payload payload.(req_name) tenant)
    | None => if Str.is_empty (Str.trim payload.(req_tenant_id))
              then (Some (error_response (MissingTenantId
                      "tenant_id is required when authenticating with X-Admin-Token")), self)
              else go payload
    end.

Definition handle_list_api_keys (io : Io) (now : Z) (self : Backend) (who : AdminIdentity)
    (headers : HeaderMap) : KeyReply :=
  match request_tenant who headers with
  | Err e => Some (error_response e)
  | Ok tenant =>
      match list_keys parse_uuid debug_str io now self tenant with
      | Ok keys => Some (200, KList (metadata_of <$> keys))
      | Err e => Some (error_response e)
      end
  end.

Definition invalid_id : KeyReply :=
  Some (400, KError "invalid_id" "api key id must be a valid UUID").

Definition handle_revoke_api_key (io : Io) (now : Z) (self : Backend) (who : AdminIdentity)
    (id_str : string) (headers : HeaderMap) : KeyReply * Backend :=
  match parse_uuid id_str with
  | None => (invalid_id, self)
  | Some key_id =>
      match request_tenant who headers with
      | Err e => (Some (error_response e), self)
      | Ok tenant =>
          match revoke io now self key_id tenant with
          | (Ok _, self') => (Some (204, KNone), self')
          | (Err e, self') => (Some (error_response e), self')
          end
      end
  end.

Definition handle_rotate_api_key (io : Io) (fresh : Fresh) (now : Z) (self : Backend)
    (who : AdminIdentity) (id_str : string) (headers : HeaderMap) : KeyReply * Backend :=
  match parse_uuid id_str with
  | None => (invalid_id, self)
  | Some key_id =>
      match request_tenant who headers with
      | Err e => (Some (error_response e), self)
      | Ok tenant =>
          match rotate io fresh now self key_id tenant with
          | (Ok resp, self') => (Some (200, KCreated resp), self')
          | (Err e, self') => (failed e, self')
          end
      end
  end.

(** The management routes. *)
Inductive KeyRequest :=
| CreateApiKey (payload : ApiKeyCreateRequest)
| ListApiKeys
| RevokeApiKey (id_str : string)
| RotateApiKey (id_str : string).

Definition serve (auth : AdminAuth) (io : Io) (fresh : Fresh) (now : Z) (self : Backend)
    (headers : HeaderMap) (req : KeyRequest) : KeyReply * Backend :=
  require_admin auth headers self (fun who =>
    match req with
    | CreateApiKey payload => handle_create_api_key io fresh now self who payload
    | ListApiKeys => (handle_list_api_keys io now self who headers, self)
    | RevokeApiKey id_str => handle_revoke_api_key io now self who id_str headers
    | RotateApiKey id_str => handle_rotate_api_key io fresh now self who id_str headers
    end).

End Handlers.

(** ** Constant-time comparison is comparison *)

Lemma ct_diff_zero a b acc :
  String.length a = String.length b -> ct_diff a b acc = 0%N <-> acc = 0%N /\ a = b.
Proof.
  revert b acc. induction a as [|x a IH]; intros [|y b] acc; cbn; try done; [naive_solver|].
  intros [= Hl]. rewrite IH by done. rewrite N.lor_eq_0_iff, N.lxor_eq_0_iff.
  split; [|naive_solver]. intros [[-> Hxy] ->]. split; [done|]. f_equal.
  by rewrite <- (ascii_N_embedding x), <- (ascii_N_embedding y), Hxy.
Qed.

Lemma ct_bytes_equal_spec a b : ct_bytes_equal a b = bool_decide (a = b).
Proof.
  apply eq_bool_prop_intro. unfold ct_bytes_equal. rewrite bool_decide_spec.
  destruct (Nat.eqb_spec (String.length a) (String.length b)) as [Hl|Hl]; cbn.
  - rewrite Is_true_true, N.eqb_eq, ct_diff_zero by done. naive_solver.
  - split; [done|]. by intros ->.
Qed.

(** ** Invariants of the key table *)

(** Rows are filed under their id, superuser keys demand a second factor, and
    two rows share neither a hash nor, while active, a name in one tenant. *)
Definition row_wf (id : string) (r : ApiKeyRow) : Prop :=
  r.(row_id) = id /\ (r.(is_superuser) = true -> r.(mfa_required) = true).

Definition rows_apart (r s : ApiKeyRow) : Prop :=
  r.(key_hash) <> s.(key_hash) /\
  ~ (r.(row_tenant_id) = s.(row_tenant_id) /\ r.(row_name) = s.(row_name) /\
     r.(revoked_at) = None /\ s.(revoked_at) = None).

Definition keys_wf (db : Pg) : Prop :=
  map_Forall row_wf db.(api_keys) /\
  forall i j r s, db.(api_keys) !! i = Some r -> db.(api_keys) !! j = Some s -> i <> j ->
    rows_apart r s.

(** What a key may become: only the usage stamp, the revocation (once) and the
    second factor (switched on) change. *)
Definition row_evolves (r s : ApiKeyRow) : Prop :=
  s.(row_id) = r.(row_id) /\ s.(row_tenant_id) = r.(row_tenant_id) /\
  s.(row_name) = r.(row_name) /\ s.(key_hash) = r.(key_hash) /\
  s.(row_policies) = r.(row_policies) /\ s.(row_expires_at) = r.(row_expires_at) /\
  s.(is_superuser) = r.(is_superuser) /\
  (r.(mfa_required) = true -> s.(mfa_required) = true) /\
  (is_Some r.(revoked_at) -> s.(revoked_at) = r.(revoked_at)).

Definition keys_evolve (db db' : Pg) : Prop :=
  forall id r, db.(api_keys) !! id = Some r ->
  exists s, db'.(api_keys) !! id = Some s /\ row_evolves r s.

#[global] Instance row_evolves_preorder : PreOrder row_evolves.
Proof.
  split; [by repeat split|]. intros r s t (?&?&?&?&?&?&?&?&Hrs) (?&?&?&?&?&?&?&?&Hst).
  repeat split; try congruence; auto. intros Hr. rewrite Hst, Hrs; auto. by rewrite Hrs.
Qed.

#[global] Instance keys_evolve_preorder : PreOrder keys_evolve.
Proof.
  split; [intros db id r Hr; by exists r|].
  intros d1 d2 d3 H12 H23 id r (s & Hs & Hrs)%H12. destruct (H23 id s Hs) as (t & ? & ?).
  exists t. split; [done|]. by transitivity s.
Qed.

Lemma elem_of_rows db r :
  r ∈ ApiKeyStore.rows db <-> exists id, db.(api_keys) !! id = Some r.
Proof.
  unfold ApiKeyStore.rows. rewrite list_elem_of_fmap. split.
  - intros ([id r'] & -> & H%elem_of_map_to_list). eauto.
  - intros [id H]. exists (id, r). by rewrite elem_of_map_to_list.
Qed.

Lemma rows_existsb_false db f id r :
  existsb f (ApiKeyStore.rows db) = false -> db.(api_keys) !! id = Some r -> f r = false.
Proof.
  intros Hf Hr. destruct (f r) eqn:E; [|done]. rewrite <- Hf. symmetry. apply existsb_exists.
  exists r. split; [|done]. apply list_elem_of_In, elem_of_rows. eauto.
Qed.

(** Replacing a row by one it may become keeps the table well formed. *)
Lemma update_row db id r s :
  keys_wf db -> db.(api_keys) !! id = Some r -> row_evolves r s ->
  let db' := with_api_keys db (<[id := s]> db.(api_keys)) in keys_wf db' /\ keys_evolve db db'.
Proof.
  intros [Hrow Hap] Hr Hrs. pose proof Hrs as (Hid & Ht & Hn & Hh & _ & _ & Hsu & Hm & Hrev).
  assert (forall q, rows_apart r q -> rows_apart s q) as Hs.
  { intros q [Hhq Hq]. split; [congruence|]. intros (? & ? & Hnone & ?). apply Hq.
    rewrite <- Ht, <- Hn. repeat split; try done.
    destruct (r.(revoked_at)); [|done]. rewrite Hrev in Hnone by eauto. done. }
  split; [split|]; cbn.
  - apply map_Forall_insert_2; [|done]. destruct (Hrow id r Hr) as [<- Hsm]. split; [done|].
    rewrite Hsu. auto.
  - intros i j p q Hp Hq Hij. destruct (decide (i = id)) as [->|Hi].
    + rewrite lookup_insert_eq in Hp. injection Hp as <-. rewrite lookup_insert_ne in Hq by done.
      eauto.
    + rewrite lookup_insert_ne in Hp by done. destruct (decide (j = id)) as [->|Hj].
      * rewrite lookup_insert_eq in Hq. injection Hq as <-.
        destruct (Hs p) as [Hhp Hpp]; [eauto|]. split; [congruence|]. naive_solver.
      * rewrite lookup_insert_ne in Hq by done. eauto.
  - intros i p Hp. cbn. destruct (decide (i = id)) as [->|Hi].
    + exists s. rewrite lookup_insert_eq. naive_solver.
    + exists p. by rewrite lookup_insert_ne.
Qed.

(** Inserting a row the constraints accept keeps the table well formed. *)
Lemma insert_row io i db row db' :
  keys_wf db -> ApiKeyStore.insert io i db row = Ok db' -> keys_wf db' /\ keys_evolve db db'.
Proof.
  unfold ApiKeyStore.insert. destruct (io i); [done|].
  destruct (ApiKeyStore.unique_violation db row) eqn:Hu; [done|].
  destruct (negb _); [done|]. intros [Hrow Hap] [= <-].
  unfold ApiKeyStore.unique_violation in Hu. apply orb_false_elim in Hu as [Hid Hu].
  apply bool_decide_eq_false in Hid. rewrite <- eq_None_not_Some in Hid.
  assert (forall j q, db.(api_keys) !! j = Some q -> rows_apart (ApiKeyStore.insert_query row) q)
    as Hnew.
  { intros j q Hq. pose proof (rows_existsb_false _ _ _ _ Hu Hq) as [Hh Ha]%orb_false_elim.
    apply bool_decide_eq_false in Hh. split; cbn; [congruence|]. intros (? & ? & _ & ?).
    unfold ApiKeyStore.active_name in Ha. rewrite !bool_decide_true in Ha by done. done. }
  split; [split|]; cbn.
  - apply map_Forall_insert_2; [|done]. split; [done|]. cbn. intros ->. by rewrite orb_true_r.
  - intros i' j p q Hp Hq Hij. destruct (decide (i' = row_id row)) as [->|Hi].
    + rewrite lookup_insert_eq in Hp. injection Hp as <-. rewrite lookup_insert_ne in Hq by done.
      eauto.
    + rewrite lookup_insert_ne in Hp by done. destruct (decide (j = row_id row)) as [->|Hj].
      * rewrite lookup_insert_eq in Hq. injection Hq as <-.
        destruct (Hnew _ _ Hp) as [? Hn]. split; [by apply not_eq_sym|]. naive_solver.
      * rewrite lookup_insert_ne in Hq by done. eauto.
  - intros j q Hq. exists q. cbn. rewrite lookup_insert_ne; [done|]. congruence.
Qed.

(** A change of the tables that keeps every key's authority. *)
Definition sound_change (db db' : Pg) : Prop :=
  keys_wf db -> keys_wf db' /\ keys_evolve db db'.

#[global] Instance sound_change_preorder : PreOrder sound_change.
Proof.
  split; [by intros db H|]. intros d1 d2 d3 H12 H23 [H2 E12]%H12. apply H23 in H2 as [H3 E23].
  split; [done|]. by transitivity d2.
Qed.

(** Key management leaves the second-factor tables alone. *)
Definition key_change (db db' : Pg) : Prop :=
  sound_change db db' /\ db'.(mfa_totp) = db.(mfa_totp).

#[global] Instance key_change_preorder : PreOrder key_change.
Proof.
  split; [by intros db; split|]. intros d1 d2 d3 [H12 E12] [H23 E23].
  split; [by transitivity d2|congruence].
Qed.

Definition backend_change (self self' : Backend) : Prop :=
  match self, self' with
  | DatabaseBackend db, DatabaseBackend db' => key_change db db'
  | MemoryBackend _ _, MemoryBackend _ _ => True
  | _, _ => False
  end.

#[global] Instance backend_change_preorder : PreOrder backend_change.
Proof. split; [by intros []|]. intros [] [] []; cbn; try done. apply transitivity. Qed.

Lemma set_revoked_evolves now r : r.(revoked_at) = None -> row_evolves r (ApiKeyStore.set_revoked now r).
Proof. intros Hr. repeat split; auto. rewrite Hr. by intros [? ?]. Qed.

Lemma set_last_used_evolves now r : row_evolves r (ApiKeyStore.set_last_used now r).
Proof. by repeat split. Qed.

Lemma set_mfa_required_evolves r : row_evolves r (ApiKeyStore.set_mfa_required r).
Proof. by repeat split. Qed.

Lemma revoke_change io i now db k t b db' :
  ApiKeyStore.revoke io i now db k t = Ok (b, db') -> key_change db db'.
Proof.
  unfold ApiKeyStore.revoke, call. destruct (io i); [done|].
  destruct (api_keys db !! k) as [r|] eqn:Hr; [|by intros [= _ <-]].
  destruct (_ && _) eqn:Hc; intros [= _ <-]; [|done]. bools. split; [|done]. intros Hwf.
  by apply (update_row db k r); [..|apply set_revoked_evolves].
Qed.

Lemma stamp_change io now db r : key_change db (stamp io now db r).
Proof.
  unfold stamp, begin_tx, ApiKeyStore.touch_last_used, commit, call.
  destruct (io 2%nat), (io 3%nat), (io 4%nat); try done.
  destruct (api_keys db !! row_id r) as [q|] eqn:Hq; [|done].
  case_bool_decide; [|done]. split; [|done]. intros Hwf.
  by apply (update_row db (row_id r) q); [..|apply set_last_used_evolves].
Qed.

Section Changes.

Context (sha256 : string -> string) (b64url_encode : string -> string).
Context (parse_uuid : string -> option string) (add_seconds : Z -> Z -> option Z).
Context (debug_str : string -> string).

Abbreviation create := (create_key sha256 b64url_encode parse_uuid add_seconds debug_str).
Abbreviation rotate := (rotate_key sha256 b64url_encode parse_uuid add_seconds debug_str).
Abbreviation revoke := (revoke_key parse_uuid debug_str).
Abbreviation validate := (validate_key sha256 debug_str).
Abbreviation serve := (serve sha256 b64url_encode parse_uuid add_seconds debug_str).

Lemma create_in_db_insert io fresh now db req name creator resp db' :
  create_in_db sha256 b64url_encode parse_uuid add_seconds debug_str io fresh now db req name
    creator = Ok (resp, db') ->
  exists record, ApiKeyStore.insert io 3 db record = Ok db'.
Proof.
  unfold create_in_db. intros H. apply result_bind_ok in H as (t & _ & H).
  apply result_bind_ok in H as (_ & _ & H). apply result_bind_ok in H as ([|] & _ & H); [done|].
  apply result_bind_ok in H as ([raw record] & _ & H).
  apply result_bind_ok in H as (d & Hd & H). apply result_bind_ok in H as (_ & _ & [= _ <-]).
  exists record. destruct (ApiKeyStore.insert io 3 db record) as [d'|e] eqn:Hi; [by simplify_eq|].
  destruct e; try done. by case_bool_decide.
Qed.

Lemma create_change io fresh now self req creator :
  backend_change self (create io fresh now self req creator).2.
Proof.
  unfold create_key. destruct (Str.is_empty _); [done|]. destruct self as [db|m ids]; cbn.
  - destruct (create_in_db _ _ _ _ _ _ _ _ _ _ _ _) as [[resp db']|e] eqn:Hc; [|done].
    apply create_in_db_insert in Hc as [record Hi]. cbn. split; [intros Hwf; by eapply insert_row|].
    revert Hi. unfold ApiKeyStore.insert. destruct (io 3%nat); [done|].
    destruct (ApiKeyStore.unique_violation _ _); [done|]. by destruct (negb _); intros [= <-].
  - destruct (existsb _ _); [done|]. destruct (mint _ _ _ _ _ _ _) as [[]|]; done.
Qed.

Lemma revoke_in_db_change io now db k t :
  key_change db (revoke_in_db parse_uuid debug_str io now db k t).2.
Proof.
  unfold revoke_in_db.
  match goal with |- context [match ?r with Ok p => p | Err e => _ end] =>
    destruct r as [[res db']|e] eqn:Hr end; [|done]. cbn.
  apply result_bind_ok in Hr as (u & _ & Hr). apply result_bind_ok in Hr as (_ & _ & Hr).
  apply result_bind_ok in Hr as ([hit d] & Hd & Hr).
  assert (key_change db d) as Hs.
  { unfold stored in Hd. destruct (ApiKeyStore.revoke _ _ _ _ _ _) eqn:E; simplify_eq.
    by eapply revoke_change. }
  destruct hit; [apply result_bind_ok in Hr as (_ & _ & [= _ <-]); done|].
  apply result_bind_ok in Hr as (ex & _ & Hr). by apply result_bind_ok in Hr as (_ & _ & [= _ <-]).
Qed.

Lemma revoke_key_change io now self k t : backend_change self (revoke io now self k t).2.
Proof.
  destruct self as [db|m ids]; cbn.
  - pose proof (revoke_in_db_change io now db k t). by destruct (revoke_in_db _ _ _ _ _ _ _).
  - destruct (ids !! k) as [h|]; [|done]. destruct (m !! h); [|done].
    destruct (negb _); [done|]. by case_bool_decide.
Qed.

Lemma validate_change io now self raw : backend_change self (validate io now self raw).2.
Proof.
  unfold validate_key. destruct (parse_key_random_portion raw); [|done].
  destruct self as [db|m ids].
  - destruct (stored _ _ ≫= _); [apply stamp_change|done].
  - destruct (List.find _ _) as [[h r]|]; [|done]. by destruct (usable now r).
Qed.

Lemma rotate_change io fresh now self k t :
  backend_change self (rotate io fresh now self k t).2.
Proof.
  unfold rotate_key. destruct (rotation_source _ _ _ _ _ _) as [old|e]; [|done].
  pose proof (revoke_key_change (fun i => io (4 + i)%nat) now self k t) as Hr.
  destruct (revoke_key _ _ _ _ _ _ _) as [[?|?] self']; cbn in *; [|done].
  etransitivity; [done|]. apply create_change.
Qed.

Lemma serve_change auth io fresh now self headers req :
  backend_change self (serve auth io fresh now self headers req).2.
Proof.
  unfold ApiKeys.serve, require_admin. destruct (authenticate auth headers) as [who|[]]; try done.
  destruct req as [payload| |id|id]; [| done |..].
  - unfold handle_create_api_key. destruct (_ && _); [done|].
    destruct (admin_tenant_id who) as [t|]; [|destruct (Str.is_empty _); [done|]].
    all: match goal with |- context [create_key _ _ _ _ _ ?io ?f ?n ?s ?p ?c] =>
           pose proof (create_change io f n s p c); destruct (create_key _ _ _ _ _ _ _ _ _ _ _) as [[]] end;
         done.
  - unfold handle_revoke_api_key. destruct (parse_uuid id); [|done].
    destruct (request_tenant who headers); [|done].
    pose proof (revoke_key_change io now self s a). by destruct (revoke_key _ _ _ _ _ _ _) as [[]].
  - unfold handle_rotate_api_key. destruct (parse_uuid id); [|done].
    destruct (request_tenant who headers); [|done].
    pose proof (rotate_change io fresh now self s a).
    by destruct (rotate_key _ _ _ _ _ _ _ _ _ _ _) as [[]].
Qed.

(** What the service does with its keys: management requests and
    authentications, with whatever the driver, the clock and the generators
    return. *)
Inductive key_step : Backend -> Backend -> Prop :=
| step_serve auth io fresh now self headers req :
    key_step self (serve auth io fresh now self headers req).2
| step_validate io now self raw_key :
    key_step self (validate io now self raw_key).2.

Lemma key_steps_change self self' : rtc key_step self self' -> backend_change self self'.
Proof.
  induction 1 as [|a b c Hab _ IH]; [done|]. etransitivity; [|done].
  destruct Hab; [apply serve_change|apply validate_change].
Qed.

(** ** Authentication *)

Lemma find_rows_unique db f id r :
  db.(api_keys) !! id = Some r -> f r = true ->
  (forall j s, db.(api_keys) !! j = Some s -> f s = true -> s = r) ->
  List.find f (ApiKeyStore.rows db) = Some r.
Proof.
  intros Hr Hf Hu. destruct (List.find f _) as [s|] eqn:E.
  - apply List.find_some in E as [[j Hj]%list_elem_of_In%elem_of_rows Hs]. f_equal. eauto.
  - rewrite (List.find_none _ _ E r) in Hf; [done|]. apply list_elem_of_In, elem_of_rows. eauto.
Qed.

Lemma validate_db_ok io now db raw v :
  keys_wf db -> (validate io now (DatabaseBackend db) raw).1 = Ok v ->
  exists r, db.(api_keys) !! v.(v_key_id) = Some r /\ v = validation_of r /\
    r.(key_hash) = sha256 raw /\ r.(revoked_at) = None /\
    (forall t, r.(row_expires_at) = Some t -> now <= t).
Proof.
  intros [Hwf _]. unfold validate_key. destruct (parse_key_random_portion raw); [|done].
  destruct (stored _ _ ≫= _) as [row|e] eqn:Hrow; cbn; [|done]. intros [= <-].
  apply result_bind_ok in Hrow as (_ & _ & Hrow).
  apply result_bind_ok in Hrow as (found & Hf & Hrow).
  apply result_bind_ok in Hrow as (q & Hq & Hrow).
  apply result_bind_ok in Hrow as ([] & Hu & [= ->]).
  unfold ApiKeyStore.find_by_hash, call in Hf. destruct (io 1%nat); [done|].
  cbn in Hf. injection Hf as <-. destruct (List.find _ _) as [p|] eqn:Hp; [|done].
  cbn in Hq. injection Hq as ->. apply List.find_some in Hp as [Hin Hh].
  apply list_elem_of_In, elem_of_rows in Hin as [id Hid]. apply bool_decide_eq_true in Hh.
  exists row. cbn. destruct (Hwf _ _ Hid) as [-> _]. unfold usable in Hu.
  case_bool_decide as Hrev; [done|]. repeat split; [done..| |].
  - by rewrite <- eq_None_not_Some in Hrev.
  - intros t Ht. rewrite Ht in Hu. destruct (t <? now) eqn:E; [done|]. lia.
Qed.

(** C27. The life of an API key, on the database backend and whatever the
    management requests, authentications and driver failures: the table stays
    well formed (superuser keys demand a second factor; no two active keys of a
    tenant share a name; no two keys share a hash); a key never changes its
    tenant, policies or authority, its second factor is never switched off and its
    revocation never undone; an accepted credential is the unrevoked, unexpired
    row that holds the hash of what was presented; and what was revoked at the
    start is never accepted again. *)
Theorem api_key_lifecycle db self' :
  keys_wf db -> rtc key_step (DatabaseBackend db) self' ->
  exists db', self' = DatabaseBackend db' /\ keys_wf db' /\ keys_evolve db db' /\
    (forall io now raw v, (validate io now self' raw).1 = Ok v ->
       exists r, db'.(api_keys) !! v.(v_key_id) = Some r /\ v = validation_of r /\
         (key_hash r = sha256 raw) /\ (revoked_at r = None) /\
         (forall t, r.(row_expires_at) = Some t -> now <= t) /\
         (v.(v_is_superuser) = true -> v.(v_mfa_required) = true)) /\
    (forall id r raw, db.(api_keys) !! id = Some r -> is_Some r.(revoked_at) ->
       r.(key_hash) = sha256 raw -> forall io now v, (validate io now self' raw).1 <> Ok v).
Proof.
  intros Hwf Hsteps. apply key_steps_change in Hsteps.
  destruct self' as [db'|]; [|done]. destruct (proj1 Hsteps Hwf) as [Hwf' Hev].
  exists db'. do 3 (split; [done|]). split.
  - intros io now raw v (r & Hr & -> & Hh & Hn & Ht)%validate_db_ok; [|done].
    exists r. do 5 (split; [done|]). cbn. apply (proj1 Hwf' _ _ Hr).
  - intros id r raw Hr Hrev Hh io now v (q & Hq & -> & Hqh & Hqn & _)%validate_db_ok; [|done].
    destruct (Hev id r Hr) as (s & Hs & _ & _ & _ & Hsh & _ & _ & _ & _ & Hsr).
    cbn in Hq. destruct (decide (id = row_id q)) as [->|Hne].
    + rewrite Hs in Hq. injection Hq as ->. rewrite Hsr in Hqn by done.
      rewrite Hqn in Hrev. by destruct Hrev.
    + destruct (proj2 Hwf' _ _ _ _ Hs Hq Hne) as [Hdiff _]. congruence.
Qed.

(** ** Rotation *)

Lemma revoke_row_ok now db id r :
  db.(api_keys) !! id = Some r -> r.(revoked_at) = None ->
  ApiKeyStore.revoke all_well 2 now db id r.(row_tenant_id)
  = Ok (true, with_api_keys db (<[id := ApiKeyStore.set_revoked now r]> db.(api_keys))).
Proof.
  intros Hr Hn. unfold ApiKeyStore.revoke, call. cbn. by rewrite Hr, !bool_decide_true.
Qed.

(** Revoking the holder of a name frees it. *)
Lemma name_freed now db id r :
  keys_wf db -> db.(api_keys) !! id = Some r -> r.(revoked_at) = None ->
  existsb (ApiKeyStore.active_name r.(row_tenant_id) r.(row_name))
    (ApiKeyStore.rows (with_api_keys db (<[id := ApiKeyStore.set_revoked now r]> db.(api_keys))))
  = false.
Proof.
  intros [_ Hap] Hr Hn. apply not_true_is_false. intros (q & Hin & Hq)%existsb_exists.
  apply list_elem_of_In, elem_of_rows in Hin as [j Hj]. cbn in Hj.
  unfold ApiKeyStore.active_name in Hq. bools.
  destruct (decide (j = id)) as [->|Hne].
  - rewrite lookup_insert_eq in Hj. injection Hj as <-. done.
  - rewrite lookup_insert_ne in Hj by done. destruct (Hap _ _ _ _ Hj Hr Hne) as [_ []]. done.
Qed.

(** What is needed of the generators: an id and a hash no row has. *)
Definition is_fresh (db : Pg) (fresh : Fresh) : Prop :=
  db.(api_keys) !! fresh.(fresh_id) = None /\
  (forall j q, db.(api_keys) !! j = Some q ->
     q.(key_hash) <> sha256 (generate_key b64url_encode fresh)) /\
  b64url_encode fresh.(random_bytes) <> "".

Lemma fresh_after_revoke now db fresh id r :
  is_fresh db fresh -> db.(api_keys) !! id = Some r ->
  is_fresh (with_api_keys db (<[id := ApiKeyStore.set_revoked now r]> db.(api_keys))) fresh.
Proof.
  intros (Hid & Hh & Hb) Hr. split; [|split; [|done]].
  - cbn. rewrite lookup_insert_ne; [done|]. intros ->. congruence.
  - intros j q Hj. cbn in Hj. destruct (decide (j = id)) as [->|Hj'].
    + rewrite lookup_insert_eq in Hj. injection Hj as <-. cbn. eauto.
    + rewrite lookup_insert_ne in Hj by done. eauto.
Qed.

Definition minted (fresh : Fresh) (now : Z) (req : ApiKeyCreateRequest) (name creator : string) :
    ApiKeyRow :=
  let raw_key := generate_key b64url_encode fresh in
  {| row_id := fresh.(fresh_id); row_tenant_id := req.(req_tenant_id); row_name := name;
     key_hash := sha256 raw_key;
     key_prefix := String.substring 0 KEY_PREFIX_DISPLAY_LEN
                     (default raw_key (Str.strip_prefix RAW_KEY_PREFIX raw_key));
     row_path_prefixes := default [] req.(req_path_prefixes);
     row_policies := default [] req.(req_policies); created_by := creator;
     row_created_at := now; row_expires_at := None; last_used_at := None; revoked_at := None;
     rate_limit_per_minute := default 60 req.(req_rate_limit);
     is_superuser := req.(req_is_superuser);
     mfa_required := req.(req_mfa_required) || req.(req_is_superuser) |}.

(** A create request whose name is free and that asks for no expiry succeeds. *)
Lemma create_in_db_ok fresh now db req name creator t :
  is_fresh db fresh -> expires_in_seconds req = None ->
  ApiKeyStore.resolve_tenant_id parse_uuid all_well 0 db req.(req_tenant_id) = Ok t ->
  existsb (ApiKeyStore.active_name t name) (ApiKeyStore.rows db) = false ->
  let row := minted fresh now (with_tenant req name t) name creator in
  create_in_db sha256 b64url_encode parse_uuid add_seconds debug_str all_well fresh now db req
    name creator
  = Ok (create_response (generate_key b64url_encode fresh) row,
        with_api_keys db (<[fresh.(fresh_id) := ApiKeyStore.insert_query row]> db.(api_keys))).
Proof.
  intros (Hid & Hhash & _) Hexp Hres Hname row. unfold create_in_db. rewrite Hres.
  unfold begin_tx, commit, ApiKeyStore.active_name_exists, call, all_well.
  cbn [refuse stored mbind result_bind]. rewrite Hname. fold all_well.
  assert (mint sha256 b64url_encode add_seconds fresh now (with_tenant req name t) name creator
          = Ok (generate_key b64url_encode fresh, row)) as -> by (unfold mint; cbn; by rewrite Hexp).
  cbn [mbind result_bind]. unfold ApiKeyStore.insert.
  assert (ApiKeyStore.unique_violation db row = false) as ->.
  { unfold ApiKeyStore.unique_violation. cbn. rewrite Hid, bool_decide_false by by intros [].
    cbn. apply not_true_is_false. intros (q & Hin & Hq)%existsb_exists.
    apply list_elem_of_In in Hin as Hin'. apply elem_of_rows in Hin' as [j Hj].
    apply orb_prop in Hq as [Hq|Hq]; [apply bool_decide_eq_true in Hq; by destruct (Hhash _ _ Hj)|].
    apply diff_true_false. rewrite <- Hname. symmetry. apply existsb_exists. eauto. }
  assert (ApiKeyStore.tenant_exists db row.(row_tenant_id) = true) as ->; [|done].
  cbn.
  unfold ApiKeyStore.resolve_tenant_id, call in Hres. cbn in Hres.
  destruct (List.find _ _) as [tn|] eqn:Hf; [|done]. cbn in Hres. injection Hres as <-.
  apply List.find_some in Hf as [Hin _]. apply existsb_exists. exists tn.
  by rewrite bool_decide_true.
Qed.

(** A key that was just inserted authenticates. *)
Lemma validate_inserted fresh now' db row :
  keys_wf db -> is_fresh db fresh -> row.(row_id) = fresh.(fresh_id) ->
  row.(key_hash) = sha256 (generate_key b64url_encode fresh) -> row.(row_expires_at) = None ->
  row.(revoked_at) = None ->
  let db' := with_api_keys db (<[fresh.(fresh_id) := row]> db.(api_keys)) in
  (validate all_well now' (DatabaseBackend db') (generate_key b64url_encode fresh)).1
  = Ok (validation_of row).
Proof.
  intros Hwf (Hid & Hhash & Hne) Hrid Hrh Hexp Hrev db'. unfold validate_key.
  unfold parse_key_random_portion, generate_key.
  rewrite (proj2 (Str.strip_prefix_Some _ _ _) eq_refl).
  unfold Str.is_empty. rewrite bool_decide_false by done.
  unfold ApiKeyStore.find_by_hash, call. cbn.
  rewrite (find_rows_unique db' _ fresh.(fresh_id) row).
  - cbn. unfold usable. rewrite Hrev, Hexp. by rewrite bool_decide_false by by intros [].
  - cbn. by rewrite lookup_insert_eq.
  - by apply bool_decide_eq_true.
  - intros j q Hj Hq. apply bool_decide_eq_true in Hq. cbn in Hj.
    destruct (decide (j = fresh.(fresh_id))) as [->|Hj'].
    + rewrite lookup_insert_eq in Hj. by injection Hj.
    + rewrite lookup_insert_ne in Hj by done. by destruct (Hhash _ _ Hj).
Qed.

Lemma find_by_id_ok i db id r :
  keys_wf db -> db.(api_keys) !! id = Some r ->
  ApiKeyStore.find_by_id all_well i db id r.(row_tenant_id) = Ok (Some r).
Proof.
  intros [Hrow _] Hr. unfold ApiKeyStore.find_by_id, call. cbn. f_equal.
  apply (find_rows_unique db _ id r); [done|..].
  - unfold ApiKeyStore.owned. destruct (Hrow _ _ Hr) as [-> _]. by rewrite !bool_decide_true.
  - intros j q Hj Hq. unfold ApiKeyStore.owned in Hq. bools.
    destruct (Hrow _ _ Hj) as [<- _]. congruence.
Qed.

(** Rotating an active key replaces it by one with the same authority. *)
Lemma rotate_ok fresh now db id r :
  keys_wf db -> is_fresh db fresh ->
  db.(api_keys) !! id = Some r -> r.(revoked_at) = None ->
  Str.trim r.(row_name) = r.(row_name) -> r.(row_name) <> "" ->
  ApiKeyStore.resolve_tenant_id parse_uuid all_well 0 db r.(row_tenant_id) = Ok r.(row_tenant_id) ->
  let db1 := with_api_keys db (<[id := ApiKeyStore.set_revoked now r]> db.(api_keys)) in
  let row := minted fresh now (with_tenant (replacement r r.(row_tenant_id)) r.(row_name)
               r.(row_tenant_id)) r.(row_name)
               r.(created_by) in
  rotate all_well fresh now (DatabaseBackend db) id r.(row_tenant_id)
  = (Ok (create_response (generate_key b64url_encode fresh) row),
     DatabaseBackend
       (with_api_keys db1 (<[fresh.(fresh_id) := ApiKeyStore.insert_query row]> db1.(api_keys)))).
Proof.
  intros Hwf Hfresh Hr Hrev Htrim Hne Hres db1 row. unfold rotate_key, rotation_source.
  rewrite Hres. rewrite begin_well, commit_well. cbn [stored mbind result_bind].
  rewrite find_by_id_ok by done. cbn [stored mbind result_bind ok_or].
  unfold revoke_key, revoke_in_db. change (fun i => all_well (4 + i)%nat) with all_well.
  rewrite Hres, begin_well. cbn [stored mbind result_bind].
  rewrite revoke_row_ok by done. cbn [stored mbind result_bind]. rewrite commit_well.
  cbn [stored mbind result_bind]. fold db1.
  change (fun i => all_well (9 + i)%nat) with all_well.
  unfold create_key. cbn [req_name replacement]. rewrite Htrim.
  unfold Str.is_empty. rewrite bool_decide_false by done.
  rewrite (create_in_db_ok fresh now db1 (replacement r r.(row_tenant_id)) r.(row_name)
             r.(created_by) r.(row_tenant_id));
    [done|by apply fresh_after_revoke|done|exact Hres|by apply name_freed].
Qed.

(** C32. The refusal to let anyone but a superuser create a superuser key can be
    walked around: an administrator who is not one is refused the creation with
    403, but rotating an existing superuser key of the same tenant hands out a
    working superuser key. *)
Theorem rotation_grants_superuser fresh now now' db id r who payload headers io fresh' :
  keys_wf db -> is_fresh db fresh ->
  db.(api_keys) !! id = Some r -> r.(revoked_at) = None -> r.(is_superuser) = true ->
  Str.trim r.(row_name) = r.(row_name) -> r.(row_name) <> "" ->
  parse_uuid id = Some id ->
  ApiKeyStore.resolve_tenant_id parse_uuid all_well 0 db r.(row_tenant_id) = Ok r.(row_tenant_id) ->
  who.(admin_superuser) = false -> who.(admin_tenant_id) = Some r.(row_tenant_id) ->
  payload.(req_is_superuser) = true ->
  handle_create_api_key sha256 b64url_encode parse_uuid add_seconds debug_str io fresh' now
    (DatabaseBackend db) who payload
  = (Some (403, KError "superuser_grant_denied" "only a superuser can create a superuser key"),
     DatabaseBackend db) /\
  exists resp self' v,
    handle_rotate_api_key sha256 b64url_encode parse_uuid add_seconds debug_str all_well fresh now
      (DatabaseBackend db) who id headers = (Some (200, KCreated resp), self') /\
    (validate all_well now' self' resp.(resp_key)).1 = Ok v /\
    v.(v_is_superuser) = true /\ v.(v_policies) = r.(row_policies) /\
    v.(v_tenant_id) = r.(row_tenant_id).
Proof.
  intros Hwf Hfresh Hr Hrev Hsu Htrim Hne Huuid Hres Hwho Hten Hpay. split.
  { unfold handle_create_api_key. by rewrite Hpay, Hwho. }
  unfold handle_rotate_api_key, request_tenant. rewrite Huuid, Hten.
  rewrite rotate_ok by done. eexists _, _, _. split; [done|]. split.
  - cbn [resp_key create_response]. apply validate_inserted; try done.
    + by eapply update_row; [..|apply set_revoked_evolves].
    + by apply fresh_after_revoke.
  - by cbn.
Qed.

End Changes.

(** ** A concrete deployment *)

Module Demo.

Definition plain_hash (s : string) : string := s.
Definition uuid_of (s : string) : option string := Some s.
Definition plus_seconds (t n : Z) : option Z := Some (t + n).

Definition root_key : ApiKeyRow :=
  {| row_id := "k1"; row_tenant_id := "t1"; row_name := "root"; key_hash := "wslv_a";
     key_prefix := "a"; row_path_prefixes := []; row_policies := ["root"]; created_by := "setup";
     row_created_at := 0; row_expires_at := None; last_used_at := None; revoked_at := None;
     rate_limit_per_minute := 60; is_superuser := true; mfa_required := true |}.

Definition db : Pg :=
  {| tenants := [{| t_id := "t1"; t_slug := "acme"; t_deleted_at := None |}];
     api_keys := {["k1" := root_key]}; mfa_totp := ∅; recovery_codes := [] |}.

Definition fresh : Fresh := {| random_bytes := "b"; fresh_id := "k2" |}.

Definition admin : AdminIdentity :=
  {| admin_principal_id := "alice"; admin_tenant_id := Some "t1"; admin_superuser := false |}.

Definition request : ApiKeyCreateRequest :=
  {| req_name := "mine"; req_tenant_id := "t1"; req_policies := None; req_path_prefixes := None;
     expires_in_seconds := None; req_rate_limit := None; req_is_superuser := true;
     req_mfa_required := false |}.

Lemma db_wf : keys_wf db.
Proof.
  split; [by apply map_Forall_singleton|]. intros i j r s Hr Hs Hij. cbn in Hr, Hs.
  apply lookup_singleton_Some in Hr as [<- _]. by apply lookup_singleton_Some in Hs as [<- _].
Qed.

Lemma is_fresh_fresh : is_fresh plain_hash plain_hash db fresh.
Proof.
  split; [done|]. split; [|done]. intros j q Hq. cbn in Hq. by apply lookup_singleton_Some in Hq as [_ <-].
Qed.

(** The bootstrap administrator's gate. *)
Definition auth : AdminAuth :=
  {| bootstrap_token := Some "s3cret"; required_policy := "wslvault:platform-admin";
     revoked_token := fun _ => Ok false; signing_keys_verify := None;
     validate_token := fun _ => Err "bad token" |}.

Definition revoke_headers : HeaderMap := {["x-admin-token" := "s3cret"; "x-tenant-id" := "t1"]}.

Abbreviation demo_serve := (serve plain_hash plain_hash uuid_of plus_seconds plain_hash auth).

End Demo.

Lemma api_key_lifecycle_witness :
  let self' := (Demo.demo_serve all_well Demo.fresh 5 (DatabaseBackend Demo.db)
                  Demo.revoke_headers (RevokeApiKey "k1")).2 in
  (Demo.demo_serve all_well Demo.fresh 5 (DatabaseBackend Demo.db) Demo.revoke_headers
     (RevokeApiKey "k1")).1 = Some (204, KNone) /\
  exists db', self' = DatabaseBackend db' /\ keys_wf db' /\ keys_evolve Demo.db db'.
Proof.
  intros self'. split; [by vm_compute|].
  destruct (api_key_lifecycle Demo.plain_hash Demo.plain_hash Demo.uuid_of Demo.plus_seconds
              Demo.plain_hash Demo.db self' Demo.db_wf) as (db' & E & Hwf & Hev & _ & _).
  - eapply rtc_l; [apply step_serve|apply rtc_refl].
  - eauto.
Defined.

Lemma rotation_grants_superuser_witness :
  exists resp self' v,
    handle_rotate_api_key Demo.plain_hash Demo.plain_hash Demo.uuid_of Demo.plus_seconds
      Demo.plain_hash all_well Demo.fresh 5 (DatabaseBackend Demo.db) Demo.admin "k1" ∅
    = (Some (200, KCreated resp), self') /\
    (validate_key Demo.plain_hash Demo.plain_hash all_well 6 self' resp.(resp_key)).1 = Ok v /\
    v.(v_is_superuser) = true.
Proof.
  destruct (rotation_grants_superuser Demo.plain_hash Demo.plain_hash Demo.uuid_of
              Demo.plus_seconds Demo.plain_hash Demo.fresh 5 6 Demo.db "k1" Demo.root_key
              Demo.admin Demo.request ∅ all_well Demo.fresh Demo.db_wf Demo.is_fresh_fresh)
    as [_ (resp & self' & v & H1 & H2 & H3 & _)]; try done.
  eauto 10.
Defined.
