(* ===== verification/Mfa.v ===== *)
(** * The second factor

    [services/identity-service/src/mfa.rs] (challenges, base32, TOTP codes,
    recovery codes) and the login and second-factor handlers of
    [api_keys.rs]: [handle_auth_api_key], [handle_mfa_verify],
    [handle_mfa_enroll], [handle_mfa_confirm], [handle_mfa_status] and
    [handle_mfa_recovery_codes], on the tables of [IdentityDb] and the manager of
    [ApiKeys]. HMAC, SHA-256, UUID parsing, the crypto-service, token signing and
    the lease manager are parameters. *)

From Stdlib Require Import Lia Ascii.
From stdpp Require Import sorting pretty.
From S2P Require Import Prelude Errors Auth IdentityDb ApiKeys.

Definition CHALLENGE_TTL_SECONDS : Z := 120.
Definition TOTP_SKEW : Z := 1.
Definition TOTP_DIGITS : nat := 6.
Definition TOTP_STEP_SECONDS : Z := 30.

(** ** Challenges *)

Module Challenge.

Record PendingChallenge := {
  p_api_key_id : string;
  p_tenant_id : string;
  p_policies : list string;
  p_superuser : bool;
  p_expires_at : Z;
}.

Abbreviation ChallengeStore := (gmap string PendingChallenge).

Definition challenge_expiry (now : Z) : Z := now + CHALLENGE_TTL_SECONDS.

(** [id] is the fresh UUID. *)
Definition issue (self : ChallengeStore) (now : Z) (id : string) (pending : PendingChallenge) :
    ChallengeStore :=
  <[id := pending]> (filter (fun e : string * PendingChallenge => now < e.2.(p_expires_at)) self).

Definition take (self : ChallengeStore) (now : Z) (id : string) :
    option PendingChallenge * ChallengeStore :=
  match self !! id with
  | None => (None, self)
  | Some pending =>
      (if pending.(p_expires_at) <=? now then None else Some pending, delete id self)
  end.

(** A challenge is accepted once, and only before it expires. *)
Lemma take_once self now id pending self' now' :
  take self now id = (Some pending, self') ->
  self !! id = Some pending /\ now < pending.(p_expires_at) /\ self' = delete id self /\
  (take self' now' id).1 = None.
Proof.
  unfold take. destruct (self !! id) as [p|] eqn:Hp; [|done].
  destruct (Z.leb_spec (p_expires_at p) now); intros [= <- <-].
  repeat split; [done..|]. by rewrite lookup_delete_eq.
Qed.

End Challenge.
Import Challenge.

(** ** Base32 *)

Module Base32.

Definition ALPHABET : string := "ABCDEFGHIJKLMNOPQRSTUVWXYZ234567".

(** [ALPHABET[idx]]; every index below is masked to five bits. *)
Definition char_at (idx : Z) : ascii := default "A"%char (String.get (Z.to_nat idx) ALPHABET).

Definition byte (a : ascii) : Z := Z.of_nat (nat_of_ascii a).

(** [z as u8], as a byte. *)
Definition to_byte (z : Z) : ascii := ascii_of_nat (Z.to_nat (as_u8 z)).

(** The [while bits >= 5] loop: what it pushes, and the bits left. *)
Fixpoint drain (buffer : Z) (bits : nat) : string * nat :=
  match bits with
  | S (S (S (S (S bits')))) =>
      let idx := Z.land (Z.shiftr buffer (Z.of_nat bits')) 31 in
      let '(out, rest) := drain buffer bits' in (String (char_at idx) out, rest)
  | _ => ("", bits)
  end.

(** The [for &byte in data] loop. *)
Fixpoint encode_loop (data : string) (buffer : Z) (bits : nat) : string * (Z * nat) :=
  match data with
  | EmptyString => ("", (buffer, bits))
  | String a data' =>
      let buffer := Z.lor (as_u16 (Z.shiftl buffer 8)) (byte a) in
      let '(out, bits) := drain buffer (bits + 8) in
      let '(out', final) := encode_loop data' buffer bits in (out +:+ out', final)
  end.

Definition base32_encode (data : string) : string :=
  let '(out, (buffer, bits)) := encode_loop data 0 0 in
  if (0 <? bits)%nat
  then out +:+ String (char_at (Z.land (as_u16 (Z.shiftl buffer (5 - Z.of_nat bits))) 31)) ""
  else out.

(** [ALPHABET.iter().position(|&a| a == c)]. *)
Fixpoint position (c : ascii) (s : string) (i : Z) : option Z :=
  match s with
  | EmptyString => None
  | String a s' => if decide (a = c) then Some i else position c s' (i + 1)
  end.

Fixpoint decode_loop (s : string) (buffer : Z) (bits : Z) : option string :=
  match s with
  | EmptyString => Some ""
  | String c s' =>
      if decide (c = "="%char) then decode_loop s' buffer bits
      else
        idx ← position c ALPHABET 0;
        let buffer := Z.lor (as_u16 (Z.shiftl buffer 5)) idx in
        let bits := bits + 5 in
        if 8 <=? bits
        then rest ← decode_loop s' buffer (bits - 8);
             Some (String (to_byte (Z.shiftr buffer (bits - 8))) rest)
        else decode_loop s' buffer bits
  end.

Definition base32_decode (s : string) : option string :=
  decode_loop (Str.to_ascii_uppercase (Str.trim s)) 0 0.

Example encode_rfc : base32_encode "12345678901234567890" = "GEZDGNBVGY3TQOJQGEZDGNBVGY3TQOJQ".
Proof. by vm_compute. Qed.

Example decode_rfc : base32_decode "gezdgnbvgy3tqojqgezdgnbvgy3tqojq" = Some "12345678901234567890".
Proof. by vm_compute. Qed.

(** *** Round trip

    Both directions are read as changes of radix: [num B l] is the number whose
    digits in base [B] are [l], most significant first. *)

Fixpoint num (B : Z) (l : list Z) : Z :=
  match l with [] => 0 | d :: l' => d * B ^ len l' + num B l' end.

Definition digits_in (B : Z) (l : list Z) : Prop := Forall (fun d => 0 <= d < B) l.

Fixpoint chars (l : list Z) : string :=
  match l with [] => "" | d :: l' => String (char_at d) (chars l') end.

Fixpoint bytes (s : string) : list Z :=
  match s with EmptyString => [] | String a s' => byte a :: bytes s' end.

Lemma len_cons {A} (a : A) l : len (a :: l) = 1 + len l.
Proof. unfold len. cbn. lia. Qed.

Lemma chars_app l k : chars (l ++ k) = chars l +:+ chars k.
Proof. induction l as [|d l IH]; cbn; [done|]. by rewrite IH. Qed.

Lemma num_app B l k : 0 < B -> num B (l ++ k) = num B l * B ^ len k + num B k.
Proof.
  intros HB. induction l as [|d l IH]; [cbn [app]; change (num B []) with 0; lia|].
  cbn [app num]. rewrite IH, len_app, Z.pow_add_r by apply len_nonneg. ring.
Qed.

Lemma num_bound B l : 0 < B -> digits_in B l -> 0 <= num B l < B ^ len l.
Proof.
  intros HB. induction 1 as [|d l Hd _ IH]; [change (0 <= 0 < B ^ 0); lia|].
  cbn [num]. rewrite len_cons, Z.pow_add_r, Z.pow_1_r by (pose proof (len_nonneg l); lia). nia.
Qed.

Lemma num_inj B l k :
  0 < B -> digits_in B l -> digits_in B k -> len l = len k -> num B l = num B k -> l = k.
Proof.
  intros HB Hl. revert k. induction Hl as [|d l Hd Hl IH]; intros [|e k] Hk Hlen Hnum;
    rewrite ?len_cons in Hlen; [done|unfold len in Hlen; cbn in Hlen; lia..|].
  inversion Hk as [|? ? He Hk']; subst. cbn in Hnum. assert (len l = len k) as Heq by lia.
  pose proof (num_bound B l HB Hl). pose proof (num_bound B k HB Hk'). rewrite Heq in *.
  assert (d = e) as -> by nia. f_equal. apply IH; [done..|lia].
Qed.

Lemma byte_bound a : 0 <= byte a < 256.
Proof. unfold byte. pose proof (nat_ascii_bounded a). lia. Qed.

Lemma bytes_digits s : digits_in 256 (bytes s).
Proof. induction s; constructor; [apply byte_bound|done]. Qed.

Lemma bytes_inj s t : bytes s = bytes t -> s = t.
Proof.
  revert t. induction s as [|a s IH]; intros [|b t]; cbn; intros H; try done.
  injection H as Hab ->%IH. f_equal. unfold byte in Hab.
  rewrite <- (ascii_nat_embedding a), <- (ascii_nat_embedding b). f_equal. lia.
Qed.

Lemma byte_to_byte z : byte (to_byte z) = z mod 256.
Proof.
  unfold byte, to_byte, as_u8, wrap. change (2 ^ 8) with 256.
  pose proof (Z.mod_pos_bound z 256 eq_refl). rewrite nat_ascii_embedding; lia.
Qed.

(** The low [n + w] bits of a number, split at bit [n]. *)
Lemma split_bits x n w : 0 <= n -> 0 <= w ->
  x mod 2 ^ (n + w) = (x / 2 ^ n) mod 2 ^ w * 2 ^ n + x mod 2 ^ n.
Proof.
  intros. rewrite Z.pow_add_r, Z.rem_mul_r by (try apply Z.pow_nonzero; lia). lia.
Qed.

(** Shifting [w] bits into the sixteen-bit buffer. *)
Lemma push_bits buffer d n w :
  0 <= d < 2 ^ w -> 0 <= n -> 0 <= w -> n + w <= 16 ->
  Z.lor (as_u16 (Z.shiftl buffer w)) d mod 2 ^ (n + w) = (buffer mod 2 ^ n) * 2 ^ w + d.
Proof.
  intros Hd Hn Hw Hnw. unfold as_u16, wrap. rewrite Z.shiftl_mul_pow2 by done.
  replace 16 with ((16 - w) + w) at 1 by lia. rewrite Z.pow_add_r by lia.
  rewrite Z.mul_mod_distr_r by (apply Z.pow_nonzero; lia).
  assert (forall a, Z.lor (a * 2 ^ w) d = a * 2 ^ w + d) as ->.
  { intros a. rewrite <- Z.shiftl_mul_pow2 by done. 
    rewrite <- Z.lxor_lor, <- Z.add_nocarry_lxor; [done|..].
    all: apply Z.bits_inj'; intros i Hi; rewrite Z.land_spec, Z.shiftl_spec, Z.bits_0 by done.
    all: destruct (Z.ltb_spec i w); [by rewrite Z.testbit_neg_r by lia|].
    all: rewrite <- (Z.mod_small d (2 ^ w)) by done.
    all: by rewrite Z.mod_pow2_bits_high, andb_false_r by lia. }
  rewrite Z.pow_add_r, Z.add_mul_mod_distr_r; try lia.
  - do 2 f_equal. apply Z.mod_mod_divide. exists (2 ^ (16 - w - n)).
    rewrite <- Z.pow_add_r by lia. f_equal. lia.
  - apply Z.mod_pos_bound. lia.
Qed.

Lemma land_31 x : Z.land x 31 = x mod 2 ^ 5.
Proof. by apply (Z.land_ones x 5). Qed.

Lemma drain_spec buffer bits :
  exists ds, (drain buffer bits).1 = chars ds /\ digits_in 32 ds /\
    ((drain buffer bits).2 < 5)%nat /\
    (Z.of_nat bits = 5 * len ds + Z.of_nat (drain buffer bits).2) /\
    (buffer mod 2 ^ Z.of_nat bits =
       num 32 ds * 2 ^ Z.of_nat (drain buffer bits).2 + buffer mod 2 ^ Z.of_nat (drain buffer bits).2).
Proof.
  induction bits as [bits IH] using lt_wf_ind.
  destruct bits as [|[|[|[|[|b]]]]]; [exists []; repeat split; [constructor|cbn; lia..]..|].
  destruct (IH b) as (ds & Ho & Hd & Hb & Hlen & Hnum); [lia|].
  cbn [drain]. destruct (drain buffer b) as [out r]. cbn [fst snd] in *. subst out.
  set (idx := Z.land _ _). exists (idx :: ds).
  assert (idx = (buffer / 2 ^ Z.of_nat b) mod 2 ^ 5) as Hidx.
  { unfold idx. by rewrite land_31, Z.shiftr_div_pow2 by lia. }
  split; [done|]. split.
  { constructor; [|done]. rewrite Hidx. apply Z.mod_pos_bound. lia. }
  split; [done|]. rewrite len_cons. split; [lia|].
  replace (Z.of_nat (S (S (S (S (S b)))))) with (Z.of_nat b + 5) by lia.
  rewrite split_bits, <- Hidx, Hnum by lia. cbn [num].
  replace (2 ^ Z.of_nat b) with (32 ^ len ds * 2 ^ Z.of_nat r); [ring|].
  change 32 with (2 ^ 5). pose proof (len_nonneg ds).
  rewrite <- Z.pow_mul_r, <- Z.pow_add_r by lia. f_equal. lia.
Qed.

Lemma encode_loop_spec data buffer bits :
  (bits < 5)%nat ->
  let '(out, (buffer', b)) := encode_loop data buffer bits in
  exists ds, out = chars ds /\ digits_in 32 ds /\ (b < 5)%nat /\
    (Z.of_nat bits + 8 * len (bytes data) = 5 * len ds + Z.of_nat b) /\
    ((buffer mod 2 ^ Z.of_nat bits) * 256 ^ len (bytes data) + num 256 (bytes data)
     = num 32 ds * 2 ^ Z.of_nat b + buffer' mod 2 ^ Z.of_nat b).
Proof.
  revert buffer bits. induction data as [|a data IH]; intros buffer bits Hbits; cbn [encode_loop].
  { exists []. split; [done|]. split; [by apply List.Forall_nil|]. split; [done|].
    cbn [bytes num]. unfold len. cbn [List.length]. lia. }
  set (buffer1 := Z.lor _ _). pose proof (byte_bound a) as Ha.
  assert (buffer1 mod 2 ^ (Z.of_nat bits + 8) = buffer mod 2 ^ Z.of_nat bits * 2 ^ 8 + byte a)
    as Hpush by (apply push_bits; lia).
  destruct (drain_spec buffer1 (bits + 8)) as (ds1 & Ho1 & Hd1 & Hb1 & Hl1 & Hn1).
  destruct (drain buffer1 (bits + 8)) as [out1 b1]. cbn [fst snd] in *. subst out1.
  specialize (IH buffer1 b1 Hb1). destruct (encode_loop data buffer1 b1) as [out2 [buffer' b]].
  destruct IH as (ds2 & -> & Hd2 & Hb & Hl2 & Hn2).
  exists (ds1 ++ ds2). rewrite chars_app. split; [done|]. split; [by apply Forall_app|].
  split; [done|]. cbn [bytes]. rewrite len_cons, len_app. split; [lia|].
  replace (Z.of_nat (bits + 8)) with (Z.of_nat bits + 8) in Hn1 by lia. rewrite Hpush in Hn1. cbn [num].
  rewrite num_app, Z.pow_add_r by (pose proof (len_nonneg (bytes data)); lia).
  assert (num 32 ds1 * 32 ^ len ds2 * 2 ^ Z.of_nat b
          = num 32 ds1 * 2 ^ Z.of_nat b1 * 256 ^ len (bytes data)) as Hshift.
  { rewrite <- !Z.mul_assoc. f_equal. change 32 with (2 ^ 5). change 256 with (2 ^ 8).
    pose proof (len_nonneg ds2). pose proof (len_nonneg (bytes data)).
    rewrite <- !Z.pow_mul_r, <- !Z.pow_add_r by lia. f_equal. lia. }
  nia.
Qed.

Lemma alphabet_char d : 0 <= d < 32 ->
  position (char_at d) ALPHABET 0 = Some d /\ char_at d <> "="%char /\
  Str.is_visible (char_at d) = true /\ Str.to_upper_ascii (char_at d) = char_at d /\
  Str.is_ascii_alphanumeric (char_at d) = true.
Proof.
  intros Hd. rewrite <- (Z2Nat.id d) by lia. assert (Z.to_nat d < 32)%nat as Hn by lia.
  revert Hn. generalize (Z.to_nat d). intros n Hn.
  do 32 (destruct n as [|n]; [by vm_compute|]). lia.
Qed.

(** Taking one byte off the buffer, or none. *)
Lemma decode_loop_spec ds buffer bits :
  digits_in 32 ds -> 0 <= bits < 8 ->
  exists out b rest, decode_loop (chars ds) buffer bits = Some out /\ 0 <= b < 8 /\
    bits + 5 * len ds = 8 * len (bytes out) + b /\ 0 <= rest < 2 ^ b /\
    (buffer mod 2 ^ bits) * 32 ^ len ds + num 32 ds = num 256 (bytes out) * 2 ^ b + rest.
Proof.
  intros Hds. revert buffer bits. induction Hds as [|d ds Hd Hds IH]; intros buffer bits Hb.
  { exists "", bits, (buffer mod 2 ^ bits). cbn [chars bytes num decode_loop].
    assert (len (@nil Z) = 0) as -> by done.
    pose proof (Z.mod_pos_bound buffer (2 ^ bits)). repeat split; lia. }
  destruct (alphabet_char d Hd) as (Hpos & Heq & _). cbn [chars decode_loop].
  rewrite decide_False, Hpos by done. cbn [mbind option_bind].
  set (buffer1 := Z.lor _ _). rewrite len_cons.
  assert (buffer1 mod 2 ^ (bits + 5) = buffer mod 2 ^ bits * 2 ^ 5 + d) as Hpush
    by (apply push_bits; lia).
  pose proof (len_nonneg ds) as Hlen. cbn [num]. rewrite Z.pow_add_r by lia.
  destruct (Z.leb_spec 8 (bits + 5)) as [Hge|Hlt].
  - destruct (IH buffer1 (bits + 5 - 8)) as (out & b & rest & Ho & Hb' & Hl & Hr & Hn); [lia|].
    rewrite Ho. cbn [mbind option_bind]. eexists _, b, rest. split; [done|]. split; [done|].
    cbn [bytes]. rewrite len_cons. split; [lia|]. split; [done|].
    replace (bits + 5) with ((bits + 5 - 8) + 8) in Hpush by lia.
    rewrite split_bits in Hpush by lia. cbn [num].
    rewrite byte_to_byte, Z.shiftr_div_pow2 by lia. change (2 ^ 8) with 256 in Hpush.
    change (2 ^ 5) with 32 in Hpush.
    set (top := (buffer1 / 2 ^ (bits + 5 - 8)) mod 256) in *.
    assert (2 ^ (bits + 5 - 8) * 32 ^ len ds = 256 ^ len (bytes out) * 2 ^ b) as Hshift.
    { change 32 with (2 ^ 5). change 256 with (2 ^ 8). pose proof (len_nonneg (bytes out)).
      rewrite <- !Z.pow_mul_r, <- !Z.pow_add_r by lia. f_equal. lia. }
    transitivity ((buffer mod 2 ^ bits * 32 + d) * 32 ^ len ds + num 32 ds); [ring|].
    rewrite <- Hpush. rewrite Z.mul_add_distr_r, <- Z.mul_assoc, Hshift, <- Z.add_assoc, Hn. ring.
  - destruct (IH buffer1 (bits + 5)) as (out & b & rest & Ho & Hb' & Hl & Hr & Hn); [lia|].
    exists out, b, rest. split; [done|]. split; [done|]. split; [lia|]. split; [done|].
    rewrite <- Hn, Hpush. ring.
Qed.

Lemma chars_normal ds :
  digits_in 32 ds -> Str.to_ascii_uppercase (Str.trim (chars ds)) = chars ds.
Proof.
  intros Hds. rewrite Str.trim_id.
  - induction Hds as [|d ds Hd _ IH]; [done|]. cbn. f_equal; [by apply alphabet_char|done].
  - induction Hds as [|d ds Hd _ IH]; [done|]. cbn [chars Str.forallb].
    by destruct (alphabet_char d Hd) as (_ & _ & -> & _).
Qed.

(** The digits of an encoding: the data, padded with zero bits to a whole
    number of characters. *)
Lemma base32_encode_digits data :
  exists ds pad, base32_encode data = chars ds /\ digits_in 32 ds /\ 0 <= pad < 5 /\
    5 * len ds = 8 * len (bytes data) + pad /\ num 32 ds = num 256 (bytes data) * 2 ^ pad.
Proof.
  unfold base32_encode. pose proof (encode_loop_spec data 0 0) as Hs.
  destruct (encode_loop data 0 0) as [out [buffer b]].
  destruct Hs as (ds & -> & Hds & Hb & Hl & Hn); [lia|].
  rewrite Zmod_0_l in Hn. destruct (Nat.ltb_spec 0 b) as [Hpos|Hzero].
  - set (idx := Z.land _ _). set (pad := 5 - Z.of_nat b).
    assert (idx = (buffer mod 2 ^ Z.of_nat b) * 2 ^ pad) as Hidx.
    { unfold idx. fold pad. rewrite land_31.
      replace (2 ^ 5) with (2 ^ (Z.of_nat b + pad)) by (f_equal; unfold pad; lia).
      pose proof (push_bits buffer 0 (Z.of_nat b) pad) as Hp. rewrite Z.lor_0_r, Z.add_0_r in Hp.
      apply Hp; unfold pad; lia. }
    exists (ds ++ [idx]), pad. rewrite chars_app. split; [done|].
    split; [apply Forall_app; split; [done|constructor; [|done]]; unfold idx; rewrite land_31;
            apply Z.mod_pos_bound; lia|].
    split; [unfold pad; lia|]. rewrite len_app, num_app by lia.
    assert (len [idx] = 1) as -> by done. split; [unfold pad; lia|].
    cbn [num]. assert (len (@nil Z) = 0) as -> by done. rewrite Hidx, Z.pow_0_r, Z.pow_1_r.
    assert (32 = 2 ^ Z.of_nat b * 2 ^ pad) as Hbase.
    { rewrite <- Z.pow_add_r by (unfold pad; lia). change 32 with (2 ^ 5). f_equal. unfold pad. lia. }
    rewrite Hbase at 2. rewrite Z.mul_0_l, Z.add_0_l in Hn. rewrite Hn. ring.
  - assert (b = 0%nat) as -> by lia. exists ds, 0. rewrite Z.pow_0_r, Z.mod_1_r in *.
    repeat split; try done; lia.
Qed.

(** A secret survives the encoding authenticator apps are given. *)
Theorem base32_round_trip data : base32_decode (base32_encode data) = Some data.
Proof.
  destruct (base32_encode_digits data) as (ds & pad & -> & Hds & Hpad & Hl & Hn).
  unfold base32_decode. rewrite chars_normal by done.
  destruct (decode_loop_spec ds 0 0 Hds) as (out & b & rest & -> & Hb & Hl' & Hr & Hn'); [lia|].
  rewrite Zmod_0_l in Hn'. f_equal. apply bytes_inj. assert (b = pad) as -> by lia.
  apply (num_inj 256); try apply bytes_digits; [lia..|].
  pose proof (Z.pow_pos_nonneg 2 pad). nia.
Qed.

End Base32.
Import Base32.

(** ** Codes

    HMAC-SHA1 (20-byte tags) and hex-encoded SHA-256. *)

Class Digests := {
  hmac_sha1 : string -> string -> string;
  sha256_hex : string -> string;
}.

Class DigestLaws `{Digests} : Prop := {
  hmac_length : forall k m, String.length (hmac_sha1 k m) = 20%nat;
}.

(** [u64::to_be_bytes]. *)
Fixpoint be_bytes (n : nat) (z : Z) : string :=
  match n with
  | O => ""
  | S n' => String (to_byte (Z.shiftr z (8 * Z.of_nat n'))) (be_bytes n' z)
  end.

(** [digest[i]]; the tag has twenty bytes and every index below is at most 18. *)
Definition byte_at (digest : string) (i : Z) : Z :=
  match String.get (Z.to_nat i) digest with Some a => byte a | None => 0 end.

(** [format!("{:0width$}", n)]. *)
Definition zero_padded (width : nat) (n : Z) : string :=
  let s := pretty (Z.to_N n) in Str.repeat "0" (width - String.length s) +:+ s.

Definition step_at (unix_seconds : Z) : Z := Z.quot unix_seconds TOTP_STEP_SECONDS.

Section Codes.
Context `{Digests}.

Definition truncate (digest : string) : Z :=
  let offset := Z.land (byte_at digest (Z.of_nat (String.length digest) - 1)) 15 in
  Z.lor (Z.lor (Z.lor
    (as_u32 (Z.shiftl (Z.land (byte_at digest offset) 127) 24))
    (as_u32 (Z.shiftl (byte_at digest (offset + 1)) 16)))
    (as_u32 (Z.shiftl (byte_at digest (offset + 2)) 8)))
    (byte_at digest (offset + 3)).

Definition hotp (secret : string) (counter : Z) : string :=
  let digest := hmac_sha1 secret (be_bytes 8 counter) in
  zero_padded TOTP_DIGITS (truncate digest mod 10 ^ Z.of_nat TOTP_DIGITS).

(** The loop over the offsets [-TOTP_SKEW ..= TOTP_SKEW]. *)
Fixpoint match_step (secret code : string) (steps : list Z) : option Z :=
  match steps with
  | [] => None
  | step :: steps' =>
      if bool_decide (hotp secret (wrap 64 step) = Str.trim code) then Some step
      else match_step secret code steps'
  end.

Definition window (now : Z) : list Z :=
  (fun offset => step_at now + offset) <$> seqZ (- TOTP_SKEW) (2 * TOTP_SKEW + 1).

Definition verify_code (secret_b32 code : string) (now : Z) : option Z :=
  secret ← base32_decode secret_b32;
  match_step secret code (window now).

Definition generate_secret (rng : option string) : result string string :=
  raw ← ok_or rng "CSPRNG failed generating a TOTP secret";
  Ok (base32_encode raw).

Definition otpauth_uri (secret_b32 account issuer : string) : string :=
  "otpauth://totp/" +:+ issuer +:+ ":" +:+ account +:+ "?secret=" +:+ secret_b32 +:+ "&issuer="
  +:+ issuer +:+ "&algorithm=SHA1&digits=" +:+ pretty (N.of_nat TOTP_DIGITS) +:+ "&period="
  +:+ pretty (Z.to_N TOTP_STEP_SECONDS).

(** *** Recovery codes *)

Definition normalise (code : string) : string :=
  Str.to_ascii_uppercase (Str.filter Str.is_ascii_alphanumeric code).

Definition hash_recovery_code (code : string) : string := sha256_hex (normalise code).

Definition legacy_hash_recovery_code (code : string) : string :=
  sha256_hex (Str.to_ascii_uppercase (Str.trim code)).

Definition RECOVERY_GROUP : nat := 8.

(** [format!("{}-{}", &s[..8], &s[8..16])]. *)
Definition regroup (s : string) : string :=
  String.substring 0 RECOVERY_GROUP s +:+ "-" +:+ String.substring RECOVERY_GROUP RECOVERY_GROUP s.

(** [rng i] is what the generator returns to the [i]-th code. *)
Fixpoint generate_recovery_codes (rng : nat -> option string) (i count : nat) :
    result string (list (string * string)) :=
  match count with
  | O => Ok []
  | S count' =>
      raw ← ok_or (rng i) "CSPRNG failed generating a recovery code";
      rest ← generate_recovery_codes rng (S i) count';
      let code := regroup (base32_encode raw) in
      Ok ((code, hash_recovery_code code) :: rest)
  end.

#[global] Instance string_leb_dec : RelDecision (fun s t => String.leb s t = true).
Proof. intros s t. apply _. Defined.

(** [Vec::dedup]: runs of equal elements become one. *)
Fixpoint dedup (l : list string) : list string :=
  match l with
  | [] => []
  | s :: l' => match l' with
               | t :: _ => if decide (s = t) then dedup l' else s :: dedup l'
               | [] => [s]
               end
  end.

Definition recovery_code_hash_candidates (code : string) : list string :=
  let normalised := normalise code in
  let candidates := [hash_recovery_code code; legacy_hash_recovery_code code] in
  let candidates :=
    if (String.length normalised =? 2 * RECOVERY_GROUP)%nat
    then candidates ++ [legacy_hash_recovery_code (regroup normalised)] else candidates in
  dedup (merge_sort (fun s t => String.leb s t = true) candidates).

(** *** What the codes promise *)

Lemma get_in_range s n : (n < String.length s)%nat -> is_Some (String.get n s).
Proof.
  revert n. induction s as [|a s IH]; intros [|n] Hn; cbn in *; [lia..|by eexists|].
  apply IH. lia.
Qed.

(** Every byte the truncation reads is inside the tag. *)
Lemma truncation_in_range `{!DigestLaws} secret m x i :
  0 <= i <= 3 -> is_Some (String.get (Z.to_nat (Z.land x 15 + i)) (hmac_sha1 secret m)).
Proof.
  intros Hi. apply get_in_range. rewrite hmac_length.
  assert (0 <= Z.land x 15 < 16) 
    by (change 15 with (Z.ones 4); rewrite Z.land_ones by done; by apply Z.mod_pos_bound).
  lia.
Qed.

Lemma window_spec now step :
  step ∈ window now <-> step_at now - TOTP_SKEW <= step <= step_at now + TOTP_SKEW.
Proof.
  unfold window. rewrite list_elem_of_fmap. unfold TOTP_SKEW. split.
  - intros (o & -> & Ho%elem_of_seqZ). lia.
  - intros. exists (step - step_at now). split; [lia|]. apply elem_of_seqZ. lia.
Qed.

Lemma match_step_Some secret code steps step :
  match_step secret code steps = Some step ->
  step ∈ steps /\ hotp secret (wrap 64 step) = Str.trim code.
Proof.
  induction steps as [|s steps IH]; cbn; [done|]. case_bool_decide as Hs.
  - intros [= <-]. split; [by left|done].
  - intros [? ?]%IH. split; [by right|done].
Qed.

Lemma match_step_None secret code steps :
  match_step secret code steps = None <->
  forall step, step ∈ steps -> hotp secret (wrap 64 step) <> Str.trim code.
Proof.
  induction steps as [|s steps IH]; cbn; [by split; [intros _ ? ?%not_elem_of_nil|]|].
  case_bool_decide as Hs; [|rewrite IH].
  - split; [done|]. intros Hall. destruct (Hall s); [by left|done].
  - split; [intros Hr t [->|Ht]%elem_of_cons; eauto|]. intros Hr t Ht. apply Hr. by right.
Qed.

Lemma verify_code_sound secret_b32 code now step :
  verify_code secret_b32 code now = Some step ->
  step_at now - TOTP_SKEW <= step <= step_at now + TOTP_SKEW /\
  exists secret, base32_decode secret_b32 = Some secret /\
    hotp secret (wrap 64 step) = Str.trim code.
Proof.
  unfold verify_code. destruct (base32_decode secret_b32) as [secret|]; [|done]. cbn.
  intros [Hin Heq]%match_step_Some. apply window_spec in Hin. eauto.
Qed.

Lemma digits_visible s : Dec.is_digits s = true -> Str.forallb Str.is_visible s = true.
Proof.
  unfold Dec.is_digits. induction s as [|a s IH]; [done|]. cbn [Str.forallb].
  intros [Ha ->%IH]%andb_prop. rewrite andb_true_r. revert Ha.
  by destruct a as [[] [] [] [] [] [] [] []].
Qed.

Lemma zero_padded_digits width n : Dec.is_digits (zero_padded width n) = true.
Proof.
  unfold zero_padded, Dec.is_digits. rewrite Str.forallb_app. apply andb_true_intro. split.
  - by induction (width - _)%nat.
  - apply Dec.pretty_digits.
Qed.

Lemma hotp_trim secret counter : Str.trim (hotp secret counter) = hotp secret counter.
Proof. apply Str.trim_id, digits_visible, zero_padded_digits. Qed.

(** The code an authenticator shows for the enrolled secret, within one step of
    the server's clock, is accepted. *)
Theorem authenticator_code_accepted raw now step :
  step_at now - TOTP_SKEW <= step <= step_at now + TOTP_SKEW ->
  exists step', verify_code (base32_encode raw) (hotp raw (wrap 64 step)) now = Some step' /\
    hotp raw (wrap 64 step') = hotp raw (wrap 64 step).
Proof.
  intros Hstep. unfold verify_code. rewrite base32_round_trip. cbn.
  destruct (match_step _ _ _) as [s|] eqn:E.
  - apply match_step_Some in E as [_ E]. exists s. split; [done|].
    by rewrite E, hotp_trim.
  - exfalso. eapply match_step_None; [done|by apply window_spec|]. by rewrite hotp_trim.
Qed.

Lemma elem_of_dedup s l : s ∈ dedup l <-> s ∈ l.
Proof.
  induction l as [|t l IH]; [done|]. cbn [dedup]. destruct l as [|u l]; [done|].
  case_decide as Htu; [subst u; rewrite IH|rewrite elem_of_cons, IH]; rewrite !elem_of_cons;
    naive_solver.
Qed.

Lemma elem_of_candidates h code :
  h ∈ recovery_code_hash_candidates code <->
  h = hash_recovery_code code \/ h = legacy_hash_recovery_code code \/
  (String.length (normalise code) = 2 * RECOVERY_GROUP /\
   h = legacy_hash_recovery_code (regroup (normalise code)))%nat.
Proof.
  unfold recovery_code_hash_candidates. rewrite elem_of_dedup, merge_sort_Permutation.
  destruct (Nat.eqb_spec (String.length (normalise code)) (2 * RECOVERY_GROUP));
    rewrite ?elem_of_app, !elem_of_cons, elem_of_nil; naive_solver.
Qed.

Lemma filter_app f s t : Str.filter f (s +:+ t) = Str.filter f s +:+ Str.filter f t.
Proof. induction s as [|a s IH]; cbn; [done|]. destruct (f a); cbn; by rewrite IH. Qed.

Lemma filter_id f s : Str.forallb f s = true -> Str.filter f s = s.
Proof.
  induction s as [|a s IH]; cbn; [done|]. intros [-> Hs]%andb_prop. by rewrite IH.
Qed.

Lemma substring_halves s : String.length s = (2 * RECOVERY_GROUP)%nat ->
  String.substring 0 RECOVERY_GROUP s +:+ String.substring RECOVERY_GROUP RECOVERY_GROUP s = s.
Proof. intros Hl. do 17 (destruct s as [|? s]; try done). Qed.

(** Alphanumeric upper-case text, which is what codes are made of. *)
Definition canonical (s : string) : Prop :=
  Str.forallb Str.is_ascii_alphanumeric s = true /\ Str.to_ascii_uppercase s = s.

Lemma normalise_regroup s :
  canonical s -> String.length s = (2 * RECOVERY_GROUP)%nat -> normalise (regroup s) = s.
Proof.
  intros [Ha Hu] Hl. unfold normalise, regroup. rewrite <- (substring_halves s Hl) in Ha, Hu.
  rewrite Str.forallb_app in Ha. apply andb_prop in Ha as [H1 H2].
  rewrite !filter_app, (filter_id _ _ H1), (filter_id _ _ H2).
  change (Str.filter Str.is_ascii_alphanumeric "-") with "".
  unfold Str.to_ascii_uppercase in *. cbn [String.append]. rewrite Hu. by apply substring_halves.
Qed.

Lemma chars_canonical ds : digits_in 32 ds -> canonical (chars ds).
Proof.
  induction 1 as [|d ds Hd _ [IHa IHu]]; [done|].
  destruct (alphabet_char d Hd) as (_ & _ & _ & Hup & Hal). split; cbn [chars Str.forallb].
  - by rewrite Hal.
  - change (String (Str.to_upper_ascii (char_at d)) (Str.to_ascii_uppercase (chars ds))
            = String (char_at d) (chars ds)). by rewrite Hup, IHu.
Qed.

Lemma length_chars ds : String.length (chars ds) = List.length ds.
Proof. induction ds; cbn; [done|]. by f_equal. Qed.

Lemma length_bytes s : List.length (bytes s) = String.length s.
Proof. induction s; cbn; [done|]. by f_equal. Qed.

(** Ten random bytes make sixteen characters. *)
Lemma recovery_encoding raw : String.length raw = 10%nat ->
  canonical (base32_encode raw) /\ String.length (base32_encode raw) = (2 * RECOVERY_GROUP)%nat.
Proof.
  intros Hraw. destruct (base32_encode_digits raw) as (ds & pad & -> & Hds & Hpad & Hl & _).
  split; [by apply chars_canonical|]. rewrite length_chars. unfold len in Hl.
  rewrite length_bytes, Hraw in Hl. unfold RECOVERY_GROUP. lia.
Qed.

(** A recovery code is found however it is retyped: any text with the same
    letters and digits, in any case and with any separators, yields the hash
    stored when it was issued, and the hash an older enrolment stored for it. *)
Theorem recovery_code_reachable raw typed :
  String.length raw = 10%nat ->
  let code := regroup (base32_encode raw) in
  normalise typed = normalise code ->
  hash_recovery_code code ∈ recovery_code_hash_candidates typed /\
  legacy_hash_recovery_code code ∈ recovery_code_hash_candidates typed.
Proof.
  intros Hraw code Htyped. destruct (recovery_encoding raw Hraw) as [Hcan Hlen].
  assert (normalise code = base32_encode raw) as Hcode by by apply normalise_regroup.
  rewrite !elem_of_candidates. unfold hash_recovery_code. rewrite Htyped, Hcode. split; [by left|].
  right. right. split; done.
Qed.

End Codes.

(** ** Issuing tokens *)

Definition NANOS : Z := 10 ^ 9.
Definition API_KEY_JWT_TTL_SECONDS : Z := 3600.

(** [TokenClaims] of [token.rs]. *)
Record IssuedClaims := {
  c_sub : string; c_tenant_id : string; c_policies : list string; c_superuser : bool;
  c_iss : string; c_aud : string; c_iat : Z; c_exp : Z;
}.

(** A signing key: its id and [jsonwebtoken::encode] under it. *)
Record Signer := { signer_kid : string; signer_encode : IssuedClaims -> result string string }.

Record CryptoClient := {
  wrap_secret : string -> string -> string -> result string string;
  unwrap_secret : string -> string -> string -> result string string;
}.

(** [CreateLeaseRequest] for a token. *)
Record TokenLease := {
  tl_tenant_id : string; tl_token_id : string; tl_principal_id : string;
  tl_ttl_seconds : Z; tl_max_ttl_seconds : Z; tl_renewable : bool;
}.

(** The rest of [ApiKeyState]: what the service was started with. [mfa_pool] is
    present exactly when the manager has its database. *)
Record Config := {
  issuer : string;
  audience : string;
  signing_keys : option (option string -> result string Signer);
  hs256_encode : IssuedClaims -> result string string;
  crypto : option CryptoClient;
  lease_rpc : option (TokenLease -> result string string);
}.

Record IdState := { manager : Backend; challenges : ChallengeStore }.

Definition mfa_pool (st : IdState) : option Pg :=
  match st.(manager) with DatabaseBackend db => Some db | MemoryBackend _ _ => None end.

Definition with_db (st : IdState) (db : Pg) : IdState :=
  {| manager := DatabaseBackend db; challenges := st.(challenges) |}.

Inductive MfaBody :=
| MToken (token : string) (expires_at : Z) (tenant_id : string) (policies : list string)
    (lease_id : option string)
| MChallenge (challenge : string) (expires_in_seconds : Z)
| MMessage (message : string)
| MKeyError (code message : string)
| MEnrolled (secret uri : string) (recovery_codes : list string)
| MConfirmed
| MStatus (enrolled confirmed : bool) (confirmed_at : option Z) (total remaining : Z)
| MNoStatus
| MRecoveryCodes (codes : list string).

Definition Reply : Type := Z * MfaBody.

Definition api_key_error (e : ApiKeyError) : Reply :=
  (status_code e, MKeyError (error_code e) (api_key_error_display e)).

Section Handlers.
Context `{Digests}.
Context (sha256 : string -> string) (token_hash : string -> string).
(** [Uuid::parse_str] and the text of its error; [{:?}] on a string. *)
Context (parse_uuid : string -> option string) (uuid_error : string -> string).
Context (debug_str : string -> string).
(** [DateTime::from_timestamp(secs, 0)]. *)
Context (from_timestamp : Z -> option Z).
Context (cfg : Config).

Abbreviation validate := (validate_key sha256 debug_str).

Definition token_claims (now : Z) (subject tenant : string) (policies : list string)
    (superuser : bool) : IssuedClaims :=
  {| c_sub := subject; c_tenant_id := tenant; c_policies := policies; c_superuser := superuser;
     c_iss := cfg.(issuer); c_aud := cfg.(audience); c_iat := now / NANOS;
     c_exp := now / NANOS + API_KEY_JWT_TTL_SECONDS |}.

(** [issue_token] and [issue_token_with_key]: the encoder is the key. *)
Definition issue_token (encode : IssuedClaims -> result string string) (claims : IssuedClaims) :
    result string (string * Z) :=
  expires ← ok_or (from_timestamp claims.(c_exp))
              (display debug_str (Internal "overflow computing token expiry timestamp"));
  match encode claims with
  | Ok token => Ok (token, expires)
  | Err e => Err (display debug_str (Internal ("JWT encoding failed: " +:+ e)))
  end.

Definition issue_for_tenant (now : Z) (subject tenant : string) (policies : list string)
    (superuser : bool) : result string (string * Z) :=
  match cfg.(signing_keys) with
  | None =>
      if superuser then Err "per-tenant signing keys are required to issue a superuser token"
      else issue_token cfg.(hs256_encode) (token_claims now subject tenant policies false)
  | Some signer_for =>
      key_tenant ← if superuser then Ok None
                   else match parse_uuid tenant with
                        | Some u => Ok (Some u)
                        | None => Err ("tenant_id is not a UUID: " +:+ uuid_error tenant)
                        end;
      signer ← signer_for key_tenant;
      issue_token signer.(signer_encode) (token_claims now subject tenant policies superuser)
  end.

Definition TOKEN_LEASE_MAX_TTL_SECONDS : Z := 86400.
Definition TOKEN_LEASE_TTL_SECONDS : Z := 3600.

Definition try_create_token_lease (tenant principal token : string) (ttl_seconds : Z) :
    option string :=
  rpc ← cfg.(lease_rpc);
  let ttl := if 0 <? ttl_seconds then ttl_seconds else TOKEN_LEASE_TTL_SECONDS in
  match rpc {| tl_tenant_id := tenant; tl_token_id := token_hash token;
               tl_principal_id := principal; tl_ttl_seconds := ttl;
               tl_max_ttl_seconds := TOKEN_LEASE_MAX_TTL_SECONDS; tl_renewable := true |} with
  | Ok id => if Str.is_empty id then None else Some id
  | Err _ => None
  end.

Definition token_reply (now : Z) (subject tenant : string) (policies : list string)
    (superuser : bool) : Reply :=
  match issue_for_tenant now subject tenant policies superuser with
  | Err e => api_key_error (TokenIssuance e)
  | Ok (token, expires) =>
      (200, MToken token expires tenant policies
              (try_create_token_lease tenant subject token API_KEY_JWT_TTL_SECONDS))
  end.

(** ** The handlers *)

Definition mfa_scope (io : Io) (i : nat) (tenant : string) : result string () :=
  match parse_uuid (Str.trim tenant) with
  | None => Err ("tenant is not a UUID: " +:+ uuid_error (Str.trim tenant))
  | Some _ => match begin_tx io i with
              | Ok _ => Ok tt
              | Err e => Err ("could not open the tenant scope: " +:+ display debug_str e)
              end
  end.

Definition shown {A} (r : vresult A) : result string A :=
  match r with Ok a => Ok a | Err e => Err (display debug_str e) end.

Definition mfa_enrolment_active (io : Io) (st : IdState) (api_key_id tenant : string) :
    result string bool :=
  match mfa_pool st with
  | None => Ok false
  | Some db =>
      _ ← mfa_scope io 5 tenant;
      e ← shown (MfaStore.find io 6 db api_key_id);
      Ok (match e with Some e => MfaStore.is_active e | None => false end)
  end.

(** [POST /v1/auth/api-key]; [challenge_id] is the fresh UUID of a challenge. *)
Definition handle_auth_api_key (io : Io) (now : Z) (challenge_id : string) (st : IdState)
    (api_key : string) : Reply * IdState :=
  match validate io now st.(manager) api_key with
  | (Err e, m) => (api_key_error e, {| manager := m; challenges := st.(challenges) |})
  | (Ok v, m) =>
      let st := {| manager := m; challenges := st.(challenges) |} in
      if v.(v_mfa_required)
      then match mfa_enrolment_active io st v.(v_key_id) v.(v_tenant_id) with
           | Ok true =>
               let pending := {| p_api_key_id := v.(v_key_id); p_tenant_id := v.(v_tenant_id);
                                 p_policies := v.(v_policies); p_superuser := v.(v_is_superuser);
                                 p_expires_at := challenge_expiry (now / NANOS) |} in
               ((200, MChallenge challenge_id CHALLENGE_TTL_SECONDS),
                {| manager := m;
                   challenges := issue st.(challenges) (now / NANOS) challenge_id pending |})
           | Ok false => ((403, MMessage ("this key requires an authenticator; "
                                          +:+ "enrol one via /v1/auth/mfa/totp/enroll")), st)
           | Err _ => ((503, MMessage "could not verify the second factor"), st)
           end
      else (token_reply now v.(v_key_id) v.(v_tenant_id) v.(v_policies) v.(v_is_superuser), st)
  end.

Definition totp_aad (api_key_id : string) : string := "wslvault:mfa:totp:" +:+ api_key_id.

(** The factor a code proves, consumed in the open transaction: call [i]. *)
Definition consume_factor (io : Io) (i : nat) (now : Z) (db : Pg) (key secret code : string) :
    vresult (bool * Pg) :=
  match verify_code secret code (now / NANOS) with
  | Some step => MfaStore.try_consume_step io i db key step
  | None => MfaStore.consume_recovery_code io i now db key (recovery_code_hash_candidates code)
  end.

Definition enrolment_secret (client : CryptoClient) (enrolment : TotpEnrolment) (key : string) :
    result string string :=
  bytes ← client.(unwrap_secret) enrolment.(e_tenant_id) enrolment.(wrapped_secret) (totp_aad key);
  if Str.utf8_valid bytes then Ok bytes else Err "stored TOTP secret is not valid UTF-8".

(** [verify_second_factor]: its own transaction, calls 2 to 4, on the tables as
    they are when it runs. *)
Definition verify_second_factor (io : Io) (now : Z) (client : CryptoClient)
    (enrolment : TotpEnrolment) (pending : PendingChallenge) (code : string) (db : Pg) :
    result string bool * Pg :=
  let run :=
    (secret ← enrolment_secret client enrolment pending.(p_api_key_id);
     _ ← mfa_scope io 2 pending.(p_tenant_id);
     '(ok, db') ← shown (consume_factor io 3 now db pending.(p_api_key_id) secret code);
     _ ← shown (commit io 4);
     Ok (ok, db')) in
  match run with Ok (ok, db') => (Ok ok, db') | Err e => (Err e, db) end.

(** [POST /v1/auth/mfa/totp]. The enrolment is read in one transaction and the
    factor consumed in another; [between] is what other requests did to the
    tables in the meantime. *)
Definition handle_mfa_verify (io : Io) (between : Pg -> Pg) (now : Z) (st : IdState)
    (challenge code : string) : Reply * IdState :=
  let '(taken, remaining) := take st.(challenges) (now / NANOS) challenge in
  let st := {| manager := st.(manager); challenges := remaining |} in
  match taken with
  | None => ((403, MMessage "challenge is unknown or expired"), st)
  | Some pending =>
  match mfa_pool st, cfg.(crypto) with
  | Some db, Some client =>
      match mfa_scope io 0 pending.(p_tenant_id) with
      | Err _ => ((500, MMessage "MFA is temporarily unavailable"), st)
      | Ok _ =>
      match MfaStore.find io 1 db pending.(p_api_key_id) with
      | Err _ => ((503, MMessage "could not verify the second factor"), st)
      | Ok None => ((403, MMessage "no confirmed authenticator for this key"), st)
      | Ok (Some enrolment) =>
          if negb (MfaStore.is_active enrolment)
          then ((403, MMessage "no confirmed authenticator for this key"), st)
          else
            let '(accepted, db') :=
              verify_second_factor io now client enrolment pending code (between db) in
            let st := with_db st db' in
            match accepted with
            | Err _ => ((503, MMessage "could not verify the second factor"), st)
            | Ok false => ((403, MMessage "invalid or already-used code"), st)
            | Ok true =>
                (token_reply now pending.(p_api_key_id) pending.(p_tenant_id)
                   pending.(p_policies) pending.(p_superuser), st)
            end
      end end
  | _, _ => ((503, MMessage "MFA is not configured"), st)
  end end.

(** [POST /v1/auth/mfa/totp/enroll]. *)
Definition handle_mfa_enroll (io : Io) (now : Z) (rng : option string)
    (code_rng : nat -> option string) (st : IdState) (api_key : string) : Reply * IdState :=
  match validate io now st.(manager) api_key with
  | (Err e, m) => (api_key_error e, {| manager := m; challenges := st.(challenges) |})
  | (Ok v, m) =>
  let st := {| manager := m; challenges := st.(challenges) |} in
  match mfa_pool st, cfg.(crypto) with
  | Some db, Some client =>
      match parse_uuid v.(v_tenant_id) with
      | None => ((400, MMessage ("tenant is not a UUID: " +:+ uuid_error v.(v_tenant_id))), st)
      | Some tenant_uuid =>
      match generate_secret rng with
      | Err _ => ((500, MMessage "could not generate a secret"), st)
      | Ok secret =>
      match client.(wrap_secret) v.(v_tenant_id) secret (totp_aad v.(v_key_id)) with
      | Err e => ((503, MMessage ("could not store the secret: " +:+ e)), st)
      | Ok wrapped =>
      match mfa_scope io 5 v.(v_tenant_id) with
      | Err _ => ((500, MMessage "MFA is temporarily unavailable"), st)
      | Ok _ =>
      match MfaStore.upsert_pending io 6 db v.(v_key_id) tenant_uuid wrapped with
      | Err e => ((409, MMessage (display debug_str e)), st)
      | Ok db1 =>
      match generate_recovery_codes code_rng 0 8 with
      | Err _ => ((500, MMessage "could not generate recovery codes"), st)
      | Ok codes =>
      match MfaStore.replace_recovery_codes io 7 db1 v.(v_key_id) tenant_uuid codes.*2 with
      | Err _ => ((503, MMessage "could not store recovery codes"), st)
      | Ok db2 =>
      match commit io 16 with
      | Err _ => ((503, MMessage "could not store the enrolment"), st)
      | Ok _ => ((200, MEnrolled secret (otpauth_uri secret v.(v_key_id) "WSLVault") codes.*1),
                 with_db st db2)
      end end end end end end end end
  | _, _ => ((503, MMessage "MFA is not configured"), st)
  end end.

(** [POST /v1/auth/mfa/totp/confirm]. *)
Definition handle_mfa_confirm (io : Io) (now : Z) (st : IdState) (api_key code : string) :
    Reply * IdState :=
  match validate io now st.(manager) api_key with
  | (Err e, m) => (api_key_error e, {| manager := m; challenges := st.(challenges) |})
  | (Ok v, m) =>
  let st := {| manager := m; challenges := st.(challenges) |} in
  match mfa_pool st, cfg.(crypto) with
  | Some db, Some client =>
      match mfa_scope io 5 v.(v_tenant_id) with
      | Err _ => ((500, MMessage "MFA is temporarily unavailable"), st)
      | Ok _ =>
      match MfaStore.find io 6 db v.(v_key_id) with
      | Err _ => ((503, MMessage "could not read the enrolment"), st)
      | Ok None => ((404, MMessage "no enrolment in progress"), st)
      | Ok (Some enrolment) =>
      match enrolment_secret client enrolment v.(v_key_id) with
      | Err _ => ((503, MMessage "could not read the enrolment secret"), st)
      | Ok secret =>
      match verify_code secret code (now / NANOS) with
      | None => ((403, MMessage "that code does not match the enrolment"), st)
      | Some step =>
      match MfaStore.confirm io 7 8 now db v.(v_key_id) step with
      | Err _ => ((503, MMessage "could not confirm the enrolment"), st)
      | Ok db' =>
      match commit io 9 with
      | Err _ => ((503, MMessage "could not confirm the enrolment"), st)
      | Ok _ => ((200, MConfirmed), with_db st db')
      end end end end end end
  | _, _ => ((503, MMessage "MFA is not configured"), st)
  end end.

(** [GET /v1/auth/mfa/totp/status]; [who] is what [resolve_identity] answered. *)
Definition handle_mfa_status (io : Io) (st : IdState) (who : result AuthFailure Identity) : Reply :=
  match who with
  | Err e => (401, MMessage e)
  | Ok who =>
  match parse_uuid who.(principal_id) with
  | None => (200, MNoStatus)
  | Some key_id =>
  match mfa_pool st with
  | None => (503, MMessage "MFA is not configured")
  | Some db =>
  match mfa_scope io 0 who.(tenant_id) with
  | Err _ => (500, MMessage "MFA is temporarily unavailable")
  | Ok _ =>
  match MfaStore.find io 1 db key_id with
  | Err _ => (503, MMessage "could not read the enrolment")
  | Ok enrolment =>
      let confirmed := enrolment ≫= confirmed_at in
      let '(total, unused) :=
        if bool_decide (is_Some confirmed)
        then match MfaStore.count_recovery_codes io 2 db key_id with Ok c => c | Err _ => (0, 0) end
        else (0, 0) in
      (200, MStatus (bool_decide (is_Some enrolment)) (bool_decide (is_Some confirmed)) confirmed
              total unused)
  end end end end end.

(** [POST /v1/auth/mfa/totp/recovery-codes]. *)
Definition handle_mfa_recovery_codes (io : Io) (now : Z) (code_rng : nat -> option string)
    (st : IdState) (api_key code : string) : Reply * IdState :=
  match validate io now st.(manager) api_key with
  | (Err e, m) => (api_key_error e, {| manager := m; challenges := st.(challenges) |})
  | (Ok v, m) =>
  let st := {| manager := m; challenges := st.(challenges) |} in
  match mfa_pool st, cfg.(crypto) with
  | Some db, Some client =>
      match parse_uuid v.(v_tenant_id) with
      | None => ((500, MMessage "malformed tenant on this key"), st)
      | Some tenant_uuid =>
      match mfa_scope io 5 v.(v_tenant_id) with
      | Err _ => ((500, MMessage "MFA is temporarily unavailable"), st)
      | Ok _ =>
      match MfaStore.find io 6 db v.(v_key_id) with
      | Err _ => ((503, MMessage "could not read the enrolment"), st)
      | Ok None => ((404, MMessage ("this key has no confirmed authenticator, so it has no "
                                    +:+ "recovery codes to replace")), st)
      | Ok (Some enrolment) =>
      if negb (MfaStore.is_active enrolment)
      then ((404, MMessage ("this key has no confirmed authenticator, so it has no recovery "
                            +:+ "codes to replace")), st)
      else
      match enrolment_secret client enrolment v.(v_key_id) with
      | Err _ => ((503, MMessage "could not read the enrolment secret"), st)
      | Ok secret =>
      match consume_factor io 7 now db v.(v_key_id) secret code with
      | Err _ => ((503, MMessage "could not verify the code"), st)
      | Ok (false, _) => ((403, MMessage ("that code was not accepted — supply a current code "
                            +:+ "from your authenticator app, or one of your remaining recovery "
                            +:+ "codes")), st)
      | Ok (true, db1) =>
      match generate_recovery_codes code_rng 0 8 with
      | Err _ => ((500, MMessage "could not generate recovery codes"), st)
      | Ok codes =>
      match MfaStore.replace_recovery_codes io 8 db1 v.(v_key_id) tenant_uuid codes.*2 with
      | Err _ => ((503, MMessage "could not store the new recovery codes"), st)
      | Ok db2 =>
      match commit io 17 with
      | Err _ => ((503, MMessage "could not store the new recovery codes"), st)
      | Ok _ => ((200, MRecoveryCodes codes.*1), with_db st db2)
      end end end end end end end end
  | _, _ => ((503, MMessage "MFA is not configured"), st)
  end end.

End Handlers.

(** ** What the handlers do to the tables *)

(** A confirmed enrolment stays, keeps its secret and never forgets a step. *)
Definition steps_keep (db db' : Pg) : Prop :=
  forall key e, db.(mfa_totp) !! key = Some e -> MfaStore.is_active e = true ->
  exists e', db'.(mfa_totp) !! key = Some e' /\ e'.(e_tenant_id) = e.(e_tenant_id) /\
    e'.(wrapped_secret) = e.(wrapped_secret) /\ MfaStore.is_active e' = true /\
    e.(last_used_step) <= e'.(last_used_step).

#[global] Instance steps_keep_preorder : PreOrder steps_keep.
Proof.
  split; [intros db key e He Ha; exists e; repeat split; (done || lia)|].
  intros d1 d2 d3 H12 H23 key e He Ha. destruct (H12 _ _ He Ha) as (f & Hf & Ht & Hw & Hfa & Hl).
  destruct (H23 _ _ Hf Hfa) as (g & Hg & ? & ? & ? & ?). exists g.
  repeat split; (congruence || done || lia).
Qed.

Lemma sound_change_same db db' : db'.(api_keys) = db.(api_keys) -> sound_change db db'.
Proof.
  intros Heq. unfold sound_change, keys_wf, keys_evolve. rewrite Heq. intros Hwf.
  split; [done|]. intros id r Hr. by exists r.
Qed.

Lemma steps_keep_same db db' : db'.(mfa_totp) = db.(mfa_totp) -> steps_keep db db'.
Proof. intros Heq key e. rewrite Heq. intros He Ha. exists e. repeat split; (done || lia). Qed.

(** Without a confirmation both hold; with one, the first. *)
Definition tables_change (confirms : bool) (db db' : Pg) : Prop :=
  sound_change db db' /\ (confirms = false -> steps_keep db db').

#[global] Instance tables_change_preorder c : PreOrder (tables_change c).
Proof.
  split; [by intros db; split|]. intros d1 d2 d3 [? H12] [? H23].
  split; [by transitivity d2|]. intros Hc. transitivity d2; auto.
Qed.

Lemma tables_change_weaken c db db' : tables_change false db db' -> tables_change c db db'.
Proof. intros [? ?]. split; auto. Qed.

Lemma upsert_pending_change io i db key tenant w db' :
  MfaStore.upsert_pending io i db key tenant w = Ok db' -> tables_change false db db'.
Proof.
  unfold MfaStore.upsert_pending, call. destruct (io i); [done|]. cbn.
  destruct (mfa_totp db !! key) as [old|] eqn:Hold; [case_bool_decide as Hc; [|done]|];
    intros [= <-]; (split; [by apply sound_change_same|]); intros _ k e He Ha; cbn.
  all: destruct (decide (k = key)) as [->|Hk];
    [|rewrite lookup_insert_ne by done; exists e; repeat split; (done || lia)].
  - exfalso. rewrite Hold in He. injection He as ->. unfold MfaStore.is_active in Ha.
    rewrite Hc in Ha. by rewrite bool_decide_false in Ha by by intros [].
  - congruence.
Qed.

Lemma insert_codes_tables io i db key tenant hashes db' :
  MfaStore.insert_codes io i db key tenant hashes = Ok db' ->
  db'.(api_keys) = db.(api_keys) /\ db'.(mfa_totp) = db.(mfa_totp).
Proof.
  revert i db. induction hashes as [|h hashes IH]; intros i db; cbn; [by intros [= <-]|].
  destruct (io i); [done|]. destruct (existsb _ _); [done|]. by intros [-> ->]%IH.
Qed.

Lemma replace_recovery_codes_change io i db key tenant hashes db' :
  MfaStore.replace_recovery_codes io i db key tenant hashes = Ok db' ->
  tables_change false db db'.
Proof.
  unfold MfaStore.replace_recovery_codes, call. destruct (io i); [done|].
  intros [Hk Hm]%insert_codes_tables.
  split; [by apply sound_change_same|intros _; by apply steps_keep_same].
Qed.

Lemma confirm_change io i j now db key step db' :
  MfaStore.confirm io i j now db key step = Ok db' -> sound_change db db'.
Proof.
  unfold MfaStore.confirm, call. destruct (io i); [done|]. cbn.
  destruct (mfa_totp db !! key) as [e|]; [|done]. destruct (io j); [done|]. intros [= <-] Hwf.
  unfold keys_wf, keys_evolve. cbn [with_api_keys api_keys].
  destruct (api_keys db !! key) as [r|] eqn:Hr.
  - destruct (update_row db key r (ApiKeyStore.set_mfa_required r) Hwf Hr
                (set_mfa_required_evolves r)) as [Hwf' Hev].
    cbn in *. assert (alter ApiKeyStore.set_mfa_required key (api_keys db)
      = <[key := ApiKeyStore.set_mfa_required r]> (api_keys db)) as ->; [|done].
    apply map_eq. intros k. destruct (decide (k = key)) as [->|Hk].
    + by rewrite lookup_alter_eq, lookup_insert_eq, Hr.
    + by rewrite lookup_alter_ne, lookup_insert_ne.
  - rewrite alter_id by by intros ? ?%(eq_trans (eq_sym Hr)).
    split; [done|]. intros id q Hq. by exists q.
Qed.

Section Properties.
Context `{Digests}.
Context (sha256 : string -> string) (token_hash : string -> string).
Context (parse_uuid : string -> option string) (uuid_error debug_str : string -> string).
Context (from_timestamp : Z -> option Z) (cfg : Config).
Context (b64url_encode : string -> string) (add_seconds : Z -> Z -> option Z).

Abbreviation validate := (validate_key sha256 debug_str).
Abbreviation login := (handle_auth_api_key sha256 token_hash parse_uuid uuid_error debug_str
                         from_timestamp cfg).
Abbreviation verify := (handle_mfa_verify token_hash parse_uuid uuid_error debug_str
                          from_timestamp cfg).
Abbreviation enroll := (handle_mfa_enroll sha256 parse_uuid uuid_error debug_str cfg).
Abbreviation confirm := (handle_mfa_confirm sha256 parse_uuid uuid_error debug_str cfg).
Abbreviation reissue := (handle_mfa_recovery_codes sha256 parse_uuid uuid_error debug_str cfg).
Abbreviation second_factor := (verify_second_factor parse_uuid uuid_error debug_str).

(** A factor of the key was valid and has been spent: a TOTP step above every
    step used before, now recorded; or unused recovery codes, now used. *)
Definition factor_spent (now : Z) (db db' : Pg) (key secret code : string) : Prop :=
  (exists step e, verify_code secret code (now / NANOS) = Some step /\
     db.(mfa_totp) !! key = Some e /\ e.(last_used_step) < step /\
     db' = with_mfa_totp db (<[key := MfaStore.set_step step e]> db.(mfa_totp))) \/
  (verify_code secret code (now / NANOS) = None /\
   (exists c, c ∈ db.(recovery_codes) /\ c.(rc_api_key_id) = key /\ c.(used_at) = None /\
      c.(code_hash) ∈ recovery_code_hash_candidates code) /\
   db' = with_recovery_codes db
           (MfaStore.spend now key (recovery_code_hash_candidates code) <$> db.(recovery_codes))).

Lemma consume_factor_spent io i now db key secret code db' :
  consume_factor io i now db key secret code = Ok (true, db') ->
  factor_spent now db db' key secret code.
Proof.
  unfold consume_factor, factor_spent.
  destruct (verify_code secret code (now / NANOS)) as [step|].
  - unfold MfaStore.try_consume_step, call. destruct (io i); [done|].
    destruct (mfa_totp db !! key) as [e|]; [|done].
    destruct (Z.ltb_spec (last_used_step e) step); intros [= <-]. left. eauto 10.
  - unfold MfaStore.consume_recovery_code, call. destruct (io i); [done|].
    intros [= Hex <-]. right. split; [done|]. split; [|done].
    apply existsb_exists in Hex as (c & Hin & Hc). unfold MfaStore.spends in Hc. bools.
    exists c. rewrite list_elem_of_In. eauto.
Qed.

Lemma set_step_keep db key e step :
  db.(mfa_totp) !! key = Some e -> e.(last_used_step) <= step ->
  steps_keep db (with_mfa_totp db (<[key := MfaStore.set_step step e]> db.(mfa_totp))).
Proof.
  intros He Hle k f Hf Ha. cbn. destruct (decide (k = key)) as [->|Hk].
  - rewrite lookup_insert_eq. eexists. split; [done|].
    rewrite He in Hf. injection Hf as ->. by repeat split.
  - rewrite lookup_insert_ne by done. exists f. repeat split; (done || lia).
Qed.

Lemma consume_factor_change io i now db key secret code ok db' :
  consume_factor io i now db key secret code = Ok (ok, db') -> tables_change false db db'.
Proof.
  intros Hc. destruct ok.
  - destruct (consume_factor_spent _ _ _ _ _ _ _ _ Hc)
      as [(step & e & _ & He & Hlt & ->)|(_ & _ & ->)]; split; try by apply sound_change_same.
    + intros _. apply set_step_keep; [done|lia].
    + intros _. by apply steps_keep_same.
  - unfold consume_factor, MfaStore.try_consume_step, MfaStore.consume_recovery_code, call in Hc.
    destruct (verify_code secret code (now / NANOS)), (io i); try done.
    + destruct (mfa_totp db !! key); [destruct (_ <? _)|]; by simplify_eq.
    + injection Hc as _ <-. split; [by apply sound_change_same|intros _; by apply steps_keep_same].
Qed.

Lemma stamp_change_tables io now db r : tables_change false db (stamp io now db r).
Proof.
  destruct (stamp_change io now db r). split; [done|]. intros _. by apply steps_keep_same.
Qed.

Lemma validate_tables io now db raw :
  exists db', (validate io now (DatabaseBackend db) raw).2 = DatabaseBackend db' /\
    tables_change false db db'.
Proof.
  unfold validate_key. destruct (parse_key_random_portion raw); [|by exists db].
  destruct (stored _ _ ≫= _) as [row|e]; [|by exists db].
  exists (stamp io now db row). split; [done|apply stamp_change_tables].
Qed.

Lemma second_factor_change io now client e p code db :
  tables_change false db (second_factor io now client e p code db).2.
Proof.
  unfold verify_second_factor.
  match goal with |- context [match ?r with Ok _ => _ | Err _ => _ end] =>
    destruct r as [[ok db']|err] eqn:Hr end; [|done].
  apply result_bind_ok in Hr as (secret & _ & Hr). apply result_bind_ok in Hr as (_ & _ & Hr).
  apply result_bind_ok in Hr as ([ok' d] & Hd & Hr).
  apply result_bind_ok in Hr as (_ & _ & [= <- <-]). cbn.
  unfold shown in Hd. destruct (consume_factor _ _ _ _ _ _ _) eqn:Hc; simplify_eq.
  by eapply consume_factor_change.
Qed.

(** What other requests may have done between two transactions of one handler. *)
Definition quiet (confirms : bool) (f : Pg -> Pg) : Prop :=
  forall db, tables_change confirms db (f db).

Definition state_change (c : bool) (st st' : IdState) : Prop :=
  match st.(manager), st'.(manager) with
  | DatabaseBackend db, DatabaseBackend db' => tables_change c db db'
  | MemoryBackend _ _, MemoryBackend _ _ => True
  | _, _ => False
  end.

Lemma login_change io now cid st key : state_change false st (login io now cid st key).2.
Proof.
  unfold handle_auth_api_key, state_change. destruct st as [[db|m ids] ch]; cbn [manager challenges].
  - destruct (validate_tables io now db key) as (db' & Hm & Hc).
    destruct (validate io now (DatabaseBackend db) key) as [[v|e] m']; cbn in Hm; subst m'; [|done].
    destruct (v_mfa_required v); [|done].
    by destruct (mfa_enrolment_active _ _ _ _ _ _ _) as [[]|].
  - pose proof (validate_change sha256 debug_str io now (MemoryBackend m ids) key) as Hm.
    destruct (validate io now (MemoryBackend m ids) key) as [[v|e] [|]]; cbn in Hm; try done.
    destruct (v_mfa_required v); [|done].
    by destruct (mfa_enrolment_active _ _ _ _ _ _ _) as [[]|].
Qed.

Lemma verify_change c io between now st ch code :
  quiet c between -> state_change c st (verify io between now st ch code).2.
Proof.
  intros Hq. unfold handle_mfa_verify, state_change, mfa_pool.
  destruct (take (challenges st) (now / NANOS) ch) as [[p|] left].
  2: by destruct st as [[] ?].
  destruct st as [[db|m ids] store]; cbn [manager challenges]; [|done].
  destruct (crypto cfg) as [client|]; [|done].
  destruct (mfa_scope _ _ _ _ _ _); [|done].
  destruct (MfaStore.find io 1 db (p_api_key_id p)) as [[e|]|]; [|done..].
  destruct (negb _); [done|].
  pose proof (second_factor_change io now client e p code (between db)) as Hs.
  destruct (second_factor io now client e p code (between db)) as [res db']. cbn in Hs.
  assert (tables_change c db db')
    by (etransitivity; [apply Hq|by apply tables_change_weaken]).
  by destruct res as [[]|].
Qed.

(** The handlers that begin by validating the key. *)
Ltac validated io now db key :=
  let db' := fresh "db'" in let Hm := fresh "Hm" in
  destruct (validate_tables io now db key) as (db' & Hm & Hval);
  destruct (validate io now (DatabaseBackend db) key) as [[v|e] m'];
  cbn in Hm; subst m'; [cbn [manager challenges]|try done].

Ltac memory_backend io now m ids key :=
  pose proof (validate_change sha256 debug_str io now (MemoryBackend m ids) key) as Hmem;
  destruct (validate io now (MemoryBackend m ids) key) as [[v|e] [|]]; cbn in Hmem; done.

Lemma enroll_change io now rng rngs st key :
  state_change false st (enroll io now rng rngs st key).2.
Proof.
  unfold handle_mfa_enroll, state_change, mfa_pool.
  destruct st as [[db|m ids] ch]; cbn [manager challenges]; [|memory_backend io now m ids key].
  validated io now db key. destruct (crypto cfg) as [client|]; [|done].
  destruct (parse_uuid (v_tenant_id v)) as [u|]; [|done].
  destruct (generate_secret rng) as [secret|]; [|done].
  destruct (wrap_secret _ _ _ _) as [w|]; [|done].
  destruct (mfa_scope _ _ _ _ _ _); [|done].
  destruct (MfaStore.upsert_pending _ _ _ _ _ _) as [d1|] eqn:H1; [|done].
  destruct (generate_recovery_codes _ _ _) as [codes|]; [|done].
  destruct (MfaStore.replace_recovery_codes _ _ _ _ _ _) as [d2|] eqn:H2; [|done].
  destruct (commit io 16); [|done]. cbn.
  etransitivity; [done|]. etransitivity; [by eapply upsert_pending_change|].
  by eapply replace_recovery_codes_change.
Qed.

Lemma reissue_change io now rngs st key code :
  state_change false st (reissue io now rngs st key code).2.
Proof.
  unfold handle_mfa_recovery_codes, state_change, mfa_pool.
  destruct st as [[db|m ids] ch]; cbn [manager challenges]; [|memory_backend io now m ids key].
  validated io now db key. destruct (crypto cfg) as [client|]; [|done].
  destruct (parse_uuid (v_tenant_id v)) as [u|]; [|done].
  destruct (mfa_scope _ _ _ _ _ _); [|done].
  destruct (MfaStore.find _ _ _ _) as [[e|]|]; [|done..]. destruct (negb _); [done|].
  destruct (enrolment_secret client e (v_key_id v)) as [secret|]; [|done].
  destruct (consume_factor _ _ _ _ _ _ _) as [[[] d1]|] eqn:H1; [|done..].
  destruct (generate_recovery_codes _ _ _) as [codes|]; [|done].
  destruct (MfaStore.replace_recovery_codes _ _ _ _ _ _) as [d2|] eqn:H2; [|done].
  destruct (commit io 17); [|done]. cbn.
  etransitivity; [done|]. etransitivity; [by eapply consume_factor_change|].
  by eapply replace_recovery_codes_change.
Qed.

Lemma handle_confirm_change io now st key code :
  state_change true st (confirm io now st key code).2.
Proof.
  unfold handle_mfa_confirm, state_change, mfa_pool.
  destruct st as [[db|m ids] ch]; cbn [manager challenges]; [|memory_backend io now m ids key].
  validated io now db key; [|by apply tables_change_weaken].
  apply (tables_change_weaken true) in Hval. destruct (crypto cfg) as [client|]; [|done].
  destruct (mfa_scope _ _ _ _ _ _); [|done].
  destruct (MfaStore.find _ _ _ _) as [[e|]|]; [|done..].
  destruct (enrolment_secret client e (v_key_id v)) as [secret|]; [|done].
  destruct (verify_code _ _ _) as [step|]; [|done].
  destruct (MfaStore.confirm _ _ _ _ _ _ _) as [d1|] eqn:H1; [|done].
  destruct (commit io 9); [|done]. cbn. etransitivity; [done|].
  split; [by eapply confirm_change|done].
Qed.

(** The service at work: logins, second factors, enrolments, reissued codes and
    key management; and, where [confirms] is set, confirmations. *)
Inductive id_step (confirms : bool) : IdState -> IdState -> Prop :=
| step_login io now cid st key : id_step confirms st (login io now cid st key).2
| step_verify io between now st ch code :
    quiet confirms between -> id_step confirms st (verify io between now st ch code).2
| step_enroll io now rng rngs st key : id_step confirms st (enroll io now rng rngs st key).2
| step_reissue io now rngs st key code :
    id_step confirms st (reissue io now rngs st key code).2
| step_manage auth io fresh now st headers req :
    id_step confirms st
      {| manager := (serve sha256 b64url_encode parse_uuid add_seconds debug_str auth io fresh now
                       st.(manager) headers req).2;
         challenges := st.(challenges) |}
| step_confirm io now st key code :
    confirms = true -> id_step confirms st (confirm io now st key code).2.

Lemma state_change_weaken c st st' : state_change false st st' -> state_change c st st'.
Proof.
  unfold state_change. destruct (manager st), (manager st'); try done. apply tables_change_weaken.
Qed.

Lemma id_step_change c st st' : id_step c st st' -> state_change c st st'.
Proof.
  destruct 1 as [| | | |auth io fr now st headers req|? ? ? ? ? ->].
  - apply state_change_weaken, login_change.
  - by apply verify_change.
  - apply state_change_weaken, enroll_change.
  - apply state_change_weaken, reissue_change.
  - apply state_change_weaken. unfold state_change. cbn [manager].
    pose proof (serve_change sha256 b64url_encode parse_uuid add_seconds debug_str auth io fr now
                  (manager st) headers req) as Hs.
    destruct (manager st), (snd _); try done. destruct Hs. split; [done|].
    intros _. by apply steps_keep_same.
  - apply handle_confirm_change.
Qed.

Lemma id_steps_change c db chs st' :
  rtc (id_step c) {| manager := DatabaseBackend db; challenges := chs |} st' ->
  exists db', st'.(manager) = DatabaseBackend db' /\ tables_change c db db'.
Proof.
  intros Hr. remember {| manager := DatabaseBackend db; challenges := chs |} as st eqn:Est.
  assert (st.(manager) = DatabaseBackend db) as Hm by by subst. clear Est.
  revert db Hm. induction Hr as [st|st st1 st2 Hs _ IH]; intros db Hm; [by exists db|].
  apply id_step_change in Hs. unfold state_change in Hs. rewrite Hm in Hs.
  destruct (manager st1) as [db1|] eqn:H1; [|done].
  destruct (IH db1 eq_refl) as (db2 & ? & ?). exists db2. split; [done|]. by transitivity db1.
Qed.

(** *** Challenges speak for their key *)

Definition challenge_backed (db : Pg) (p : PendingChallenge) : Prop :=
  exists r, db.(api_keys) !! p.(p_api_key_id) = Some r /\
    r.(row_tenant_id) = p.(p_tenant_id) /\ r.(row_policies) = p.(p_policies) /\
    r.(is_superuser) = p.(p_superuser) /\ r.(mfa_required) = true.

Definition all_backed (db : Pg) (chs : ChallengeStore) : Prop :=
  map_Forall (fun _ p => challenge_backed db p) chs.

Definition state_sound (st : IdState) : Prop :=
  match st.(manager) with
  | DatabaseBackend db => keys_wf db /\ all_backed db st.(challenges)
  | MemoryBackend _ _ => False
  end.

Lemma backed_evolves db db' chs : keys_evolve db db' -> all_backed db chs -> all_backed db' chs.
Proof.
  intros Hev Hb id p Hp. destruct (Hb _ _ Hp) as (r & Hr & ? & ? & ? & ?).
  destruct (Hev _ _ Hr) as (s & Hs & _ & ? & _ & _ & ? & _ & ? & ? & _).
  exists s. repeat split; try congruence; auto.
Qed.

(** A step keeps the store sound as soon as every challenge in it is backed by
    the tables as they were. *)
Lemma sound_by_change c st st' :
  state_sound st -> state_change c st st' ->
  (forall db, st.(manager) = DatabaseBackend db -> all_backed db st'.(challenges)) ->
  state_sound st'.
Proof.
  unfold state_sound, state_change. destruct (manager st) as [db|], (manager st') as [db'|]; try done.
  intros [Hwf _] [Hs _] Hb. destruct (Hs Hwf) as [Hwf' Hev]. split; [done|].
  eapply backed_evolves; [done|]. by apply Hb.
Qed.

Lemma validated_backed io now db key v t :
  keys_wf db -> (validate io now (DatabaseBackend db) key).1 = Ok v -> v.(v_mfa_required) = true ->
  challenge_backed db {| p_api_key_id := v.(v_key_id); p_tenant_id := v.(v_tenant_id);
                         p_policies := v.(v_policies); p_superuser := v.(v_is_superuser);
                         p_expires_at := t |}.
Proof.
  intros Hwf (r & Hr & -> & _)%validate_db_ok Hm; [|done]. exists r. by repeat split.
Qed.

Lemma login_challenges io now cid st key :
  state_sound st -> forall db, st.(manager) = DatabaseBackend db ->
  all_backed db (login io now cid st key).2.(challenges).
Proof.
  unfold state_sound. intros Hst db Hdb. rewrite Hdb in Hst. destruct Hst as [Hwf Hb].
  unfold handle_auth_api_key. rewrite Hdb.
  destruct (validate io now (DatabaseBackend db) key) as [[v|e] m] eqn:Hv; [|done].
  destruct (v_mfa_required v) eqn:Hm; [|done].
  destruct (mfa_enrolment_active _ _ _ _ _ _ _) as [[]|]; try done. cbn.
  apply map_Forall_insert_2; [eapply validated_backed; [done|by rewrite Hv|done]|].
  intros id p [Hp _]%map_lookup_filter_Some. by eapply Hb.
Qed.

Lemma take_backed db chs now id :
  all_backed db chs -> all_backed db (take chs now id).2.
Proof. unfold take. destruct (chs !! id); [|done]. cbn. apply map_Forall_delete. Qed.

Lemma verify_challenges io between now st ch code :
  (verify io between now st ch code).2.(challenges) = (take st.(challenges) (now / NANOS) ch).2.
Proof.
  unfold handle_mfa_verify. destruct (take _ _ _) as [[p|] rest]; [|done].
  destruct (mfa_pool _), (crypto cfg); try done. destruct (mfa_scope _ _ _ _ _ _); [|done].
  destruct (MfaStore.find _ _ _ _) as [[e|]|]; try done. destruct (negb _); [done|].
  by destruct (second_factor _ _ _ _ _ _ _) as [[[]|] ?].
Qed.

Lemma enroll_challenges io now rng rngs st key :
  (enroll io now rng rngs st key).2.(challenges) = st.(challenges).
Proof. unfold handle_mfa_enroll. by repeat case_match. Qed.

Lemma reissue_challenges io now rngs st key code :
  (reissue io now rngs st key code).2.(challenges) = st.(challenges).
Proof. unfold handle_mfa_recovery_codes. by repeat case_match. Qed.

Lemma confirm_challenges io now st key code :
  (confirm io now st key code).2.(challenges) = st.(challenges).
Proof. unfold handle_mfa_confirm. by repeat case_match. Qed.

Lemma id_step_sound c st st' : id_step c st st' -> state_sound st -> state_sound st'.
Proof.
  intros Hs Hst. apply (sound_by_change c st st' Hst (id_step_change _ _ _ Hs)).
  intros db Hdb. assert (all_backed db st.(challenges)) as Hb.
  { unfold state_sound in Hst. rewrite Hdb in Hst. apply Hst. }
  destruct Hs; rewrite ?verify_challenges, ?enroll_challenges, ?reissue_challenges,
    ?confirm_challenges; try done.
  - by apply login_challenges.
  - by apply take_backed.
Qed.

Lemma id_steps_sound c st st' : rtc (id_step c) st st' -> state_sound st -> state_sound st'.
Proof. induction 1; [done|]. intros. by eauto using id_step_sound. Qed.

(** *** The two ways to a token *)

(** A token signed over exactly these claims: without signing keys of the tenants
    by the shared key, and then not for a superuser; with them by the key of the
    tenant, or by the key of the platform for a superuser. *)
Definition signed_over (claims : IssuedClaims) (tok : string) : Prop :=
  match cfg.(signing_keys) with
  | None => claims.(c_superuser) = false /\ cfg.(hs256_encode) claims = Ok tok
  | Some signer_for =>
      exists signer, signer.(signer_encode) claims = Ok tok /\
        if claims.(c_superuser) then signer_for None = Ok signer
        else exists u, parse_uuid claims.(c_tenant_id) = Some u /\ signer_for (Some u) = Ok signer
  end.

(** A token for the key [id] with the authority of its row, for an hour. *)
Definition carries (now : Z) (id : string) (r : ApiKeyRow) (tok : string) : Prop :=
  signed_over {| c_sub := id; c_tenant_id := r.(row_tenant_id); c_policies := r.(row_policies);
                 c_superuser := r.(is_superuser); c_iss := cfg.(issuer); c_aud := cfg.(audience);
                 c_iat := now / NANOS; c_exp := now / NANOS + 3600 |} tok.

Lemma issue_token_signs encode claims tok ex :
  issue_token debug_str from_timestamp encode claims = Ok (tok, ex) -> encode claims = Ok tok.
Proof.
  unfold issue_token. intros (e & _ & Hi)%result_bind_ok. destruct (encode claims); [|done]. by injection Hi as ->.
Qed.

Lemma token_reply_token now subject tenant policies su tok ex ten pol lease :
  token_reply token_hash parse_uuid uuid_error debug_str from_timestamp cfg now subject tenant
    policies su = (200, MToken tok ex ten pol lease) ->
  ten = tenant /\ pol = policies /\
  signed_over {| c_sub := subject; c_tenant_id := tenant; c_policies := policies; c_superuser := su;
                 c_iss := cfg.(issuer); c_aud := cfg.(audience); c_iat := now / NANOS;
                 c_exp := now / NANOS + 3600 |} tok.
Proof.
  unfold token_reply. destruct (issue_for_tenant _ _ _ _ _ _ _ _ _ _) as [[tk x]|] eqn:Hi; [|done].
  intros [= <- _ <- <- _]. split; [done|]. split; [done|]. unfold issue_for_tenant in Hi. unfold signed_over.
  destruct (signing_keys cfg) as [signer_for|].
  - apply result_bind_ok in Hi as (kt & Hkt & (signer & Hs & Hi%issue_token_signs)%result_bind_ok).
    exists signer. split; [done|]. cbn. destruct su; [by injection Hkt as <-|].
    destruct (parse_uuid tenant) as [u|]; [|done]. injection Hkt as <-. eauto.
  - destruct su; [done|]. apply issue_token_signs in Hi. by split.
Qed.

Lemma login_token io now cid db chs key tok ex ten pol lease :
  keys_wf db ->
  (login io now cid {| manager := DatabaseBackend db; challenges := chs |} key).1
  = (200, MToken tok ex ten pol lease) ->
  exists r, db.(api_keys) !! r.(row_id) = Some r /\ r.(key_hash) = sha256 key /\
    r.(revoked_at) = None /\ r.(mfa_required) = false /\ r.(is_superuser) = false /\
    ten = r.(row_tenant_id) /\ pol = r.(row_policies) /\ carries now r.(row_id) r tok.
Proof.
  intros Hwf. unfold handle_auth_api_key. cbn [manager challenges].
  destruct (validate io now (DatabaseBackend db) key) as [[v|e] m] eqn:Hv;
    [|cbn; unfold api_key_error; destruct e; done].
  destruct (validate_db_ok sha256 debug_str io now db key v Hwf) as (r & Hr & -> & Hh & Hn & _);
    [by rewrite Hv|]. cbn in Hr.
  destruct (v_mfa_required (validation_of r)) eqn:Hm;
    [by destruct (mfa_enrolment_active _ _ _ _ _ _ _) as [[]|]|].
  intros (-> & -> & Hsig)%token_reply_token. exists r. cbn in Hm.
  repeat split; try done. destruct (is_superuser r) eqn:Hsu; [|done].
  by rewrite (proj2 (proj1 Hwf _ _ Hr) Hsu) in Hm.
Qed.

Lemma second_factor_ok io now client e p code db db' :
  second_factor io now client e p code db = (Ok true, db') ->
  exists secret, enrolment_secret client e p.(p_api_key_id) = Ok secret /\
    factor_spent now db db' p.(p_api_key_id) secret code.
Proof.
  unfold verify_second_factor.
  match goal with |- context [match ?r with Ok _ => _ | Err _ => _ end] =>
    destruct r as [[ok d]|err] eqn:Hr end; [|done]. intros [= -> ->].
  apply result_bind_ok in Hr as (secret & Hsec & Hr). apply result_bind_ok in Hr as (_ & _ & Hr).
  apply result_bind_ok in Hr as ([ok' d] & Hd & Hr).
  apply result_bind_ok in Hr as (_ & _ & [= -> ->]). exists secret. split; [done|].
  unfold shown in Hd. destruct (consume_factor _ _ _ _ _ _ _) eqn:Hc; simplify_eq.
  by eapply consume_factor_spent.
Qed.

Lemma verify_token io between now db chs ch code tok ex ten pol lease st' :
  verify io between now {| manager := DatabaseBackend db; challenges := chs |} ch code
  = ((200, MToken tok ex ten pol lease), st') ->
  exists p client e secret db',
    chs !! ch = Some p /\ now / NANOS < p.(p_expires_at) /\ st'.(challenges) = delete ch chs /\
    cfg.(crypto) = Some client /\ db.(mfa_totp) !! p.(p_api_key_id) = Some e /\
    MfaStore.is_active e = true /\ enrolment_secret client e p.(p_api_key_id) = Ok secret /\
    st'.(manager) = DatabaseBackend db' /\
    factor_spent now (between db) db' p.(p_api_key_id) secret code /\
    ten = p.(p_tenant_id) /\ pol = p.(p_policies) /\
    signed_over {| c_sub := p.(p_api_key_id); c_tenant_id := p.(p_tenant_id); c_policies := p.(p_policies);
                   c_superuser := p.(p_superuser); c_iss := cfg.(issuer); c_aud := cfg.(audience);
                   c_iat := now / NANOS; c_exp := now / NANOS + 3600 |} tok.
Proof.
  unfold handle_mfa_verify. cbn [manager challenges].
  destruct (take chs (now / NANOS) ch) as [[p|] rest] eqn:Ht; [|done].
  apply (take_once _ _ _ _ _ 0) in Ht as (Hp & Hexp & -> & _). cbn [mfa_pool manager].
  destruct (crypto cfg) as [client|] eqn:Hcr; [|done].
  destruct (mfa_scope _ _ _ _ _ _); [|done].
  destruct (MfaStore.find io 1 db (p_api_key_id p)) as [[e|]|] eqn:Hf; [|done..].
  unfold MfaStore.find, call in Hf. destruct (io 1%nat); [done|]. injection Hf as Hf.
  destruct (MfaStore.is_active e) eqn:Ha; [|done]. cbn [negb].
  destruct (second_factor io now client e p code (between db)) as [[[]|] db'] eqn:Hs; [|done..].
  intros [= Hr <-]. apply second_factor_ok in Hs as (secret & Hsec & Hspent).
  apply token_reply_token in Hr as (-> & -> & Hsig).
  exists p, client, e, secret, db'. by repeat split.
Qed.

(** C38. No second factor, no token. In every state the service reaches: a login
    answered with a token presented an unrevoked key that demands no second
    factor and is not a superuser key; and a challenge answered with a token was
    unexpired and is gone, the key's authenticator was confirmed, and a factor of
    that key was valid and has been spent (a TOTP step above all used before, now
    recorded, or an unused recovery code, now used). Either way the token is the
    signature, under the key of the tenant (of the platform for a superuser key,
    shared where tenants have none), of claims that name the key, its tenant, its
    policies and its superuser flag as its row has them, for an hour. *)
Theorem token_requires_second_factor db0 st :
  keys_wf db0 -> rtc (id_step true) {| manager := DatabaseBackend db0; challenges := ∅ |} st ->
  exists db, st.(manager) = DatabaseBackend db /\
  (forall io now cid key tok ex ten pol lease,
     (login io now cid st key).1 = (200, MToken tok ex ten pol lease) ->
     exists r, db.(api_keys) !! r.(row_id) = Some r /\ r.(key_hash) = sha256 key /\
       r.(revoked_at) = None /\ r.(mfa_required) = false /\ r.(is_superuser) = false /\
       ten = r.(row_tenant_id) /\ pol = r.(row_policies) /\ carries now r.(row_id) r tok) /\
  (forall io between now ch code tok ex ten pol lease st',
     quiet true between ->
     verify io between now st ch code = ((200, MToken tok ex ten pol lease), st') ->
     exists p client e secret db' r,
       st.(challenges) !! ch = Some p /\ now / NANOS < p.(p_expires_at) /\
       st'.(challenges) = delete ch st.(challenges) /\ st'.(manager) = DatabaseBackend db' /\
       cfg.(crypto) = Some client /\ db.(mfa_totp) !! p.(p_api_key_id) = Some e /\
       MfaStore.is_active e = true /\ enrolment_secret client e p.(p_api_key_id) = Ok secret /\
       factor_spent now (between db) db' p.(p_api_key_id) secret code /\
       db'.(api_keys) !! p.(p_api_key_id) = Some r /\
       ten = r.(row_tenant_id) /\ pol = r.(row_policies) /\ carries now p.(p_api_key_id) r tok).
Proof.
  intros Hwf0 Hsteps. apply id_steps_sound in Hsteps; [|by split; [|apply map_Forall_empty]].
  destruct st as [[db|] chs]; [|done]. destruct Hsteps as [Hwf Hb]. exists db. split; [done|].
  split; [intros *; by apply login_token|].
  intros io between now ch code tok ex ten pol lease st' Hq Hv.
  pose proof (verify_change true io between now
                {| manager := DatabaseBackend db; challenges := chs |} ch code Hq) as Hc.
  rewrite Hv in Hc. cbn [snd] in Hc. unfold state_change in Hc. cbn [manager] in Hc.
  apply verify_token in Hv
    as (p & client & e & secret & db' & Hp & ? & ? & ? & ? & ? & ? & Hm & ? & -> & -> & Hsig).
  rewrite Hm in Hc. destruct (proj1 Hc Hwf) as [_ Hev].
  destruct (backed_evolves db db' chs Hev Hb ch p Hp) as (r & Hr & Ht & Hpol & Hsu & _).
  exists p, client, e, secret, db', r. unfold carries. rewrite Ht, Hpol, Hsu. by repeat split.
Qed.

(** C39. A TOTP code is accepted once: as long as nothing is confirmed anew, the
    codes that complete logins of one key belong to strictly increasing time
    steps, whatever other requests run in between or concurrently. *)
Theorem totp_steps_increase io1 f1 now1 db chs ch1 code1 b1 st1 st2 io2 f2 now2 ch2 code2 b2 st3
    client e p1 p2 secret s1 s2 :
  cfg.(crypto) = Some client ->
  chs !! ch1 = Some p1 -> st2.(challenges) !! ch2 = Some p2 ->
  p2.(p_api_key_id) = p1.(p_api_key_id) ->
  db.(mfa_totp) !! p1.(p_api_key_id) = Some e ->
  enrolment_secret client e p1.(p_api_key_id) = Ok secret ->
  quiet false f1 -> quiet false f2 ->
  verify io1 f1 now1 {| manager := DatabaseBackend db; challenges := chs |} ch1 code1
  = ((200, b1), st1) -> (exists tok ex ten pol lease, b1 = MToken tok ex ten pol lease) ->
  rtc (id_step false) st1 st2 ->
  verify io2 f2 now2 st2 ch2 code2 = ((200, b2), st3) ->
  (exists tok ex ten pol lease, b2 = MToken tok ex ten pol lease) ->
  verify_code secret code1 (now1 / NANOS) = Some s1 ->
  verify_code secret code2 (now2 / NANOS) = Some s2 -> s1 < s2.
Proof.
  intros Hcr Hp1 Hp2 Hkey He Hsec Hf1 Hf2 Hv1 (?&?&?&?&?&->) Hsteps Hv2 (?&?&?&?&?&->) Hs1 Hs2.
  apply verify_token in Hv1
    as (p & client' & e' & secret' & db1 & Hp & _ & _ & Hcr' & He' & Ha & Hsec' & Hm1 & Hsp1 & _).
  simplify_eq. rewrite Hsec in Hsec'. injection Hsec' as <-.
  destruct (proj2 (Hf1 db) eq_refl _ _ He Ha) as (d & Hd & Hdt & Hdw & Hda & _).
  destruct Hsp1 as [(s & q & Hvs & Hq & _ & ->)|(Hnone & _)]; [|congruence].
  rewrite Hs1 in Hvs. injection Hvs as <-. rewrite Hd in Hq. injection Hq as <-.
  destruct st1 as [m1 chs1]. cbn in Hm1. subst m1.
  destruct (id_steps_change _ _ _ _ Hsteps) as (db2 & Hm2 & _ & Hk).
  destruct (Hk eq_refl (p_api_key_id p1) (MfaStore.set_step s1 d)) as (g & Hg & Hgt & Hgw & Hga & Hgl);
    [by cbn; rewrite lookup_insert_eq|done|].
  destruct st2 as [m2 chs2]. cbn in Hm2, Hp2. subst m2.
  apply verify_token in Hv2
    as (p & client' & g' & secret' & db3 & Hp & _ & _ & Hcr' & Hg' & _ & Hsec' & _ & Hsp2 & _).
  simplify_eq. rewrite Hkey in *. rewrite Hg in Hg'. injection Hg' as <-.
  assert (secret' = secret) as ->.
  { unfold enrolment_secret in Hsec, Hsec'. cbn in Hgt, Hgw.
    rewrite Hgt, Hgw, Hdt, Hdw, Hsec in Hsec'. by injection Hsec'. }
  destruct (proj2 (Hf2 db2) eq_refl _ _ Hg Hga) as (h & Hh & _ & _ & _ & Hhl). cbn in Hgl.
  destruct Hsp2 as [(s & q & Hvs & Hq & Hlt & _)|(Hnone & _)]; [|congruence].
  rewrite Hs2 in Hvs. injection Hvs as <-. rewrite Hh in Hq. injection Hq as <-. lia.
Qed.

(** Confirming again reopens a used step: for a confirmed authenticator
    whose codes up to some step have been used, presenting a code of an earlier
    step of the window to the confirmation endpoint, which needs the API key
    alone, is answered with 200 and moves the record of used steps back; the code
    that was refused as a replay before is then accepted. *)
Theorem confirm_reopens_used_step now db chs raw v client e p secret older used s s' :
  keys_wf db -> (validate all_well now (DatabaseBackend db) raw).1 = Ok v ->
  cfg.(crypto) = Some client -> is_Some (parse_uuid (Str.trim v.(v_tenant_id))) ->
  p.(p_api_key_id) = v.(v_key_id) -> p.(p_tenant_id) = v.(v_tenant_id) ->
  db.(mfa_totp) !! v.(v_key_id) = Some e -> e.(last_used_step) = s ->
  enrolment_secret client e v.(v_key_id) = Ok secret ->
  verify_code secret used (now / NANOS) = Some s ->
  verify_code secret older (now / NANOS) = Some s' -> s' < s ->
  (second_factor all_well now client e p used db).1 = Ok false /\
  exists st' db' e',
    confirm all_well now {| manager := DatabaseBackend db; challenges := chs |} raw older
    = ((200, MConfirmed), st') /\
    st'.(manager) = DatabaseBackend db' /\ db'.(mfa_totp) !! v.(v_key_id) = Some e' /\
    MfaStore.is_active e' = true /\ e'.(last_used_step) = s' /\
    (second_factor all_well now client e' p used db').1 = Ok true.
Proof.
  intros Hwf Hv Hcr [u Hu] Hpk Hpt He Hs Hsec Hused Holder Hlt.
  assert (forall f d, d.(mfa_totp) !! v.(v_key_id) = Some f ->
    f.(e_tenant_id) = e.(e_tenant_id) -> f.(wrapped_secret) = e.(wrapped_secret) ->
    (second_factor all_well now client f p used d).1 = Ok (f.(last_used_step) <? s)) as Hfactor.
  { intros f d Hf Hft Hfw. unfold verify_second_factor, enrolment_secret, mfa_scope in *.
    rewrite Hpk, Hft, Hfw, Hsec, Hpt, Hu. cbn [mbind result_bind].
    rewrite begin_well, commit_well. cbn [mbind result_bind].
    unfold consume_factor. rewrite Hused. unfold MfaStore.try_consume_step, call.
    cbn [all_well shown]. rewrite Hf. by destruct (last_used_step f <? s). }
  split; [rewrite (Hfactor e db He); [by rewrite Hs, Z.ltb_irrefl|done..]|].
  unfold handle_mfa_confirm. cbn [manager challenges].
  destruct (validate_tables all_well now db raw) as (dbv & Hm & [_ Hk]).
  assert (dbv.(mfa_totp) = db.(mfa_totp)) as Hsame.
  { pose proof (validate_change sha256 debug_str all_well now (DatabaseBackend db) raw) as Hc.
    rewrite Hm in Hc. apply Hc. }
  destruct (validate all_well now (DatabaseBackend db) raw) as [[v'|] m]; cbn in Hv, Hm; [|done].
  injection Hv as ->. subst m. cbn [mfa_pool manager]. rewrite Hcr. unfold mfa_scope.
  rewrite Hu, begin_well. unfold MfaStore.find, MfaStore.confirm, call. cbn [all_well].
  rewrite Hsame, He, Hsec, Holder, commit_well. cbn [mbind result_bind].
  eexists _, _, _. split; [done|]. split; [done|]. cbn [mfa_totp with_mfa_totp with_api_keys].
  split; [apply lookup_insert_eq|]. split; [done|]. split; [done|].
  rewrite Hfactor; [cbn; by rewrite (proj2 (Z.ltb_lt _ _) Hlt)|apply lookup_insert_eq|done..].
Qed.

End Properties.

(** ** A concrete deployment

    A stand-in for HMAC whose tag carries the last byte of the counter where the
    truncation reads it. *)

Module Demo.

Definition tag (_ m : string) : string :=
  Str.repeat "000" 3 +:+ String (default "000"%char (String.get 7 m)) (Str.repeat "000" 16).

#[global] Instance digests : Digests := {| hmac_sha1 := tag; sha256_hex := fun s => s |}.

Lemma digest_laws : DigestLaws.
Proof. by split. Qed.

Definition same (s : string) : string := s.

Definition client : CryptoClient :=
  {| wrap_secret := fun _ s _ => Ok s; unwrap_secret := fun _ w _ => Ok w |}.

Definition cfg : Config :=
  {| issuer := "wslvault"; audience := "wslvault";
     signing_keys := Some (fun _ => Ok {| signer_kid := "1"; signer_encode := fun c => Ok c.(c_sub) |});
     hs256_encode := fun _ => Err "unused"; crypto := Some client; lease_rpc := None |}.

Definition key : ApiKeyRow :=
  {| row_id := "k1"; row_tenant_id := "t1"; row_name := "laptop"; key_hash := "wslv_a";
     key_prefix := "a"; row_path_prefixes := []; row_policies := ["dev"]; created_by := "setup";
     row_created_at := 0; row_expires_at := None; last_used_at := None; revoked_at := None;
     rate_limit_per_minute := 60; is_superuser := false; mfa_required := true |}.

Definition enrolment (last : Z) : TotpEnrolment :=
  {| e_api_key_id := "k1"; e_tenant_id := "t1"; wrapped_secret := base32_encode "seed";
     last_used_step := last; confirmed_at := Some 1 |}.

Definition db (last : Z) : Pg :=
  {| tenants := [{| t_id := "t1"; t_slug := "acme"; t_deleted_at := None |}];
     api_keys := {["k1" := key]}; mfa_totp := {["k1" := enrolment last]}; recovery_codes := [] |}.

Lemma enrolled_db_wf last : keys_wf (db last).
Proof.
  split; [by apply map_Forall_singleton|]. intros i j r s Hr Hs Hij. cbn in Hr, Hs.
  apply lookup_singleton_Some in Hr as [<- _]. by apply lookup_singleton_Some in Hs as [<- _].
Qed.

Definition pending : PendingChallenge :=
  {| p_api_key_id := "k1"; p_tenant_id := "t1"; p_policies := ["dev"]; p_superuser := false;
     p_expires_at := 5000 |}.

Definition uuid_of (s : string) : option string := Some s.
Definition date_of (t : Z) : option Z := Some t.
Definition plus_seconds (t n : Z) : option Z := Some (t + n).

(** Fifty minutes past the epoch: step 100. *)
Definition at_100 : Z := 3000 * NANOS.
Definition at_101 : Z := 3030 * NANOS.

Abbreviation demo_login := (handle_auth_api_key same same uuid_of same same date_of cfg).
Abbreviation demo_verify := (handle_mfa_verify same uuid_of same same date_of cfg).

Definition start : IdState := {| manager := DatabaseBackend (db 0); challenges := ∅ |}.
Definition logged_in : IdState := (demo_login all_well at_100 "c1" start "wslv_a").2.
Definition both : ChallengeStore := {["c1" := pending; "c2" := pending]}.

Lemma quiet_id c : quiet c (fun db => db).
Proof. intros d. reflexivity. Qed.

End Demo.

Lemma token_requires_second_factor_witness :
  (Demo.demo_verify all_well (fun db => db) Demo.at_100 Demo.logged_in "c1" "000100").1
  = (200, MToken "k1" 6600 "t1" ["dev"] None) /\
  exists p db db' secret, Demo.logged_in.(challenges) !! "c1" = Some p /\
    factor_spent Demo.at_100 db db' p.(p_api_key_id) secret "000100".
Proof.
  assert ((Demo.demo_verify all_well (fun db => db) Demo.at_100 Demo.logged_in "c1" "000100").1
          = (200, MToken "k1" 6600 "t1" ["dev"] None)) as Hr by by vm_compute.
  split; [done|].
  destruct (token_requires_second_factor Demo.same Demo.same Demo.uuid_of Demo.same Demo.same
              Demo.date_of Demo.cfg Demo.same Demo.plus_seconds (Demo.db 0) Demo.logged_in
              (Demo.enrolled_db_wf 0)) as (db & _ & _ & Hv).
  - eapply rtc_l; [apply step_login|apply rtc_refl].
  - destruct (Hv all_well (fun db => db) Demo.at_100 "c1" "000100" "k1" 6600 "t1" ["dev"] None
                (Demo.demo_verify all_well (fun db => db) Demo.at_100 Demo.logged_in "c1"
                   "000100").2)
      as (p & _ & _ & secret & db' & _ & Hp & _ & _ & _ & _ & _ & _ & _ & Hs & _).
    + apply Demo.quiet_id.
    + rewrite <- Hr. apply surjective_pairing.
    + eauto 10.
Defined.

Lemma totp_steps_increase_witness :
  let first := Demo.demo_verify all_well (fun db => db) Demo.at_100
                 {| manager := DatabaseBackend (Demo.db 0); challenges := Demo.both |} "c1" "000100" in
  let second := Demo.demo_verify all_well (fun db => db) Demo.at_101 first.2 "c2" "000101" in
  first.1 = (200, MToken "k1" 6600 "t1" ["dev"] None) /\
  second.1 = (200, MToken "k1" 6630 "t1" ["dev"] None) /\ 100 < 101.
Proof.
  intros first second.
  assert (first.1 = (200, MToken "k1" 6600 "t1" ["dev"] None)) as H1 by by vm_compute.
  assert (second.1 = (200, MToken "k1" 6630 "t1" ["dev"] None)) as H2 by by vm_compute.
  split; [done|]. split; [done|].
  refine (totp_steps_increase Demo.same Demo.same Demo.uuid_of Demo.same Demo.same Demo.date_of
            Demo.cfg Demo.same Demo.plus_seconds all_well (fun db => db) Demo.at_100 (Demo.db 0)
            Demo.both "c1" "000100" (MToken "k1" 6600 "t1" ["dev"] None) first.2 first.2 all_well
            (fun db => db) Demo.at_101 "c2" "000101" (MToken "k1" 6630 "t1" ["dev"] None) second.2
            Demo.client (Demo.enrolment 0) Demo.pending Demo.pending (base32_encode "seed") 100 101
            eq_refl _ _ eq_refl _ _ (Demo.quiet_id _) (Demo.quiet_id _) _ _ (rtc_refl _ _) _ _ _ _).
  - vm_compute. reflexivity.
  - vm_compute. reflexivity.
  - vm_compute. reflexivity.
  - vm_compute. reflexivity.
  - rewrite <- H1. apply surjective_pairing.
  - eauto 10.
  - rewrite <- H2. apply surjective_pairing.
  - eauto 10.
  - vm_compute. reflexivity.
  - vm_compute. reflexivity.
Defined.

Lemma confirm_reopens_used_step_witness :
  (verify_second_factor Demo.uuid_of Demo.same Demo.same all_well Demo.at_100 Demo.client
     (Demo.enrolment 100) Demo.pending "000100" (Demo.db 100)).1 = Ok false /\
  exists st' db' e',
    handle_mfa_confirm Demo.same Demo.uuid_of Demo.same Demo.same Demo.cfg all_well Demo.at_100
      {| manager := DatabaseBackend (Demo.db 100); challenges := ∅ |} "wslv_a" "000099"
    = ((200, MConfirmed), st') /\ st'.(manager) = DatabaseBackend db' /\
    (verify_second_factor Demo.uuid_of Demo.same Demo.same all_well Demo.at_100 Demo.client e'
       Demo.pending "000100" db').1 = Ok true.
Proof.
  destruct (confirm_reopens_used_step Demo.same Demo.uuid_of Demo.same Demo.same Demo.cfg
              Demo.at_100 (Demo.db 100) ∅ "wslv_a" (validation_of Demo.key) Demo.client
              (Demo.enrolment 100) Demo.pending (base32_encode "seed") "000099" "000100" 100 99)
    as [H1 (st' & db' & e' & H2 & H3 & _ & _ & _ & H4)].
  - apply Demo.enrolled_db_wf.
  - vm_compute. reflexivity.
  - reflexivity.
  - by eexists.
  - reflexivity.
  - reflexivity.
  - vm_compute. reflexivity.
  - reflexivity.
  - vm_compute. reflexivity.
  - vm_compute. reflexivity.
  - vm_compute. reflexivity.
  - reflexivity.
  - split; [exact H1|]. exists st', db', e'. split; [exact H2|]. split; [exact H3|exact H4].
Defined.
