(* ===== verification/SigningKeys.v ===== *)
(** * Token signing keys

    [wslvault-storage/src/signing_key_store.rs] with the table and the partial
    unique indexes of [024_tenant_signing_keys.sql], and
    [services/identity-service/src/signing_keys.rs]: one Ed25519 key per tenant and
    one for superuser tokens, generated on first use, kept wrapped by the
    crypto-service and cached unwrapped per process.

    A method is a computation of [Effects] on one process's caches and the shared
    table. Its outside events are numbered: the [n]-th finds the table as the
    other processes left it by then. Ed25519, JWT encoding and base64url are
    parameters with their documented laws. *)

From Stdlib Require Import Lia Ascii.
From S2P Require Import Prelude Errors Effects Auth KeyStore Mfa.

(** ** The table *)

Inductive KeyState := KActive | KRotatingOut | KRetired.

#[global] Instance KeyState_eq_dec : EqDecision KeyState.
Proof. solve_decision. Defined.

Record SigningKeyRecord := {
  sk_kid : string;
  sk_tenant_id : option string;
  sk_public_key : string;
  sk_wrapped : string;
  sk_state : KeyState;
}.

(** A row: the record, by its primary key, with its creation time. *)
Record KeyTable := {
  key_rows : gmap string (SigningKeyRecord * Z);
  key_tenants : gset string;
}.

(** A round trip fails with a text, its effect applied or not. *)
Definition RoundTrip : Type := option (string * bool).

Definition active_of (tenant : option string) (t : KeyTable) : list SigningKeyRecord :=
  List.filter (fun r => bool_decide (r.(sk_tenant_id) = tenant /\ r.(sk_state) = KActive))
    (map (fun e => e.2.1) (map_to_list t.(key_rows))).

Definition lookup_failed (e : string) : VaultError := Database ("signing key lookup failed: " +:+ e).

(** [active_for_tenant] and [active_system_key] *)
Definition active_for (io : RoundTrip) (t : KeyTable) (tenant : option string) :
    result VaultError (option SigningKeyRecord) :=
  match io with
  | Some (e, _) => Err (lookup_failed e)
  | None => Ok (head (active_of tenant t))
  end.

Definition by_kid (io : RoundTrip) (t : KeyTable) (k : string) :
    result VaultError (option SigningKeyRecord) :=
  match io with Some (e, _) => Err (lookup_failed e) | None => Ok (fst <$> t.(key_rows) !! k) end.

Definition newest_first (a b : SigningKeyRecord * Z) : bool := b.2 <=? a.2.

Definition publishable (io : RoundTrip) (t : KeyTable) : result VaultError (list SigningKeyRecord) :=
  match io with
  | Some (e, _) => Err (Database ("could not list signing keys: " +:+ e))
  | None => Ok (map fst (order_by newest_first
      (List.filter (fun r => bool_decide (r.1.(sk_state) = KActive \/ r.1.(sk_state) = KRotatingOut))
         (map snd (map_to_list t.(key_rows))))))
  end.

(** The constraint an inserted row violates, if any. *)
Definition violated (t : KeyTable) (r : SigningKeyRecord) : option string :=
  if bool_decide (is_Some (t.(key_rows) !! r.(sk_kid))) then Some "tenant_signing_keys_pkey"
  else match r.(sk_tenant_id) with
       | Some u => if negb (bool_decide (u ∈ t.(key_tenants)))
                   then Some "tenant_signing_keys_tenant_id_fkey"
                   else if negb (bool_decide (active_of (Some u) t = []))
                   then Some "uq_tenant_signing_keys_active" else None
       | None => if negb (bool_decide (active_of None t = []))
                 then Some "uq_system_signing_key_active" else None
       end.

Definition set_rows (t : KeyTable) (m : gmap string (SigningKeyRecord * Z)) : KeyTable :=
  {| key_rows := m; key_tenants := t.(key_tenants) |}.

Definition set_key_state (r : SigningKeyRecord) (st : KeyState) : SigningKeyRecord :=
  {| sk_kid := r.(sk_kid); sk_tenant_id := r.(sk_tenant_id); sk_public_key := r.(sk_public_key);
     sk_wrapped := r.(sk_wrapped); sk_state := st |}.

(** The statement stores the literal state ['active']. *)
Definition insert_active (io : RoundTrip) (now : Z) (t : KeyTable) (key : SigningKeyRecord) :
    result VaultError () * KeyTable :=
  let failed e := Err (Database ("could not store signing key: " +:+ e)) in
  match violated t key with
  | Some c => (failed (match io with Some (e, _) => e | None => c end), t)
  | None =>
      let t' := set_rows t (<[key.(sk_kid) := (set_key_state key KActive, now)]> t.(key_rows)) in
      match io with
      | None => (Ok tt, t')
      | Some (e, applied) => (failed e, if applied then t' else t)
      end
  end.

Definition mark_rotating_out (io : RoundTrip) (t : KeyTable) (k : string) :
    result VaultError () * KeyTable :=
  let t' := set_rows t (alter (fun e => if bool_decide (e.1.(sk_state) = KActive)
                                        then (set_key_state e.1 KRotatingOut, e.2) else e) k t.(key_rows)) in
  match io with
  | None => (Ok tt, t')
  | Some (e, applied) =>
      (Err (Database ("could not retire signing key: " +:+ e)), if applied then t' else t)
  end.

(** ** Libraries *)

Class SigningLibs := {
  (** [Ed25519KeyPair::from_pkcs8] and its public key *)
  public_of : string -> option string;
  b64url_encode : string -> string;
  b64url_decode : string -> result string string;
  jwt_header : string -> result string (Algorithm * option string);
  (** [encode] with an EdDSA header, and the signature check and parse of [decode] *)
  eddsa_sign : string -> option string -> IssuedClaims -> result string string;
  eddsa_open : string -> string -> result string IssuedClaims;
}.

Class SigningLaws `{SigningLibs} := {
  public_length sk pk : public_of sk = Some pk -> String.length pk = 32%nat;
  b64url_inverse s : b64url_decode (b64url_encode s) = Ok s;
  header_of_signed sk k c tok : eddsa_sign sk k c = Ok tok -> jwt_header tok = Ok (EdDSA, k);
  open_signed sk pk k c tok :
    public_of sk = Some pk -> eddsa_sign sk k c = Ok tok -> eddsa_open pk tok = Ok c;
  (** nothing but the private key makes a signature its public key accepts *)
  opened_was_signed pk tok c :
    eddsa_open pk tok = Ok c -> exists sk k, public_of sk = Some pk /\ eddsa_sign sk k c = Ok tok;
}.

(** What the [n]-th outside event of a run brings: a statement's fate, what the
    other processes did to the table before it, fresh key material and ids, the
    crypto-service's answers, the time. *)
Record Outside := {
  o_link : nat -> RoundTrip;
  o_others : nat -> KeyTable -> KeyTable;
  o_pkcs8 : nat -> result string string;
  o_uuid : nat -> string;
  o_wrap : nat -> string -> string -> string -> result string string;
  o_unwrap : nat -> string -> string -> string -> result string string;
  o_now : nat -> Z;
}.

Record World := {
  w_keys : KeyTable;
  cache : gmap string string;
  public_cache : gmap string string;
  w_next : nat;
}.

Definition SYSTEM_WRAP_TENANT : string := "00000000-0000-0000-0000-000000000000".

Definition wrap_aad (k : string) : string := "wslvault:signing-key:" +:+ k.

Definition wrap_tenant (t : option string) : string := default SYSTEM_WRAP_TENANT t.

Record LoadedKey := { lk_kid : string; lk_encoding : string }.

Record Jwk := { jwk_kid : string; jwk_x : string }.

Definition set_keys (w : World) (t : KeyTable) : World :=
  {| w_keys := t; cache := w.(cache); public_cache := w.(public_cache); w_next := w.(w_next) |}.
Definition set_cache (w : World) (m : gmap string string) : World :=
  {| w_keys := w.(w_keys); cache := m; public_cache := w.(public_cache); w_next := w.(w_next) |}.
Definition set_public_cache (w : World) (m : gmap string string) : World :=
  {| w_keys := w.(w_keys); cache := w.(cache); public_cache := m; w_next := w.(w_next) |}.

Section SigningKeys.
Context `{SigningLibs} (debug_str : string -> string) (o : Outside).

Abbreviation eff := (eff World string).

(** The next outside event. *)
Definition tick : eff nat := fun w =>
  (Ok w.(w_next), {| w_keys := o.(o_others) w.(w_next) w.(w_keys); cache := w.(cache);
                     public_cache := w.(public_cache); w_next := S w.(w_next) |}).

Definition shown {A} (r : result VaultError A) : result string A :=
  match r with Ok a => Ok a | Err e => Err (display debug_str e) end.

Definition fetch_active (tenant : option string) : eff (option SigningKeyRecord) :=
  n ← tick; t ← gets w_keys; lift (shown (active_for (o.(o_link) n) t tenant)).

Definition on_table {A} (f : KeyTable -> A * KeyTable) : eff A := fun w =>
  let '(a, t) := f w.(w_keys) in (Ok a, set_keys w t).

(** An insert, whose failure is a value. *)
Definition store_key (r : SigningKeyRecord) : eff (result VaultError ()) :=
  n ← tick; on_table (fun t => insert_active (o.(o_link) n) (o.(o_now) n) t r).

Definition generate (tenant : option string) : eff SigningKeyRecord :=
  n ← tick;
  pkcs8 ← lift (match o.(o_pkcs8) n with
                | Ok p => Ok p
                | Err _ => Err "could not generate an Ed25519 keypair"
                end);
  pub ← lift (ok_or (public_of pkcs8) "generated keypair did not parse");
  let k := "wslv-" +:+ o.(o_uuid) n in
  wrapped ← lift (o.(o_wrap) n (wrap_tenant tenant) pkcs8 (wrap_aad k));
  let record := {| sk_kid := k; sk_tenant_id := tenant; sk_public_key := b64url_encode pub;
                   sk_wrapped := wrapped; sk_state := KActive |} in
  stored ← store_key record;
  match stored with
  | Ok _ => mret record
  | Err e =>
      existing ← fetch_active tenant;
      lift (ok_or existing ("could not store or find a signing key: " +:+ display debug_str e))
  end.

Definition unwrap_key (record : SigningKeyRecord) : eff string :=
  hit ← gets (fun w => w.(cache) !! record.(sk_kid));
  match hit with
  | Some p => mret p
  | None =>
      n ← tick;
      p ← lift (o.(o_unwrap) n (wrap_tenant record.(sk_tenant_id)) record.(sk_wrapped)
                  (wrap_aad record.(sk_kid)));
      _ ← modify (fun w => set_cache w (<[record.(sk_kid) := p]> w.(cache)));
      mret p
  end.

Definition signer_for (tenant : option string) : eff LoadedKey :=
  existing ← fetch_active tenant;
  record ← match existing with Some r => mret r | None => generate tenant end;
  pkcs8 ← unwrap_key record;
  mret {| lk_kid := record.(sk_kid); lk_encoding := pkcs8 |}.

Definition public_key_for (k : string) : eff string :=
  hit ← gets (fun w => w.(public_cache) !! k);
  match hit with
  | Some raw => mret raw
  | None =>
      n ← tick;
      t ← gets w_keys;
      found ← lift (shown (by_kid (o.(o_link) n) t k));
      record ← lift (ok_or found ("unknown signing key " +:+ debug_str k));
      raw ← lift (match b64url_decode record.(sk_public_key) with
                  | Ok raw => Ok raw
                  | Err e => Err ("stored public key is not base64url: " +:+ e)
                  end);
      _ ← lift (if bool_decide (String.length raw = 32%nat) then Ok tt
                else Err "stored public key is not an Ed25519 key");
      _ ← modify (fun w => set_public_cache w (<[k := raw]> w.(public_cache)));
      mret raw
  end.

(** [Validation::new(EdDSA)]: the expiry is checked with a leeway of a minute,
    neither issuer nor audience is. *)
Definition LEEWAY_SECONDS : Z := 60.

Definition verify (now : Z) (token : string) : eff IssuedClaims :=
  hdr ← lift (match jwt_header token with
              | Ok h => Ok h
              | Err e => Err ("malformed token header: " +:+ e)
              end);
  match hdr with
  | (EdDSA, Some k) =>
      pk ← public_key_for k;
      lift (match eddsa_open pk token with
            | Ok c => if c.(c_exp) <? now / NANOS - LEEWAY_SECONDS
                      then Err "invalid token: ExpiredSignature" else Ok c
            | Err e => Err ("invalid token: " +:+ e)
            end)
  | (EdDSA, None) => throw "EdDSA token carries no kid"
  | (HS256, _) => throw "not an EdDSA token (alg HS256)"
  | (OtherAlgorithm a, _) => throw ("not an EdDSA token (alg " +:+ a +:+ ")")
  end.

Definition jwks : eff (list Jwk) :=
  n ← tick;
  t ← gets w_keys;
  records ← lift (shown (publishable (o.(o_link) n) t));
  mret (map (fun r => {| jwk_kid := r.(sk_kid); jwk_x := r.(sk_public_key) |}) records).

(** The signer a login uses. *)
Definition signer_of (k : LoadedKey) : Signer :=
  {| signer_kid := k.(lk_kid); signer_encode := eddsa_sign k.(lk_encoding) (Some k.(lk_kid)) |}.

End SigningKeys.

(** ** The table over time *)

Lemma active_of_In tenant t r :
  In r (active_of tenant t) <->
  exists k ts, t.(key_rows) !! k = Some (r, ts) /\ r.(sk_tenant_id) = tenant /\ r.(sk_state) = KActive.
Proof.
  unfold active_of. rewrite List.filter_In, in_map_iff, bool_decide_eq_true. split.
  - intros [([k [r0 ts]] & <- & Hin) [Ht Hs]].
    apply list_elem_of_In, elem_of_map_to_list in Hin. by exists k, ts.
  - intros (k & ts & Hk & Ht & Hs). split; [|done]. exists (k, (r, ts)). split; [done|].
    by apply list_elem_of_In, elem_of_map_to_list.
Qed.

Section Runs.
Context `{SigningLaws}.
(** [sealed tenant aad plain w]: the crypto-service answered [w] to wrapping. *)
Context (sealed : string -> string -> string -> string -> Prop).

(** A key pair with its private half wrapped for the row that carries it. *)
Definition genuine (r : SigningKeyRecord) : Prop :=
  exists sk pk, public_of sk = Some pk /\ r.(sk_public_key) = b64url_encode pk /\
    sealed (wrap_tenant r.(sk_tenant_id)) (wrap_aad r.(sk_kid)) sk r.(sk_wrapped).

Record table_ok (t : KeyTable) : Prop := {
  tk_rows : forall k r ts, t.(key_rows) !! k = Some (r, ts) -> r.(sk_kid) = k /\ genuine r;
  tk_active : forall k k' r r' ts ts', t.(key_rows) !! k = Some (r, ts) ->
    t.(key_rows) !! k' = Some (r', ts') -> r.(sk_state) = KActive -> r'.(sk_state) = KActive ->
    r.(sk_tenant_id) = r'.(sk_tenant_id) -> k = k';
  tk_live : forall k r ts, t.(key_rows) !! k = Some (r, ts) -> r.(sk_state) <> KRetired;
}.

(** A row keeps everything but its state. *)
Definition same_key (r r' : SigningKeyRecord) : Prop := r' = set_key_state r r'.(sk_state).

Definition table_le (t t' : KeyTable) : Prop :=
  forall k r ts, t.(key_rows) !! k = Some (r, ts) ->
    exists r', t'.(key_rows) !! k = Some (r', ts) /\ same_key r r'.

#[export] Instance table_le_preorder : PreOrder table_le.
Proof.
  split.
  - intros t k r ts Hk. exists r. split; [done|]. by destruct r.
  - intros x y z Hxy Hyz k r ts Hk. destruct (Hxy k r ts Hk) as (r1 & H1 & He1).
    destruct (Hyz k r1 ts H1) as (r2 & H2 & He2). exists r2. split; [done|].
    unfold same_key in *. by rewrite He2, He1.
Qed.

(** What other processes do: store keys they generated, take keys out of use. *)
Inductive other_insert : KeyTable -> KeyTable -> Prop :=
| other_insert_key io now t r : genuine r -> other_insert t (insert_active io now t r).2.

Inductive other_step : KeyTable -> KeyTable -> Prop :=
| other_inserted t t' : other_insert t t' -> other_step t t'
| other_rotated io t k : other_step t (mark_rotating_out io t k).2.

Lemma violated_None t r :
  violated t r = None -> t.(key_rows) !! r.(sk_kid) = None /\ active_of r.(sk_tenant_id) t = [].
Proof.
  unfold violated. case_bool_decide as Hk; [done|]. apply eq_None_not_Some in Hk.
  destruct r.(sk_tenant_id) as [u|].
  - case_bool_decide; [cbn|done]. by case_bool_decide.
  - by case_bool_decide.
Qed.

(** The table after an insert: as before, or with the new row. *)
Lemma insert_active_cases io now t r :
  (insert_active io now t r).2 = t /\ (insert_active io now t r).1 <> Ok tt \/
  violated t r = None /\
  (insert_active io now t r).2 =
    set_rows t (<[r.(sk_kid) := (set_key_state r KActive, now)]> t.(key_rows)).
Proof.
  unfold insert_active. destruct (violated t r) as [c|]; [by left|].
  destruct io as [[e []]|]; cbn; auto.
Qed.

Lemma inserted_ok t r now :
  table_ok t -> genuine r -> violated t r = None ->
  table_ok (set_rows t (<[r.(sk_kid) := (set_key_state r KActive, now)]> t.(key_rows))).
Proof.
  intros [Hrows Hact Hlive] Hg [Hk Hnone]%violated_None.
  assert (Hno : forall k' r' ts, t.(key_rows) !! k' = Some (r', ts) -> r'.(sk_state) = KActive ->
    r'.(sk_tenant_id) = r.(sk_tenant_id) -> False).
  { intros k' r' ts Hk' Hs Ht. assert (Hin : In r' (active_of r.(sk_tenant_id) t)).
    { apply active_of_In. by exists k', ts. }
    by rewrite Hnone in Hin. }
  split; cbn.
  - intros k' r' ts'. rewrite lookup_insert_Some. intros [[<- [= <- <-]]|[_ Hr']]; [|by eapply Hrows].
    split; [done|]. exact Hg.
  - intros k1 k2 r1 r2 ts1 ts2. rewrite !lookup_insert_Some.
    intros [[<- [= <- <-]]|[Hn1 H1]] [[<- [= <- <-]]|[Hn2 H2]] Hs1 Hs2 Ht; [done| | |by eapply Hact].
    + exfalso. by eapply Hno.
    + exfalso. by eapply Hno.
  - intros k' r' ts'. rewrite lookup_insert_Some. intros [[<- [= <- <-]]|[_ Hr']]; [done|by eapply Hlive].
Qed.

Lemma inserted_sub t r now :
  violated t r = None ->
  t.(key_rows) ⊆ <[r.(sk_kid) := (set_key_state r KActive, now)]> t.(key_rows).
Proof. intros [Hk _]%violated_None. by apply insert_subseteq. Qed.

Lemma sub_le t t' : t.(key_rows) ⊆ t'.(key_rows) -> table_le t t'.
Proof.
  intros Hsub k r ts Hk. exists r. split; [by eapply lookup_weaken|]. by destruct r.
Qed.

Lemma other_insert_ok t t' :
  table_ok t -> other_insert t t' -> table_ok t' /\ t.(key_rows) ⊆ t'.(key_rows).
Proof.
  intros Ht Hi. revert Ht. destruct Hi as [io now t0 r Hg]. intros Ht.
  destruct (insert_active_cases io now t0 r) as [[-> _]|[Hv ->]]; [done|].
  split; [by apply inserted_ok|by apply inserted_sub].
Qed.

Lemma rotated_ok t io k :
  table_ok t -> table_ok (mark_rotating_out io t k).2 /\ table_le t (mark_rotating_out io t k).2.
Proof.
  intros Ht. assert (Hmark : forall t', t' = set_rows t (alter (fun e =>
    if bool_decide (e.1.(sk_state) = KActive) then (set_key_state e.1 KRotatingOut, e.2) else e) k t.(key_rows)) ->
    table_ok t' /\ table_le t t').
  { intros t' ->. split; [split|]; cbn.
    - intros k' r' ts'. rewrite lookup_alter_Some. intros [(<- & [r ts] & Hr & Hif)|[_ Hr']].
      + destruct (tk_rows _ Ht _ _ _ Hr) as [Hkid Hg]. case_bool_decide; simplify_eq/=; by split.
      + by eapply (tk_rows _ Ht).
    - intros k1 k2 r1 r2 ts1 ts2. rewrite !lookup_alter_Some.
      intros [(<- & [a ta] & Ha & Hif)|[_ Ha]] [(<- & [b tb] & Hb & Hif')|[_ Hb]] Hs1 Hs2 Htn;
        repeat case_bool_decide; simplify_eq/=; try done; by eapply (tk_active _ Ht).
    - intros k' r' ts'. rewrite lookup_alter_Some. intros [(<- & [r ts] & Hr & Hif)|[_ Hr']];
        [|by eapply (tk_live _ Ht)].
      pose proof (tk_live _ Ht _ _ _ Hr). case_bool_decide; simplify_eq/=; done.
    - intros k' r ts Hr. destruct (decide (k = k')) as [<-|Hne].
      + cbn. rewrite lookup_alter_eq, Hr. cbn. case_bool_decide; eexists; (split; [done|]); by destruct r.
      + exists r. cbn. rewrite lookup_alter_ne by done. split; [done|]. by destruct r. }
  unfold mark_rotating_out. destruct io as [[e []]|]; cbn; [by apply Hmark|done|by apply Hmark].
Qed.

Lemma other_step_ok t t' : table_ok t -> other_step t t' -> table_ok t' /\ table_le t t'.
Proof.
  intros Ht Hi. revert Ht. destruct Hi as [? ? Hi|io t0 k]; intros Ht; [|by apply rotated_ok].
  destruct (other_insert_ok _ _ Ht Hi) as [? ?]. split; [done|by apply sub_le].
Qed.

Lemma others_ok t t' : table_ok t -> rtc other_step t t' -> table_ok t' /\ table_le t t'.
Proof.
  intros Ht Hrun. induction Hrun as [|x y z Hxy Hrun IH]; [done|].
  destruct (other_step_ok _ _ Ht Hxy) as [Hy Hle]. destruct (IH Hy) as [Hz Hle']. split; [done|].
  by etrans.
Qed.

Lemma others_insert_ok t t' :
  table_ok t -> rtc other_insert t t' -> table_ok t' /\ t.(key_rows) ⊆ t'.(key_rows).
Proof.
  intros Ht Hrun. induction Hrun as [|x y z Hxy Hrun IH]; [done|].
  destruct (other_insert_ok _ _ Ht Hxy) as [Hy Hle]. destruct (IH Hy) as [Hz Hle']. split; [done|].
  by etrans.
Qed.

(** ** One process among others

    [le] is how the other processes may move the table. *)

Definition cached (t : KeyTable) (k pk : string) : Prop :=
  exists r ts, t.(key_rows) !! k = Some (r, ts) /\ r.(sk_public_key) = b64url_encode pk.

Record world_ok (w : World) : Prop := {
  wo_table : table_ok w.(w_keys);
  wo_cache : forall k sk, w.(cache) !! k = Some sk ->
    exists pk, public_of sk = Some pk /\ cached w.(w_keys) k pk;
  wo_public : forall k pk, w.(public_cache) !! k = Some pk -> cached w.(w_keys) k pk;
}.

Lemma cached_le t t' k pk : table_le t t' -> cached t k pk -> cached t' k pk.
Proof.
  intros Hle (r & ts & Hk & Hp). destruct (Hle k r ts Hk) as (r' & Hk' & Hs).
  exists r', ts. split; [done|]. rewrite Hs. exact Hp.
Qed.

Lemma world_ok_table w t :
  world_ok w -> table_ok t -> table_le w.(w_keys) t -> world_ok (set_keys w t).
Proof.
  intros [_ Hc Hp] Ht Hle. split; [done| |]; cbn.
  - intros k sk Hk. destruct (Hc k sk Hk) as (pk & ? & ?). exists pk. split; [done|].
    by eapply cached_le.
  - intros k pk Hk. eapply cached_le; [done|]. by apply Hp.
Qed.

Section Process.
Context (debug_str : string -> string) (o : Outside).
Context (le : relation KeyTable) `{!PreOrder le}.
Context (le_table : forall t t', le t t' -> table_le t t').
Context (le_sub : forall t t', t.(key_rows) ⊆ t'.(key_rows) -> le t t').
Context (others_le : forall n t, table_ok t -> table_ok (o.(o_others) n t) /\ le t (o.(o_others) n t)).
Context (wrapped_is_sealed : forall n tenant p aad w, o.(o_wrap) n tenant p aad = Ok w -> sealed tenant aad p w).
Context (unwrap_inverts : forall n tenant p aad w p',
  sealed tenant aad p w -> o.(o_unwrap) n tenant w aad = Ok p' -> p' = p).

Definition later (w w' : World) : Prop := world_ok w' /\ le w.(w_keys) w'.(w_keys).

Lemma later_trans w w1 w2 : later w w1 -> later w1 w2 -> later w w2.
Proof. intros [_ H1] [H2 H3]. split; [done|]. by etrans. Qed.

(** A row that was active when it was read. *)
Definition seen (r : SigningKeyRecord) (t : KeyTable) : Prop :=
  exists t0 ts, table_ok t0 /\ t0.(key_rows) !! r.(sk_kid) = Some (r, ts) /\
    r.(sk_state) = KActive /\ le t0 t.

Lemma seen_le r t t' : seen r t -> le t t' -> seen r t'.
Proof. intros (t0 & ts & ? & ? & ? & ?) ?. exists t0, ts. split_and!; try done. by etrans. Qed.

Lemma seen_row r t : seen r t -> genuine r /\ exists r' ts, t.(key_rows) !! r.(sk_kid) = Some (r', ts) /\ same_key r r'.
Proof.
  intros (t0 & ts & Ht0 & Hk & _ & Hle). split; [by eapply (tk_rows _ Ht0)|].
  destruct (le_table _ _ Hle _ _ _ Hk) as (r' & ? & ?). eauto.
Qed.

Lemma tick_spec w : world_ok w -> later w (tick o w).2.
Proof.
  intros Hw. destruct (others_le w.(w_next) w.(w_keys) (wo_table _ Hw)) as [Ht Hle].
  split; [|done]. apply (world_ok_table w (o.(o_others) w.(w_next) w.(w_keys))) in Hw as [? ? ?]; [|done|auto].
  by split.
Qed.

Lemma fetch_active_spec tenant w :
  world_ok w -> let '(res, w') := fetch_active debug_str o tenant w in
  later w w' /\ forall r, res = Ok (Some r) -> seen r w'.(w_keys) /\ r.(sk_tenant_id) = tenant.
Proof.
  intros Hw. pose proof (tick_spec w Hw) as [Hw1 Hle].
  change (fetch_active debug_str o tenant w) with
    (shown debug_str (active_for (o.(o_link) w.(w_next)) (tick o w).2.(w_keys) tenant), (tick o w).2).
  split; [by split|]. intros r Hr. unfold active_for, shown in Hr.
  destruct (o_link o (w_next w)) as [[e a]|]; [done|]. injection Hr as Hr.
  assert (Hin : In r (active_of tenant (tick o w).2.(w_keys))).
  { destruct (active_of tenant _) as [|x l]; [done|]. injection Hr as ->. by left. }
  apply active_of_In in Hin as (k & ts & Hk & Ht & Hs). split; [|done].
  destruct (tk_rows _ (wo_table _ Hw1) _ _ _ Hk) as [<- _].
  exists (tick o w).2.(w_keys), ts. split_and!; [apply Hw1|done|done|reflexivity].
Qed.

Lemma store_key_spec r w :
  world_ok w -> genuine r -> r.(sk_state) = KActive -> let '(res, w') := store_key o r w in
  later w w' /\ (res = Ok (Ok tt) -> seen r w'.(w_keys)).
Proof.
  intros Hw Hg Hs. pose proof (tick_spec w Hw) as [Hw1 Hle].
  set (w1 := (tick o w).2) in *.
  change (store_key o r w) with
    (on_table (fun t => insert_active (o.(o_link) w.(w_next)) (o.(o_now) w.(w_next)) t r) w1).
  unfold on_table.
  destruct (insert_active (o_link o (w_next w)) (o_now o (w_next w)) w1.(w_keys) r) as [res t] eqn:Hi.
  pose proof (insert_active_cases (o_link o (w_next w)) (o_now o (w_next w)) w1.(w_keys) r) as Hcases.
  rewrite Hi in Hcases. cbn in Hcases.
  assert (Hset : set_key_state r KActive = r) by (destruct r; cbn in *; by subst).
  destruct Hcases as [[-> Hne]|[Hv ->]].
  - split; [split; [|exact Hle]|by intros [= ->]].
    apply world_ok_table; [done|apply Hw1|reflexivity].
  - assert (Hsub := inserted_sub w1.(w_keys) r (o_now o (w_next w)) Hv).
    assert (Hok := inserted_ok w1.(w_keys) r (o_now o (w_next w)) (wo_table _ Hw1) Hg Hv).
    split; [split; [apply world_ok_table; [done|done|by apply sub_le]|etrans; [exact Hle|by apply le_sub]]|].
    intros _. eexists _, _. split; [exact Hok|]. cbn. rewrite lookup_insert_eq, Hset.
    split_and!; [done|done|reflexivity].
Qed.

Lemma generate_spec tenant w :
  world_ok w -> later w (generate debug_str o tenant w).2 /\
  forall r, (generate debug_str o tenant w).1 = Ok r ->
    seen r (generate debug_str o tenant w).2.(w_keys) /\ r.(sk_tenant_id) = tenant.
Proof.
  intros Hw. pose proof (tick_spec w Hw) as Hl1. set (n := w.(w_next)). set (w1 := (tick o w).2) in *.
  unfold generate. rewrite run_bind. change (tick o w) with (Ok n : result string nat, w1). cbv iota beta.
  rewrite run_lift_bind. destruct (o_pkcs8 o n) as [sk|]; [|split; [exact Hl1|by cbn]].
  rewrite run_lift_bind. destruct (public_of sk) as [pk|] eqn:Hpk; cbn [ok_or]; [|split; [exact Hl1|by cbn]].
  rewrite run_lift_bind. set (k := "wslv-" +:+ o_uuid o n).
  destruct (o_wrap o n (wrap_tenant tenant) sk (wrap_aad k)) as [wrapped|] eqn:Hwr; [|split; [exact Hl1|by cbn]].
  cbv zeta. set (r := {| sk_kid := k; sk_tenant_id := tenant; sk_public_key := b64url_encode pk;
                         sk_wrapped := wrapped; sk_state := KActive |}).
  assert (Hg : genuine r) by (exists sk, pk; eauto).
  rewrite run_bind. pose proof (store_key_spec r w1 (proj1 Hl1) Hg eq_refl) as Hst.
  destruct (store_key o r w1) as [[[[]|e]|e] w2] eqn:Hs; destruct Hst as [Hl2 Hseen].
  - split; [by eapply later_trans|]. intros r0 [= <-]. auto.
  - rewrite run_bind. pose proof (fetch_active_spec tenant w2 (proj1 Hl2)) as Hf.
    destruct (fetch_active debug_str o tenant w2) as [[[r1|]|e1] w3]; destruct Hf as [Hl3 Hf]; cbn.
    all: split; [by eapply later_trans; [|eapply later_trans]|].
    all: try done. intros r0 [= <-]. by apply Hf.
  - split; [by eapply later_trans|done].
Qed.

Lemma unwrap_key_spec r w :
  world_ok w -> seen r w.(w_keys) -> later w (unwrap_key o r w).2 /\
  forall sk, (unwrap_key o r w).1 = Ok sk -> exists pk, public_of sk = Some pk /\ r.(sk_public_key) = b64url_encode pk.
Proof.
  intros Hw Hseen. destruct (seen_row _ _ Hseen) as [(sk0 & pk0 & Hpk0 & Hpub & Hsealed) (r' & ts & Hk & Hsame)].
  unfold unwrap_key. rewrite run_bind. unfold gets. cbv iota beta.
  destruct (w.(cache) !! r.(sk_kid)) as [sk|] eqn:Hc.
  - split; [split; [done|reflexivity]|]. intros ? [= <-].
    destruct (wo_cache _ Hw _ _ Hc) as (pk & Hpk & r1 & ts1 & Hk1 & Hp1). exists pk. split; [done|].
    rewrite Hk in Hk1. injection Hk1 as <- _. rewrite Hsame in Hp1. exact Hp1.
  - rewrite run_bind. pose proof (tick_spec w Hw) as Hl1. set (n := w.(w_next)). set (w1 := (tick o w).2) in *.
    change (tick o w) with (Ok n : result string nat, w1). cbv iota beta. rewrite run_lift_bind.
    destruct (o_unwrap o n _ _ _) as [sk|] eqn:Hu; [|split; [exact Hl1|by cbn]].
    apply (unwrap_inverts _ _ sk0) in Hu; [|done]. subst sk.
    assert (Hl2 : later w (set_cache w1 (<[r.(sk_kid) := sk0]> w1.(cache)))).
    { destruct Hl1 as [[Ht1 Hc1 Hp1] Hle]. split; [|exact Hle]. split; [done| |done]. intros k sk.
      cbn [set_cache cache w_keys]. rewrite lookup_insert_Some. intros [[<- <-]|[_ Hs]]; [|by apply Hc1].
      exists pk0. split; [done|]. eapply cached_le; [by apply le_table|]. exists r', ts. split; [done|].
      by rewrite Hsame. }
    split; [exact Hl2|]. intros ? [= <-]. by exists pk0.
Qed.

Lemma signer_for_spec tenant w :
  world_ok w -> later w (signer_for debug_str o tenant w).2 /\
  forall k, (signer_for debug_str o tenant w).1 = Ok k ->
    exists r pk, seen r (signer_for debug_str o tenant w).2.(w_keys) /\ r.(sk_tenant_id) = tenant /\
      r.(sk_kid) = k.(lk_kid) /\ public_of k.(lk_encoding) = Some pk /\ r.(sk_public_key) = b64url_encode pk.
Proof.
  intros Hw. unfold signer_for. rewrite run_bind. pose proof (fetch_active_spec tenant w Hw) as Hf.
  destruct (fetch_active debug_str o tenant w) as [[existing|e] w1]; destruct Hf as [Hl1 Hf]; [|split; [exact Hl1|by cbn]].
  rewrite run_bind. set (m := match existing with Some r => mret r | None => generate debug_str o tenant end).
  assert (Hm : later w1 (m w1).2 /\ forall r, (m w1).1 = Ok r ->
    seen r (m w1).2.(w_keys) /\ r.(sk_tenant_id) = tenant).
  { destruct existing as [r|]; [|by apply generate_spec, Hl1]. cbn.
    split; [split; [apply Hl1|reflexivity]|]. intros ? [= <-]. by apply Hf. }
  destruct (m w1) as [[r|e] w2]; cbn in Hm; destruct Hm as [Hl2 Hm]; [|split; [by eapply later_trans|done]].
  destruct (Hm r eq_refl) as [Hseen Ht]. rewrite run_bind.
  pose proof (unwrap_key_spec r w2 (proj1 Hl2) Hseen) as [Hl3 Hu].
  assert (Hl : later w (unwrap_key o r w2).2) by (by eapply later_trans; [|eapply later_trans]).
  destruct (unwrap_key o r w2) as [[sk|e] w3]; [|by split]. split; [done|].
  intros k [= <-]. destruct (Hu sk eq_refl) as (pk & Hpk & Hpub). exists r, pk.
  split_and!; try done. eapply seen_le; [done|]. apply Hl3.
Qed.

Lemma public_key_for_spec k w :
  world_ok w -> later w (public_key_for debug_str o k w).2 /\
  forall pk, (public_key_for debug_str o k w).1 = Ok pk ->
    cached (public_key_for debug_str o k w).2.(w_keys) k pk.
Proof.
  intros Hw. unfold public_key_for. rewrite run_bind. unfold gets. cbv iota beta.
  destruct (w.(public_cache) !! k) as [pk|] eqn:Hc.
  - split; [split; [done|reflexivity]|]. intros ? [= <-]. by apply (wo_public _ Hw).
  - rewrite run_bind. pose proof (tick_spec w Hw) as Hl1. set (n := w.(w_next)). set (w1 := (tick o w).2) in *.
    change (tick o w) with (Ok n : result string nat, w1). cbv iota beta. rewrite run_bind. cbv iota beta.
    rewrite run_lift_bind. unfold by_kid. destruct (o_link o n) as [[e a]|]; [split; [exact Hl1|by cbn]|]. cbn [shown].
    rewrite run_lift_bind.
    destruct (w1.(w_keys).(key_rows) !! k) as [[r ts]|] eqn:Hk; cbn [fmap option_fmap option_map ok_or fst]; [|split; [exact Hl1|by cbn]].
    rewrite run_lift_bind. destruct (tk_rows _ (wo_table _ (proj1 Hl1)) _ _ _ Hk) as [_ (sk & pk & Hpk & Hpub & _)].
    rewrite Hpub, b64url_inverse. rewrite run_lift_bind. case_bool_decide; [|split; [exact Hl1|by cbn]].
    assert (Hcached : cached w1.(w_keys) k pk) by (exists r, ts; auto).
    assert (Hl2 : later w (set_public_cache w1 (<[k := pk]> w1.(public_cache)))).
    { destruct Hl1 as [[Ht1 Hc1 Hp1] Hle]. split; [|exact Hle]. split; [done|done|]. intros k' pk'.
      cbn [set_public_cache public_cache w_keys]. rewrite lookup_insert_Some.
      intros [[<- <-]|[_ Hp]]; [done|]. by apply Hp1. }
    split; [exact Hl2|]. by intros ? [= <-].
Qed.

(** Without a failing statement the key of a row is found. *)
Lemma public_key_for_found k pk w :
  world_ok w -> (forall n, o.(o_link) n = None) -> cached w.(w_keys) k pk ->
  (public_key_for debug_str o k w).1 = Ok pk.
Proof.
  intros Hw Hlink Hc. pose proof (public_key_for_spec k w Hw) as [[Hw' Hle] Hspec].
  assert (Hok : exists pk', (public_key_for debug_str o k w).1 = Ok pk').
  { clear Hw' Hle Hspec. unfold public_key_for. rewrite run_bind. unfold gets. cbv iota beta.
    destruct (w.(public_cache) !! k) as [pk'|]; [by eexists|].
    pose proof (tick_spec w Hw) as [Hw1 Hle]. rewrite run_bind. set (n := w.(w_next)). set (w1 := (tick o w).2) in *.
    change (tick o w) with (Ok n : result string nat, w1). cbv iota beta. rewrite run_bind. cbv iota beta.
    rewrite run_lift_bind. unfold by_kid. rewrite Hlink. cbn [shown]. rewrite run_lift_bind.
    destruct (cached_le _ _ _ _ (le_table _ _ Hle) Hc) as (r & ts & Hk & _). rewrite Hk.
    cbn [fmap option_fmap option_map ok_or fst]. rewrite run_lift_bind.
    destruct (tk_rows _ (wo_table _ Hw1) _ _ _ Hk) as [_ (sk & pk' & Hpk & Hpub & _)].
    rewrite Hpub, b64url_inverse. rewrite run_lift_bind, bool_decide_true; [by eexists|].
    by eapply public_length. }
  destruct Hok as [pk' Hok]. rewrite Hok. f_equal. destruct (Hspec _ Hok) as (r & ts & Hk & Hp).
  destruct (cached_le _ _ _ _ (le_table _ _ Hle) Hc) as (r1 & ts1 & Hk1 & Hp1).
  rewrite Hk in Hk1. injection Hk1 as <- _. rewrite Hp in Hp1.
  apply (f_equal b64url_decode) in Hp1. rewrite !b64url_inverse in Hp1. by injection Hp1.
Qed.

Lemma verify_accepts now token k pk c w :
  world_ok w -> (forall n, o.(o_link) n = None) -> cached w.(w_keys) k pk ->
  jwt_header token = Ok (EdDSA, Some k) -> eddsa_open pk token = Ok c ->
  now / NANOS - LEEWAY_SECONDS <= c.(c_exp) -> (verify debug_str o now token w).1 = Ok c.
Proof.
  intros Hw Hlink Hc Hh Ho Hexp. unfold verify. rewrite run_lift_bind, Hh. rewrite run_bind.
  pose proof (public_key_for_found k pk w Hw Hlink Hc) as Hpk.
  destruct (public_key_for debug_str o k w) as [res w']. cbn in Hpk. rewrite Hpk. unfold lift.
  rewrite Ho. rewrite (proj2 (Z.ltb_ge _ _)) by lia. done.
Qed.

Lemma verify_spec now token w :
  world_ok w -> later w (verify debug_str o now token w).2 /\
  forall c, (verify debug_str o now token w).1 = Ok c ->
    exists k pk, jwt_header token = Ok (EdDSA, Some k) /\
      cached (verify debug_str o now token w).2.(w_keys) k pk /\
      eddsa_open pk token = Ok c /\ now / NANOS - LEEWAY_SECONDS <= c.(c_exp).
Proof.
  intros Hw. assert (Hl0 : later w w) by (split; [done|reflexivity]).
  unfold verify. rewrite run_lift_bind.
  destruct (jwt_header token) as [[[| |a] [k|]]|]; try (split; [exact Hl0|by cbn]).
  rewrite run_bind. pose proof (public_key_for_spec k w Hw) as [Hl Hspec].
  destruct (public_key_for debug_str o k w) as [[pk|e] w']; [|split; [exact Hl|by cbn]]. cbn in Hl, Hspec.
  split; [exact Hl|]. unfold lift. intros c. cbn [fst snd].
  destruct (eddsa_open pk token) as [c'|] eqn:Ho; [|done]. destruct (_ <? _) eqn:Hlt; [done|].
  intros [= <-]. exists k, pk. apply Z.ltb_ge in Hlt. split_and!; try done. by apply Hspec.
Qed.

Lemma jwks_spec w :
  world_ok w -> later w (jwks debug_str o w).2 /\
  forall l, (jwks debug_str o w).1 = Ok l -> forall k pk, cached (jwks debug_str o w).2.(w_keys) k pk ->
    In {| jwk_kid := k; jwk_x := b64url_encode pk |} l.
Proof.
  intros Hw. pose proof (tick_spec w Hw) as Hl1. set (w1 := (tick o w).2) in *.
  change (jwks debug_str o w) with ((records ← lift (shown debug_str (publishable (o.(o_link) w.(w_next)) w1.(w_keys)));
    mret (map (fun r => {| jwk_kid := r.(sk_kid); jwk_x := r.(sk_public_key) |}) records)) w1).
  rewrite run_lift_bind. unfold publishable. destruct (o_link o (w_next w)) as [[e a]|]; [split; [exact Hl1|by cbn]|].
  cbn [shown]. split; [exact Hl1|]. intros l [= <-] k pk (r & ts & Hk & Hp).
  change (w1.(w_keys).(key_rows) !! k = Some (r, ts)) in Hk. destruct (tk_rows _ (wo_table _ (proj1 Hl1)) _ _ _ Hk) as [Hkid _].
  pose proof (tk_live _ (wo_table _ (proj1 Hl1)) _ _ _ Hk) as Hlive.
  rewrite map_map, in_map_iff. exists (r, ts). split; [cbn; by rewrite Hkid, Hp|].
  apply list_elem_of_In. rewrite order_by_perm. apply list_elem_of_In, List.filter_In. split.
  - apply in_map_iff. exists (k, (r, ts)). split; [done|]. by apply list_elem_of_In, elem_of_map_to_list.
  - apply bool_decide_eq_true. cbn. by destruct r.(sk_state); [left|right|].
Qed.

End Process.

(** ** Deployments *)

(** What a process may count on: the other processes only do what the code does,
    and the crypto-service gives back what it wrapped. *)
Record outside_ok (others : relation KeyTable) (o : Outside) : Prop := {
  oo_others : forall n t, rtc others t (o.(o_others) n t);
  oo_wrap : forall n tenant p aad w, o.(o_wrap) n tenant p aad = Ok w -> sealed tenant aad p w;
  oo_unwrap : forall n tenant p aad w p',
    sealed tenant aad p w -> o.(o_unwrap) n tenant w aad = Ok p' -> p' = p;
}.

Context (debug_str : string -> string).

(** A process serves requests, is restarted, and sees the table move. *)
Inductive process_step : World -> World -> Prop :=
| do_signer o tenant w :
    outside_ok other_step o -> process_step w (signer_for debug_str o tenant w).2
| do_verify o now token w :
    outside_ok other_step o -> process_step w (verify debug_str o now token w).2
| do_jwks o w : outside_ok other_step o -> process_step w (jwks debug_str o w).2
| do_restart w n :
    process_step w {| w_keys := w.(w_keys); cache := ∅; public_cache := ∅; w_next := n |}
| do_others w t : rtc other_step w.(w_keys) t -> process_step w (set_keys w t).

Definition pristine (w : World) : Prop :=
  w.(w_keys).(key_rows) = ∅ /\ w.(cache) = ∅ /\ w.(public_cache) = ∅.

Lemma pristine_ok w : pristine w -> world_ok w.
Proof.
  intros (Hk & Hc & Hp). split; [split; rewrite Hk|rewrite Hc|rewrite Hp]; intros *; by rewrite lookup_empty.
Qed.

(** How the table moves while others run, in the two cases below. *)
Lemma outside_le o :
  outside_ok other_step o ->
  forall n t, table_ok t -> table_ok (o.(o_others) n t) /\ table_le t (o.(o_others) n t).
Proof. intros Ho n t Ht. apply others_ok; [done|]. apply Ho. Qed.

Definition rows_sub (t t' : KeyTable) : Prop := t.(key_rows) ⊆ t'.(key_rows).

#[export] Instance rows_sub_preorder : PreOrder rows_sub.
Proof. split; [intros t; unfold rows_sub; done|intros x y z; unfold rows_sub; apply transitivity]. Qed.

Lemma outside_sub o :
  outside_ok other_insert o ->
  forall n t, table_ok t -> table_ok (o.(o_others) n t) /\ rows_sub t (o.(o_others) n t).
Proof. intros Ho n t Ht. apply others_insert_ok; [done|]. apply Ho. Qed.

Lemma process_step_ok w w' :
  world_ok w -> process_step w w' -> world_ok w' /\ table_le w.(w_keys) w'.(w_keys).
Proof.
  intros Hw Hstep. revert Hw. destruct Hstep as [o tenant w Ho|o now token w Ho|o w Ho|w n|w t Hrun]; intros Hw.
  - pose proof (outside_le o Ho). destruct Ho.
    by apply (signer_for_spec debug_str o table_le (fun _ _ Hle => Hle) sub_le).
  - pose proof (outside_le o Ho). by apply (verify_spec debug_str o table_le (fun _ _ Hle => Hle)).
  - pose proof (outside_le o Ho). by apply (jwks_spec debug_str o table_le (fun _ _ Hle => Hle)).
  - split; [|reflexivity]. split; [apply Hw| |]; intros *; cbn [cache public_cache]; by rewrite lookup_empty.
  - destruct (others_ok _ _ (wo_table _ Hw) Hrun) as [Ht Hle]. split; [|done]. by apply world_ok_table.
Qed.

Lemma process_run_ok w w' : world_ok w -> rtc process_step w w' -> world_ok w'.
Proof.
  intros Hw Hrun. induction Hrun as [|x y z Hxy Hrun IH]; [done|]. apply IH.
  by apply (process_step_ok x).
Qed.

(** However processes race for the first key of a tenant, and whatever inserts
    fail or are answered too late, they end up with one: as long as no key is
    taken out of use, two processes that were given a signer for the same tenant
    were given the same key. *)
Theorem signers_agree o o' tenant w0 w w1 v0 v v1 k k' :
  pristine w0 -> rtc process_step w0 w -> outside_ok other_insert o ->
  signer_for debug_str o tenant w = (Ok k, w1) ->
  pristine v0 -> rtc process_step v0 v -> outside_ok other_insert o' ->
  rows_sub w1.(w_keys) v.(w_keys) -> signer_for debug_str o' tenant v = (Ok k', v1) ->
  k.(lk_kid) = k'.(lk_kid) /\ public_of k.(lk_encoding) = public_of k'.(lk_encoding).
Proof.
  intros Hw0 Hrun Ho Hs Hv0 Hrun' Ho' Hsub Hs'.
  pose proof (process_run_ok _ _ (pristine_ok _ Hw0) Hrun) as Hw.
  pose proof (process_run_ok _ _ (pristine_ok _ Hv0) Hrun') as Hv.
  destruct (signer_for_spec debug_str o rows_sub sub_le (fun _ _ Hle => Hle) (outside_sub o Ho)
    (oo_wrap _ _ Ho) (oo_unwrap _ _ Ho) tenant w Hw) as [_ Hk].
  destruct (signer_for_spec debug_str o' rows_sub sub_le (fun _ _ Hle => Hle) (outside_sub o' Ho')
    (oo_wrap _ _ Ho') (oo_unwrap _ _ Ho') tenant v Hv) as [[Hv1 Hle1] Hk'].
  rewrite Hs in Hk. rewrite Hs' in Hk', Hle1, Hv1. cbn in *.
  destruct (Hk k eq_refl) as (r & pk & (t & ts & _ & Hr & Hact & Hle) & Ht & <- & -> & Hpub).
  destruct (Hk' k' eq_refl) as (r' & pk' & (t' & ts' & _ & Hr' & Hact' & Hle') & Ht' & <- & -> & Hpub').
  assert (Hrow : v1.(w_keys).(key_rows) !! r.(sk_kid) = Some (r, ts)).
  { eapply lookup_weaken; [exact Hr|]. exact (transitivity Hle (transitivity Hsub Hle1)). }
  assert (Hrow' : v1.(w_keys).(key_rows) !! r'.(sk_kid) = Some (r', ts')) by (by eapply lookup_weaken).
  assert (Hkid : r.(sk_kid) = r'.(sk_kid)).
  { eapply (tk_active _ (wo_table _ Hv1)); eauto. congruence. }
  split; [done|]. rewrite Hkid, Hrow' in Hrow. injection Hrow as -> _. rewrite Hpub' in Hpub.
  apply (f_equal b64url_decode) in Hpub. rewrite !b64url_inverse in Hpub. congruence.
Qed.

(** C37. What a process signs every process can check: a token encoded with the
    signer of a process is verified, with its claims, by any process that sees the
    table as it was left or later, whatever keys were rotated since, until a minute
    after its expiry; and the key set any process publishes contains the key. *)
Theorem issued_tokens_verify o o' tenant w0 w w1 v0 v k claims token now :
  pristine w0 -> rtc process_step w0 w -> outside_ok other_step o ->
  signer_for debug_str o tenant w = (Ok k, w1) -> (signer_of k).(signer_encode) claims = Ok token ->
  pristine v0 -> rtc process_step v0 v -> outside_ok other_step o' -> (forall n, o'.(o_link) n = None) ->
  table_le w1.(w_keys) v.(w_keys) -> now / NANOS <= claims.(c_exp) + LEEWAY_SECONDS ->
  (verify debug_str o' now token v).1 = Ok claims /\
  forall l, (jwks debug_str o' v).1 = Ok l ->
    exists j pk, In j l /\ j.(jwk_kid) = k.(lk_kid) /\ b64url_decode j.(jwk_x) = Ok pk /\
      eddsa_open pk token = Ok claims.
Proof.
  intros Hw0 Hrun Ho Hs Hsign Hv0 Hrun' Ho' Hlink Hle Hnow.
  pose proof (process_run_ok _ _ (pristine_ok _ Hw0) Hrun) as Hw.
  pose proof (process_run_ok _ _ (pristine_ok _ Hv0) Hrun') as Hv.
  pose proof (outside_le o' Ho') as Hothers.
  destruct (signer_for_spec debug_str o table_le (fun _ _ Hle => Hle) sub_le (outside_le o Ho)
    (oo_wrap _ _ Ho) (oo_unwrap _ _ Ho) tenant w Hw) as [_ Hk].
  rewrite Hs in Hk. destruct (Hk k eq_refl) as (r & pk & Hseen & Ht & Hkid & Hpk & Hpub).
  apply (seen_row table_le (fun _ _ Hle => Hle)) in Hseen as [_ (r' & ts & Hr' & Hsame)]. cbn in Hr'.
  assert (Hc : cached v.(w_keys) k.(lk_kid) pk).
  { eapply cached_le; [exact Hle|]. exists r', ts. rewrite <- Hkid. split; [done|]. by rewrite Hsame. }
  cbn in Hsign. pose proof (header_of_signed _ _ _ _ Hsign) as Hh.
  pose proof (open_signed _ _ _ _ _ Hpk Hsign) as Hopen. split.
  - eapply (verify_accepts debug_str o' table_le (fun _ _ Hle => Hle)); eauto. lia.
  - intros l Hl. destruct (jwks_spec debug_str o' table_le (fun _ _ Hle => Hle) Hothers v Hv) as [[_ Hle'] Hin].
    exists {| jwk_kid := k.(lk_kid); jwk_x := b64url_encode pk |}, pk. cbn. rewrite b64url_inverse.
    split; [|done]. apply (Hin l Hl). by eapply cached_le.
Qed.

(** Nothing else is verified: a token a process accepts names a key of the
    table and was signed with the private half of that key, and it is at most a
    minute past its expiry. *)
Theorem verified_was_signed o w0 w now token claims w1 :
  pristine w0 -> rtc process_step w0 w -> outside_ok other_step o ->
  verify debug_str o now token w = (Ok claims, w1) ->
  exists k r ts sk pk kid', w1.(w_keys).(key_rows) !! k = Some (r, ts) /\
    jwt_header token = Ok (EdDSA, Some k) /\ r.(sk_public_key) = b64url_encode pk /\
    public_of sk = Some pk /\ eddsa_sign sk kid' claims = Ok token /\
    now / NANOS <= claims.(c_exp) + LEEWAY_SECONDS.
Proof.
  intros Hw0 Hrun Ho Hv. pose proof (process_run_ok _ _ (pristine_ok _ Hw0) Hrun) as Hw.
  pose proof (outside_le o Ho) as Hothers.
  destruct (verify_spec debug_str o table_le (fun _ _ Hle => Hle) Hothers now token w Hw) as [_ Hspec].
  rewrite Hv in Hspec. destruct (Hspec claims eq_refl) as (k & pk & Hh & (r & ts & Hr & Hp) & Hopen & Hexp).
  destruct (opened_was_signed _ _ _ Hopen) as (sk & kid' & Hpk & Hsign).
  exists k, r, ts, sk, pk, kid'. split_and!; try done. lia.
Qed.

(** The tenant of a key is not part of the check. Whoever holds the private
    half of one tenant's key makes tokens for any tenant, superuser tokens among
    them, and every process accepts them. *)
Theorem tenant_key_signs_for_anyone o w0 w now k r ts sk claims token :
  pristine w0 -> rtc process_step w0 w -> outside_ok other_step o -> (forall n, o.(o_link) n = None) ->
  w.(w_keys).(key_rows) !! k = Some (r, ts) ->
  b64url_encode <$> public_of sk = Some r.(sk_public_key) ->
  eddsa_sign sk (Some k) claims = Ok token -> now / NANOS <= claims.(c_exp) + LEEWAY_SECONDS ->
  (verify debug_str o now token w).1 = Ok claims.
Proof.
  intros Hw0 Hrun Ho Hlink Hr Hsk Hsign Hnow.
  pose proof (process_run_ok _ _ (pristine_ok _ Hw0) Hrun) as Hw. pose proof (outside_le o Ho) as Hothers.
  destruct (public_of sk) as [pk|] eqn:Hpk; [|done]. injection Hsk as Hpub.
  eapply (verify_accepts debug_str o table_le (fun _ _ Hle => Hle) Hothers now token k pk); eauto.
  - exists r, ts. by rewrite Hpub.
  - by eapply header_of_signed.
  - by eapply open_signed.
  - lia.
Qed.

End Runs.

(** ** On concrete data *)

Module SigningDemo.

#[local] Instance IssuedClaims_eq_dec : EqDecision IssuedClaims.
Proof. solve_decision. Defined.

Definition SK : string := "0123456789abcdef0123456789abcdef".

Definition claims : IssuedClaims :=
  {| c_sub := "mallory"; c_tenant_id := "t2"; c_policies := []; c_superuser := true; c_iss := "wslvault";
     c_aud := "wslvault"; c_iat := 100; c_exp := 3700 |}.

(** One key pair and one set of claims. *)
#[local] Instance libs : SigningLibs := {|
  public_of sk := if decide (sk = SK) then Some SK else None;
  b64url_encode s := s;
  b64url_decode s := Ok s;
  jwt_header tok := match tok with String "E"%char k => Ok (EdDSA, Some k) | _ => Err "InvalidToken" end;
  eddsa_sign sk k c :=
    if decide (sk = SK /\ c = claims) then match k with Some k => Ok (String "E"%char k) | None => Err "no kid" end
    else Err "unsupported";
  eddsa_open pk tok :=
    if decide (pk = SK) then match tok with String "E"%char _ => Ok claims | _ => Err "InvalidSignature" end
    else Err "InvalidSignature";
|}.

#[local] Instance laws : SigningLaws.
Proof.
  split; cbn.
  - intros sk pk. case_decide; [|done]. by intros [= <-].
  - done.
  - intros sk k c tok. case_decide; [|done]. destruct k; [|done]. by intros [= <-].
  - intros sk pk k c tok. case_decide; [|done]. intros [= <-]. case_decide as Hc; [|done].
    destruct k; [|done]. intros [= <-]. rewrite decide_True by done. by destruct Hc as [_ ->].
  - intros pk tok c. case_decide as Hpk; [|done]. destruct tok as [|a k]; [done|]. intros Ho.
    assert (Ha : a = "E"%char /\ c = claims).
    { destruct a as [[] [] [] [] [] [] [] []]; try done. by injection Ho as <-. }
    destruct Ha as [-> ->]. exists SK, (Some k). rewrite !decide_True by done. by rewrite Hpk.
Qed.

Definition sealed (tenant aad p w : string) : Prop := w = p.

Definition outside : Outside :=
  {| o_link := fun _ => None; o_others := fun _ t => t; o_pkcs8 := fun _ => Ok SK;
     o_uuid := fun n => pretty.pretty (N.of_nat n); o_wrap := fun _ _ p _ => Ok p;
     o_unwrap := fun _ _ w _ => Ok w; o_now := Z.of_nat |}.

Lemma outside_fine others : outside_ok sealed others outside.
Proof. split; cbn; [done|unfold sealed; congruence..]. Qed.

Definition start : World :=
  {| w_keys := {| key_rows := ∅; key_tenants := {["t1"]} |}; cache := ∅; public_cache := ∅; w_next := 0 |}.

Definition same (s : string) : string := s.

Definition signed : World := (signer_for same outside (Some "t1") start).2.

(** The key the first login generated. *)
Definition key : LoadedKey := {| lk_kid := "wslv-1"; lk_encoding := SK |}.

Example first_login : signer_for same outside (Some "t1") start = (Ok key, signed).
Proof. vm_compute. reflexivity. Qed.

Lemma start_pristine : pristine start.
Proof. done. Qed.

Lemma signed_reached : rtc (process_step sealed same) start signed.
Proof. apply rtc_once. constructor. apply outside_fine. Qed.

Lemma signers_agree_witness :
  key.(lk_kid) = key.(lk_kid) /\ public_of key.(lk_encoding) = public_of key.(lk_encoding).
Proof.
  eapply (signers_agree sealed same outside outside (Some "t1") start start signed start signed).
  - apply start_pristine.
  - apply rtc_refl.
  - apply outside_fine.
  - apply first_login.
  - apply start_pristine.
  - apply signed_reached.
  - apply outside_fine.
  - reflexivity.
  - vm_compute. reflexivity.
Defined.

Lemma issued_tokens_verify_witness :
  (verify same outside (3750 * NANOS) "Ewslv-1" signed).1 = Ok claims.
Proof.
  eapply (proj1 (issued_tokens_verify sealed same outside outside (Some "t1") start start signed start signed
    key claims "Ewslv-1" (3750 * NANOS) start_pristine (rtc_refl _ _) (outside_fine _) first_login eq_refl
    start_pristine signed_reached (outside_fine _) (fun _ => eq_refl) (reflexivity _) ltac:(done))).
Defined.

Lemma verified_was_signed_witness :
  exists k r ts sk pk kid',
    (verify same outside (200 * NANOS) "Ewslv-1" signed).2.(w_keys).(key_rows) !! k = Some (r, ts) /\
    jwt_header "Ewslv-1" = Ok (EdDSA, Some k) /\ r.(sk_public_key) = b64url_encode pk /\
    public_of sk = Some pk /\ eddsa_sign sk kid' claims = Ok "Ewslv-1" /\
    200 * NANOS / NANOS <= claims.(c_exp) + LEEWAY_SECONDS.
Proof.
  apply (verified_was_signed sealed same outside start signed (200 * NANOS) "Ewslv-1" claims
    (verify same outside (200 * NANOS) "Ewslv-1" signed).2 start_pristine signed_reached (outside_fine _)).
  vm_compute. reflexivity.
Defined.

Lemma tenant_key_signs_for_anyone_witness :
  (verify same outside (200 * NANOS) "Ewslv-1" signed).1 = Ok claims.
Proof.
  eapply (tenant_key_signs_for_anyone sealed same outside start signed (200 * NANOS) "wslv-1" _ _ SK claims
    "Ewslv-1" start_pristine signed_reached (outside_fine _) (fun _ => eq_refl)).
  - vm_compute. reflexivity.
  - vm_compute. reflexivity.
  - reflexivity.
  - vm_compute. discriminate.
Defined.

End SigningDemo.
