(* ===== verification/Tokens.v ===== *)
(** * Tokens and their revocation

    [wslvault-storage/src/revocation_store.rs] with [020_token_revocation.sql], and
    of [services/identity-service/src] the HS256 side of [token.rs], the principal
    store [store.rs] and the gRPC service [grpc.rs].

    Times are nanoseconds since the epoch; claims carry whole seconds. One clock
    serves the process and the database. The signature of a token, its hash and
    the external login methods are parameters. *)

From Stdlib Require Import Lia Ascii.
From S2P Require Import Prelude Errors Effects Mfa.

(** ** revocation_store.rs *)

Record Revocation := { rv_tenant_id : string; rv_principal_id : string; rv_expires_at : Z }.

Abbreviation Revocations := (gmap string Revocation).

(** A round trip fails with a text, its effect applied or not. *)
Definition RoundTrip : Type := option (string * bool).

Definition is_hex (a : ascii) : bool :=
  Str.is_ascii_digit a
  || let n := nat_of_ascii a in
     ((65 <=? n) && (n <=? 70))%nat || ((97 <=? n) && (n <=? 102))%nat.

Definition hash_shape (h : string) : bool := (String.length h =? 64)%nat && Str.forallb is_hex h.

Section Store.
Context (token_hash : string -> string) (representable : Z -> bool) (show_z : Z -> string).

(** [DateTime::from_timestamp(secs, 0)] *)
Definition from_timestamp (secs : Z) : option Z :=
  if representable secs then Some (secs * NANOS) else None.

(** [INSERT .. ON CONFLICT (token_hash) DO NOTHING] *)
Definition record_revocation (io : RoundTrip) (failed : string) (m : Revocations) (h tenant principal : string)
    (expires_at_unix : Z) : vresult () * Revocations :=
  match from_timestamp expires_at_unix with
  | None => (Err (ValidationError "expires_at"
                    ("token exp " +:+ show_z expires_at_unix +:+ " is not a representable timestamp")), m)
  | Some at_ =>
      let m' := match m !! h with
                | Some _ => m
                | None => <[h := {| rv_tenant_id := tenant; rv_principal_id := principal;
                                    rv_expires_at := at_ |}]> m
                end in
      match io with
      | None => (Ok tt, m')
      | Some (e, applied) => (Err (Database (failed +:+ e)), if applied then m' else m)
      end
  end.

Definition revoke (io : RoundTrip) (m : Revocations) (token tenant principal : string) (expires_at_unix : Z) :
    vresult () * Revocations :=
  record_revocation io "failed to record token revocation: " m (token_hash token) tenant principal
    expires_at_unix.

Definition revoke_by_hash (io : RoundTrip) (m : Revocations) (h tenant principal : string)
    (expires_at_unix : Z) : vresult () * Revocations :=
  if negb (hash_shape h)
  then (Err (ValidationError "token_hash" "token_hash must be 64 hex characters (SHA-256)"), m)
  else record_revocation io "failed to record token revocation by hash: " m h tenant principal expires_at_unix.

Definition revoked_at (now : Z) (m : Revocations) (h : string) : bool :=
  match m !! h with Some r => now <? r.(rv_expires_at) | None => false end.

Definition is_revoked (io : RoundTrip) (now : Z) (m : Revocations) (token : string) : vresult bool :=
  match io with
  | Some (e, _) => Err (Database ("revocation lookup failed: " +:+ e))
  | None => Ok (revoked_at now m (token_hash token))
  end.

Definition reap_expired (io : RoundTrip) (now : Z) (m : Revocations) : vresult Z * Revocations :=
  let m' := filter (fun e => ~ e.2.(rv_expires_at) < now) m in
  match io with
  | None => (Ok (Z.of_nat (size m) - Z.of_nat (size m')), m')
  | Some (e, applied) => (Err (Database ("revocation reaper failed: " +:+ e)), if applied then m' else m)
  end.

End Store.

(** ** store.rs *)

Inductive AuthMethod :=
| MTokenAuth
| MMachineIdentity (service_account : string)
| MAwsIam (account_id arn : string)
| MAzureWorkload (object_id azure_tenant_id : string).

Record PrincipalRecord := {
  pr_id : string;
  pr_tenant_id : string;
  pr_display_name : string;
  pr_auth_method : AuthMethod;
  pr_policies : list string;
  pr_created_at : Z;
}.

Abbreviation PrincipalStore := (gmap (string * string) PrincipalRecord).

Definition create_principal (m : PrincipalStore) (r : PrincipalRecord) : vresult () * PrincipalStore :=
  let key := (r.(pr_tenant_id), r.(pr_id)) in
  match m !! key with
  | Some _ => (Err (ValidationError "principal_id"
                      ("principal '" +:+ r.(pr_id) +:+ "' already exists in tenant '"
                       +:+ r.(pr_tenant_id) +:+ "'")), m)
  | None => (Ok tt, <[key := r]> m)
  end.

Definition list_principals (m : PrincipalStore) (tenant : string) : list PrincipalRecord :=
  map snd (List.filter (fun e => bool_decide (e.1.1 = tenant)) (map_to_list m)).

Definition update_policies (m : PrincipalStore) (tenant principal : string) (new_policies : list string) :
    vresult () * PrincipalStore :=
  match m !! (tenant, principal) with
  | None => (Err (TenantNotFound ("principal '" +:+ principal +:+ "' in tenant '" +:+ tenant +:+ "'")), m)
  | Some r =>
      (Ok tt, <[(tenant, principal) := {| pr_id := r.(pr_id); pr_tenant_id := r.(pr_tenant_id);
          pr_display_name := r.(pr_display_name); pr_auth_method := r.(pr_auth_method);
          pr_policies := new_policies; pr_created_at := r.(pr_created_at) |}]> m)
  end.

(** ** grpc.rs *)

Inductive Code := InvalidArgument | NotFound | PermissionDeniedCode | UnauthenticatedCode | UnavailableCode | InternalCode.

Record Status := { code : Code; message : string }.

(** What the external login methods answer. *)
Record OidcResult := { oi_subject : string; oi_tenant_id : string; oi_policies : list string; oi_display_name : string }.
Record AwsResult := {
  aw_account_id : string; aw_arn : string; aw_tenant_id : string; aw_policies : list string; aw_display_name : string;
}.
Record AzureResult := {
  az_object_id : string; az_azure_tenant_id : string; az_tenant_id : string; az_policies : list string;
  az_display_name : string;
}.
Record MtlsResult := { mt_principal_id : string; mt_tenant_id : string; mt_policies : list string; mt_display_name : string }.

(** The managers, where they are configured. *)
Record Managers := {
  oidc_manager : option (string -> string -> result string OidcResult);
  mtls_manager : option (string -> result string MtlsResult);
  aws_iam_manager : option (string -> string -> string -> string -> string -> result string AwsResult);
  azure_workload_manager : option (string -> string -> string -> string -> result string AzureResult);
}.

Inductive Method :=
| MToken (token : string)
| MOidc (provider id_token : string)
| MAws (url body headers role_arn : string)
| MAzure (jwt azure_tenant_id subscription_id : string)
| MMtls (certificate_pem : string).

Record AuthenticateResponse := {
  ar_token : string;
  ar_principal_id : string;
  ar_tenant_id : string;
  ar_policies : list string;
  ar_expires_at : Z;
  ar_lease_id : string;
}.

Record ValidateTokenResponse := {
  valid : bool;
  vt_principal_id : string;
  vt_tenant_id : string;
  vt_policies : list string;
}.

Definition invalid_response : ValidateTokenResponse :=
  {| valid := false; vt_principal_id := ""; vt_tenant_id := ""; vt_policies := [] |}.

Record CreatedAccount := { ca_principal_id : string; ca_token : string; ca_lease_id : string }.

(** The service: durable revocations where there is a database, else a set. *)
Record Service := {
  revocation_pool : option Revocations;
  revoked_tokens : gset string;
  principals : PrincipalStore;
}.

Definition with_pool (s : Service) (m : Revocations) : Service :=
  {| revocation_pool := Some m; revoked_tokens := s.(revoked_tokens); principals := s.(principals) |}.
Definition with_set (s : Service) (m : gset string) : Service :=
  {| revocation_pool := s.(revocation_pool); revoked_tokens := m; principals := s.(principals) |}.
Definition with_principals (s : Service) (m : PrincipalStore) : Service :=
  {| revocation_pool := s.(revocation_pool); revoked_tokens := s.(revoked_tokens); principals := m |}.

Definition DEFAULT_TTL_SECONDS : Z := 3600.
Definition TOKEN_REISSUE_TTL_SECONDS : Z := 3600.

(** [i64] addition in a release build *)
Definition wrap_i64 (z : Z) : Z := (z + 2 ^ 63) mod 2 ^ 64 - 2 ^ 63.

(** What the service was built with: [jsonwebtoken] over its secret, as the
    encoding and the signature check and parse of HS256, and its own issuer and
    audience. *)
Class TokenLibs := {
  token_hash : string -> string;
  representable : Z -> bool;
  show_z : Z -> string;
  debug_str : string -> string;
  rfc3339 : Z -> string;
  hs256_sign : IssuedClaims -> result string string;
  hs256_open : string -> result string IssuedClaims;
}.

Section Grpc.
Context `{TokenLibs} (iss aud : string) (managers : Managers) (cfg : Config).

Abbreviation eff := (eff Service Status).

Definition vault_err_to_status (e : VaultError) : Status :=
  match e with
  | Unauthenticated reason => {| code := UnauthenticatedCode; message := reason |}
  | PermissionDenied reason _ => {| code := PermissionDeniedCode; message := reason |}
  | TenantNotFound t => {| code := NotFound; message := "not found: " +:+ t |}
  | ValidationError field reason => {| code := InvalidArgument; message := field +:+ ": " +:+ reason |}
  | other => {| code := InternalCode; message := display debug_str other |}
  end.

Definition status_of {A} (r : vresult A) : result Status A :=
  match r with Ok a => Ok a | Err e => Err (vault_err_to_status e) end.

Definition refuse (c : Code) (m : string) : Status := {| code := c; message := m |}.

(** [TokenManager::issue_token] *)
Definition issue_token (now : Z) (principal_id tenant_id : string) (policies : list string) (ttl_seconds : Z) :
    vresult (string * Z) :=
  let exp := wrap_i64 (now / NANOS + ttl_seconds) in
  match from_timestamp representable exp with
  | None => Err (Internal "overflow computing token expiry timestamp")
  | Some _ =>
      match hs256_sign {| c_sub := principal_id; c_tenant_id := tenant_id; c_policies := policies;
                          c_superuser := false; c_iss := iss; c_aud := aud; c_iat := now / NANOS;
                          c_exp := exp |} with
      | Ok token => Ok (token, exp)
      | Err e => Err (Internal ("JWT encoding failed: " +:+ e))
      end
  end.

(** [TokenManager::validate_token]: no leeway, issuer and audience bound. *)
Definition validate_token (now : Z) (token : string) : vresult IssuedClaims :=
  match hs256_open token with
  | Err e => Err (Unauthenticated ("invalid token: " +:+ e))
  | Ok c =>
      if c.(c_exp) <? now / NANOS then Err (Unauthenticated "invalid token: ExpiredSignature")
      else if bool_decide (c.(c_iss) <> iss) then Err (Unauthenticated "invalid token: InvalidIssuer")
      else if bool_decide (c.(c_aud) <> aud) then Err (Unauthenticated "invalid token: InvalidAudience")
      else Ok c
  end.

(** Fails closed. *)
Definition service_revoked (io : RoundTrip) (now : Z) (s : Service) (token : string) : bool :=
  match s.(revocation_pool) with
  | Some m => match is_revoked token_hash io now m token with Ok b => b | Err _ => true end
  | None => bool_decide (token_hash token ∈ s.(revoked_tokens))
  end.

(** A principal is created at its first login and found at the later ones. *)
Definition register (r : PrincipalRecord) : eff () := fun s =>
  match create_principal s.(principals) r with
  | (Ok _, m) => (Ok tt, with_principals s m)
  | (Err (ValidationError _ _), _) => (Ok tt, s)
  | (Err e, _) => (Err (vault_err_to_status e), s)
  end.

Definition configured {A} (m : option A) (what : string) : eff A :=
  lift (ok_or m (refuse UnavailableCode (what +:+ " authentication is not configured"))).

Definition accepted {A} (r : result string A) (what : string) : eff A :=
  lift (match r with
        | Ok a => Ok a
        | Err e => Err (refuse UnauthenticatedCode (what +:+ " validation failed: " +:+ e))
        end).

Definition same_tenant (claimed requested msg : string) : eff () :=
  lift (if bool_decide (claimed = requested) then Ok tt else Err (refuse PermissionDeniedCode msg)).

Definition login_token (io : RoundTrip) (now : Z) (tenant token : string) : eff (string * list string) :=
  revoked ← gets (fun s => service_revoked io now s token);
  if revoked : bool then throw (refuse UnauthenticatedCode "token has been revoked")
  else
    c ← lift (status_of (validate_token now token));
    _ ← same_tenant c.(c_tenant_id) tenant "token does not belong to the requested tenant";
    mret (c.(c_sub), c.(c_policies)).

Definition login_oidc (now : Z) (tenant provider id_token : string) : eff (string * list string) :=
  manager ← configured managers.(oidc_manager) "OIDC";
  r ← accepted (manager provider id_token) "OIDC";
  _ ← same_tenant r.(oi_tenant_id) tenant "OIDC tenant claim does not match the requested tenant";
  let id := "oidc:" +:+ provider +:+ ":" +:+ r.(oi_subject) in
  _ ← register {| pr_id := id; pr_tenant_id := r.(oi_tenant_id); pr_display_name := r.(oi_display_name);
                  pr_auth_method := MTokenAuth; pr_policies := r.(oi_policies); pr_created_at := now |};
  mret (id, r.(oi_policies)).

Definition login_aws (now : Z) (tenant url body headers role_arn : string) : eff (string * list string) :=
  manager ← configured managers.(aws_iam_manager) "AWS IAM";
  r ← accepted (manager url body headers role_arn tenant) "AWS IAM";
  _ ← same_tenant r.(aw_tenant_id) tenant "AWS account does not map to the requested tenant";
  let id := "aws:" +:+ r.(aw_arn) in
  _ ← register {| pr_id := id; pr_tenant_id := r.(aw_tenant_id); pr_display_name := r.(aw_display_name);
                  pr_auth_method := MAwsIam r.(aw_account_id) r.(aw_arn); pr_policies := r.(aw_policies);
                  pr_created_at := now |};
  mret (id, r.(aw_policies)).

Definition login_azure (now : Z) (tenant jwt azure_tenant subscription : string) : eff (string * list string) :=
  manager ← configured managers.(azure_workload_manager) "Azure Workload Identity";
  r ← accepted (manager jwt azure_tenant subscription tenant) "Azure Workload Identity";
  _ ← same_tenant r.(az_tenant_id) tenant "Azure AD tenant does not map to the requested tenant";
  let id := "azure:" +:+ r.(az_object_id) in
  _ ← register {| pr_id := id; pr_tenant_id := r.(az_tenant_id); pr_display_name := r.(az_display_name);
                  pr_auth_method := MAzureWorkload r.(az_object_id) r.(az_azure_tenant_id);
                  pr_policies := r.(az_policies); pr_created_at := now |};
  mret (id, r.(az_policies)).

(** A certificate registers no principal. *)
Definition login_mtls (tenant pem : string) : eff (string * list string) :=
  manager ← configured managers.(mtls_manager) "mTLS";
  r ← accepted (manager pem) "mTLS";
  _ ← same_tenant r.(mt_tenant_id) tenant "certificate tenant does not match the requested tenant";
  mret ("mtls:" +:+ r.(mt_principal_id), r.(mt_policies)).

Definition login (io : RoundTrip) (now : Z) (tenant : string) (m : Method) : eff (string * list string) :=
  match m with
  | MToken token => login_token io now tenant token
  | MOidc provider id_token => login_oidc now tenant provider id_token
  | MAws url body headers role_arn => login_aws now tenant url body headers role_arn
  | MAzure jwt azure_tenant subscription => login_azure now tenant jwt azure_tenant subscription
  | MMtls pem => login_mtls tenant pem
  end.

Definition lease_for (tenant principal token : string) (ttl : Z) : string :=
  default "" (try_create_token_lease token_hash cfg tenant principal token ttl).

Definition authenticate (io : RoundTrip) (now : Z) (tenant : string) (method : option Method) :
    eff AuthenticateResponse :=
  _ ← lift (if Str.is_empty tenant then Err (refuse InvalidArgument "tenant_id must not be empty") else Ok tt);
  m ← lift (ok_or method (refuse InvalidArgument "authenticate request must include an auth method"));
  who ← login io now tenant m;
  issued ← lift (status_of (issue_token now who.1 tenant who.2 TOKEN_REISSUE_TTL_SECONDS));
  mret {| ar_token := issued.1; ar_principal_id := who.1; ar_tenant_id := tenant; ar_policies := who.2;
          ar_expires_at := issued.2;
          ar_lease_id := lease_for tenant who.1 issued.1 TOKEN_REISSUE_TTL_SECONDS |}.

Definition validate_token_rpc (io : RoundTrip) (now : Z) (token : string) : eff ValidateTokenResponse :=
  if Str.is_empty token then mret invalid_response
  else
    revoked ← gets (fun s => service_revoked io now s token);
    if revoked : bool then mret invalid_response
    else match validate_token now token with
         | Ok c => mret {| valid := true; vt_principal_id := c.(c_sub); vt_tenant_id := c.(c_tenant_id);
                           vt_policies := c.(c_policies) |}
         | Err (Unauthenticated _) => mret invalid_response
         | Err other => throw (vault_err_to_status other)
         end.

(** Recording a revocation where the service keeps them. *)
Definition persist (write : Revocations -> vresult () * Revocations) (h : string) : eff () := fun s =>
  match s.(revocation_pool) with
  | Some m => match write m with
              | (Ok _, m') => (Ok tt, with_pool s m')
              | (Err _, m') => (Err (refuse InternalCode "could not persist revocation"), with_pool s m')
              end
  | None => (Ok tt, with_set s ({[h]} ∪ s.(revoked_tokens)))
  end.

Definition revoke_token (io : RoundTrip) (now : Z) (token : string) : eff () :=
  if Str.is_empty token then throw (refuse InvalidArgument "token must not be empty")
  else
    let '(tenant, principal, expires_at) :=
      match validate_token now token with
      | Ok c => (c.(c_tenant_id), c.(c_sub), c.(c_exp))
      | Err _ => ("", "", now / NANOS + 3600)
      end in
    persist (fun m => revoke token_hash representable show_z io m token tenant principal expires_at)
      (token_hash token).

Definition revoke_token_by_hash (io : RoundTrip) (now : Z) (h tenant principal : string) (expires : Z) : eff () :=
  if negb (hash_shape h) then throw (refuse InvalidArgument "token_hash must be 64 hex characters")
  else
    let expires_at := if 0 <? expires then expires else now / NANOS + 3600 in
    persist (fun m => revoke_by_hash representable show_z io m h tenant principal expires_at) h.

Definition create_service_account (now : Z) (uuid tenant name : string) (policies : list string) (ttl : Z) :
    eff CreatedAccount :=
  if Str.is_empty tenant then throw (refuse InvalidArgument "tenant_id must not be empty")
  else if Str.is_empty name then throw (refuse InvalidArgument "name must not be empty")
  else
    let ttl := if 0 <? ttl then ttl else DEFAULT_TTL_SECONDS in
    _ ← (fun s => let '(r, m) := create_principal s.(principals)
           {| pr_id := uuid; pr_tenant_id := tenant; pr_display_name := name;
              pr_auth_method := MMachineIdentity name; pr_policies := policies; pr_created_at := now |} in
         (status_of r, with_principals s m)) : eff ();
    issued ← lift (status_of (issue_token now uuid tenant policies ttl));
    mret {| ca_principal_id := uuid; ca_token := issued.1; ca_lease_id := lease_for tenant uuid issued.1 ttl |}.

Definition list_service_accounts (tenant : string) : eff (list (string * string * list string * string)) :=
  if Str.is_empty tenant then throw (refuse InvalidArgument "tenant_id must not be empty")
  else
    m ← gets principals;
    mret (map (fun r => (r.(pr_id), r.(pr_display_name), r.(pr_policies), rfc3339 r.(pr_created_at)))
            (list_principals m tenant)).

(** ** Requests over time *)

Inductive service_step (T : Z) : Service -> Service -> Prop :=
| step_authenticate io now tenant method s :
    now <= T -> service_step T s (authenticate io now tenant method s).2
| step_validate io now token s : now <= T -> service_step T s (validate_token_rpc io now token s).2
| step_revoke io now token s : now <= T -> service_step T s (revoke_token io now token s).2
| step_revoke_hash io now h tenant principal expires s :
    now <= T -> service_step T s (revoke_token_by_hash io now h tenant principal expires s).2
| step_account now uuid tenant name policies ttl s :
    now <= T -> service_step T s (create_service_account now uuid tenant name policies ttl s).2
| step_list tenant s : service_step T s (list_service_accounts tenant s).2
| step_reap io now s m :
    now <= T -> s.(revocation_pool) = Some m -> service_step T s (with_pool s (reap_expired io now m).2).

(** ** Revocations over time *)

(** The hash is recorded at least until [D]. *)
Definition recorded (D : Z) (h : string) (s : Service) : Prop :=
  match s.(revocation_pool) with
  | Some m => exists r, m !! h = Some r /\ D <= r.(rv_expires_at)
  | None => h ∈ s.(revoked_tokens)
  end.

(** Records stay, whatever is added. *)
Definition keeps_records (s s' : Service) : Prop :=
  match s.(revocation_pool), s'.(revocation_pool) with
  | Some m, Some m' => m ⊆ m'
  | None, None => s.(revoked_tokens) ⊆ s'.(revoked_tokens)
  | _, _ => False
  end.

#[export] Instance keeps_records_preorder : PreOrder keeps_records.
Proof.
  split.
  - intros s. unfold keeps_records. by destruct s.(revocation_pool).
  - intros x y z. unfold keeps_records.
    destruct x.(revocation_pool), y.(revocation_pool), z.(revocation_pool); try done; apply transitivity.
Qed.

Lemma same_records s s' :
  s'.(revocation_pool) = s.(revocation_pool) -> s'.(revoked_tokens) = s.(revoked_tokens) -> keeps_records s s'.
Proof. intros Hp Hs. unfold keeps_records. rewrite Hp, Hs. by destruct s.(revocation_pool). Qed.

Lemma keeps_recorded D h s s' : keeps_records s s' -> recorded D h s -> recorded D h s'.
Proof.
  unfold keeps_records, recorded. destruct s.(revocation_pool), s'.(revocation_pool); try done.
  - intros Hsub (r & Hr & HD). exists r. split; [by eapply lookup_weaken|done].
  - set_solver.
Qed.

Lemma record_grows io failed m h tenant principal e :
  m ⊆ (record_revocation representable show_z io failed m h tenant principal e).2.
Proof.
  unfold record_revocation. destruct (from_timestamp representable e); [|done].
  destruct (m !! h) as [r|] eqn:Hh; [by destruct io as [[? []]|]|].
  destruct io as [[? []]|]; cbn; [|done|]; by apply insert_subseteq.
Qed.

Lemma persist_keeps write h s :
  (forall m, m ⊆ (write m).2) -> keeps_records s (persist write h s).2.
Proof.
  intros Hw. unfold persist, keeps_records. destruct s.(revocation_pool) as [m|] eqn:Hp.
  - specialize (Hw m). by destruct (write m) as [[|] m'].
  - cbn. rewrite Hp. set_solver.
Qed.

Lemma register_keeps r : stable keeps_records (register r).
Proof.
  intros s. unfold register. destruct (create_principal _ r) as [[|[]] m]; by apply same_records.
Qed.

Lemma configured_keeps {A} (m : option A) w : stable keeps_records (configured m w).
Proof. intros s. unfold configured. reflexivity. Qed.

Lemma accepted_keeps {A} (r : result string A) w : stable keeps_records (accepted r w).
Proof. intros s. reflexivity. Qed.

Lemma same_tenant_keeps a b m : stable keeps_records (same_tenant a b m).
Proof. intros s. reflexivity. Qed.

Hint Resolve register_keeps configured_keeps accepted_keeps same_tenant_keeps : effects.

Lemma login_keeps io now tenant m : stable keeps_records (login io now tenant m).
Proof.
  destruct m; cbn [login]; unfold login_token, login_oidc, login_aws, login_azure, login_mtls; stable_auto.
Qed.

Hint Resolve login_keeps : effects.

Lemma authenticate_keeps io now tenant method : stable keeps_records (authenticate io now tenant method).
Proof. unfold authenticate. stable_auto. Qed.

Lemma validate_rpc_same io now token s : (validate_token_rpc io now token s).2 = s.
Proof.
  unfold validate_token_rpc. destruct (Str.is_empty token); [done|]. rewrite run_bind. unfold gets.
  cbv iota beta. destruct (service_revoked io now s token); [done|].
  by destruct (validate_token now token) as [|[]].
Qed.

Lemma revoke_token_keeps io now token : stable keeps_records (revoke_token io now token).
Proof.
  unfold revoke_token. destruct (Str.is_empty token); [stable_auto|].
  destruct (validate_token now token); intros s; apply persist_keeps; intros m; apply record_grows.
Qed.

Lemma revoke_hash_keeps io now h tenant principal e :
  stable keeps_records (revoke_token_by_hash io now h tenant principal e).
Proof.
  unfold revoke_token_by_hash. destruct (negb (hash_shape h)) eqn:Hs; [stable_auto|]. intros s.
  apply persist_keeps. intros m. unfold revoke_by_hash. rewrite Hs. apply record_grows.
Qed.

Lemma account_keeps now uuid tenant name policies ttl :
  stable keeps_records (create_service_account now uuid tenant name policies ttl).
Proof.
  unfold create_service_account. destruct (Str.is_empty tenant); [stable_auto|].
  destruct (Str.is_empty name); [stable_auto|]. apply stable_bind; [typeclasses eauto| |].
  - intros s. destruct (create_principal _ _). by apply same_records.
  - intros ?. stable_auto.
Qed.

Lemma step_recorded T D h s s' : T < D -> service_step T s s' -> recorded D h s -> recorded D h s'.
Proof.
  intros HT Hstep. destruct Hstep as [io now tenant method s Hn|io now token s Hn|io now token s Hn
    |io now h' tenant principal e s Hn|now uuid tenant name policies ttl s Hn|tenant s|io now s m Hn Hm].
  - apply keeps_recorded, authenticate_keeps.
  - by rewrite validate_rpc_same.
  - apply keeps_recorded, revoke_token_keeps.
  - apply keeps_recorded, revoke_hash_keeps.
  - apply keeps_recorded, account_keeps.
  - unfold list_service_accounts. by destruct (Str.is_empty tenant).
  - unfold recorded. rewrite Hm. cbn. intros (r & Hr & HD).
    assert (Hkeep : filter (fun e => ~ e.2.(rv_expires_at) < now) m !! h = Some r).
    { apply map_lookup_filter_Some. split; [done|]. cbn. lia. }
    unfold reap_expired. destruct io as [[? []]|]; cbn; eauto.
Qed.

Lemma run_recorded T D h s s' : T < D -> rtc (service_step T) s s' -> recorded D h s -> recorded D h s'.
Proof. intros HT Hrun. induction Hrun as [|x y z Hxy _ IH]; [done|]. intros Hx. by eapply IH, step_recorded. Qed.

Lemma recorded_revoked io D now token s :
  now < D -> recorded D (token_hash token) s -> service_revoked io now s token = true.
Proof.
  intros Hnow Hrec. unfold service_revoked, recorded in *. destruct s.(revocation_pool) as [m|].
  - destruct Hrec as (r & Hr & HD). unfold is_revoked, revoked_at. destruct io as [[? ?]|]; [done|].
    rewrite Hr. apply Z.ltb_lt. lia.
  - by apply bool_decide_eq_true.
Qed.

(** Until when a revocation made at [now] is kept. *)
Definition revocation_deadline (now : Z) (token : string) : Z :=
  match validate_token now token with
  | Ok c => c.(c_exp) * NANOS
  | Err _ => (now / NANOS + 3600) * NANOS
  end.

Lemma revoke_token_records io now token s s1 :
  (forall m, s.(revocation_pool) = Some m -> m !! token_hash token = None) ->
  revoke_token io now token s = (Ok tt, s1) ->
  Str.is_empty token = false /\ recorded (revocation_deadline now token) (token_hash token) s1 /\
  forall m, s.(revocation_pool) = Some m -> exists r, rv_expires_at r = revocation_deadline now token /\
    s1 = with_pool s (<[token_hash token := r]> m).
Proof.
  intros Hnew. unfold revoke_token, revocation_deadline. destruct (Str.is_empty token); [done|].
  destruct (validate_token now token) as [c|]; unfold persist, revoke, record_revocation, from_timestamp;
    destruct s.(revocation_pool) as [m|] eqn:Hm.
  1, 3: rewrite (Hnew m eq_refl); destruct (representable _); [|done]; destruct io as [[? ?]|]; [done|];
    intros [= <-]; split; [done|]; split;
    [eexists; rewrite lookup_insert_eq; split; [done|reflexivity]|intros m0 [= <-]; eexists; split; [|done]; done].
  all: intros [= <-]; split; [done|]; split; [unfold recorded; cbn; rewrite Hm; set_solver|done].
Qed.

(** C31. A revocation that was acknowledged, of a token the table has no record of
    yet, holds. From then on, whatever requests are served, whatever fails and
    however often expired records are reaped, the token is neither validated nor
    exchanged for another, until the expiry it carries; a token the service cannot
    read stays revoked for an hour. A record made before, with an earlier deadline,
    is not extended: see [early_record_defeats_revocation]. *)
Theorem revocation_holds io now token s s1 s2 T io' now' tenant :
  (forall m, s.(revocation_pool) = Some m -> m !! token_hash token = None) ->
  revoke_token io now token s = (Ok tt, s1) -> rtc (service_step T) s1 s2 ->
  now' <= T -> T < revocation_deadline now token ->
  validate_token_rpc io' now' token s2 = (Ok invalid_response, s2) /\
  is_ok (authenticate io' now' tenant (Some (MToken token)) s2).1 = false.
Proof.
  intros Hnew Hrev Hrun Hnow HT.
  destruct (revoke_token_records _ _ _ _ _ Hnew Hrev) as (Hne & Hrec & _).
  pose proof (run_recorded _ _ _ _ _ HT Hrun Hrec) as Hrec'.
  assert (Hr : service_revoked io' now' s2 token = true) by (eapply recorded_revoked; [|done]; lia).
  split.
  - unfold validate_token_rpc. rewrite Hne, run_bind. unfold gets. cbv iota beta. by rewrite Hr.
  - unfold authenticate. rewrite run_lift_bind. destruct (Str.is_empty tenant); [done|].
    rewrite run_lift_bind. cbn [ok_or]. rewrite run_bind. cbn [login]. unfold login_token. rewrite run_bind.
    unfold gets. cbv iota beta. by rewrite Hr.
Qed.

(** It holds no longer: during the last second of its life a revoked token is
    valid again. The record counts until the instant the token expires, the token
    until the end of that second. *)
Theorem revoked_token_revives io now token s s1 m c now' :
  s.(revocation_pool) = Some m -> m !! token_hash token = None ->
  validate_token now token = Ok c -> revoke_token io now token s = (Ok tt, s1) ->
  c.(c_exp) * NANOS <= now' < (c.(c_exp) + 1) * NANOS ->
  validate_token_rpc None now' token s1 =
    (Ok {| valid := true; vt_principal_id := c.(c_sub); vt_tenant_id := c.(c_tenant_id);
           vt_policies := c.(c_policies) |}, s1).
Proof.
  intros Hm Hnew Hval Hrev Hnow.
  destruct (revoke_token_records io now token s s1) as (Hne & _ & Hs1); [|done|].
  { intros m0 Hm0. congruence. }
  destruct (Hs1 m Hm) as (r & Hr & ->). unfold revocation_deadline in Hr. rewrite Hval in Hr.
  assert (Hsec : now' / NANOS = c.(c_exp)).
  { symmetry. apply (Z.div_unique_pos now' NANOS _ (now' - c.(c_exp) * NANOS)); unfold NANOS in *; lia. }
  assert (Hval' : validate_token now' token = Ok c).
  { unfold validate_token in *. destruct (hs256_open token) as [c0|]; [|done].
    destruct (_ <? _); [done|]. repeat case_bool_decide; try done. injection Hval as ->.
    rewrite Hsec, Z.ltb_irrefl. done. }
  unfold validate_token_rpc. rewrite Hne, run_bind. unfold gets. cbv iota beta.
  assert (Hrev' : service_revoked None now' (with_pool s (<[token_hash token := r]> m)) token = false).
  { unfold service_revoked, is_revoked, revoked_at. cbn [revocation_pool with_pool]. rewrite lookup_insert_eq, Hr.
    apply Z.ltb_ge. lia. }
  by rewrite Hrev', Hval'.
Qed.

(** An earlier record stands in the way of a later one. Once the hash of a
    token has been recorded with an expiry that is over, revoking the token is
    acknowledged and changes nothing: the token stays valid. *)
Theorem early_record_defeats_revocation io now token s s1 m r c :
  s.(revocation_pool) = Some m -> m !! token_hash token = Some r -> r.(rv_expires_at) <= now ->
  validate_token now token = Ok c -> revoke_token io now token s = (Ok tt, s1) ->
  s1 = s /\
  validate_token_rpc None now token s1 =
    (Ok {| valid := true; vt_principal_id := c.(c_sub); vt_tenant_id := c.(c_tenant_id);
           vt_policies := c.(c_policies) |}, s1).
Proof.
  intros Hm Hr Hexp Hval Hrev. unfold revoke_token in Hrev. rewrite Hval in Hrev.
  destruct (Str.is_empty token) eqn:Hne; [done|]. unfold persist, revoke, record_revocation in Hrev.
  rewrite Hm in Hrev. destruct (from_timestamp _ _); [|done]. rewrite Hr in Hrev.
  destruct io as [[? ?]|]; [done|]. injection Hrev as <-.
  assert (Hs : with_pool s m = s) by (destruct s; cbn in *; by subst). rewrite Hs. split; [done|].
  unfold validate_token_rpc. rewrite Hne, run_bind. unfold gets. cbv iota beta.
  assert (Hno : service_revoked None now s token = false).
  { unfold service_revoked, is_revoked, revoked_at. rewrite Hm, Hr. by apply Z.ltb_ge. }
  by rewrite Hno, Hval.
Qed.

(** ** Logins *)

(** The credential behind a login: who it is for and what it grants. *)
Definition credential (io : RoundTrip) (now : Z) (s : Service) (tenant : string) (m : Method)
    (who : string) (policies : list string) : Prop :=
  match m with
  | MToken t => service_revoked io now s t = false /\
      exists c, validate_token now t = Ok c /\ c.(c_tenant_id) = tenant /\ c.(c_sub) = who /\
        c.(c_policies) = policies
  | MOidc provider id_token => exists f r, managers.(oidc_manager) = Some f /\ f provider id_token = Ok r /\
      r.(oi_tenant_id) = tenant /\ who = "oidc:" +:+ provider +:+ ":" +:+ r.(oi_subject) /\ policies = r.(oi_policies)
  | MAws url body headers role => exists f r, managers.(aws_iam_manager) = Some f /\
      f url body headers role tenant = Ok r /\ r.(aw_tenant_id) = tenant /\ who = "aws:" +:+ r.(aw_arn) /\
      policies = r.(aw_policies)
  | MAzure jwt azure sub => exists f r, managers.(azure_workload_manager) = Some f /\
      f jwt azure sub tenant = Ok r /\ r.(az_tenant_id) = tenant /\ who = "azure:" +:+ r.(az_object_id) /\
      policies = r.(az_policies)
  | MMtls pem => exists f r, managers.(mtls_manager) = Some f /\ f pem = Ok r /\ r.(mt_tenant_id) = tenant /\
      who = "mtls:" +:+ r.(mt_principal_id) /\ policies = r.(mt_policies)
  end.

Lemma same_tenant_ok a b msg s u s' : same_tenant a b msg s = (Ok u, s') -> a = b /\ s' = s.
Proof. unfold same_tenant, lift. case_bool_decide; [|done]. by intros [= _ <-]. Qed.

Lemma accepted_ok {A} (r : result string A) what s a s' : accepted r what s = (Ok a, s') -> r = Ok a /\ s' = s.
Proof. unfold accepted, lift. destruct r; [|done]. by intros [= <- <-]. Qed.

Lemma configured_ok {A} (m : option A) what s a s' : configured m what s = (Ok a, s') -> m = Some a /\ s' = s.
Proof. unfold configured, lift. destruct m; [|done]. by intros [= <- <-]. Qed.

Lemma mret_ok {A} (a b : A) (s s' : Service) : (mret a : eff A) s = (Ok b, s') -> a = b /\ s' = s.
Proof. by intros [= <- <-]. Qed.

Ltac login_steps :=
  repeat match goal with
    | Hx : _ ∧ _ |- _ => destruct Hx
    | Hx : (_ ≫= _) _ = (Ok _, _) |- _ => apply bind_ok in Hx as (? & ? & ? & ?)
    | Hx : mret _ _ = (Ok _, _) |- _ => apply mret_ok in Hx
    | Hx : same_tenant _ _ _ _ = (Ok _, _) |- _ => apply same_tenant_ok in Hx
    | Hx : accepted _ _ _ = (Ok _, _) |- _ => apply accepted_ok in Hx
    | Hx : configured _ _ _ = (Ok _, _) |- _ => apply configured_ok in Hx
    end; simplify_eq/=.

Lemma login_credential io now tenant m s who policies s' :
  login io now tenant m s = (Ok (who, policies), s') -> credential io now s tenant m who policies.
Proof.
  intros Hl. destruct m; cbn [login] in Hl; cbn [credential].
  - unfold login_token in Hl. rewrite run_bind in Hl. unfold gets in Hl. cbv iota beta in Hl.
    destruct (service_revoked io now s token); [done|]. split; [done|]. rewrite run_lift_bind in Hl.
    destruct (validate_token now token) as [c|]; [|done]. cbn [status_of] in Hl. login_steps.
    exists c. by split_and!.
  - unfold login_oidc in Hl. login_steps. eexists _, _. by split_and!.
  - unfold login_aws in Hl. login_steps. eexists _, _. by split_and!.
  - unfold login_azure in Hl. login_steps. eexists _, _. by split_and!.
  - unfold login_mtls in Hl. login_steps. eexists _, _. by split_and!.
Qed.

(** Every token the service hands out stands for a credential it accepted for
    the very tenant: an unrevoked valid token of the tenant, or the answer of the
    configured login method. It names the credential's principal, grants its
    policies and nothing else, is never a superuser token and lasts an hour. *)
Theorem login_grants_what_was_proved io now tenant method s resp s' :
  authenticate io now tenant method s = (Ok resp, s') ->
  exists m, method = Some m /\ Str.is_empty tenant = false /\ resp.(ar_tenant_id) = tenant /\
    credential io now s tenant m resp.(ar_principal_id) resp.(ar_policies) /\
    resp.(ar_expires_at) = wrap_i64 (now / NANOS + TOKEN_REISSUE_TTL_SECONDS) /\
    hs256_sign {| c_sub := resp.(ar_principal_id); c_tenant_id := tenant; c_policies := resp.(ar_policies);
                  c_superuser := false; c_iss := iss; c_aud := aud; c_iat := now / NANOS;
                  c_exp := resp.(ar_expires_at) |} = Ok resp.(ar_token).
Proof.
  unfold authenticate. rewrite run_lift_bind. destruct (Str.is_empty tenant); [done|]. rewrite run_lift_bind.
  destruct method as [m|]; [cbn [ok_or]|done]. rewrite run_bind.
  destruct (login io now tenant m s) as [[[who policies]|e] s1] eqn:Hl; [|done]. rewrite run_lift_bind. cbn [fst snd].
  unfold issue_token. destruct (from_timestamp _ _); [|done].
  destruct (hs256_sign _) as [tok|] eqn:Hs; [|done]. cbn [status_of]. intros [= <- <-]. exists m.
  split_and!; try done. by apply login_credential in Hl.
Qed.

End Grpc.

(** ** On concrete data *)

Module TokensDemo.

#[local] Instance IssuedClaims_eq_dec : EqDecision IssuedClaims.
Proof. solve_decision. Defined.

Definition claims : IssuedClaims :=
  {| c_sub := "svc"; c_tenant_id := "t1"; c_policies := ["read"]; c_superuser := false; c_iss := "wslvault";
     c_aud := "wslvault"; c_iat := 100; c_exp := 3700 |}.

(** One token, ["tok"], and a hash of the right shape for it. *)
Definition HASH : string := "0123456789abcdef0123456789abcdef0123456789abcdef0123456789abcdef".

#[local] Instance libs : TokenLibs := {|
  token_hash t := if decide (t = "tok") then HASH else t;
  representable _ := true;
  show_z _ := "";
  debug_str s := s;
  rfc3339 _ := "";
  hs256_sign _ := Ok "new";
  hs256_open t := if decide (t = "tok") then Ok claims else Err "InvalidSignature";
|}.

Definition no_managers : Managers :=
  {| oidc_manager := None; mtls_manager := None; aws_iam_manager := None; azure_workload_manager := None |}.

Definition cfg : Config :=
  {| issuer := "wslvault"; audience := "wslvault"; signing_keys := None; hs256_encode := fun _ => Ok "new";
     crypto := None; lease_rpc := None |}.

Definition start : Service := {| revocation_pool := Some ∅; revoked_tokens := ∅; principals := ∅ |}.

Definition revoked : Service := (revoke_token "wslvault" "wslvault" None (200 * NANOS) "tok" start).2.

Lemma start_new m : start.(revocation_pool) = Some m -> m !! token_hash "tok" = None.
Proof. by intros [= <-]. Qed.

Lemma revocation_holds_witness :
  validate_token_rpc "wslvault" "wslvault" None (3600 * NANOS) "tok" revoked = (Ok invalid_response, revoked).
Proof.
  apply (revocation_holds "wslvault" "wslvault" no_managers cfg None (200 * NANOS) "tok" start revoked revoked
    (3600 * NANOS) None (3600 * NANOS) "t1" start_new eq_refl (rtc_refl _ _)).
  - vm_compute. discriminate.
  - vm_compute. reflexivity.
Defined.

Lemma revoked_token_revives_witness :
  (validate_token_rpc "wslvault" "wslvault" None (3700 * NANOS + 1) "tok" revoked).1 =
    Ok {| valid := true; vt_principal_id := "svc"; vt_tenant_id := "t1"; vt_policies := ["read"] |}.
Proof.
  rewrite (revoked_token_revives "wslvault" "wslvault" None (200 * NANOS) "tok" start revoked ∅ claims
    (3700 * NANOS + 1)); [reflexivity|reflexivity|reflexivity| | |].
  - vm_compute. reflexivity.
  - vm_compute. reflexivity.
  - vm_compute. split; [discriminate|reflexivity].
Defined.

(** The hash recorded with an expiry of second 1. *)
Definition shadowed : Service :=
  (revoke_token_by_hash None (200 * NANOS) HASH "" "" 1 start).2.

Lemma early_record_defeats_revocation_witness :
  (validate_token_rpc "wslvault" "wslvault" None (200 * NANOS) "tok" shadowed).1 =
    Ok {| valid := true; vt_principal_id := "svc"; vt_tenant_id := "t1"; vt_policies := ["read"] |}.
Proof.
  destruct (early_record_defeats_revocation "wslvault" "wslvault" None (200 * NANOS) "tok" shadowed shadowed
    {[HASH := {| rv_tenant_id := ""; rv_principal_id := ""; rv_expires_at := NANOS |}]}
    {| rv_tenant_id := ""; rv_principal_id := ""; rv_expires_at := NANOS |} claims) as [_ Hv].
  - vm_compute. reflexivity.
  - vm_compute. reflexivity.
  - vm_compute. discriminate.
  - vm_compute. reflexivity.
  - vm_compute. reflexivity.
  - rewrite Hv. reflexivity.
Defined.

Lemma login_grants_what_was_proved_witness :
  exists m, Some (MToken "tok") = Some m /\
    credential "wslvault" "wslvault" no_managers None (200 * NANOS) start "t1" m "svc" ["read"].
Proof.
  destruct (login_grants_what_was_proved "wslvault" "wslvault" no_managers cfg None (200 * NANOS) "t1"
    (Some (MToken "tok")) start
    {| ar_token := "new"; ar_principal_id := "svc"; ar_tenant_id := "t1"; ar_policies := ["read"];
       ar_expires_at := 3800; ar_lease_id := "" |} start) as (m & Hm & _ & _ & Hc & _).
  - vm_compute. reflexivity.
  - exists m. split; [exact Hm|exact Hc].
Defined.

End TokensDemo.
