(* ===== verification/Invitations.v ===== *)
(** * Invitations

    [wslvault-storage/src/invitation_store.rs] with [031_tenant_invitations.sql],
    and [services/identity-service/src/invitations.rs]: an administrator invites an
    address, whoever holds the link mints one API key with it.

    The table sits beside those of [IdentityDb]. A statement or transaction runs
    alone; between the first lookup of a redemption and its transaction other
    requests may run ([mid]). The random token, its hash, UUIDs and the mailer are
    parameters. *)

From Stdlib Require Import Lia Ascii.
From S2P Require Import Prelude Errors KeyStore IdentityDb ApiKeys.

Record Invitation := {
  in_id : string;
  in_tenant_id : string;
  in_email : string;
  in_policies : list string;
  in_created_by : string;
  in_created_at : Z;
  in_expires_at : Z;
  in_used_at : option Z;
}.

(** A row has two columns more than an operator sees. *)
Record InvitationRow := { inv : Invitation; in_token_hash : string; in_api_key_id : option string }.

(** The rows by id, the tables of the identity service, and the display names of
    the tenants. *)
Record InviteDb := {
  invitations : gmap string InvitationRow;
  identity : Pg;
  display_names : gmap string string;
}.

Definition with_invitations (db : InviteDb) (m : gmap string InvitationRow) : InviteDb :=
  {| invitations := m; identity := db.(identity); display_names := db.(display_names) |}.
Definition with_identity (db : InviteDb) (p : Pg) : InviteDb :=
  {| invitations := db.(invitations); identity := p; display_names := db.(display_names) |}.

Definition is_redeemable (now : Z) (i : Invitation) : bool :=
  bool_decide (i.(in_used_at) = None) && (now <? i.(in_expires_at)).

Inductive RedeemFailure := RNotFound | RAlreadyUsed | RExpired.

(** A round trip fails with a text, its effect applied or not. *)
Definition RoundTrip : Type := option (string * bool).

Definition HOUR : Z := 3600 * 10 ^ 9.
Definition DAY : Z := 24 * HOUR.
Definition DEFAULT_TTL_HOURS : Z := 72.
Definition MAX_TTL_HOURS : Z := 24 * 14.

(** ** invitation_store.rs *)

Section Store.
(** Hex SHA-256. *)
Context (sha256_hex : string -> string).

Definition token_hash (token : string) : string := sha256_hex (Str.trim token).

(** [WHERE token_hash = $1], which is unique. *)
Definition by_hash (m : gmap string InvitationRow) (h : string) : option InvitationRow :=
  head (List.filter (fun r => bool_decide (r.(in_token_hash) = h)) (map snd (map_to_list m))).

Definition create (io : RoundTrip) (now : Z) (id : string) (db : InviteDb) (tenant email token : string)
    (policies : list string) (creator : string) (expires_at : Z) : vresult Invitation * InviteDb :=
  let failed e := Err (Database ("could not create the invitation: " +:+ e)) in
  let i := {| in_id := id; in_tenant_id := tenant; in_email := Str.trim email; in_policies := policies;
              in_created_by := creator; in_created_at := now; in_expires_at := expires_at;
              in_used_at := None |} in
  let row := {| inv := i; in_token_hash := token_hash token; in_api_key_id := None |} in
  if bool_decide (is_Some (db.(invitations) !! id)) then (failed "tenant_invitations_pkey", db)
  else if bool_decide (is_Some (by_hash db.(invitations) (token_hash token)))
  then (failed "tenant_invitations_token_hash_key", db)
  else if negb (ApiKeyStore.tenant_exists db.(identity) tenant)
  then (failed "tenant_invitations_tenant_id_fkey", db)
  else if negb (now <? expires_at) then (failed "tenant_invitations_expiry_after_creation", db)
  else
    let db' := with_invitations db (<[id := row]> db.(invitations)) in
    match io with
    | None => (Ok i, db')
    | Some (e, applied) => (failed e, if applied then db' else db)
    end.

Definition find_by_token (io : option string) (db : InviteDb) (token : string) : vresult (option Invitation) :=
  match io with
  | Some e => Err (Database ("invitation lookup failed: " +:+ e))
  | None => Ok (inv <$> by_hash db.(invitations) (token_hash token))
  end.

Definition mark_used (now : Z) (key_id : string) (r : InvitationRow) : InvitationRow :=
  {| inv := {| in_id := r.(inv).(in_id); in_tenant_id := r.(inv).(in_tenant_id);
               in_email := r.(inv).(in_email); in_policies := r.(inv).(in_policies);
               in_created_by := r.(inv).(in_created_by); in_created_at := r.(inv).(in_created_at);
               in_expires_at := r.(inv).(in_expires_at); in_used_at := Some now |};
     in_token_hash := r.(in_token_hash); in_api_key_id := Some key_id |}.

(** What each step of a redemption meets: the begin, the insert, the claim, the
    lookup after a miss, the commit. *)
Record RedeemIo := {
  rd_begin : option string;
  rd_insert : option string;
  rd_claim : option string;
  rd_classify : option string;
  rd_commit : RoundTrip;
}.

Definition classify_miss (io : option string) (m : gmap string InvitationRow) (h : string) : RedeemFailure :=
  match io, by_hash m h with
  | None, Some r => if bool_decide (is_Some r.(inv).(in_used_at)) then RAlreadyUsed else RExpired
  | _, _ => RNotFound
  end.

Definition redeem (io : RedeemIo) (now : Z) (db : InviteDb) (token : string) (key : ApiKeyRow) :
    result RedeemFailure Invitation * InviteDb :=
  let h := token_hash token in
  if bool_decide (is_Some io.(rd_begin)) then (Err RNotFound, db)
  else match ApiKeyStore.insert (fun _ => io.(rd_insert)) 0 db.(identity) key with
  | Err _ => (Err RNotFound, db)
  | Ok p =>
      if bool_decide (is_Some io.(rd_claim)) then (Err RNotFound, db)
      else match by_hash db.(invitations) h with
      | Some r =>
          if is_redeemable now r.(inv) then
            let r' := mark_used now key.(row_id) r in
            let db' := with_identity (with_invitations db (<[r.(inv).(in_id) := r']> db.(invitations))) p in
            match io.(rd_commit) with
            | None => (Ok r'.(inv), db')
            | Some (_, applied) => (Err RNotFound, if applied then db' else db)
            end
          else (Err (classify_miss io.(rd_classify) db.(invitations) h), db)
      | None => (Err (classify_miss io.(rd_classify) db.(invitations) h), db)
      end
  end.

Definition created_desc (a b : Invitation) : bool := b.(in_created_at) <=? a.(in_created_at).

Definition list_for_tenant (io : option string) (db : InviteDb) (tenant : string) : vresult (list Invitation) :=
  match io with
  | Some e => Err (Database ("could not list invitations: " +:+ e))
  | None => Ok (limit 200 (order_by created_desc
      (List.filter (fun i => bool_decide (i.(in_tenant_id) = tenant))
         (map (fun e => e.2.(inv)) (map_to_list db.(invitations))))))
  end.

Definition revoke (io : RoundTrip) (db : InviteDb) (id tenant : string) : vresult bool * InviteDb :=
  let hit := match db.(invitations) !! id with
             | Some r => bool_decide (r.(inv).(in_tenant_id) = tenant) && bool_decide (r.(inv).(in_used_at) = None)
             | None => false
             end in
  let db' := if hit then with_invitations db (delete id db.(invitations)) else db in
  match io with
  | None => (Ok hit, db')
  | Some (e, applied) => (Err (Database ("could not revoke the invitation: " +:+ e)), if applied then db' else db)
  end.

(** [shared.reap_expired_invitations] *)
Definition reapable (now : Z) (i : Invitation) : bool :=
  match i.(in_used_at) with
  | None => i.(in_expires_at) <? now - 7 * DAY
  | Some u => u <? now - 90 * DAY
  end.

Definition reap_expired (io : RoundTrip) (now : Z) (db : InviteDb) : vresult Z * InviteDb :=
  let m := filter (fun e => reapable now e.2.(inv) = false) db.(invitations) in
  match io with
  | None => (Ok (Z.of_nat (size db.(invitations)) - Z.of_nat (size m)), with_invitations db m)
  | Some (e, applied) =>
      (Err (Database ("invitation reaper failed: " +:+ e)), if applied then with_invitations db m else db)
  end.

End Store.

(** ** invitations.rs *)

Record InvitationView := { iv_invitation : Invitation; iv_status : string }.

Definition view_of (now : Z) (i : Invitation) : InvitationView :=
  {| iv_invitation := i;
     iv_status := if bool_decide (is_Some i.(in_used_at)) then "accepted"
                  else if i.(in_expires_at) <=? now then "expired" else "pending" |}.

Inductive Body :=
| BErr (code message : string)
| BCreated (id email : string) (expires_at : Z) (invitation_url : string) (email_sent : bool)
    (email_error : option string)
| BList (l : list InvitationView)
| BPreview (tenant_name : string) (expires_at : Z)
| BAccepted (api_key tenant_id tenant_name : string)
| BNone.

Definition Reply : Type := Z * Body.

Record CreateInvitationRequest := {
  rq_email : string;
  rq_policies : option (list string);
  rq_expires_in_hours : option Z;
}.

Definition contains_space (s : string) : bool :=
  existsb (fun t => negb (bool_decide (Str.trim_start_space t = t))) (Str.suffixes s).

Definition ends_with_dot (s : string) : bool := Str.starts_with "." (Str.rev s).

Definition looks_like_email (raw : string) : bool :=
  let s := Str.trim raw in
  match Str.split_once "@" s with
  | Some (local, domain) =>
      negb (Str.is_empty local) && Str.mem "." domain && negb (Str.starts_with "." domain)
      && negb (ends_with_dot domain) && negb (contains_space s)
  | None => false
  end.

(** A UUID printed without hyphens. *)
Definition simple (uuid : string) : string := Str.filter (fun a => negb (Ascii.eqb a "-")) uuid.

Definition key_name_of (i : Invitation) : string :=
  let local := match Str.split_once "@" i.(in_email) with Some (l, _) => l | None => i.(in_email) end in
  local +:+ "-" +:+ String.substring 0 8 (simple i.(in_id)).

Section Handlers.
Context (sha256_hex : string -> string) (parse_uuid : string -> option string).
Context (sha256 b64url_encode : string -> string).
Context (public_url : string) (mailer : option (string -> string -> string -> Z -> result string ())).

Abbreviation token_hash := (token_hash sha256_hex).
Abbreviation by_token := (find_by_token sha256_hex).

Definition not_found_tenant : Reply := (404, BErr "tenant_not_found" "no such tenant").

(** [load_live_tenant]: the id and the display name of a tenant that is not
    deleted. *)
Definition load_live_tenant (io : option string) (db : InviteDb) (tenant : string) : result Reply string :=
  match io with
  | Some _ => Err (500, BErr "lookup_failed" "could not look up the tenant")
  | None =>
      match List.find (fun t => bool_decide (t.(t_id) = tenant)) db.(identity).(tenants) with
      | Some t => if bool_decide (t.(t_deleted_at) = None)
                  then Ok (default "" (db.(display_names) !! tenant)) else Err not_found_tenant
      | None => Err not_found_tenant
      end
  end.

Definition clamp_hours (h : option Z) : Z := Z.max 1 (Z.min MAX_TTL_HOURS (default DEFAULT_TTL_HOURS h)).

Definition granted_policies (p : option (list string)) : list string :=
  match p with Some (x :: l) => x :: l | _ => ["default"] end.

(** [token] is what the generator returned, or its failure. *)
Definition create_invitation (lookup : option string) (io : RoundTrip) (now : Z) (id : string)
    (token : result string string) (principal : string) (db : InviteDb) (tenant_id : string)
    (req : CreateInvitationRequest) : Reply * InviteDb :=
  match parse_uuid (Str.trim tenant_id) with
  | None => ((400, BErr "invalid_tenant_id" "tenant_id must be a UUID"), db)
  | Some tenant =>
      if negb (looks_like_email req.(rq_email))
      then ((422, BErr "invalid_email" "a valid email address is required"), db)
      else
        let ttl := clamp_hours req.(rq_expires_in_hours) in
        match load_live_tenant lookup db tenant, token with
        | Err resp, _ => (resp, db)
        | Ok _, Err _ => ((500, BErr "token_generation_failed" "could not generate an invitation token"), db)
        | Ok name, Ok tok =>
            match create sha256_hex io now id db tenant req.(rq_email) tok (granted_policies req.(rq_policies))
                    principal (now + ttl * HOUR) with
            | (Err _, db') => ((500, BErr "invitation_not_created" "could not create the invitation"), db')
            | (Ok i, db') =>
                let url := Str.trim_end "/" public_url +:+ "/invite/" +:+ tok in
                let '(sent, error) :=
                  match mailer with
                  | Some send => match send req.(rq_email) name url ttl with
                                 | Ok _ => (true, None)
                                 | Err e => (false, Some e)
                                 end
                  | None => (false, Some "email is not configured; deliver the link yourself")
                  end in
                ((201, BCreated i.(in_id) i.(in_email) i.(in_expires_at) url sent error), db')
            end
        end
  end.

Definition list_invitations (io : option string) (now : Z) (db : InviteDb) (tenant_id : string) : Reply :=
  match parse_uuid (Str.trim tenant_id) with
  | None => (400, BErr "invalid_tenant_id" "tenant_id must be a UUID")
  | Some tenant =>
      match list_for_tenant io db tenant with
      | Ok l => (200, BList (map (view_of now) l))
      | Err _ => (500, BErr "list_failed" "could not list invitations")
      end
  end.

Definition revoke_invitation (io : RoundTrip) (db : InviteDb) (tenant_id id : string) : Reply * InviteDb :=
  match parse_uuid (Str.trim tenant_id), parse_uuid (Str.trim id) with
  | Some tenant, Some inv_id =>
      match revoke io db inv_id tenant with
      | (Ok true, db') => ((204, BNone), db')
      | (Ok false, db') => ((404, BErr "not_found" "no pending invitation with that id"), db')
      | (Err _, db') => ((500, BErr "revoke_failed" "could not revoke the invitation"), db')
      end
  | _, _ => ((400, BErr "invalid_id" "tenant_id and invitation id must be UUIDs"), db)
  end.

Definition invalid_link : Reply := (404, BErr "invalid_invitation" "this invitation link is not valid").
Definition used_link : Reply :=
  (410, BErr "invitation_used" "this invitation has already been used — sign in with the key you were given").
Definition expired_link : Reply :=
  (410, BErr "invitation_expired" "this invitation has expired — ask whoever invited you for a new one").

Definition preview_invitation (io lookup : option string) (now : Z) (db : InviteDb) (token : string) : Reply :=
  match by_token io db token with
  | Err _ => (500, BErr "lookup_failed" "could not check this invitation")
  | Ok None => invalid_link
  | Ok (Some i) =>
      if negb (is_redeemable now i)
      then if bool_decide (is_Some i.(in_used_at)) then used_link else expired_link
      else (200, BPreview (match load_live_tenant lookup db i.(in_tenant_id) with
                           | Ok name => name
                           | Err _ => "your organisation"
                           end) i.(in_expires_at))
  end.

(** [ApiKeyManager::mint_row] *)
Definition mint_row (fresh : Fresh) (now : Z) (tenant name : string) (policies : list string)
    (creator : string) (mfa : bool) : string * ApiKeyRow :=
  let raw := generate_key b64url_encode fresh in
  (raw, {| row_id := fresh.(fresh_id); row_tenant_id := tenant; row_name := name;
           key_hash := hash_key sha256 raw;
           key_prefix := String.substring 0 KEY_PREFIX_DISPLAY_LEN
                           (default raw (Str.strip_prefix RAW_KEY_PREFIX raw));
           row_path_prefixes := []; row_policies := policies; created_by := creator;
           row_created_at := now; row_expires_at := None; last_used_at := None; revoked_at := None;
           rate_limit_per_minute := 60; is_superuser := false; mfa_required := mfa |}).

(** The row a redemption offers, and the key it is for. *)
Definition offered (fresh : Fresh) (now : Z) (i : Invitation) : string * ApiKeyRow :=
  mint_row fresh now i.(in_tenant_id) (key_name_of i) i.(in_policies) ("invitation:" +:+ i.(in_id)) false.

Record AcceptIo := {
  ac_find : option string;
  ac_tenant : option string;
  ac_redeem : RedeemIo;
}.

(** [mid] is what other requests do after the lookups; [now'] is the time of the
    transaction. *)
Definition accept_invitation (io : AcceptIo) (fresh : Fresh) (now now' : Z) (mid : InviteDb -> InviteDb)
    (db : InviteDb) (token : string) : Reply * InviteDb :=
  match by_token io.(ac_find) db token with
  | Err _ => ((500, BErr "lookup_failed" "could not check this invitation"), db)
  | Ok None => (invalid_link, db)
  | Ok (Some pending) =>
      if negb (is_redeemable now pending)
      then (if bool_decide (is_Some pending.(in_used_at)) then used_link else expired_link, db)
      else match load_live_tenant io.(ac_tenant) db pending.(in_tenant_id) with
      | Err _ => ((410, BErr "tenant_gone" "the organisation this invitation was for no longer exists"), db)
      | Ok name =>
          let '(raw, row) := offered fresh now pending in
          match redeem sha256_hex io.(ac_redeem) now' (mid db) token row with
          | (Ok i, db') => ((201, BAccepted raw i.(in_tenant_id) name), db')
          | (Err RAlreadyUsed, db') => (used_link, db')
          | (Err RExpired, db') => (expired_link, db')
          | (Err RNotFound, db') => (invalid_link, db')
          end
      end
  end.

End Handlers.

(** ** The table over time *)

Section Properties.
Context (sha256_hex : string -> string) (parse_uuid : string -> option string).
Context (sha256 b64url_encode : string -> string).

Abbreviation token_hash := (token_hash sha256_hex).
Abbreviation accept := (accept_invitation sha256_hex sha256 b64url_encode).

(** A row is stored under its id, and no two rows have the same hash. *)
Record Wf (m : gmap string InvitationRow) : Prop := {
  wf_id : forall id r, m !! id = Some r -> r.(inv).(in_id) = id;
  wf_hash : forall a b r s, m !! a = Some r -> m !! b = Some s -> r.(in_token_hash) = s.(in_token_hash) -> a = b;
}.

(** What the service does to its tables, one statement or transaction at a time.
    [h] is a hash of which no other token is generated. *)
Inductive Step (h : string) (db : InviteDb) : InviteDb -> Prop :=
| s_create io now id tenant email token policies creator expires :
    token_hash token <> h ->
    Step h db (create sha256_hex io now id db tenant email token policies creator expires).2
| s_redeem io now token key : Step h db (redeem sha256_hex io now db token key).2
| s_revoke io id tenant : Step h db (revoke io db id tenant).2
| s_reap io now : Step h db (reap_expired io now db).2
| s_identity p : Step h db (with_identity db p).

Abbreviation Steps h := (rtc (Step h)).

(** The invitations with this hash, if any, are used. *)
Definition Spent (h : string) (m : gmap string InvitationRow) : Prop :=
  forall id r, m !! id = Some r -> r.(in_token_hash) = h -> is_Some r.(inv).(in_used_at).

(** The invitations with this hash are [i] but for the use. *)
Definition grants (i j : Invitation) : Prop :=
  i.(in_id) = j.(in_id) /\ i.(in_tenant_id) = j.(in_tenant_id) /\ i.(in_email) = j.(in_email) /\
  i.(in_policies) = j.(in_policies) /\ i.(in_expires_at) = j.(in_expires_at).

Definition Granted (h : string) (i : Invitation) (m : gmap string InvitationRow) : Prop :=
  forall id r, m !! id = Some r -> r.(in_token_hash) = h -> grants r.(inv) i.

(** What a change to the table may do: drop rows, mark rows used, or add a row of
    another hash. *)
Definition Kept (h : string) (m m' : gmap string InvitationRow) : Prop :=
  forall id r, m' !! id = Some r -> r.(in_token_hash) = h ->
    exists s, m !! id = Some s /\ s.(in_token_hash) = h /\ grants r.(inv) s.(inv) /\
      (is_Some s.(inv).(in_used_at) -> is_Some r.(inv).(in_used_at)).

Lemma grants_refl i : grants i i.
Proof. by repeat split. Qed.

Lemma grants_trans i j k : grants i j -> grants j k -> grants i k.
Proof. intros (? & ? & ? & ? & ?) (? & ? & ? & ? & ?). repeat split; congruence. Qed.

Hint Resolve grants_refl : core.

Lemma kept_refl h m : Kept h m m.
Proof. intros id r Hr Hh. exists r. auto. Qed.

Lemma kept_sub h m m' : m' ⊆ m -> Kept h m m'.
Proof. intros Hs id r Hr Hh. exists r. split; [by eapply lookup_weaken|auto]. Qed.

Lemma kept_trans h m1 m2 m3 : Kept h m1 m2 -> Kept h m2 m3 -> Kept h m1 m3.
Proof.
  intros H12 H23 id r Hr Hh. destruct (H23 id r Hr Hh) as (s & Hs & Hsh & Hg & Hu).
  destruct (H12 id s Hs Hsh) as (t & Ht & Hth & Hg' & Hu').
  exists t. repeat split; auto; try (by eapply grants_trans); by destruct (grants_trans _ _ _ Hg Hg') as (? & ? & ? & ? & ?).
Qed.

Lemma by_hash_some m h r : by_hash m h = Some r -> exists id, m !! id = Some r /\ r.(in_token_hash) = h.
Proof.
  unfold by_hash. intros Hr.
  assert (Hin : List.In r (List.filter (fun r => bool_decide (in_token_hash r = h)) (map snd (map_to_list m)))).
  { destruct (List.filter _ _); simplify_eq/=. by left. }
  apply filter_In in Hin as [Hin Hh]. apply bool_decide_eq_true in Hh.
  apply list_elem_of_In, list_elem_of_fmap in Hin as ([id s] & -> & Hin).
  apply elem_of_map_to_list in Hin. by exists id.
Qed.

Lemma by_hash_none m h : by_hash m h = None -> forall id r, m !! id = Some r -> r.(in_token_hash) <> h.
Proof.
  unfold by_hash. intros Hn id r Hr Hh.
  assert (Hin : List.In r (List.filter (fun r => bool_decide (in_token_hash r = h)) (map snd (map_to_list m)))).
  { apply filter_In. split; [|by apply bool_decide_eq_true].
    apply list_elem_of_In, list_elem_of_fmap. exists (id, r). split; [done|]. by apply elem_of_map_to_list. }
  destruct (List.filter _ _); simplify_eq/=. done.
Qed.

Lemma by_hash_wf m h id r : Wf m -> m !! id = Some r -> r.(in_token_hash) = h -> by_hash m h = Some r.
Proof.
  intros Hwf Hr Hh. destruct (by_hash m h) as [s|] eqn:Hs.
  - apply by_hash_some in Hs as (b & Hb & Hsh).
    assert (id = b) as -> by (eapply (wf_hash _ Hwf); eauto; congruence). congruence.
  - by destruct (by_hash_none _ _ Hs id r Hr).
Qed.

(** Each step keeps the table well-formed and the invitations of [h]. *)
Definition Safe (h : string) (m m' : gmap string InvitationRow) : Prop := Wf m -> Wf m' /\ Kept h m m'.

Lemma safe_refl h m : Safe h m m.
Proof. split; [done|apply kept_refl]. Qed.

Lemma safe_sub h m m' : m' ⊆ m -> Safe h m m'.
Proof.
  intros Hs Hwf. split; [|by apply kept_sub]. split.
  - intros id r Hr. eapply (wf_id _ Hwf), lookup_weaken; eauto.
  - intros a b r s Hr Hsn. eapply (wf_hash _ Hwf); eapply lookup_weaken; eauto.
Qed.

Lemma safe_add h m id r :
  m !! id = None -> r.(inv).(in_id) = id -> r.(in_token_hash) <> h -> by_hash m r.(in_token_hash) = None ->
  Safe h m (<[id := r]> m).
Proof.
  intros Hn Hid Hh Hb Hwf. pose proof (by_hash_none _ _ Hb) as Hfresh. split.
  - split.
    + intros id' s [[<- <-]|[_ Hs]]%lookup_insert_Some; [done|by apply (wf_id _ Hwf)].
    + intros a b x y [[<- <-]|[Ha Hx]]%lookup_insert_Some [[<- <-]|[Hb' Hy]]%lookup_insert_Some Heq.
      * done.
      * by destruct (Hfresh _ _ Hy).
      * by destruct (Hfresh _ _ Hx).
      * by eapply (wf_hash _ Hwf).
  - intros id' s [[<- <-]|[_ Hs]]%lookup_insert_Some Hsh; [done|]. exists s. auto.
Qed.

Lemma mark_used_grants now k r : grants (mark_used now k r).(inv) r.(inv).
Proof. by repeat split. Qed.

Lemma safe_mark h m id r now k : m !! id = Some r -> Safe h m (<[id := mark_used now k r]> m).
Proof.
  intros Hr Hwf. split.
  - split.
    + intros id' s [[<- <-]|[_ Hs]]%lookup_insert_Some; [by apply (wf_id _ Hwf id r)|by apply (wf_id _ Hwf)].
    + intros a b x y [[<- <-]|[Ha Hx]]%lookup_insert_Some [[<- <-]|[Hb Hy]]%lookup_insert_Some Heq; [done| | |];
        by eapply (wf_hash _ Hwf).
  - intros id' s [[<- <-]|[_ Hs]]%lookup_insert_Some Hsh; [|exists s; auto].
    exists r. repeat split; [done|done|]. intros _. by eexists.
Qed.

(** The table after a transaction that claims the invitation of a hash. *)
Lemma redeem_table io now db token key out db' :
  redeem sha256_hex io now db token key = (out, db') ->
  db' = db \/
  (exists r p, by_hash db.(invitations) (token_hash token) = Some r /\ is_redeemable now r.(inv) = true /\
     ApiKeyStore.insert (fun _ => io.(rd_insert)) 0 db.(identity) key = Ok p /\
     db' = with_identity (with_invitations db
             (<[r.(inv).(in_id) := mark_used now key.(row_id) r]> db.(invitations))) p).
Proof.
  unfold redeem. case_bool_decide; [intros [= <- <-]; by left|].
  destruct (ApiKeyStore.insert _ _ _ _) as [p|e] eqn:Hp; [|intros [= <- <-]; by left].
  case_bool_decide; [intros [= <- <-]; by left|].
  destruct (by_hash _ _) as [r|] eqn:Hr; [|intros [= <- <-]; by left].
  destruct (is_redeemable _ _) eqn:Hrd; [|intros [= <- <-]; by left].
  destruct (rd_commit io) as [[e [|]]|]; intros [= <- <-]; eauto 8.
Qed.

Lemma redeem_safe h io now db token key :
  Safe h db.(invitations) (redeem sha256_hex io now db token key).2.(invitations).
Proof.
  destruct (redeem _ _ _ _ _ _) as [out db'] eqn:He.
  apply redeem_table in He as [->|(r & p & Hr & _ & _ & ->)]; [apply safe_refl|]; simpl.
  intros Hwf. apply by_hash_some in Hr as (id & Hid & _). rewrite (wf_id _ Hwf _ _ Hid).
  by apply safe_mark.
Qed.

Lemma step_safe h db db' : Step h db db' -> Safe h db.(invitations) db'.(invitations).
Proof.
  intros [io now id tenant email token policies creator expires Hh| | io id tenant |io now|p].
  - unfold create. case_bool_decide as Hid; [apply safe_refl|].
    case_bool_decide as Hb; [apply safe_refl|].
    case_match; [apply safe_refl|]. case_match; [apply safe_refl|].
    apply eq_None_not_Some in Hid, Hb.
    destruct io as [[e [|]]|]; simpl; [|apply safe_refl|]; by apply safe_add.
  - apply redeem_safe.
  - unfold revoke. set (hit := match _ with Some _ => _ | None => false end).
    assert (Safe h (invitations db)
              (invitations (if hit then with_invitations db (delete id (invitations db)) else db))).
    { destruct hit; [apply safe_sub, delete_subseteq|apply safe_refl]. }
    destruct io as [[e [|]]|]; simpl; auto using safe_refl.
  - unfold reap_expired. pose proof (safe_sub h _ _ (map_filter_subseteq
      (fun e => reapable now e.2.(inv) = false) (invitations db))).
    destruct io as [[e [|]]|]; simpl; auto using safe_refl.
  - apply safe_refl.
Qed.

Lemma steps_safe h db db' : Steps h db db' -> Safe h db.(invitations) db'.(invitations).
Proof.
  induction 1 as [|x y z Hs _ IH]; [apply safe_refl|]. intros Hwf.
  destruct (step_safe _ _ _ Hs Hwf) as [Hwf' Hk]. destruct (IH Hwf') as [Hwf'' Hk'].
  split; [done|]. by eapply kept_trans.
Qed.

Lemma kept_spent h m m' : Kept h m m' -> Spent h m -> Spent h m'.
Proof. intros Hk Hs id r Hr Hh. destruct (Hk id r Hr Hh) as (s & ? & ? & _ & Hu). eauto. Qed.

Lemma kept_granted h i m m' : Kept h m m' -> Granted h i m -> Granted h i m'.
Proof.
  intros Hk Hg id r Hr Hh. destruct (Hk id r Hr Hh) as (s & ? & ? & ? & _).
  eapply grants_trans; eauto.
Qed.

Lemma wf_granted m h r : Wf m -> by_hash m h = Some r -> Granted h r.(inv) m.
Proof.
  intros Hwf Hr id s Hs Hh. rewrite (by_hash_wf m h id s Hwf Hs Hh) in Hr. injection Hr as <-. done.
Qed.

Lemma spent_not_redeemable h m r now : Spent h m -> by_hash m h = Some r -> is_redeemable now r.(inv) = false.
Proof.
  intros Hs (id & Hid & Hh)%by_hash_some. unfold is_redeemable.
  rewrite bool_decide_eq_false_2; [done|]. intros Hn. destruct (Hs id r Hid Hh). congruence.
Qed.

Lemma used_spent m id r now k :
  Wf m -> m !! id = Some r -> Spent r.(in_token_hash) (<[id := mark_used now k r]> m).
Proof.
  intros Hwf Hr id' s [[<- <-]|[Hne Hs]]%lookup_insert_Some Hh; [by eexists|].
  by destruct Hne; eapply (wf_hash _ Hwf).
Qed.

(** A transaction answers with the invitation only when it claimed it. *)
Lemma redeem_ok io now db token key i db' :
  redeem sha256_hex io now db token key = (Ok i, db') ->
  exists r p, by_hash db.(invitations) (token_hash token) = Some r /\ is_redeemable now r.(inv) = true /\
    ApiKeyStore.insert (fun _ => io.(rd_insert)) 0 db.(identity) key = Ok p /\
    i = (mark_used now key.(row_id) r).(inv) /\
    db' = with_identity (with_invitations db
            (<[r.(inv).(in_id) := mark_used now key.(row_id) r]> db.(invitations))) p.
Proof.
  unfold redeem. repeat (case_match; try discriminate); intros [= <- <-]; eauto 10.
Qed.

(** An acceptance answered with 201 is one whose transaction succeeded. *)
Lemma accept_created io fresh now now' mid db token body db' :
  accept io fresh now now' mid db token = ((201, body), db') ->
  exists pending i name,
    by_hash db.(invitations) (token_hash token) = Some pending /\
    is_redeemable now pending.(inv) = true /\
    redeem sha256_hex io.(ac_redeem) now' (mid db) token
      (offered sha256 b64url_encode fresh now pending.(inv)).2 = (Ok i, db') /\
    body = BAccepted (offered sha256 b64url_encode fresh now pending.(inv)).1 i.(in_tenant_id) name.
Proof.
  unfold accept_invitation, find_by_token. destruct (ac_find io); [discriminate|].
  destruct (by_hash _ _) as [p|] eqn:Hp; simpl; [|discriminate].
  destruct (is_redeemable now (inv p)) eqn:Hr; simpl; [|case_bool_decide; discriminate].
  destruct (load_live_tenant _ _ _) as [name|]; [|discriminate].
  destruct (redeem _ _ _ _ _ _) as [[i|[]] db''] eqn:He; intros [= <- <-].
  exists p, i, name. rewrite <- He. auto.
Qed.

Lemma accept_spent h io fresh now now' mid db token :
  Wf db.(invitations) -> token_hash token = h -> Steps h db (mid db) -> Spent h db.(invitations) ->
  (accept io fresh now now' mid db token).1.1 <> 201.
Proof.
  intros Hwf Hh Hs Hsp. destruct (accept _ _ _ _ _ _ _) as [[code body] db'] eqn:He. simpl. intros ->.
  apply accept_created in He as (p & i & name & Hp & _ & He & _).
  apply redeem_ok in He as (r & q & Hr & Hrd & _). destruct (steps_safe _ _ _ Hs Hwf) as [_ Hk].
  rewrite Hh in Hr. by rewrite (spent_not_redeemable _ _ _ now' (kept_spent _ _ _ Hk Hsp) Hr) in Hrd.
Qed.
(** C12. A link is redeemed once: after an acceptance that answered 201, whatever
    the service does next to its tables, no acceptance with a token of the same
    hash answers 201, also not one that overlaps other requests. *)
Theorem redeemed_once io fresh now now' mid db token body db1 db2 io2 fresh2 now2 now2' mid2 token2 :
  let h := token_hash token in
  Wf db.(invitations) -> Steps h db (mid db) ->
  accept io fresh now now' mid db token = ((201, body), db1) ->
  Steps h db1 db2 -> Steps h db2 (mid2 db2) -> token_hash token2 = h ->
  (accept io2 fresh2 now2 now2' mid2 db2 token2).1.1 <> 201.
Proof.
  intros h Hwf Hm Ha H12 H2 Ht.
  apply accept_created in Ha as (p & i & name & _ & _ & Hrd & _).
  destruct (steps_safe _ _ _ Hm Hwf) as [Hwf1 _].
  pose proof (redeem_safe h (ac_redeem io) now' (mid db) token
    (offered sha256 b64url_encode fresh now (inv p)).2 Hwf1) as [Hwf2 _]. rewrite Hrd in Hwf2.
  apply redeem_ok in Hrd as (r & q & Hr & _ & _ & _ & ->).
  apply by_hash_some in Hr as (id & Hid & Hh). rewrite (wf_id _ Hwf1 _ _ Hid) in *.
  destruct (steps_safe _ _ _ H12 Hwf2) as [Hwf3 Hk].
  apply (accept_spent h); try done. eapply kept_spent; [exact Hk|]. simpl.
  unfold h. rewrite <- Hh. by apply used_spent.
Qed.

(** A withdrawn invitation is worth nothing: after a withdrawal answered with
    204 no acceptance with its token answers 201. *)
Theorem withdrawn_is_final io db tenant_id id id' r db1 db2 io2 fresh2 now2 now2' mid2 token :
  let h := token_hash token in
  Wf db.(invitations) -> parse_uuid (Str.trim id) = Some id' -> db.(invitations) !! id' = Some r ->
  r.(in_token_hash) = h ->
  revoke_invitation parse_uuid io db tenant_id id = ((204, BNone), db1) ->
  Steps h db1 db2 -> Steps h db2 (mid2 db2) ->
  (accept io2 fresh2 now2 now2' mid2 db2 token).1.1 <> 201.
Proof.
  intros h Hwf Hid Hr Hh Hrev H12 H2. unfold revoke_invitation in Hrev. rewrite Hid in Hrev.
  destruct (parse_uuid (Str.trim tenant_id)) as [t|]; [|discriminate].
  unfold revoke in Hrev. rewrite Hr in Hrev.
  destruct io as [[e a]|]; [discriminate|].
  destruct (_ && _); [|discriminate]. injection Hrev as <-.
  destruct (safe_sub h _ _ (delete_subseteq (invitations db) id') Hwf) as [Hwf1 _].
  destruct (steps_safe _ _ _ H12 Hwf1) as [Hwf2 Hk].
  apply (accept_spent h); try done. eapply kept_spent; [exact Hk|].
  simpl. intros j s [Hne Hs]%lookup_delete_Some Hsh. destruct Hne.
  by eapply (wf_hash _ Hwf); [exact Hr|exact Hs|congruence].
Qed.

(** What an acceptance does. Answered with 201, it found a redeemable
    invitation, at the transaction too, which it marked used by a new key; the key
    it returns is the new key's, which belongs to the tenant of the invitation, has
    exactly its policies and is not a superuser's. Answered otherwise it changed
    nothing, unless the answer to the commit was lost. *)
Theorem acceptance_mints_as_granted io fresh now now' mid db token code body db' :
  let h := token_hash token in
  Wf db.(invitations) -> Steps h db (mid db) ->
  accept io fresh now now' mid db token = ((code, body), db') ->
  (code = 201 ->
   exists r p row name,
     by_hash (mid db).(invitations) h = Some r /\ is_redeemable now' r.(inv) = true /\
     ApiKeyStore.insert (fun _ => io.(ac_redeem).(rd_insert)) 0 (mid db).(identity) row = Ok p /\
     db' = with_identity (with_invitations (mid db)
             (<[r.(inv).(in_id) := mark_used now' row.(row_id) r]> (mid db).(invitations))) p /\
     body = BAccepted (generate_key b64url_encode fresh) r.(inv).(in_tenant_id) name /\
     row.(key_hash) = hash_key sha256 (generate_key b64url_encode fresh) /\
     row.(row_tenant_id) = r.(inv).(in_tenant_id) /\ row.(row_policies) = r.(inv).(in_policies) /\
     row.(is_superuser) = false) /\
  (code <> 201 -> db' = db \/ db' = mid db \/ exists e, io.(ac_redeem).(rd_commit) = Some (e, true)).
Proof.
  intros h Hwf Hs Ha. split.
  - intros ->. apply accept_created in Ha as (q & i & name & Hq & _ & Hrd & ->).
    apply redeem_ok in Hrd as (r & p & Hr & Hok & Hins & -> & ->).
    destruct (steps_safe _ _ _ Hs Hwf) as [_ Hk].
    pose proof (kept_granted _ _ _ _ Hk (wf_granted _ _ _ Hwf Hq)) as Hg.
    destruct (by_hash_some _ _ _ Hr) as (id & Hid & Hh). destruct (Hg id r Hid Hh) as (_ & Ht & _ & Hp & _).
    exists r, p, (offered sha256 b64url_encode fresh now (inv q)).2, name. simpl in *. by rewrite Ht, Hp.
  - intros Hc. revert Ha. unfold accept_invitation, find_by_token.
    destruct (ac_find io); [intros [= <- <- <-]; by left|].
    destruct (by_hash _ _) as [q|]; simpl; [|intros [= <- <- <-]; by left].
    destruct (is_redeemable now (inv q)); simpl; [|case_bool_decide; intros [= <- <- <-]; by left].
    destruct (load_live_tenant _ _ _) as [name|]; [|intros [= <- <- <-]; by left].
    unfold redeem. repeat case_match; intros [= <- <- <-]; simplify_eq; eauto.
Qed.


(** The name of a redeemed key is taken as long as the key is active. *)
Lemma insert_taken io p row q key :
  ApiKeyStore.insert io 0 p row = Ok q ->
  row.(row_tenant_id) = key.(row_tenant_id) -> row.(row_name) = key.(row_name) ->
  forall io', exists e, ApiKeyStore.insert io' 0 q key = Err e.
Proof.
  unfold ApiKeyStore.insert. intros Hins Ht Hn io'. destruct (io 0%nat); [discriminate|].
  destruct (ApiKeyStore.unique_violation p row); [discriminate|].
  destruct (negb (ApiKeyStore.tenant_exists p _)); [discriminate|]. injection Hins as <-.
  destruct (io' 0%nat); [by eexists|].
  replace (ApiKeyStore.unique_violation _ key) with true; [by eexists|]. symmetry.
  apply orb_true_intro. right. apply existsb_exists. exists (ApiKeyStore.insert_query row). split.
  - apply list_elem_of_In, list_elem_of_fmap. exists (row_id row, ApiKeyStore.insert_query row).
    split; [done|]. apply elem_of_map_to_list. simpl. by rewrite lookup_insert_eq.
  - apply orb_true_intro. right. unfold ApiKeyStore.active_name. simpl.
    by rewrite Ht, Hn, !bool_decide_eq_true_2.
Qed.

(** Two links, one name. A key is named after the part of the address before
    the at sign and the first eight digits of the invitation's id, which are those
    of its time of creation. Where two pending invitations of a tenant agree on
    both, redeeming the first makes the second answer that its link is not valid,
    although it is neither used nor expired. *)
Theorem namesake_cannot_redeem io fresh now now' db token body db1 a b io2 fresh2 now2 now2' token2 :
  by_hash db.(invitations) (token_hash token) = Some a ->
  by_hash db1.(invitations) (token_hash token2) = Some b ->
  a.(inv).(in_tenant_id) = b.(inv).(in_tenant_id) -> key_name_of a.(inv) = key_name_of b.(inv) ->
  accept io fresh now now' id db token = ((201, body), db1) ->
  is_redeemable now2 b.(inv) = true -> io2.(ac_find) = None ->
  is_ok (load_live_tenant io2.(ac_tenant) db1 b.(inv).(in_tenant_id)) = true ->
  accept io2 fresh2 now2 now2' id db1 token2 = (invalid_link, db1).
Proof.
  intros Ha Hb Ht Hn Hacc Hrd Hio Hlive.
  apply accept_created in Hacc as (q & i & name0 & Hq & _ & Hred & _).
  rewrite Ha in Hq. injection Hq as <-.
  apply redeem_ok in Hred as (r & p & _ & _ & Hins & _ & ->). simpl in *.
  unfold accept_invitation, find_by_token. rewrite Hio. simpl. rewrite Hb. simpl.
  rewrite Hrd. simpl.
  destruct (load_live_tenant _ _ _) as [name|]; [|discriminate].
  unfold redeem. case_bool_decide; [done|]. simpl.
  edestruct (insert_taken _ _ _ _ (offered sha256 b64url_encode fresh2 now2 (inv b)).2 Hins Ht Hn) as [e He].
  by rewrite He.
Qed.

End Properties.

(** ** An example *)

Module InvitationsDemo.

Definition sha (s : string) : string := "h" +:+ s.
Definition ident (s : string) : string := s.

Definition no_redeem_failure : RedeemIo :=
  {| rd_begin := None; rd_insert := None; rd_claim := None; rd_classify := None; rd_commit := None |}.
Definition fine : AcceptIo := {| ac_find := None; ac_tenant := None; ac_redeem := no_redeem_failure |}.

Definition empty_db : InviteDb :=
  {| invitations := ∅;
     identity := {| tenants := [{| t_id := "t1"; t_slug := "acme"; t_deleted_at := None |}];
                    api_keys := ∅; mfa_totp := ∅; recovery_codes := [] |};
     display_names := {["t1" := "Acme"]} |}.

Definition request (email : string) : CreateInvitationRequest :=
  {| rq_email := email; rq_policies := Some ["read"]; rq_expires_in_hours := None |}.

(** Two invitations a second apart, to [ann@a.io] and [ann@b.io]. *)
Definition ID1 : string := "01928f3c-0000-7000-8000-000000000001".
Definition ID2 : string := "01928f3c-03e8-7000-8000-000000000002".

Definition invite (now : Z) (id token email : string) (db : InviteDb) : InviteDb :=
  (create_invitation sha Some "https://vault" None None None now id (Ok token) "admin" db "t1" (request email)).2.

Definition db1 : InviteDb := invite (10 ^ 9) ID1 "tok1" "ann@a.io" empty_db.
Definition db2 : InviteDb := invite (2 * 10 ^ 9) ID2 "tok2" "ann@b.io" db1.

Definition fresh1 : Fresh := {| random_bytes := "r1"; fresh_id := "k1" |}.
Definition fresh2 : Fresh := {| random_bytes := "r2"; fresh_id := "k2" |}.

Definition take (fresh : Fresh) (token : string) (db : InviteDb) : Reply * InviteDb :=
  accept_invitation sha ident ident fine fresh (3 * 10 ^ 9) (3 * 10 ^ 9) id db token.

Definition db3 : InviteDb := (take fresh1 "tok1" db2).2.

Definition row1 : InvitationRow := Eval vm_compute in
  {| inv := {| in_id := ID1; in_tenant_id := "t1"; in_email := "ann@a.io"; in_policies := ["read"];
               in_created_by := "admin"; in_created_at := 10 ^ 9; in_expires_at := 10 ^ 9 + 72 * HOUR;
               in_used_at := None |};
     in_token_hash := sha "tok1"; in_api_key_id := None |}.
Definition row2 : InvitationRow := Eval vm_compute in
  {| inv := {| in_id := ID2; in_tenant_id := "t1"; in_email := "ann@b.io"; in_policies := ["read"];
               in_created_by := "admin"; in_created_at := 2 * 10 ^ 9; in_expires_at := 2 * 10 ^ 9 + 72 * HOUR;
               in_used_at := None |};
     in_token_hash := sha "tok2"; in_api_key_id := None |}.

Lemma db2_steps : rtc (Step sha "none") empty_db db2.
Proof.
  apply (rtc_l _ _ db1).
  - apply (s_create sha "none" empty_db None (10 ^ 9) ID1 "t1" "ann@a.io" "tok1" ["read"] "admin"
      (10 ^ 9 + 72 * HOUR)). vm_compute. discriminate.
  - apply rtc_once. apply (s_create sha "none" db1 None (2 * 10 ^ 9) ID2 "t1" "ann@b.io" "tok2" ["read"] "admin"
      (2 * 10 ^ 9 + 72 * HOUR)). vm_compute. discriminate.
Qed.

Lemma empty_wf : Wf ∅.
Proof. split; intros *; rewrite lookup_empty; discriminate. Qed.

Lemma db2_wf : Wf db2.(invitations).
Proof. by destruct (steps_safe sha "none" _ _ db2_steps empty_wf). Qed.

Lemma taken_once : take fresh1 "tok1" db2 = ((201, BAccepted (generate_key ident fresh1) "t1" "Acme"), db3).
Proof. vm_compute. reflexivity. Qed.

Lemma redeemed_once_witness : (take fresh2 "tok1" db3).1.1 <> 201.
Proof.
  apply (redeemed_once sha ident ident fine fresh1 (3 * 10 ^ 9) (3 * 10 ^ 9) id db2 "tok1" _ db3 db3
    fine fresh2 (3 * 10 ^ 9) (3 * 10 ^ 9) id "tok1" db2_wf (rtc_refl _ _) taken_once (rtc_refl _ _)
    (rtc_refl _ _) eq_refl).
Defined.

Lemma withdrawn_is_final_witness :
  (take fresh1 "tok1" (revoke_invitation Some None db2 "t1" ID1).2).1.1 <> 201.
Proof.
  refine (withdrawn_is_final sha Some ident ident None db2 "t1" ID1 ID1
    row1
    (revoke_invitation Some None db2 "t1" ID1).2 (revoke_invitation Some None db2 "t1" ID1).2
    fine fresh1 (3 * 10 ^ 9) (3 * 10 ^ 9) id "tok1" db2_wf eq_refl _ _ _ (rtc_refl _ _) (rtc_refl _ _));
    vm_compute; reflexivity.
Defined.

Lemma acceptance_mints_as_granted_witness :
  exists row, (db3.(identity).(api_keys) !! "k1" = Some row) /\ row.(row_policies) = ["read"] /\
    exists r, by_hash db2.(invitations) (sha "tok1") = Some r.
Proof.
  destruct (acceptance_mints_as_granted sha ident ident fine fresh1 (3 * 10 ^ 9) (3 * 10 ^ 9) id db2 "tok1" 201
    _ db3 db2_wf (rtc_refl _ _) taken_once) as [Hok _].
  destruct (Hok eq_refl) as (r & _ & _ & _ & Hr & _).
  eexists. split; [vm_compute; reflexivity|]. split; [reflexivity|]. exists r. exact Hr.
Defined.

Lemma namesake_cannot_redeem_witness : take fresh2 "tok2" db3 = (invalid_link, db3).
Proof.
  refine (namesake_cannot_redeem sha ident ident fine fresh1 (3 * 10 ^ 9) (3 * 10 ^ 9) db2 "tok1" _ db3 row1 row2
    fine fresh2 (3 * 10 ^ 9) (3 * 10 ^ 9) "tok2" _ _ eq_refl _ taken_once _ eq_refl _); vm_compute; reflexivity.
Defined.

End InvitationsDemo.
