(* ===== verification/Tenants.v ===== *)
(** * Tenants and quotas

    [services/identity-service/src/tenant_handlers.rs] and [quota_handlers.rs] with
    [tenant_store.rs], the tenant types of [wslvault-core], the queries of
    [quota_store.rs] and [policy_store.rs] they run, and the triggers of
    [012_tenant_quotas.sql] and constraints of [035_secret_tags_environments.sql].

    Creating a tenant writes three tables: the tenant, by a trigger its quota, and
    its first policy, which the policy engine compiles. [serve] is the part of the
    identity service's router that holds these routes, with its layers. *)

From Stdlib Require Import Lia Ascii.
From S2P Require Import Prelude Errors KeyStore Policy Auth PolicyEngine SecretDb SecretEngine IdentityDb ApiKeys Mfa.

(** ** Types *)

Inductive TenantTier := Shared | Dedicated | Sovereign.
Inductive TenantKind := Project | Production.

#[global] Instance TenantTier_eq_dec : EqDecision TenantTier.
Proof. solve_decision. Defined.
#[global] Instance TenantKind_eq_dec : EqDecision TenantKind.
Proof. solve_decision. Defined.

Record Tenant := {
  tn_id : string;
  tn_slug : string;
  tn_display_name : string;
  tn_tier : TenantTier;
  tn_root_key_id : string;
  tn_kind : TenantKind;
  tn_allowed : list SecretEnvironment;
  tn_default : SecretEnvironment;
  tn_tags : list string;
  tn_created_at : Z;
  tn_updated_at : Z;
  tn_deleted_at : option Z;
}.

Definition kind_str (k : TenantKind) : string :=
  match k with Project => "project" | Production => "production" end.

Definition default_allowed (k : TenantKind) : list SecretEnvironment :=
  match k with Project => [Int; Test; Acc] | Production => [Prod] end.

Definition default_environment (k : TenantKind) : SecretEnvironment :=
  match k with Project => Int | Production => Prod end.

Definition allows_environment (t : Tenant) (e : SecretEnvironment) : bool :=
  bool_decide (e ∈ t.(tn_allowed)).

Definition tier_str (t : TenantTier) : string :=
  match t with Shared => "shared" | Dedicated => "dedicated" | Sovereign => "sovereign" end.

(** A row of [system.tenants], in the types of its columns. *)
Record TenantRow := {
  tr_slug : string;
  tr_display_name : string;
  tr_tier : string;
  tr_root_key_id : string;
  tr_kind : string;
  tr_allowed : list string;
  tr_default : string;
  tr_tags : list string;
  tr_created_at : Z;
  tr_updated_at : Z;
  tr_deleted_at : option Z;
}.

Record TenantQuotaRow := {
  tq_max_secrets : Z;
  tq_max_secret_versions : Z;
  tq_max_secret_size_bytes : Z;
  tq_max_transit_keys : Z;
  tq_read_rate_limit : Z;
  tq_write_rate_limit : Z;
  tq_max_storage_bytes : Z;
  tq_current_storage_bytes : Z;
  tq_current_secret_count : Z;
  tq_current_transit_key_count : Z;
  tq_tier : string;
  tq_created_at : Z;
  tq_updated_at : Z;
}.

(** Rows by their UUIDs in canonical text; the table of policies as the policy
    engine sees it. *)
Record TenantDb := {
  tenant_table : gmap string TenantRow;
  quota_table : gmap string TenantQuotaRow;
  policy_table : PgPolicyBackend;
}.

Definition set_tenants (db : TenantDb) (m : gmap string TenantRow) : TenantDb :=
  {| tenant_table := m; quota_table := db.(quota_table); policy_table := db.(policy_table) |}.
Definition set_tenant_quotas (db : TenantDb) (m : gmap string TenantQuotaRow) : TenantDb :=
  {| tenant_table := db.(tenant_table); quota_table := m; policy_table := db.(policy_table) |}.
Definition set_policies (db : TenantDb) (p : PgPolicyBackend) : TenantDb :=
  {| tenant_table := db.(tenant_table); quota_table := db.(quota_table); policy_table := p |}.

(** The defaults of [012_tenant_quotas.sql]. *)
Definition new_quota (tier : string) (now : Z) : TenantQuotaRow :=
  {| tq_max_secrets := 10000; tq_max_secret_versions := 100; tq_max_secret_size_bytes := 65536;
     tq_max_transit_keys := 100; tq_read_rate_limit := 1000; tq_write_rate_limit := 200;
     tq_max_storage_bytes := 1073741824; tq_current_storage_bytes := 0; tq_current_secret_count := 0;
     tq_current_transit_key_count := 0; tq_tier := tier; tq_created_at := now; tq_updated_at := now |}.

(** [shared.ensure_tenant_quota], after each insert of a tenant. *)
Definition ensure_tenant_quota (m : gmap string TenantQuotaRow) (id tier : string) (now : Z) :
    gmap string TenantQuotaRow :=
  if bool_decide (is_Some (m !! id)) then m else <[id := new_quota tier now]> m.

(** A round trip fails with a text, its effect applied or not. *)
Definition RoundTrip : Type := option (string * bool).

Definition TIERS : list string := ["shared"; "dedicated"; "sovereign"].
Definition KINDS : list string := ["project"; "production"].
Definition ENVIRONMENTS : list string := ["INT"; "TEST"; "ACC"; "PROD"].

(** The constraint an inserted row violates, if any. *)
Definition tenant_violation (m : gmap string TenantRow) (id : string) (r : TenantRow) : option string :=
  if bool_decide (is_Some (m !! id)) then Some "tenants_pkey"
  else if existsb (fun e => bool_decide (e.2.(tr_slug) = r.(tr_slug))) (map_to_list m) then Some "tenants_slug_key"
  else if negb (bool_decide (r.(tr_tier) ∈ TIERS)) then Some "tenants_tier_check"
  else if negb (bool_decide (r.(tr_kind) ∈ KINDS)) then Some "tenants_tenant_kind_check"
  else if negb (forallb (fun e => bool_decide (e ∈ ENVIRONMENTS)) r.(tr_allowed)
                && negb (bool_decide (r.(tr_allowed) = []))) then Some "tenants_allowed_environments_check"
  else if negb (bool_decide (r.(tr_default) ∈ r.(tr_allowed))) then Some "tenants_default_environment_check"
  else None.

(** ** Requests and answers *)

Record CreateTenantRequest := {
  cq_slug : string;
  cq_display_name : string;
  cq_tier : option string;
  cq_root_key_id : string;
  cq_kind : option string;
  cq_allowed : option (list string);
  cq_default : option string;
  cq_tags : option (list string);
}.

Record QuotaUpdate := {
  u_max_secrets : option Z;
  u_max_secret_versions : option Z;
  u_max_secret_size_bytes : option Z;
  u_max_transit_keys : option Z;
  u_read_rate_limit : option Z;
  u_write_rate_limit : option Z;
  u_max_storage_bytes : option Z;
  u_tier : option string;
}.

Inductive TenantBody :=
| TBErr (code message : string)
| TBTenant (t : Tenant)
| TBTenants (l : list Tenant)
| TBQuota (tenant : string) (q : TenantQuotaRow)
| TBQuotas (l : list (string * TenantQuotaRow))
| TBNone.

Definition TenantReply : Type := Z * TenantBody.

Inductive TenantStoreInner :=
| Database_ (db : TenantDb)
| Memory_ (tenants : gmap string Tenant).

Inductive TenantRequest :=
| TCreate (req : CreateTenantRequest)
| TList
| TGet (id : string)
| TDelete (id : string)
| QList
| QGet (id : string)
| QPatch (id : string) (update : QuotaUpdate).

(** What the environment gives one request: the service's clock, the database's, a
    fresh UUID, and what becomes of the statement and of the seeding. *)
Record TenantTurn := {
  tt_now : Z;
  tt_db_now : Z;
  tt_fresh : string;
  tt_io : RoundTrip;
  tt_seed : RoundTrip;
}.

Section Store.
Context (to_lowercase to_uppercase : string -> string) (debug_str : string -> string).
(** The order of the database's collation. *)
Context (collate : string -> string -> bool).

Definition kind_of_str (s : string) : result string TenantKind :=
  let x := to_lowercase (Str.trim s) in
  if decide (x = "project") then Ok Project
  else if decide (x = "production" \/ x = "prod") then Ok Production
  else Err ("unknown tenant_kind '" +:+ x +:+ "'; must be one of: project, production").

Abbreviation env_of_str := (env_of_str to_uppercase).

(** ** tenant_store.rs *)

Definition parse_tier_row (s : string) : TenantTier :=
  if decide (s = "dedicated") then Dedicated else if decide (s = "sovereign") then Sovereign else Shared.

Definition parse_kind (s : string) : TenantKind := default Project (result_ok (kind_of_str s)).

Definition parse_env_list (raw : list string) : list SecretEnvironment :=
  omap (fun s => result_ok (env_of_str s)) raw.

Definition parse_env (s : string) : SecretEnvironment := default Int (result_ok (env_of_str s)).

Definition row_to_tenant (id : string) (r : TenantRow) : Tenant :=
  {| tn_id := id; tn_slug := r.(tr_slug); tn_display_name := r.(tr_display_name);
     tn_tier := parse_tier_row r.(tr_tier); tn_root_key_id := r.(tr_root_key_id); tn_kind := parse_kind r.(tr_kind);
     tn_allowed := match parse_env_list r.(tr_allowed) with
                   | [] => default_allowed (parse_kind r.(tr_kind))
                   | l => l
                   end;
     tn_default := parse_env r.(tr_default); tn_tags := r.(tr_tags); tn_created_at := r.(tr_created_at);
     tn_updated_at := r.(tr_updated_at); tn_deleted_at := r.(tr_deleted_at) |}.

Definition tenant_row (now : Z) (t : Tenant) : TenantRow :=
  {| tr_slug := t.(tn_slug); tr_display_name := t.(tn_display_name); tr_tier := tier_str t.(tn_tier);
     tr_root_key_id := t.(tn_root_key_id); tr_kind := kind_str t.(tn_kind);
     tr_allowed := map env_str t.(tn_allowed); tr_default := env_str t.(tn_default); tr_tags := t.(tn_tags);
     tr_created_at := now; tr_updated_at := now; tr_deleted_at := None |}.

Definition get_tenant_row (io : option string) (db : TenantDb) (id : string) : vresult Tenant :=
  match io with
  | Some e => Err (Database e)
  | None => ok_or (row_to_tenant id <$> db.(tenant_table) !! id) (Errors.TenantNotFound id)
  end.

Definition get_tenant_by_slug (io : option string) (db : TenantDb) (slug : string) : vresult Tenant :=
  match io with
  | Some e => Err (Database e)
  | None => ok_or ((fun e => row_to_tenant e.1 e.2) <$>
              List.find (fun e => bool_decide (e.2.(tr_slug) = slug) && bool_decide (e.2.(tr_deleted_at) = None))
                (map_to_list db.(tenant_table))) (Errors.TenantNotFound slug)
  end.

Definition create_tenant_row (io : RoundTrip) (now : Z) (db : TenantDb) (t : Tenant) : vresult () * TenantDb :=
  let row := tenant_row now t in
  match tenant_violation db.(tenant_table) t.(tn_id) row with
  | Some c => (Err (Database (match io with Some (e, _) => e | None => c end)), db)
  | None =>
      let db' := set_tenant_quotas (set_tenants db (<[t.(tn_id) := row]> db.(tenant_table)))
                   (ensure_tenant_quota db.(quota_table) t.(tn_id) row.(tr_tier) now) in
      match io with
      | None => (Ok tt, db')
      | Some (e, applied) => (Err (Database e), if applied then db' else db)
      end
  end.

(** The update fires the trigger that stamps [updated_at]. *)
Definition deleted_row (now : Z) (r : TenantRow) : TenantRow :=
  {| tr_slug := r.(tr_slug); tr_display_name := r.(tr_display_name); tr_tier := r.(tr_tier);
     tr_root_key_id := r.(tr_root_key_id); tr_kind := r.(tr_kind); tr_allowed := r.(tr_allowed);
     tr_default := r.(tr_default); tr_tags := r.(tr_tags); tr_created_at := r.(tr_created_at);
     tr_updated_at := now; tr_deleted_at := Some now |}.

Definition soft_delete_tenant (io : RoundTrip) (now : Z) (db : TenantDb) (id : string) : vresult () * TenantDb :=
  let hit := match db.(tenant_table) !! id with
             | Some r => if bool_decide (r.(tr_deleted_at) = None) then Some r else None
             | None => None
             end in
  let db' := match hit with
             | Some r => set_tenants db (<[id := deleted_row now r]> db.(tenant_table))
             | None => db
             end in
  match io with
  | Some (e, applied) => (Err (Database e), if applied then db' else db)
  | None => (match hit with Some _ => Ok tt | None => Err (Errors.TenantNotFound id) end, db')
  end.

Definition list_tenant_rows (io : option string) (db : TenantDb) : vresult (list Tenant) :=
  match io with
  | Some e => Err (Database e)
  | None => Ok (order_by (fun a b => collate a.(tn_slug) b.(tn_slug))
      (map (fun e => row_to_tenant e.1 e.2)
         (List.filter (fun e => bool_decide (e.2.(tr_deleted_at) = None)) (map_to_list db.(tenant_table)))))
  end.

(** ** quota_store.rs *)

Definition updated_quota (now : Z) (u : QuotaUpdate) (q : TenantQuotaRow) : TenantQuotaRow :=
  {| tq_max_secrets := default q.(tq_max_secrets) u.(u_max_secrets);
     tq_max_secret_versions := default q.(tq_max_secret_versions) u.(u_max_secret_versions);
     tq_max_secret_size_bytes := default q.(tq_max_secret_size_bytes) u.(u_max_secret_size_bytes);
     tq_max_transit_keys := default q.(tq_max_transit_keys) u.(u_max_transit_keys);
     tq_read_rate_limit := default q.(tq_read_rate_limit) u.(u_read_rate_limit);
     tq_write_rate_limit := default q.(tq_write_rate_limit) u.(u_write_rate_limit);
     tq_max_storage_bytes := default q.(tq_max_storage_bytes) u.(u_max_storage_bytes);
     tq_current_storage_bytes := q.(tq_current_storage_bytes);
     tq_current_secret_count := q.(tq_current_secret_count);
     tq_current_transit_key_count := q.(tq_current_transit_key_count);
     tq_tier := default q.(tq_tier) u.(u_tier); tq_created_at := q.(tq_created_at); tq_updated_at := now |}.

Inductive QuotaError := QDatabase (e : string) | QNotFound (tenant : string).

Definition quota_error_text (e : QuotaError) : string :=
  match e with
  | QDatabase e => "database error: " +:+ e
  | QNotFound t => "quota not found for tenant " +:+ t
  end.

Definition get_quota_row (io : option string) (db : TenantDb) (id : string) : result QuotaError TenantQuotaRow :=
  match io with
  | Some e => Err (QDatabase e)
  | None => ok_or (db.(quota_table) !! id) (QNotFound id)
  end.

Definition update_quota_row (io : RoundTrip) (now : Z) (db : TenantDb) (id : string) (u : QuotaUpdate) :
    result QuotaError TenantQuotaRow * TenantDb :=
  match db.(quota_table) !! id with
  | None => (Err (match io with Some (e, _) => QDatabase e | None => QNotFound id end), db)
  | Some q =>
      let q' := updated_quota now u q in
      if negb (bool_decide (q'.(tq_tier) ∈ TIERS))
      then (Err (QDatabase (match io with Some (e, _) => e | None => "tenant_quotas_tier_check" end)), db)
      else
        let db' := set_tenant_quotas db (<[id := q']> db.(quota_table)) in
        match io with
        | None => (Ok q', db')
        | Some (e, applied) => (Err (QDatabase e), if applied then db' else db)
        end
  end.

(** Three lower-case words and the text of UUIDs: any collation orders them as
    bytes are. *)
Definition by_tier (a b : string * TenantQuotaRow) : bool :=
  if bool_decide (a.2.(tq_tier) = b.2.(tq_tier)) then String.leb a.1 b.1
  else String.leb a.2.(tq_tier) b.2.(tq_tier).

Definition list_quota_rows (io : option string) (db : TenantDb) : result QuotaError (list (string * TenantQuotaRow)) :=
  match io with
  | Some e => Err (QDatabase e)
  | None => Ok (order_by by_tier
      (List.filter (fun e => match db.(tenant_table) !! e.1 with
                             | Some r => bool_decide (r.(tr_deleted_at) = None)
                             | None => false
                             end) (map_to_list db.(quota_table))))
  end.

(** ** tenant_handlers.rs: the store *)

Definition DEFAULT_TENANT_POLICY : string := "default".

(** The JSON [seed_default_policy] stores. *)
Definition default_document : PolicyDocumentDto :=
  {| dto_name := DEFAULT_TENANT_POLICY;
     dto_rules := [{| dto_paths := ["secret/**"]; dto_capabilities := ["read"; "write"; "list"; "delete"] |};
                   {| dto_paths := ["transit/**"]; dto_capabilities := ["read"; "write"; "list"] |}] |}.

(** [policy_store::put_policy] on a document the engine can read. A failure is
    logged and nothing more. *)
Definition seed_default_policy (io : RoundTrip) (id : string) (p : PgPolicyBackend) : PgPolicyBackend :=
  match dto_to_doc default_document with
  | Err _ => p
  | Ok doc =>
      let p' := {| rows := <[(id, DEFAULT_TENANT_POLICY) := doc]> p.(rows); db_up := p.(db_up) |} in
      match io with
      | None => p'
      | Some (_, applied) => if applied then p' else p
      end
  end.

Definition store_create (t : TenantTurn) (self : TenantStoreInner) (tenant : Tenant) : vresult () * TenantStoreInner :=
  match self with
  | Database_ db =>
      match create_tenant_row t.(tt_io) t.(tt_db_now) db tenant with
      | (Ok _, db') => (Ok tt, Database_ (set_policies db' (seed_default_policy t.(tt_seed) tenant.(tn_id) db'.(policy_table))))
      | (Err e, db') => (Err e, Database_ db')
      end
  | Memory_ m =>
      if bool_decide (is_Some (m !! tenant.(tn_id)))
      then (Err (ValidationError "id" ("tenant '" +:+ tenant.(tn_id) +:+ "' already exists")), self)
      else (Ok tt, Memory_ (<[tenant.(tn_id) := tenant]> m))
  end.

Definition lost (io : RoundTrip) : option string := fst <$> io.

Definition store_get (t : TenantTurn) (self : TenantStoreInner) (id : string) : vresult Tenant :=
  match self with
  | Database_ db => get_tenant_row (lost t.(tt_io)) db id
  | Memory_ m => ok_or (m !! id) (Errors.TenantNotFound id)
  end.

Definition store_list (t : TenantTurn) (self : TenantStoreInner) : vresult (list Tenant) :=
  match self with
  | Database_ db => list_tenant_rows (lost t.(tt_io)) db
  | Memory_ m => Ok (order_by (fun a b => String.leb a.(tn_slug) b.(tn_slug))
      (List.filter (fun x => bool_decide (x.(tn_deleted_at) = None)) (map snd (map_to_list m))))
  end.

Definition deleted_tenant (now : Z) (t : Tenant) : Tenant :=
  {| tn_id := t.(tn_id); tn_slug := t.(tn_slug); tn_display_name := t.(tn_display_name); tn_tier := t.(tn_tier);
     tn_root_key_id := t.(tn_root_key_id); tn_kind := t.(tn_kind); tn_allowed := t.(tn_allowed);
     tn_default := t.(tn_default); tn_tags := t.(tn_tags); tn_created_at := t.(tn_created_at);
     tn_updated_at := t.(tn_updated_at); tn_deleted_at := Some now |}.

Definition store_soft_delete (t : TenantTurn) (self : TenantStoreInner) (id : string) : vresult () * TenantStoreInner :=
  match self with
  | Database_ db => let '(r, db') := soft_delete_tenant t.(tt_io) t.(tt_db_now) db id in (r, Database_ db')
  | Memory_ m =>
      match m !! id with
      | None => (Err (Errors.TenantNotFound id), self)
      | Some x => if bool_decide (is_Some x.(tn_deleted_at)) then (Err (Errors.TenantNotFound id), self)
                  else (Ok tt, Memory_ (<[id := deleted_tenant t.(tt_now) x]> m))
      end
  end.

(** ** tenant_handlers.rs: validation *)

Definition slug_char (a : ascii) : bool := Str.ascii_in 97 122 a || Str.ascii_in 48 57 a || Ascii.eqb a "-".

Definition validate_slug (slug : string) : result string () :=
  if Str.is_empty slug then Err "slug must not be empty"
  else if negb (Str.forallb slug_char slug)
  then Err "slug must contain only lowercase letters, digits, and hyphens"
  else Ok tt.

Definition parse_tier (t : option string) : result string TenantTier :=
  match t with
  | None => Ok Shared
  | Some s =>
      if decide (s = "shared") then Ok Shared
      else if decide (s = "dedicated") then Ok Dedicated
      else if decide (s = "sovereign") then Ok Sovereign
      else Err ("unknown tier '" +:+ s +:+ "'; must be one of: shared, dedicated, sovereign")
  end.

(** The loop over an override: [out] is what was pushed so far. *)
Fixpoint project_environments (out : list SecretEnvironment) (l : list string) :
    result string (list SecretEnvironment) :=
  match l with
  | [] => Ok out
  | s :: l' =>
      env ← env_of_str s;
      if bool_decide (env = Prod)
      then Err "project tenants cannot allow PROD — create a separate production tenant"
      else project_environments (if bool_decide (env ∈ out) then out else out ++ [env]) l'
  end.

Definition resolve_allowed_environments (kind : TenantKind) (override : option (list string)) :
    result string (list SecretEnvironment) :=
  match kind with
  | Production => Ok (default_allowed Production)
  | Project =>
      match override with
      | None | Some [] => Ok (default_allowed Project)
      | Some l =>
          out ← project_environments [] l;
          match out with [] => Err "allowed_environments must not be empty" | _ => Ok out end
      end
  end.

Definition resolve_default_environment (kind : TenantKind) (allowed : list SecretEnvironment)
    (override : option string) : result string SecretEnvironment :=
  env ← match override with
        | None => Ok (default_environment kind)
        | Some s => if Str.is_empty s then Ok (default_environment kind) else env_of_str s
        end;
  if bool_decide (env ∈ allowed) then Ok env
  else Err ("default_environment " +:+ env_str env +:+ " is not in allowed_environments").

Definition vault_error_status (e : VaultError) : Z :=
  match e with Errors.TenantNotFound _ => 404 | ValidationError _ _ => 422 | _ => 500 end.

Definition unprocessable {A} (code : string) (r : result string A) : result TenantReply A :=
  match r with Ok a => Ok a | Err msg => Err (422, TBErr code msg) end.

Definition not_blank (code field s : string) : result TenantReply () :=
  if Str.is_empty (Str.trim s) then Err (422, TBErr code (field +:+ " must not be blank")) else Ok tt.

Definition normal_tags (tags : option (list string)) : list string :=
  List.filter (fun t => negb (Str.is_empty t)) (map (fun t => to_lowercase (Str.trim t)) (default [] tags)).

(** The checks of [create_tenant], and the record they yield. *)
Definition requested_tenant (now : Z) (fresh : string) (p : CreateTenantRequest) : result TenantReply Tenant :=
  _ ← unprocessable "invalid_slug" (validate_slug p.(cq_slug));
  _ ← not_blank "invalid_display_name" "display_name" p.(cq_display_name);
  _ ← not_blank "invalid_root_key_id" "root_key_id" p.(cq_root_key_id);
  tier ← unprocessable "invalid_tier" (parse_tier p.(cq_tier));
  kind ← unprocessable "invalid_tenant_kind" (kind_of_str (default "project" p.(cq_kind)));
  allowed ← unprocessable "invalid_allowed_environments" (resolve_allowed_environments kind p.(cq_allowed));
  env ← unprocessable "invalid_default_environment" (resolve_default_environment kind allowed p.(cq_default));
  Ok {| tn_id := fresh; tn_slug := p.(cq_slug); tn_display_name := p.(cq_display_name); tn_tier := tier;
        tn_root_key_id := p.(cq_root_key_id); tn_kind := kind; tn_allowed := allowed; tn_default := env;
        tn_tags := normal_tags p.(cq_tags); tn_created_at := now; tn_updated_at := now; tn_deleted_at := None |}.

(** ** Handlers *)

Context (parse_uuid : string -> option string).

Definition create_tenant (t : TenantTurn) (self : TenantStoreInner) (p : CreateTenantRequest) :
    TenantReply * TenantStoreInner :=
  match requested_tenant t.(tt_now) t.(tt_fresh) p with
  | Err r => (r, self)
  | Ok tenant =>
      match store_create t self tenant with
      | (Ok _, self') => ((201, TBTenant tenant), self')
      | (Err e, self') => ((vault_error_status e, TBErr "create_failed" (display debug_str e)), self')
      end
  end.

Definition list_tenants (t : TenantTurn) (self : TenantStoreInner) : TenantReply :=
  match store_list t self with
  | Ok l => (200, TBTenants l)
  | Err e => (500, TBErr "list_failed" (display debug_str e))
  end.

Definition invalid_id : TenantReply := (400, TBErr "invalid_id" "tenant id must be a valid UUID").
Definition no_tenant (id : string) : TenantReply := (404, TBErr "not_found" ("tenant '" +:+ id +:+ "' not found")).

(** Administrators read any tenant, members their own. *)
Definition may_read {auth : Authenticator} (admin : AdminAuth) (headers : HeaderMap) (id : string) :
    result TenantReply () :=
  match ApiKeys.authenticate admin headers with
  | Ok _ => Ok tt
  | Err _ =>
      match resolve headers with
      | Ok who =>
          if bool_decide (who.(tenant_id) = id) then Ok tt
          else Err (403, TBErr "cross_tenant_denied" ("you can read your own tenant; reading another requires "
                      +:+ "platform administration"))
      | Err e => Err (401, TBErr "unauthenticated" e)
      end
  end.

Definition get_tenant {auth : Authenticator} (admin : AdminAuth) (headers : HeaderMap) (t : TenantTurn)
    (self : TenantStoreInner) (id : string) : TenantReply :=
  match parse_uuid id with
  | None => invalid_id
  | Some tenant =>
      match may_read admin headers id with
      | Err r => r
      | Ok _ =>
          match store_get t self tenant with
          | Ok x => (200, TBTenant x)
          | Err (Errors.TenantNotFound _) => no_tenant id
          | Err e => (500, TBErr "get_failed" (display debug_str e))
          end
      end
  end.

Definition delete_tenant (t : TenantTurn) (self : TenantStoreInner) (id : string) : TenantReply * TenantStoreInner :=
  match parse_uuid id with
  | None => (invalid_id, self)
  | Some tenant =>
      match store_soft_delete t self tenant with
      | (Ok _, self') => ((204, TBNone), self')
      | (Err (Errors.TenantNotFound _), self') => (no_tenant id, self')
      | (Err e, self') => ((500, TBErr "delete_failed" (display debug_str e)), self')
      end
  end.

(** *** Quotas *)

Definition no_database : TenantReply := (503, TBErr "no_database" "quota management requires DATABASE_URL").
Definition no_quota (id : string) : TenantReply :=
  (404, TBErr "not_found" ("quota not found for tenant '" +:+ id +:+ "'")).

Definition list_quotas (t : TenantTurn) (self : TenantStoreInner) : TenantReply :=
  match self with
  | Memory_ _ => no_database
  | Database_ db =>
      match list_quota_rows (lost t.(tt_io)) db with
      | Ok l => (200, TBQuotas l)
      | Err e => (500, TBErr "list_failed" (quota_error_text e))
      end
  end.

Definition get_quota (t : TenantTurn) (self : TenantStoreInner) (id : string) : TenantReply :=
  match self with
  | Memory_ _ => no_database
  | Database_ db =>
      match parse_uuid id with
      | None => invalid_id
      | Some tenant =>
          match get_quota_row (lost t.(tt_io)) db tenant with
          | Ok q => (200, TBQuota tenant q)
          | Err (QNotFound _) => no_quota id
          | Err e => (500, TBErr "get_failed" (quota_error_text e))
          end
      end
  end.

Definition update_quota (t : TenantTurn) (self : TenantStoreInner) (id : string) (u : QuotaUpdate) :
    TenantReply * TenantStoreInner :=
  match self with
  | Memory_ _ => (no_database, self)
  | Database_ db =>
      match parse_uuid id with
      | None => (invalid_id, self)
      | Some tenant =>
          let bad := match u.(u_tier) with Some s => negb (bool_decide (s ∈ TIERS)) | None => false end in
          if bad
          then ((400, TBErr "invalid_tier" ("unknown tier '" +:+ default "" u.(u_tier)
                        +:+ "'; must be shared, dedicated, or sovereign")), self)
          else match update_quota_row t.(tt_io) t.(tt_db_now) db tenant u with
               | (Ok q, db') => ((200, TBQuota tenant q), Database_ db')
               | (Err (QNotFound _), db') => (no_quota id, Database_ db')
               | (Err e, db') => ((500, TBErr "update_failed" (quota_error_text e)), Database_ db')
               end
      end
  end.

(** *** The routes

    [require_admin] is around creation, listing and deletion of tenants; the
    check of the gateway's secret is around everything. *)

Definition gated (admin : AdminAuth) (headers : HeaderMap) (self : TenantStoreInner)
    (next : TenantReply * TenantStoreInner) : TenantReply * TenantStoreInner :=
  match ApiKeys.authenticate admin headers with
  | Ok _ => next
  | Err AdminUnauthenticated =>
      ((401, TBErr "admin_auth_required"
         ("api key management requires an administrator credential: "
          +:+ "a Bearer token carrying the administrator policy, or X-Admin-Token")), self)
  | Err AdminForbidden =>
      ((403, TBErr "admin_policy_required"
         ("this account is signed in but does not carry the administrator "
          +:+ "policy required to manage tenants and API keys")), self)
  end.

Definition serve_tenants {auth : Authenticator} (gw : option string) (admin : AdminAuth) (t : TenantTurn)
    (headers : HeaderMap) (req : TenantRequest) (self : TenantStoreInner) : TenantReply * TenantStoreInner :=
  if is_authorized (gateway_expected gw) (headers !! "x-gateway-auth") then
    match req with
    | TCreate p => gated admin headers self (create_tenant t self p)
    | TList => gated admin headers self (list_tenants t self, self)
    | TDelete id => gated admin headers self (delete_tenant t self id)
    | TGet id => (get_tenant admin headers t self id, self)
    | QList => (list_quotas t self, self)
    | QGet id => (get_quota t self id, self)
    | QPatch id u => update_quota t self id u
    end
  else ((401, TBErr "gateway_auth_required" "request must originate from the WSLVault gateway"), self).

End Store.

(** ** Well-formed tenants *)

(** A production tenant holds PROD and nothing else, a project tenant anything but
    PROD; what is written without an environment has an allowed one. *)
Record Sound (t : Tenant) : Prop := {
  sound_production : t.(tn_kind) = Production -> t.(tn_allowed) = [Prod];
  sound_project : t.(tn_kind) = Project -> Prod ∉ t.(tn_allowed);
  sound_unique : NoDup t.(tn_allowed);
  sound_default : t.(tn_default) ∈ t.(tn_allowed);
  sound_slug : t.(tn_slug) <> "" /\ Str.forallb slug_char t.(tn_slug) = true;
}.

(** What Unicode case mapping does to the words of the columns. *)
Class CaseLaws (to_lowercase to_uppercase : string -> string) := {
  lower_kinds : Forall (fun s => to_lowercase s = s) KINDS;
  upper_environments : Forall (fun s => to_uppercase s = s) ENVIRONMENTS;
}.

Section Properties.
Context (to_lowercase to_uppercase debug_str : string -> string) (collate : string -> string -> bool).
Context `{!CaseLaws to_lowercase to_uppercase} (parse_uuid : string -> option string) {auth : Authenticator}.

Abbreviation row_to_tenant := (row_to_tenant to_lowercase to_uppercase).
Abbreviation requested := (requested_tenant to_lowercase to_uppercase).
Abbreviation serve := (serve_tenants to_lowercase to_uppercase debug_str collate parse_uuid).

Lemma env_of_str_env_str e : env_of_str to_uppercase (env_str e) = Ok e.
Proof.
  pose proof upper_environments as Hu. unfold ENVIRONMENTS in Hu. rewrite !Forall_cons in Hu.
  destruct Hu as (H1 & H2 & H3 & H4 & _). unfold SecretDb.env_of_str.
  replace (Str.trim (env_str e)) with (env_str e) by (by destruct e).
  destruct e; cbn [env_str]; rewrite ?H1, ?H2, ?H3, ?H4; reflexivity.
Qed.

Lemma kind_of_str_kind_str k : kind_of_str to_lowercase (kind_str k) = Ok k.
Proof.
  pose proof lower_kinds as Hl. unfold KINDS in Hl. rewrite !Forall_cons in Hl. destruct Hl as (H1 & H2 & _).
  unfold kind_of_str. replace (Str.trim (kind_str k)) with (kind_str k) by (by destruct k).
  destruct k; cbn [kind_str]; rewrite ?H1, ?H2; reflexivity.
Qed.

Lemma parse_env_list_strs l : parse_env_list to_uppercase (map env_str l) = l.
Proof.
  induction l as [|e l IH]; [done|]. unfold parse_env_list in *. cbn. by rewrite env_of_str_env_str, IH.
Qed.

(** A stored tenant reads back as it was, but for the times. *)
Definition stamped (t : Tenant) (created updated : Z) (deleted : option Z) : Tenant :=
  {| tn_id := t.(tn_id); tn_slug := t.(tn_slug); tn_display_name := t.(tn_display_name); tn_tier := t.(tn_tier);
     tn_root_key_id := t.(tn_root_key_id); tn_kind := t.(tn_kind); tn_allowed := t.(tn_allowed);
     tn_default := t.(tn_default); tn_tags := t.(tn_tags); tn_created_at := created; tn_updated_at := updated;
     tn_deleted_at := deleted |}.

Lemma row_roundtrip now t : t.(tn_allowed) <> [] -> row_to_tenant t.(tn_id) (tenant_row now t) = stamped t now now None.
Proof.
  intros Hne. unfold Tenants.row_to_tenant.
  rewrite (parse_env_list_strs (tn_allowed t) : parse_env_list to_uppercase (tr_allowed (tenant_row now t)) = _).
  unfold parse_kind, parse_env.
  rewrite (kind_of_str_kind_str (tn_kind t) : kind_of_str to_lowercase (tr_kind (tenant_row now t)) = _).
  rewrite (env_of_str_env_str (tn_default t) : env_of_str to_uppercase (tr_default (tenant_row now t)) = _).
  unfold stamped. cbn. destruct (tn_allowed t); [done|]. by destruct (tn_tier t).
Qed.

Lemma sound_stamped t c u d : Sound t -> Sound (stamped t c u d).
Proof. intros []. by split. Qed.

Lemma sound_nonempty t : Sound t -> t.(tn_allowed) <> [].
Proof. intros Hs Hn. pose proof (sound_default _ Hs) as Hd. rewrite Hn in Hd. by apply not_elem_of_nil in Hd. Qed.

Lemma project_environments_ok l out r :
  Prod ∉ out -> NoDup out -> project_environments to_uppercase out l = Ok r -> ~ Prod ∈ r /\ NoDup r.
Proof.
  revert out. induction l as [|s l IH]; intros out Hp Hn; cbn; [by intros [= <-]|].
  destruct (env_of_str to_uppercase s) as [e|]; cbn; [|done].
  case_bool_decide as He; [done|]. apply IH; case_bool_decide as Hin; try done.
  - rewrite elem_of_app, list_elem_of_singleton. naive_solver.
  - apply NoDup_app. split; [done|]. split; [|apply NoDup_singleton].
    intros x Hx ->%list_elem_of_singleton. done.
Qed.

Lemma resolve_allowed_sound k o l :
  resolve_allowed_environments to_uppercase k o = Ok l ->
  (k = Production -> l = [Prod]) /\ (k = Project -> Prod ∉ l) /\ NoDup l.
Proof.
  assert (Hd : ~ Prod ∈ default_allowed Project /\ NoDup (default_allowed Project)).
  { cbn. split; [set_solver|]. repeat (constructor; [set_solver|]). constructor. }
  unfold resolve_allowed_environments. destruct k.
  - destruct o as [[|s o]|]; [by intros [= <-]; destruct Hd| |by intros [= <-]; destruct Hd].
    destruct (project_environments to_uppercase [] (s :: o)) as [r|] eqn:Hr; [|done].
    apply project_environments_ok in Hr; [|set_solver|constructor].
    destruct r as [|x r]; [done|]. cbn. intros [= <-]. by destruct Hr.
  - intros [= <-]. split; [done|]. split; [done|]. apply NoDup_singleton.
Qed.

Lemma requested_sound now fresh p t : requested now fresh p = Ok t -> Sound t /\ t.(tn_id) = fresh.
Proof.
  unfold requested_tenant, unprocessable, not_blank. intros H.
  destruct (validate_slug (cq_slug p)) as [[]|] eqn:Hslug; [|done]. cbn in H.
  destruct (Str.is_empty (Str.trim (cq_display_name p))); [done|]. cbn in H.
  destruct (Str.is_empty (Str.trim (cq_root_key_id p))); [done|]. cbn in H.
  destruct (parse_tier (cq_tier p)) as [tier|]; [|done]. cbn in H.
  destruct (kind_of_str _ _) as [kind|]; [|done]. cbn in H.
  destruct (resolve_allowed_environments _ _ _) as [l|] eqn:Hl; [|done]. cbn in H.
  destruct (resolve_default_environment _ _ _ _) as [e|] eqn:He; [|done]. cbn in H.
  injection H as <-. split; [|done]. apply resolve_allowed_sound in Hl as (? & ? & ?).
  unfold resolve_default_environment in He.
  match type of He with (?x ≫= _) = _ => destruct x as [e'|]; [|done] end. cbn in He.
  case_bool_decide; [|done]. injection He as <-. unfold validate_slug in Hslug.
  destruct (Str.is_empty (cq_slug p)) eqn:Hse; [done|]. destruct (Str.forallb slug_char (cq_slug p)) eqn:Hsc; [|done].
  split; cbn; try done. split; [|done]. intros Hx. by rewrite Hx in Hse.
Qed.

(** ** The tables over time *)

Record tables_ok (db : TenantDb) : Prop := {
  to_sound : forall id r, db.(tenant_table) !! id = Some r -> Sound (row_to_tenant id r);
  to_quota : forall id r, db.(tenant_table) !! id = Some r -> is_Some (db.(quota_table) !! id);
  to_slugs : forall a b r s, db.(tenant_table) !! a = Some r -> db.(tenant_table) !! b = Some s ->
    r.(tr_slug) = s.(tr_slug) -> a = b;
}.

Definition store_ok (self : TenantStoreInner) : Prop :=
  match self with
  | Database_ db => tables_ok db
  | Memory_ m => forall id t, m !! id = Some t -> Sound t /\ t.(tn_id) = id
  end.

Lemma ensure_quota_mono m id tier now k :
  is_Some (m !! k) \/ k = id -> is_Some (ensure_tenant_quota m id tier now !! k).
Proof.
  unfold ensure_tenant_quota. case_bool_decide as H.
  - by intros [?| ->].
  - rewrite lookup_insert_is_Some'. naive_solver.
Qed.

Lemma slug_taken m slug : existsb (fun e : string * TenantRow => bool_decide (e.2.(tr_slug) = slug)) (map_to_list m) = true <->
  exists id r, m !! id = Some r /\ r.(tr_slug) = slug.
Proof.
  rewrite existsb_exists. split.
  - intros ([id r] & Hin & Hs). apply bool_decide_eq_true in Hs. apply list_elem_of_In, elem_of_map_to_list in Hin. eauto.
  - intros (id & r & Hin & Hs). exists (id, r). split; [|by apply bool_decide_eq_true].
    by apply list_elem_of_In, elem_of_map_to_list.
Qed.

Lemma no_violation m id r : tenant_violation m id r = None ->
  m !! id = None /\ forall k s, m !! k = Some s -> s.(tr_slug) <> r.(tr_slug).
Proof.
  unfold tenant_violation. case_bool_decide as Hid; [done|]. apply eq_None_not_Some in Hid.
  destruct (existsb _ _) eqn:He; [done|]. intros _. split; [done|]. intros k s Hk Hs.
  assert (existsb (fun e : string * TenantRow => bool_decide (e.2.(tr_slug) = r.(tr_slug))) (map_to_list m) = true) as Hx;
    [|congruence]. apply slug_taken. eauto.
Qed.

Lemma tenant_inserted_ok db t now :
  tables_ok db -> Sound t -> tenant_violation db.(tenant_table) t.(tn_id) (tenant_row now t) = None ->
  tables_ok (set_tenant_quotas (set_tenants db (<[t.(tn_id) := tenant_row now t]> db.(tenant_table)))
               (ensure_tenant_quota db.(quota_table) t.(tn_id) (tier_str t.(tn_tier)) now)).
Proof.
  intros Hok Hs [Hn Hslug]%no_violation. split; cbn.
  - intros id r [[<- <-]|[_ Hr]]%lookup_insert_Some; [|by apply (to_sound _ Hok)].
    rewrite row_roundtrip by by apply sound_nonempty. by apply sound_stamped.
  - intros id r [[<- _]|[_ Hr]]%lookup_insert_Some; apply ensure_quota_mono; [by right|].
    left. by eapply (to_quota _ Hok).
  - intros a b r s [[<- <-]|[Ha Hr]]%lookup_insert_Some [[<- <-]|[Hb Hs']]%lookup_insert_Some Heq; try done.
    + by destruct (Hslug _ _ Hs').
    + by destruct (Hslug _ _ Hr).
    + by eapply (to_slugs _ Hok).
Qed.

Lemma deleted_row_read now id r :
  row_to_tenant id (deleted_row now r) = stamped (row_to_tenant id r) r.(tr_created_at) now (Some now).
Proof. done. Qed.

Lemma soft_delete_ok io now db id : tables_ok db -> tables_ok (soft_delete_tenant io now db id).2.
Proof.
  intros Hok. unfold soft_delete_tenant. destruct (tenant_table db !! id) as [r|] eqn:Hr; cbn.
  2: { by destruct io as [[e [|]]|]. }
  case_bool_decide; cbn; [|by destruct io as [[e [|]]|]].
  assert (tables_ok (set_tenants db (<[id := deleted_row now r]> (tenant_table db)))) as Hok'.
  { split; cbn.
    - intros k s [[<- <-]|[_ Hs]]%lookup_insert_Some; [|by apply (to_sound _ Hok)].
      rewrite deleted_row_read. by apply sound_stamped, (to_sound _ Hok).
    - intros k s [[<- _]|[_ Hs]]%lookup_insert_Some; by eapply (to_quota _ Hok).
    - intros a b x y [[<- <-]|[_ Hx]]%lookup_insert_Some [[<- <-]|[_ Hy]]%lookup_insert_Some Heq; [done| | |];
        by eapply (to_slugs _ Hok). }
  by destruct io as [[e [|]]|].
Qed.

Lemma quota_update_ok io now db id u : tables_ok db -> tables_ok (update_quota_row io now db id u).2.
Proof.
  intros Hok. unfold update_quota_row. destruct (quota_table db !! id) as [q|] eqn:Hq; [|done].
  case_match; [done|].
  assert (tables_ok (set_tenant_quotas db (<[id := updated_quota now u q]> (quota_table db)))) as Hok'.
  { split; cbn; [apply (to_sound _ Hok)| |apply (to_slugs _ Hok)].
    intros k r Hr. rewrite lookup_insert_is_Some'. right. by eapply (to_quota _ Hok). }
  by destruct io as [[e [|]]|].
Qed.

Lemma store_create_ok t self tenant : Sound tenant -> store_ok self -> store_ok (store_create t self tenant).2.
Proof.
  intros Hs Hok. destruct self as [db|m]; cbn in *.
  - unfold create_tenant_row.
    destruct (tenant_violation _ _ _) eqn:Hv; cbn; [done|]. pose proof (tenant_inserted_ok _ _ _ Hok Hs Hv) as Hok'.
    destruct (tt_io t) as [[e [|]]|]; cbn; [done|done|].
    split; cbn; [apply (to_sound _ Hok')|apply (to_quota _ Hok')|apply (to_slugs _ Hok')].
  - case_bool_decide; cbn; [done|]. intros id x [[<- <-]|[_ Hx]]%lookup_insert_Some; [done|by apply Hok].
Qed.

Inductive tenant_step (gw : option string) (admin : AdminAuth) (self : TenantStoreInner) : TenantStoreInner -> Prop :=
| tenant_request t headers req : tenant_step gw admin self (serve gw admin t headers req self).2.

Lemma tenant_step_ok gw admin self self' : tenant_step gw admin self self' -> store_ok self -> store_ok self'.
Proof.
  intros [t headers req] Hok. unfold serve_tenants. case_match; [|done].
  destruct req as [p| |id|id| |id|id u]; cbn; try done.
  - unfold gated. destruct (ApiKeys.authenticate _ _) as [|[]]; [|done|done]. unfold create_tenant.
    destruct (requested_tenant _ _ _ _ _) as [x|] eqn:Hx; [|done]. apply requested_sound in Hx as [Hx _].
    pose proof (store_create_ok t self x Hx Hok) as Hc.
    by destruct (store_create t self x) as [[]].
  - unfold gated. by destruct (ApiKeys.authenticate _ _) as [|[]].
  - unfold gated. destruct (ApiKeys.authenticate _ _) as [|[]]; [|done|done]. unfold delete_tenant.
    destruct (parse_uuid id) as [u|]; [|done].
    assert (store_ok (store_soft_delete t self u).2) as Hd.
    { destruct self as [db|m]; cbn in *.
      - pose proof (soft_delete_ok (tt_io t) (tt_db_now t) db u Hok). by destruct (soft_delete_tenant _ _ _ _).
      - destruct (m !! u) as [x|] eqn:Hx; [|done]. case_bool_decide; [done|].
        intros k y [[<- <-]|[_ Hy]]%lookup_insert_Some; [|by apply Hok].
        destruct (Hok _ _ Hx) as [Hs Hid]. split; [by apply sound_stamped|done]. }
    destruct (store_soft_delete t self u) as [[[]|[]] s2]; done.
  - unfold update_quota. destruct self as [db|m]; [|done]. destruct (parse_uuid id) as [k|]; [|done].
    case_match; [done|]. pose proof (quota_update_ok (tt_io t) (tt_db_now t) db k u Hok) as Hu.
    by destruct (update_quota_row _ _ _ _ _) as [[|[]] db'].
Qed.

(** Whatever requests the routes are sent and whatever fails, every stored
    tenant is sound: a production tenant holds PROD alone, a project tenant never
    PROD, the environment given to a secret that names none is an allowed one; no
    two tenants, deleted ones included, share a slug, and every tenant has a quota. *)
Theorem tenants_stay_sound gw admin self self' :
  store_ok self -> rtc (tenant_step gw admin) self self' -> store_ok self'.
Proof. intros Hok Hrun. induction Hrun as [|x y z Hs _ IH]; [done|]. by apply IH, (tenant_step_ok gw admin x). Qed.


(** ** What the routes answer *)

(** Tenants are managed by administrators. A request to create, list or delete
    tenants that carries no administrator's credential is answered 401 or 403 and
    changes nothing; a tenant is shown to an administrator or to a caller whose
    verified identity belongs to it. *)
Theorem tenant_routes_guarded gw admin t headers self :
  let refused r := (r.1.1 = 401 \/ r.1.1 = 403) /\ r.2 = self in
  (is_ok (ApiKeys.authenticate admin headers) = false ->
   (forall p, refused (serve gw admin t headers (TCreate p) self)) /\
   refused (serve gw admin t headers TList self) /\
   (forall id, refused (serve gw admin t headers (TDelete id) self))) /\
  (forall id x, serve gw admin t headers (TGet id) self = ((200, TBTenant x), self) ->
   is_ok (ApiKeys.authenticate admin headers) = true \/
   exists who, resolve headers = Ok who /\ who.(tenant_id) = id).
Proof.
  intros refused. split.
  - intros Ha. assert (forall next, refused (gated admin headers self next)) as Hg.
    { intros next. unfold gated. destruct (ApiKeys.authenticate admin headers) as [|[]]; [done| |];
        split; auto. }
    unfold serve_tenants. case_match; split_and!; try intros; try apply Hg; split; auto.
  - intros id x. unfold serve_tenants. case_match; [|done]. unfold get_tenant, may_read.
    destruct (parse_uuid id) as [u|]; [|done].
    destruct (ApiKeys.authenticate admin headers) as [who|r]; [by left|].
    destruct (resolve headers) as [who|e]; [|done].
    case_bool_decide; [|done]. intros _. right. by exists who.
Qed.

(** Quotas are managed by anyone. The routes below [/v1/quotas] look at no
    credential: whoever gets past the gateway's check, with whatever headers or
    none, sets the limits of any tenant. *)
Theorem quota_routes_unguarded gw admin t headers db id tenant q u :
  is_authorized (gateway_expected gw) (headers !! "x-gateway-auth") = true ->
  parse_uuid id = Some tenant -> db.(quota_table) !! tenant = Some q -> t.(tt_io) = None ->
  u.(u_tier) = None -> q.(tq_tier) ∈ TIERS ->
  exists q', serve gw admin t headers (QPatch id u) (Database_ db) =
    ((200, TBQuota tenant q'), Database_ (set_tenant_quotas db (<[tenant := q']> db.(quota_table)))) /\
  q'.(tq_max_secrets) = default q.(tq_max_secrets) u.(u_max_secrets) /\
  q'.(tq_max_secret_size_bytes) = default q.(tq_max_secret_size_bytes) u.(u_max_secret_size_bytes).
Proof.
  intros Hgw Hid Hq Hio Htier Hin. exists (updated_quota t.(tt_db_now) u q).
  unfold serve_tenants. rewrite Hgw. cbn [update_quota]. unfold update_quota.
  rewrite Hid, Htier. unfold update_quota_row. rewrite Hq, Hio. unfold updated_quota. cbn. rewrite Htier. cbn.
  by rewrite bool_decide_eq_true_2.
Qed.

(** The checks before a creation answer 422, and keep the slug. *)
Lemma requested_cases now fresh p :
  match requested now fresh p with Ok x => x.(tn_slug) = p.(cq_slug) | Err r => r.1 = 422 end.
Proof.
  unfold requested_tenant, unprocessable, not_blank.
  destruct (validate_slug _); cbn; [|done]. destruct (Str.is_empty (Str.trim (cq_display_name p))); cbn; [done|].
  destruct (Str.is_empty (Str.trim (cq_root_key_id p))); cbn; [done|].
  destruct (parse_tier _); cbn; [|done]. destruct (kind_of_str _ _); cbn; [|done].
  destruct (resolve_allowed_environments _ _ _); cbn; [|done].
  by destruct (resolve_default_environment _ _ _ _).
Qed.

(** A creation answered with 201 on the database. *)
Lemma created gw admin t headers p db body self' :
  serve gw admin t headers (TCreate p) (Database_ db) = ((201, body), self') ->
  exists x db', body = TBTenant x /\ self' = Database_ db' /\
  requested t.(tt_now) t.(tt_fresh) p = Ok x /\ x.(tn_slug) = p.(cq_slug) /\ t.(tt_io) = None /\
  tenant_violation db.(tenant_table) x.(tn_id) (tenant_row t.(tt_db_now) x) = None /\
  db'.(tenant_table) = <[x.(tn_id) := tenant_row t.(tt_db_now) x]> db.(tenant_table) /\
  db'.(policy_table) = seed_default_policy t.(tt_seed) x.(tn_id) db.(policy_table).
Proof.
  unfold serve_tenants. case_match; [|done]. unfold gated.
  destruct (ApiKeys.authenticate admin headers) as [|[]]; [|done|done]. unfold create_tenant.
  pose proof (requested_cases t.(tt_now) t.(tt_fresh) p) as Hc.
  destruct (requested_tenant _ _ _ _ _) as [x|r]; [|by intros [= -> _]].
  cbn. unfold create_tenant_row. destruct (tenant_violation _ _ _) eqn:Hv; cbn; [done|].
  destruct (tt_io t) as [[e [|]]|] eqn:Hio; cbn; [done|done|]. intros [= <- <-].
  eexists x, _. by split_and!.
Qed.

(** A created tenant is there: the answer to its creation is what an
    administrator reads afterwards, but for the times, which are the database's. *)
Theorem created_tenant_reads_back gw admin t headers p db x self' t' headers' who :
  serve gw admin t headers (TCreate p) (Database_ db) = ((201, TBTenant x), self') ->
  is_authorized (gateway_expected gw) (headers' !! "x-gateway-auth") = true ->
  ApiKeys.authenticate admin headers' = Ok who -> t'.(tt_io) = None ->
  parse_uuid x.(tn_id) = Some x.(tn_id) ->
  serve gw admin t' headers' (TGet x.(tn_id)) self' =
    ((200, TBTenant (stamped x t.(tt_db_now) t.(tt_db_now) None)), self').
Proof.
  intros (y & db' & [= <-] & -> & Hr & _ & _ & _ & Ht & _)%created Hgw Hwho Hio Hid.
  unfold serve_tenants. rewrite Hgw. unfold get_tenant, may_read. rewrite Hid, Hwho. cbn.
  unfold get_tenant_row, lost. rewrite Hio. cbn. rewrite Ht, lookup_insert_eq. cbn.
  rewrite row_roundtrip; [done|]. apply sound_nonempty. by apply requested_sound in Hr as [].
Qed.

(** A request leaves every row where it is, with its slug. *)
Definition keeps_rows (m m' : gmap string TenantRow) : Prop :=
  forall id r, m !! id = Some r -> exists r', m' !! id = Some r' /\ r'.(tr_slug) = r.(tr_slug).

Lemma keeps_rows_refl m : keeps_rows m m.
Proof. intros id r Hr. eauto. Qed.

Lemma keeps_rows_insert m id r : (forall s, m !! id = Some s -> r.(tr_slug) = s.(tr_slug)) -> keeps_rows m (<[id := r]> m).
Proof.
  intros Hs k s Hk. destruct (decide (id = k)) as [->|Hne].
  - exists r. rewrite lookup_insert_eq. auto.
  - exists s. by rewrite lookup_insert_ne.
Qed.

Hint Resolve keeps_rows_refl keeps_rows_insert : core.

Lemma soft_delete_keeps io now db id : keeps_rows db.(tenant_table) (soft_delete_tenant io now db id).2.(tenant_table).
Proof.
  unfold soft_delete_tenant. destruct (tenant_table db !! id) as [r|] eqn:Hr; [case_bool_decide|];
    destruct io as [[e [|]]|]; cbn; auto; apply keeps_rows_insert; intros s; rewrite Hr; by intros [= <-].
Qed.

Lemma create_keeps io now db x : keeps_rows db.(tenant_table) (create_tenant_row io now db x).2.(tenant_table).
Proof.
  unfold create_tenant_row. destruct (tenant_violation _ _ _) eqn:Hv; [cbn; auto|]. apply no_violation in Hv as [Hn _].
  destruct io as [[e [|]]|]; cbn; auto; apply keeps_rows_insert; intros s; by rewrite Hn.
Qed.

Lemma quota_keeps io now db id u : (update_quota_row io now db id u).2.(tenant_table) = db.(tenant_table).
Proof. unfold update_quota_row. repeat case_match; done. Qed.

Lemma tenant_step_keeps gw admin db self' :
  tenant_step gw admin (Database_ db) self' ->
  exists db', self' = Database_ db' /\ keeps_rows db.(tenant_table) db'.(tenant_table).
Proof.
  intros [t headers req]. unfold serve_tenants. case_match; [|eauto].
  destruct req as [p| |id|id| |id|id u]; cbn; eauto; try (unfold gated; destruct (ApiKeys.authenticate _ _) as [|[]]; eauto).
  - unfold create_tenant. destruct (requested_tenant _ _ _ _ _) as [x|]; [|eauto]. cbn.
    pose proof (create_keeps (tt_io t) (tt_db_now t) db x) as Hk.
    destruct (create_tenant_row _ _ _ _) as [[] db']; cbn in *; eauto.
  - unfold delete_tenant. destruct (parse_uuid id) as [k|]; [|eauto]. cbn.
    pose proof (soft_delete_keeps (tt_io t) (tt_db_now t) db k) as Hk.
    destruct (soft_delete_tenant _ _ _ _) as [[|[]] db']; cbn in *; eauto.
  - unfold update_quota. destruct (parse_uuid id) as [k|]; [|eauto]. case_match; [eauto|].
    pose proof (quota_keeps (tt_io t) (tt_db_now t) db k u) as Hk.
    destruct (update_quota_row _ _ _ _ _) as [[|[]] db']; cbn in *; eexists; (split; [reflexivity|]); rewrite Hk; auto.
Qed.

Lemma tenant_run_keeps gw admin self self' :
  rtc (tenant_step gw admin) self self' -> forall db, self = Database_ db ->
  exists db', self' = Database_ db' /\ keeps_rows db.(tenant_table) db'.(tenant_table).
Proof.
  induction 1 as [self|self mid self' Hst _ IH]; intros db ->; [eauto|].
  destruct (tenant_step_keeps _ _ _ _ Hst) as (db1 & -> & Hk1). destruct (IH db1 eq_refl) as (db2 & -> & Hk2).
  exists db2. split; [done|]. intros id r Hr. destruct (Hk1 id r Hr) as (r1 & Hr1 & Hs1).
  destruct (Hk2 id r1 Hr1) as (r2 & Hr2 & Hs2). exists r2. split; [done|congruence].
Qed.

(** A slug is used up for good: once a tenant had it, creating another with it
    fails, whatever was requested in between, the deletion of the first included. *)
Theorem slug_is_used_up gw admin id r db self' t headers p :
  db.(tenant_table) !! id = Some r -> rtc (tenant_step gw admin) (Database_ db) self' ->
  p.(cq_slug) = r.(tr_slug) -> (serve gw admin t headers (TCreate p) self').1.1 <> 201.
Proof.
  intros Hr Hrun Hp. destruct (tenant_run_keeps _ _ _ _ Hrun db eq_refl) as (db' & -> & Hk).
  destruct (Hk id r Hr) as (r' & Hr' & Hs).
  destruct (serve gw admin t headers (TCreate p) (Database_ db')) as [[code body] self2] eqn:Hserve. cbn. intros ->.
  apply created in Hserve as (x & db2 & _ & _ & _ & Hx & _ & Hv & _). apply no_violation in Hv as [_ Hv].
  apply (Hv id r' Hr'). cbn. congruence.
Qed.

(** ** A new tenant's first policy *)

(** A path below a root: the root is its first segment. *)
Definition under (root path : string) : Prop := exists rest, Glob.segments path = root :: rest.

Lemma literal_match p s : Str.forallb (fun a => negb (Ascii.eqb a "*")) p = true -> Glob.star_match p s -> s = p.
Proof.
  intros Hp Hm. induction Hm as [|c p s Hc Hm IH|p s t Hm IH]; [done| |done].
  cbn in Hp. apply andb_prop in Hp as [_ Hp]. by rewrite IH.
Qed.

Lemma literal_self p : Str.forallb (fun a => negb (Ascii.eqb a "*")) p = true -> Glob.star_match p p.
Proof.
  induction p as [|c p IH]; intros Hp; [constructor|]. cbn in Hp. apply andb_prop in Hp as [Hc Hp].
  constructor; [|by apply IH]. intros ->. done.
Qed.

Lemma spec_under root path :
  root <> "" -> Str.forallb (fun a => negb (Ascii.eqb a "*")) root = true ->
  Glob.glob_spec [root; "**"] (Glob.segments path) <-> under root path.
Proof.
  intros Hne Hroot. unfold under. generalize (Glob.segments path) as l. intros l. split.
  - inversion 1 as [|? ? ? ?|? ? x rest Hp Hm Hr|? ? Hp Hm Hr]; subst; [done| |].
    + apply (literal_match _ _ Hroot) in Hm as ->. by exists rest.
    + apply (literal_match _ _ Hroot) in Hm. done.
  - intros [rest ->]. constructor.
    + intros ->. done.
    + by apply literal_self.
    + rewrite <- (app_nil_r rest). constructor. constructor.
Qed.

(** What the seeded document lets its holders do. *)
Definition granted_by_default (action resource : string) : Prop :=
  exists cap, Model.from_action action = Some cap /\
    ((under "secret" resource /\ cap ∈ [Model.Read; Model.Write; Model.List; Model.Delete]) \/
     (under "transit" resource /\ cap ∈ [Model.Read; Model.Write; Model.List])).

(** The compiled form of the document. *)
Definition default_rules : list Model.PolicyRule :=
  [{| Model.paths := ["secret/**"]; Model.capabilities := {[Model.Read; Model.Write; Model.List; Model.Delete]} |};
   {| Model.paths := ["transit/**"]; Model.capabilities := {[Model.Read; Model.Write; Model.List]} |}].

Lemma default_document_compiles :
  dto_to_doc default_document = Ok {| Model.name := "default"; Model.rules := default_rules |}.
Proof. vm_compute. reflexivity. Qed.

Lemma default_rules_grant c id action resource :
  Evaluator.policies c !! (id, "default") = Some default_rules ->
  Evaluator.evaluate c id ["default"] action resource = Model.Allow <-> granted_by_default action resource.
Proof.
  intros Hc. rewrite Evaluator.evaluate_allow. unfold Evaluator.allows, granted_by_default.
  assert (Happ : forall rule, Evaluator.applies c id ["default"] resource rule <->
    (rule = {| Model.paths := ["secret/**"]; Model.capabilities := {[Model.Read; Model.Write; Model.List; Model.Delete]} |}
       /\ under "secret" resource) \/
    (rule = {| Model.paths := ["transit/**"]; Model.capabilities := {[Model.Read; Model.Write; Model.List]} |}
       /\ under "transit" resource)).
  { intros rule. rewrite <- !spec_under by done. unfold Evaluator.applies. split.
    - intros (n & rs & ->%list_elem_of_singleton & Hrs & Hin & pat & Hpat & Hspec). rewrite Hc in Hrs.
      injection Hrs as <-. unfold default_rules in Hin. apply elem_of_cons in Hin as [-> | ->%list_elem_of_singleton];
        apply list_elem_of_singleton in Hpat as ->; [by left|by right].
    - intros [[-> Hs]|[-> Hs]]; exists "default", default_rules; (split; [by apply list_elem_of_singleton|]);
        (split; [done|]); split; [by left|exists "secret/**"; split; [by left|done]|by right; left|
        exists "transit/**"; split; [by left|done]]. }
  split.
  - intros (cap & Ha & (rule & Hr & Hcap) & _). exists cap. split; [done|].
    apply Happ in Hr as [[-> Hu]|[-> Hu]]; [left|right]; (split; [done|]); cbn in Hcap; set_solver.
  - intros (cap & Ha & Hg). exists cap. split; [done|]. split.
    + destruct Hg as [[Hu Hcap]|[Hu Hcap]]; eexists; (split; [apply Happ; eauto|]); cbn; set_solver.
    + intros rule [[-> _]|[-> _]]%Happ; cbn; set_solver.
Qed.

(** While the database answers, the PostgreSQL backend compiles as the in-memory
    store with its rows would. *)
Lemma pg_compile_mem p : p.(db_up) = true ->
  @compile _ (pg_backend parse_uuid) p = @compile _ mem_backend {| inner := p.(rows) |}.
Proof. intros Hup. unfold compile. cbn. unfold pg_get_all. by rewrite Hup. Qed.

(** C5. A new tenant's members can work, and no more. The document a creation
    seeds reaches the policy engine at its next compilation, and from then on a
    caller who holds the policy [default] is allowed exactly this: to read, write,
    list and delete below [secret], and to read, write and list below [transit]. *)
Theorem new_tenant_starts_usable gw admin t headers p db x self' action resource :
  serve gw admin t headers (TCreate p) (Database_ db) = ((201, TBTenant x), self') -> t.(tt_seed) = None ->
  named db.(policy_table).(rows) -> db.(policy_table).(db_up) = true ->
  exists db', self' = Database_ db' /\
    (Evaluator.evaluate (@compile _ (pg_backend parse_uuid) db'.(policy_table)) x.(tn_id) ["default"] action resource
       = Model.Allow <-> granted_by_default action resource).
Proof.
  intros (y & db' & [= <-] & -> & _ & _ & _ & _ & _ & Hp)%created Hseed Hnamed Hup.
  exists db'. split; [done|]. apply default_rules_grant.
  rewrite Hp. unfold seed_default_policy. rewrite default_document_compiles, Hseed.
  rewrite pg_compile_mem by done. rewrite compile_spec; cbn.
  - unfold snapshot_of. rewrite lookup_fmap. by rewrite lookup_insert_eq.
  - by apply (named_insert _ (tn_id x) {| Model.name := "default"; Model.rules := default_rules |}).
Qed.

(** ** What a deletion leaves *)

(** The columns of the table the key store reads. *)
Definition identity_view (m : gmap string TenantRow) : list IdentityDb.Tenant :=
  map (fun e => {| t_id := e.1; t_slug := e.2.(tr_slug); t_deleted_at := e.2.(tr_deleted_at) |}) (map_to_list m).

Definition viewing (ts : list IdentityDb.Tenant) (p : Pg) : Pg :=
  {| tenants := ts; api_keys := p.(api_keys); mfa_totp := p.(mfa_totp); recovery_codes := p.(recovery_codes) |}.

Definition viewing_backend (ts : list IdentityDb.Tenant) (b : Backend) : Backend :=
  match b with DatabaseBackend p => DatabaseBackend (viewing ts p) | MemoryBackend _ _ => b end.

Definition viewing_state (ts : list IdentityDb.Tenant) (st : IdState) : IdState :=
  {| manager := viewing_backend ts st.(manager); challenges := st.(challenges) |}.

Lemma validate_viewing sha256 io now key p ts :
  let '(r, m) := validate_key sha256 debug_str io now (DatabaseBackend p) key in
  validate_key sha256 debug_str io now (DatabaseBackend (viewing ts p)) key =
    (r, viewing_backend ts m).
Proof.
  unfold validate_key. destruct (parse_key_random_portion key); [|done].
  unfold ApiKeyStore.find_by_hash, ApiKeyStore.rows. cbn [api_keys viewing].
  match goal with |- context [match ?x with Ok row => _ | Err e => _ end] => destruct x as [row|e] end; [|done].
  unfold stamp. destruct (begin_tx io 2); [|done]. unfold ApiKeyStore.touch_last_used, call.
  destruct (io 3%nat); [done|]. cbn [api_keys viewing].
  destruct (api_keys p !! row_id row); [case_bool_decide|]; by destruct (commit io 4).
Qed.

(** A login reads no tenant. *)
Lemma login_viewing sha256 token_hash uuid_error from_timestamp cfg io now challenge st key p ts :
  st.(manager) = DatabaseBackend p ->
  let login s := handle_auth_api_key sha256 token_hash parse_uuid uuid_error debug_str from_timestamp cfg
                   io now challenge s key in
  login (viewing_state ts st) = let '(r, s) := login st in (r, viewing_state ts s).
Proof.
  intros Hst login. unfold login, handle_auth_api_key, viewing_state. cbn [manager challenges].
  rewrite Hst. cbn [viewing_backend]. pose proof (validate_viewing sha256 io now key p ts) as Hv.
  destruct (validate_key sha256 debug_str io now (DatabaseBackend p) key) as [[v|e] m]; rewrite Hv; [|done].
  destruct (v_mfa_required v); [|done]. unfold mfa_enrolment_active, mfa_pool. cbn [manager].
  destruct m as [p'|]; [|done]. cbn [viewing_backend]. unfold MfaStore.find. cbn [mfa_totp viewing].
  destruct (mfa_scope _ _ _ _ _ _) as [[]|]; cbn; [|done].
  destruct (Mfa.shown _ _) as [e|]; cbn; [|done]. by destruct (match e with Some e => _ | None => _ end).
Qed.

Lemma deleted_is_marked gw admin t headers id u db db' r :
  serve gw admin t headers (TDelete id) (Database_ db) = ((204, TBNone), Database_ db') ->
  parse_uuid id = Some u -> db'.(tenant_table) !! u = Some r -> r.(tr_deleted_at) <> None.
Proof.
  unfold serve_tenants. case_match; [|done]. unfold gated.
  destruct (ApiKeys.authenticate admin headers) as [|[]]; [|done|done]. unfold delete_tenant. intros Hd Hid Hr.
  rewrite Hid in Hd. cbn in Hd. unfold soft_delete_tenant in Hd.
  destruct (tenant_table db !! u) as [y|]; [|destruct (tt_io t) as [[]|]; done].
  case_bool_decide; [|destruct (tt_io t) as [[]|]; done]. destruct (tt_io t) as [[]|]; [done|].
  injection Hd as <-. cbn in Hr. rewrite lookup_insert_eq in Hr. injection Hr as <-. done.
Qed.

Lemma deleted_does_not_resolve m u id io p :
  parse_uuid id = Some u -> (forall r, m !! u = Some r -> r.(tr_deleted_at) <> None) ->
  exists e, ApiKeyStore.resolve_tenant_id parse_uuid io 0 (viewing (identity_view m) p) id = Err e.
Proof.
  intros Hid Hm. unfold ApiKeyStore.resolve_tenant_id, call. destruct (io 0%nat); [by eexists|]. rewrite Hid. cbn.
  match goal with |- context [List.find ?f ?l] => destruct (List.find f l) as [x|] eqn:Hf end; [|by eexists].
  exfalso. apply List.find_some in Hf as [Hin Hx]. apply andb_prop in Hx as [Hk Hx].
  apply bool_decide_eq_true in Hk, Hx. apply in_map_iff in Hin as ([k r'] & <- & Hin). cbn in Hk, Hx. subst k.
  apply list_elem_of_In, elem_of_map_to_list in Hin. by apply (Hm r').
Qed.

(** C21. The keys of a deleted tenant outlive it. After a deletion answered with
    204 a login with one of its keys goes as it would have gone before, and the
    tenant's keys can no longer be revoked: every revocation that names the tenant
    is refused. *)
Theorem deleted_tenant_keys_outlive_it gw admin t headers id u db db' sha256 token_hash uuid_error from_timestamp cfg
    io now challenge st key p key_id :
  serve gw admin t headers (TDelete id) (Database_ db) = ((204, TBNone), Database_ db') ->
  parse_uuid id = Some u -> st.(manager) = DatabaseBackend p ->
  let login s := handle_auth_api_key sha256 token_hash parse_uuid uuid_error debug_str from_timestamp cfg
                   io now challenge s key in
  let before := login (viewing_state (identity_view db.(tenant_table)) st) in
  let after := login (viewing_state (identity_view db'.(tenant_table)) st) in
  after.1 = before.1 /\ viewing_state [] after.2 = viewing_state [] before.2 /\
  let keys := DatabaseBackend (viewing (identity_view db'.(tenant_table)) p) in
  exists e, revoke_key parse_uuid debug_str io now keys key_id id = (Err e, keys).
Proof.
  intros Hdel Hid Hst login before after. unfold before, after, login.
  rewrite !(login_viewing _ _ _ _ _ _ _ _ _ _ p) by done.
  destruct (handle_auth_api_key _ _ _ _ _ _ _ _ _ _ st key) as [r s]. split; [done|]. split.
  { unfold viewing_state. cbn. by destruct (manager s). }
  unfold revoke_key, revoke_in_db.
  destruct (deleted_does_not_resolve db'.(tenant_table) u id io p Hid) as [e He].
  { intros x. by eapply deleted_is_marked. }
  rewrite He. cbn. by eexists.
Qed.

End Properties.

(** ** An example *)

Module TenantsDemo.

#[local] Instance ascii_case : CaseLaws Str.to_ascii_lowercase Str.to_ascii_uppercase.
Proof. split; repeat constructor. Qed.

#[local] Instance nobody : Authenticator := {| resolve := fun _ => Err "no credential" |}.

Definition admin : AdminAuth :=
  {| bootstrap_token := Some "boot"; required_policy := "admin"; revoked_token := fun _ => Ok false;
     signing_keys_verify := None; validate_token := fun _ => Err "no" |}.

Definition as_admin : HeaderMap := {["x-admin-token" := "boot"]}.

Definition turn : TenantTurn :=
  {| tt_now := 5; tt_db_now := 7; tt_fresh := "u1"; tt_io := None; tt_seed := None |}.

Definition empty : TenantDb :=
  {| tenant_table := ∅; quota_table := ∅; policy_table := {| rows := ∅; db_up := true |} |}.

Definition acme : CreateTenantRequest :=
  {| cq_slug := "acme"; cq_display_name := "Acme"; cq_tier := None; cq_root_key_id := "k"; cq_kind := None;
     cq_allowed := Some ["test"; "INT"; "Test"]; cq_default := Some "test"; cq_tags := Some [" A "; ""] |}.

Abbreviation call := (serve_tenants Str.to_ascii_lowercase Str.to_ascii_uppercase id String.leb Some None admin turn).

Definition one : TenantStoreInner := (call as_admin (TCreate acme) (Database_ empty)).2.
Definition one_db : TenantDb := match one with Database_ db => db | Memory_ _ => empty end.

Definition answer : Tenant :=
  {| tn_id := "u1"; tn_slug := "acme"; tn_display_name := "Acme"; tn_tier := Shared; tn_root_key_id := "k";
     tn_kind := Project; tn_allowed := [Test; Int]; tn_default := Test; tn_tags := ["a"]; tn_created_at := 5;
     tn_updated_at := 5; tn_deleted_at := None |}.

Lemma created_one : call as_admin (TCreate acme) (Database_ empty) = ((201, TBTenant answer), one).
Proof. vm_compute. reflexivity. Qed.

Lemma empty_ok : store_ok Str.to_ascii_lowercase Str.to_ascii_uppercase (Database_ empty).
Proof. split; cbn; intros *; rewrite lookup_empty; discriminate. Qed.

Lemma tenants_stay_sound_witness : store_ok Str.to_ascii_lowercase Str.to_ascii_uppercase one.
Proof.
  apply (tenants_stay_sound Str.to_ascii_lowercase Str.to_ascii_uppercase id String.leb Some None admin
    (Database_ empty) one empty_ok).
  apply rtc_once. apply (tenant_request Str.to_ascii_lowercase Str.to_ascii_uppercase id String.leb Some None admin
    (Database_ empty) turn as_admin (TCreate acme)).
Defined.

Lemma created_tenant_reads_back_witness : call as_admin (TGet "u1") one = ((200, TBTenant (stamped answer 7 7 None)), one).
Proof.
  apply (created_tenant_reads_back Str.to_ascii_lowercase Str.to_ascii_uppercase id String.leb Some None admin turn
    as_admin acme empty answer one turn as_admin
    {| admin_principal_id := "bootstrap-admin"; admin_tenant_id := None; admin_superuser := true |} created_one);
    vm_compute; reflexivity.
Defined.

(** A quota set without any header. *)
Definition raise_ : QuotaUpdate :=
  {| u_max_secrets := Some 2147483647; u_max_secret_versions := None; u_max_secret_size_bytes := None;
     u_max_transit_keys := None; u_read_rate_limit := None; u_write_rate_limit := None;
     u_max_storage_bytes := None; u_tier := None |}.

Lemma quota_routes_unguarded_witness :
  exists q, (call ∅ (QPatch "u1" raise_) one).1 = (200, TBQuota "u1" q) /\ q.(tq_max_secrets) = 2147483647.
Proof.
  destruct (quota_routes_unguarded Str.to_ascii_lowercase Str.to_ascii_uppercase id String.leb Some None admin turn ∅
    one_db "u1" "u1" (new_quota "shared" 7) raise_) as (q & Hq & Hm & _).
  - vm_compute. reflexivity.
  - reflexivity.
  - vm_compute. reflexivity.
  - reflexivity.
  - reflexivity.
  - vm_compute. left.
  - exists q. change one with (Database_ one_db). rewrite Hq. split; [reflexivity|exact Hm].
Defined.

Lemma slug_is_used_up_witness : (call as_admin (TCreate acme) one).1.1 <> 201.
Proof.
  apply (slug_is_used_up Str.to_ascii_lowercase Str.to_ascii_uppercase id String.leb Some None admin "u1"
    (tenant_row 7 answer) one_db one turn as_admin acme).
  - vm_compute. reflexivity.
  - apply rtc_refl.
  - reflexivity.
Defined.

Lemma empty_named : named ∅.
Proof. intros t n d. by rewrite lookup_empty. Qed.

Lemma new_tenant_starts_usable_witness :
  Evaluator.evaluate (@compile _ (pg_backend Some) one_db.(policy_table)) "u1" ["default"] "secret:write" "secret/data/x"
    = Model.Allow.
Proof.
  destruct (new_tenant_starts_usable Str.to_ascii_lowercase Str.to_ascii_uppercase id String.leb Some None admin turn
    as_admin acme empty answer one "secret:write" "secret/data/x" created_one eq_refl empty_named eq_refl)
    as (db' & Hdb & Hg).
  replace one_db with db' by (unfold one_db; by rewrite Hdb). apply Hg. exists Model.Write.
  split; [reflexivity|]. left. split; [exists ["data"; "x"]; vm_compute; reflexivity|]. right. left.
Defined.

(** A key of the tenant, without a second factor, and the tenant deleted. *)
Definition member_key : ApiKeyRow :=
  {| row_id := "k1"; row_tenant_id := "u1"; row_name := "laptop"; key_hash := "wslv_a"; key_prefix := "a";
     row_path_prefixes := []; row_policies := ["default"]; created_by := "setup"; row_created_at := 0;
     row_expires_at := None; last_used_at := None; revoked_at := None; rate_limit_per_minute := 60;
     is_superuser := false; mfa_required := false |}.

Definition members : Pg :=
  {| tenants := []; api_keys := {["k1" := member_key]}; mfa_totp := ∅; recovery_codes := [] |}.
Definition members_state : IdState := {| manager := DatabaseBackend members; challenges := ∅ |}.

Definition gone_db : TenantDb :=
  match (call as_admin (TDelete "u1") one).2 with Database_ db => db | Memory_ _ => empty end.

Lemma deleted_tenant_keys_outlive_it_witness :
  (Demo.demo_login all_well Demo.at_100 "c1" (viewing_state (identity_view gone_db.(tenant_table)) members_state)
     "wslv_a").1 = (200, MToken "k1" 6600 "u1" ["default"] None).
Proof.
  destruct (deleted_tenant_keys_outlive_it Str.to_ascii_lowercase Str.to_ascii_uppercase Demo.same String.leb
    Demo.uuid_of None admin turn as_admin "u1" "u1" one_db gone_db Demo.same Demo.same Demo.same Demo.date_of Demo.cfg
    all_well Demo.at_100 "c1" members_state "wslv_a" members "k1") as [Hlogin _].
  - vm_compute. reflexivity.
  - reflexivity.
  - reflexivity.
  - rewrite Hlogin. vm_compute. reflexivity.
Defined.

Lemma tenant_routes_guarded_witness :
  (call ∅ (TDelete "u1") one).1.1 = 401 /\ (call ∅ (TDelete "u1") one).2 = one.
Proof.
  destruct (tenant_routes_guarded Str.to_ascii_lowercase Str.to_ascii_uppercase id String.leb Some None admin turn ∅
    one) as [Hg _].
  destruct (Hg eq_refl) as (_ & _ & Hd). destruct (Hd "u1") as [[Hc|Hc] Hs].
  - split; [exact Hc|exact Hs].
  - exfalso. vm_compute in Hc. discriminate.
Defined.

End TenantsDemo.
