(* ===== verification/Scim.v ===== *)
(** * SCIM provisioning

    [services/identity-service/src/scim]: users and groups as an identity provider
    pushes them, over the store of [scim_store.rs] in memory or in the tables of
    [011_scim_persistence.sql], and the policies of principals that follow group
    membership ([groups.rs]).

    A store is an instance of [ScimStore]. Each of its calls may fail, a write with
    or without its effect; requests run one after the other. The parts of a JSON
    value that [serde] reads into structures, the text of times and PostgreSQL's
    [lower] are parameters. The service owns the tables, so their row-level security
    does not apply to it (029_rls_enforce.sql). *)

From Stdlib Require Import Lia Ascii.
From S2P Require Import Prelude Errors Json KeyStore Effects Mfa Tokens.

(** ** schemas.rs *)

Record ScimName := { nm_formatted : option string; nm_family : option string; nm_given : option string }.
Record ScimEmail := { em_value : string; em_type : option string; em_primary : option bool }.
Record ScimGroupRef := { gf_value : string; gf_display : option string; gf_ref : option string }.
Record ScimMemberRef := { mr_value : string; mr_display : option string; mr_type : option string }.

Record ScimMeta := {
  me_resource_type : string;
  me_created : string;
  me_last_modified : string;
  me_location : string;
  me_version : option string;
}.

Record ScimUser := {
  us_schemas : list string;
  us_id : option string;
  us_external_id : option string;
  us_user_name : string;
  us_name : option ScimName;
  us_emails : list ScimEmail;
  us_display_name : option string;
  us_active : option bool;
  us_groups : list ScimGroupRef;
  us_meta : option ScimMeta;
}.

Record ScimGroup := {
  gr_schemas : list string;
  gr_id : option string;
  gr_display_name : string;
  gr_members : list ScimMemberRef;
  gr_meta : option ScimMeta;
}.

Definition SCHEMA_USER : string := "urn:ietf:params:scim:schemas:core:2.0:User".
Definition SCHEMA_GROUP : string := "urn:ietf:params:scim:schemas:core:2.0:Group".

Inductive PatchOpType := PAdd | PRemove | PReplace.

Record PatchOperation := { po_op : PatchOpType; po_path : option string; po_value : option Json }.

Record ScimListParams := { lp_filter : option string; lp_start_index : option Z; lp_count : option Z }.

(** ** scim_store.rs *)

(** A call fails with a text, its effect applied or not. *)
Definition RoundTrip : Type := option (string * bool).

Class ScimStore (S : Type) := {
  get_user : RoundTrip -> S -> string -> result string (option ScimUser);
  user_exists_by_username : RoundTrip -> S -> string -> result string bool;
  insert_user : RoundTrip -> Z -> S -> ScimUser -> result string () * S;
  update_user : RoundTrip -> Z -> S -> ScimUser -> result string () * S;
  delete_user : RoundTrip -> S -> string -> result string bool * S;
  list_users : RoundTrip -> S -> option string -> Z -> Z -> result string (list ScimUser * Z);
  get_group : RoundTrip -> S -> string -> result string (option ScimGroup);
  group_exists_by_display_name : RoundTrip -> S -> string -> result string bool;
  insert_group : RoundTrip -> Z -> S -> ScimGroup -> result string () * S;
  update_group : RoundTrip -> Z -> S -> ScimGroup -> result string () * S;
  delete_group : RoundTrip -> S -> string -> result string (option ScimGroup) * S;
  list_groups : RoundTrip -> S -> option string -> Z -> Z -> result string (list ScimGroup * Z);
}.

Definition eq_ignore_ascii_case (a b : string) : bool :=
  bool_decide (Str.to_ascii_lowercase a = Str.to_ascii_lowercase b).

(** [skip(offset).take(limit)] *)
Fixpoint skip {A} (n : Z) (l : list A) : list A :=
  match l with [] => [] | x :: l' => if n <=? 0 then l else skip (n - 1) l' end.

Definition page {A} (offset count : Z) (l : list A) : list A * Z := (limit count (skip offset l), len l).

(** *** In memory *)

Record MemoryScimStore := { mem_users : gmap string ScimUser; mem_groups : gmap string ScimGroup }.

Definition mem_put_user (s : MemoryScimStore) (u : ScimUser) : MemoryScimStore :=
  match u.(us_id) with
  | Some id => {| mem_users := <[id := u]> s.(mem_users); mem_groups := s.(mem_groups) |}
  | None => s
  end.

Definition mem_put_group (s : MemoryScimStore) (g : ScimGroup) : MemoryScimStore :=
  match g.(gr_id) with
  | Some id => {| mem_users := s.(mem_users); mem_groups := <[id := g]> s.(mem_groups) |}
  | None => s
  end.

Definition values {A} (m : gmap string A) : list A := map snd (map_to_list m).

Definition matching {A} (name : A -> string) (target : option string) (l : list A) : list A :=
  match target with
  | Some t => List.filter (fun a => eq_ignore_ascii_case (name a) t) l
  | None => l
  end.

#[global] Instance memory_scim_store : ScimStore MemoryScimStore := {|
  get_user _ s id := Ok (s.(mem_users) !! id);
  user_exists_by_username _ s n := Ok (existsb (fun u => eq_ignore_ascii_case u.(us_user_name) n) (values s.(mem_users)));
  insert_user _ _ s u := (Ok tt, mem_put_user s u);
  update_user _ _ s u := (Ok tt, mem_put_user s u);
  delete_user _ s id :=
    (Ok (bool_decide (is_Some (s.(mem_users) !! id))),
     {| mem_users := delete id s.(mem_users); mem_groups := s.(mem_groups) |});
  list_users _ s target offset count := Ok (page offset count (matching us_user_name target (values s.(mem_users))));
  get_group _ s id := Ok (s.(mem_groups) !! id);
  group_exists_by_display_name _ s n :=
    Ok (existsb (fun g => eq_ignore_ascii_case g.(gr_display_name) n) (values s.(mem_groups)));
  insert_group _ _ s g := (Ok tt, mem_put_group s g);
  update_group _ _ s g := (Ok tt, mem_put_group s g);
  delete_group _ s id :=
    (Ok (s.(mem_groups) !! id), {| mem_users := s.(mem_users); mem_groups := delete id s.(mem_groups) |});
  list_groups _ s target offset count := Ok (page offset count (matching gr_display_name target (values s.(mem_groups))));
|}.

(** *** In PostgreSQL

    The JSON columns hold what was serialised into them and are read back as
    that; [tenant_id] is ['scim'] in every row. *)

Record PgUserRow := {
  pu_external_id : option string;
  pu_user_name : string;
  pu_display_name : option string;
  pu_active : bool;
  pu_formatted : option string;
  pu_given : option string;
  pu_family : option string;
  pu_emails : list ScimEmail;
  pu_groups_ref : list ScimGroupRef;
  pu_created_at : Z;
  pu_updated_at : Z;
}.

Record PgGroupRow := { pg_display_name : string; pg_created_at : Z; pg_updated_at : Z }.
Record PgMemberRow := { pm_display : option string; pm_member_type : string }.

(** Members by group and user. *)
Record PgScimStore := {
  scim_users : gmap string PgUserRow;
  scim_groups : gmap string PgGroupRow;
  scim_group_members : gmap (string * string) PgMemberRow;
}.

Section Pg.
Context (rfc3339 : Z -> string) (sql_lower : string -> string).

Definition row_to_user (id : string) (r : PgUserRow) : ScimUser :=
  {| us_schemas := [SCHEMA_USER]; us_id := Some id; us_external_id := r.(pu_external_id);
     us_user_name := r.(pu_user_name);
     us_name := if bool_decide (is_Some r.(pu_given)) || bool_decide (is_Some r.(pu_family))
                   || bool_decide (is_Some r.(pu_formatted))
                then Some {| nm_formatted := r.(pu_formatted); nm_family := r.(pu_family); nm_given := r.(pu_given) |}
                else None;
     us_emails := r.(pu_emails); us_display_name := r.(pu_display_name); us_active := Some r.(pu_active);
     us_groups := r.(pu_groups_ref);
     us_meta := Some {| me_resource_type := "User"; me_created := rfc3339 r.(pu_created_at);
                        me_last_modified := rfc3339 r.(pu_updated_at); me_location := "/scim/v2/Users/" +:+ id;
                        me_version := None |} |}.

Definition user_row (created updated : Z) (u : ScimUser) : PgUserRow :=
  {| pu_external_id := u.(us_external_id); pu_user_name := u.(us_user_name); pu_display_name := u.(us_display_name);
     pu_active := default true u.(us_active); pu_formatted := u.(us_name) ≫= nm_formatted;
     pu_given := u.(us_name) ≫= nm_given; pu_family := u.(us_name) ≫= nm_family; pu_emails := u.(us_emails);
     pu_groups_ref := u.(us_groups); pu_created_at := created; pu_updated_at := updated |}.

Definition fetch_members (s : PgScimStore) (group_id : string) : list ScimMemberRef :=
  map (fun e => {| mr_value := e.1.2; mr_display := e.2.(pm_display); mr_type := Some e.2.(pm_member_type) |})
    (List.filter (fun e => bool_decide (e.1.1 = group_id)) (map_to_list s.(scim_group_members))).

Definition row_to_group (id : string) (r : PgGroupRow) (members : list ScimMemberRef) : ScimGroup :=
  {| gr_schemas := [SCHEMA_GROUP]; gr_id := Some id; gr_display_name := r.(pg_display_name); gr_members := members;
     gr_meta := Some {| me_resource_type := "Group"; me_created := rfc3339 r.(pg_created_at);
                        me_last_modified := rfc3339 r.(pg_updated_at); me_location := "/scim/v2/Groups/" +:+ id;
                        me_version := None |} |}.

Definition read_group (s : PgScimStore) (id : string) : option ScimGroup :=
  (fun r => row_to_group id r (fetch_members s id)) <$> s.(scim_groups) !! id.

Definition lower_eq (a b : string) : bool := bool_decide (sql_lower a = sql_lower b).

Definition with_users (s : PgScimStore) m := {| scim_users := m; scim_groups := s.(scim_groups);
                                                scim_group_members := s.(scim_group_members) |}.
Definition with_groups (s : PgScimStore) m := {| scim_users := s.(scim_users); scim_groups := m;
                                                 scim_group_members := s.(scim_group_members) |}.
Definition with_members (s : PgScimStore) m := {| scim_users := s.(scim_users); scim_groups := s.(scim_groups);
                                                  scim_group_members := m |}.

(** The outcome of a write that the schema accepts with state [s'], or refuses. *)
Definition written {A} (io : RoundTrip) (s : PgScimStore) (r : result string (A * PgScimStore)) :
    result string A * PgScimStore :=
  match r with
  | Err c => (Err (match io with Some (e, _) => e | None => c end), s)
  | Ok (a, s') => match io with
                  | None => (Ok a, s')
                  | Some (e, applied) => (Err e, if applied then s' else s)
                  end
  end.

Definition name_taken {A} (name : A -> string) (m : gmap string A) (id n : string) : bool :=
  existsb (fun e => negb (bool_decide (e.1 = id)) && lower_eq (name e.2) n) (map_to_list m).

Definition pg_insert_user (io : RoundTrip) (now : Z) (s : PgScimStore) (u : ScimUser) : result string () * PgScimStore :=
  let id := default "" u.(us_id) in
  written io s
    (if bool_decide (is_Some (s.(scim_users) !! id)) then Err "scim_users_pkey"
     else if name_taken pu_user_name s.(scim_users) id u.(us_user_name) then Err "idx_scim_users_tenant_username"
     else Ok (tt, with_users s (<[id := user_row now now u]> s.(scim_users)))).

Definition pg_update_user (io : RoundTrip) (now : Z) (s : PgScimStore) (u : ScimUser) : result string () * PgScimStore :=
  let id := default "" u.(us_id) in
  written io s
    (match s.(scim_users) !! id with
     | None => Ok (tt, s)
     | Some r => if name_taken pu_user_name s.(scim_users) id u.(us_user_name)
                 then Err "idx_scim_users_tenant_username"
                 else Ok (tt, with_users s (<[id := user_row r.(pu_created_at) now u]> s.(scim_users)))
     end).

(** The memberships of a user go with it. *)
Definition pg_delete_user (io : RoundTrip) (s : PgScimStore) (id : string) : result string bool * PgScimStore :=
  written io s
    (match s.(scim_users) !! id with
     | None => Ok (false, s)
     | Some _ => Ok (true, with_members (with_users s (delete id s.(scim_users)))
                       (filter (fun e => e.1.2 <> id) s.(scim_group_members)))
     end).

(** [usize as i64]; a negative LIMIT or OFFSET is an error. *)
Definition as_i64_nonneg (z : Z) : bool := z <? 2 ^ 63.

Definition created_asc {A} (a b : Z * A) : bool := a.1 <=? b.1.

Definition pg_page {A} (io : RoundTrip) (offset count : Z) (l : list (Z * A)) : result string (list A * Z) :=
  match io with
  | Some (e, _) => Err e
  | None => if as_i64_nonneg offset && as_i64_nonneg count
            then Ok (map snd (limit count (skip offset (order_by created_asc l))), len l)
            else Err "LIMIT must not be negative"
  end.

Definition pg_list_users (io : RoundTrip) (s : PgScimStore) (target : option string) (offset count : Z) :
    result string (list ScimUser * Z) :=
  pg_page io offset count
    (map (fun e => (e.2.(pu_created_at), row_to_user e.1 e.2))
       (List.filter (fun e => match target with Some t => lower_eq e.2.(pu_user_name) t | None => true end)
          (map_to_list s.(scim_users)))).

Definition pg_list_groups (io : RoundTrip) (s : PgScimStore) (target : option string) (offset count : Z) :
    result string (list ScimGroup * Z) :=
  pg_page io offset count
    (map (fun e => (e.2.(pg_created_at), row_to_group e.1 e.2 (fetch_members s e.1)))
       (List.filter (fun e => match target with Some t => lower_eq e.2.(pg_display_name) t | None => true end)
          (map_to_list s.(scim_groups)))).

(** [INSERT ... ON CONFLICT DO NOTHING] for each member; a user that is not there
    breaks the foreign key. *)
Fixpoint insert_members (users : gmap string PgUserRow) (group_id : string) (l : list ScimMemberRef)
    (m : gmap (string * string) PgMemberRow) : result string (gmap (string * string) PgMemberRow) :=
  match l with
  | [] => Ok m
  | x :: l' =>
      if bool_decide (is_Some (m !! (group_id, x.(mr_value)))) then insert_members users group_id l' m
      else if bool_decide (is_Some (users !! x.(mr_value)))
      then insert_members users group_id l'
             (<[(group_id, x.(mr_value)) := {| pm_display := x.(mr_display);
                                                pm_member_type := default "User" x.(mr_type) |}]> m)
      else Err "scim_group_members_user_id_fkey"
  end.

Definition sync_members (s : PgScimStore) (group_id : string) (l : list ScimMemberRef) : result string PgScimStore :=
  m ← insert_members s.(scim_users) group_id l (filter (fun e => e.1.1 <> group_id) s.(scim_group_members));
  Ok (with_members s m).

Definition pg_insert_group (io : RoundTrip) (now : Z) (s : PgScimStore) (g : ScimGroup) : result string () * PgScimStore :=
  let id := default "" g.(gr_id) in
  written io s
    (if bool_decide (is_Some (s.(scim_groups) !! id)) then Err "scim_groups_pkey"
     else if name_taken pg_display_name s.(scim_groups) id g.(gr_display_name)
     then Err "idx_scim_groups_tenant_display_name"
     else
       let row := {| pg_display_name := g.(gr_display_name); pg_created_at := now; pg_updated_at := now |} in
       s' ← sync_members (with_groups s (<[id := row]> s.(scim_groups))) id g.(gr_members);
       Ok (tt, s')).

Definition pg_update_group (io : RoundTrip) (now : Z) (s : PgScimStore) (g : ScimGroup) : result string () * PgScimStore :=
  let id := default "" g.(gr_id) in
  written io s
    (match s.(scim_groups) !! id with
     | None => match g.(gr_members) with
               | [] => Ok (tt, s)
               | _ => Err "scim_group_members_group_id_fkey"
               end
     | Some r =>
         if name_taken pg_display_name s.(scim_groups) id g.(gr_display_name)
         then Err "idx_scim_groups_tenant_display_name"
         else
           let row := {| pg_display_name := g.(gr_display_name); pg_created_at := r.(pg_created_at);
                         pg_updated_at := now |} in
           s' ← sync_members (with_groups s (<[id := row]> s.(scim_groups))) id g.(gr_members);
           Ok (tt, s')
     end).

Definition pg_delete_group (io : RoundTrip) (s : PgScimStore) (id : string) : result string (option ScimGroup) * PgScimStore :=
  written io s
    (match read_group s id with
     | None => Ok (None, s)
     | Some g => Ok (Some g, with_members (with_groups s (delete id s.(scim_groups)))
                       (filter (fun e => e.1.1 <> id) s.(scim_group_members)))
     end).

Definition answered {A} (io : RoundTrip) (a : A) : result string A :=
  match io with Some (e, _) => Err e | None => Ok a end.

Definition pg_scim_store : ScimStore PgScimStore := {|
  get_user io s id := answered io (row_to_user id <$> s.(scim_users) !! id);
  user_exists_by_username io s n :=
    answered io (existsb (fun e => lower_eq e.2.(pu_user_name) n) (map_to_list s.(scim_users)));
  insert_user := pg_insert_user;
  update_user := pg_update_user;
  delete_user := pg_delete_user;
  list_users := pg_list_users;
  get_group io s id := answered io (read_group s id);
  group_exists_by_display_name io s n :=
    answered io (existsb (fun e => lower_eq e.2.(pg_display_name) n) (map_to_list s.(scim_groups)));
  insert_group := pg_insert_group;
  update_group := pg_update_group;
  delete_group := pg_delete_group;
  list_groups := pg_list_groups;
|}.

End Pg.

(** ** users.rs *)

Record ScimState (S : Type) := { sc_store : S; sc_principals : PrincipalStore }.
Arguments sc_store {S}. Arguments sc_principals {S}. Arguments Build_ScimState {S}.

Inductive ScimBody :=
| SUser (u : ScimUser)
| SGroup (g : ScimGroup)
| SUsers (l : list ScimUser) (total start_index : Z)
| SGroups (l : list ScimGroup) (total start_index : Z)
| SError (detail : string) (scim_type : option string)
| SDocument
| SNone.

Definition ScimReply : Type := Z * ScimBody.

Definition bad_request (detail : string) : ScimReply := (400, SError detail None).
Definition conflict (detail : string) : ScimReply := (409, SError detail (Some "uniqueness")).
Definition internal_error (detail : string) : ScimReply := (500, SError detail None).
Definition user_not_found (id : string) : ScimReply := (404, SError ("User '" +:+ id +:+ "' not found") None).
Definition group_not_found (id : string) : ScimReply := (404, SError ("Group '" +:+ id +:+ "' not found") None).

Definition user_unavailable : ScimReply := internal_error "user store unavailable".
Definition group_unavailable : ScimReply := internal_error "group store unavailable".

Definition user_meta (id created last_modified : string) : ScimMeta :=
  {| me_resource_type := "User"; me_created := created; me_last_modified := last_modified;
     me_location := "/scim/v2/Users/" +:+ id; me_version := None |}.
Definition group_meta (id created last_modified : string) : ScimMeta :=
  {| me_resource_type := "Group"; me_created := created; me_last_modified := last_modified;
     me_location := "/scim/v2/Groups/" +:+ id; me_version := None |}.

(** [filter.trim().splitn(3, ' ')] as attribute, operator and value. *)
Definition parse_filter (attribute filter : string) : option string :=
  match Str.split_once " " (Str.trim filter) with
  | Some (a, rest) =>
      match Str.split_once " " rest with
      | Some (op, v) =>
          if eq_ignore_ascii_case a attribute && eq_ignore_ascii_case op "eq"
          then Some (Str.trim_matches "034" (Str.trim v)) else None
      | None => None
      end
  | None => None
  end.

Definition parse_username_filter : string -> option string := parse_filter "userName".
Definition parse_display_name_filter : string -> option string := parse_filter "displayName".

Definition as_bool (v : Json) : option bool := match v with JBool b => Some b | _ => None end.

Definition set_user (u : ScimUser) (name : string) (full : option ScimName) (emails : list ScimEmail)
    (display : option string) (active : option bool) : ScimUser :=
  {| us_schemas := u.(us_schemas); us_id := u.(us_id); us_external_id := u.(us_external_id);
     us_user_name := name; us_name := full; us_emails := emails; us_display_name := display; us_active := active;
     us_groups := u.(us_groups); us_meta := u.(us_meta) |}.

Definition set_active (u : ScimUser) a := set_user u u.(us_user_name) u.(us_name) u.(us_emails) u.(us_display_name) a.
Definition set_display (u : ScimUser) d := set_user u u.(us_user_name) u.(us_name) u.(us_emails) d u.(us_active).
Definition set_full_name (u : ScimUser) n := set_user u u.(us_user_name) n u.(us_emails) u.(us_display_name) u.(us_active).
Definition set_emails (u : ScimUser) e := set_user u u.(us_user_name) u.(us_name) e u.(us_display_name) u.(us_active).

(** A blank name is ignored. *)
Definition set_user_name (u : ScimUser) (n : string) : ScimUser :=
  if Str.is_empty (Str.trim n) then u
  else set_user u n u.(us_name) u.(us_emails) u.(us_display_name) u.(us_active).

Definition update_opt {A B} (f : A -> B -> A) (a : A) (b : option B) : A :=
  match b with Some b => f a b | None => a end.

Definition touch_meta (now : string) (m : option ScimMeta) : option ScimMeta :=
  (fun m => {| me_resource_type := m.(me_resource_type); me_created := m.(me_created); me_last_modified := now;
               me_location := m.(me_location); me_version := m.(me_version) |}) <$> m.

Definition with_user_meta (u : ScimUser) (m : option ScimMeta) : ScimUser :=
  {| us_schemas := u.(us_schemas); us_id := u.(us_id); us_external_id := u.(us_external_id);
     us_user_name := u.(us_user_name); us_name := u.(us_name); us_emails := u.(us_emails);
     us_display_name := u.(us_display_name); us_active := u.(us_active); us_groups := u.(us_groups); us_meta := m |}.

Definition SCIM_TENANT : string := "scim".

(** ** groups.rs: policies of principals *)

Definition scim_principal (m : PrincipalStore) (user_id : string) : option PrincipalRecord :=
  List.find (fun r => bool_decide (r.(pr_id) = user_id)) (list_principals m SCIM_TENANT).

Definition add_policy_to_principal (m : PrincipalStore) (user_id policy : string) : PrincipalStore :=
  match scim_principal m user_id with
  | None => m
  | Some r => if existsb (fun p => bool_decide (p = policy)) r.(pr_policies) then m
              else (update_policies m SCIM_TENANT user_id (r.(pr_policies) ++ [policy])).2
  end.

Definition remove_policy_from_principal (m : PrincipalStore) (user_id policy : string) : PrincipalStore :=
  match scim_principal m user_id with
  | None => m
  | Some r => if negb (existsb (fun p => bool_decide (p = policy)) r.(pr_policies)) then m
              else (update_policies m SCIM_TENANT user_id
                      (List.filter (fun p => negb (bool_decide (p = policy))) r.(pr_policies))).2
  end.

Definition grant_all (m : PrincipalStore) (users : list string) (policy : string) : PrincipalStore :=
  fold_left (fun m u => add_policy_to_principal m u policy) users m.

Definition revoke_all (m : PrincipalStore) (users : list string) (policy : string) : PrincipalStore :=
  fold_left (fun m u => remove_policy_from_principal m u policy) users m.

Definition member_ids (g : ScimGroup) : list string := map mr_value g.(gr_members).

Definition set_group (g : ScimGroup) (name : string) (members : list ScimMemberRef) : ScimGroup :=
  {| gr_schemas := g.(gr_schemas); gr_id := g.(gr_id); gr_display_name := name; gr_members := members;
     gr_meta := g.(gr_meta) |}.

Definition add_member (l : list ScimMemberRef) (x : ScimMemberRef) : list ScimMemberRef :=
  if existsb (fun y => bool_decide (y.(mr_value) = x.(mr_value))) l then l else l ++ [x].

Definition rename_group (g : ScimGroup) (name : string) : ScimGroup :=
  if Str.is_empty (Str.trim name) then g else set_group g name g.(gr_members).

Section Handlers.
Context {S : Type} `{!ScimStore S} (rfc3339 : Z -> string).
(** [serde_json::from_value] at the types of the attributes. *)
Context (name_of_json : Json -> option ScimName) (emails_of_json : Json -> option (list ScimEmail)).
Context (members_of_json : Json -> option (list ScimMemberRef)).

Abbreviation State := (ScimState S).

Definition on_store (st : State) (s : S) : State := {| sc_store := s; sc_principals := st.(sc_principals) |}.

Definition apply_user_patch (u : ScimUser) (path : option string) (value : option Json) : ScimUser :=
  match value with
  | None => u
  | Some v =>
      match path with
      | None =>
          match v with
          | JObj _ =>
              let u := update_opt (fun u b => set_active u (Some b)) u (get_field v "active" ≫= as_bool) in
              let u := update_opt (fun u d => set_display u (Some d)) u (get_field v "displayName" ≫= as_str) in
              update_opt set_user_name u (get_field v "userName" ≫= as_str)
          | _ => u
          end
      | Some p =>
          if decide (p = "active") then update_opt (fun u b => set_active u (Some b)) u (as_bool v)
          else if decide (p = "displayName") then update_opt (fun u d => set_display u (Some d)) u (as_str v)
          else if decide (p = "userName") then update_opt set_user_name u (as_str v)
          else if decide (p = "name") then update_opt (fun u n => set_full_name u (Some n)) u (name_of_json v)
          else if decide (p = "emails") then update_opt set_emails u (emails_of_json v)
          else u
      end
  end.

Definition apply_user_remove (u : ScimUser) (path : string) : ScimUser :=
  if decide (path = "emails") then set_emails u []
  else if decide (path = "active") then set_active u None
  else if decide (path = "displayName") then set_display u None
  else if decide (path = "name") then set_full_name u None
  else u.

Definition patch_user (u : ScimUser) (op : PatchOperation) : ScimUser :=
  match op.(po_op) with
  | PReplace | PAdd => apply_user_patch u op.(po_path) op.(po_value)
  | PRemove => update_opt apply_user_remove u op.(po_path)
  end.

(** [io i] is the fate of the [i]-th call of the store, [db_now] the time of the
    database at a write. *)
Definition create_user (io : nat -> RoundTrip) (now db_now : Z) (fresh : string) (st : State) (body : ScimUser) :
    ScimReply * State :=
  if Str.is_empty (Str.trim body.(us_user_name)) then (bad_request "userName must not be empty", st)
  else match user_exists_by_username (io 0%nat) st.(sc_store) body.(us_user_name) with
  | Err _ => (user_unavailable, st)
  | Ok true => (conflict ("User with userName '" +:+ body.(us_user_name) +:+ "' already exists"), st)
  | Ok false =>
      let t := rfc3339 now in
      let u := {| us_schemas := match body.(us_schemas) with [] => [SCHEMA_USER] | l => l end;
                  us_id := Some fresh; us_external_id := body.(us_external_id); us_user_name := body.(us_user_name);
                  us_name := body.(us_name); us_emails := body.(us_emails);
                  us_display_name := body.(us_display_name); us_active := body.(us_active);
                  us_groups := body.(us_groups); us_meta := Some (user_meta fresh t t) |} in
      let principal := {| pr_id := fresh; pr_tenant_id := SCIM_TENANT;
                          pr_display_name := default body.(us_user_name) body.(us_display_name);
                          pr_auth_method := MTokenAuth; pr_policies := []; pr_created_at := now |} in
      let principals := (create_principal st.(sc_principals) principal).2 in
      match insert_user (io 1%nat) db_now st.(sc_store) u with
      | (Err _, s) => (user_unavailable, {| sc_store := s; sc_principals := principals |})
      | (Ok _, s) => ((201, SUser u), {| sc_store := s; sc_principals := principals |})
      end
  end.

Definition get_scim_user (io : nat -> RoundTrip) (st : State) (id : string) : ScimReply :=
  match get_user (io 0%nat) st.(sc_store) id with
  | Ok (Some u) => (200, SUser u)
  | Ok None => user_not_found id
  | Err _ => user_unavailable
  end.

(** The page a request asks for: the first index and the number to skip. *)
Definition page_of (p : ScimListParams) : Z * Z * Z :=
  let start := Z.max 1 (default 1 p.(lp_start_index)) in (start, Z.max 0 (start - 1), default 100 p.(lp_count)).

Definition list_scim_users (io : nat -> RoundTrip) (st : State) (p : ScimListParams) : ScimReply :=
  let '(start, offset, count) := page_of p in
  match list_users (io 0%nat) st.(sc_store) (p.(lp_filter) ≫= parse_username_filter) offset count with
  | Ok (l, total) => (200, SUsers l total start)
  | Err _ => user_unavailable
  end.

Definition replace_user (io : nat -> RoundTrip) (now db_now : Z) (st : State) (id : string) (body : ScimUser) :
    ScimReply * State :=
  if Str.is_empty (Str.trim body.(us_user_name)) then (bad_request "userName must not be empty", st)
  else match get_user (io 0%nat) st.(sc_store) id with
  | Err _ => (user_unavailable, st)
  | Ok None => (user_not_found id, st)
  | Ok (Some existing) =>
      let created := default (rfc3339 now) (me_created <$> existing.(us_meta)) in
      let u := {| us_schemas := [SCHEMA_USER]; us_id := Some id; us_external_id := body.(us_external_id);
                  us_user_name := body.(us_user_name); us_name := body.(us_name); us_emails := body.(us_emails);
                  us_display_name := body.(us_display_name); us_active := body.(us_active);
                  us_groups := existing.(us_groups); us_meta := Some (user_meta id created (rfc3339 now)) |} in
      match update_user (io 1%nat) db_now st.(sc_store) u with
      | (Err _, s) => (user_unavailable, on_store st s)
      | (Ok _, s) => ((200, SUser u), on_store st s)
      end
  end.

Definition update_scim_user (io : nat -> RoundTrip) (now db_now : Z) (st : State) (id : string) (ops : list PatchOperation) :
    ScimReply * State :=
  match get_user (io 0%nat) st.(sc_store) id with
  | Err _ => (user_unavailable, st)
  | Ok None => (user_not_found id, st)
  | Ok (Some u) =>
      let u := fold_left patch_user ops u in
      let u := with_user_meta u (touch_meta (rfc3339 now) u.(us_meta)) in
      match update_user (io 1%nat) db_now st.(sc_store) u with
      | (Err _, s) => (user_unavailable, on_store st s)
      | (Ok _, s) => ((200, SUser u), on_store st s)
      end
  end.

Definition delete_scim_user (io : nat -> RoundTrip) (st : State) (id : string) : ScimReply * State :=
  match delete_user (io 0%nat) st.(sc_store) id with
  | (Ok true, s) => ((204, SNone), on_store st s)
  | (Ok false, s) => (user_not_found id, on_store st s)
  | (Err _, s) => (user_unavailable, on_store st s)
  end.

(** ** groups.rs: the handlers *)

Definition create_group (io : nat -> RoundTrip) (now db_now : Z) (fresh : string) (st : State) (body : ScimGroup) :
    ScimReply * State :=
  if Str.is_empty (Str.trim body.(gr_display_name)) then (bad_request "displayName must not be empty", st)
  else match group_exists_by_display_name (io 0%nat) st.(sc_store) body.(gr_display_name) with
  | Err _ => (group_unavailable, st)
  | Ok true => (conflict ("Group with displayName '" +:+ body.(gr_display_name) +:+ "' already exists"), st)
  | Ok false =>
      let t := rfc3339 now in
      let g := {| gr_schemas := [SCHEMA_GROUP]; gr_id := Some fresh; gr_display_name := body.(gr_display_name);
                  gr_members := body.(gr_members); gr_meta := Some (group_meta fresh t t) |} in
      let principals := grant_all st.(sc_principals) (member_ids g) g.(gr_display_name) in
      match insert_group (io 1%nat) db_now st.(sc_store) g with
      | (Err _, s) => (group_unavailable, {| sc_store := s; sc_principals := principals |})
      | (Ok _, s) => ((201, SGroup g), {| sc_store := s; sc_principals := principals |})
      end
  end.

Definition get_scim_group (io : nat -> RoundTrip) (st : State) (id : string) : ScimReply :=
  match get_group (io 0%nat) st.(sc_store) id with
  | Ok (Some g) => (200, SGroup g)
  | Ok None => group_not_found id
  | Err _ => group_unavailable
  end.

Definition list_scim_groups (io : nat -> RoundTrip) (st : State) (p : ScimListParams) : ScimReply :=
  let '(start, offset, count) := page_of p in
  match list_groups (io 0%nat) st.(sc_store) (p.(lp_filter) ≫= parse_display_name_filter) offset count with
  | Ok (l, total) => (200, SGroups l total start)
  | Err _ => group_unavailable
  end.

(** The differences of two sets of ids, in some order. *)
Definition difference_ids (a b : list string) : list string :=
  elements (list_to_set a ∖ list_to_set b : gset string).

Definition replace_group (io : nat -> RoundTrip) (now db_now : Z) (st : State) (id : string) (body : ScimGroup) :
    ScimReply * State :=
  if Str.is_empty (Str.trim body.(gr_display_name)) then (bad_request "displayName must not be empty", st)
  else match get_group (io 0%nat) st.(sc_store) id with
  | Err _ => (group_unavailable, st)
  | Ok None => (group_not_found id, st)
  | Ok (Some existing) =>
      let policy := body.(gr_display_name) in
      let principals := grant_all st.(sc_principals) (difference_ids (member_ids body) (member_ids existing)) policy in
      let principals := revoke_all principals (difference_ids (member_ids existing) (member_ids body)) policy in
      let created := default (rfc3339 now) (me_created <$> existing.(gr_meta)) in
      let g := {| gr_schemas := [SCHEMA_GROUP]; gr_id := Some id; gr_display_name := body.(gr_display_name);
                  gr_members := body.(gr_members); gr_meta := Some (group_meta id created (rfc3339 now)) |} in
      match update_group (io 1%nat) db_now st.(sc_store) g with
      | (Err _, s) => (group_unavailable, {| sc_store := s; sc_principals := principals |})
      | (Ok _, s) => ((200, SGroup g), {| sc_store := s; sc_principals := principals |})
      end
  end.

(** The ids in an array of objects with a [value]. *)
Definition ids_of (items : list Json) : list string := omap (fun v => get_field v "value" ≫= as_str) items.

(** One operation of a patch, on the group and the principals. *)
Definition patch_group (gm : ScimGroup * PrincipalStore) (op : PatchOperation) : ScimGroup * PrincipalStore :=
  let '(g, m) := gm in
  match op.(po_op), op.(po_path), op.(po_value) with
  | PAdd, Some p, Some v =>
      if decide (p = "members") then
        match members_of_json v with
        | Some l => (set_group g g.(gr_display_name) (fold_left add_member l g.(gr_members)),
                     grant_all m (map mr_value l) g.(gr_display_name))
        | None => (g, m)
        end
      else (g, m)
  | PRemove, Some p, v =>
      if decide (p = "members") then
        match v with
        | Some (JArr items) =>
            (set_group g g.(gr_display_name)
               (List.filter (fun x => negb (bool_decide (x.(mr_value) ∈ ids_of items))) g.(gr_members)),
             revoke_all m (ids_of items) g.(gr_display_name))
        | _ => (set_group g g.(gr_display_name) [], revoke_all m (member_ids g) g.(gr_display_name))
        end
      else (g, m)
  | PReplace, Some p, Some (JStr n) => (if decide (p = "displayName") then rename_group g n else g, m)
  | PReplace, None, Some (JObj fields) =>
      (match assoc "displayName" fields with Some (JStr n) => rename_group g n | _ => g end, m)
  | _, _, _ => (g, m)
  end.

Definition update_scim_group (io : nat -> RoundTrip) (now db_now : Z) (st : State) (id : string) (ops : list PatchOperation) :
    ScimReply * State :=
  match get_group (io 0%nat) st.(sc_store) id with
  | Err _ => (group_unavailable, st)
  | Ok None => (group_not_found id, st)
  | Ok (Some g) =>
      let '(g, principals) := fold_left patch_group ops (g, st.(sc_principals)) in
      let g := {| gr_schemas := g.(gr_schemas); gr_id := g.(gr_id); gr_display_name := g.(gr_display_name);
                  gr_members := g.(gr_members); gr_meta := touch_meta (rfc3339 now) g.(gr_meta) |} in
      match update_group (io 1%nat) db_now st.(sc_store) g with
      | (Err _, s) => (group_unavailable, {| sc_store := s; sc_principals := principals |})
      | (Ok _, s) => ((200, SGroup g), {| sc_store := s; sc_principals := principals |})
      end
  end.

Definition delete_scim_group (io : nat -> RoundTrip) (st : State) (id : string) : ScimReply * State :=
  match delete_group (io 0%nat) st.(sc_store) id with
  | (Ok (Some g), s) =>
      ((204, SNone), {| sc_store := s;
                        sc_principals := revoke_all st.(sc_principals) (member_ids g) g.(gr_display_name) |})
  | (Ok None, s) => (group_not_found id, on_store st s)
  | (Err _, s) => (group_unavailable, on_store st s)
  end.

(** ** mod.rs: the routes *)

Inductive ScimRequest :=
| UCreate (body : ScimUser) | UGet (id : string) | UList (p : ScimListParams) | UReplace (id : string) (body : ScimUser)
| UPatch (id : string) (ops : list PatchOperation) | UDelete (id : string)
| GCreate (body : ScimGroup) | GGet (id : string) | GList (p : ScimListParams) | GReplace (id : string) (body : ScimGroup)
| GPatch (id : string) (ops : list PatchOperation) | GDelete (id : string)
| Discover.

Definition handle_scim (io : nat -> RoundTrip) (now db_now : Z) (fresh : string) (req : ScimRequest) (st : State) :
    ScimReply * State :=
  match req with
  | UCreate b => create_user io now db_now fresh st b
  | UGet id => (get_scim_user io st id, st)
  | UList p => (list_scim_users io st p, st)
  | UReplace id b => replace_user io now db_now st id b
  | UPatch id ops => update_scim_user io now db_now st id ops
  | UDelete id => delete_scim_user io st id
  | GCreate b => create_group io now db_now fresh st b
  | GGet id => (get_scim_group io st id, st)
  | GList p => (list_scim_groups io st p, st)
  | GReplace id b => replace_group io now db_now st id b
  | GPatch id ops => update_scim_group io now db_now st id ops
  | GDelete id => delete_scim_group io st id
  | Discover => ((200, SDocument), st)
  end.

End Handlers.

(** ** Policies and membership *)

(** A record is filed under its id. *)
Definition keyed (m : PrincipalStore) : Prop := forall t i r, m !! (t, i) = Some r -> r.(pr_id) = i.

Definition present (m : PrincipalStore) (u : string) : Prop := is_Some (m !! (SCIM_TENANT, u)).

Definition holds (m : PrincipalStore) (u policy : string) : Prop :=
  exists r, m !! (SCIM_TENANT, u) = Some r /\ policy ∈ r.(pr_policies).

Lemma scim_principal_lookup m u : keyed m -> scim_principal m u = m !! (SCIM_TENANT, u).
Proof.
  intros Hk. unfold scim_principal. destruct (List.find _ _) as [r|] eqn:Hf.
  - apply List.find_some in Hf as [Hin Hid]. apply bool_decide_eq_true in Hid.
    unfold list_principals in Hin. apply in_map_iff in Hin as ([[t i] r'] & <- & Hin).
    apply filter_In in Hin as [Hin Ht]. apply bool_decide_eq_true in Ht. cbn in Ht, Hid. subst t.
    apply list_elem_of_In, elem_of_map_to_list in Hin. rewrite (Hk _ _ _ Hin) in Hid. by subst i.
  - destruct (m !! (SCIM_TENANT, u)) as [r|] eqn:Hr; [|done]. exfalso.
    pose proof (List.find_none _ _ Hf r) as Hn. cbn in Hn. rewrite bool_decide_eq_true_2 in Hn; [|by apply (Hk _ _ _ Hr)].
    discriminate Hn. unfold list_principals. apply in_map_iff. exists ((SCIM_TENANT, u), r). split; [done|].
    apply filter_In. split; [by apply list_elem_of_In, elem_of_map_to_list|by apply bool_decide_eq_true].
Qed.

(** What a change to one principal's policies is. *)
Lemma update_policies_lookup m u l r t i :
  m !! (SCIM_TENANT, u) = Some r ->
  exists r', pr_policies r' = l /\ pr_id r' = pr_id r /\
  (update_policies m SCIM_TENANT u l).2 !! (t, i) = if decide ((t, i) = (SCIM_TENANT, u)) then Some r' else m !! (t, i).
Proof.
  intros Hr. unfold update_policies. rewrite Hr. cbn.
  eexists {| pr_id := pr_id r; pr_tenant_id := pr_tenant_id r; pr_display_name := pr_display_name r;
             pr_auth_method := pr_auth_method r; pr_policies := l; pr_created_at := pr_created_at r |}.
  split; [done|]. split; [done|]. case_decide as Hd; [by rewrite Hd, lookup_insert_eq|by rewrite lookup_insert_ne].
Qed.

Lemma existsb_elem (p : string) l : existsb (fun x => bool_decide (x = p)) l = true <-> p ∈ l.
Proof.
  rewrite existsb_exists, list_elem_of_In. split.
  - intros (x & Hx & Heq). apply bool_decide_eq_true in Heq. by subst x.
  - intros Hp. exists p. split; [done|]. by apply bool_decide_eq_true.
Qed.

(** [m'] is [m] but for policies, which are as [P] says. *)
Record resynced (m m' : PrincipalStore) (P : string -> string -> Prop) : Prop := {
  rs_keyed : keyed m';
  rs_present : forall u, present m' u <-> present m u;
  rs_holds : forall u n, holds m' u n <-> P u n;
}.

Lemma resynced_set m u l r (P : string -> string -> Prop) :
  keyed m -> m !! (SCIM_TENANT, u) = Some r ->
  (forall n, P u n <-> n ∈ l) -> (forall v n, v <> u -> P v n <-> holds m v n) ->
  resynced m (update_policies m SCIM_TENANT u l).2 P.
Proof.
  intros Hk Hr Hu Hv. split.
  - intros t i x Hx. destruct (update_policies_lookup m u l r t i Hr) as (r' & Hl & Hid & He). rewrite He in Hx.
    case_decide as Hd; [|by apply (Hk t i)]. injection Hd as -> ->. injection Hx as <-. rewrite Hid. by apply (Hk _ _ _ Hr).
  - intros v. unfold present. destruct (update_policies_lookup m u l r SCIM_TENANT v Hr) as (r' & _ & _ & ->).
    case_decide as Hd; [|done]. injection Hd as ->. rewrite Hr. split; by eexists.
  - intros v n. unfold holds at 1. destruct (update_policies_lookup m u l r SCIM_TENANT v Hr) as (r' & Hl & _ & ->).
    case_decide as Hd.
    + injection Hd as ->. rewrite Hu, <- Hl. split; [by intros (? & [= <-] & ?)|intros ?; by exists r'].
    + rewrite Hv by congruence. done.
Qed.

Lemma resynced_id m (P : string -> string -> Prop) :
  keyed m -> (forall u n, holds m u n <-> P u n) -> resynced m m P.
Proof. by intros Hk HP. Qed.

Lemma add_policy_resynced m u p : keyed m ->
  resynced m (add_policy_to_principal m u p) (fun v n => holds m v n \/ (v = u /\ n = p /\ present m u)).
Proof.
  intros Hk. unfold add_policy_to_principal. rewrite scim_principal_lookup by done.
  destruct (m !! (SCIM_TENANT, u)) as [r|] eqn:Hr.
  2: { apply resynced_id; [done|]. intros v n. unfold present. rewrite Hr. split; [tauto|].
       intros [?|(-> & _ & [? ?])]; done. }
  destruct (existsb _ _) eqn:He.
  - apply existsb_elem in He. apply resynced_id; [done|]. intros v n. split; [tauto|].
    intros [?|(-> & -> & _)]; [done|]. by exists r.
  - apply (resynced_set m u _ r); [done|done| |].
    + intros n. rewrite elem_of_app, list_elem_of_singleton. split.
      * intros [(x & Hx & Hn)|(_ & -> & _)]; [rewrite Hr in Hx; injection Hx as <-; by left|by right].
      * intros [Hn| ->]; [left; by exists r|right]. split; [done|]. split; [done|]. by eexists.
    + intros v n Hne. split; [by intros [?|(-> & _)]|by left].
Qed.

Lemma remove_policy_resynced m u p : keyed m ->
  resynced m (remove_policy_from_principal m u p) (fun v n => holds m v n /\ ~ (v = u /\ n = p)).
Proof.
  intros Hk. unfold remove_policy_from_principal. rewrite scim_principal_lookup by done.
  destruct (m !! (SCIM_TENANT, u)) as [r|] eqn:Hr.
  2: { apply resynced_id; [done|]. intros v n. split; [|tauto]. intros Hv. split; [done|].
       intros [-> ->]. destruct Hv as (x & Hx & _). congruence. }
  destruct (existsb _ _) eqn:He; cbn.
  - apply (resynced_set m u _ r); [done|done| |].
    + intros n. rewrite list_elem_of_In, filter_In, <- list_elem_of_In. split.
      * intros [(x & Hx & Hn) Hne]. rewrite Hr in Hx. injection Hx as <-. split; [done|].
        rewrite bool_decide_eq_false_2; [done|]. naive_solver.
      * intros [Hn Hne]. split; [by exists r|]. intros [_ ->]. by rewrite bool_decide_eq_true_2 in Hne.
    + intros v n Hne. split; [tauto|]. intros Hv. split; [done|]. naive_solver.
  - apply resynced_id; [done|]. intros v n. split; [|tauto]. intros Hv. split; [done|]. intros [-> ->].
    destruct Hv as (x & Hx & Hn). rewrite Hr in Hx. injection Hx as <-.
    apply existsb_elem in Hn. congruence.
Qed.

Lemma resynced_trans m m1 m2 P Q R :
  resynced m m1 P -> resynced m1 m2 Q -> (forall u n, Q u n <-> R u n) -> resynced m m2 R.
Proof.
  intros [? Hp1 Hh1] [? Hp2 Hh2] HR. split; [done| |].
  - intros u. by rewrite Hp2, Hp1.
  - intros u n. by rewrite Hh2, HR.
Qed.

Lemma grant_all_resynced l m p : keyed m ->
  resynced m (grant_all m l p) (fun v n => holds m v n \/ (v ∈ l /\ n = p /\ present m v)).
Proof.
  unfold grant_all. revert m. induction l as [|u l IH]; intros m Hk; cbn.
  - apply resynced_id; [done|]. intros v n. set_solver.
  - pose proof (add_policy_resynced m u p Hk) as H1. pose proof (IH _ (rs_keyed _ _ _ H1)) as H2.
    eapply resynced_trans; [exact H1|exact H2|]. intros v n. cbn.
    rewrite (rs_holds _ _ _ H1), (rs_present _ _ _ H1), elem_of_cons. naive_solver.
Qed.

Lemma revoke_all_resynced l m p : keyed m ->
  resynced m (revoke_all m l p) (fun v n => holds m v n /\ ~ (v ∈ l /\ n = p)).
Proof.
  unfold revoke_all. revert m. induction l as [|u l IH]; intros m Hk; cbn.
  - apply resynced_id; [done|]. intros v n. set_solver.
  - pose proof (remove_policy_resynced m u p Hk) as H1. pose proof (IH _ (rs_keyed _ _ _ H1)) as H2.
    eapply resynced_trans; [exact H1|exact H2|]. intros v n. cbn.
    rewrite (rs_holds _ _ _ H1), elem_of_cons. naive_solver.
Qed.

(** Somebody is a member of a group of this name. *)
Definition in_group (groups : gmap string ScimGroup) (u n : string) : Prop :=
  exists id g, groups !! id = Some g /\ g.(gr_display_name) = n /\ u ∈ member_ids g.

(** The principals of [m], those of [m0] but for the policy [name], which the
    members of [g] hold. *)
Definition tracks (m0 : PrincipalStore) (name : string) (g : ScimGroup) (m : PrincipalStore) : Prop :=
  resynced m0 m (fun u n => (n = name /\ u ∈ member_ids g /\ present m0 u) \/ (n <> name /\ holds m0 u n)).

Lemma tracks_grant m0 name g g' m l :
  tracks m0 name g m -> (forall u, u ∈ member_ids g' <-> u ∈ member_ids g \/ u ∈ l) ->
  tracks m0 name g' (grant_all m l name).
Proof.
  intros Ht Hg. eapply resynced_trans; [exact Ht|apply grant_all_resynced, (rs_keyed _ _ _ Ht)|].
  intros u n. cbn. rewrite (rs_holds _ _ _ Ht), (rs_present _ _ _ Ht), Hg. naive_solver.
Qed.

Lemma tracks_revoke m0 name g g' m l :
  tracks m0 name g m -> (forall u, u ∈ member_ids g' <-> u ∈ member_ids g /\ u ∉ l) ->
  tracks m0 name g' (revoke_all m l name).
Proof.
  intros Ht Hg. eapply resynced_trans; [exact Ht|apply revoke_all_resynced, (rs_keyed _ _ _ Ht)|].
  intros u n. cbn. rewrite (rs_holds _ _ _ Ht), Hg. naive_solver.
Qed.

Lemma add_member_ids l x u : u ∈ map mr_value (add_member l x) <-> u ∈ map mr_value l \/ u = x.(mr_value).
Proof.
  unfold add_member. destruct (existsb _ _) eqn:He.
  - split; [by left|]. intros [?| ->]; [done|]. apply existsb_exists in He as (y & Hy & He).
    apply bool_decide_eq_true in He. rewrite <- He. apply list_elem_of_In, in_map_iff. by exists y.
  - rewrite map_app, elem_of_app. cbn. by rewrite list_elem_of_singleton.
Qed.

Lemma add_members_ids l0 l u :
  u ∈ map mr_value (fold_left add_member l0 l) <-> u ∈ map mr_value l \/ u ∈ map mr_value l0.
Proof.
  revert l. induction l0 as [|x l0 IH]; intros l; cbn; [set_solver|].
  rewrite IH, add_member_ids, elem_of_cons. tauto.
Qed.

Section Memory.
Context (rfc3339 : Z -> string).
Context (name_of_json : Json -> option ScimName) (emails_of_json : Json -> option (list ScimEmail)).
Context (members_of_json : Json -> option (list ScimMemberRef)).

Abbreviation State := (ScimState MemoryScimStore).
Abbreviation handle := (handle_scim rfc3339 name_of_json emails_of_json members_of_json).
Abbreviation groups_of st := (st.(sc_store).(mem_groups)).

Record synced (st : State) : Prop := {
  sy_keyed : keyed st.(sc_principals);
  sy_ids : forall id g, groups_of st !! id = Some g -> g.(gr_id) = Some id;
  sy_names : forall a b g h, groups_of st !! a = Some g -> groups_of st !! b = Some h ->
    g.(gr_display_name) = h.(gr_display_name) -> a = b;
  sy_policies : forall u n, present st.(sc_principals) u ->
    holds st.(sc_principals) u n <-> in_group (groups_of st) u n;
}.

Lemma holds_present m u n : holds m u n -> present m u.
Proof. intros (r & Hr & _). by exists r. Qed.

Lemma synced_tracks st id g :
  synced st -> groups_of st !! id = Some g -> tracks st.(sc_principals) g.(gr_display_name) g st.(sc_principals).
Proof.
  intros Hs Hg. apply resynced_id; [apply (sy_keyed _ Hs)|]. intros u n. split.
  - intros Hh. pose proof (holds_present _ _ _ Hh) as Hp.
    destruct (decide (n = gr_display_name g)) as [->|Hne]; [left|by right]. split_and!; try done.
    apply (sy_policies _ Hs) in Hh as (id' & g' & Hg' & Hn & Hu); [|done].
    rewrite (sy_names _ Hs _ _ _ _ Hg' Hg Hn) in Hg'. congruence.
  - intros [(-> & Hu & Hp)|[_ Hh]]; [|done]. apply (sy_policies _ Hs); [done|]. by exists id, g.
Qed.

(** A group changed with the principals that follow it, its name kept. *)
Lemma synced_put st id g g' m :
  synced st -> groups_of st !! id = Some g -> g'.(gr_display_name) = g.(gr_display_name) -> g'.(gr_id) = Some id ->
  tracks st.(sc_principals) g.(gr_display_name) g' m ->
  synced {| sc_store := mem_put_group st.(sc_store) g'; sc_principals := m |}.
Proof.
  intros Hs Hg Hn Hid Ht. unfold mem_put_group. rewrite Hid. split; cbn.
  - apply (rs_keyed _ _ _ Ht).
  - intros k h [[<- <-]|[_ Hh]]%lookup_insert_Some; [done|by apply (sy_ids _ Hs)].
  - intros a b x y [[<- <-]|[Ha Hx]]%lookup_insert_Some [[<- <-]|[Hb Hy]]%lookup_insert_Some Heq; [done| | |];
      eapply (sy_names _ Hs); eauto; congruence.
  - intros u n Hp. apply (rs_present _ _ _ Ht) in Hp. rewrite (rs_holds _ _ _ Ht). split.
    + intros [(-> & Hu & _)|[Hne Hh]].
      * exists id, g'. by rewrite lookup_insert_eq.
      * apply (sy_policies _ Hs) in Hh as (k & h & Hh & Hhn & Hu); [|done]. exists k, h. split; [|done].
        rewrite lookup_insert_ne; [done|]. intros <-. congruence.
    + intros (k & h & [[<- <-]|[Hne Hh]]%lookup_insert_Some & Hhn & Hu).
      * left. split_and!; congruence.
      * right. split; [|apply (sy_policies _ Hs); [done|by exists k, h]].
        intros ->. apply Hne. by eapply (sy_names _ Hs).
Qed.

Lemma patch_group_tracks m0 name ops g m :
  Forall (fun op => op.(po_op) <> PReplace) ops -> g.(gr_display_name) = name -> tracks m0 name g m ->
  let '(g', m') := fold_left (patch_group members_of_json) ops (g, m) in
  g'.(gr_display_name) = name /\ g'.(gr_id) = g.(gr_id) /\ tracks m0 name g' m'.
Proof.
  revert g m. induction ops as [|op ops IH]; intros g m Hops Hn Ht; cbn [fold_left]; [done|].
  apply Forall_cons in Hops as [Hop Hops].
  assert (let '(g1, m1) := patch_group members_of_json (g, m) op in
          gr_display_name g1 = name /\ gr_id g1 = gr_id g /\ tracks m0 name g1 m1) as H1.
  { unfold patch_group. destruct (po_op op); [| |done].
    - destruct (po_path op) as [p|]; [|done]. destruct (po_value op) as [v|]; [|done]. case_decide; [|done].
      destruct (members_of_json v) as [l|]; [|done]. rewrite Hn. cbn. split_and!; [done|done|].
      apply (tracks_grant m0 name g); [done|]. intros u. apply add_members_ids.
    - destruct (po_path op) as [p|]; [|done]. case_decide; [|done]. rewrite Hn.
      destruct (po_value op) as [[| | | | |items|]|]; cbn; (split_and!; [done|done|]);
        apply (tracks_revoke m0 name g); try done; intros u; unfold member_ids; cbn; [set_solver..| |set_solver|set_solver].
      rewrite !list_elem_of_In, !in_map_iff. setoid_rewrite filter_In. setoid_rewrite negb_true_iff.
      setoid_rewrite bool_decide_eq_false. setoid_rewrite <- list_elem_of_In. naive_solver. }
  destruct (patch_group _ _ _) as [g1 m1]. destruct H1 as (Hn1 & Hid1 & Ht1).
  specialize (IH g1 m1 Hops Hn1 Ht1). destruct (fold_left _ _ _) as [g' m']. by rewrite Hid1 in IH.
Qed.

(** A request that renames no group and whose fresh ids are fresh. *)
Definition ordinary (fresh : string) (req : ScimRequest) (st : State) : Prop :=
  match req with
  | UCreate _ => ~ present st.(sc_principals) fresh /\
      forall id g, groups_of st !! id = Some g -> ~ fresh ∈ member_ids g
  | GCreate _ => groups_of st !! fresh = None
  | GReplace id b => forall g, groups_of st !! id = Some g -> b.(gr_display_name) = g.(gr_display_name)
  | GPatch _ ops => Forall (fun op => op.(po_op) <> PReplace) ops
  | _ => True
  end.

Inductive scim_step (st : State) : State -> Prop :=
| scim_request io now db_now fresh req : ordinary fresh req st -> scim_step st (handle io now db_now fresh req st).2.

Lemma elem_of_difference_ids a b u : u ∈ difference_ids a b <-> u ∈ a /\ u ∉ b.
Proof. unfold difference_ids. set_solver. Qed.

Lemma in_group_insert groups id g u n : groups !! id = None ->
  in_group (<[id := g]> groups) u n <-> (g.(gr_display_name) = n /\ u ∈ member_ids g) \/ in_group groups u n.
Proof.
  intros Hnone. split.
  - intros (k & h & [[<- <-]|[_ Hh]]%lookup_insert_Some & Hn & Hu); [by left|]. right. by exists k, h.
  - intros [[Hn Hu]|(k & h & Hh & Hn & Hu)].
    + exists id, g. by rewrite lookup_insert_eq.
    + exists k, h. split; [|done]. rewrite lookup_insert_ne; [done|]. intros <-. congruence.
Qed.

Lemma create_user_synced io now db_now fresh st body :
  ordinary fresh (UCreate body) st -> synced st -> synced (create_user rfc3339 io now db_now fresh st body).2.
Proof.
  intros [Hnew Hmem] Hs. unfold create_user. case_match; [done|]. cbn. case_match; [done|]. cbn.
  unfold create_principal. cbn. unfold present in Hnew. apply eq_None_not_Some in Hnew. rewrite Hnew.
  unfold mem_put_user. cbn. split; cbn.
  - intros t i r [[[= <- <-] <-]|[_ Hr]]%lookup_insert_Some; [done|by apply (sy_keyed _ Hs t i)].
  - apply (sy_ids _ Hs).
  - apply (sy_names _ Hs).
  - intros u n. unfold present, holds. destruct (decide (u = fresh)) as [->|Hne].
    + rewrite lookup_insert_eq. intros _. split.
      * intros (r & [= <-] & Hn). by apply not_elem_of_nil in Hn.
      * intros (k & h & Hh & _ & Hu). by destruct (Hmem k h Hh).
    + rewrite lookup_insert_ne by congruence. apply (sy_policies _ Hs).
Qed.

Lemma name_free st name id g :
  existsb (fun g => eq_ignore_ascii_case g.(gr_display_name) name) (values (groups_of st)) = false ->
  groups_of st !! id = Some g -> g.(gr_display_name) <> name.
Proof.
  intros Hf Hg <-. assert (existsb (fun h => eq_ignore_ascii_case h.(gr_display_name) (gr_display_name g))
    (values (groups_of st)) = true) as Ht; [|congruence].
  apply existsb_exists. exists g. split; [|by apply bool_decide_eq_true].
  apply in_map_iff. exists (id, g). split; [done|]. by apply list_elem_of_In, elem_of_map_to_list.
Qed.

Lemma create_group_synced io now db_now fresh st body :
  ordinary fresh (GCreate body) st -> synced st -> synced (create_group rfc3339 io now db_now fresh st body).2.
Proof.
  intros Hnew Hs. unfold create_group. case_match; [done|]. cbn. case_match eqn:Hex; [done|].
  pose proof (fun id g => name_free st _ id g Hex) as Hfree. cbn.
  pose proof (grant_all_resynced (member_ids body) _ (gr_display_name body) (sy_keyed _ Hs)) as Hg.
  unfold mem_put_group. cbn. split; cbn.
  - apply (rs_keyed _ _ _ Hg).
  - intros k h [[<- <-]|[_ Hh]]%lookup_insert_Some; [done|by apply (sy_ids _ Hs)].
  - intros a b x y [[<- <-]|[Ha Hx]]%lookup_insert_Some [[<- <-]|[Hb Hy]]%lookup_insert_Some Heq; [done| | |].
    + by destruct (Hfree _ _ Hy).
    + by destruct (Hfree _ _ Hx).
    + by eapply (sy_names _ Hs).
  - intros u n Hp. apply (rs_present _ _ _ Hg) in Hp. rewrite (rs_holds _ _ _ Hg u n : holds (grant_all _ _ _) u n <-> _), (sy_policies _ Hs) by done.
    rewrite in_group_insert by done. unfold member_ids. cbn. naive_solver.
Qed.

Lemma replace_group_synced io now db_now st id body :
  (forall g, groups_of st !! id = Some g -> body.(gr_display_name) = g.(gr_display_name)) ->
  synced st -> synced (replace_group rfc3339 io now db_now st id body).2.
Proof.
  intros Hname Hs. unfold replace_group. case_match; [done|]. cbn.
  destruct (groups_of st !! id) as [g|] eqn:Hg; [|done]. specialize (Hname g eq_refl). cbn.
  match goal with |- synced {| sc_store := {| mem_groups := <[id := ?g']> _ |}; sc_principals := ?m |} =>
    apply (synced_put st id g g' m) end; [done|done|done|done|]. rewrite Hname.
  eapply (tracks_revoke _ _ (set_group g (gr_display_name g) (gr_members g ++ gr_members body))).
  - eapply tracks_grant; [by eapply synced_tracks|]. intros u. unfold member_ids. cbn.
    rewrite map_app, elem_of_app, elem_of_difference_ids. fold (member_ids g) (member_ids body).
    destruct (decide (u ∈ member_ids g)); tauto.
  - intros u. unfold member_ids. cbn. rewrite map_app, elem_of_app, elem_of_difference_ids.
    fold (member_ids g) (member_ids body). destruct (decide (u ∈ member_ids body)); tauto.
Qed.

Lemma delete_group_synced io st id : synced st -> synced (delete_scim_group io st id).2.
Proof.
  intros Hs. unfold delete_scim_group. cbn. destruct (groups_of st !! id) as [g|] eqn:Hg; cbn.
  2: { rewrite delete_id by done. destruct st as [[us gs] m]. apply Hs. }
  pose proof (revoke_all_resynced (member_ids g) _ (gr_display_name g) (sy_keyed _ Hs)) as Hr. split; cbn.
  - apply (rs_keyed _ _ _ Hr).
  - intros k h [_ Hh]%lookup_delete_Some. by apply (sy_ids _ Hs).
  - intros a b x y [_ Hx]%lookup_delete_Some [_ Hy]%lookup_delete_Some. by eapply (sy_names _ Hs).
  - intros u n Hp. apply (rs_present _ _ _ Hr) in Hp. rewrite (rs_holds _ _ _ Hr), (sy_policies _ Hs) by done. split.
    + intros [(k & h & Hh & Hn & Hu) Hne]. exists k, h. split; [|done]. apply lookup_delete_Some. split; [|done].
      intros <-. apply Hne. rewrite Hg in Hh. injection Hh as <-. done.
    + intros (k & h & [Hne Hh]%lookup_delete_Some & Hn & Hu). split; [by exists k, h|]. intros [_ ->].
      apply Hne. by eapply (sy_names _ Hs).
Qed.

Lemma patch_synced io now db_now st id ops :
  Forall (fun op => op.(po_op) <> PReplace) ops -> synced st ->
  synced (update_scim_group rfc3339 members_of_json io now db_now st id ops).2.
Proof.
  intros Hops Hs. unfold update_scim_group. cbn. destruct (groups_of st !! id) as [g|] eqn:Hg; [|done].
  pose proof (patch_group_tracks _ _ ops g _ Hops eq_refl (synced_tracks _ _ _ Hs Hg)) as Hp.
  destruct (fold_left _ _ _) as [g' m']. destruct Hp as (Hn & Hid & Ht). cbn.
  eapply synced_put; [done|done|done|by rewrite <- (sy_ids _ Hs _ _ Hg)|]. exact Ht.
Qed.

(** A state with the same groups and principals. *)
Lemma synced_same st st' :
  groups_of st' = groups_of st -> st'.(sc_principals) = st.(sc_principals) -> synced st -> synced st'.
Proof.
  intros Hg Hp Hs. split; rewrite ?Hg, ?Hp; [apply (sy_keyed _ Hs)|apply (sy_ids _ Hs)|apply (sy_names _ Hs)|
    apply (sy_policies _ Hs)].
Qed.

Lemma scim_step_synced st st' : scim_step st st' -> synced st -> synced st'.
Proof.
  intros [io now db_now fresh req Ho] Hs. destruct req as [b|id|p|id b|id ops|id|b|id|p|id b|id ops|id|]; cbn [handle_scim];
    try exact Hs; try by apply create_user_synced.
  - apply (synced_same st); [..|done]; unfold replace_user; repeat case_match; try done; by simplify_eq/=.
  - apply (synced_same st); [..|done]; unfold update_scim_user; cbn; destruct (mem_users _ !! id); try done; cbn;
      unfold mem_put_user; by case_match.
  - apply (synced_same st); [..|done]; unfold delete_scim_user; cbn; by case_bool_decide.
  - by apply create_group_synced.
  - by apply replace_group_synced.
  - by apply patch_synced.
  - by apply delete_group_synced.
Qed.

(** C10. Policies follow membership. On the store in memory, as long as no group is
    renamed, a provisioned principal holds exactly the policies named after the
    groups it is a member of, through any creation, replacement, patch and deletion
    of users and groups. *)
Theorem policies_follow_membership st st' u n :
  synced st -> rtc scim_step st st' -> present st'.(sc_principals) u ->
  holds st'.(sc_principals) u n <-> in_group (groups_of st') u n.
Proof.
  intros Hs Hrun. apply sy_policies. induction Hrun as [|x y z Hxy _ IH]; [done|].
  by apply IH, (scim_step_synced x).
Qed.

(** A rename strands the old policy: the members of a renamed group keep the policy
    of its old name, and deleting the group takes only the policy of its new name
    away from them. The deletion leaves them with a policy that no group grants. *)
Theorem rename_strands_policy io now db_now fresh st id g u b :
  synced st -> groups_of st !! id = Some g -> u ∈ member_ids g -> present st.(sc_principals) u ->
  b <> g.(gr_display_name) -> Str.is_empty (Str.trim b) = false ->
  let rename := GPatch id [{| po_op := PReplace; po_path := Some "displayName"; po_value := Some (JStr b) |}] in
  let renamed := handle io now db_now fresh rename st in
  let deleted := handle io now db_now fresh (GDelete id) renamed.2 in
  renamed.1.1 = 200 /\ deleted.1.1 = 204 /\
  holds deleted.2.(sc_principals) u g.(gr_display_name) /\
  ~ in_group (groups_of deleted.2) u g.(gr_display_name).
Proof.
  intros Hs Hg Hu Hp Hne Hb. cbn. unfold update_scim_group. cbn. rewrite Hg. cbn. unfold rename_group.
  rewrite (decide_True _ _ (eq_refl "displayName")), Hb. cbn.
  unfold mem_put_group. cbn. rewrite (sy_ids _ Hs _ _ Hg). cbn. unfold delete_scim_group. cbn.
  rewrite lookup_insert_eq. cbn. split; [done|]. split; [done|]. split.
  - pose proof (revoke_all_resynced (member_ids g) _ b (sy_keyed _ Hs)) as Hr.
    apply (rs_holds _ _ _ Hr). split; [|by intros [_ <-]]. apply (sy_policies _ Hs); [done|]. by exists id, g.
  - intros (k & h & [Hk Hh]%lookup_delete_Some & Hn & _). rewrite lookup_insert_ne in Hh by done.
    apply Hk. symmetry. by eapply (sy_names _ Hs).
Qed.

End Memory.

(** ** Over any store *)

Section AnyStore.
Context {S : Type} `{!ScimStore S} (rfc3339 : Z -> string).
Context (name_of_json : Json -> option ScimName) (emails_of_json : Json -> option (list ScimEmail)).
Context (members_of_json : Json -> option (list ScimMemberRef)).

Abbreviation handle := (handle_scim rfc3339 name_of_json emails_of_json members_of_json).

(** The requests that change or remove a user that is there. *)
Definition changes_user (req : ScimRequest) : bool :=
  match req with UReplace _ _ | UPatch _ _ | UDelete _ => true | _ => false end.

(** Deprovisioning takes nothing away: whatever store is used and whatever it
    answers, a request that replaces, deactivates or deletes a user leaves every
    principal and every policy as it was. *)
Theorem deprovisioning_keeps_policies io now db_now fresh req (st : ScimState S) :
  changes_user req = true -> (handle io now db_now fresh req st).2.(sc_principals) = st.(sc_principals).
Proof.
  destruct req; try done; intros _; cbn [handle_scim]; unfold replace_user, update_scim_user, delete_scim_user;
    repeat case_match; by simplify_eq/=.
Qed.

(** A refused group still grants: when the store refuses a new group, the answer is
    an error and its present members hold the policy of its name all the same. *)
Theorem refused_group_still_grants io now db_now fresh body (st : ScimState S) u st' :
  keyed st.(sc_principals) -> Str.is_empty (Str.trim body.(gr_display_name)) = false ->
  group_exists_by_display_name (io 0%nat) st.(sc_store) body.(gr_display_name) = Ok false ->
  handle io now db_now fresh (GCreate body) st = (group_unavailable, st') ->
  u ∈ member_ids body -> present st.(sc_principals) u ->
  holds st'.(sc_principals) u body.(gr_display_name).
Proof.
  intros Hk Hb Hex He Hu Hp. cbn in He. unfold create_group in He. rewrite Hb, Hex in He.
  destruct (insert_group _ _ _ _) as [[]]; simplify_eq/=.
  apply (rs_holds _ _ _ (grant_all_resynced _ _ _ Hk)). by right.
Qed.

End AnyStore.

(** ** The tables *)

Create HintDb scim.

Section Tables.
Context (rfc3339 : Z -> string) (sql_lower : string -> string).
Context (name_of_json : Json -> option ScimName) (emails_of_json : Json -> option (list ScimEmail)).
Context (members_of_json : Json -> option (list ScimMemberRef)).

#[local] Instance pg_instance : ScimStore PgScimStore := pg_scim_store rfc3339 sql_lower.

Abbreviation handle := (handle_scim rfc3339 name_of_json emails_of_json members_of_json).

(** Names that differ under [lower]. *)
Definition distinct_names {A} (name : A -> string) (m : gmap string A) : Prop :=
  forall a b x y, m !! a = Some x -> m !! b = Some y -> sql_lower (name x) = sql_lower (name y) -> a = b.

Record tables_sound (s : PgScimStore) : Prop := {
  ts_users : distinct_names pu_user_name s.(scim_users);
  ts_groups : distinct_names pg_display_name s.(scim_groups);
  ts_members : forall g u r, s.(scim_group_members) !! (g, u) = Some r ->
    is_Some (s.(scim_groups) !! g) /\ is_Some (s.(scim_users) !! u);
}.

Lemma name_taken_false {A} (name : A -> string) (m : gmap string A) id n k x :
  name_taken sql_lower name m id n = false -> m !! k = Some x -> k <> id -> sql_lower (name x) <> sql_lower n.
Proof.
  intros Hf Hx Hk Heq. assert (name_taken sql_lower name m id n = true) as Ht; [|congruence].
  apply existsb_exists. exists (k, x). split; [by apply list_elem_of_In, elem_of_map_to_list|].
  cbn. rewrite bool_decide_eq_false_2 by done. by apply bool_decide_eq_true.
Qed.

Lemma distinct_names_put {A} (name : A -> string) (m : gmap string A) id x :
  distinct_names name m -> name_taken sql_lower name m id (name x) = false -> distinct_names name (<[id := x]> m).
Proof.
  intros Hd Hf a b y z [[<- <-]|[Ha Hy]]%lookup_insert_Some [[<- <-]|[Hb Hz]]%lookup_insert_Some Heq; [done| | |].
  - exfalso. by eapply (name_taken_false name m id); eauto.
  - exfalso. by eapply (name_taken_false name m id); eauto.
  - by eapply Hd.
Qed.

Lemma distinct_names_delete {A} (name : A -> string) (m : gmap string A) id :
  distinct_names name m -> distinct_names name (delete id m).
Proof. intros Hd a b y z [_ Hy]%lookup_delete_Some [_ Hz]%lookup_delete_Some. by eapply Hd. Qed.

Lemma insert_is_Some {A} (m : gmap string A) id x k : is_Some (m !! k) -> is_Some (<[id := x]> m !! k).
Proof. intros Hk. apply lookup_insert_is_Some. destruct (decide (id = k)); auto. Qed.

Lemma insert_members_refer (users : gmap string PgUserRow) (group : string) (l : list ScimMemberRef)
    (m m' : gmap (string * string) PgMemberRow) (P : string -> string -> Prop) :
  insert_members users group l m = Ok m' -> (forall g u r, m !! (g, u) = Some r -> P g u) ->
  (forall u, is_Some (users !! u) -> P group u) -> forall g u r, m' !! (g, u) = Some r -> P g u.
Proof.
  revert m. induction l as [|x l IH]; intros m; cbn; [by intros [= <-]|].
  case_bool_decide; [apply IH|]. case_bool_decide as Hu; [|done]. intros Hi Hm HP. apply (IH _ Hi); [|done].
  intros g u r [[[= <- <-] _]|[_ Hr]]%lookup_insert_Some; [by apply HP|by eapply Hm].
Qed.

(** The members of a group that is there are written as the foreign keys allow. *)
Lemma sync_members_sound s id l s' :
  tables_sound s -> is_Some (s.(scim_groups) !! id) -> sync_members s id l = Ok s' -> tables_sound s'.
Proof.
  intros Hs Hid. unfold sync_members. destruct (insert_members _ _ _ _) as [m|e] eqn:Hi; [|done]. intros [= <-].
  split; cbn; [apply (ts_users _ Hs)|apply (ts_groups _ Hs)|].
  apply (insert_members_refer _ _ _ _ _ (fun g u => is_Some (scim_groups s !! g) /\ is_Some (scim_users s !! u)) Hi);
    [|done].
  intros g u r [Hr _]%map_lookup_filter_Some. by apply (ts_members _ Hs) in Hr.
Qed.

Lemma put_group_sound s id row :
  tables_sound s -> name_taken sql_lower pg_display_name s.(scim_groups) id row.(pg_display_name) = false ->
  tables_sound (with_groups s (<[id := row]> s.(scim_groups))).
Proof.
  intros Hs Hf. split; cbn; [apply (ts_users _ Hs)|by apply distinct_names_put; [apply (ts_groups _ Hs)|]|].
  intros g u r [Hg Hu]%(ts_members _ Hs). split; [by apply insert_is_Some|done].
Qed.

Lemma put_user_sound s id row :
  tables_sound s -> name_taken sql_lower pu_user_name s.(scim_users) id row.(pu_user_name) = false ->
  tables_sound (with_users s (<[id := row]> s.(scim_users))).
Proof.
  intros Hs Hf. split; cbn; [by apply distinct_names_put; [apply (ts_users _ Hs)|]|apply (ts_groups _ Hs)|].
  intros g u r [Hg Hu]%(ts_members _ Hs). split; [done|by apply insert_is_Some].
Qed.

Lemma written_sound {A} io s (r : result string (A * PgScimStore)) :
  tables_sound s -> (forall a s', r = Ok (a, s') -> tables_sound s') -> tables_sound (written io s r).2.
Proof. intros Hs Hr. destruct r as [[a s']|], io as [[? []]|]; cbn; eauto. Qed.

Lemma insert_user_sound io t s u : tables_sound s -> tables_sound (insert_user io t s u).2.
Proof.
  intros Hs. apply written_sound; [done|]. intros a s'. case_bool_decide; [done|]. case_match eqn:Hf; [done|].
  intros [= _ <-]. by apply put_user_sound.
Qed.

Lemma update_user_sound io t s u : tables_sound s -> tables_sound (update_user io t s u).2.
Proof.
  intros Hs. apply written_sound; [done|]. intros a s'. case_match; [|by intros [= _ <-]]. case_match eqn:Hf; [done|].
  intros [= _ <-]. by apply put_user_sound.
Qed.

Lemma delete_user_sound io s id : tables_sound s -> tables_sound (delete_user io s id).2.
Proof.
  intros Hs. apply written_sound; [done|]. intros a s'. case_match; [|by intros [= _ <-]]. intros [= _ <-].
  split; cbn; [apply distinct_names_delete, (ts_users _ Hs)|apply (ts_groups _ Hs)|].
  intros g u r [Hr Hne]%map_lookup_filter_Some. cbn in Hne. apply (ts_members _ Hs) in Hr as [? ?].
  split; [done|]. by rewrite lookup_delete_ne.
Qed.

Lemma insert_group_sound io t s g : tables_sound s -> tables_sound (insert_group io t s g).2.
Proof.
  intros Hs. apply written_sound; [done|]. intros a s'. case_bool_decide; [done|]. case_match eqn:Hf; [done|].
  cbn zeta. destruct (sync_members _ _ _) as [s1|] eqn:Hm; [|done]. intros [= _ <-].
  refine (sync_members_sound _ _ _ _ _ _ Hm); [by apply put_group_sound|]. cbn. by rewrite lookup_insert_eq.
Qed.

Lemma update_group_sound io t s g : tables_sound s -> tables_sound (update_group io t s g).2.
Proof.
  intros Hs. apply written_sound; [done|]. intros a s'. case_match; [|case_match; [by intros [= _ <-]|done]].
  case_match eqn:Hf; [done|]. cbn zeta. destruct (sync_members _ _ _) as [s1|] eqn:Hm; [|done]. intros [= _ <-].
  refine (sync_members_sound _ _ _ _ _ _ Hm); [by apply put_group_sound|]. cbn. by rewrite lookup_insert_eq.
Qed.

Lemma delete_group_sound io s id : tables_sound s -> tables_sound (delete_group io s id).2.
Proof.
  intros Hs. apply written_sound; [done|]. intros a s'. case_match; [|by intros [= _ <-]]. intros [= _ <-].
  split; cbn; [apply (ts_users _ Hs)|apply distinct_names_delete, (ts_groups _ Hs)|].
  intros g' u r [Hr Hne]%map_lookup_filter_Some. cbn in Hne. apply (ts_members _ Hs) in Hr as [? ?].
  split; [|done]. by rewrite lookup_delete_ne.
Qed.

#[local] Hint Resolve insert_user_sound update_user_sound delete_user_sound insert_group_sound update_group_sound
  delete_group_sound : scim.

(** The store a call left, from the equation of the call. *)
Ltac stored := match goal with H : _ = (?r, ?s) |- tables_sound ?s =>
  change (tables_sound (snd (r, s))); rewrite <- H; auto with scim end.

Lemma request_sound io now db_now fresh req (st : ScimState PgScimStore) :
  tables_sound st.(sc_store) -> tables_sound (handle io now db_now fresh req st).2.(sc_store).
Proof.
  intros Hs. destruct req; cbn [handle_scim]; try done;
    unfold create_user, replace_user, update_scim_user, delete_scim_user, create_group, replace_group,
      update_scim_group, delete_scim_group;
    repeat case_match; simplify_eq; cbn [snd sc_store on_store]; try done; stored.
Qed.

(** A request with the fate of its calls, the times and the id it draws. *)
Record Arrival := { ar_io : nat -> RoundTrip; ar_now : Z; ar_db_now : Z; ar_fresh : string; ar_request : ScimRequest }.

Definition serve (st : ScimState PgScimStore) (a : Arrival) : ScimState PgScimStore :=
  (handle a.(ar_io) a.(ar_now) a.(ar_db_now) a.(ar_fresh) a.(ar_request) st).2.

(** The tables stay sound: whatever requests arrive and whatever calls fail, no
    two users and no two groups have names equal under [lower], and every
    membership is of a user and a group that are there. *)
Theorem scim_tables_sound l st :
  tables_sound st.(sc_store) -> tables_sound (fold_left serve l st).(sc_store).
Proof. revert st. induction l as [|a l IH]; intros st Hs; [done|]. by apply IH, request_sound. Qed.

(** What a read gives back of a user that was written at time [t]. *)
Definition as_stored (t : Z) (id : string) (u : ScimUser) : ScimUser :=
  {| us_schemas := [SCHEMA_USER]; us_id := Some id; us_external_id := u.(us_external_id);
     us_user_name := u.(us_user_name);
     us_name := match u.(us_name) with
                | Some {| nm_formatted := None; nm_family := None; nm_given := None |} => None
                | n => n
                end;
     us_emails := u.(us_emails); us_display_name := u.(us_display_name);
     us_active := Some (default true u.(us_active)); us_groups := u.(us_groups);
     us_meta := Some (user_meta id (rfc3339 t) (rfc3339 t)) |}.

Lemma row_round_trip t id u : row_to_user rfc3339 id (user_row t t u) = as_stored t id u.
Proof. unfold row_to_user, as_stored, user_row. cbn. by destruct (us_name u) as [[[] [] []]|]. Qed.

Lemma written_ok {A} io s (r : result string (A * PgScimStore)) a s' :
  written io s r = (Ok a, s') -> r = Ok (a, s').
Proof. destruct r as [[? ?]|], io as [[? []]|]; cbn; congruence. Qed.

(** A user reads back: after a creation answered with 201, a read of the new id
    that the database answers gives the user of the request, active unless the
    request says otherwise, under the schema and the times of the row. *)
Theorem created_user_reads_back io now db_now fresh body st reply st' io' :
  handle io now db_now fresh (UCreate body) st = ((201, reply), st') -> io' 0%nat = None ->
  get_scim_user io' st' fresh = (200, SUser (as_stored db_now fresh body)) /\
  (forall id, id <> fresh -> get_scim_user io' st' id = get_scim_user io' st id).
Proof.
  cbn. unfold create_user. case_match; [done|].
  destruct (user_exists_by_username _ _ _) as [[]|]; [done| |done].
  destruct (insert_user _ _ _ _) as [[[]|] s'] eqn:Hi; [|done]. intros [= _ <-] Hio.
  apply written_ok in Hi. cbn in Hi. case_bool_decide; [done|].
  destruct (name_taken _ _ _ _ _); [done|]. injection Hi as <-. unfold get_scim_user. cbn. rewrite Hio. cbn. split.
  - by rewrite lookup_insert_eq, <- row_round_trip.
  - intros id Hne. by rewrite lookup_insert_ne.
Qed.

End Tables.

(** ** Provisioning and logins

    The principals of the SCIM routes are those the gRPC logins register. *)

Section Logins.
Context `{TokenLibs} (iss aud : string) (managers : Managers) (cfg : Config).

(** Services that differ in their principals only. *)
Definition same_tokens (s s' : Service) : Prop :=
  s.(revocation_pool) = s'.(revocation_pool) /\ s.(revoked_tokens) = s'.(revoked_tokens).

(** A computation whose answer does not depend on the principals. *)
Definition blind {A} (m : eff Service Status A) : Prop :=
  forall s s', same_tokens s s' -> (m s).1 = (m s').1 /\ same_tokens (m s).2 (m s').2.

Lemma blind_ret {A} (a : A) : blind (mret a : eff Service Status A).
Proof. by intros s s'. Qed.

Lemma blind_throw {A} e : blind (throw e : eff Service Status A).
Proof. by intros s s'. Qed.

Lemma blind_lift {A} (r : result Status A) : blind (lift r : eff Service Status A).
Proof. by intros s s'. Qed.

Lemma blind_bind {A B} (m : eff Service Status A) (f : A -> eff Service Status B) :
  blind m -> (forall a, blind (f a)) -> blind (m ≫= f).
Proof.
  intros Hm Hf s s' Hs. rewrite !run_bind. destruct (Hm s s' Hs) as [Hr Hs1].
  destruct (m s) as [[a|e] s1], (m s') as [[b|e'] s1']; simplify_eq/=; [by apply Hf|done].
Qed.

(** A principal that is there already is no error. *)
Lemma blind_register r : blind (register r).
Proof.
  intros s s' [Hp Hr]. unfold register, create_principal.
  by destruct (principals s !! _), (principals s' !! _).
Qed.

Lemma blind_revoked io now token : blind (gets (fun s => service_revoked io now s token) : eff Service Status bool).
Proof. intros s s' [Hp Hr]. cbn. split; [|done]. unfold service_revoked. by rewrite Hp, Hr. Qed.

Lemma blind_configured {A} (m : option A) what : blind (configured m what).
Proof. apply blind_lift. Qed.
Lemma blind_accepted {A} (r : result string A) what : blind (accepted r what).
Proof. apply blind_lift. Qed.
Lemma blind_same_tenant a b m : blind (same_tenant a b m).
Proof. apply blind_lift. Qed.

#[local] Hint Resolve blind_ret blind_throw blind_lift blind_register blind_revoked blind_configured blind_accepted
  blind_same_tenant : scim.

Ltac blind_auto :=
  repeat match goal with
    | |- forall _, blind _ => intros ?
    | |- blind _ => solve [eauto 2 with scim]
    | |- blind (mbind _ _) => apply blind_bind
    | |- blind (match ?x with _ => _ end) => destruct x
    end.

Lemma authenticate_blind io now tenant method : blind (authenticate iss aud managers cfg io now tenant method).
Proof.
  unfold authenticate. blind_auto. unfold login, login_token, login_oidc, login_aws, login_azure, login_mtls.
  blind_auto.
Qed.

(** Provisioning reaches no token: whatever a SCIM request does to the principals
    and their policies, a login answers as it would have before, its token and the
    policies in it included. *)
Theorem provisioning_reaches_no_token {S} `{!ScimStore S} name_of_json emails_of_json members_of_json
    io now db_now fresh req (store : S) io' now' tenant method (s : Service) :
  let st := {| sc_store := store; sc_principals := s.(principals) |} in
  let after := (handle_scim rfc3339 name_of_json emails_of_json members_of_json io now db_now fresh req st).2 in
  (authenticate iss aud managers cfg io' now' tenant method (with_principals s after.(sc_principals))).1 =
  (authenticate iss aud managers cfg io' now' tenant method s).1.
Proof. cbn zeta. by apply authenticate_blind. Qed.

End Logins.

(** ** On concrete data *)

Module ScimDemo.

Definition no_json {A} (_ : Json) : option A := None.
Definition time (_ : Z) : string := "t".
Definition io (_ : nat) : RoundTrip := None.

Definition alice : ScimUser :=
  {| us_schemas := []; us_id := None; us_external_id := None; us_user_name := "alice"; us_name := None; us_emails := [];
     us_display_name := None; us_active := None; us_groups := []; us_meta := None |}.

Definition ops : ScimGroup :=
  {| gr_schemas := []; gr_id := None; gr_display_name := "ops";
     gr_members := [{| mr_value := "u1"; mr_display := None; mr_type := None |}]; gr_meta := None |}.

Abbreviation handle := (handle_scim time no_json no_json no_json).

Definition empty : ScimState MemoryScimStore :=
  {| sc_store := {| mem_users := ∅; mem_groups := ∅ |}; sc_principals := ∅ |}.
Definition one : ScimState MemoryScimStore := (handle io 1 1 "u1" (UCreate alice) empty).2.
Definition two : ScimState MemoryScimStore := (handle io 2 2 "g1" (GCreate ops) one).2.

Lemma synced_empty : synced empty.
Proof.
  split; cbn; [intros ??? []%lookup_empty_Some|intros ?? []%lookup_empty_Some|intros ???? []%lookup_empty_Some|].
  by intros u n [r []%lookup_empty_Some].
Qed.

Abbreviation step := (scim_step time no_json no_json no_json).

Lemma one_step : step empty one.
Proof.
  apply (scim_request time no_json no_json no_json empty io 1 1 "u1" (UCreate alice)). split.
  - by intros [r Hr].
  - by intros ?? ?.
Qed.

Lemma two_step : step one two.
Proof. apply (scim_request time no_json no_json no_json one io 2 2 "g1" (GCreate ops)). reflexivity. Qed.

Lemma synced_two : synced two.
Proof. apply (scim_step_synced _ _ _ _ _ _ two_step), (scim_step_synced _ _ _ _ _ _ one_step), synced_empty. Qed.

Lemma present_two : present two.(sc_principals) "u1".
Proof. by eexists. Qed.

Lemma two_in_group : in_group two.(sc_store).(mem_groups) "u1" "ops".
Proof. eexists "g1", _. split; [vm_compute; reflexivity|]. split; [reflexivity|]. by apply list_elem_of_singleton. Qed.

Lemma policies_follow_membership_witness : holds two.(sc_principals) "u1" "ops".
Proof.
  apply (policies_follow_membership time no_json no_json no_json empty two "u1" "ops").
  - exact synced_empty.
  - eapply rtc_l; [exact one_step|]. apply rtc_once, two_step.
  - exact present_two.
  - exact two_in_group.
Defined.

Definition stored_ops : ScimGroup :=
  {| gr_schemas := [SCHEMA_GROUP]; gr_id := Some "g1"; gr_display_name := "ops"; gr_members := gr_members ops;
     gr_meta := Some (group_meta "g1" "t" "t") |}.

Definition renamed : ScimState MemoryScimStore :=
  (handle io 3 3 ""
     (GPatch "g1" [{| po_op := PReplace; po_path := Some "displayName"; po_value := Some (JStr "sre") |}]) two).2.

Lemma rename_strands_policy_witness :
  holds (handle io 3 3 "" (GDelete "g1") renamed).2.(sc_principals) "u1" "ops".
Proof.
  apply (rename_strands_policy time no_json no_json no_json io 3 3 "" two "g1" stored_ops "u1" "sre").
  - exact synced_two.
  - vm_compute. reflexivity.
  - by apply list_elem_of_singleton.
  - exact present_two.
  - discriminate.
  - reflexivity.
Defined.

Lemma deprovisioning_keeps_policies_witness :
  (handle io 3 3 "" (UDelete "u1") two).2.(sc_principals) = two.(sc_principals).
Proof. apply (deprovisioning_keeps_policies time no_json no_json no_json io 3 3 "" (UDelete "u1") two eq_refl). Defined.

(** The store in the tables, with a group whose second member is not a user. *)
#[local] Instance pg : ScimStore PgScimStore := pg_scim_store time Str.to_ascii_lowercase.

Definition pg_empty : ScimState PgScimStore :=
  {| sc_store := {| scim_users := ∅; scim_groups := ∅; scim_group_members := ∅ |}; sc_principals := ∅ |}.
Definition pg_one : ScimState PgScimStore := (handle io 1 1 "u1" (UCreate alice) pg_empty).2.

Definition broken : ScimGroup :=
  {| gr_schemas := []; gr_id := None; gr_display_name := "ops";
     gr_members := gr_members ops ++ [{| mr_value := "u2"; mr_display := None; mr_type := None |}]; gr_meta := None |}.

Definition pg_two : ScimState PgScimStore := (handle io 2 2 "g1" (GCreate broken) pg_one).2.

Lemma refused_group_still_grants_witness : holds pg_two.(sc_principals) "u1" "ops".
Proof.
  apply (refused_group_still_grants time no_json no_json no_json io 2 2 "g1" broken pg_one "u1" pg_two).
  - intros t i r Hr. change (sc_principals pg_one) with (sc_principals one) in Hr.
    by apply (sy_keyed _ (scim_step_synced _ _ _ _ _ _ one_step synced_empty) t i).
  - reflexivity.
  - vm_compute. reflexivity.
  - vm_compute. reflexivity.
  - apply list_elem_of_here.
  - by eexists.
Defined.

Definition arrivals : list Arrival :=
  [{| ar_io := io; ar_now := 1; ar_db_now := 1; ar_fresh := "u1"; ar_request := UCreate alice |};
   {| ar_io := io; ar_now := 2; ar_db_now := 2; ar_fresh := "g1"; ar_request := GCreate ops |}].

Lemma scim_tables_sound_witness :
  tables_sound Str.to_ascii_lowercase
    (fold_left (serve time Str.to_ascii_lowercase no_json no_json no_json) arrivals pg_empty).(sc_store).
Proof.
  apply (scim_tables_sound time Str.to_ascii_lowercase no_json no_json no_json arrivals pg_empty).
  split; cbn; [intros ???? []%lookup_empty_Some|intros ???? []%lookup_empty_Some|intros ??? []%lookup_empty_Some].
Defined.

Lemma created_user_reads_back_witness :
  get_scim_user io pg_one "u1" = (200, SUser (as_stored time 1 "u1" alice)).
Proof.
  apply (created_user_reads_back time Str.to_ascii_lowercase no_json no_json no_json io 1 1 "u1" alice pg_empty
    (handle io 1 1 "u1" (UCreate alice) pg_empty).1.2 pg_one io).
  - vm_compute. reflexivity.
  - reflexivity.
Defined.

End ScimDemo.
