(* ===== verification/Pki.v ===== *)
(** * The PKI engine

    [services/pki-engine/src]: per-tenant certificate authorities. Types
    ([types.rs], [error.rs]), the protection of CA keys ([key_protect.rs]), issuance,
    signing of requests and revocation lists ([ca.rs]), the store in memory
    ([store.rs]) and in the tables of [014_pki.sql] ([pg_store.rs]), the handlers
    ([http.rs]) and their routes ([main.rs]).

    What [rcgen], [x509-parser] and [pem] do with keys, certificates and requests is
    the class [PkiLibs]; the model says what they are asked to sign. A panic on the
    blocking pool is [None]. Requests run one after the other; a statement may fail,
    a write with or without its effect. *)

From Stdlib Require Import Lia Ascii.
From stdpp Require Import pretty.
From S2P Require Import Prelude Errors Auth Envelope KeyStore TransitDb SecretEngine ApiKeys.

(** ** types.rs *)

Inductive KeyType := EcdsaP256 | Rsa2048 | Rsa4096.

Definition key_type_str (k : KeyType) : string :=
  match k with EcdsaP256 => "ecdsa-p256" | Rsa2048 => "rsa-2048" | Rsa4096 => "rsa-4096" end.

Definition key_type_of_str (s : string) : result string KeyType :=
  if bool_decide (s ∈ ["ecdsa-p256"; "ec"; "ecdsa"]) then Ok EcdsaP256
  else if bool_decide (s ∈ ["rsa-2048"; "rsa2048"]) then Ok Rsa2048
  else if bool_decide (s ∈ ["rsa-4096"; "rsa4096"]) then Ok Rsa4096
  else Err ("unknown key type: " +:+ s).

Inductive KeyUsage := ServerAuth | ClientAuth | CodeSigning | EmailProtection | TimeStamping | OcspSigning.

(** [serde] with [snake_case] names *)
Definition usage_of_str (s : string) : option KeyUsage :=
  if decide (s = "server_auth") then Some ServerAuth
  else if decide (s = "client_auth") then Some ClientAuth
  else if decide (s = "code_signing") then Some CodeSigning
  else if decide (s = "email_protection") then Some EmailProtection
  else if decide (s = "time_stamping") then Some TimeStamping
  else if decide (s = "ocsp_signing") then Some OcspSigning
  else None.

Record TenantCa := {
  ca_tenant_id : string;
  ca_cert_pem : string;
  ca_encrypted_key : string;
  ca_key_version : Z;
  ca_created_at : Z;
}.

Record PkiRole := {
  rl_tenant_id : string;
  rl_name : string;
  rl_allowed_domains : list string;
  rl_allow_subdomains : bool;
  rl_allow_bare_domains : bool;
  rl_max_ttl : Z;
  rl_key_type : KeyType;
  rl_key_usages : list KeyUsage;
  rl_allow_ip_sans : bool;
  rl_created_at : Z;
  rl_updated_at : Z;
}.

Record IssuedCert := {
  ic_id : string;
  ic_tenant_id : string;
  ic_role_name : string;
  ic_serial : string;
  ic_common_name : string;
  ic_not_after : Z;
  ic_revoked_at : option Z;
  ic_created_at : Z;
}.

(** ** error.rs *)

Inductive PkiError :=
| CaNotFound (tenant : string)
| RoleNotFound (name tenant : string)
| CertNotFound (serial tenant : string)
| CaAlreadyExists (tenant : string)
| RoleConstraintViolated (reason : string)
| InvalidCsr (reason : string)
| AlreadyRevoked (serial : string)
| KeyEncryptionError (reason : string)
| CertGenerationFailed (reason : string)
| PVault (e : VaultError).

Definition pki_http_status (e : PkiError) : Z :=
  match e with
  | CaNotFound _ | RoleNotFound _ _ | CertNotFound _ _ => 404
  | CaAlreadyExists _ | AlreadyRevoked _ => 409
  | RoleConstraintViolated _ | InvalidCsr _ | CertGenerationFailed _ => 400
  | KeyEncryptionError _ => 500
  | PVault e => http_status e
  end.

Definition pki_display (debug_str : string -> string) (e : PkiError) : string :=
  match e with
  | CaNotFound t => "no CA configured for tenant " +:+ t
  | RoleNotFound n t => "role '" +:+ n +:+ "' not found for tenant " +:+ t
  | CertNotFound s t => "certificate serial " +:+ s +:+ " not found for tenant " +:+ t
  | CaAlreadyExists t => "CA already exists for tenant " +:+ t +:+ "; delete it before re-generating"
  | RoleConstraintViolated r => "role constraint violated: " +:+ r
  | InvalidCsr r => "invalid CSR: " +:+ r
  | AlreadyRevoked s => "certificate " +:+ s +:+ " is already revoked"
  | KeyEncryptionError r => "CA key encryption error: " +:+ r
  | CertGenerationFailed r => "certificate generation failed: " +:+ r
  | PVault e => display debug_str e
  end.

(** ** Names *)

(** [s.strip_suffix(p)] *)
Definition strip_suffix (p s : string) : option string := Str.rev <$> Str.strip_prefix (Str.rev p) (Str.rev s).

Definition ends_with (p s : string) : bool := bool_decide (is_Some (strip_suffix p s)).

(** One entry of a role's domains, both sides in lower case. *)
Definition domain_matches (role : PkiRole) (name_lc allowed_lc : string) : bool :=
  (role.(rl_allow_bare_domains) && bool_decide (name_lc = allowed_lc))
  || (role.(rl_allow_subdomains) && ends_with ("." +:+ allowed_lc) name_lc)
  || match Str.strip_prefix "*" allowed_lc with
     | Some suffix =>
         Str.starts_with "." suffix &&
         match strip_suffix suffix name_lc with Some label => negb (Str.mem "." label) | None => false end
     | None => false
     end.

Definition check_domain_allowed (to_lowercase : string -> string) (role : PkiRole) (name : string) : result PkiError () :=
  if existsb (fun allowed => domain_matches role (to_lowercase name) (to_lowercase allowed)) role.(rl_allowed_domains)
  then Ok tt
  else Err (RoleConstraintViolated ("name '" +:+ name +:+ "' is not permitted by the role's allowed_domains policy")).

(** ** key_protect.rs *)

Record RootKek := { rk_raw : string; rk_version : Z }.

Definition parse_i32 (s : string) : option Z :=
  let bounded z := if (- 2 ^ 31 <=? z) && (z <? 2 ^ 31) then Some z else None in
  let digits t := if Str.is_empty t then None else Z.of_N <$> Dec.parse_digits 0 t in
  match s with
  | String "-" t => digits t ≫= (fun z => bounded (- z))
  | String "+" t => digits t ≫= bounded
  | _ => digits s ≫= bounded
  end.

Definition build_aad (tenant_id : string) : string := "pki-ca-key:" +:+ tenant_id.

Section KeyProtect.
Context `{Primitives} (debug_str : string -> string).

Definition kek_from_env (root version : option string) : result PkiError RootKek :=
  match root with
  | None => Err (KeyEncryptionError "PKI_ROOT_KEY environment variable is not set")
  | Some encoded =>
      match b64_decode (Str.trim encoded) with
      | Err e => Err (KeyEncryptionError ("PKI_ROOT_KEY is not valid base64: " +:+ e))
      | Ok raw =>
          if bool_decide (String.length raw = 32%nat)
          then Ok {| rk_raw := raw; rk_version := default 1 (version ≫= parse_i32) |}
          else Err (KeyEncryptionError ("PKI_ROOT_KEY must decode to exactly 32 bytes, got "
                                        +:+ pretty (N.of_nat (String.length raw))))
      end
  end.

Definition encrypt_ca_key (rng : option string) (kek : RootKek) (tenant_id key_pem : string) : result PkiError string :=
  match encrypt_with_dek rng kek.(rk_raw) key_pem (build_aad tenant_id) with
  | Ok env => Ok env.(ciphertext_b64)
  | Err e => Err (KeyEncryptionError ("failed to encrypt CA key: " +:+ display debug_str e))
  end.

Definition decrypt_ca_key (kek : RootKek) (tenant_id encrypted : string) : result PkiError string :=
  match decrypt_with_dek kek.(rk_raw) encrypted (build_aad tenant_id) with
  | Ok p => Ok p
  | Err e => Err (KeyEncryptionError ("failed to decrypt CA key: " +:+ display debug_str e))
  end.

End KeyProtect.

(** ** ca.rs *)

Inductive San := DnsName (s : string) | IpAddress (s : string) | OtherName (s : string).

(** What a certificate is to say; times in seconds. The other usages of a CA are
    constant. *)
Record CertParams := {
  cp_is_ca : bool;
  cp_not_before : Z;
  cp_not_after : Z;
  cp_serial : list Z;
  cp_common_name : string;
  cp_sans : list San;
  cp_extended_usages : list KeyUsage;
}.

Record CrlParams := { cl_this_update : Z; cl_next_update : Z; cl_number : Z; cl_revoked : list (list Z * Z) }.

(** A request as [x509-parser] reads it: its common names, each a text or not, and
    the alternative names of its extensions. *)
Record CsrView := { cv_common_names : list (option string); cv_sans : list San }.

Class PkiLibs := {
  to_lowercase : string -> string;
  (** [Ia5String::try_from], [IpAddr::from_str] *)
  dns_name_ok : string -> bool;
  ip_parse : string -> option string;
  (** [rcgen]: keys, issuers, signatures *)
  parse_key : string -> result string string;
  parse_ca : string -> result string string;
  issuer_of : string -> string -> result string string;
  self_sign : CertParams -> string -> result string string;
  sign_leaf : CertParams -> string -> string -> string -> result string string;
  csr_params : string -> result string CertParams;
  sign_request : string -> CertParams -> string -> string -> result string string;
  sign_crl : CrlParams -> string -> string -> result string string;
  crl_pem : string -> result string string;
  (** [pem] and [x509-parser]: armour, structure, signature; the common names of a
      certificate *)
  pem_parse : string -> result string string;
  csr_view : string -> result string CsrView;
  csr_verified : string -> result string ();
  cert_common_names : string -> option (list (option string));
  (** [chrono] and [time]: [None] and [false] are panics *)
  add_seconds : Z -> Z -> option Z;
  unix_ok : Z -> bool;
  show_time : Z -> string;
  panic_text : string;
}.

(** A computation on the blocking pool: a panic, an error or a value. *)
Definition Blocking (A : Type) : Type := option (result PkiError A).

Definition and_then {A B} (m : Blocking A) (f : A -> Blocking B) : Blocking B :=
  match m with
  | None => None
  | Some (Err e) => Some (Err e)
  | Some (Ok a) => f a
  end.

Notation "x ⇐ m ; k" := (and_then m (fun x => k)) (at level 20, m at level 100, k at level 200, right associativity).

Definition failing {A} (prefix : string) (r : result string A) : Blocking A :=
  Some (match r with Ok a => Ok a | Err e => Err (CertGenerationFailed (prefix +:+ e)) end).

(** What an operation draws: the clock, the bytes of a serial number, a key pair. *)
Record Draw := {
  dw_now : Z;
  dw_serial : option (list Z);
  dw_key : KeyType -> result string string;
}.

(** [hex::encode] is [hex_text]; [hex::decode] takes both cases. *)
Definition hex_digit (a : ascii) : option Z :=
  let n := Z.of_nat (nat_of_ascii a) in
  if (48 <=? n) && (n <=? 57) then Some (n - 48)
  else if (97 <=? n) && (n <=? 102) then Some (n - 87)
  else if (65 <=? n) && (n <=? 70) then Some (n - 55)
  else None.

Fixpoint hex_decode (s : string) : option (list Z) :=
  match s with
  | EmptyString => Some []
  | String a (String b s) =>
      h ← hex_digit a;
      l ← hex_digit b;
      k ← hex_decode s;
      Some (16 * h + l :: k)
  | String _ EmptyString => None
  end.

Definition NANOS : Z := 10 ^ 9.

(** The first common name that is text. *)
Definition first_common_name (names : list (option string)) : string := default "" (mjoin (head names)).

(** [SignCsrOutput] is an [IssueOutput] without a private key. *)
Record CaOutput := { co_cert_pem : string; co_key_pem : string; co_serial : string }.
Record IssueOutput := { io_cert_pem : string; io_private_key : string; io_ca_chain : string; io_serial : string; io_not_after : Z }.

Section Ca.
Context `{PkiLibs}.

Definition generate_key_pair (d : Draw) (k : KeyType) : Blocking string :=
  failing ("key generation failed for " +:+ key_type_str k +:+ ": ") (d.(dw_key) k).

(** Without randomness it panics. *)
Definition generate_serial (d : Draw) : Blocking string := (fun b => Ok (hex_text b)) <$> d.(dw_serial).

(** [hex::decode(&serial).expect(..)] *)
Definition serial_bytes (serial : string) : Blocking (list Z) := Ok <$> hex_decode serial.

(** [rcgen_time], with its [expect]. *)
Definition rcgen_time (t : Z) : Blocking Z := if unix_ok (t / NANOS) then Some (Ok (t / NANOS)) else None.

Definition time_after (t secs : Z) : Blocking Z := Ok <$> add_seconds t secs.

Definition generate_ca (d : Draw) (common_name : string) (ttl : Z) (k : KeyType) : Blocking CaOutput :=
  key ⇐ generate_key_pair d k;
  serial ⇐ generate_serial d;
  bytes ⇐ serial_bytes serial;
  not_after ⇐ time_after d.(dw_now) ttl;
  nb ⇐ rcgen_time d.(dw_now);
  na ⇐ rcgen_time not_after;
  cert ⇐ failing "CA self-sign failed: "
          (self_sign {| cp_is_ca := true; cp_not_before := nb; cp_not_after := na; cp_serial := bytes;
                        cp_common_name := common_name; cp_sans := []; cp_extended_usages := [] |} key);
  Some (Ok {| co_cert_pem := cert; co_key_pem := key; co_serial := serial |}).

Definition effective_ttl (role : PkiRole) (ttl : Z) : Z :=
  if (0 <? ttl) && (ttl <? role.(rl_max_ttl)) then ttl else role.(rl_max_ttl).

Fixpoint check_all (role : PkiRole) (names : list string) : result PkiError () :=
  match names with
  | [] => Ok tt
  | n :: l => match check_domain_allowed to_lowercase role n with Ok _ => check_all role l | Err e => Err e end
  end.

Definition dns_san (prefix name : string) : result PkiError San :=
  if dns_name_ok name then Ok (DnsName name) else Err (CertGenerationFailed (prefix +:+ name)).

Fixpoint dns_sans (names : list string) : result PkiError (list San) :=
  match names with
  | [] => Ok []
  | n :: l => s ← dns_san "invalid DNS SAN: " n; k ← dns_sans l; Ok (s :: k)
  end.

(** The CA as an issuer: its key and its certificate, made anew. *)
Definition issuer (what1 what2 what3 ca_cert ca_key : string) : Blocking (string * string) :=
  key ⇐ failing what1 (parse_key ca_key);
  params ⇐ failing what2 (parse_ca ca_cert);
  cert ⇐ failing what3 (issuer_of params key);
  Some (Ok (cert, key)).

Definition issue_leaf (d : Draw) (ca_cert ca_key : string) (role : PkiRole) (common_name : string)
    (names ips : list string) (ttl : Z) : Blocking IssueOutput :=
  _ ⇐ Some (check_domain_allowed to_lowercase role common_name);
  _ ⇐ Some (check_all role names);
  _ ⇐ Some (if bool_decide (ips <> []) && negb role.(rl_allow_ip_sans)
            then Err (RoleConstraintViolated "role does not allow IP SANs") else Ok tt);
  leaf_key ⇐ generate_key_pair d role.(rl_key_type);
  serial ⇐ generate_serial d;
  bytes ⇐ serial_bytes serial;
  not_after ⇐ time_after d.(dw_now) (effective_ttl role ttl);
  nb ⇐ rcgen_time d.(dw_now);
  na ⇐ rcgen_time not_after;
  san ⇐ Some (dns_san "invalid DNS name: " common_name);
  sans ⇐ Some (dns_sans names);
  ca ⇐ issuer "failed to parse CA private key: " "failed to parse CA cert: "
        "failed to reconstruct CA cert for signing: " ca_cert ca_key;
  cert ⇐ failing "leaf certificate signing failed: "
          (sign_leaf {| cp_is_ca := false; cp_not_before := nb; cp_not_after := na; cp_serial := bytes;
                        cp_common_name := common_name; cp_sans := san :: sans ++ map IpAddress ips;
                        cp_extended_usages := role.(rl_key_usages) |} leaf_key ca.1 ca.2);
  Some (Ok {| io_cert_pem := cert; io_private_key := leaf_key; io_ca_chain := ca_cert; io_serial := serial;
              io_not_after := not_after |}).

Definition invalid {A} (prefix : string) (r : result string A) : Blocking A :=
  Some (match r with Ok a => Ok a | Err e => Err (InvalidCsr (prefix +:+ e)) end).

Fixpoint check_sans (role : PkiRole) (l : list San) : result PkiError () :=
  match l with
  | [] => Ok tt
  | DnsName n :: l => match check_domain_allowed to_lowercase role n with Ok _ => check_sans role l | Err e => Err e end
  | IpAddress _ :: l => if role.(rl_allow_ip_sans) then check_sans role l
                        else Err (RoleConstraintViolated "role does not allow IP SANs")
  | OtherName _ :: l => check_sans role l
  end.

Definition check_cn (role : PkiRole) (cn : string) : result PkiError () :=
  if Str.is_empty cn then Ok tt else check_domain_allowed to_lowercase role cn.

(** The common name of the request. *)
Definition parse_and_validate_csr (role : PkiRole) (csr : string) : Blocking string :=
  der ⇐ invalid "PEM decode failed: " (pem_parse csr);
  view ⇐ invalid "DER parse failed: " (csr_view der);
  _ ⇐ invalid "CSR signature verification failed: " (csr_verified der);
  let cn := first_common_name view.(cv_common_names) in
  _ ⇐ Some (check_cn role cn);
  _ ⇐ Some (check_sans role view.(cv_sans));
  Some (Ok cn).

Definition is_ip (s : San) : bool := match s with IpAddress _ => true | _ => false end.

Definition sign_csr (d : Draw) (ca_cert ca_key : string) (role : PkiRole) (csr : string) (ttl : Z) : Blocking IssueOutput :=
  cn ⇐ parse_and_validate_csr role csr;
  serial ⇐ generate_serial d;
  bytes ⇐ serial_bytes serial;
  not_after ⇐ time_after d.(dw_now) (effective_ttl role ttl);
  params ⇐ invalid "rcgen failed to parse CSR: " (csr_params csr);
  nb ⇐ rcgen_time d.(dw_now);
  na ⇐ rcgen_time not_after;
  _ ⇐ Some (if existsb is_ip params.(cp_sans) && negb role.(rl_allow_ip_sans)
            then Err (RoleConstraintViolated "role does not allow IP SANs") else Ok tt);
  _ ⇐ Some (check_cn role cn);
  ca ⇐ issuer "failed to parse CA private key: " "failed to parse CA cert: " "failed to reconstruct CA cert: "
        ca_cert ca_key;
  cert ⇐ failing "CSR signing failed: "
          (sign_request csr {| cp_is_ca := false; cp_not_before := nb; cp_not_after := na; cp_serial := bytes;
                               cp_common_name := params.(cp_common_name); cp_sans := params.(cp_sans);
                               cp_extended_usages := params.(cp_extended_usages) |} ca.1 ca.2);
  Some (Ok {| io_cert_pem := cert; io_private_key := ""; io_ca_chain := ca_cert; io_serial := serial;
              io_not_after := not_after |}).

Fixpoint crl_entries (l : list (string * Z)) : Blocking (list (list Z * Z)) :=
  match l with
  | [] => Some (Ok [])
  | (serial, at_) :: l =>
      bytes ⇐ Some (ok_or (hex_decode serial) (CertGenerationFailed ("invalid serial hex in revocation list: " +:+ serial)));
      t ⇐ rcgen_time at_;
      k ⇐ crl_entries l;
      Some (Ok ((bytes, t) :: k))
  end.

Definition build_crl_pem (now : Z) (ca_cert ca_key : string) (revoked : list (string * Z)) : Blocking string :=
  ca ⇐ issuer "failed to parse CA key for CRL signing: " "failed to parse CA cert for CRL: "
        "failed to reconstruct CA cert for CRL: " ca_cert ca_key;
  next ⇐ time_after now (24 * 3600);
  entries ⇐ crl_entries revoked;
  t ⇐ rcgen_time now;
  n ⇐ rcgen_time next;
  crl ⇐ failing "CRL signing failed: "
         (sign_crl {| cl_this_update := t; cl_next_update := n; cl_number := 1; cl_revoked := entries |} ca.1 ca.2);
  failing "CRL PEM serialization failed: " (crl_pem crl).

End Ca.

(** ** The store *)

(** What a call of the store draws: the clocks of the process and of the database, an
    id, and the fates of its query and its write. *)
Record Io := {
  io_now : Z;
  io_db_now : Z;
  io_id : string;
  io_read : option string;
  io_write : option (string * bool);
}.

Class PkiStore (St : Type) := {
  create_ca : Io -> TenantCa -> St -> result PkiError () * St;
  get_ca : Io -> string -> St -> result PkiError TenantCa;
  upsert_ca : Io -> TenantCa -> St -> result PkiError () * St;
  upsert_role : Io -> PkiRole -> St -> result PkiError () * St;
  get_role : Io -> string -> string -> St -> result PkiError PkiRole;
  delete_role : Io -> string -> string -> St -> result PkiError () * St;
  record_cert : Io -> IssuedCert -> St -> result PkiError () * St;
  revoke_cert : Io -> string -> string -> St -> result PkiError () * St;
  list_active_certs : Io -> string -> St -> result PkiError (list IssuedCert);
  list_revoked_certs : Io -> string -> St -> result PkiError (list IssuedCert);
}.

Definition revoke_at (c : IssuedCert) (at_ : Z) : IssuedCert :=
  {| ic_id := c.(ic_id); ic_tenant_id := c.(ic_tenant_id); ic_role_name := c.(ic_role_name); ic_serial := c.(ic_serial);
     ic_common_name := c.(ic_common_name); ic_not_after := c.(ic_not_after); ic_revoked_at := Some at_;
     ic_created_at := c.(ic_created_at) |}.

(** *** In memory *)

Record InMemoryPkiStore := {
  m_cas : gmap string TenantCa;
  m_roles : gmap (string * string) PkiRole;
  m_certs : gmap (string * string) IssuedCert;
}.

Definition new_store : InMemoryPkiStore := {| m_cas := ∅; m_roles := ∅; m_certs := ∅ |}.

Definition set_m_cas (s : InMemoryPkiStore) m := {| m_cas := m; m_roles := s.(m_roles); m_certs := s.(m_certs) |}.
Definition set_m_roles (s : InMemoryPkiStore) m := {| m_cas := s.(m_cas); m_roles := m; m_certs := s.(m_certs) |}.
Definition set_m_certs (s : InMemoryPkiStore) m := {| m_cas := s.(m_cas); m_roles := s.(m_roles); m_certs := m |}.

Definition mem_create_ca (ca : TenantCa) (s : InMemoryPkiStore) : result PkiError () * InMemoryPkiStore :=
  match s.(m_cas) !! ca.(ca_tenant_id) with
  | Some _ => (Err (CaAlreadyExists ca.(ca_tenant_id)), s)
  | None => (Ok tt, set_m_cas s (<[ca.(ca_tenant_id) := ca]> s.(m_cas)))
  end.

Definition mem_delete_role (t n : string) (s : InMemoryPkiStore) : result PkiError () * InMemoryPkiStore :=
  match s.(m_roles) !! (t, n) with
  | None => (Err (RoleNotFound n t), s)
  | Some _ => (Ok tt, set_m_roles s (delete (t, n) s.(m_roles)))
  end.

Definition mem_revoke_cert (now : Z) (t serial : string) (s : InMemoryPkiStore) : result PkiError () * InMemoryPkiStore :=
  match s.(m_certs) !! (t, serial) with
  | None => (Err (CertNotFound serial t), s)
  | Some c =>
      match c.(ic_revoked_at) with
      | Some _ => (Err (AlreadyRevoked serial), s)
      | None => (Ok tt, set_m_certs s (<[(t, serial) := revoke_at c now]> s.(m_certs)))
      end
  end.

(** In the order of the map. *)
Definition mem_list (revoked : bool) (t : string) (s : InMemoryPkiStore) : list IssuedCert :=
  map snd (filter (fun x => x.1.1 = t /\ bool_decide (is_Some x.2.(ic_revoked_at)) = revoked) (map_to_list s.(m_certs))).

#[global] Instance memory_store : PkiStore InMemoryPkiStore := {
  create_ca _ ca s := mem_create_ca ca s;
  get_ca _ t s := ok_or (s.(m_cas) !! t) (CaNotFound t);
  upsert_ca _ ca s := (Ok tt, set_m_cas s (<[ca.(ca_tenant_id) := ca]> s.(m_cas)));
  upsert_role _ r s := (Ok tt, set_m_roles s (<[(r.(rl_tenant_id), r.(rl_name)) := r]> s.(m_roles)));
  get_role _ t n s := ok_or (s.(m_roles) !! (t, n)) (RoleNotFound n t);
  delete_role _ t n s := mem_delete_role t n s;
  record_cert _ c s := (Ok tt, set_m_certs s (<[(c.(ic_tenant_id), c.(ic_serial)) := c]> s.(m_certs)));
  revoke_cert io t serial s := mem_revoke_cert io.(io_now) t serial s;
  list_active_certs _ t s := Ok (mem_list false t s);
  list_revoked_certs _ t s := Ok (mem_list true t s);
}.

(** *** In PostgreSQL *)

Record CaRow := { cr_cert_pem : string; cr_encrypted_key : string; cr_key_version : Z; cr_created_at : Z }.

Record RoleRow := {
  rr_allowed_domains : list string;
  rr_allow_subdomains : bool;
  rr_allow_bare_domains : bool;
  rr_max_ttl : Z;
  rr_key_type : string;
  rr_key_usages : list string;
  rr_allow_ip_sans : bool;
  rr_created_at : Z;
  rr_updated_at : Z;
}.

(** The rows of [pki_certs] carry the tenant's UUID. The tables refer to
    [system.tenants]. *)
Record PgPkiStore := {
  p_tenants : gset string;
  p_cas : gmap string CaRow;
  p_roles : gmap (string * string) RoleRow;
  p_certs : list IssuedCert;
}.

Definition set_p_cas (s : PgPkiStore) m :=
  {| p_tenants := s.(p_tenants); p_cas := m; p_roles := s.(p_roles); p_certs := s.(p_certs) |}.
Definition set_p_roles (s : PgPkiStore) m :=
  {| p_tenants := s.(p_tenants); p_cas := s.(p_cas); p_roles := m; p_certs := s.(p_certs) |}.
Definition set_p_certs (s : PgPkiStore) l :=
  {| p_tenants := s.(p_tenants); p_cas := s.(p_cas); p_roles := s.(p_roles); p_certs := l |}.

Definition usage_str (u : KeyUsage) : string :=
  match u with
  | ServerAuth => "server_auth" | ClientAuth => "client_auth" | CodeSigning => "code_signing"
  | EmailProtection => "email_protection" | TimeStamping => "time_stamping" | OcspSigning => "ocsp_signing"
  end.

Definition db_err (e : string) : PkiError := PVault (Database e).

(** A statement that writes: refused, done, or failed with or without its effect. *)
Definition pg_write (io : Io) (s : PgPkiStore) (stmt : result PkiError PgPkiStore) : result PkiError () * PgPkiStore :=
  match io.(io_write), stmt with
  | None, Ok s' => (Ok tt, s')
  | None, Err e => (Err e, s)
  | Some (e, true), Ok s' => (Err (db_err e), s')
  | Some (e, _), _ => (Err (db_err e), s)
  end.

Definition pg_read {A} (io : Io) (r : result PkiError A) : result PkiError A :=
  match io.(io_read) with Some e => Err (db_err e) | None => r end.

Section PgStore.
Context `{SqlText, Uuids} (sha256 : string -> string).

(** The copy of [tenant_id_to_uuid] this service has. *)
Definition pki_tenant_uuid (t : string) : string := tenant_id_to_uuid sha256 t.

Definition references_tenant (fk : string) (u : string) (s : PgPkiStore) (ok : PgPkiStore) : result PkiError PgPkiStore :=
  if bool_decide (u ∈ s.(p_tenants)) then Ok ok else Err (db_err (violation fk)).

Definition ca_row (ca : TenantCa) : CaRow :=
  {| cr_cert_pem := ca.(ca_cert_pem); cr_encrypted_key := ca.(ca_encrypted_key); cr_key_version := ca.(ca_key_version);
     cr_created_at := timestamptz ca.(ca_created_at) |}.

Definition pg_create_ca (io : Io) (ca : TenantCa) (s : PgPkiStore) : result PkiError () * PgPkiStore :=
  let u := pki_tenant_uuid ca.(ca_tenant_id) in
  pg_write io s
    (match s.(p_cas) !! u with
     | Some _ => Err (CaAlreadyExists ca.(ca_tenant_id))
     | None => references_tenant "pki_ca_tenant_id_fkey" u s (set_p_cas s (<[u := ca_row ca]> s.(p_cas)))
     end).

Definition pg_get_ca (io : Io) (t : string) (s : PgPkiStore) : result PkiError TenantCa :=
  pg_read io
    (match s.(p_cas) !! pki_tenant_uuid t with
     | None => Err (CaNotFound t)
     | Some r => Ok {| ca_tenant_id := t; ca_cert_pem := r.(cr_cert_pem); ca_encrypted_key := r.(cr_encrypted_key);
                       ca_key_version := r.(cr_key_version); ca_created_at := r.(cr_created_at) |}
     end).

Definition pg_upsert_ca (io : Io) (ca : TenantCa) (s : PgPkiStore) : result PkiError () * PgPkiStore :=
  let u := pki_tenant_uuid ca.(ca_tenant_id) in
  pg_write io s (references_tenant "pki_ca_tenant_id_fkey" u s (set_p_cas s (<[u := ca_row ca]> s.(p_cas)))).

(** A row that is there keeps when it was created; the trigger sets when it was
    updated. *)
Definition role_row (io : Io) (old : option RoleRow) (r : PkiRole) : RoleRow :=
  {| rr_allowed_domains := r.(rl_allowed_domains); rr_allow_subdomains := r.(rl_allow_subdomains);
     rr_allow_bare_domains := r.(rl_allow_bare_domains); rr_max_ttl := r.(rl_max_ttl);
     rr_key_type := key_type_str r.(rl_key_type); rr_key_usages := map usage_str r.(rl_key_usages);
     rr_allow_ip_sans := r.(rl_allow_ip_sans);
     rr_created_at := match old with Some o => o.(rr_created_at) | None => timestamptz r.(rl_created_at) end;
     rr_updated_at := match old with Some _ => timestamptz io.(io_db_now) | None => timestamptz r.(rl_updated_at) end |}.

Definition pg_upsert_role (io : Io) (r : PkiRole) (s : PgPkiStore) : result PkiError () * PgPkiStore :=
  let k := (pki_tenant_uuid r.(rl_tenant_id), r.(rl_name)) in
  pg_write io s
    (references_tenant "pki_roles_tenant_id_fkey" k.1 s
       (set_p_roles s (<[k := role_row io (s.(p_roles) !! k) r]> s.(p_roles)))).

Definition role_of_row (t n : string) (r : RoleRow) : PkiRole :=
  {| rl_tenant_id := t; rl_name := n; rl_allowed_domains := r.(rr_allowed_domains);
     rl_allow_subdomains := r.(rr_allow_subdomains); rl_allow_bare_domains := r.(rr_allow_bare_domains);
     rl_max_ttl := r.(rr_max_ttl); rl_key_type := default EcdsaP256 (result_ok (key_type_of_str r.(rr_key_type)));
     rl_key_usages := default [] (mapM usage_of_str r.(rr_key_usages)); rl_allow_ip_sans := r.(rr_allow_ip_sans);
     rl_created_at := r.(rr_created_at); rl_updated_at := r.(rr_updated_at) |}.

Definition pg_get_role (io : Io) (t n : string) (s : PgPkiStore) : result PkiError PkiRole :=
  pg_read io
    (match s.(p_roles) !! (pki_tenant_uuid t, n) with
     | None => Err (RoleNotFound n t)
     | Some r => Ok (role_of_row t n r)
     end).

Definition pg_delete_role (io : Io) (t n : string) (s : PgPkiStore) : result PkiError () * PgPkiStore :=
  pg_write io s
    (match s.(p_roles) !! (pki_tenant_uuid t, n) with
     | None => Err (RoleNotFound n t)
     | Some _ => Ok (set_p_roles s (delete (pki_tenant_uuid t, n) s.(p_roles)))
     end).

Definition of_serial (u serial : string) (c : IssuedCert) : Prop := c.(ic_tenant_id) = u /\ c.(ic_serial) = serial.
#[global] Instance of_serial_dec u serial c : Decision (of_serial u serial c).
Proof. unfold of_serial. apply _. Defined.

Definition cert_row (io : Io) (c : IssuedCert) : IssuedCert :=
  {| ic_id := default io.(io_id) (result_ok (uuid_parse c.(ic_id))); ic_tenant_id := pki_tenant_uuid c.(ic_tenant_id);
     ic_role_name := c.(ic_role_name); ic_serial := c.(ic_serial); ic_common_name := c.(ic_common_name);
     ic_not_after := timestamptz c.(ic_not_after); ic_revoked_at := timestamptz <$> c.(ic_revoked_at);
     ic_created_at := timestamptz c.(ic_created_at) |}.

(** [ON CONFLICT (tenant_id, serial) DO NOTHING]; another row of the same id is an
    error. *)
Definition pg_record_cert (io : Io) (c : IssuedCert) (s : PgPkiStore) : result PkiError () * PgPkiStore :=
  let row := cert_row io c in
  pg_write io s
    (if decide (Exists (of_serial row.(ic_tenant_id) row.(ic_serial)) s.(p_certs)) then Ok s
     else if decide (row.(ic_id) ∈ map ic_id s.(p_certs)) then Err (db_err (violation "pki_certs_pkey"))
     else references_tenant "pki_certs_tenant_id_fkey" row.(ic_tenant_id) s (set_p_certs s (row :: s.(p_certs)))).

(** Two statements. *)
Definition pg_revoke_cert (io : Io) (t serial : string) (s : PgPkiStore) : result PkiError () * PgPkiStore :=
  let u := pki_tenant_uuid t in
  match pg_read io (ok_or (head (filter (of_serial u serial) s.(p_certs))) (CertNotFound serial t)) with
  | Err e => (Err e, s)
  | Ok c =>
      match c.(ic_revoked_at) with
      | Some _ => (Err (AlreadyRevoked serial), s)
      | None =>
          pg_write io s
            (Ok (set_p_certs s (map (fun c => if decide (of_serial u serial c)
                                              then revoke_at c (timestamptz io.(io_now)) else c) s.(p_certs))))
      end
  end.

(** The newest first. *)
Definition cert_of_row (t : string) (c : IssuedCert) : IssuedCert :=
  {| ic_id := c.(ic_id); ic_tenant_id := t; ic_role_name := c.(ic_role_name); ic_serial := c.(ic_serial);
     ic_common_name := c.(ic_common_name); ic_not_after := c.(ic_not_after); ic_revoked_at := c.(ic_revoked_at);
     ic_created_at := c.(ic_created_at) |}.

Definition pg_list (key : IssuedCert -> Z) (revoked : bool) (io : Io) (t : string) (s : PgPkiStore) :
    result PkiError (list IssuedCert) :=
  pg_read io
    (Ok (map (cert_of_row t)
           (order_by (fun a b => key b <=? key a)
              (filter (fun c => c.(ic_tenant_id) = pki_tenant_uuid t /\ bool_decide (is_Some c.(ic_revoked_at)) = revoked)
                 s.(p_certs))))).

#[global] Instance pg_store : PkiStore PgPkiStore := {
  create_ca := pg_create_ca;
  get_ca := pg_get_ca;
  upsert_ca := pg_upsert_ca;
  upsert_role := pg_upsert_role;
  get_role := pg_get_role;
  delete_role := pg_delete_role;
  record_cert := pg_record_cert;
  revoke_cert := pg_revoke_cert;
  list_active_certs := pg_list ic_created_at false;
  list_revoked_certs := pg_list (fun c => default 0 c.(ic_revoked_at)) true;
}.

End PgStore.

(** ** http.rs *)

Record UpsertRoleRequest := {
  ur_allowed_domains : list string;
  ur_allow_subdomains : bool;
  ur_allow_bare_domains : bool;
  ur_max_ttl : option Z;
  ur_key_type : option string;
  ur_key_usages : list string;
  ur_allow_ip_sans : bool;
}.

Record RoleResponse := {
  rs_name : string;
  rs_allowed_domains : list string;
  rs_allow_subdomains : bool;
  rs_allow_bare_domains : bool;
  rs_max_ttl : Z;
  rs_key_type : string;
  rs_allow_ip_sans : bool;
}.

Definition role_response (r : PkiRole) : RoleResponse :=
  {| rs_name := r.(rl_name); rs_allowed_domains := r.(rl_allowed_domains); rs_allow_subdomains := r.(rl_allow_subdomains);
     rs_allow_bare_domains := r.(rl_allow_bare_domains); rs_max_ttl := r.(rl_max_ttl);
     rs_key_type := key_type_str r.(rl_key_type); rs_allow_ip_sans := r.(rl_allow_ip_sans) |}.

Record IssueRequest := {
  iq_common_name : string;
  iq_alt_names : list string;
  iq_ip_sans : list string;
  iq_ttl : option Z;
}.

Inductive PkiRequest :=
| GenerateCa (common_name : string) (ttl : option Z) (key_type : option string)
| GetCa
| ImportCa (cert_pem key_pem : string)
| UpsertRole (name : string) (body : UpsertRoleRequest)
| GetRole (name : string)
| DeleteRole (name : string)
| Issue (role_name : string) (body : IssueRequest)
| SignCsr (role_name csr : string) (ttl : option Z)
| Revoke (serial : string)
| Crl.

Inductive PkiBody :=
| PBError (error : string)
| PBGenerated (cert_pem serial : string)
| PBCa (cert_pem : string)
| PBRole (r : RoleResponse)
| PBDeleted
| PBIssued (certificate private_key ca_chain serial expiration : string)
| PBSigned (certificate ca_chain serial expiration : string)
| PBRevoked (revocation_time : string)
| PBCrl (pem : string)
| PBRefused (error message : string).

Definition PkiReply : Type := Z * PkiBody.

(** What a request draws: for the certificate, the nonce that wraps a CA key, the
    clock, the id of a record, and what its calls of the store draw. *)
Record Turn := {
  t_draw : Draw;
  t_nonce : option string;
  t_now : Z;
  t_cert_id : string;
  t_ca : Io;
  t_role : Io;
  t_write : Io;
}.

Definition parse_key_type (k : option string) : KeyType :=
  default EcdsaP256 (result_ok (key_type_of_str (default "ecdsa-p256" k))).

Section Handlers.
Context {St : Type} `{!PkiStore St, PkiLibs, Primitives} (debug_str : string -> string) (kek : RootKek).

Definition pki_error_response (e : PkiError) : PkiReply :=
  (if bool_decide (pki_http_status e ∈ [400; 404; 409]) then pki_http_status e else 500, PBError (pki_display debug_str e)).

Definition extract_tenant_id (headers : HeaderMap) : result PkiReply string :=
  ok_or (headers !! "x-tenant-id" ≫= to_str) (400, PBError "missing X-Tenant-Id header").

(** The answer of the blocking pool. *)
Definition joined {A} (what : string) (m : Blocking A) : result PkiError A :=
  match m with Some r => r | None => Err (CertGenerationFailed (what +:+ panic_text)) end.

Definition extract_cn_from_cert_pem (cert : string) : string :=
  match pem_parse cert with
  | Err _ => ""
  | Ok der => from_option first_common_name "" (cert_common_names der)
  end.

(** A reply or the error's. *)
Definition answer {A} (r : result PkiError A) (k : A -> PkiReply) : PkiReply :=
  match r with Ok a => k a | Err e => pki_error_response e end.

Definition generate_ca_handler (t : Turn) (tenant common_name : string) (ttl : option Z) (key_type : option string) (s : St) :
    PkiReply * St :=
  match joined "spawn_blocking panic: "
          (generate_ca t.(t_draw) common_name (default 94608000 ttl) (parse_key_type key_type)) with
  | Err e => (pki_error_response e, s)
  | Ok out =>
      match encrypt_ca_key debug_str t.(t_nonce) kek tenant out.(co_key_pem) with
      | Err e => (pki_error_response e, s)
      | Ok encrypted =>
          let '(r, s) := create_ca t.(t_write)
            {| ca_tenant_id := tenant; ca_cert_pem := out.(co_cert_pem); ca_encrypted_key := encrypted;
               ca_key_version := kek.(rk_version); ca_created_at := t.(t_now) |} s in
          (answer r (fun _ => (201, PBGenerated out.(co_cert_pem) out.(co_serial))), s)
      end
  end.

Definition get_ca_handler (t : Turn) (tenant : string) (s : St) : PkiReply :=
  answer (get_ca t.(t_ca) tenant s) (fun ca => (200, PBCa ca.(ca_cert_pem))).

Definition import_ca_handler (t : Turn) (tenant cert_pem key_pem : string) (s : St) : PkiReply * St :=
  if is_ok (pem_parse cert_pem) then
    match encrypt_ca_key debug_str t.(t_nonce) kek tenant key_pem with
    | Err e => (pki_error_response e, s)
    | Ok encrypted =>
        let '(r, s) := upsert_ca t.(t_write)
          {| ca_tenant_id := tenant; ca_cert_pem := cert_pem; ca_encrypted_key := encrypted;
             ca_key_version := kek.(rk_version); ca_created_at := t.(t_now) |} s in
        (answer r (fun _ => (200, PBCa cert_pem)), s)
    end
  else (pki_error_response (InvalidCsr "cert_pem is not valid PEM"), s).

Definition requested_role (t : Turn) (tenant name : string) (body : UpsertRoleRequest) : PkiRole :=
  {| rl_tenant_id := tenant; rl_name := name; rl_allowed_domains := body.(ur_allowed_domains);
     rl_allow_subdomains := body.(ur_allow_subdomains); rl_allow_bare_domains := body.(ur_allow_bare_domains);
     rl_max_ttl := default 86400 body.(ur_max_ttl); rl_key_type := parse_key_type body.(ur_key_type);
     rl_key_usages := omap usage_of_str body.(ur_key_usages); rl_allow_ip_sans := body.(ur_allow_ip_sans);
     rl_created_at := t.(t_now); rl_updated_at := t.(t_now) |}.

Definition upsert_role_handler (t : Turn) (tenant name : string) (body : UpsertRoleRequest) (s : St) : PkiReply * St :=
  let role := requested_role t tenant name body in
  let '(r, s) := upsert_role t.(t_write) role s in
  (answer r (fun _ => (200, PBRole (role_response role))), s).

Definition get_role_handler (t : Turn) (tenant name : string) (s : St) : PkiReply :=
  answer (get_role t.(t_role) tenant name s) (fun role => (200, PBRole (role_response role))).

Definition delete_role_handler (t : Turn) (tenant name : string) (s : St) : PkiReply * St :=
  let '(r, s) := delete_role t.(t_write) tenant name s in
  (answer r (fun _ => (204, PBDeleted)), s).

(** The CA's key as text. *)
Definition ca_key_text (tenant encrypted : string) : result PkiError string :=
  bytes ← decrypt_ca_key debug_str kek tenant encrypted;
  if Str.utf8_valid bytes then Ok bytes else Err (KeyEncryptionError "CA key is not valid UTF-8").

(** A certificate as recorded; when that fails, the answer is the same. *)
Definition record_issued (t : Turn) (tenant role_name common_name : string) (out : IssueOutput) (s : St) : St :=
  (record_cert t.(t_write)
     {| ic_id := t.(t_cert_id); ic_tenant_id := tenant; ic_role_name := role_name; ic_serial := out.(io_serial);
        ic_common_name := common_name; ic_not_after := out.(io_not_after); ic_revoked_at := None;
        ic_created_at := t.(t_now) |} s).2.

(** The CA, the role and the CA's key, in the order their errors are answered. *)
Definition signer (t : Turn) (tenant role_name : string) (s : St) : result PkiError (TenantCa * PkiRole * string) :=
  ca ← get_ca t.(t_ca) tenant s;
  role ← get_role t.(t_role) tenant role_name s;
  key ← ca_key_text tenant ca.(ca_encrypted_key);
  Ok (ca, role, key).

Definition issued (t : Turn) (tenant role_name : string) (body : IssueRequest) (s : St) : result PkiError IssueOutput :=
  '(ca, role, key) ← signer t tenant role_name s;
  joined "spawn_blocking panic: "
    (issue_leaf t.(t_draw) ca.(ca_cert_pem) key role body.(iq_common_name) body.(iq_alt_names)
       (omap ip_parse body.(iq_ip_sans)) (default 0 body.(iq_ttl))).

Definition issue_handler (t : Turn) (tenant role_name : string) (body : IssueRequest) (s : St) : PkiReply * St :=
  match issued t tenant role_name body s with
  | Err e => (pki_error_response e, s)
  | Ok out =>
      ((200, PBIssued out.(io_cert_pem) out.(io_private_key) out.(io_ca_chain) out.(io_serial)
               (show_time out.(io_not_after))),
       record_issued t tenant role_name body.(iq_common_name) out s)
  end.

Definition signed (t : Turn) (tenant role_name csr : string) (ttl : option Z) (s : St) : result PkiError IssueOutput :=
  '(ca, role, key) ← signer t tenant role_name s;
  joined "spawn_blocking panic: " (sign_csr t.(t_draw) ca.(ca_cert_pem) key role csr (default 0 ttl)).

Definition sign_csr_handler (t : Turn) (tenant role_name csr : string) (ttl : option Z) (s : St) : PkiReply * St :=
  match signed t tenant role_name csr ttl s with
  | Err e => (pki_error_response e, s)
  | Ok out =>
      ((200, PBSigned out.(io_cert_pem) out.(io_ca_chain) out.(io_serial) (show_time out.(io_not_after))),
       record_issued t tenant role_name (extract_cn_from_cert_pem out.(io_cert_pem)) out s)
  end.

Definition revoke_handler (t : Turn) (tenant serial : string) (s : St) : PkiReply * St :=
  let '(r, s) := revoke_cert t.(t_write) tenant serial s in
  (answer r (fun _ => (200, PBRevoked (show_time t.(t_now)))), s).

Definition revoked_entries (l : list IssuedCert) : list (string * Z) :=
  omap (fun c => (fun at_ => (c.(ic_serial), at_)) <$> c.(ic_revoked_at)) l.

Definition crl (t : Turn) (tenant : string) (s : St) : result PkiError string :=
  ca ← get_ca t.(t_ca) tenant s;
  revoked ← list_revoked_certs t.(t_role) tenant s;
  key ← ca_key_text tenant ca.(ca_encrypted_key);
  joined "CRL generation panic: "
    (build_crl_pem t.(t_draw).(dw_now) ca.(ca_cert_pem) key (revoked_entries revoked)).

Definition crl_handler (t : Turn) (tenant : string) (s : St) : PkiReply :=
  answer (crl t tenant s) (fun pem => (200, PBCrl pem)).

(** The router of [main.rs] behind the gateway check. *)
Definition route (t : Turn) (tenant : string) (req : PkiRequest) (s : St) : PkiReply * St :=
  match req with
  | GenerateCa cn ttl k => generate_ca_handler t tenant cn ttl k s
  | GetCa => (get_ca_handler t tenant s, s)
  | ImportCa cert key => import_ca_handler t tenant cert key s
  | UpsertRole n body => upsert_role_handler t tenant n body s
  | GetRole n => (get_role_handler t tenant n s, s)
  | DeleteRole n => delete_role_handler t tenant n s
  | Issue n body => issue_handler t tenant n body s
  | SignCsr n csr ttl => sign_csr_handler t tenant n csr ttl s
  | Revoke serial => revoke_handler t tenant serial s
  | Crl => (crl_handler t tenant s, s)
  end.

Definition serve_pki (gw : option string) (t : Turn) (headers : HeaderMap) (req : PkiRequest) (s : St) : PkiReply * St :=
  if is_authorized (gateway_expected gw) (headers !! "x-gateway-auth") then
    match extract_tenant_id headers with
    | Err reply => (reply, s)
    | Ok tenant => route t tenant req s
    end
  else ((401, PBRefused "gateway_auth_required" "request must originate from the WSLVault gateway"), s).

End Handlers.

(** ** Names a role permits *)

(** A name under one entry of the role, both in lower case: the entry itself, a name
    below it, or one label in place of the entry's star. *)
Inductive permits (role : PkiRole) (name entry : string) : Prop :=
| permits_bare : role.(rl_allow_bare_domains) = true -> name = entry -> permits role name entry
| permits_below p : role.(rl_allow_subdomains) = true -> name = p +:+ "." +:+ entry -> permits role name entry
| permits_star label rest : entry = "*." +:+ rest -> name = label +:+ "." +:+ rest -> Str.mem "." label = false ->
    permits role name entry.

Definition permitted (to_lowercase : string -> string) (role : PkiRole) (name : string) : Prop :=
  exists entry, entry ∈ role.(rl_allowed_domains) /\ permits role (to_lowercase name) (to_lowercase entry).

Lemma strip_suffix_Some p s q : strip_suffix p s = Some q <-> s = q +:+ p.
Proof.
  unfold strip_suffix. rewrite fmap_Some. setoid_rewrite Str.strip_prefix_Some. split.
  - intros (r & Hr & ->). by rewrite <- (Str.rev_involutive s), Hr, Str.rev_app, Str.rev_involutive.
  - intros ->. exists (Str.rev q). by rewrite Str.rev_app, Str.rev_involutive.
Qed.

Lemma ends_with_true p s : ends_with p s = true <-> exists q, s = q +:+ p.
Proof. unfold ends_with, is_Some. rewrite bool_decide_eq_true. by setoid_rewrite strip_suffix_Some. Qed.

Lemma wildcard_correct name entry :
  match Str.strip_prefix "*" entry with
  | Some suffix =>
      Str.starts_with "." suffix &&
      match strip_suffix suffix name with Some label => negb (Str.mem "." label) | None => false end
  | None => false
  end = true <->
  exists label rest, entry = "*." +:+ rest /\ name = label +:+ "." +:+ rest /\ Str.mem "." label = false.
Proof.
  split.
  - destruct (Str.strip_prefix "*" entry) as [suffix|] eqn:Hs; [|done]. apply Str.strip_prefix_Some in Hs as ->.
    rewrite andb_true_iff, Str.starts_with_true. intros [[rest ->] Hl].
    destruct (strip_suffix _ name) as [label|] eqn:Hn; [|done]. apply strip_suffix_Some in Hn as ->.
    exists label, rest. by rewrite negb_true_iff in Hl.
  - intros (label & rest & -> & -> & Hl).
    assert (Str.strip_prefix "*" ("*." +:+ rest) = Some ("." +:+ rest)) as -> by done.
    assert (strip_suffix ("." +:+ rest) (label +:+ "." +:+ rest) = Some label) as -> by by apply strip_suffix_Some.
    rewrite Hl, andb_true_r. apply Str.starts_with_true. by exists rest.
Qed.

Lemma domain_matches_correct role name entry : domain_matches role name entry = true <-> permits role name entry.
Proof.
  unfold domain_matches. rewrite !orb_true_iff, !andb_true_iff, bool_decide_eq_true, ends_with_true, wildcard_correct.
  split.
  - intros [[[Hb ->]|(Hs & p & Hp)]|(l & r & ? & ? & ?)]; [by apply permits_bare|by eapply permits_below|by eapply permits_star].
  - intros [Hb ->|p Hs Hp|l r ? ? ?]; [by left; left|by left; right; eauto|by right; eauto].
Qed.

(** The check of a name decides the role's rule: it passes exactly when some entry
    permits the name without regard to case, and otherwise refuses the name. *)
Theorem check_domain_correct to_lowercase role name :
  (check_domain_allowed to_lowercase role name = Ok tt <-> permitted to_lowercase role name) /\
  forall e, check_domain_allowed to_lowercase role name = Err e -> pki_http_status e = 400.
Proof.
  unfold check_domain_allowed, permitted. split; [|by intros e; destruct (existsb _ _); [|intros [= <-]]].
  rewrite <- (Exists_exists (fun d => permits role (to_lowercase name) (to_lowercase d))).
  setoid_rewrite <- domain_matches_correct.
  destruct (existsb _ _) eqn:He.
  - split; [intros _|done]. apply existsb_exists in He as (d & Hd & Hm). apply Exists_exists.
    exists d. by rewrite list_elem_of_In.
  - split; [done|]. intros (d & Hd & Hm)%Exists_exists. exfalso. rewrite <- not_true_iff_false, existsb_exists in He.
    apply He. exists d. by rewrite <- list_elem_of_In.
Qed.

(** ** Serial numbers *)

Definition is_byte (b : Z) : Prop := 0 <= b < 256.

Lemma hex_digit_char n : 0 <= n < 16 -> hex_digit (hex_char n) = Some n.
Proof.
  intros Hn. replace n with (Z.of_nat (Z.to_nat n)) by lia. assert (Z.to_nat n < 16)%nat as Hlt by lia.
  revert Hlt. generalize (Z.to_nat n). clear n Hn. intros n Hn. do 16 (destruct n as [|n]; [done|]). lia.
Qed.

Lemma hex_round_trip l : Forall is_byte l -> hex_decode (hex_text l) = Some l.
Proof.
  induction 1 as [|b l Hb _ IH]; [done|]. unfold is_byte in Hb.
  change (hex_text (b :: l)) with (String (hex_char (Z.shiftr b 4)) (String (hex_char (Z.land b 15)) (hex_text l))).
  cbn [hex_decode].
  assert (Z.land b 15 = b mod 16) as -> by (change 15 with (Z.ones 4); by rewrite Z.land_ones).
  assert (Z.shiftr b 4 = b / 16) as -> by by rewrite Z.shiftr_div_pow2.
  rewrite !hex_digit_char by (Z.to_euclidean_division_equations; lia). rewrite IH. cbn [mbind option_bind].
  do 2 f_equal. pose proof (Z.div_mod b 16). lia.
Qed.

(** ** Issuance *)

(** [chrono]'s addition, where it does not panic. *)
Class PkiLaws `{PkiLibs} : Prop :=
  add_seconds_exact : forall t n u, add_seconds t n = Some u -> u = t + n * NANOS.

Lemma and_then_ok {A B} (m : Blocking A) (f : A -> Blocking B) b :
  and_then m f = Some (Ok b) <-> exists a, m = Some (Ok a) /\ f a = Some (Ok b).
Proof. destruct m as [[a|e]|]; cbn; naive_solver. Qed.

Lemma failing_ok {A} prefix (r : result string A) a : failing prefix r = Some (Ok a) <-> r = Ok a.
Proof. unfold failing. destruct r; naive_solver. Qed.

Lemma invalid_ok {A} prefix (r : result string A) a : invalid prefix r = Some (Ok a) <-> r = Ok a.
Proof. unfold invalid. destruct r; naive_solver. Qed.

(** Takes a successful computation on the blocking pool apart, step by step. *)
Ltac split_blocking H :=
  repeat (let a := fresh "x" in let Ha := fresh "Hx" in apply and_then_ok in H as (a & Ha & H)).

Section Issuance.
Context `{PkiLaws}.

Definition san_permitted (role : PkiRole) (s : San) : Prop :=
  match s with
  | DnsName n => permitted to_lowercase role n
  | IpAddress _ => role.(rl_allow_ip_sans) = true
  | OtherName _ => False
  end.

Record within_role (role : PkiRole) (p : CertParams) : Prop := {
  wr_leaf : p.(cp_is_ca) = false;
  wr_name : permitted to_lowercase role p.(cp_common_name);
  wr_sans : Forall (san_permitted role) p.(cp_sans);
  wr_lifetime : p.(cp_not_after) - p.(cp_not_before) <= role.(rl_max_ttl);
  wr_usages : p.(cp_extended_usages) = role.(rl_key_usages);
}.

Lemma checked_name role name u : check_domain_allowed to_lowercase role name = Ok u -> permitted to_lowercase role name.
Proof.
  destruct u. intros Hc. unfold check_domain_allowed in Hc. destruct (existsb _ _) eqn:He; [|done].
  apply existsb_exists in He as (d & Hd & Hm). exists d. rewrite list_elem_of_In. split; [done|].
  by apply domain_matches_correct.
Qed.

Lemma checked_names role names u : check_all role names = Ok u -> Forall (permitted to_lowercase role) names.
Proof.
  induction names as [|n names IH]; cbn; [constructor|].
  destruct (check_domain_allowed _ _ _) eqn:Hc; [|done]. intros Hr. constructor; [by eapply checked_name|by apply IH].
Qed.

Lemma dns_sans_are names l : dns_sans names = Ok l -> l = map DnsName names.
Proof.
  revert l. induction names as [|n names IH]; cbn [dns_sans]; intros l; [by intros [= <-]|].
  unfold dns_san. destruct (dns_name_ok n); [|done]. cbn [mbind result_bind].
  destruct (dns_sans names) as [k|]; [|done]. cbn [mbind result_bind]. intros [= <-]. by rewrite (IH k).
Qed.

Lemma lifetime_exact now ttl na_ nb na :
  time_after now ttl = Some (Ok na_) -> rcgen_time now = Some (Ok nb) -> rcgen_time na_ = Some (Ok na) -> na - nb = ttl.
Proof.
  unfold time_after, rcgen_time. destruct (add_seconds now ttl) as [u|] eqn:Hu; [|done]. intros [= <-].
  apply add_seconds_exact in Hu as ->.
  destruct (unix_ok (now / NANOS)); [|done]. destruct (unix_ok _); [|done]. intros [= <-] [= <-].
  rewrite Z.div_add by done. lia.
Qed.

Lemma effective_ttl_le role ttl : effective_ttl role ttl <= role.(rl_max_ttl).
Proof. unfold effective_ttl. destruct (_ && _) eqn:Hb; [|done]. rewrite andb_true_iff, Z.ltb_lt, Z.ltb_lt in Hb. lia. Qed.

Lemma issue_leaf_ok d ca_cert ca_key role cn names ips ttl out :
  issue_leaf d ca_cert ca_key role cn names ips ttl = Some (Ok out) ->
  exists p ca, within_role role p /\ p.(cp_common_name) = cn /\
    p.(cp_sans) = map DnsName (cn :: names) ++ map IpAddress ips /\
    issuer "failed to parse CA private key: " "failed to parse CA cert: "
      "failed to reconstruct CA cert for signing: " ca_cert ca_key = Some (Ok ca) /\
    sign_leaf p out.(io_private_key) ca.1 ca.2 = Ok out.(io_cert_pem) /\
    out.(io_ca_chain) = ca_cert /\ hex_decode out.(io_serial) = Some p.(cp_serial).
Proof.
  unfold issue_leaf. intros Hi. split_blocking Hi. simplify_eq/=.
  apply failing_ok in Hx11. unfold dns_san in Hx8. destruct (dns_name_ok cn); simplify_eq/=.
  apply dns_sans_are in Hx9 as ->. apply checked_names in Hx0. apply checked_name in Hx.
  unfold serial_bytes in Hx4. destruct (hex_decode x3) as [b|] eqn:Hb; simplify_eq/=.
  match type of Hx11 with sign_leaf ?p _ _ _ = _ => exists p, x10 end. split_and!; [|done..].
  split; cbn; [done|done| |rewrite (lifetime_exact _ _ _ _ _ Hx5 Hx6 Hx7); apply effective_ttl_le|done].
  constructor; [done|]. apply Forall_app. split; apply Forall_fmap; [by eapply Forall_impl|].
  apply Forall_forall. intros i Hin. cbn.
  destruct (rl_allow_ip_sans role); [done|]. by destruct ips as [|? ?]; [set_solver|].
Qed.
(** ** Requests for signing *)

(** Names of a request that are neither domains nor addresses pass. *)
Definition csr_san_ok (role : PkiRole) (s : San) : Prop :=
  match s with OtherName _ => True | _ => san_permitted role s end.

Lemma check_sans_ok role l u : check_sans role l = Ok u -> Forall (csr_san_ok role) l.
Proof.
  induction l as [|[n|a|o] l IH]; cbn [check_sans]; [constructor|..].
  - destruct (check_domain_allowed _ _ _) eqn:Hc; [|done]. intros Hr. constructor; [by eapply checked_name|by apply IH].
  - destruct (rl_allow_ip_sans role) eqn:Hip; [|done]. intros Hr. constructor; [done|by apply IH].
  - intros Hr. constructor; [done|by apply IH].
Qed.

Lemma check_cn_ok role cn u : check_cn role cn = Ok u -> cn = "" \/ permitted to_lowercase role cn.
Proof.
  unfold check_cn, Str.is_empty. case_bool_decide; [by left|]. intros Hc. right. by eapply checked_name.
Qed.

(** The two parsers read the same names: what [rcgen] will sign [x509-parser] saw. *)
Definition read_alike (view : CsrView) (params : CertParams) : Prop :=
  params.(cp_common_name) = first_common_name view.(cv_common_names) /\
  forall s, s ∈ params.(cp_sans) -> s ∈ view.(cv_sans).

(** What a role bounds in a signed request: no CA, a bounded lifetime, and, where
    the two parsers read the request alike, permitted domains and addresses. The
    names and the usages are those of the request. *)
Record request_within (role : PkiRole) (view : CsrView) (params p : CertParams) : Prop := {
  rw_leaf : p.(cp_is_ca) = false;
  rw_lifetime : p.(cp_not_after) - p.(cp_not_before) <= role.(rl_max_ttl);
  rw_same_name : p.(cp_common_name) = params.(cp_common_name);
  rw_same_sans : p.(cp_sans) = params.(cp_sans);
  rw_same_usages : p.(cp_extended_usages) = params.(cp_extended_usages);
  rw_name : read_alike view params -> p.(cp_common_name) = "" \/ permitted to_lowercase role p.(cp_common_name);
  rw_sans : read_alike view params -> Forall (csr_san_ok role) p.(cp_sans);
}.

Lemma sign_csr_ok d ca_cert ca_key role csr ttl out :
  sign_csr d ca_cert ca_key role csr ttl = Some (Ok out) ->
  exists der view params p ca,
    pem_parse csr = Ok der /\ csr_view der = Ok view /\ is_ok (csr_verified der) = true /\ csr_params csr = Ok params /\
    request_within role view params p /\
    issuer "failed to parse CA private key: " "failed to parse CA cert: " "failed to reconstruct CA cert: "
      ca_cert ca_key = Some (Ok ca) /\
    sign_request csr p ca.1 ca.2 = Ok out.(io_cert_pem) /\
    out.(io_ca_chain) = ca_cert /\ hex_decode out.(io_serial) = Some p.(cp_serial).
Proof.
  unfold sign_csr. intros Hi. split_blocking Hi. simplify_eq/=.
  apply failing_ok in Hx9. apply invalid_ok in Hx3. unfold parse_and_validate_csr in Hx. split_blocking Hx. simplify_eq/=.
  apply invalid_ok in Hx10, Hx11, Hx12. apply check_cn_ok in Hx13. apply check_sans_ok in Hx14.
  unfold serial_bytes in Hx1. destruct (hex_decode x0) as [b|] eqn:Hb; simplify_eq/=.
  match type of Hx9 with sign_request _ ?p _ _ = _ => exists x10, x11, x3, p, x8 end.
  rewrite Hx12. split_and!; try done.
  split; cbn; [done|rewrite (lifetime_exact _ _ _ _ _ Hx2 Hx4 Hx5); apply effective_ttl_le|done..|by intros [-> _]|].
  intros [_ Hsans]. apply Forall_forall. intros s Hs. rewrite Forall_forall in Hx14. by apply Hx14, Hsans.
Qed.

End Issuance.

(** ** What is answered *)

Section Served.
Context `{PkiLaws, Primitives} {St : Type} `{!PkiStore St} (debug_str : string -> string) (kek : RootKek).

Lemma joined_ok {A} what (m : Blocking A) a : joined what m = Ok a -> m = Some (Ok a).
Proof. unfold joined. destruct m as [[a'|e]|]; [by intros [= ->]|done|done]. Qed.

Lemma served gw t headers req s (r : PkiReply) s' :
  serve_pki debug_str kek gw t headers req s = (r, s') -> r.1 <> 400 -> r.1 <> 401 ->
  exists tenant, headers !! "x-tenant-id" ≫= to_str = Some tenant /\ route debug_str kek t tenant req s = (r, s').
Proof.
  unfold serve_pki, extract_tenant_id. destruct (is_authorized _ _); [|by intros [= <- <-]].
  destruct (headers !! "x-tenant-id" ≫= to_str) as [tenant|]; cbn [ok_or]; [eauto|by intros [= <- <-]].
Qed.

Lemma error_reply_not_ok e : (pki_error_response debug_str e).1 <> 200 /\ (pki_error_response debug_str e).1 <> 201.
Proof.
  cbn. case_bool_decide as He; [|done]. apply elem_of_cons in He as [->|He]; [done|].
  apply elem_of_cons in He as [->|He]; [done|]. apply list_elem_of_singleton in He as ->. done.
Qed.

Lemma answer_ok {A} (r : result PkiError A) k code b :
  code = 200 \/ code = 201 -> answer debug_str r k = (code, b) -> exists a, r = Ok a /\ k a = (code, b).
Proof.
  intros Hc. destruct r as [a|e]; cbn [answer]; [eauto|]. intros Hr. exfalso.
  pose proof (error_reply_not_ok e) as [H2 H3]. rewrite Hr in H2, H3. cbn in H2, H3. lia.
Qed.

Lemma signer_ok t tenant n s ca role key :
  signer debug_str kek t tenant n s = Ok (ca, role, key) ->
  get_ca t.(t_ca) tenant s = Ok ca /\ get_role t.(t_role) tenant n s = Ok role /\
  ca_key_text debug_str kek tenant ca.(ca_encrypted_key) = Ok key.
Proof.
  unfold signer. intros (ca' & Hca & (role' & Hrole & (key' & Hkey & [= <- <- <-])%result_bind_ok)%result_bind_ok)%result_bind_ok.
  done.
Qed.

(** The tenant's CA, the role named, and the CA's certificate and key as the
    signing library reads them from the store. *)
Definition signs_for (t : Turn) (tenant n : string) (s : St) (ca : TenantCa) (role : PkiRole) (ik : string * string) : Prop :=
  get_ca t.(t_ca) tenant s = Ok ca /\ get_role t.(t_role) tenant n s = Ok role /\
  exists key what1 what2 what3, ca_key_text debug_str kek tenant ca.(ca_encrypted_key) = Ok key /\
    issuer what1 what2 what3 ca.(ca_cert_pem) key = Some (Ok ik).

Lemma issue_request_within_role t tenant n rq s code cert key chain serial expiration s' :
  route debug_str kek t tenant (Issue n rq) s = ((code, PBIssued cert key chain serial expiration), s') ->
  exists ca role p ik,
    signs_for t tenant n s ca role ik /\ within_role role p /\ p.(cp_common_name) = rq.(iq_common_name) /\
    p.(cp_sans) = map DnsName (rq.(iq_common_name) :: rq.(iq_alt_names)) ++ map IpAddress (omap ip_parse rq.(iq_ip_sans)) /\
    sign_leaf p key ik.1 ik.2 = Ok cert /\ chain = ca.(ca_cert_pem) /\ hex_decode serial = Some p.(cp_serial).
Proof.
  cbn [route]. unfold issue_handler. destruct (issued _ _ _ _ _ _ _) as [out|e] eqn:Hi; [|by intros [=]].
  intros [= _ <- <- <- <- _ _]. apply result_bind_ok in Hi as ([[ca role] k] & Hs & Hj).
  apply signer_ok in Hs as (Hca & Hrole & Hk).
  apply joined_ok, issue_leaf_ok in Hj as (p & ik & Hw & Hcn & Hsan & Hik & Hsig & Hch & Hser).
  exists ca, role, p, ik. split_and!; try done. by split_and!; eauto 10.
Qed.

Lemma signed_request_within_role t tenant n csr ttl s code cert chain serial expiration s' :
  route debug_str kek t tenant (SignCsr n csr ttl) s = ((code, PBSigned cert chain serial expiration), s') ->
  exists ca role der view params p ik,
    signs_for t tenant n s ca role ik /\
    pem_parse csr = Ok der /\ csr_view der = Ok view /\ is_ok (csr_verified der) = true /\ csr_params csr = Ok params /\
    request_within role view params p /\
    sign_request csr p ik.1 ik.2 = Ok cert /\ chain = ca.(ca_cert_pem) /\ hex_decode serial = Some p.(cp_serial).
Proof.
  cbn [route]. unfold sign_csr_handler. destruct (signed _ _ _ _ _ _ _ _) as [out|e] eqn:Hi; [|by intros [=]].
  intros [= _ <- <- <- _ _]. apply result_bind_ok in Hi as ([[ca role] k] & Hs & Hj).
  apply signer_ok in Hs as (Hca & Hrole & Hk).
  apply joined_ok, sign_csr_ok in Hj as (der & view & params & p & ik & Hpem & Hv & Hver & Hp & Hw & Hik & Hsig & Hch & Hser).
  exists ca, role, der, view, params, p, ik. split_and!; try done. by split_and!; eauto 10.
Qed.

(** Only two requests answer a certificate made under a role. *)
Lemma certificate_request t tenant req s :
  match (route debug_str kek t tenant req s).1.2 with
  | PBIssued _ _ _ _ _ => exists n rq, req = Issue n rq
  | PBSigned _ _ _ _ => exists n csr ttl, req = SignCsr n csr ttl
  | _ => True
  end.
Proof.
  assert (Ha : forall A (r : result PkiError A) k,
    (forall a, match (k a).2 with PBIssued _ _ _ _ _ | PBSigned _ _ _ _ => False | _ => True end) ->
    match (answer debug_str r k).2 with PBIssued _ _ _ _ _ | PBSigned _ _ _ _ => False | _ => True end)
    by (intros A [a|e] k Hk; [apply Hk|done]).
  assert (Hw : forall b, match b with PBIssued _ _ _ _ _ | PBSigned _ _ _ _ => False | _ => True end ->
    match b with PBIssued _ _ _ _ _ => exists n rq, req = Issue n rq
               | PBSigned _ _ _ _ => exists n csr ttl, req = SignCsr n csr ttl | _ => True end) by by intros [].
  destruct req; cbn [route].
  - apply Hw. unfold generate_ca_handler. destruct (joined _ _); [|done]. destruct (encrypt_ca_key _ _ _ _ _); [|done].
    destruct (create_ca _ _ _). by apply Ha.
  - by apply Hw, Ha.
  - apply Hw. unfold import_ca_handler. destruct (is_ok _); [|done]. destruct (encrypt_ca_key _ _ _ _ _); [|done].
    destruct (upsert_ca _ _ _). by apply Ha.
  - apply Hw. unfold upsert_role_handler. destruct (upsert_role _ _ _). by apply Ha.
  - by apply Hw, Ha.
  - apply Hw. unfold delete_role_handler. destruct (delete_role _ _ _ _). by apply Ha.
  - unfold issue_handler. destruct (issued _ _ _ _ _ _ _); cbn; eauto.
  - unfold sign_csr_handler. destruct (signed _ _ _ _ _ _ _ _); cbn; eauto.
  - apply Hw. unfold revoke_handler. destruct (revoke_cert _ _ _ _). by apply Ha.
  - by apply Hw, Ha.
Qed.

Lemma certificate_served gw t headers req s code body s' :
  serve_pki debug_str kek gw t headers req s = ((code, body), s') ->
  match body with PBIssued _ _ _ _ _ | PBSigned _ _ _ _ => True | _ => False end ->
  exists tenant, headers !! "x-tenant-id" ≫= to_str = Some tenant /\ route debug_str kek t tenant req s = ((code, body), s').
Proof.
  unfold serve_pki, extract_tenant_id. destruct (is_authorized _ _); [|by intros [= _ <- _]].
  destruct (headers !! "x-tenant-id" ≫= to_str) as [tenant|]; cbn [ok_or]; [eauto|by intros [= _ <- _]].
Qed.

(** C22. Whatever the store, the only requests that answer a certificate made under a
    role are the issue request and the signing request, and the certificate is signed
    with the key of the CA of the caller's tenant, for a role of that tenant. An issued
    one is no CA, names only domains the role permits and addresses only where the role
    allows them, lives at most the role's maximum and has the role's usages. A signed
    request gives no CA and lives at most the role's maximum; its names and usages are
    the request's, and only where the two parsers read the request alike are its
    domains permitted and its addresses allowed: other kinds of names and the usages
    are not checked. The serial number answered is the certificate's. *)
Theorem issued_within_role gw t headers req s code body s' :
  serve_pki debug_str kek gw t headers req s = ((code, body), s') ->
  match body with
  | PBIssued cert key chain serial _ =>
      exists n rq tenant ca role p ik,
        req = Issue n rq /\ headers !! "x-tenant-id" ≫= to_str = Some tenant /\ signs_for t tenant n s ca role ik /\
        within_role role p /\ p.(cp_common_name) = rq.(iq_common_name) /\
        p.(cp_sans) = map DnsName (rq.(iq_common_name) :: rq.(iq_alt_names)) ++ map IpAddress (omap ip_parse rq.(iq_ip_sans)) /\
        sign_leaf p key ik.1 ik.2 = Ok cert /\ chain = ca.(ca_cert_pem) /\ hex_decode serial = Some p.(cp_serial)
  | PBSigned cert chain serial _ =>
      exists n csr ttl tenant ca role der view params p ik,
        req = SignCsr n csr ttl /\ headers !! "x-tenant-id" ≫= to_str = Some tenant /\ signs_for t tenant n s ca role ik /\
        pem_parse csr = Ok der /\ csr_view der = Ok view /\ is_ok (csr_verified der) = true /\ csr_params csr = Ok params /\
        request_within role view params p /\
        sign_request csr p ik.1 ik.2 = Ok cert /\ chain = ca.(ca_cert_pem) /\ hex_decode serial = Some p.(cp_serial)
  | _ => True
  end.
Proof.
  intros Hs. destruct body; try done;
    (destruct (certificate_served _ _ _ _ _ _ _ _ Hs) as (tenant & Ht & Hr); [done|]);
    pose proof (certificate_request t tenant req s) as Hq; rewrite Hr in Hq; cbn in Hq.
  - destruct Hq as (n & rq & ->). apply issue_request_within_role in Hr as (ca & role & p & ik & Hr).
    exists n, rq, tenant, ca, role, p, ik. by split_and!; apply Hr || idtac.
  - destruct Hq as (n & csr & ttl & ->).
    apply signed_request_within_role in Hr as (ca & role & der & view & params & p & ik & Hr).
    exists n, csr, ttl, tenant, ca, role, der, view, params, p, ik. by split_and!; apply Hr || idtac.
Qed.

End Served.

(** ** The tables *)

Section Tables.
Context `{PkiLibs, Primitives, SqlText, Uuids} (sha256 debug_str : string -> string) (kek : RootKek).

#[local] Instance store : PkiStore PgPkiStore := pg_store sha256.

(** A request, from whoever, or a tenant registered by the identity service. *)
Inductive pki_step : PgPkiStore -> PgPkiStore -> Prop :=
| step_request gw t headers req s r s' : serve_pki debug_str kek gw t headers req s = (r, s') -> pki_step s s'
| step_tenant u s :
    pki_step s {| p_tenants := {[u]} ∪ s.(p_tenants); p_cas := s.(p_cas); p_roles := s.(p_roles); p_certs := s.(p_certs) |}.

Lemma pg_write_cases io s stmt : (pg_write io s stmt).2 = s \/ stmt = Ok (pg_write io s stmt).2.
Proof. unfold pg_write. destruct (io_write io) as [[e []]|], stmt; cbn; auto. Qed.

Lemma pg_write_ok io s stmt u : (pg_write io s stmt).1 = Ok u -> stmt = Ok (pg_write io s stmt).2.
Proof. unfold pg_write. destruct (io_write io) as [[e []]|], stmt; cbn; naive_solver. Qed.

Lemma references_tenant_ok fk u s ok s' : references_tenant fk u s ok = Ok s' -> s' = ok.
Proof. unfold references_tenant. case_bool_decide; naive_solver. Qed.

(** What a request may do to the rows, for a tenant's UUID [u]. *)
Inductive rows_change (u : string) (s : PgPkiStore) : PgPkiStore -> Prop :=
| change_none : rows_change u s s
| change_ca r : rows_change u s (set_p_cas s (<[u := r]> s.(p_cas)))
| change_role n r : rows_change u s (set_p_roles s (<[(u, n) := r]> s.(p_roles)))
| change_role_gone n : rows_change u s (set_p_roles s (delete (u, n) s.(p_roles)))
| change_issued c : c.(ic_tenant_id) = u -> rows_change u s (set_p_certs s (c :: s.(p_certs)))
| change_revoked serial at_ :
    rows_change u s (set_p_certs s (map (fun c => if decide (of_serial u serial c) then revoke_at c at_ else c) s.(p_certs))).

Lemma write_changes io u s stmt :
  (forall s', stmt = Ok s' -> rows_change u s s') -> rows_change u s (pg_write io s stmt).2.
Proof. intros Hs. destruct (pg_write_cases io s stmt) as [->|He]; [constructor|by apply Hs]. Qed.

Lemma create_ca_changes tenant io ca s :
  ca.(ca_tenant_id) = tenant -> rows_change (pki_tenant_uuid sha256 tenant) s (pg_create_ca sha256 io ca s).2.
Proof. intros <-.
  apply write_changes. intros s'. destruct (_ !! _); [done|]. intros ->%references_tenant_ok. constructor.
Qed.

Lemma upsert_ca_changes tenant io ca s :
  ca.(ca_tenant_id) = tenant -> rows_change (pki_tenant_uuid sha256 tenant) s (pg_upsert_ca sha256 io ca s).2.
Proof. intros <-. apply write_changes. intros s' ->%references_tenant_ok. constructor. Qed.

Lemma upsert_role_changes tenant io r s :
  r.(rl_tenant_id) = tenant -> rows_change (pki_tenant_uuid sha256 tenant) s (pg_upsert_role sha256 io r s).2.
Proof. intros <-. apply write_changes. intros s' ->%references_tenant_ok. constructor. Qed.

Lemma delete_role_changes io t n s : rows_change (pki_tenant_uuid sha256 t) s (pg_delete_role sha256 io t n s).2.
Proof. apply write_changes. intros s'. destruct (_ !! _); [|done]. intros [= <-]. constructor. Qed.

Lemma record_cert_changes tenant io c s :
  c.(ic_tenant_id) = tenant -> rows_change (pki_tenant_uuid sha256 tenant) s (pg_record_cert sha256 io c s).2.
Proof. intros <-.
  apply write_changes. intros s'. case_decide; [intros [= <-]; constructor|]. case_decide; [done|].
  intros ->%references_tenant_ok. by constructor.
Qed.

Lemma revoke_cert_changes io t serial s : rows_change (pki_tenant_uuid sha256 t) s (pg_revoke_cert sha256 io t serial s).2.
Proof.
  unfold pg_revoke_cert. destruct (pg_read _ _) as [c|e]; [|constructor].
  destruct (ic_revoked_at c); [constructor|]. apply write_changes. intros s' [= <-]. constructor.
Qed.

(** The state a handler returns is the one its call of the store left. *)
Lemma state_of_answer {A B} (c : A * PgPkiStore) (k : A -> B) : (let '(r, s) := c in (k r, s)).2 = c.2.
Proof. by destruct c. Qed.

Lemma route_changes t tenant req s : rows_change (pki_tenant_uuid sha256 tenant) s (route debug_str kek t tenant req s).2.
Proof.
  destruct req; cbn [route]; try constructor.
  - unfold generate_ca_handler. destruct (joined _ _); [|constructor]. destruct (encrypt_ca_key _ _ _ _ _); [|constructor].
    rewrite state_of_answer. by apply create_ca_changes.
  - unfold import_ca_handler. destruct (is_ok _); [|constructor]. destruct (encrypt_ca_key _ _ _ _ _); [|constructor].
    rewrite state_of_answer. by apply upsert_ca_changes.
  - unfold upsert_role_handler. rewrite state_of_answer. by apply upsert_role_changes.
  - unfold delete_role_handler. rewrite state_of_answer. by apply delete_role_changes.
  - unfold issue_handler. destruct (issued _ _ _ _ _ _ _); [|constructor]. by apply record_cert_changes.
  - unfold sign_csr_handler. destruct (signed _ _ _ _ _ _ _ _); [|constructor]. by apply record_cert_changes.
  - unfold revoke_handler. rewrite state_of_answer. by apply revoke_cert_changes.
Qed.

(** *** Revocation *)

Definition revoked_row (u serial : string) (s : PgPkiStore) : Prop :=
  exists c, c ∈ s.(p_certs) /\ of_serial u serial c /\ is_Some c.(ic_revoked_at).

Lemma change_keeps_revoked u u' serial s s' : rows_change u' s s' -> revoked_row u serial s -> revoked_row u serial s'.
Proof.
  intros Hc (c & Hin & Hser & Hrev). destruct Hc as [|r|n r|n|c' _|serial' at_]; try by exists c.
  - exists c. split; [by apply list_elem_of_further|done].
  - exists (if decide (of_serial u' serial' c) then revoke_at c at_ else c). split; [|by case_decide; split].
    apply list_elem_of_fmap. by exists c.
Qed.

Lemma serve_changes gw t headers req s r s' :
  serve_pki debug_str kek gw t headers req s = (r, s') -> exists u, rows_change u s s'.
Proof.
  unfold serve_pki. destruct (is_authorized _ _); [|intros [= <- <-]; exists ""; constructor].
  destruct (extract_tenant_id headers) as [tenant|]; [|intros [= <- <-]; exists ""; constructor].
  intros Hr. exists (pki_tenant_uuid sha256 tenant). change s' with (r, s').2. rewrite <- Hr. apply route_changes.
Qed.

Lemma steps_keep_revoked u serial s s' : rtc pki_step s s' -> revoked_row u serial s -> revoked_row u serial s'.
Proof.
  induction 1 as [|s1 s2 s3 Hstep _ IH]; [done|]. intros Hr. apply IH. destruct Hstep as [gw t h req s1 r s2 Hs|v s1].
  - apply serve_changes in Hs as [u' Hc]. by eapply change_keeps_revoked.
  - done.
Qed.

Lemma head_filter_elem {A} (P : A -> Prop) `{!forall x, Decision (P x)} (l : list A) x :
  head (filter P l) = Some x -> x ∈ l /\ P x.
Proof.
  intros Hh. assert (x ∈ filter P l) as Hin by (destruct (filter P l); [done|]; injection Hh as ->; by left).
  apply list_elem_of_filter in Hin. tauto.
Qed.

Lemma revoke_cert_ok io t serial s u :
  (pg_revoke_cert sha256 io t serial s).1 = Ok u -> revoked_row (pki_tenant_uuid sha256 t) serial (pg_revoke_cert sha256 io t serial s).2.
Proof.
  unfold pg_revoke_cert, pg_read. destruct (io_read io); [done|].
  destruct (head _) as [c|] eqn:Hh; cbn [ok_or]; [|done]. destruct (ic_revoked_at c); [done|].
  intros Hw%pg_write_ok. injection Hw as <-. apply head_filter_elem in Hh as [Hin Hser].
  exists (revoke_at c (timestamptz (io_now io))). split; [|by split].
  apply list_elem_of_fmap. exists c. by rewrite decide_True.
Qed.

Lemma crl_entries_ok l entries serial at_ :
  crl_entries l = Some (Ok entries) -> (serial, at_) ∈ l ->
  exists bytes, hex_decode serial = Some bytes /\ (bytes, at_ / NANOS) ∈ entries.
Proof.
  revert entries. induction l as [|[serial' at'] l IH]; intros entries; [set_solver|]. cbn [crl_entries]. intros Hc.
  split_blocking Hc. simplify_eq/=. destruct (hex_decode serial') as [b|] eqn:Hb; simplify_eq/=.
  unfold rcgen_time in Hx0. destruct (unix_ok _); simplify_eq/=.
  intros [[= -> ->]|Hin]%elem_of_cons; [eexists; split; [done|by left]|].
  destruct (IH _ Hx1 Hin) as (b & ? & ?). exists b. split; [done|by right].
Qed.

Lemma order_by_elem {A} (le : A -> A -> bool) (l : list A) x : x ∈ order_by le l <-> x ∈ l.
Proof. induction l as [|y l IH]; cbn [order_by]; [done|]. by rewrite elem_of_insert_by, elem_of_cons, IH. Qed.

Lemma revoked_listed io t serial s l :
  revoked_row (pki_tenant_uuid sha256 t) serial s -> list_revoked_certs io t s = Ok l ->
  exists at_, (serial, at_) ∈ revoked_entries l.
Proof.
  intros (c & Hin & [Hu Hser] & at_ & Hat). cbn. unfold pg_list, pg_read. destruct (io_read io); [done|]. intros [= <-].
  exists at_. apply list_elem_of_omap. exists (cert_of_row t c). cbn. rewrite Hat, Hser. split; [|done].
  apply list_elem_of_fmap. exists c. split; [done|]. rewrite order_by_elem. apply list_elem_of_filter. split; [|done].
  split; [done|]. by rewrite Hat.
Qed.

(** C7. A revocation is final: once it is acknowledged, whatever requests, registrations
    and failures follow, every revocation list the tenant is answered contains the
    certificate's serial number. *)
Theorem revocation_is_final gw t headers tenant serial s b s1 s2 gw' t' headers' tenant' pem s3 :
  headers !! "x-tenant-id" ≫= to_str = Some tenant -> headers' !! "x-tenant-id" ≫= to_str = Some tenant' ->
  pki_tenant_uuid sha256 tenant' = pki_tenant_uuid sha256 tenant ->
  serve_pki debug_str kek gw t headers (Revoke serial) s = ((200, b), s1) ->
  rtc pki_step s1 s2 ->
  serve_pki debug_str kek gw' t' headers' Crl s2 = ((200, PBCrl pem), s3) ->
  exists params ik c bytes at_,
    sign_crl params ik.1 ik.2 = Ok c /\ crl_pem c = Ok pem /\
    hex_decode serial = Some bytes /\ (bytes, at_) ∈ params.(cl_revoked).
Proof.
  intros Ht Ht' Hu Hrev Hsteps Hcrl.
  apply served in Hrev as (tenant1 & Ht1 & Hrev); [|done..]. rewrite Ht in Ht1. injection Ht1 as <-.
  apply served in Hcrl as (tenant2 & Ht2 & Hcrl); [|done..]. rewrite Ht' in Ht2. injection Ht2 as <-.
  cbn [route] in Hrev, Hcrl. unfold revoke_handler in Hrev. injection Hcrl as Hcrl _.
  destruct (revoke_cert _ _ _ s) as [r s1'] eqn:Hr. injection Hrev as Hrev <-.
  apply answer_ok in Hrev as ([] & -> & _); [|by left].
  apply answer_ok in Hcrl as (pem' & Hcrl & [= ->]); [|by left].
  assert (revoked_row (pki_tenant_uuid sha256 tenant') serial s2) as Hrow.
  { rewrite Hu. eapply steps_keep_revoked; [done|]. change s1' with (@Ok PkiError () tt, s1').2. rewrite <- Hr.
    eapply revoke_cert_ok. by cbn in Hr; rewrite Hr. }
  unfold crl in Hcrl. apply result_bind_ok in Hcrl as (ca & _ & Hcrl). apply result_bind_ok in Hcrl as (l & Hl & Hcrl).
  apply result_bind_ok in Hcrl as (key & _ & Hcrl). apply joined_ok in Hcrl.
  destruct (revoked_listed _ _ _ _ _ Hrow Hl) as [at_ Hin].
  unfold build_crl_pem in Hcrl. split_blocking Hcrl. apply failing_ok in Hcrl. apply failing_ok in Hx4.
  destruct (crl_entries_ok _ _ _ _ Hx1 Hin) as (bytes & Hb & He).
  eexists _, x, _, bytes, _. by split_and!.
Qed.

(** *** Tenants *)

Record same_rows (u : string) (s s' : PgPkiStore) : Prop := {
  sr_ca : s.(p_cas) !! u = s'.(p_cas) !! u;
  sr_roles : forall n, s.(p_roles) !! (u, n) = s'.(p_roles) !! (u, n);
  sr_certs : filter (fun c => c.(ic_tenant_id) = u) s.(p_certs) = filter (fun c => c.(ic_tenant_id) = u) s'.(p_certs);
}.

Lemma revoke_foreign u v serial at_ l :
  u <> v ->
  filter (fun c => c.(ic_tenant_id) = v) (map (fun c => if decide (of_serial u serial c) then revoke_at c at_ else c) l) =
  filter (fun c => c.(ic_tenant_id) = v) l.
Proof.
  intros Hne. induction l as [|c l IH]; [done|]. cbn [map]. rewrite !filter_cons, IH.
  destruct (decide (of_serial u serial c)) as [[Hu _]|]; [|done].
  by rewrite !decide_False by (cbn; congruence).
Qed.

Lemma change_foreign u v s s' : rows_change u s s' -> u <> v -> same_rows v s s'.
Proof.
  intros Hc Hne. destruct Hc as [|r|n r|n|c Hu|serial at_]; split; intros; unfold set_p_cas, set_p_roles, set_p_certs;
    cbn [p_cas p_roles p_certs]; try done.
  - by rewrite lookup_insert_ne.
  - by rewrite lookup_insert_ne by congruence.
  - by rewrite lookup_delete_ne by congruence.
  - by rewrite filter_cons_False by congruence.
  - symmetry. by apply revoke_foreign.
Qed.

Section View.
Context (u : string) (s s' : PgPkiStore) (Hrows : same_rows u s s') (Hfk : u ∈ s.(p_tenants) <-> u ∈ s'.(p_tenants)).

Lemma write_reply io stmt stmt' :
  (forall e, stmt = Err e <-> stmt' = Err e) -> (pg_write io s stmt).1 = (pg_write io s' stmt').1.
Proof.
  intros He. unfold pg_write. destruct (io_write io) as [[e []]|], stmt as [a|e1], stmt' as [a'|e2]; cbn; try done.
  - by destruct (He e2) as [_ Hx]; specialize (Hx eq_refl).
  - by destruct (He e1) as [Hx _]; specialize (Hx eq_refl).
  - destruct (He e1) as [Hx _]. specialize (Hx eq_refl). congruence.
Qed.

Lemma references_reply fk ok ok' e : references_tenant fk u s ok = Err e <-> references_tenant fk u s' ok' = Err e.
Proof. unfold references_tenant. by rewrite (bool_decide_ext _ _ Hfk); case_bool_decide. Qed.

Lemma list_reply (Q P : IssuedCert -> Prop) `{!forall c, Decision (Q c), !forall c, Decision (P c)} :
  (forall c, Q c <-> P c /\ c.(ic_tenant_id) = u) -> filter Q s.(p_certs) = filter Q s'.(p_certs).
Proof.
  intros HQ. rewrite !(list_filter_iff Q _ _ HQ), <- !list_filter_filter. by rewrite (sr_certs _ _ _ Hrows).
Qed.

Lemma get_ca_same io tenant : pki_tenant_uuid sha256 tenant = u -> get_ca io tenant s = get_ca io tenant s'.
Proof. intros Hu. cbn. unfold pg_get_ca. by rewrite Hu, (sr_ca _ _ _ Hrows). Qed.

Lemma get_role_same io tenant n : pki_tenant_uuid sha256 tenant = u -> get_role io tenant n s = get_role io tenant n s'.
Proof. intros Hu. cbn. unfold pg_get_role. by rewrite Hu, (sr_roles _ _ _ Hrows). Qed.

Lemma signer_same t tenant n :
  pki_tenant_uuid sha256 tenant = u -> signer debug_str kek t tenant n s = signer debug_str kek t tenant n s'.
Proof. intros Hu. unfold signer. by rewrite (get_ca_same _ _ Hu), (get_role_same _ _ _ Hu). Qed.

Lemma revoke_same io tenant serial :
  pki_tenant_uuid sha256 tenant = u -> (revoke_cert io tenant serial s).1 = (revoke_cert io tenant serial s').1.
Proof.
  intros Hu. cbn. unfold pg_revoke_cert. rewrite Hu.
  rewrite (list_reply (of_serial u serial) (fun c => c.(ic_serial) = serial)) by (unfold of_serial; tauto).
  destruct (pg_read _ _) as [c|]; [|done]. destruct (ic_revoked_at c); [done|]. by apply write_reply.
Qed.

Lemma list_same io tenant :
  pki_tenant_uuid sha256 tenant = u -> list_revoked_certs io tenant s = list_revoked_certs io tenant s'.
Proof.
  intros Hu. cbn. unfold pg_list. rewrite Hu.
  by rewrite (list_reply _ (fun c => bool_decide (is_Some c.(ic_revoked_at)) = true)) by tauto.
Qed.

End View.

Lemma reply_of_answer {A B} (c : A * PgPkiStore) (k : A -> B) : (let '(r, s) := c in (k r, s)).1 = k c.1.
Proof. by destruct c. Qed.

Lemma route_same t tenant req s s' :
  same_rows (pki_tenant_uuid sha256 tenant) s s' ->
  (pki_tenant_uuid sha256 tenant ∈ s.(p_tenants) <-> pki_tenant_uuid sha256 tenant ∈ s'.(p_tenants)) ->
  (route debug_str kek t tenant req s).1 = (route debug_str kek t tenant req s').1.
Proof.
  intros Hrows Hfk. destruct req as [cn ttl k| |cert key|n body|n|n|n body|n csr ttl|serial|]; cbn [route].
  - unfold generate_ca_handler. destruct (joined _ _); [|done]. destruct (encrypt_ca_key _ _ _ _ _); [|done].
    rewrite !reply_of_answer. f_equal. apply write_reply. intros e. cbn [ca_tenant_id]. rewrite (sr_ca _ _ _ Hrows).
    destruct (_ !! _); [done|]. by apply references_reply.
  - unfold get_ca_handler. cbn [fst]. by erewrite get_ca_same.
  - unfold import_ca_handler. destruct (is_ok _); [|done]. destruct (encrypt_ca_key _ _ _ _ _); [|done].
    rewrite !reply_of_answer. f_equal. apply write_reply. intros e. by apply references_reply.
  - unfold upsert_role_handler. rewrite !reply_of_answer. f_equal. apply write_reply. intros e. by apply references_reply.
  - unfold get_role_handler. cbn [fst]. by erewrite get_role_same.
  - unfold delete_role_handler. rewrite !reply_of_answer. f_equal. apply write_reply. intros e.
    rewrite (sr_roles _ _ _ Hrows). by destruct (_ !! _).
  - unfold issue_handler, issued. erewrite signer_same by done. by destruct (_ ≫= _).
  - unfold sign_csr_handler, signed. erewrite signer_same by done. by destruct (_ ≫= _).
  - unfold revoke_handler. rewrite !reply_of_answer. f_equal. by apply (revoke_same (pki_tenant_uuid sha256 tenant)).
  - unfold crl_handler, crl. cbn [fst]. erewrite get_ca_same by done. by erewrite list_same by done.
Qed.

(** Tenants are confined to the tenant their header names: a request leaves the CA,
    the roles and the certificates of every other tenant as they were, and its answer
    depends on nothing but the rows of its own. *)
Theorem pki_tenants_are_isolated gw t headers req s tenant :
  headers !! "x-tenant-id" ≫= to_str = Some tenant ->
  (forall v, v <> pki_tenant_uuid sha256 tenant -> same_rows v s (serve_pki debug_str kek gw t headers req s).2) /\
  (forall s', same_rows (pki_tenant_uuid sha256 tenant) s s' ->
     (pki_tenant_uuid sha256 tenant ∈ s.(p_tenants) <-> pki_tenant_uuid sha256 tenant ∈ s'.(p_tenants)) ->
     (serve_pki debug_str kek gw t headers req s').1 = (serve_pki debug_str kek gw t headers req s).1).
Proof.
  intros Ht. unfold serve_pki, extract_tenant_id. rewrite Ht. cbn [ok_or]. destruct (is_authorized _ _); [|done]. split.
  - intros v Hv. eapply change_foreign; [apply route_changes|done].
  - intros s' Hrows Hfk. symmetry. by apply route_same.
Qed.

(** *** Certificates that are not recorded *)

(** An answer does not wait for the record: when it is not written, the certificate
    is handed out all the same, and an attempt to revoke it is answered that there is
    no such certificate. *)
Theorem unrecorded_certificate_cannot_be_revoked gw t t' headers tenant n body s cert key chain serial expiration s1 e :
  headers !! "x-tenant-id" ≫= to_str = Some tenant ->
  serve_pki debug_str kek gw t headers (Issue n body) s = ((200, PBIssued cert key chain serial expiration), s1) ->
  t.(t_write).(io_write) = Some (e, false) ->
  ~ Exists (of_serial (pki_tenant_uuid sha256 tenant) serial) s.(p_certs) ->
  t'.(t_write).(io_read) = None ->
  (serve_pki debug_str kek gw t' headers (Revoke serial) s1).1 = pki_error_response debug_str (CertNotFound serial tenant).
Proof.
  intros Ht Hi Hio Hnew Hio'. unfold serve_pki, extract_tenant_id in *. rewrite Ht in *. cbn [ok_or] in *.
  destruct (is_authorized _ _); [|done]. cbn [route] in *. unfold issue_handler in Hi.
  destruct (issued _ _ _ _ _ _ _) as [out|]; [|by injection Hi; intros _ Hst; pose proof (error_reply_not_ok debug_str e0) as [? ?]].
  injection Hi as _ _ _ <- _ <-.
  unfold revoke_handler. rewrite reply_of_answer. unfold record_issued. cbn [record_cert store pg_store revoke_cert].
  unfold pg_record_cert, pg_write at 1. rewrite Hio.
  unfold pg_revoke_cert, pg_read. rewrite Hio'. cbn [snd].
  destruct (head _) as [c|] eqn:Hh; [|done].
  apply head_filter_elem in Hh as [Hin Hser]. exfalso. apply Hnew, Exists_exists. eauto.
Qed.

(** *** CA keys *)

Section CaKeys.
Context `{!PrimitiveLaws}.

Lemma ca_key_opens rng tenant key_pem encrypted :
  (forall n, rng = Some n -> String.length n = AES_GCM_NONCE_LEN) ->
  encrypt_ca_key debug_str rng kek tenant key_pem = Ok encrypted ->
  decrypt_ca_key debug_str kek tenant encrypted = Ok key_pem.
Proof.
  intros Hn. unfold encrypt_ca_key, decrypt_ca_key. destruct (encrypt_with_dek _ _ _ _) as [env|] eqn:He; [|done].
  intros [= <-]. by rewrite (envelope_round_trip _ _ _ _ _ Hn He).
Qed.

Lemma create_ca_ok io ca s s' :
  create_ca io ca s = (Ok tt, s') ->
  s.(p_cas) !! pki_tenant_uuid sha256 ca.(ca_tenant_id) = None /\
  s' = set_p_cas s (<[pki_tenant_uuid sha256 ca.(ca_tenant_id) := ca_row ca]> s.(p_cas)).
Proof.
  intros Hc. cbn in Hc. unfold pg_create_ca in Hc. pose proof (pg_write_ok _ _ _ tt (f_equal fst Hc)) as Hok.
  rewrite Hc in Hok. cbn [snd] in Hok. destruct (p_cas s !! _); [done|]. by apply references_tenant_ok in Hok.
Qed.

Lemma generated_row gw t headers tenant cn ttl k s cert serial s1 :
  headers !! "x-tenant-id" ≫= to_str = Some tenant ->
  serve_pki debug_str kek gw t headers (GenerateCa cn ttl k) s = ((201, PBGenerated cert serial), s1) ->
  exists out encrypted,
    generate_ca t.(t_draw) cn (default 94608000 ttl) (parse_key_type k) = Some (Ok out) /\ out.(co_cert_pem) = cert /\
    encrypt_ca_key debug_str t.(t_nonce) kek tenant out.(co_key_pem) = Ok encrypted /\
    s.(p_cas) !! pki_tenant_uuid sha256 tenant = None /\
    s1 = set_p_cas s (<[pki_tenant_uuid sha256 tenant :=
           {| cr_cert_pem := cert; cr_encrypted_key := encrypted; cr_key_version := kek.(rk_version);
              cr_created_at := timestamptz t.(t_now) |}]> s.(p_cas)).
Proof.
  intros Ht (tenant' & Ht' & Hr)%served; [|done..]. rewrite Ht in Ht'. injection Ht' as <-. cbn [route] in Hr.
  unfold generate_ca_handler in Hr. destruct (joined _ _) as [out|e] eqn:Hj;
    [|by injection Hr; pose proof (error_reply_not_ok debug_str e) as [? ?]; intros].
  destruct (encrypt_ca_key _ _ _ _ _) as [encrypted|e] eqn:He;
    [|by injection Hr; pose proof (error_reply_not_ok debug_str e) as [? ?]; intros].
  destruct (create_ca _ _ s) as [r s2] eqn:Hc. injection Hr as Hr <-. apply answer_ok in Hr as ([] & -> & [= <- <-]); [|by right].
  apply joined_ok in Hj. apply create_ca_ok in Hc as [Hnone ->]. by exists out, encrypted.
Qed.

(** The CA a tenant generates it can use: right after the generation the same tenant
    reads its certificate back, and the key it signs with is the generated one. *)
Theorem generated_ca_is_usable gw t headers tenant cn ttl k s cert serial s1 io :
  headers !! "x-tenant-id" ≫= to_str = Some tenant ->
  (forall n, t.(t_nonce) = Some n -> String.length n = AES_GCM_NONCE_LEN) ->
  serve_pki debug_str kek gw t headers (GenerateCa cn ttl k) s = ((201, PBGenerated cert serial), s1) ->
  io.(io_read) = None ->
  exists out ca,
    generate_ca t.(t_draw) cn (default 94608000 ttl) (parse_key_type k) = Some (Ok out) /\
    get_ca io tenant s1 = Ok ca /\ ca.(ca_cert_pem) = out.(co_cert_pem) /\
    decrypt_ca_key debug_str kek tenant ca.(ca_encrypted_key) = Ok out.(co_key_pem).
Proof.
  intros Ht Hn Hg Hio. destruct (generated_row _ _ _ _ _ _ _ _ _ _ _ Ht Hg) as (out & encrypted & Hout & Hcert & He & _ & ->).
  eexists out, _. split_and!; [done|cbn; unfold pg_get_ca, pg_read, set_p_cas; rewrite Hio; cbn [p_cas]; by rewrite lookup_insert_eq|done|].
  by eapply ca_key_opens.
Qed.

(** A tenant has one CA row however its id is spelt, but the key in it is bound to the
    spelling: under another spelling of the same tenant the CA is found and every
    revocation list fails with an internal error. *)
Theorem other_spelling_cannot_use_ca `{!Authentic} gw t headers tenant cn ttl k s cert serial s1
    gw' t' headers' tenant' :
  headers !! "x-tenant-id" ≫= to_str = Some tenant -> headers' !! "x-tenant-id" ≫= to_str = Some tenant' ->
  tenant' <> tenant -> pki_tenant_uuid sha256 tenant' = pki_tenant_uuid sha256 tenant ->
  (forall n, t.(t_nonce) = Some n -> String.length n = AES_GCM_NONCE_LEN) ->
  serve_pki debug_str kek gw t headers (GenerateCa cn ttl k) s = ((201, PBGenerated cert serial), s1) ->
  is_authorized (gateway_expected gw') (headers' !! "x-gateway-auth") = true ->
  t'.(t_ca).(io_read) = None -> t'.(t_role).(io_read) = None ->
  (serve_pki debug_str kek gw' t' headers' GetCa s1).1 = (200, PBCa cert) /\
  (serve_pki debug_str kek gw' t' headers' Crl s1).1.1 = 500.
Proof.
  intros Ht Ht' Hne Hu Hn Hg Ha Hio Hio'.
  destruct (generated_row _ _ _ _ _ _ _ _ _ _ _ Ht Hg) as (out & encrypted & Hout & Hcert & He & _ & ->).
  assert (exists e, ca_key_text debug_str kek tenant' encrypted = Err (KeyEncryptionError e)) as [e Hk].
  { unfold ca_key_text, encrypt_ca_key, decrypt_ca_key in *. destruct (encrypt_with_dek _ _ _ _) as [env|] eqn:Henv; [|done].
    injection He as <-. destruct (decrypt_with_dek _ _ _) as [m|e] eqn:Hd; [|by eexists].
    destruct (envelope_authentic _ _ _ _ _ _ _ _ Hn Henv Hd) as [_ Haad]. unfold build_aad in Haad.
    by apply Str.app_inv_head in Haad. }
  unfold serve_pki, extract_tenant_id. rewrite Ha, Ht'. cbn [ok_or route fst].
  unfold get_ca_handler, crl_handler, crl. cbn [get_ca store pg_store list_revoked_certs].
  unfold pg_get_ca, pg_list, pg_read. rewrite Hio, Hio'. unfold set_p_cas. cbn [p_cas]. rewrite Hu, lookup_insert_eq.
  cbn [mbind result_bind answer ca_cert_pem ca_encrypted_key cr_cert_pem cr_encrypted_key]. by rewrite Hk.
Qed.

End CaKeys.

(** *** Roles *)

Lemma key_type_round_trip k : key_type_of_str (key_type_str k) = Ok k.
Proof. by destruct k. Qed.

Lemma usages_round_trip l : mapM usage_of_str (map usage_str l) = Some l.
Proof. induction l as [|u l IH]; [done|]. cbn. rewrite IH. by destruct u. Qed.

Definition same_policy (r r' : PkiRole) : Prop :=
  r.(rl_name) = r'.(rl_name) /\ r.(rl_allowed_domains) = r'.(rl_allowed_domains) /\
  r.(rl_allow_subdomains) = r'.(rl_allow_subdomains) /\ r.(rl_allow_bare_domains) = r'.(rl_allow_bare_domains) /\
  r.(rl_max_ttl) = r'.(rl_max_ttl) /\ r.(rl_key_type) = r'.(rl_key_type) /\ r.(rl_key_usages) = r'.(rl_key_usages) /\
  r.(rl_allow_ip_sans) = r'.(rl_allow_ip_sans).

(** A role reads back as it was asked for: after an acknowledged upsert the role the
    store gives, to whatever spelling of the tenant, has the policy of the request. *)
Theorem role_reads_back gw t headers tenant n body s b s1 io tenant' :
  headers !! "x-tenant-id" ≫= to_str = Some tenant ->
  serve_pki debug_str kek gw t headers (UpsertRole n body) s = ((200, b), s1) ->
  pki_tenant_uuid sha256 tenant' = pki_tenant_uuid sha256 tenant -> io.(io_read) = None ->
  exists role, get_role io tenant' n s1 = Ok role /\ same_policy role (requested_role t tenant n body).
Proof.
  intros Ht (tenant1 & Ht1 & Hr)%served Hu Hio; [|done..]. rewrite Ht in Ht1. injection Ht1 as <-. cbn [route] in Hr.
  unfold upsert_role_handler in Hr. destruct (upsert_role _ _ s) as [r s2] eqn:Hc. injection Hr as Hr <-.
  apply answer_ok in Hr as ([] & -> & _); [|by left].
  cbn in Hc. unfold pg_upsert_role in Hc. pose proof (pg_write_ok _ _ _ tt (f_equal fst Hc)) as Hok.
  rewrite Hc in Hok. apply references_tenant_ok in Hok. cbn [snd] in Hok. subst s2.
  eexists. split.
  - cbn. unfold pg_get_role, pg_read, set_p_roles. rewrite Hio, Hu. cbn [p_roles]. by rewrite lookup_insert_eq.
  - unfold same_policy, role_of_row, role_row. cbn. rewrite key_type_round_trip, usages_round_trip. by split_and!.
Qed.

End Tables.

(** ** A tenant with a CA *)

Module PkiDemo.

#[local] Instance libs : PkiLibs := {|
  to_lowercase := fun s => s;
  dns_name_ok := fun _ => true;
  ip_parse := fun s => if Str.mem "." s then Some s else None;
  parse_key := Ok;
  parse_ca := Ok;
  issuer_of := fun p _ => Ok p;
  self_sign := fun p _ => Ok ("CA " +:+ p.(cp_common_name));
  sign_leaf := fun p _ _ _ => Ok ("leaf " +:+ p.(cp_common_name));
  csr_params := fun csr => Ok {| cp_is_ca := true; cp_not_before := 0; cp_not_after := 0; cp_serial := [];
                                 cp_common_name := csr; cp_sans := [OtherName "mailto:root@corp.example"];
                                 cp_extended_usages := [CodeSigning] |};
  sign_request := fun csr _ _ _ => Ok ("signed " +:+ csr);
  sign_crl := fun p _ _ => Ok ("CRL of " +:+ pretty (N.of_nat (length p.(cl_revoked))));
  crl_pem := Ok;
  pem_parse := Ok;
  csr_view := fun csr => Ok {| cv_common_names := [Some csr]; cv_sans := [OtherName "mailto:root@corp.example"] |};
  csr_verified := fun _ => Ok tt;
  cert_common_names := fun _ => None;
  add_seconds := fun t n => Some (t + n * NANOS);
  unix_ok := fun _ => true;
  show_time := fun _ => "then";
  panic_text := "task panicked";
|}.

#[local] Instance laws : PkiLaws.
Proof. intros t n u. cbn. congruence. Qed.

#[local] Instance prim : Primitives := tagged.
#[local] Instance prim_laws : PrimitiveLaws := tagged_laws.
#[local] Instance prim_authentic : Authentic := tagged_authentic.
#[local] Instance sql_text : SqlText := fun c => c.
(** An upper-case id parses to the same UUID. *)
#[local] Instance uuids : Uuids := fun s => if decide (s = "T1") then Ok "t1" else Ok s.
#[local] Instance demo_store : PkiStore PgPkiStore := pg_store (fun s => s).

Definition kek : RootKek := {| rk_raw := "0123456789abcdef0123456789abcdef"; rk_version := 1 |}.

Definition io : Io := {| io_now := 0; io_db_now := 0; io_id := "id"; io_read := None; io_write := None |}.

Definition turn (b : Z) (id : string) (w : option (string * bool)) : Turn :=
  {| t_draw := {| dw_now := 0; dw_serial := Some [b]; dw_key := fun _ => Ok "key" |};
     t_nonce := Some "123456789012"; t_now := 0; t_cert_id := id; t_ca := io; t_role := io;
     t_write := {| io_now := 0; io_db_now := 0; io_id := "id"; io_read := None; io_write := w |} |}.

Definition headers (t : string) : HeaderMap := {["x-tenant-id" := t]}.

Definition empty : PgPkiStore := {| p_tenants := {["t1"]}; p_cas := ∅; p_roles := ∅; p_certs := [] |}.

Definition run (t : Turn) (h : HeaderMap) (req : PkiRequest) (s : PgPkiStore) : PkiReply * PgPkiStore :=
  serve_pki (fun s => s) kek None t h req s.

Definition web : UpsertRoleRequest :=
  {| ur_allowed_domains := ["corp.example"; "*.apps.example"]; ur_allow_subdomains := true; ur_allow_bare_domains := false;
     ur_max_ttl := Some 3600; ur_key_type := None; ur_key_usages := ["server_auth"]; ur_allow_ip_sans := false |}.

Definition ask : IssueRequest :=
  {| iq_common_name := "www.corp.example"; iq_alt_names := ["shop.apps.example"]; iq_ip_sans := []; iq_ttl := Some 86400 |}.

Definition with_ca : PgPkiStore := (run (turn 1 "a" None) (headers "t1") (GenerateCa "Root" None None) empty).2.
Definition with_role : PgPkiStore := (run (turn 2 "b" None) (headers "t1") (UpsertRole "web" web) with_ca).2.
Definition with_cert : PgPkiStore := (run (turn 10 "c" None) (headers "t1") (Issue "web" ask) with_role).2.
Definition revoked : PgPkiStore := (run (turn 3 "d" None) (headers "t1") (Revoke "0a") with_cert).2.

Lemma issued_within_role_witness :
  (exists n rq tenant ca role p ik,
     Issue "web" ask = Issue n rq /\ headers "t1" !! "x-tenant-id" ≫= to_str = Some tenant /\
     signs_for (fun s => s) kek (turn 10 "c" None) tenant n with_role ca role ik /\
     within_role role p /\ p.(cp_common_name) = rq.(iq_common_name) /\
     p.(cp_sans) = map DnsName (rq.(iq_common_name) :: rq.(iq_alt_names)) ++ map IpAddress (omap ip_parse rq.(iq_ip_sans)) /\
     sign_leaf p "key" ik.1 ik.2 = Ok "leaf www.corp.example" /\ "CA Root" = ca.(ca_cert_pem) /\
     hex_decode "0a" = Some p.(cp_serial)) /\
  (exists n csr ttl tenant ca role der view params p ik,
     SignCsr "web" "www.corp.example" None = SignCsr n csr ttl /\
     headers "t1" !! "x-tenant-id" ≫= to_str = Some tenant /\
     signs_for (fun s => s) kek (turn 7 "g" None) tenant n with_role ca role ik /\
     pem_parse csr = Ok der /\ csr_view der = Ok view /\ is_ok (csr_verified der) = true /\ csr_params csr = Ok params /\
     request_within role view params p /\
     sign_request csr p ik.1 ik.2 = Ok "signed www.corp.example" /\ "CA Root" = ca.(ca_cert_pem) /\
     hex_decode "07" = Some p.(cp_serial)).
Proof.
  split.
  - apply (issued_within_role (fun s => s) kek None (turn 10 "c" None) (headers "t1") (Issue "web" ask) with_role
             200 (PBIssued "leaf www.corp.example" "key" "CA Root" "0a" "then") with_cert).
    vm_compute. reflexivity.
  - apply (issued_within_role (fun s => s) kek None (turn 7 "g" None) (headers "t1")
             (SignCsr "web" "www.corp.example" None) with_role
             200 (PBSigned "signed www.corp.example" "CA Root" "07" "then")
             (run (turn 7 "g" None) (headers "t1") (SignCsr "web" "www.corp.example" None) with_role).2).
    vm_compute. reflexivity.
Defined.

Lemma revocation_is_final_witness :
  exists params ik c bytes at_,
    sign_crl params ik.1 ik.2 = Ok c /\ crl_pem c = Ok "CRL of 1" /\
    hex_decode "0a" = Some bytes /\ (bytes, at_) ∈ params.(cl_revoked).
Proof.
  apply (revocation_is_final (fun s => s) (fun s => s) kek None (turn 3 "d" None) (headers "t1") "t1" "0a" with_cert
           (PBRevoked "then") revoked
           (run (turn 10 "e" None) (headers "t1") (Issue "web" ask) revoked).2
           None (turn 4 "f" None) (headers "t1") "t1" "CRL of 1"
           (run (turn 10 "e" None) (headers "t1") (Issue "web" ask) revoked).2).
  - reflexivity.
  - reflexivity.
  - reflexivity.
  - vm_compute. reflexivity.
  - apply rtc_once. eapply step_request. apply surjective_pairing.
  - vm_compute. reflexivity.
Defined.

(** A role for servers signs a request for code signing and an address of another
    domain. *)
Example request_usages_unchecked :
  (run (turn 7 "g" None) (headers "t1") (SignCsr "web" "www.corp.example" None) with_role).1
  = (200, PBSigned "signed www.corp.example" "CA Root" "07" "then").
Proof. vm_compute. reflexivity. Qed.

(** The gateway's secret unset, the header alone gives the tenant's CA. *)
Example header_is_the_identity :
  (run (turn 1 "h" None) (headers "t1") GetCa with_ca).1 = (200, PBCa "CA Root").
Proof. vm_compute. reflexivity. Qed.

(** The certificate whose record was lost. *)
Lemma unrecorded_witness :
  (serve_pki (fun s => s) kek None (turn 3 "d" None) (headers "t1") (Revoke "0a")
     (run (turn 10 "c" (Some ("reset", false))) (headers "t1") (Issue "web" ask) with_role).2).1
  = pki_error_response (fun s => s) (CertNotFound "0a" "t1").
Proof.
  apply (unrecorded_certificate_cannot_be_revoked (fun s => s) (fun s => s) kek None
           (turn 10 "c" (Some ("reset", false))) (turn 3 "d" None) (headers "t1") "t1" "web" ask with_role
           "leaf www.corp.example" "key" "CA Root" "0a" "then"
           (run (turn 10 "c" (Some ("reset", false))) (headers "t1") (Issue "web" ask) with_role).2 "reset").
  - reflexivity.
  - vm_compute. reflexivity.
  - reflexivity.
  - apply (bool_decide_unpack _). vm_compute. reflexivity.
  - reflexivity.
Defined.

(** Upper case finds the CA and cannot use it. *)
Lemma other_spelling_witness :
  (serve_pki (fun s => s) kek None (turn 3 "d" None) (headers "T1") GetCa with_ca).1 = (200, PBCa "CA Root") /\
  (serve_pki (fun s => s) kek None (turn 3 "d" None) (headers "T1") Crl with_ca).1.1 = 500.
Proof.
  apply (other_spelling_cannot_use_ca (fun s => s) (fun s => s) kek None (turn 1 "a" None) (headers "t1") "t1"
           "Root" None None empty "CA Root" "01" with_ca None (turn 3 "d" None) (headers "T1") "T1").
  1-4: done.
  - by intros n [= <-].
  - vm_compute. reflexivity.
  - done.
  - done.
  - done.
Defined.

End PkiDemo.
