(* ===== verification/Federation.v ===== *)
(** * Federated logins over gRPC

    The four managers behind [Tokens.login] in [services/identity-service/src]:
    OpenID Connect ([oidc.rs]), AWS IAM ([aws_iam.rs]), Azure workload identity
    ([azure_workload.rs]) and client certificates ([mtls.rs]), each with the caches
    it keeps, and [managers], which hands them to the service of [Tokens].

    What the network answers is [Web], one for each request; [jsonwebtoken], serde
    and [x509-parser] are the classes [JwtLibs] and [X509]. What the code relies on
    is [JwtLaws]: a token that decodes is signed by the key and not expired, and
    its issuer is the expected one and its audience, a text or a list of texts, is or
    contains the expected one, where it carries them. *)

From Stdlib Require Import Lia Ascii.
From S2P Require Import Prelude Errors Effects Envelope Mfa Tokens Json.

(** ** The outside *)

Record Answer := { an_status : Z; an_text : result string string; an_json : result string Json }.

Record Web := {
  http_get : string -> result string Answer;
  http_post : string -> string -> list (string * string) -> result string Answer;
}.

Record JwtHeader := { hd_kid : option string; hd_alg : string }.

(** A key of a key set: its id, whether it is an RSA key, the algorithm it states. *)
Record Jwk := { jk_kid : option string; jk_rsa : bool; jk_alg : option string; jk_material : string }.

Record Validation := { v_alg : string; v_iss : option string; v_aud : option string; v_leeway : Z }.

Class JwtLibs := {
  decode_header : string -> result string JwtHeader;
  from_jwk : Jwk -> result string string;
  from_rsa_components : string -> string -> result string string;
  (** [Algorithm::from_str] of a key's algorithm as printed *)
  alg_of_str : string -> option string;
  (** the claims of a token: now, the token, the key, what is validated *)
  decode : Z -> string -> string -> Validation -> result string Json;
  jwk_set : Json -> result string (list Jwk);
  serde_error : string -> string;
  show_status : Z -> string;
}.

Class JwtLaws `{JwtLibs} (signed : string -> string -> Json -> Prop) : Prop := {
  decode_signed : forall now token key v c, decode now token key v = Ok c -> signed token key c;
  decode_fresh : forall now token key v c, decode now token key v = Ok c ->
    exists e, get_field c "exp" = Some (JInt e) /\ now / NANOS - v.(v_leeway) <= e;
  decode_issuer : forall now token key v c iss s, decode now token key v = Ok c -> v.(v_iss) = Some iss ->
    get_field c "iss" = Some (JStr s) -> s = iss;
  decode_audience : forall now token key v c aud s, decode now token key v = Ok c -> v.(v_aud) = Some aud ->
    get_field c "aud" = Some (JStr s) -> s = aud;
  decode_audiences : forall now token key v c aud l names, decode now token key v = Ok c -> v.(v_aud) = Some aud ->
    get_field c "aud" = Some (JArr l) -> mapM as_str l = Some names -> aud ∈ names;
}.

(** [serde] on a field: required text, optional text (null or missing), required
    number. *)
Definition text_field `{JwtLibs} (v : Json) (k : string) : result string string :=
  ok_or (get_field v k ≫= as_str) (serde_error k).

Definition opt_text `{JwtLibs} (v : Json) (k : string) : result string (option string) :=
  match get_field v k with
  | None | Some JNull => Ok None
  | Some (JStr s) => Ok (Some s)
  | Some _ => Err (serde_error k)
  end.

Definition int_field `{JwtLibs} (v : Json) (k : string) : result string Z :=
  ok_or (get_field v k ≫= as_i64) (serde_error k).

(** [Option<Vec<String>>] *)
Definition opt_texts `{JwtLibs} (v : Json) (k : string) : result string (option (list string)) :=
  match get_field v k with
  | None | Some JNull => Ok None
  | Some (JArr l) => match mapM as_str l with Some t => Ok (Some t) | None => Err (serde_error k) end
  | Some _ => Err (serde_error k)
  end.

(** [{issuer}/.well-known/openid-configuration] *)
Definition discovery_url (issuer : string) : string := Str.trim_end "/" issuer +:+ "/.well-known/openid-configuration".

(** The key a token is checked with, and the algorithm: those of the key its header
    names, or of the first RSA key where it names none. *)
Definition find_jwk (keys : list Jwk) (kid : string) : option Jwk :=
  head (List.filter (fun k => bool_decide (k.(jk_kid) = Some kid)) keys).

Definition first_rsa (keys : list Jwk) : option Jwk := head (List.filter jk_rsa keys).

Definition algorithm_for `{JwtLibs} (jwk : Jwk) (header : JwtHeader) : string :=
  default header.(hd_alg) (jwk.(jk_alg) ≫= alg_of_str).

(** ** oidc.rs *)

Module Oidc.

Inductive OidcError :=
| ProviderNotFound (name : string)
| DiscoveryFailed (issuer reason : string)
| JwksFetchFailed (uri reason : string)
| TokenValidation (reason : string)
| ClaimsMappingError (reason : string).

Definition show (e : OidcError) : string :=
  match e with
  | ProviderNotFound n => "OIDC provider '" +:+ n +:+ "' is not configured"
  | DiscoveryFailed i r => "OIDC discovery failed for issuer '" +:+ i +:+ "': " +:+ r
  | JwksFetchFailed u r => "JWKS fetch failed for URI '" +:+ u +:+ "': " +:+ r
  | TokenValidation r => "ID token validation failed: " +:+ r
  | ClaimsMappingError r => "Claims mapping failed: " +:+ r
  end.

Record ClaimsMapping := {
  tenant_id_claim : option string;
  policies_claim : option string;
  default_policies : option (list string);
}.

Record OidcProviderConfig := {
  op_issuer : string;
  op_client_id : string;
  op_jwks_uri : option string;
  op_mapping : ClaimsMapping;
}.

(** The claims of an ID token; [it_extra] are the ones without a field. *)
Record IdTokenClaims := {
  it_iss : string;
  it_sub : string;
  it_aud : Json;
  it_email : option string;
  it_name : option string;
  it_groups : option (list string);
  it_extra : Json;
}.

Record JwksCacheEntry := { jc_keys : list Jwk; jc_fetched_at : Z }.

Definition JWKS_CACHE_TTL_SECS : Z := 3600.

Abbreviation Cache := (gmap string JwksCacheEntry).

Section Manager.
Context `{JwtLibs} (providers : gmap string OidcProviderConfig).

Definition eff := (eff Cache OidcError).

Definition id_claims (c : Json) : result string IdTokenClaims :=
  iss ← text_field c "iss";
  sub ← text_field c "sub";
  aud ← ok_or (get_field c "aud") (serde_error "aud");
  _ ← int_field c "exp";
  _ ← int_field c "iat";
  email ← opt_text c "email";
  name ← opt_text c "name";
  groups ← opt_texts c "groups";
  Ok {| it_iss := iss; it_sub := sub; it_aud := aud; it_email := email; it_name := name; it_groups := groups;
        it_extra := match c with
                    | JObj l => JObj (filter (fun kv => kv.1 ∉ ["iss"; "sub"; "aud"; "exp"; "iat"; "email"; "name"; "groups"]) l)
                    | v => v
                    end |}.

Definition discover_jwks_uri (web : Web) (issuer : string) : result OidcError string :=
  match web.(http_get) (discovery_url issuer) with
  | Err e => Err (DiscoveryFailed issuer ("HTTP request failed: " +:+ e))
  | Ok a =>
      if negb ((200 <=? a.(an_status)) && (a.(an_status) <? 300))
      then Err (DiscoveryFailed issuer ("HTTP " +:+ show_status a.(an_status)))
      else match (v ← a.(an_json); i ← text_field v "issuer"; u ← text_field v "jwks_uri"; Ok (i, u)) with
           | Err e => Err (DiscoveryFailed issuer ("failed to parse discovery document: " +:+ e))
           | Ok (i, u) =>
               if bool_decide (i = issuer) then Ok u
               else Err (DiscoveryFailed issuer ("issuer mismatch: expected '" +:+ issuer +:+ "', got '" +:+ i +:+ "'"))
           end
  end.

Definition fetch_jwks (web : Web) (uri : string) : result OidcError (list Jwk) :=
  match web.(http_get) uri with
  | Err e => Err (JwksFetchFailed uri ("HTTP request failed: " +:+ e))
  | Ok a =>
      if negb ((200 <=? a.(an_status)) && (a.(an_status) <? 300))
      then Err (JwksFetchFailed uri ("HTTP " +:+ show_status a.(an_status)))
      else match a.(an_json) ≫= jwk_set with
           | Err e => Err (JwksFetchFailed uri ("failed to parse JWKS response: " +:+ e))
           | Ok keys => Ok keys
           end
  end.

(** Where the keys of a provider are. *)
Definition keys_of (web : Web) (config : OidcProviderConfig) : result OidcError (list Jwk) :=
  uri ← match config.(op_jwks_uri) with Some u => Ok u | None => discover_jwks_uri web config.(op_issuer) end;
  fetch_jwks web uri.

Definition fresh (now : Z) (e : JwksCacheEntry) : bool := (now - e.(jc_fetched_at)) / NANOS <? JWKS_CACHE_TTL_SECS.

Definition get_jwks (web : Web) (now : Z) (provider : string) (config : OidcProviderConfig) : eff (list Jwk) := fun cache =>
  match (e ← cache !! provider; if fresh now e then Some e.(jc_keys) else None) with
  | Some keys => (Ok keys, cache)
  | None =>
      match keys_of web config with
      | Err e => (Err e, cache)
      | Ok keys => (Ok keys, <[provider := {| jc_keys := keys; jc_fetched_at := now |}]> cache)
      end
  end.

Definition map_claims (claims : IdTokenClaims) (config : OidcProviderConfig) : result OidcError (string * list string) :=
  let name := default "tenant_id" config.(op_mapping).(tenant_id_claim) in
  tenant ← ok_or (get_field claims.(it_extra) name ≫= as_str)
             (ClaimsMappingError ("required tenant claim '" +:+ name +:+ "' not found in ID token"));
  if Str.is_empty tenant then Err (ClaimsMappingError ("tenant claim '" +:+ name +:+ "' is present but empty"))
  else
    let policies_name := default "groups" config.(op_mapping).(policies_claim) in
    let policies :=
      if decide (policies_name = "groups") then default [] claims.(it_groups)
      else match get_field claims.(it_extra) policies_name with
           | Some (JArr l) => omap as_str l
           | _ => []
           end in
    Ok (tenant, policies ++ default [] config.(op_mapping).(default_policies)).

Definition invalid {A} (prefix : string) (r : result string A) : result OidcError A :=
  match r with Ok a => Ok a | Err e => Err (TokenValidation (prefix +:+ e)) end.

Definition checked (now : Z) (config : OidcProviderConfig) (keys : list Jwk) (id_token : string) :
    result OidcError IdTokenClaims :=
  header ← invalid "cannot decode JWT header: " (decode_header id_token);
  jwk ← match header.(hd_kid) with
        | Some kid => ok_or (find_jwk keys kid) (TokenValidation ("no JWK found for kid '" +:+ kid +:+ "'"))
        | None => ok_or (first_rsa keys) (TokenValidation "no kid in token header and no RSA key in JWKS")
        end;
  key ← invalid "failed to build decoding key from JWK: " (from_jwk jwk);
  invalid "token validation failed: "
    (c ← decode now id_token key
           {| v_alg := algorithm_for jwk header; v_iss := Some config.(op_issuer); v_aud := Some config.(op_client_id);
              v_leeway := 0 |};
     id_claims c).

Definition validate_id_token (web : Web) (now : Z) (provider id_token : string) : eff OidcResult :=
  config ← lift (ok_or (providers !! provider) (ProviderNotFound provider));
  keys ← get_jwks web now provider config;
  claims ← lift (checked now config keys id_token);
  mapped ← lift (map_claims claims config);
  mret {| oi_subject := claims.(it_sub); oi_tenant_id := mapped.1; oi_policies := mapped.2;
          oi_display_name := match claims.(it_email), claims.(it_name) with
                             | Some e, _ => e
                             | None, Some n => n
                             | None, None => claims.(it_sub)
                             end |}.

End Manager.
End Oidc.

(** ** aws_iam.rs *)

(** What is before and after the first occurrence of [p]. *)
Fixpoint cut (p s : string) : option (string * string) :=
  match Str.strip_prefix p s with
  | Some r => Some ("", r)
  | None => match s with
            | EmptyString => None
            | String a s => match cut p s with Some (b, r) => Some (String a b, r) | None => None end
            end
  end.

Module Aws.

Record AwsIamConfig := {
  account_tenant_map : gmap string string;
  aws_default_policies : list string;
  bound_iam_role_arns : list string;
}.

Inductive AwsIamError :=
| StsRequestFailed (e : string)
| StsNonSuccess (status : Z) (body : string)
| ParseError (e : string)
| UnboundRole (arn : string)
| InvalidUrl (e : string).

Definition show (show_int : Z -> string) (e : AwsIamError) : string :=
  match e with
  | StsRequestFailed e => "STS request failed: " +:+ e
  | StsNonSuccess s b => "STS returned non-200: " +:+ show_int s +:+ " — " +:+ b
  | ParseError e => "failed to parse STS response: " +:+ e
  | UnboundRole arn => "IAM role ARN '" +:+ arn +:+ "' is not in the bound roles list"
  | InvalidUrl e => "invalid request URL: " +:+ e
  end.

Record StsIdentity := { sts_arn : string; sts_user_id : string; sts_account : string }.

Definition extract_xml_tag (xml tag : string) : option string :=
  '(_, rest) ← cut ("<" +:+ tag +:+ ">") xml;
  '(content, _) ← cut ("</" +:+ tag +:+ ">") rest;
  Some (Str.trim content).

Definition parse_sts_response (xml : string) : result AwsIamError StsIdentity :=
  arn ← ok_or (extract_xml_tag xml "Arn") (ParseError "missing <Arn> in STS response");
  user_id ← ok_or (extract_xml_tag xml "UserId") (ParseError "missing <UserId> in STS response");
  account ← ok_or (extract_xml_tag xml "Account") (ParseError "missing <Account> in STS response");
  Ok {| sts_arn := arn; sts_user_id := user_id; sts_account := account |}.

(** A star at the end only. *)
Definition arn_matches (pattern arn : string) : bool :=
  if decide (pattern = "*") then true
  else match Str.strip_prefix "*" (Str.rev pattern) with
       | Some prefix => Str.starts_with (Str.rev prefix) arn
       | None => bool_decide (pattern = arn)
       end.

Section Manager.
Context `{Primitives} (parse_headers : string -> result string (list (string * string))) (config : AwsIamConfig).

(** The replayed request. *)
Definition replay (web : Web) (url body headers_json : string) : result AwsIamError string :=
  body_bytes ← match b64_decode body with Ok b => Ok b | Err e => Err (ParseError ("base64 decode body: " +:+ e)) end;
  headers ← match parse_headers headers_json with Ok h => Ok h | Err e => Err (ParseError ("parse headers JSON: " +:+ e)) end;
  answer ← match web.(http_post) url body_bytes headers with Ok a => Ok a | Err e => Err (StsRequestFailed e) end;
  text ← match answer.(an_text) with Ok t => Ok t | Err e => Err (StsRequestFailed ("read response body: " +:+ e)) end;
  if bool_decide (answer.(an_status) = 200) then Ok text else Err (StsNonSuccess answer.(an_status) text).

Definition validate (web : Web) (url body headers_json bound_role_arn claimed_tenant_id : string) :
    result AwsIamError AwsResult :=
  if negb (Str.starts_with "https://sts.amazonaws.com" url) && negb (Str.starts_with "https://sts." url)
  then Err (InvalidUrl ("URL must point to AWS STS: " +:+ url))
  else
    text ← replay web url body headers_json;
    identity ← parse_sts_response text;
    if negb (Str.is_empty bound_role_arn) && bool_decide (identity.(sts_arn) <> bound_role_arn)
    then Err (UnboundRole identity.(sts_arn))
    else if bool_decide (config.(bound_iam_role_arns) <> [])
            && negb (existsb (fun p => arn_matches p identity.(sts_arn)) config.(bound_iam_role_arns))
    then Err (UnboundRole identity.(sts_arn))
    else Ok {| aw_account_id := identity.(sts_account); aw_arn := identity.(sts_arn);
               aw_tenant_id := default claimed_tenant_id (config.(account_tenant_map) !! identity.(sts_account));
               aw_policies := config.(aws_default_policies);
               aw_display_name := default identity.(sts_arn) (last (Str.split "/" identity.(sts_arn))) |}.

End Manager.
End Aws.

(** ** azure_workload.rs *)

Module Azure.

Record AzureWorkloadConfig := {
  expected_audience : string;
  azure_tenant_map : gmap string string;
  az_default_policies : list string;
  bound_subscription_ids : list string;
  jwks_cache_ttl_seconds : Z;
}.

Inductive AzureWorkloadError :=
| DiscoveryFailed (e : string)
| JwksFetchFailed (e : string)
| JwtValidation (e : string)
| MissingClaim (c : string)
| TenantMismatch (tid : string)
| UnboundSubscription (id : string)
| NoMatchingKey (kid : string).

Definition show (e : AzureWorkloadError) : string :=
  match e with
  | DiscoveryFailed e => "failed to fetch OIDC discovery: " +:+ e
  | JwksFetchFailed e => "failed to fetch JWKS: " +:+ e
  | JwtValidation e => "JWT validation failed: " +:+ e
  | MissingClaim c => "missing required claim: " +:+ c
  | TenantMismatch t => "Azure AD tenant '" +:+ t +:+ "' does not match claimed tenant"
  | UnboundSubscription s => "subscription '" +:+ s +:+ "' is not in the bound list"
  | NoMatchingKey k => "no matching key found in JWKS for kid '" +:+ k +:+ "'"
  end.

Record JwkKey := { ak_kid : string; ak_n : string; ak_e : string }.
Record CachedJwks := { ac_keys : list JwkKey; ac_fetched_at : Z }.

Record AzureClaims := {
  ac_sub : string;
  ac_oid : option string;
  ac_tid : option string;
  ac_name : option string;
  ac_preferred_username : option string;
  ac_xms_mirid : option string;
}.

Section Manager.
Context `{JwtLibs} (config : AzureWorkloadConfig).

Definition eff := (eff (gmap string CachedJwks) AzureWorkloadError).

Definition key_of (v : Json) : result string JwkKey :=
  kid ← text_field v "kid";
  n ← text_field v "n";
  e ← text_field v "e";
  _ ← opt_text v "kty";
  Ok {| ak_kid := kid; ak_n := n; ak_e := e |}.

Fixpoint keys_of_list (l : list Json) : result string (list JwkKey) :=
  match l with
  | [] => Ok []
  | v :: l => k ← key_of v; ks ← keys_of_list l; Ok (k :: ks)
  end.

Definition jwks_response (v : Json) : result string (list JwkKey) :=
  match get_field v "keys" with Some (JArr l) => keys_of_list l | _ => Err (serde_error "keys") end.

Definition azure_claims (c : Json) : result string AzureClaims :=
  sub ← text_field c "sub";
  oid ← opt_text c "oid";
  tid ← opt_text c "tid";
  _ ← opt_text c "aud";
  name ← opt_text c "name";
  user ← opt_text c "preferred_username";
  mirid ← opt_text c "xms_mirid";
  Ok {| ac_sub := sub; ac_oid := oid; ac_tid := tid; ac_name := name; ac_preferred_username := user;
        ac_xms_mirid := mirid |}.

(** Whole seconds towards zero, as [u64]. *)
Definition age (now fetched_at : Z) : Z := Z.quot (now - fetched_at) NANOS mod 2 ^ 64.

Definition fetch (web : Web) (azure_tenant_id : string) : result AzureWorkloadError (list JwkKey) :=
  answer ← match web.(http_get) ("https://login.microsoftonline.com/" +:+ azure_tenant_id
                                 +:+ "/.well-known/openid-configuration") with
           | Ok a => Ok a
           | Err e => Err (DiscoveryFailed e)
           end;
  uri ← match (v ← answer.(an_json); text_field v "jwks_uri") with
        | Ok u => Ok u
        | Err e => Err (DiscoveryFailed ("parse: " +:+ e))
        end;
  keys ← match web.(http_get) uri with Ok a => Ok a | Err e => Err (JwksFetchFailed e) end;
  match keys.(an_json) ≫= jwks_response with
  | Ok k => Ok k
  | Err e => Err (JwksFetchFailed ("parse: " +:+ e))
  end.

Definition get_jwks (web : Web) (now : Z) (azure_tenant_id : string) : eff (list JwkKey) := fun cache =>
  match (e ← cache !! azure_tenant_id;
         if age now e.(ac_fetched_at) <? config.(jwks_cache_ttl_seconds) then Some e.(ac_keys) else None) with
  | Some keys => (Ok keys, cache)
  | None =>
      match fetch web azure_tenant_id with
      | Err e => (Err e, cache)
      | Ok keys => (Ok keys, <[azure_tenant_id := {| ac_keys := keys; ac_fetched_at := now |}]> cache)
      end
  end.

Definition invalid {A} (prefix : string) (r : result string A) : result AzureWorkloadError A :=
  match r with Ok a => Ok a | Err e => Err (JwtValidation (prefix +:+ e)) end.

Definition subscription_of (claims : AzureClaims) : option string :=
  rest ← claims.(ac_xms_mirid) ≫= Str.strip_prefix "/subscriptions/";
  head (Str.split "/" rest).

(** The subscription the token names, else the one the caller names, if any, must be
    bound. *)
Definition check_subscription (claims : AzureClaims) (claimed : string) : result AzureWorkloadError () :=
  if bool_decide (config.(bound_subscription_ids) = []) then Ok tt
  else
    let sub_id := match subscription_of claims with
                  | Some s => Some s
                  | None => if Str.is_empty claimed then None else Some claimed
                  end in
    match sub_id with
    | Some sid => if bool_decide (sid ∈ config.(bound_subscription_ids)) then Ok tt else Err (UnboundSubscription sid)
    | None => Ok tt
    end.

(** What follows the signature. *)
Definition identify (claims : AzureClaims) (claimed_azure_tenant claimed_subscription claimed_tenant : string) :
    result AzureWorkloadError AzureResult :=
  oid ← ok_or claims.(ac_oid) (MissingClaim "oid");
  tid ← ok_or claims.(ac_tid) (MissingClaim "tid");
  if bool_decide (tid <> claimed_azure_tenant) then Err (TenantMismatch tid)
  else
    _ ← check_subscription claims claimed_subscription;
    Ok {| az_object_id := oid; az_azure_tenant_id := tid;
          az_tenant_id := default claimed_tenant (config.(azure_tenant_map) !! tid);
          az_policies := config.(az_default_policies);
          az_display_name := match claims.(ac_preferred_username), claims.(ac_name) with
                             | Some u, _ => u
                             | None, Some n => n
                             | None, None => "azure:" +:+ oid
                             end |}.

Definition validate (web : Web) (now : Z) (jwt claimed_azure_tenant claimed_subscription claimed_tenant : string) :
    eff AzureResult :=
  header ← lift (invalid "decode header: " (decode_header jwt));
  kid ← lift (ok_or header.(hd_kid) (JwtValidation "missing kid in JWT header"));
  keys ← get_jwks web now claimed_azure_tenant;
  jwk ← lift (ok_or (head (List.filter (fun k => bool_decide (k.(ak_kid) = kid)) keys)) (NoMatchingKey kid));
  key ← lift (invalid "build key: " (from_rsa_components jwk.(ak_n) jwk.(ak_e)));
  claims ← lift (invalid ""
             (c ← decode now jwt key
                    {| v_alg := "RS256";
                       v_iss := Some ("https://login.microsoftonline.com/" +:+ claimed_azure_tenant +:+ "/v2.0");
                       v_aud := Some config.(expected_audience); v_leeway := 60 |};
              azure_claims c));
  lift (identify claims claimed_azure_tenant claimed_subscription claimed_tenant).

End Manager.
End Azure.

(** ** mtls.rs *)

Module Mtls.

Inductive MtlsError :=
| InvalidCertificate (m : string)
| CertificateExpired
| UntrustedCa (m : string)
| MissingField (f : string)
| ConfigError (m : string).

Definition show (e : MtlsError) : string :=
  match e with
  | InvalidCertificate m => "invalid certificate: " +:+ m
  | CertificateExpired => "certificate has expired"
  | UntrustedCa m => "untrusted CA: " +:+ m
  | MissingField f => "required certificate field is missing: " +:+ f
  | ConfigError m => "mTLS configuration error: " +:+ m
  end.

Inductive Attribute := CommonName | Organization | OrganizationalUnit | Country | State | Locality.

(** A certificate as [x509-parser] reads it; an attribute's values are texts or not. *)
Record Cert := {
  ce_public_key : string;
  ce_not_before : Z;
  ce_not_after : Z;
  ce_attribute : Attribute -> list (option string);
  ce_subject : string;
  ce_serial : string;
}.

Class X509 := {
  (** one block: the rest of the input, the label, the contents *)
  parse_x509_pem : string -> result string (string * string * string);
  from_der : string -> result string Cert;
  verify_signature : Cert -> string -> bool;
  to_uppercase : string -> string;
}.

(** A block is not empty. *)
Class X509Laws `{X509} : Prop :=
  pem_consumes : forall s rest label der, parse_x509_pem s = Ok (rest, label, der) -> (String.length rest < String.length s)%nat.

Record SubjectMapping := {
  tenant_id_field : option string;
  principal_id_field : option string;
  mt_default_policies : option (list string);
}.

Record MtlsManager := { mm_mapping : SubjectMapping; trusted_ca_ders : list string }.

Definition is_ascii_whitespace (a : ascii) : bool :=
  bool_decide (nat_of_ascii a ∈ [9; 10; 12; 13; 32]%nat).

Section Manager.
Context `{X509}.

(** The loop over the blocks, at most as many as there are bytes. *)
Fixpoint parse_blocks (fuel : nat) (remaining : string) (ders : list string) : result string (list string) :=
  match fuel with
  | O => Ok ders
  | S fuel =>
      if Str.forallb is_ascii_whitespace remaining then Ok ders
      else match parse_x509_pem remaining with
           | Ok (rest, label, contents) =>
               parse_blocks fuel rest
                 (if bool_decide (is_Some (cut "CERTIFICATE" (to_uppercase label))) && is_ok (from_der contents)
                  then ders ++ [contents] else ders)
           | Err e => match ders with [] => Err ("PEM parse error: " +:+ e) | _ => Ok ders end
           end
  end.

Definition parse_all_pem_certs (pem : string) : result string (list string) :=
  parse_blocks (S (String.length pem)) pem [].

Definition new (pem : string) (mapping : SubjectMapping) : result MtlsError MtlsManager :=
  match parse_all_pem_certs pem with
  | Err e => Err (ConfigError ("failed to parse trusted CA PEM: " +:+ e))
  | Ok [] => Err (ConfigError "trusted_ca_pem must contain at least one valid CA certificate")
  | Ok ders => Ok {| mm_mapping := mapping; trusted_ca_ders := ders |}
  end.

Fixpoint verify_against (ders : list string) (cert : Cert) : result MtlsError () :=
  match ders with
  | [] => Err (UntrustedCa "client certificate is not signed by any configured trusted CA")
  | der :: ders =>
      match from_der der with
      | Err _ => verify_against ders cert
      | Ok ca => if verify_signature cert ca.(ce_public_key) then Ok tt else verify_against ders cert
      end
  end.

(** [now] in seconds. *)
Definition is_expired (now : Z) (cert : Cert) : bool := cert.(ce_not_after) <? now.

Definition oid_for_attribute (name : string) : option Attribute :=
  let n := to_uppercase name in
  if decide (n = "CN") then Some CommonName
  else if decide (n = "O") then Some Organization
  else if decide (n = "OU") then Some OrganizationalUnit
  else if decide (n = "C") then Some Country
  else if decide (n = "ST" \/ n = "S") then Some State
  else if decide (n = "L") then Some Locality
  else None.

Definition extract_subject_attribute (cert : Cert) (name : string) : option string :=
  a ← oid_for_attribute name;
  mjoin (head (cert.(ce_attribute) a)).

Definition required (cert : Cert) (name : string) : result MtlsError string :=
  ok_or (extract_subject_attribute cert name)
    (MissingField ("certificate subject is missing required field '" +:+ name +:+ "'")).

Definition validate_certificate (now : Z) (m : MtlsManager) (pem : string) : result MtlsError MtlsResult :=
  block ← match parse_x509_pem pem with Ok b => Ok b | Err e => Err (InvalidCertificate ("PEM decode error: " +:+ e)) end;
  cert ← match from_der block.2 with Ok c => Ok c | Err e => Err (InvalidCertificate ("DER parse error: " +:+ e)) end;
  _ ← verify_against m.(trusted_ca_ders) cert;
  _ ← (if is_expired now cert then Err CertificateExpired else Ok tt);
  principal ← required cert (default "CN" m.(mm_mapping).(principal_id_field));
  tenant ← required cert (default "O" m.(mm_mapping).(tenant_id_field));
  Ok {| mt_principal_id := principal; mt_tenant_id := tenant; mt_policies := default [] m.(mm_mapping).(mt_default_policies);
        mt_display_name := cert.(ce_subject) |}.

End Manager.
End Mtls.

(** ** The managers of the service *)

(** What is configured, and the caches. *)
Record FedConfig := {
  fc_oidc : option (gmap string Oidc.OidcProviderConfig);
  fc_mtls : option Mtls.MtlsManager;
  fc_aws : option Aws.AwsIamConfig;
  fc_azure : option Azure.AzureWorkloadConfig;
}.

Record FedCaches := { oidc_cache : gmap string Oidc.JwksCacheEntry; azure_cache : gmap string Azure.CachedJwks }.

Section Managers.
Context `{JwtLibs, Primitives, Mtls.X509} (parse_headers : string -> result string (list (string * string)))
  (show_int : Z -> string) (config : FedConfig).

Definition shown {E A} (show : E -> string) (r : result E A) : result string A :=
  match r with Ok a => Ok a | Err e => Err (show e) end.

(** As one request finds them: what the network answers it, the time and the caches. *)
Definition managers (web : Web) (now : Z) (caches : FedCaches) : Managers := {|
  oidc_manager := (fun providers provider id_token =>
    shown Oidc.show (Oidc.validate_id_token providers web now provider id_token caches.(oidc_cache)).1) <$> config.(fc_oidc);
  mtls_manager := (fun m pem => shown Mtls.show (Mtls.validate_certificate (now / NANOS) m pem)) <$> config.(fc_mtls);
  aws_iam_manager := (fun c url body headers role tenant =>
    shown (Aws.show show_int) (Aws.validate parse_headers c web url body headers role tenant)) <$> config.(fc_aws);
  azure_workload_manager := (fun c jwt azure_tenant subscription tenant =>
    shown Azure.show (Azure.validate c web now jwt azure_tenant subscription tenant caches.(azure_cache)).1)
    <$> config.(fc_azure);
|}.

End Managers.

(** ** OpenID Connect *)

Lemma head_filter_in {A} (f : A -> bool) (l : list A) x : head (List.filter f l) = Some x -> x ∈ l /\ f x = true.
Proof.
  intros Hh. assert (In x (List.filter f l)) as Hin by (destruct (List.filter f l); [done|]; injection Hh as ->; by left).
  apply filter_In in Hin. by rewrite list_elem_of_In.
Qed.

Section OidcLogins.
Context `{JwtLaws} (providers : gmap string Oidc.OidcProviderConfig).

(** What the network answers at each time. *)
Context (net : Z -> Web).

Inductive oidc_step : Oidc.Cache -> Oidc.Cache -> Prop :=
| oidc_login now provider token cache :
    oidc_step cache (Oidc.validate_id_token providers (net now) now provider token cache).2.

(** The keys in the cache are those the provider gave when they were fetched. *)
Definition from_provider (cache : Oidc.Cache) : Prop :=
  forall p e, cache !! p = Some e ->
    exists config, providers !! p = Some config /\ Oidc.keys_of (net e.(Oidc.jc_fetched_at)) config = Ok e.(Oidc.jc_keys).

Lemma get_jwks_from_provider now p config cache r cache' :
  from_provider cache -> providers !! p = Some config -> Oidc.get_jwks (net now) now p config cache = (r, cache') ->
  from_provider cache' /\
  forall keys, r = Ok keys -> exists t, (now - t) / NANOS < Oidc.JWKS_CACHE_TTL_SECS /\ Oidc.keys_of (net t) config = Ok keys.
Proof.
  intros Hc Hp. unfold Oidc.get_jwks. destruct (cache !! p ≫= _) as [keys|] eqn:Hl.
  - apply bind_Some in Hl as (e & He & Hf). intros [= <- <-]. split; [done|]. intros keys' [= <-].
    destruct (Oidc.fresh now e) eqn:Hfr; [|done]. injection Hf as <-. destruct (Hc _ _ He) as (config' & Hp' & Hk).
    rewrite Hp in Hp'. injection Hp' as <-. exists e.(Oidc.jc_fetched_at). split; [|done].
    by unfold Oidc.fresh in Hfr; apply Z.ltb_lt in Hfr.
  - destruct (Oidc.keys_of (net now) config) as [keys|e] eqn:Hk; intros [= <- <-].
    + split; [|intros keys' [= <-]; exists now; rewrite Z.sub_diag; by split].
      intros q e He. destruct (decide (p = q)) as [<-|Hne].
      * rewrite lookup_insert_eq in He. injection He as <-. by exists config.
      * rewrite lookup_insert_ne in He by done. by apply Hc.
    + by split.
Qed.

Lemma oidc_step_from_provider cache cache' : oidc_step cache cache' -> from_provider cache -> from_provider cache'.
Proof.
  intros [now p token c] Hc. unfold Oidc.validate_id_token. rewrite run_lift_bind.
  destruct (providers !! p) as [config|] eqn:Hp; cbn [ok_or]; [|done]. rewrite run_bind.
  destruct (Oidc.get_jwks _ _ _ _ _) as [r c'] eqn:Hg. apply get_jwks_from_provider in Hg as [Hc' _]; [|done..].
  destruct r as [keys|e]; [|done]. rewrite run_lift_bind. destruct (Oidc.checked _ _ _ _); [|done].
  rewrite run_lift_bind. by destruct (Oidc.map_claims _ _).
Qed.

Lemma oidc_reachable cache : rtc oidc_step ∅ cache -> from_provider cache.
Proof.
  intros Hr. assert (from_provider ∅) as Hempty by (by intros p e He; rewrite lookup_empty in He).
  revert Hempty. induction Hr as [|c1 c2 c3 Hs _ IH]; [done|]. intros Hc. apply IH. by eapply oidc_step_from_provider.
Qed.

Lemma invalid_inv {A} prefix (r : result string A) a : Oidc.invalid prefix r = Ok a -> r = Ok a.
Proof. unfold Oidc.invalid. destruct r; naive_solver. Qed.

(** A key of the set signed the token, and what the signed claims [c] say: the
    provider's issuer, the vault's audience where the audience is a text or a list of
    texts, and an expiry that is not past. *)
Definition vouched (now : Z) (config : Oidc.OidcProviderConfig) (keys : list Jwk) (token : string) (c : Json) : Prop :=
  exists jwk key,
    jwk ∈ keys /\ from_jwk jwk = Ok key /\ signed token key c /\
    get_field c "iss" = Some (JStr config.(Oidc.op_issuer)) /\
    (forall s, get_field c "aud" = Some (JStr s) -> s = config.(Oidc.op_client_id)) /\
    (forall l names, get_field c "aud" = Some (JArr l) -> mapM as_str l = Some names -> config.(Oidc.op_client_id) ∈ names) /\
    exists e, get_field c "exp" = Some (JInt e) /\ now / NANOS <= e.

(** The claims with a meaning of their own, which no mapping reaches. *)
Definition own_claims : list string := ["iss"; "sub"; "aud"; "exp"; "iat"; "email"; "name"; "groups"].

(** The texts of the list a claim holds. *)
Definition texts_under (c : Json) (name : string) : list string :=
  match get_field c name with Some (JArr l) => omap as_str l | _ => [] end.

(** The policies a token lists under the claim [name]. *)
Definition listed_policies (c : Json) (name : string) : list string :=
  if decide (name = "groups" \/ name ∉ own_claims) then texts_under c name else [].

Lemma assoc_filter (P : string -> Prop) `{forall k, Decision (P k)} (l : list (string * Json)) k :
  assoc k (filter (fun kv => P kv.1) l) = if decide (P k) then assoc k l else None.
Proof.
  induction l as [|[k' v] l IH]; [by case_decide|].
  destruct (decide (P k')) as [Hp|Hp]; [rewrite filter_cons_True by done|rewrite filter_cons_False by done].
  - cbn [assoc]. destruct (decide (k = k')) as [<-|Hne]; [by rewrite decide_True by done|exact IH].
  - rewrite IH. cbn [assoc]. destruct (decide (k = k')) as [<-|Hne]; [by rewrite !decide_False by done|done].
Qed.

Lemma mapM_texts l names : mapM as_str l = Some names -> omap as_str l = names.
Proof.
  revert names. induction l as [|v l IH]; cbn; intros names Hm; [by injection Hm as <-|].
  destruct (as_str v) as [t|]; [|done]. cbn in Hm. destruct (mapM as_str l) as [ts|]; [|done].
  injection Hm as <-. by rewrite (IH ts).
Qed.

(** What serde reads of the claims. *)
Lemma id_claims_fields c claims :
  Oidc.id_claims c = Ok claims ->
  get_field c "iss" = Some (JStr claims.(Oidc.it_iss)) /\ get_field c "aud" = Some claims.(Oidc.it_aud) /\
  get_field c "sub" = Some (JStr claims.(Oidc.it_sub)) /\ default [] claims.(Oidc.it_groups) = texts_under c "groups" /\
  forall k, get_field claims.(Oidc.it_extra) k = if decide (k ∉ own_claims) then get_field c k else None.
Proof.
  unfold Oidc.id_claims, text_field, opt_texts, texts_under.
  intros (iss & Hiss & (sub & Hsub & (aud & Haud & Hr)%result_bind_ok)%result_bind_ok)%result_bind_ok.
  destruct (get_field c "iss") as [[]|]; simplify_eq/=. destruct (get_field c "sub") as [[]|]; simplify_eq/=.
  destruct (get_field c "aud") eqn:Ha; simplify_eq/=.
  apply result_bind_ok in Hr as (? & _ & Hr). apply result_bind_ok in Hr as (? & _ & Hr).
  apply result_bind_ok in Hr as (? & _ & Hr). apply result_bind_ok in Hr as (? & _ & Hr).
  apply result_bind_ok in Hr as (groups & Hg & Hr). simplify_eq/=. split_and!; try done.
  - destruct (get_field c "groups") as [[]|]; simplify_eq/=; try done.
    destruct (mapM as_str _) eqn:Hm; simplify_eq/=. by rewrite (mapM_texts _ _ Hm).
  - intros k. destruct c; try done. exact (assoc_filter (fun k => k ∉ own_claims) fields k).
Qed.

Lemma checked_vouched now config keys token claims :
  Oidc.checked now config keys token = Ok claims ->
  exists c, vouched now config keys token c /\ Oidc.id_claims c = Ok claims.
Proof.
  unfold Oidc.checked. intros (header & _ & (jwk & Hj & (key & Hk%invalid_inv & Hd%invalid_inv)%result_bind_ok)%result_bind_ok)%result_bind_ok.
  apply result_bind_ok in Hd as (c & Hd & Hc). exists c. split; [|done]. exists jwk, key.
  assert (jwk ∈ keys) as Hin.
  { destruct (hd_kid header) as [kid|]; unfold find_jwk, first_rsa in Hj; destruct (head _) as [j|] eqn:Hh; simplify_eq/=;
      by apply head_filter_in in Hh as [? _]. }
  destruct (id_claims_fields _ _ Hc) as (Hi & _ & _). split_and!; [done|done|by eapply decode_signed| | | |].
  - rewrite Hi. do 2 f_equal. by eapply decode_issuer.
  - intros s Hs. by eapply decode_audience.
  - intros l names Hl Hn. by eapply decode_audiences.
  - destruct (decode_fresh _ _ _ _ _ Hd) as (e & He & Hle). exists e. cbn in Hle. by rewrite Z.sub_0_r in Hle.
Qed.

Lemma map_claims_from c claims config tenant policies :
  Oidc.id_claims c = Ok claims -> Oidc.map_claims claims config = Ok (tenant, policies) ->
  tenant <> "" /\
  get_field c (default "tenant_id" config.(Oidc.op_mapping).(Oidc.tenant_id_claim)) = Some (JStr tenant) /\
  policies = listed_policies c (default "groups" config.(Oidc.op_mapping).(Oidc.policies_claim)) ++
             default [] config.(Oidc.op_mapping).(Oidc.default_policies).
Proof.
  intros (_ & _ & _ & Hgroups & Hextra)%id_claims_fields. unfold Oidc.map_claims.
  intros (tn & Htn & Hm)%result_bind_ok. rewrite Hextra in Htn, Hm. unfold Str.is_empty in Hm.
  destruct (decide (tn = "")) as [->|Hne]; [done|]. rewrite bool_decide_false in Hm by done. injection Hm as -> <-.
  split; [done|]. split.
  - case_decide; [|done]. destruct (get_field _ _) as [[]|]; simplify_eq/=; done.
  - f_equal. rewrite Hgroups. unfold listed_policies, texts_under. set (pn := default "groups" _).
    destruct (decide (pn = "groups")) as [->|Hg]; [by rewrite decide_True by auto|].
    destruct (decide (pn ∉ own_claims)); [by rewrite decide_True by auto|].
    by rewrite decide_False by naive_solver.
Qed.

(** C30. An ID token is accepted only where its provider vouches for it: some key the
    provider published at most an hour ago signed it, and the signed claims name the
    provider's issuer and have not expired; an audience that is a text is the vault's,
    and a list of texts contains it. The login then is the subject of the claims, in the
    tenant the tenant claim says, with the policies the policies claim lists (the groups
    where the provider names no other claim) followed by the provider's defaults, and
    no others. *)
Theorem oidc_login_is_vouched cache now provider token r cache' :
  rtc oidc_step ∅ cache ->
  Oidc.validate_id_token providers (net now) now provider token cache = (Ok r, cache') ->
  exists config t keys c,
    providers !! provider = Some config /\
    (now - t) / NANOS < 3600 /\ Oidc.keys_of (net t) config = Ok keys /\ vouched now config keys token c /\
    get_field c "sub" = Some (JStr r.(oi_subject)) /\ r.(oi_tenant_id) <> "" /\
    get_field c (default "tenant_id" config.(Oidc.op_mapping).(Oidc.tenant_id_claim)) = Some (JStr r.(oi_tenant_id)) /\
    r.(oi_policies) = listed_policies c (default "groups" config.(Oidc.op_mapping).(Oidc.policies_claim)) ++
                      default [] config.(Oidc.op_mapping).(Oidc.default_policies).
Proof.
  intros Hreach%oidc_reachable. unfold Oidc.validate_id_token. rewrite run_lift_bind.
  destruct (providers !! provider) as [config|] eqn:Hp; cbn [ok_or]; [|done]. rewrite run_bind.
  destruct (Oidc.get_jwks _ _ _ _ _) as [g c'] eqn:Hg. apply get_jwks_from_provider in Hg as [_ Hkeys]; [|done..].
  destruct g as [keys|e]; [|done]. destruct (Hkeys _ eq_refl) as (t & Ht & Hk). rewrite run_lift_bind.
  destruct (Oidc.checked _ _ _ _) as [claims|] eqn:Hc; [|done]. apply checked_vouched in Hc as (c & Hv & Hc). rewrite run_lift_bind.
  destruct (Oidc.map_claims claims config) as [[tenant policies]|] eqn:Hm; [|done]. intros [= <- <-]. cbn.
  exists config, t, keys, c. destruct (map_claims_from _ _ _ _ _ Hc Hm) as (? & ? & ?).
  destruct (id_claims_fields _ _ Hc) as (_ & _ & ? & _). by split_and!.
Qed.

(** Keys a provider adds are not known for up to an hour: while a cached set is
    fresh, a token under a key id outside it is refused, whatever the network would
    answer. *)
Theorem rotated_key_refused web cache now provider token e header kid :
  cache !! provider = Some e -> (now - e.(Oidc.jc_fetched_at)) / NANOS < 3600 ->
  decode_header token = Ok header -> header.(hd_kid) = Some kid ->
  (forall k, k ∈ e.(Oidc.jc_keys) -> k.(jk_kid) <> Some kid) -> is_Some (providers !! provider) ->
  Oidc.validate_id_token providers web now provider token cache =
    (Err (Oidc.TokenValidation ("no JWK found for kid '" +:+ kid +:+ "'")), cache).
Proof.
  intros Hc Hf Hh Hkid Hnone [config Hp]. unfold Oidc.validate_id_token. rewrite run_lift_bind, Hp. cbn [ok_or].
  rewrite run_bind. unfold Oidc.get_jwks. rewrite Hc. cbn [mbind option_bind]. unfold Oidc.fresh, Oidc.JWKS_CACHE_TTL_SECS.
  rewrite (proj2 (Z.ltb_lt _ _) Hf). rewrite run_lift_bind. unfold Oidc.checked. rewrite Hh.
  cbn [Oidc.invalid mbind result_bind]. rewrite Hkid.
  assert (find_jwk e.(Oidc.jc_keys) kid = None) as ->; [|done].
  unfold find_jwk. destruct (head _) as [k|] eqn:Hk; [|done]. apply head_filter_in in Hk as [Hin Hb].
  apply bool_decide_eq_true in Hb. by destruct (Hnone k Hin).
Qed.

End OidcLogins.

(** ** AWS *)

Lemma cut_here p r : cut p (p +:+ r) = Some ("", r).
Proof.
  assert (Str.strip_prefix p (p +:+ r) = Some r) as Hs by by apply Str.strip_prefix_Some.
  destruct (p +:+ r); cbn [cut]; by rewrite Hs.
Qed.

Lemma cut_next p a s b r :
  Str.strip_prefix p (String a s) = None -> cut p s = Some (b, r) -> cut p (String a s) = Some (String a b, r).
Proof. intros Hs Hc. cbn [cut]. by rewrite Hs, Hc. Qed.

Lemma cut_skip c p v s b r :
  Str.mem c v = false -> cut (String c p) s = Some (b, r) -> cut (String c p) (v +:+ s) = Some (v +:+ b, r).
Proof.
  intros Hm Hc. induction v as [|a v IH]; [done|]. cbn [Str.mem String.append] in *. apply orb_false_iff in Hm as [Ha Hm].
  apply bool_decide_eq_false in Ha. apply cut_next; [|by apply IH]. cbn [Str.strip_prefix]. by rewrite decide_False by congruence.
Qed.

(** Finds a literal in a text of literals and values. *)
Ltac cut_literals :=
  cbn [String.append];
  repeat first [apply cut_next; [vm_compute; reflexivity|] | apply cut_skip; [assumption|]];
  match goal with |- cut ?p _ = _ => exact (cut_here p _) end.

Lemma extract_tag xml tag before content after :
  cut ("<" +:+ tag +:+ ">") xml = Some (before, content +:+ "</" +:+ tag +:+ ">" +:+ after) ->
  Str.mem "<" content = false -> Str.forallb Str.is_visible content = true ->
  Aws.extract_xml_tag xml tag = Some content.
Proof.
  intros Hc Hm Hv. unfold Aws.extract_xml_tag. rewrite Hc. cbn [mbind option_bind].
  assert (cut ("</" +:+ tag +:+ ">") (content +:+ "</" +:+ tag +:+ ">" +:+ after) = Some (content +:+ "", after)) as ->.
  { apply (cut_skip "<" ("/" +:+ tag +:+ ">")); [done|]. rewrite !Str.app_assoc. apply cut_here. }
  cbn. rewrite Str.app_nil_r. f_equal. by apply Str.trim_id.
Qed.

(** A value that a document can hold as it is. *)
Definition plain (s : string) : Prop := Str.mem "<" s = false /\ Str.forallb Str.is_visible s = true.

Definition sts_document (i : Aws.StsIdentity) : string :=
  "<Arn>" +:+ i.(Aws.sts_arn) +:+ "</Arn><UserId>" +:+ i.(Aws.sts_user_id) +:+ "</UserId><Account>"
  +:+ i.(Aws.sts_account) +:+ "</Account>".

(** What is answered is what is read. *)
Lemma sts_round_trip i :
  plain i.(Aws.sts_arn) -> plain i.(Aws.sts_user_id) -> plain i.(Aws.sts_account) ->
  Aws.parse_sts_response (sts_document i) = Ok i.
Proof.
  destruct i as [arn user account]. cbn [Aws.sts_arn Aws.sts_user_id Aws.sts_account]. intros [Ha Hta] [Hu Htu] [Hc Htc].
  unfold Aws.parse_sts_response, sts_document. cbn [Aws.sts_arn Aws.sts_user_id Aws.sts_account].
  erewrite (extract_tag _ "Arn" _ arn); [|cut_literals|done..].
  erewrite (extract_tag _ "UserId" _ user); [|cut_literals|done..].
  erewrite (extract_tag _ "Account" _ account); [|cut_literals|done..].
  done.
Qed.

Lemma arn_matches_correct pattern arn :
  Aws.arn_matches pattern arn = true <-> (exists q r, pattern = q +:+ "*" /\ arn = q +:+ r) \/ pattern = arn.
Proof.
  unfold Aws.arn_matches. destruct (decide (pattern = "*")) as [->|Hne].
  - split; [|done]. intros _. left. by exists "", arn.
  - destruct (Str.strip_prefix "*" (Str.rev pattern)) as [p|] eqn:Hp.
    + apply Str.strip_prefix_Some in Hp. rewrite Str.starts_with_true.
      assert (pattern = Str.rev p +:+ "*") as Hpat by (by rewrite <- (Str.rev_involutive pattern), Hp, Str.rev_app).
      split.
      * intros [r Hr]. left. by exists (Str.rev p), r.
      * intros [(q & r & Hq & ->)|<-]; [|by eexists].
        exists r. rewrite Hpat in Hq. apply (f_equal Str.rev) in Hq. rewrite !Str.rev_app in Hq. cbn in Hq.
        injection Hq as Hq. by apply (f_equal Str.rev) in Hq; rewrite !Str.rev_involutive in Hq; subst.
    + rewrite bool_decide_eq_true. split; [by right|]. intros [(q & r & Hq & _)|]; [|done].
      rewrite Hq, Str.rev_app in Hp. done.
Qed.

Section AwsLogins.
Context `{Primitives} (parse_headers : string -> result string (list (string * string))) (config : Aws.AwsIamConfig).

(** Which roles the configuration accepts. *)
Definition role_bound (arn : string) : Prop :=
  config.(Aws.bound_iam_role_arns) = [] \/ exists p, p ∈ config.(Aws.bound_iam_role_arns) /\ Aws.arn_matches p arn = true.

Definition aws_result (i : Aws.StsIdentity) (claimed : string) : AwsResult :=
  {| aw_account_id := i.(Aws.sts_account); aw_arn := i.(Aws.sts_arn);
     aw_tenant_id := default claimed (config.(Aws.account_tenant_map) !! i.(Aws.sts_account));
     aw_policies := config.(Aws.aws_default_policies);
     aw_display_name := default i.(Aws.sts_arn) (last (Str.split "/" i.(Aws.sts_arn))) |}.

Lemma aws_accepts web url body headers claimed text i :
  (Str.starts_with "https://sts.amazonaws.com" url || Str.starts_with "https://sts." url) = true ->
  Aws.replay parse_headers web url body headers = Ok text -> Aws.parse_sts_response text = Ok i -> role_bound i.(Aws.sts_arn) ->
  Aws.validate parse_headers config web url body headers "" claimed = Ok (aws_result i claimed).
Proof.
  intros Hurl Hr Hp Hb. unfold Aws.validate. rewrite <- negb_orb, Hurl. cbn [negb]. rewrite Hr. cbn [mbind result_bind].
  rewrite Hp. cbn [mbind result_bind]. change (Str.is_empty "") with true. cbn [negb andb].
  destruct Hb as [Hb|(p & Hin & Hm)]; [by rewrite Hb|].
  assert (existsb (fun p => Aws.arn_matches p i.(Aws.sts_arn)) config.(Aws.bound_iam_role_arns) = true) as ->.
  { apply existsb_exists. exists p. by rewrite <- list_elem_of_In. }
  by rewrite andb_false_r.
Qed.

(** Who runs the server that a request names decides who the caller is. *)
Lemma any_sts_host_vouches web host body headers bytes hdr claimed i json :
  b64_decode body = Ok bytes -> parse_headers headers = Ok hdr ->
  web.(http_post) ("https://sts." +:+ host) bytes hdr = Ok {| an_status := 200; an_text := Ok (sts_document i); an_json := json |} ->
  plain i.(Aws.sts_arn) -> plain i.(Aws.sts_user_id) -> plain i.(Aws.sts_account) -> role_bound i.(Aws.sts_arn) ->
  Aws.validate parse_headers config web ("https://sts." +:+ host) body headers "" claimed = Ok (aws_result i claimed).
Proof.
  intros Hb Hh Hw Ha Hu Hc Hrole. eapply aws_accepts; [| |by apply sts_round_trip|done].
  - apply orb_true_iff. right. apply Str.starts_with_true. by exists host.
  - unfold Aws.replay. rewrite Hb. cbn [mbind result_bind]. rewrite Hh. cbn [mbind result_bind]. by rewrite Hw.
Qed.

End AwsLogins.

Section AwsTokens.
Context `{JwtLibs, Primitives, Mtls.X509, TokenLibs} (parse_headers : string -> result string (list (string * string)))
  (show_int : Z -> string) (config : FedConfig) (iss aud : string) (cfg : Config).

(** Without any AWS credential a caller gets a token of any tenant an account is
    mapped to: the host of the request it names is only required to begin with
    [sts.], so its own server answers as that account, and the login is accepted with
    the default policies. *)
Theorem forged_aws_login c web now caches io host body headers bytes hdr i json tenant s token exp :
  config.(fc_aws) = Some c -> b64_decode body = Ok bytes -> parse_headers headers = Ok hdr ->
  web.(http_post) ("https://sts." +:+ host) bytes hdr = Ok {| an_status := 200; an_text := Ok (sts_document i); an_json := json |} ->
  plain i.(Aws.sts_arn) -> plain i.(Aws.sts_user_id) -> plain i.(Aws.sts_account) -> role_bound c i.(Aws.sts_arn) ->
  c.(Aws.account_tenant_map) !! i.(Aws.sts_account) = Some tenant -> tenant <> "" ->
  issue_token iss aud now ("aws:" +:+ i.(Aws.sts_arn)) tenant c.(Aws.aws_default_policies) 3600 = Ok (token, exp) ->
  exists lease s',
    authenticate iss aud (managers parse_headers show_int config web now caches) cfg io now tenant
      (Some (MAws ("https://sts." +:+ host) body headers "")) s =
    (Ok {| ar_token := token; ar_principal_id := "aws:" +:+ i.(Aws.sts_arn); ar_tenant_id := tenant;
           ar_policies := c.(Aws.aws_default_policies); ar_expires_at := exp; ar_lease_id := lease |}, s').
Proof.
  intros Hc Hb Hh Hw Ha Hu Hacc Hrole Hmap Ht Hissue.
  pose proof (any_sts_host_vouches parse_headers c web host body headers bytes hdr tenant i json Hb Hh Hw Ha Hu Hacc Hrole) as Hv.
  unfold authenticate, Str.is_empty. rewrite bool_decide_false by done. rewrite run_lift_bind. cbn [ok_or]. rewrite run_lift_bind.
  rewrite run_bind. cbn [login]. unfold login_aws, configured. rewrite run_lift_bind. cbn [managers aws_iam_manager].
  rewrite Hc. cbn [fmap option_fmap option_map ok_or]. unfold accepted. rewrite run_lift_bind. rewrite Hv. cbn [shown].
  unfold same_tenant. rewrite run_lift_bind. cbn [aws_result aw_tenant_id]. rewrite Hmap. cbn [default from_option].
  rewrite bool_decide_true by done. rewrite run_bind.
  match goal with |- context [register ?r s] => assert (exists s1, register r s = (Ok tt, s1)) as [s1 ->] end.
  { unfold register, create_principal. destruct (principals s !! _); by eexists. }
  cbn [mret eff_ret aws_result aw_arn aw_policies]. rewrite run_lift_bind. cbn [fst snd]. unfold TOKEN_REISSUE_TTL_SECONDS. rewrite Hissue. cbn [status_of]. eauto.
Qed.

End AwsTokens.

(** ** Azure *)

Section AzureLogins.
Context `{JwtLaws} (config : Azure.AzureWorkloadConfig) (net : Z -> Web).

Inductive azure_step : gmap string Azure.CachedJwks -> gmap string Azure.CachedJwks -> Prop :=
| azure_login now jwt directory subscription tenant cache :
    azure_step cache (Azure.validate config (net now) now jwt directory subscription tenant cache).2.

Definition from_directory (cache : gmap string Azure.CachedJwks) : Prop :=
  forall d e, cache !! d = Some e -> Azure.fetch (net e.(Azure.ac_fetched_at)) d = Ok e.(Azure.ac_keys).

Lemma azure_get_jwks now d cache r cache' :
  from_directory cache -> Azure.get_jwks config (net now) now d cache = (r, cache') ->
  from_directory cache' /\
  forall keys, r = Ok keys -> exists t,
    (t = now \/ Azure.age now t < config.(Azure.jwks_cache_ttl_seconds)) /\ Azure.fetch (net t) d = Ok keys.
Proof.
  intros Hc. unfold Azure.get_jwks. destruct (cache !! d ≫= _) as [keys|] eqn:Hl.
  - apply bind_Some in Hl as (e & He & Hf). intros [= <- <-]. split; [done|]. intros keys' [= <-].
    destruct (_ <? _) eqn:Hage; [|done]. injection Hf as <-. exists e.(Azure.ac_fetched_at). split; [right; by apply Z.ltb_lt|].
    by apply Hc.
  - destruct (Azure.fetch (net now) d) as [keys|e] eqn:Hk; intros [= <- <-].
    + split; [|intros keys' [= <-]; exists now; by split; [left|]].
      intros d' e He. destruct (decide (d = d')) as [<-|Hne].
      * rewrite lookup_insert_eq in He. by injection He as <-.
      * rewrite lookup_insert_ne in He by done. by apply Hc.
    + by split.
Qed.

Lemma azure_validate_cases now jwt d sub tenant cache r cache' :
  from_directory cache -> Azure.validate config (net now) now jwt d sub tenant cache = (r, cache') ->
  from_directory cache' /\
  forall res, r = Ok res -> exists t keys jwk key c claims,
    (t = now \/ Azure.age now t < config.(Azure.jwks_cache_ttl_seconds)) /\ Azure.fetch (net t) d = Ok keys /\ jwk ∈ keys /\
    from_rsa_components jwk.(Azure.ak_n) jwk.(Azure.ak_e) = Ok key /\
    decode now jwt key {| v_alg := "RS256"; v_iss := Some ("https://login.microsoftonline.com/" +:+ d +:+ "/v2.0");
                          v_aud := Some config.(Azure.expected_audience); v_leeway := 60 |} = Ok c /\
    Azure.azure_claims c = Ok claims /\ Azure.identify config claims d sub tenant = Ok res.
Proof.
  intros Hc. unfold Azure.validate. rewrite run_lift_bind. destruct (decode_header jwt) as [header|]; cbn [Azure.invalid];
    [|by intros [= <- <-]]. rewrite run_lift_bind. destruct (hd_kid header) as [kid|]; cbn [ok_or]; [|by intros [= <- <-]].
  rewrite run_bind. destruct (Azure.get_jwks _ _ _ _ _) as [g c1] eqn:Hg. apply azure_get_jwks in Hg as [Hc1 Hkeys]; [|done].
  destruct g as [keys|e]; [|by intros [= <- <-]]. destruct (Hkeys _ eq_refl) as (t & Ht & Hf). rewrite run_lift_bind.
  destruct (head _) as [jwk|] eqn:Hj; cbn [ok_or]; [|by intros [= <- <-]]. apply head_filter_in in Hj as [Hin _].
  rewrite run_lift_bind. destruct (from_rsa_components _ _) as [key|] eqn:Hkey; cbn [Azure.invalid]; [|by intros [= <- <-]].
  rewrite run_lift_bind. destruct (decode _ _ _ _) as [c|] eqn:Hd; cbn [mbind result_bind]; [|by intros [= <- <-]].
  destruct (Azure.azure_claims c) as [claims|] eqn:Hcl; cbn [Azure.invalid]; [|by intros [= <- <-]].
  unfold lift. intros [= <- <-]. split; [done|]. intros res Hres. by exists t, keys, jwk, key, c, claims.
Qed.

Lemma azure_reachable cache : rtc azure_step ∅ cache -> from_directory cache.
Proof.
  intros Hr. assert (from_directory ∅) as Hempty by (by intros d e He; rewrite lookup_empty in He).
  revert Hempty. induction Hr as [|c1 c2 c3 Hs _ IH]; [done|]. intros Hc. apply IH. destruct Hs as [now jwt d sub tenant c].
  eapply azure_validate_cases; [done|apply surjective_pairing].
Qed.

Lemma identify_ok claims d sub tenant res :
  Azure.identify config claims d sub tenant = Ok res ->
  claims.(Azure.ac_oid) = Some res.(az_object_id) /\ claims.(Azure.ac_tid) = Some d /\
  res.(az_tenant_id) = default tenant (config.(Azure.azure_tenant_map) !! d) /\
  res.(az_policies) = config.(Azure.az_default_policies) /\ Azure.check_subscription config claims sub = Ok tt.
Proof.
  unfold Azure.identify. intros (oid & Ho & (tid & Ht & Hr)%result_bind_ok)%result_bind_ok.
  destruct (Azure.ac_oid claims); simplify_eq/=. destruct (Azure.ac_tid claims); simplify_eq/=.
  case_bool_decide as Hd; [done|]. subst d. apply result_bind_ok in Hr as ([] & Hs & [= <-]). done.
Qed.

(** An Azure token is accepted only where the directory the caller names vouches for
    it: a key that directory published signed it, it says so itself, it has not expired
    by more than the leeway, and where it names a subscription that one is bound. The
    tenant is the one the directory is mapped to, and where it is mapped to none, the
    one the caller asks for. *)
Theorem azure_login_is_vouched cache now jwt directory subscription tenant r cache' :
  rtc azure_step ∅ cache ->
  Azure.validate config (net now) now jwt directory subscription tenant cache = (Ok r, cache') ->
  exists t keys jwk key c claims,
    (t = now \/ Azure.age now t < config.(Azure.jwks_cache_ttl_seconds)) /\ Azure.fetch (net t) directory = Ok keys /\
    jwk ∈ keys /\ from_rsa_components jwk.(Azure.ak_n) jwk.(Azure.ak_e) = Ok key /\ signed jwt key c /\
    Azure.azure_claims c = Ok claims /\ claims.(Azure.ac_tid) = Some directory /\
    claims.(Azure.ac_oid) = Some r.(az_object_id) /\
    (exists e, get_field c "exp" = Some (JInt e) /\ now / NANOS - 60 <= e) /\
    (forall s, Azure.subscription_of claims = Some s -> config.(Azure.bound_subscription_ids) <> [] ->
       s ∈ config.(Azure.bound_subscription_ids)) /\
    r.(az_tenant_id) = default tenant (config.(Azure.azure_tenant_map) !! directory).
Proof.
  intros Hr%azure_reachable Hv. destruct (azure_validate_cases _ _ _ _ _ _ _ _ Hr Hv) as [_ Hok].
  destruct (Hok _ eq_refl) as (t & keys & jwk & key & c & claims & Ht & Hf & Hin & Hkey & Hd & Hcl & Hid).
  apply identify_ok in Hid as (Hoid & Htid & Htn & _ & Hs).
  exists t, keys, jwk, key, c, claims. split_and!; try done.
  - by eapply decode_signed.
  - by destruct (decode_fresh _ _ _ _ _ Hd) as (e & He & Hle); exists e.
  - intros s Hsub Hne. unfold Azure.check_subscription in Hs. rewrite bool_decide_false in Hs by done. rewrite Hsub in Hs.
    by case_bool_decide.
Qed.

(** The list of bound subscriptions binds only tokens and callers that name one: a
    token without the claim, from a caller who names none, passes it. *)
Theorem subscription_check_is_optional claims :
  claims.(Azure.ac_xms_mirid) = None -> Azure.check_subscription config claims "" = Ok tt.
Proof.
  intros Hm. unfold Azure.check_subscription, Azure.subscription_of. case_bool_decide; [done|]. by rewrite Hm.
Qed.

End AzureLogins.

(** ** Client certificates *)

Section Certificates.
Context `{Mtls.X509}.

(** The fuel of the loop is enough. *)
Lemma parse_blocks_fuel `{!Mtls.X509Laws} fuel fuel' remaining ders :
  (String.length remaining < fuel)%nat -> (String.length remaining < fuel')%nat ->
  Mtls.parse_blocks fuel remaining ders = Mtls.parse_blocks fuel' remaining ders.
Proof.
  revert fuel' remaining ders. induction fuel as [|fuel IH]; intros fuel' remaining ders Hf Hf'; [lia|].
  destruct fuel' as [|fuel']; [lia|]. cbn [Mtls.parse_blocks]. destruct (Str.forallb _ _); [done|].
  destruct (Mtls.parse_x509_pem remaining) as [[[rest label] der]|e] eqn:Hp; [|done].
  apply Mtls.pem_consumes in Hp. apply IH; lia.
Qed.

Lemma verify_against_ok ders cert u :
  Mtls.verify_against ders cert = Ok u ->
  exists der ca, der ∈ ders /\ Mtls.from_der der = Ok ca /\ Mtls.verify_signature cert ca.(Mtls.ce_public_key) = true.
Proof.
  induction ders as [|der ders IH]; cbn [Mtls.verify_against]; [done|].
  destruct (Mtls.from_der der) as [ca|] eqn:Hd.
  - destruct (Mtls.verify_signature _ _) eqn:Hv; [intros _; exists der, ca; by split_and!; [left|..]|].
    intros (d & c & Hin & ? & ?)%IH. exists d, c. by split_and!; [right|..].
  - intros (d & c & Hin & ? & ?)%IH. exists d, c. by split_and!; [right|..].
Qed.

Lemma verify_against_intro ders cert der ca :
  der ∈ ders -> Mtls.from_der der = Ok ca -> Mtls.verify_signature cert ca.(Mtls.ce_public_key) = true ->
  Mtls.verify_against ders cert = Ok tt.
Proof.
  intros Hin Hca Hsig. induction ders as [|d ders IH]; [by apply elem_of_nil in Hin|]. cbn [Mtls.verify_against].
  apply elem_of_cons in Hin as [->|Hin]; [by rewrite Hca, Hsig|].
  destruct (Mtls.from_der d) as [c|]; [|by apply IH]. destruct (Mtls.verify_signature cert (Mtls.ce_public_key c)); [done|by apply IH].
Qed.

(** A certificate is accepted exactly when it parses, a trusted CA signed it, its end
    is not past and its subject has both fields; nothing else about it, not when it
    begins to be valid and not who presents it, plays a part. *)
Theorem certificate_accepted_iff now m pem r :
  Mtls.validate_certificate now m pem = Ok r <->
  exists block cert,
    Mtls.parse_x509_pem pem = Ok block /\ Mtls.from_der block.2 = Ok cert /\
    (exists der ca, der ∈ m.(Mtls.trusted_ca_ders) /\ Mtls.from_der der = Ok ca /\
       Mtls.verify_signature cert ca.(Mtls.ce_public_key) = true) /\
    now <= cert.(Mtls.ce_not_after) /\
    Mtls.extract_subject_attribute cert (default "CN" m.(Mtls.mm_mapping).(Mtls.principal_id_field)) = Some r.(mt_principal_id) /\
    Mtls.extract_subject_attribute cert (default "O" m.(Mtls.mm_mapping).(Mtls.tenant_id_field)) = Some r.(mt_tenant_id) /\
    r.(mt_policies) = default [] m.(Mtls.mm_mapping).(Mtls.mt_default_policies) /\ r.(mt_display_name) = cert.(Mtls.ce_subject).
Proof.
  unfold Mtls.validate_certificate, Mtls.required, Mtls.is_expired. split.
  - destruct (Mtls.parse_x509_pem pem) as [block|]; [|done]. cbn [mbind result_bind].
    destruct (Mtls.from_der block.2) as [cert|] eqn:Hd; [|done]. cbn [mbind result_bind].
    destruct (Mtls.verify_against _ _) as [u|] eqn:Hv; [|done]. cbn [mbind result_bind]. apply verify_against_ok in Hv.
    destruct (_ <? now) eqn:He; [done|]. cbn [mbind result_bind]. apply Z.ltb_ge in He.
    destruct (Mtls.extract_subject_attribute cert (default "CN" _)) as [p|] eqn:Hp; cbn [ok_or mbind result_bind]; [|done].
    destruct (Mtls.extract_subject_attribute cert (default "O" _)) as [t|] eqn:Ht; cbn [ok_or mbind result_bind]; [|done].
    intros [= <-]. exists block, cert. by split_and!.
  - intros (block & cert & Hp & Hd & (der & ca & Hin & Hca & Hsig) & Hna & Hpr & Htn & Hpol & Hdn).
    rewrite Hp. cbn [mbind result_bind]. rewrite Hd. cbn [mbind result_bind].
    assert (Mtls.verify_against m.(Mtls.trusted_ca_ders) cert = Ok tt) as ->.
    { by apply (verify_against_intro _ cert der ca). }
    cbn [mbind result_bind]. rewrite (proj2 (Z.ltb_ge _ _) Hna). cbn [mbind result_bind]. rewrite Hpr. cbn [ok_or mbind result_bind].
    rewrite Htn. cbn [ok_or mbind result_bind]. rewrite <- Hpol, <- Hdn. by destruct r.
Qed.

End Certificates.

(** ** Concrete logins *)

Module FedDemo.

Definition NOW : Z := 1000 * NANOS.

Definition claims : Json :=
  JObj [("iss", JStr "https://idp"); ("sub", JStr "ann"); ("aud", JArr [JStr "vault"; JStr "other"]); ("exp", JInt 2000); ("iat", JInt 900);
        ("groups", JArr [JStr "read"]); ("tenant_id", JStr "acme")].

#[local] Instance jwt : JwtLibs := {|
  decode_header := fun _ => Ok {| hd_kid := Some "k1"; hd_alg := "RS256" |};
  from_jwk := fun k => Ok k.(jk_material);
  from_rsa_components := fun n _ => Ok n;
  alg_of_str := Some;
  decode := fun now token key v =>
    if decide (token = "tok" /\ key = "pk" /\ v.(v_iss) = Some "https://idp" /\ v.(v_aud) = Some "vault" /\
               now / NANOS - v.(v_leeway) <= 2000)
    then Ok claims else Err "invalid";
  jwk_set := fun _ => Ok [{| jk_kid := Some "k1"; jk_rsa := true; jk_alg := None; jk_material := "pk" |}];
  serde_error := fun k => k;
  show_status := fun _ => "status";
|}.

Definition is_signed (token key : string) (c : Json) : Prop := token = "tok" /\ key = "pk" /\ c = claims.

#[local] Instance jwt_laws : JwtLaws is_signed.
Proof.
  split; cbn; intros now token key v c.
  - case_decide as Hd; [|done]. intros [= <-]. by destruct Hd as (-> & -> & _).
  - case_decide as Hd; [|done]. intros [= <-]. exists 2000. by destruct Hd as (_ & _ & _ & _ & Hle).
  - intros iss s. case_decide as Hd; [|done]. destruct Hd as (_ & _ & -> & _). intros [= <-] [= <-] Hf. vm_compute in Hf. congruence.
  - intros aud s. case_decide as Hd; [|done]. destruct Hd as (_ & _ & _ & -> & _). intros [= <-] [= <-] Hf. vm_compute in Hf. congruence.
  - intros aud l names. case_decide as Hd; [|done]. destruct Hd as (_ & _ & _ & -> & _). intros [= <-] [= <-] Hf Hm.
    vm_compute in Hf. injection Hf as <-. vm_compute in Hm. injection Hm as <-. by left.
Qed.

Definition web : Web := {|
  http_get := fun _ => Ok {| an_status := 200; an_text := Ok ""; an_json := Ok JNull |};
  http_post := fun _ _ _ =>
    Ok {| an_status := 200; an_json := Err "no JSON";
          an_text := Ok (sts_document {| Aws.sts_arn := "arn:aws:iam::123456789012:role/admin"; Aws.sts_user_id := "AIDA";
                                         Aws.sts_account := "123456789012" |}) |};
|}.

Definition provider : Oidc.OidcProviderConfig :=
  {| Oidc.op_issuer := "https://idp"; Oidc.op_client_id := "vault"; Oidc.op_jwks_uri := Some "https://idp/keys";
     Oidc.op_mapping := {| Oidc.tenant_id_claim := None; Oidc.policies_claim := None; Oidc.default_policies := Some ["default"] |} |}.

Definition ann : OidcResult :=
  {| oi_subject := "ann"; oi_tenant_id := "acme"; oi_policies := ["read"; "default"]; oi_display_name := "ann" |}.

Lemma oidc_login_is_vouched_witness :
  exists config t keys c,
    ({["idp" := provider]} : gmap string _) !! "idp" = Some config /\
    (NOW - t) / NANOS < 3600 /\ Oidc.keys_of web config = Ok keys /\
    vouched (signed := is_signed) NOW config keys "tok" c /\
    get_field c "sub" = Some (JStr "ann") /\ ann.(oi_tenant_id) <> "" /\
    get_field c (default "tenant_id" config.(Oidc.op_mapping).(Oidc.tenant_id_claim)) = Some (JStr "acme") /\
    ["read"; "default"] = listed_policies c (default "groups" config.(Oidc.op_mapping).(Oidc.policies_claim)) ++
                          default [] config.(Oidc.op_mapping).(Oidc.default_policies).
Proof.
  apply (oidc_login_is_vouched (signed := is_signed) {["idp" := provider]} (fun _ => web) ∅ NOW "idp" "tok" ann
           (Oidc.validate_id_token {["idp" := provider]} web NOW "idp" "tok" ∅).2).
  - apply rtc_refl.
  - vm_compute. reflexivity.
Defined.

#[local] Instance prim : Primitives := stand_in.

(** A certificate that is not valid yet. *)
Definition cert : Mtls.Cert :=
  {| Mtls.ce_public_key := "pk"; Mtls.ce_not_before := 5000; Mtls.ce_not_after := 9000;
     Mtls.ce_attribute := fun a => match a with Mtls.CommonName => [Some "svc"] | Mtls.Organization => [Some "acme"] | _ => [] end;
     Mtls.ce_subject := "CN=svc, O=acme"; Mtls.ce_serial := "01" |}.

#[local] Instance x509 : Mtls.X509 := {|
  Mtls.parse_x509_pem := fun s => match s with "" => Err "empty" | String _ _ => Ok ("", "CERTIFICATE", s) end;
  Mtls.from_der := fun _ => Ok cert;
  Mtls.verify_signature := fun _ _ => true;
  Mtls.to_uppercase := fun s => s;
|}.

#[local] Instance x509_laws : Mtls.X509Laws.
Proof. intros [|a s] rest label der Hp; cbn in *; [done|]. injection Hp as <- _ _. cbn. lia. Qed.

Example certificate_before_its_time :
  exists m, Mtls.new "ca" {| Mtls.tenant_id_field := None; Mtls.principal_id_field := None; Mtls.mt_default_policies := Some ["read"] |} = Ok m /\
    Mtls.validate_certificate 1000 m "pem" =
      Ok {| mt_principal_id := "svc"; mt_tenant_id := "acme"; mt_policies := ["read"]; mt_display_name := "CN=svc, O=acme" |}.
Proof. eexists. split; vm_compute; reflexivity. Qed.

#[local] Instance tokens : TokenLibs := {|
  token_hash := fun t => t;
  representable := fun _ => true;
  show_z := fun _ => "0";
  debug_str := fun s => s;
  rfc3339 := fun _ => "";
  hs256_sign := fun _ => Ok "jwt";
  hs256_open := fun _ => Err "InvalidSignature";
|}.

Definition cfg : Config :=
  {| issuer := "wslvault"; audience := "wslvault"; signing_keys := None; hs256_encode := fun _ => Ok "jwt";
     crypto := None; lease_rpc := None |}.

Definition aws : Aws.AwsIamConfig :=
  {| Aws.account_tenant_map := {["123456789012" := "acme"]}; Aws.aws_default_policies := ["default"];
     Aws.bound_iam_role_arns := ["arn:aws:iam::123456789012:role/*"] |}.

Definition fed : FedConfig := {| fc_oidc := None; fc_mtls := None; fc_aws := Some aws; fc_azure := None |}.

Lemma forged_aws_login_witness :
  exists lease s',
    authenticate "wslvault" "wslvault"
      (managers (fun _ => Ok []) (fun _ => "") fed web NOW {| oidc_cache := ∅; azure_cache := ∅ |}) cfg None NOW "acme"
      (Some (MAws "https://sts.evil.example" "" "" ""))
      {| revocation_pool := None; revoked_tokens := ∅; principals := ∅ |} =
    (Ok {| ar_token := "jwt"; ar_principal_id := "aws:arn:aws:iam::123456789012:role/admin"; ar_tenant_id := "acme";
           ar_policies := ["default"]; ar_expires_at := 4600; ar_lease_id := lease |}, s').
Proof.
  apply (forged_aws_login (fun _ => Ok []) (fun _ => "") fed "wslvault" "wslvault" cfg aws web NOW
           {| oidc_cache := ∅; azure_cache := ∅ |} None "evil.example" "" "" "" []
           {| Aws.sts_arn := "arn:aws:iam::123456789012:role/admin"; Aws.sts_user_id := "AIDA"; Aws.sts_account := "123456789012" |}
           (Err "no JSON") "acme" {| revocation_pool := None; revoked_tokens := ∅; principals := ∅ |} "jwt" 4600).
  - reflexivity.
  - reflexivity.
  - reflexivity.
  - reflexivity.
  - by split.
  - by split.
  - by split.
  - right. exists "arn:aws:iam::123456789012:role/*". split; [by left|vm_compute; reflexivity].
  - reflexivity.
  - done.
  - vm_compute. reflexivity.
Defined.

End FedDemo.
