(* ===== verification/AuthMethods.v ===== *)
(** * Logins over HTTP

    [services/identity-service/src/auth_methods]: service accounts of a Kubernetes
    cluster ([kubernetes.rs]), a directory ([ldap.rs]) and the device authorization
    grant ([oauth_device.rs]), each with its handlers, which issue the tokens of
    [Tokens]. The device flow validates ID tokens with [Federation.Oidc].

    What the network answers a request is [Web]; the LDAP library is the class
    [LdapLib], whose law is that a connection that was unbound serves nothing more.
    Requests run one after the other. *)

From Stdlib Require Import Lia Ascii.
From S2P Require Import Prelude Errors Effects Envelope Mfa Tokens Json Federation.

(** A reply: the status and the body, an error's code and message or a token. *)
Record LoginBody := {
  lb_token : string;
  lb_expires_at : Z;
  lb_tenant_id : string;
  lb_policies : list string;
  lb_lease_id : option string;
}.

(** What the service issues tokens with. *)
Section Issuing.
Context `{TokenLibs} (iss aud : string) (cfg : Config).

Definition issue_and_lease (now : Z) (subject tenant : string) (policies : list string) (ttl : Z) : vresult LoginBody :=
  match issue_token iss aud now subject tenant policies ttl with
  | Err e => Err e
  | Ok (token, expires_at) =>
      Ok {| lb_token := token; lb_expires_at := expires_at; lb_tenant_id := tenant; lb_policies := policies;
            lb_lease_id := try_create_token_lease token_hash cfg tenant subject token ttl |}
  end.

End Issuing.

(** ** kubernetes.rs *)

Module Kubernetes.

Definition K8S_JWT_TTL_SECONDS : Z := 3600.
Definition MAX_ROLE_NAME_LEN : nat := 253.
Definition JWKS_CACHE_TTL_SECS : Z := 3600.

Inductive KubernetesError :=
| RoleNotFound (role : string)
| InvalidRoleName
| TokenReviewFailed (e : string)
| UnboundServiceAccount (namespace name role : string)
| JwtValidation (e : string)
| JwksFetch (e : string)
| TokenIssuance (e : string).

Definition status_code (e : KubernetesError) : Z :=
  match e with
  | RoleNotFound _ => 404
  | InvalidRoleName => 400
  | TokenReviewFailed _ => 502
  | UnboundServiceAccount _ _ _ => 403
  | JwtValidation _ => 401
  | JwksFetch _ => 502
  | TokenIssuance _ => 500
  end.

Definition error_code (e : KubernetesError) : string :=
  match e with
  | RoleNotFound _ => "role_not_found"
  | InvalidRoleName => "invalid_role_name"
  | TokenReviewFailed _ => "token_review_failed"
  | UnboundServiceAccount _ _ _ => "unbound_service_account"
  | JwtValidation _ => "jwt_validation_failed"
  | JwksFetch _ => "jwks_fetch_failed"
  | TokenIssuance _ => "token_issuance_failed"
  end.

Definition show (e : KubernetesError) : string :=
  match e with
  | RoleNotFound r => "role '" +:+ r +:+ "' is not configured"
  | InvalidRoleName => "role name is invalid"
  | TokenReviewFailed e => "token review failed: " +:+ e
  | UnboundServiceAccount ns n r => "service account '" +:+ ns +:+ "/" +:+ n +:+ "' is not bound to role '" +:+ r +:+ "'"
  | JwtValidation e => "JWT validation failed: " +:+ e
  | JwksFetch e => "JWKS fetch failed: " +:+ e
  | TokenIssuance e => "token issuance failed: " +:+ e
  end.

Inductive ValidationMode := TokenReview | Jwks.

Record KubernetesRoleConfig := {
  bound_namespaces : list string;
  bound_names : list string;
  kr_tenant_id : string;
  kr_policies : list string;
}.

Record KubernetesConfig := {
  kubernetes_host : string;
  reviewer_token : option string;
  k_issuer : option string;
  validation_mode : option ValidationMode;
  roles : gmap string KubernetesRoleConfig;
}.

Record ServiceAccountIdentity := { sa_namespace : string; sa_name : string }.

Record KubernetesValidationResult := {
  kv_namespace : string;
  kv_service_account_name : string;
  kv_tenant_id : string;
  kv_policies : list string;
}.

(** [splitn(2, ':')] of what follows the prefix. *)
Definition parse_sa_username (username : string) : result KubernetesError ServiceAccountIdentity :=
  rest ← ok_or (Str.strip_prefix "system:serviceaccount:" username)
           (JwtValidation ("unexpected SA username format: '" +:+ username +:+ "'"));
  let '(namespace, name) := match Str.split_once ":" rest with Some (a, b) => (a, Some b) | None => (rest, None) end in
  if Str.is_empty namespace then Err (JwtValidation "empty namespace in SA username")
  else match name with
       | Some n => if Str.is_empty n then Err (JwtValidation "empty name in SA username")
                   else Ok {| sa_namespace := namespace; sa_name := n |}
       | None => Err (JwtValidation "empty name in SA username")
       end.

Definition allows (bound : list string) (x : string) : bool := existsb (fun b => bool_decide (b = "*") || bool_decide (b = x)) bound.

Definition check_role_bindings (identity : ServiceAccountIdentity) (role_name : string) (role : KubernetesRoleConfig) :
    result KubernetesError () :=
  if allows role.(bound_namespaces) identity.(sa_namespace) && allows role.(bound_names) identity.(sa_name)
  then Ok tt
  else Err (UnboundServiceAccount identity.(sa_namespace) identity.(sa_name) role_name).

Section Manager.
Context `{JwtLibs} (chars : string -> list string) (is_alphanumeric : string -> bool)
  (review_body : string -> string) (config : KubernetesConfig).

Definition eff := (eff (gmap string Oidc.JwksCacheEntry) KubernetesError).

Definition validate_k8s_name (name : string) : bool :=
  negb (Str.is_empty name) && (String.length name <=? MAX_ROLE_NAME_LEN)%nat
  && forallb (fun c => is_alphanumeric c || bool_decide (c ∈ ["-"; ":"; "."])) (chars name).

(** The text of the reviewed user. *)
Definition reviewed (v : Json) : result string (option bool * option string) :=
  status ← ok_or (get_field v "status") (serde_error "status");
  authenticated ← match get_field status "authenticated" with
                  | None | Some JNull => Ok None
                  | Some (JBool b) => Ok (Some b)
                  | Some _ => Err (serde_error "authenticated")
                  end;
  username ← match get_field status "user" with
             | None | Some JNull => Ok None
             | Some u => opt_text u "username"
             end;
  Ok (authenticated, username).

Definition validate_via_token_review (web : Web) (sa_jwt : string) : result KubernetesError ServiceAccountIdentity :=
  reviewer ← ok_or config.(reviewer_token) (TokenReviewFailed "reviewer_token is required for TokenReview mode");
  answer ← match web.(http_post) (Str.trim_end "/" config.(kubernetes_host) +:+ "/apis/authentication.k8s.io/v1/tokenreviews")
                   (review_body sa_jwt) [("authorization", "Bearer " +:+ reviewer)] with
           | Ok a => Ok a
           | Err e => Err (TokenReviewFailed ("HTTP request: " +:+ e))
           end;
  if negb ((200 <=? answer.(an_status)) && (answer.(an_status) <? 300))
  then Err (TokenReviewFailed ("API server returned HTTP " +:+ show_status answer.(an_status)))
  else
    review ← match answer.(an_json) ≫= reviewed with
             | Ok r => Ok r
             | Err e => Err (TokenReviewFailed ("parse response: " +:+ e))
             end;
    if bool_decide (review.1 <> Some true) then Err (JwtValidation "token review: not authenticated")
    else
      username ← ok_or review.2 (TokenReviewFailed "no username in token review response");
      parse_sa_username username.

Definition fetch (web : Web) (issuer : string) : result KubernetesError (list Jwk) :=
  discovery ← match web.(http_get) (discovery_url issuer) with
              | Ok a => Ok a
              | Err e => Err (JwksFetch ("discovery HTTP request: " +:+ e))
              end;
  uri ← match (v ← discovery.(an_json); text_field v "jwks_uri") with
        | Ok u => Ok u
        | Err e => Err (JwksFetch ("parse discovery doc: " +:+ e))
        end;
  answer ← match web.(http_get) uri with Ok a => Ok a | Err e => Err (JwksFetch ("JWKS HTTP request: " +:+ e)) end;
  match answer.(an_json) ≫= jwk_set with
  | Ok k => Ok k
  | Err e => Err (JwksFetch ("parse JWKS: " +:+ e))
  end.

Definition get_jwks (web : Web) (now : Z) (issuer : string) : eff (list Jwk) := fun cache =>
  match (e ← cache !! issuer;
         if (now - e.(Oidc.jc_fetched_at)) / NANOS <? JWKS_CACHE_TTL_SECS then Some e.(Oidc.jc_keys) else None) with
  | Some keys => (Ok keys, cache)
  | None =>
      match fetch web issuer with
      | Err e => (Err e, cache)
      | Ok keys => (Ok keys, <[issuer := {| Oidc.jc_keys := keys; Oidc.jc_fetched_at := now |}]> cache)
      end
  end.

Definition invalid {A} (prefix : string) (r : result string A) : result KubernetesError A :=
  match r with Ok a => Ok a | Err e => Err (JwtValidation (prefix +:+ e)) end.

(** The dedicated claims, else the subject. *)
Definition identity_of (c : Json) : result string (result KubernetesError ServiceAccountIdentity) :=
  ns ← opt_text c "kubernetes.io/serviceaccount/namespace";
  sa ← opt_text c "kubernetes.io/serviceaccount/service-account.name";
  sub ← opt_text c "sub";
  Ok (match ns, sa with
      | Some n, Some s => Ok {| sa_namespace := n; sa_name := s |}
      | _, _ => match sub with
                | Some s => parse_sa_username s
                | None => Err (JwtValidation "cannot determine service account identity from JWT claims")
                end
      end).

Definition checked (now : Z) (issuer : string) (keys : list Jwk) (sa_jwt : string) : result KubernetesError ServiceAccountIdentity :=
  header ← invalid "decode header: " (decode_header sa_jwt);
  jwk ← match header.(hd_kid) with
        | Some kid => ok_or (find_jwk keys kid) (JwtValidation ("no JWK for kid '" +:+ kid +:+ "'"))
        | None => ok_or (first_rsa keys) (JwtValidation "no RSA key in JWKS")
        end;
  key ← invalid "build decoding key: " (from_jwk jwk);
  identity ← invalid "validate token: "
    (c ← decode now sa_jwt key {| v_alg := algorithm_for jwk header; v_iss := Some issuer; v_aud := None; v_leeway := 0 |};
     identity_of c);
  identity.

Definition validate_via_jwks (web : Web) (now : Z) (sa_jwt : string) : eff ServiceAccountIdentity :=
  issuer ← lift (ok_or config.(k_issuer) (JwksFetch "issuer is required for JWKS validation mode"));
  keys ← get_jwks web now issuer;
  lift (checked now issuer keys sa_jwt).

Definition authenticate (web : Web) (now : Z) (sa_jwt role_name : string) : eff KubernetesValidationResult :=
  _ ← lift (if validate_k8s_name role_name then Ok tt else Err InvalidRoleName);
  role ← lift (ok_or (config.(roles) !! role_name) (RoleNotFound role_name));
  identity ← match default TokenReview config.(validation_mode) with
             | TokenReview => lift (validate_via_token_review web sa_jwt)
             | Jwks => validate_via_jwks web now sa_jwt
             end;
  _ ← lift (check_role_bindings identity role_name role);
  mret {| kv_namespace := identity.(sa_namespace); kv_service_account_name := identity.(sa_name);
          kv_tenant_id := role.(kr_tenant_id); kv_policies := role.(kr_policies) |}.

Definition handle_kubernetes_login `{TokenLibs} (iss aud : string) (cfg : Config) (web : Web) (now : Z) (jwt role : string) :
    eff (KubernetesValidationResult * LoginBody) :=
  result ← authenticate web now jwt role;
  body ← lift (match issue_and_lease iss aud cfg now (result.(kv_namespace) +:+ ":" +:+ result.(kv_service_account_name))
                     result.(kv_tenant_id) result.(kv_policies) K8S_JWT_TTL_SECONDS with
               | Ok b => Ok b
               | Err e => Err (TokenIssuance (display debug_str e))
               end);
  mret (result, body).

(** The status of a reply. *)
Definition respond {A} (r : result KubernetesError A) : Z := match r with Ok _ => 200 | Err e => status_code e end.

End Manager.
End Kubernetes.

(** ** ldap.rs *)

(** [s.replace(p, v)]; each round uses up a [p], which is not empty. *)
Fixpoint replace_all (fuel : nat) (p v s : string) : string :=
  match fuel with
  | O => s
  | S fuel => match cut p s with Some (b, r) => b +:+ v +:+ replace_all fuel p v r | None => s end
  end.

Definition replace (p v s : string) : string := replace_all (String.length s) p v s.

Module Ldap.

Definition MAX_USERNAME_LEN : nat := 256.
Definition MAX_PASSWORD_LEN : nat := 1024.
Definition DEFAULT_GROUP_ATTRIBUTE : string := "memberOf".
Definition LDAP_JWT_TTL_SECONDS : Z := 3600.

Inductive LdapError :=
| InvalidUsername
| InvalidCredentials
| ConnectionError (e : string)
| SearchError (e : string)
| NoTenantResolved
| TokenIssuance (e : string).

Definition status_code (e : LdapError) : Z :=
  match e with
  | InvalidUsername => 400
  | InvalidCredentials => 401
  | ConnectionError _ | SearchError _ => 502
  | NoTenantResolved => 403
  | TokenIssuance _ => 500
  end.

Definition error_code (e : LdapError) : string :=
  match e with
  | InvalidUsername => "invalid_username"
  | InvalidCredentials => "invalid_credentials"
  | ConnectionError _ => "ldap_connection_error"
  | SearchError _ => "ldap_search_error"
  | NoTenantResolved => "no_tenant_resolved"
  | TokenIssuance _ => "token_issuance_failed"
  end.

Inductive LdapBindMode :=
| DirectBind (dn_template : string)
| SearchThenBind (service_account_dn service_account_password search_base search_filter_template : string).

Inductive LdapTlsMode := NoTls | Starttls | Ldaps.

Record LdapConfig := {
  l_url : string;
  bind_mode : LdapBindMode;
  group_attribute : option string;
  group_policy_map : gmap string (list string);
  group_tenant_map : gmap string string;
  default_tenant_id : option string;
  l_default_policies : list string;
  tls_mode : option LdapTlsMode;
}.

Record LdapValidationResult := { lr_dn : string; lr_tenant_id : string; lr_policies : list string }.

Record Entry := { en_dn : string; en_attrs : gmap string (list string) }.

Inductive Scope := Base | Subtree.

(** Connections; a request opens the first and the second. *)
Class LdapLib := {
  Conn : Type;
  with_settings : nat -> bool -> string -> result string Conn;
  simple_bind : Conn -> string -> string -> result string Z * Conn;
  search : Conn -> string -> Scope -> string -> list string -> result string (list Entry) * Conn;
  unbind : Conn -> result string () * Conn;
}.

(** [unbind] ends the connection. *)
Class LdapLaws `{LdapLib} : Prop :=
  unbound_serves_nothing : forall c c' base scope filter attrs,
    unbind c = (Ok tt, c') -> exists e, (search c' base scope filter attrs).1 = Err e.

Definition LDAP_DN_SPECIAL_CHARS : list ascii :=
  [","; "+"; ascii_of_nat 34; ascii_of_nat 92; "<"; ">"; ";"; "#"; "="]%char.

Definition forbidden (a : ascii) : bool :=
  (nat_of_ascii a <? 32)%nat || (nat_of_ascii a =? 127)%nat || bool_decide (a ∈ LDAP_DN_SPECIAL_CHARS).

(** Every forbidden character is ASCII. *)
Definition sanitise_username (username : string) : result LdapError string :=
  if Str.is_empty username || negb (Str.forallb (fun a => negb (forbidden a)) username) then Err InvalidUsername
  else Ok username.

Section Manager.
Context (config : LdapConfig).

Definition starttls : bool := match config.(tls_mode) with Some Starttls => true | _ => false end.

Definition group_attr : string := default DEFAULT_GROUP_ATTRIBUTE config.(group_attribute).

Fixpoint first_tenant (groups : list string) : option string :=
  match groups with
  | [] => None
  | g :: groups => match config.(group_tenant_map) !! g with Some t => Some t | None => first_tenant groups end
  end.

Definition map_groups (groups : list string) : result LdapError (string * list string) :=
  tenant ← ok_or (match first_tenant groups with Some t => Some t | None => config.(default_tenant_id) end) NoTenantResolved;
  Ok (tenant, concat (map (fun g => default [] (config.(group_policy_map) !! g)) groups) ++ config.(l_default_policies)).

Context `{LdapLib}.

Definition connection {A} (r : result string A) : result LdapError A :=
  match r with Ok a => Ok a | Err e => Err (ConnectionError e) end.
Definition searched {A} (r : result string A) : result LdapError A :=
  match r with Ok a => Ok a | Err e => Err (SearchError e) end.

Definition bind_as (c : Conn) (dn password : string) (refused : Z -> LdapError) : result LdapError Conn :=
  let '(r, c) := simple_bind c dn password in
  rc ← connection r;
  if bool_decide (rc = 0) then Ok c else Err (refused rc).

(** The user's name and the connection of the first bind, as that is left. *)
Definition resolve_dn (show_rc : Z -> string) (c : Conn) (username password : string) : result LdapError (string * Conn) :=
  match config.(bind_mode) with
  | DirectBind dn_template =>
      let dn := replace "{username}" username dn_template in
      c ← bind_as c dn password (fun _ => InvalidCredentials);
      Ok (dn, c)
  | SearchThenBind svc_dn svc_password base filter_template =>
      c ← bind_as c svc_dn svc_password
            (fun rc => ConnectionError ("service account bind failed (rc=" +:+ show_rc rc +:+ ")"));
      let '(found, c) := search c base Subtree (replace "{username}" username filter_template) ["dn"; group_attr] in
      entries ← searched found;
      entry ← ok_or (head entries) InvalidCredentials;
      let '(u, c) := unbind c in
      _ ← connection u;
      user ← connection (with_settings 1 starttls config.(l_url));
      user ← bind_as user entry.(en_dn) password (fun _ => InvalidCredentials);
      _ ← connection (unbind user).1;
      Ok (entry.(en_dn), c)
  end.

Definition authenticate (show_rc : Z -> string) (username password : string) : result LdapError LdapValidationResult :=
  if (MAX_USERNAME_LEN <? String.length username)%nat then Err InvalidUsername
  else if (MAX_PASSWORD_LEN <? String.length password)%nat || Str.is_empty password then Err InvalidCredentials
  else
    safe ← sanitise_username username;
    c ← connection (with_settings 0 starttls config.(l_url));
    bound ← resolve_dn show_rc c safe password;
    let '(found, c) := search bound.2 bound.1 Base "(objectClass=*)" [group_attr] in
    entries ← searched found;
    let groups := match entries with e :: _ => default [] (e.(en_attrs) !! group_attr) | [] => [] end in
    _ ← connection (unbind c).1;
    mapped ← map_groups groups;
    Ok {| lr_dn := bound.1; lr_tenant_id := mapped.1; lr_policies := mapped.2 |}.

Definition handle_ldap_login `{TokenLibs} (iss aud : string) (cfg : Config) (show_rc : Z -> string) (now : Z)
    (username password : string) : result LdapError LoginBody :=
  r ← authenticate show_rc username password;
  match issue_and_lease iss aud cfg now r.(lr_dn) r.(lr_tenant_id) r.(lr_policies) LDAP_JWT_TTL_SECONDS with
  | Ok b => Ok b
  | Err e => Err (TokenIssuance (display debug_str e))
  end.

Definition respond {A} (r : result LdapError A) : Z := match r with Ok _ => 200 | Err e => status_code e end.

End Manager.
End Ldap.

(** ** oauth_device.rs *)

Module Device.

Definition DEVICE_JWT_TTL_SECONDS : Z := 3600.
Definition MAX_DEVICE_CODE_TTL_SECS : Z := 600.

Inductive DeviceFlowError :=
| ProviderNotFound (p : string)
| DeviceAuthFailed (e : string)
| DeviceCodeExpired
| AuthorizationPending
| SlowDown (interval_hint_secs : Z)
| TokenExchangeFailed (e : string)
| IdTokenValidation (e : string)
| TokenIssuance (e : string).

Definition status_code (e : DeviceFlowError) : Z :=
  match e with
  | ProviderNotFound _ => 404
  | DeviceAuthFailed _ => 502
  | DeviceCodeExpired => 410
  | AuthorizationPending => 202
  | SlowDown _ => 429
  | TokenExchangeFailed _ => 502
  | IdTokenValidation _ => 401
  | TokenIssuance _ => 500
  end.

Definition error_code (e : DeviceFlowError) : string :=
  match e with
  | ProviderNotFound _ => "provider_not_found"
  | DeviceAuthFailed _ => "device_auth_failed"
  | DeviceCodeExpired => "device_code_expired"
  | AuthorizationPending => "authorization_pending"
  | SlowDown _ => "slow_down"
  | TokenExchangeFailed _ => "token_exchange_failed"
  | IdTokenValidation _ => "id_token_validation_failed"
  | TokenIssuance _ => "token_issuance_failed"
  end.

Record DeviceOidcConfig := {
  provider_name : string;
  d_client_id : string;
  client_secret : option string;
  scopes : option string;
  d_authorization_endpoint : option string;
  d_token_endpoint : option string;
}.

Record ProviderEndpoints := { device_authorization_endpoint : string; token_endpoint : string }.

Record DeviceCodeState := {
  provider_device_code : string;
  st_provider_name : string;
  expires_at : Z;
  min_interval_secs : Z;
}.

Record DeviceStartResponse := {
  ds_device_code : string;
  ds_user_code : string;
  ds_verification_uri : string;
  ds_verification_uri_complete : option string;
  ds_expires_in : Z;
  ds_interval : Z;
}.

(** The manager's state, with the cache of the OIDC manager it shares. *)
Record DeviceFlow := {
  device_states : gmap string DeviceCodeState;
  endpoints : option ProviderEndpoints;
  d_jwks : gmap string Oidc.JwksCacheEntry;
}.

Definition set_states (s : DeviceFlow) (m : gmap string DeviceCodeState) : DeviceFlow :=
  {| device_states := m; endpoints := s.(endpoints); d_jwks := s.(d_jwks) |}.

Section Manager.
Context `{JwtLibs} (form : list (string * string) -> string) (u64_field : Json -> string -> option Z)
  (providers : gmap string Oidc.OidcProviderConfig) (config : DeviceOidcConfig).

Definition eff := (eff DeviceFlow DeviceFlowError).

Definition with_secret (params : list (string * string)) : string :=
  form (params ++ match config.(client_secret) with Some s => [("client_secret", s)] | None => [] end).

Definition discovered (web : Web) : result DeviceFlowError ProviderEndpoints :=
  issuer ← ok_or (Oidc.op_issuer <$> providers !! config.(provider_name)) (ProviderNotFound config.(provider_name));
  answer ← match web.(http_get) (discovery_url issuer) with
           | Ok a => Ok a
           | Err e => Err (DeviceAuthFailed ("discovery request: " +:+ e))
           end;
  doc ← match (v ← answer.(an_json); d ← opt_text v "device_authorization_endpoint"; t ← text_field v "token_endpoint"; Ok (d, t)) with
        | Ok d => Ok d
        | Err e => Err (DeviceAuthFailed ("parse discovery: " +:+ e))
        end;
  dae ← ok_or doc.1 (DeviceAuthFailed ("provider '" +:+ config.(provider_name)
                                       +:+ "' does not advertise device_authorization_endpoint"));
  Ok {| device_authorization_endpoint := default dae config.(d_authorization_endpoint);
        token_endpoint := default doc.2 config.(d_token_endpoint) |}.

Definition resolve_endpoints (web : Web) : eff ProviderEndpoints := fun s =>
  match s.(endpoints) with
  | Some e => (Ok e, s)
  | None =>
      match (match config.(d_authorization_endpoint), config.(d_token_endpoint) with
             | Some d, Some t => Ok {| device_authorization_endpoint := d; token_endpoint := t |}
             | _, _ => discovered web
             end) with
      | Err e => (Err e, s)
      | Ok e => (Ok e, {| device_states := s.(device_states); endpoints := Some e; d_jwks := s.(d_jwks) |})
      end
  end.

Definition started (v : Json) : result string DeviceStartResponse :=
  device_code ← text_field v "device_code";
  user_code ← text_field v "user_code";
  uri ← text_field v "verification_uri";
  complete ← opt_text v "verification_uri_complete";
  expires_in ← ok_or (u64_field v "expires_in") (serde_error "expires_in");
  interval ← match get_field v "interval" with
             | None | Some JNull => Ok None
             | Some _ => Some <$> ok_or (u64_field v "interval") (serde_error "interval")
             end;
  Ok {| ds_device_code := device_code; ds_user_code := user_code; ds_verification_uri := uri;
        ds_verification_uri_complete := complete; ds_expires_in := Z.min expires_in MAX_DEVICE_CODE_TTL_SECS;
        ds_interval := default 5 interval |}.

(** What the provider answers the device authorization request. *)
Definition ask_provider (web : Web) (e : ProviderEndpoints) : result DeviceFlowError DeviceStartResponse :=
  answer ← match web.(http_post) e.(device_authorization_endpoint)
                   (with_secret [("client_id", config.(d_client_id)); ("scope", default "openid profile email" config.(scopes))]) [] with
           | Ok a => Ok a
           | Err e => Err (DeviceAuthFailed ("HTTP request: " +:+ e))
           end;
  if negb ((200 <=? answer.(an_status)) && (answer.(an_status) <? 300))
  then Err (DeviceAuthFailed ("provider returned HTTP " +:+ show_status answer.(an_status)))
  else match answer.(an_json) ≫= started with
       | Ok r => Ok r
       | Err e => Err (DeviceAuthFailed ("parse response: " +:+ e))
       end.

Definition live (now : Z) (st : DeviceCodeState) : bool := now <? st.(expires_at).

Definition start (web : Web) (now : Z) : eff DeviceStartResponse :=
  e ← resolve_endpoints web;
  r ← lift (ask_provider web e);
  _ ← modify (fun s => set_states s
        (<[r.(ds_device_code) := {| provider_device_code := r.(ds_device_code); st_provider_name := config.(provider_name);
                                    expires_at := now + r.(ds_expires_in) * NANOS; min_interval_secs := r.(ds_interval) |}]>
           (filter (fun kv => live now kv.2 = true) s.(device_states))));
  mret r.

(** [id_token], [error], [error_description] *)
Definition token_response (v : Json) : result string (option string * option string * option string) :=
  id_token ← opt_text v "id_token";
  error ← opt_text v "error";
  description ← opt_text v "error_description";
  Ok (id_token, error, description).

Definition exchange (web : Web) (e : ProviderEndpoints) (st : DeviceCodeState) :
    result DeviceFlowError (option string * option string * option string) :=
  answer ← match web.(http_post) e.(token_endpoint)
                   (with_secret [("grant_type", "urn:ietf:params:oauth:grant-type:device_code");
                                 ("device_code", st.(provider_device_code)); ("client_id", config.(d_client_id))]) [] with
           | Ok a => Ok a
           | Err e => Err (TokenExchangeFailed ("HTTP request: " +:+ e))
           end;
  match answer.(an_json) ≫= token_response with
  | Ok r => Ok r
  | Err e => Err (TokenExchangeFailed ("parse response: " +:+ e))
  end.

Definition forget (code : string) : eff () := modify (fun s => set_states s (delete code s.(device_states))).

(** What an error of the provider becomes. *)
Definition provider_error {A} (code : string) (st : DeviceCodeState) (error : string) (description : option string) : eff A :=
  if decide (error = "authorization_pending") then throw AuthorizationPending
  else if decide (error = "slow_down") then throw (SlowDown (st.(min_interval_secs) + 5))
  else if decide (error = "expired_token" \/ error = "access_denied") then _ ← forget code; throw DeviceCodeExpired
  else throw (TokenExchangeFailed ("provider error '" +:+ error +:+ "': " +:+ default "" description)).

Definition validate_id (web : Web) (now : Z) (provider id_token : string) : eff OidcResult := fun s =>
  let '(r, c) := Oidc.validate_id_token providers web now provider id_token s.(d_jwks) in
  (match r with Ok o => Ok o | Err e => Err (IdTokenValidation (Oidc.show e)) end,
   {| device_states := s.(device_states); endpoints := s.(endpoints); d_jwks := c |}).

Definition poll `{TokenLibs} (iss aud : string) (cfg : Config) (web : Web) (now : Z) (code : string) : eff LoginBody :=
  found ← gets (fun s => st ← s.(device_states) !! code; if live now st then Some st else None);
  st ← lift (ok_or found DeviceCodeExpired);
  e ← resolve_endpoints web;
  response ← lift (exchange web e st);
  match response.1.2 with
  | Some error => provider_error code st error response.2
  | None =>
      id_token ← lift (ok_or response.1.1 (TokenExchangeFailed "no id_token in successful response"));
      o ← validate_id web now st.(st_provider_name) id_token;
      _ ← forget code;
      lift (match issue_and_lease iss aud cfg now o.(oi_subject) o.(oi_tenant_id) o.(oi_policies) DEVICE_JWT_TTL_SECONDS with
            | Ok b => Ok b
            | Err e => Err (TokenIssuance (display debug_str e))
            end)
  end.

Definition respond {A} (r : result DeviceFlowError A) : Z := match r with Ok _ => 200 | Err e => status_code e end.

End Manager.
End Device.

(** ** Service accounts *)

Lemma parse_sa_username_iff u i :
  Kubernetes.parse_sa_username u = Ok i <->
  u = "system:serviceaccount:" +:+ i.(Kubernetes.sa_namespace) +:+ ":" +:+ i.(Kubernetes.sa_name) /\
  Str.mem ":" i.(Kubernetes.sa_namespace) = false /\ i.(Kubernetes.sa_namespace) <> "" /\ i.(Kubernetes.sa_name) <> "".
Proof.
  unfold Kubernetes.parse_sa_username, Str.is_empty. split.
  - destruct (Str.strip_prefix _ u) as [rest|] eqn:Hp; [|done]. apply Str.strip_prefix_Some in Hp as ->. cbn [ok_or mbind result_bind].
    destruct (Str.split_once ":" rest) as [[ns n]|] eqn:Hs; [|by case_bool_decide].
    apply Str.split_once_Some in Hs as [-> Hm]. case_bool_decide; [done|]. case_bool_decide; [done|]. by intros [= <-].
  - intros (-> & Hm & Hns & Hn). set (rest := _ +:+ ":" +:+ _).
    assert (Str.strip_prefix "system:serviceaccount:" ("system:serviceaccount:" +:+ rest) = Some rest) as -> by by apply Str.strip_prefix_Some.
    cbn [ok_or mbind result_bind]. assert (Str.split_once ":" rest = Some (i.(Kubernetes.sa_namespace), i.(Kubernetes.sa_name))) as ->.
    { apply Str.split_once_Some. by split. }
    rewrite !bool_decide_false by done. by destruct i.
Qed.

(** The subject of a token names one account. *)
Lemma sa_subject_inj u1 u2 i1 i2 :
  Kubernetes.parse_sa_username u1 = Ok i1 -> Kubernetes.parse_sa_username u2 = Ok i2 ->
  i1.(Kubernetes.sa_namespace) +:+ ":" +:+ i1.(Kubernetes.sa_name) = i2.(Kubernetes.sa_namespace) +:+ ":" +:+ i2.(Kubernetes.sa_name) ->
  i1 = i2.
Proof.
  rewrite !parse_sa_username_iff. intros (Hu1 & Hm1 & Hns1 & Hn1) (Hu2 & Hm2 & Hns2 & Hn2) Heq.
  destruct (proj2 (parse_sa_username_iff u1 i1)); [done|]. assert (u1 = u2) as -> by by rewrite Hu1, Hu2, Heq.
  assert (Ok i1 = Ok i2 :> result Kubernetes.KubernetesError _) as [=]; [|done].
  rewrite <- (proj2 (parse_sa_username_iff u2 i1)), <- (proj2 (parse_sa_username_iff u2 i2)); [done|by split_and!|by split_and!].
Qed.

Section K8sLogins.
Context `{JwtLaws} (chars : string -> list string) (is_alphanumeric : string -> bool) (review_body : string -> string)
  (config : Kubernetes.KubernetesConfig).

Lemma allows_iff bound x : Kubernetes.allows bound x = true <-> "*" ∈ bound \/ x ∈ bound.
Proof.
  unfold Kubernetes.allows. rewrite existsb_exists, !list_elem_of_In. split.
  - intros (b & Hb & [Hs|Hx]%orb_true_iff); [left; apply bool_decide_eq_true in Hs as <-|right; apply bool_decide_eq_true in Hx as <-]; done.
  - intros [Hin|Hin]; eexists; (split; [exact Hin|]); apply orb_true_iff; [left|right]; by apply bool_decide_eq_true.
Qed.

(** What the cluster said of the token: its API server, asked with the reviewer's token,
    or one of the keys its issuer published. *)
Inductive k8s_vouched (web : Web) (now : Z) (cache : gmap string Oidc.JwksCacheEntry) (jwt : string) :
    Kubernetes.ServiceAccountIdentity -> Prop :=
| vouched_review reviewer answer name i :
    config.(Kubernetes.reviewer_token) = Some reviewer ->
    web.(http_post) (Str.trim_end "/" config.(Kubernetes.kubernetes_host) +:+ "/apis/authentication.k8s.io/v1/tokenreviews")
      (review_body jwt) [("authorization", "Bearer " +:+ reviewer)] = Ok answer ->
    200 <= answer.(an_status) < 300 -> answer.(an_json) ≫= Kubernetes.reviewed = Ok (Some true, Some name) ->
    Kubernetes.parse_sa_username name = Ok i -> k8s_vouched web now cache jwt i
| vouched_keys issuer keys jwk key c i :
    config.(Kubernetes.k_issuer) = Some issuer ->
    ((exists e, cache !! issuer = Some e /\ keys = e.(Oidc.jc_keys) /\ (now - e.(Oidc.jc_fetched_at)) / NANOS < 3600) \/
     Kubernetes.fetch web issuer = Ok keys) ->
    jwk ∈ keys -> from_jwk jwk = Ok key -> signed jwt key c ->
    (forall s, get_field c "iss" = Some (JStr s) -> s = issuer) ->
    (exists e, get_field c "exp" = Some (JInt e) /\ now / NANOS <= e) ->
    Kubernetes.identity_of c = Ok (Ok i) -> k8s_vouched web now cache jwt i.

Lemma token_review_vouched web now cache jwt i :
  Kubernetes.validate_via_token_review review_body config web jwt = Ok i -> k8s_vouched web now cache jwt i.
Proof.
  unfold Kubernetes.validate_via_token_review. intros (reviewer & Hrev & Hr)%result_bind_ok.
  destruct (Kubernetes.reviewer_token config) as [rt|] eqn:Hrt; simplify_eq/=.
  apply result_bind_ok in Hr as (answer & Ha & Hr). destruct (http_post _ _ _ _) as [a|] eqn:Hpost; simplify_eq/=.
  destruct (negb _) eqn:Hst; [done|]. apply negb_false_iff, andb_true_iff in Hst as [Hlo%Z.leb_le Hhi%Z.ltb_lt].
  apply result_bind_ok in Hr as ([auth name] & Hrw & Hr). destruct (an_json answer ≫= _) as [rw|] eqn:Hj; simplify_eq/=.
  case_bool_decide as Hauth; [done|]. cbn in Hauth. subst auth.
  apply result_bind_ok in Hr as (n & Hn & Hp). destruct name; simplify_eq/=. by eapply vouched_review.
Qed.

Lemma k8s_checked now issuer keys jwt i :
  Kubernetes.checked now issuer keys jwt = Ok i ->
  exists jwk key c, jwk ∈ keys /\ from_jwk jwk = Ok key /\ signed jwt key c /\
    (forall s, get_field c "iss" = Some (JStr s) -> s = issuer) /\
    (exists e, get_field c "exp" = Some (JInt e) /\ now / NANOS <= e) /\ Kubernetes.identity_of c = Ok (Ok i).
Proof.
  unfold Kubernetes.checked. intros (header & _ & (jwk & Hj & (key & Hk & (id & Hd & ->)%result_bind_ok)%result_bind_ok)%result_bind_ok)%result_bind_ok.
  destruct (from_jwk jwk) as [k|] eqn:Hfj; simplify_eq/=. destruct (decode _ _ _ _) as [c|] eqn:Hdec; [|done].
  cbn [mbind result_bind] in Hd. destruct (Kubernetes.identity_of c) as [x|] eqn:Hid; simplify_eq/=.
  exists jwk, key, c. split_and!; try done.
  - destruct (hd_kid header) as [kid|]; unfold find_jwk, first_rsa in Hj; destruct (head _) as [j|] eqn:Hh; simplify_eq/=;
      by apply head_filter_in in Hh as [? _].
  - by eapply decode_signed.
  - intros s Hs. by eapply decode_issuer.
  - destruct (decode_fresh _ _ _ _ _ Hdec) as (e & He & Hle). exists e. cbn in Hle. by rewrite Z.sub_0_r in Hle.
Qed.

Lemma jwks_vouched web now cache jwt i cache' :
  Kubernetes.validate_via_jwks config web now jwt cache = (Ok i, cache') -> k8s_vouched web now cache jwt i.
Proof.
  unfold Kubernetes.validate_via_jwks. rewrite run_lift_bind. destruct (Kubernetes.k_issuer config) as [issuer|] eqn:Hi; [|done].
  cbn [ok_or]. rewrite run_bind. unfold Kubernetes.get_jwks.
  assert (forall keys, Kubernetes.checked now issuer keys jwt = Ok i ->
    ((exists e, cache !! issuer = Some e /\ keys = e.(Oidc.jc_keys) /\ (now - e.(Oidc.jc_fetched_at)) / NANOS < 3600) \/
     Kubernetes.fetch web issuer = Ok keys) -> k8s_vouched web now cache jwt i) as Hgo.
  { intros keys (jwk & key & c & ? & ? & ? & ? & ? & ?)%k8s_checked Hk. by eapply vouched_keys. }
  destruct (cache !! issuer ≫= _) as [keys|] eqn:Hl.
  - apply bind_Some in Hl as (e & He & Hf). destruct (_ <? _) eqn:Hlt; simplify_eq/=. unfold lift. intros [= Hc _].
    apply (Hgo _ Hc). left. exists e. split_and!; [done..|]. by apply Z.ltb_lt in Hlt.
  - destruct (Kubernetes.fetch web issuer) as [keys|] eqn:Hf; [|done]. unfold lift. intros [= Hc _]. apply (Hgo _ Hc). by right.
Qed.

(** A service account logs in only where its cluster vouches for it and the role it
    asks for is bound to it: both its namespace and its name are listed, or the list
    has the star, and it gets the role's tenant and policies. *)
Theorem k8s_login_is_bound web now cache jwt role_name r cache' :
  Kubernetes.authenticate chars is_alphanumeric review_body config web now jwt role_name cache = (Ok r, cache') ->
  exists role i,
    config.(Kubernetes.roles) !! role_name = Some role /\ k8s_vouched web now cache jwt i /\
    ("*" ∈ role.(Kubernetes.bound_namespaces) \/ i.(Kubernetes.sa_namespace) ∈ role.(Kubernetes.bound_namespaces)) /\
    ("*" ∈ role.(Kubernetes.bound_names) \/ i.(Kubernetes.sa_name) ∈ role.(Kubernetes.bound_names)) /\
    r = {| Kubernetes.kv_namespace := i.(Kubernetes.sa_namespace); Kubernetes.kv_service_account_name := i.(Kubernetes.sa_name);
           Kubernetes.kv_tenant_id := role.(Kubernetes.kr_tenant_id); Kubernetes.kv_policies := role.(Kubernetes.kr_policies) |}.
Proof.
  unfold Kubernetes.authenticate. rewrite run_lift_bind. destruct (Kubernetes.validate_k8s_name _ _ _); [|done].
  rewrite run_lift_bind. destruct (Kubernetes.roles config !! role_name) as [role|] eqn:Hrole; cbn [ok_or]; [|done].
  intros (i & s1 & Hid & Hr)%bind_ok.
  assert (k8s_vouched web now cache jwt i) as Hv.
  { destruct (default _ _); [|by eapply jwks_vouched]. unfold lift in Hid. injection Hid as Hid _.
    by eapply token_review_vouched. }
  rewrite run_lift_bind in Hr. unfold Kubernetes.check_role_bindings in Hr.
  destruct (_ && _) eqn:Hb; [|done]. injection Hr as <- _. apply andb_true_iff in Hb as [Hns%allows_iff Hn%allows_iff].
  by exists role, i.
Qed.

End K8sLogins.

(** ** The directory *)

Lemma cut_Some p s b r : cut p s = Some (b, r) -> s = b +:+ p +:+ r.
Proof.
  revert b. induction s as [|a s IH]; intros b; cbn [cut]; destruct (Str.strip_prefix p _) as [r'|] eqn:Hs.
  1, 3: intros [= <- <-]; by apply Str.strip_prefix_Some in Hs.
  - done.
  - destruct (cut p s) as [[b' r']|]; [|done]. intros [= <- <-]. cbn. f_equal. by apply IH.
Qed.

Lemma cut_shrinks p s b r : p <> "" -> cut p s = Some (b, r) -> (String.length r < String.length s)%nat.
Proof.
  intros Hp Hc. apply cut_Some in Hc as ->. destruct p; [done|]. rewrite !Str.length_app. cbn. lia.
Qed.

(** The fuel of the replacement is enough: any more gives the same. *)
Lemma replace_enough p v s fuel : p <> "" -> (String.length s <= fuel)%nat -> replace_all fuel p v s = replace p v s.
Proof.
  intros Hp Hle. unfold replace. assert (forall n m s, (String.length s <= n)%nat -> (String.length s <= m)%nat ->
    replace_all n p v s = replace_all m p v s) as Hgo; [|by apply Hgo].
  induction n as [|n IH]; intros m s' Hn Hm; destruct m as [|m]; cbn [replace_all]; [done| | |].
  - destruct (cut p s') as [[b r]|] eqn:Hc; [|done]. apply cut_shrinks in Hc; [lia|done].
  - destruct (cut p s') as [[b r]|] eqn:Hc; [|done]. apply cut_shrinks in Hc; [lia|done].
  - destruct (cut p s') as [[b r]|] eqn:Hc; [|done]. apply cut_shrinks in Hc; [|done]. by rewrite (IH m) by lia.
Qed.

Section LdapLogins.
Context `{Ldap.LdapLib} (config : Ldap.LdapConfig) (show_rc : Z -> string).

Lemma sanitise_username_iff u v :
  Ldap.sanitise_username u = Ok v <-> v = u /\ u <> "" /\ Str.forallb (fun a => negb (Ldap.forbidden a)) u = true.
Proof.
  unfold Ldap.sanitise_username, Str.is_empty. destruct (decide (u = "")) as [->|Hne]; [by naive_solver|].
  rewrite bool_decide_false by done. cbn [orb]. destruct (Str.forallb _ u); cbn [negb]; naive_solver.
Qed.

Lemma bind_as_ok c dn password refused c' :
  Ldap.bind_as c dn password refused = Ok c' -> Ldap.simple_bind c dn password = (Ok 0, c').
Proof.
  unfold Ldap.bind_as. destruct (Ldap.simple_bind c dn password) as [[rc|] c1]; [|done]. cbn [Ldap.connection mbind result_bind].
  by case_bool_decide as Hrc; [intros [= <-]; subst|].
Qed.

(** A login, up to the bind: what was asked of the directory and what it answered. *)
Lemma ldap_login_parts username password r :
  Ldap.authenticate config show_rc username password = Ok r ->
  username <> "" /\ Str.forallb (fun a => negb (Ldap.forbidden a)) username = true /\ password <> "" /\
  exists c dn c1 entries,
    Ldap.with_settings 0 (Ldap.starttls config) config.(Ldap.l_url) = Ok c /\
    Ldap.resolve_dn config show_rc c username password = Ok (dn, c1) /\
    (Ldap.search c1 dn Ldap.Base "(objectClass=*)" [Ldap.group_attr config]).1 = Ok entries /\
    r.(Ldap.lr_dn) = dn /\
    Ldap.map_groups config (match entries with e :: _ => default [] (e.(Ldap.en_attrs) !! Ldap.group_attr config) | [] => [] end)
      = Ok (r.(Ldap.lr_tenant_id), r.(Ldap.lr_policies)).
Proof.
  unfold Ldap.authenticate. destruct (_ <? _)%nat; [done|]. destruct (_ || _) eqn:Hp; [done|].
  apply orb_false_iff in Hp as [_ Hp]. apply bool_decide_eq_false in Hp.
  intros (safe & Hs & Hr)%result_bind_ok. apply sanitise_username_iff in Hs as (-> & Hne & Hok).
  apply result_bind_ok in Hr as (c & Hc & Hr). destruct (Ldap.with_settings _ _ _) as [c0|] eqn:Hw; simplify_eq/=.
  apply result_bind_ok in Hr as ([dn c1] & Hd & Hr). cbn [fst snd] in Hr.
  destruct (Ldap.search _ _ _ _ _) as [found c2] eqn:Hf. apply result_bind_ok in Hr as (entries & He & Hr).
  destruct found; simplify_eq/=. apply result_bind_ok in Hr as (u & _ & Hr). apply result_bind_ok in Hr as ([tn ps] & Hm & [= <-]).
  split_and!; [done..|]. exists c, dn, c1, entries. by rewrite Hf.
Qed.

(** With direct binds a login means that the directory took the password: under a
    name made of the template and a user name without separators of names, and with a
    password that is not empty; tenant and policies are those of the groups the
    directory lists for that name. *)
Theorem ldap_direct_login template username password r :
  config.(Ldap.bind_mode) = Ldap.DirectBind template ->
  Ldap.authenticate config show_rc username password = Ok r ->
  username <> "" /\ Str.forallb (fun a => negb (Ldap.forbidden a)) username = true /\ password <> "" /\
  r.(Ldap.lr_dn) = replace "{username}" username template /\
  exists c c1 entries,
    Ldap.simple_bind c r.(Ldap.lr_dn) password = (Ok 0, c1) /\
    (Ldap.search c1 r.(Ldap.lr_dn) Ldap.Base "(objectClass=*)" [Ldap.group_attr config]).1 = Ok entries /\
    Ldap.map_groups config (match entries with e :: _ => default [] (e.(Ldap.en_attrs) !! Ldap.group_attr config) | [] => [] end)
      = Ok (r.(Ldap.lr_tenant_id), r.(Ldap.lr_policies)).
Proof.
  intros Hmode (Hne & Hok & Hp & c & dn & c1 & entries & _ & Hd & Hs & Hdn & Hm)%ldap_login_parts.
  unfold Ldap.resolve_dn in Hd. rewrite Hmode in Hd. apply result_bind_ok in Hd as (c2 & Hb%bind_as_ok & [= <- <-]).
  rewrite Hdn. split_and!; [done..|]. by exists c, c2, entries.
Qed.

(** With a search before the bind nobody ever logs in: the groups are read over the
    connection of the search, which was unbound before, so every attempt ends in an
    error, the right password included. *)
Theorem search_then_bind_never_succeeds `{!Ldap.LdapLaws} svc_dn svc_password base filter username password r :
  config.(Ldap.bind_mode) = Ldap.SearchThenBind svc_dn svc_password base filter ->
  Ldap.authenticate config show_rc username password <> Ok r.
Proof.
  intros Hmode (_ & _ & _ & c & dn & c1 & entries & _ & Hd & Hs & _)%ldap_login_parts.
  unfold Ldap.resolve_dn in Hd. rewrite Hmode in Hd. apply result_bind_ok in Hd as (c2 & _ & Hd).
  destruct (Ldap.search c2 _ _ _ _) as [found c3]. apply result_bind_ok in Hd as (es & _ & Hd).
  apply result_bind_ok in Hd as (e & _ & Hd). destruct (Ldap.unbind c3) as [u c4] eqn:Hu.
  apply result_bind_ok in Hd as ([] & Hc & Hd). destruct u as [[]|]; simplify_eq/=.
  apply result_bind_ok in Hd as (user & _ & Hd). apply result_bind_ok in Hd as (user' & _ & Hd).
  apply result_bind_ok in Hd as (? & _ & [= <- <-]).
  destruct (Ldap.unbound_serves_nothing c3 c4 e.(Ldap.en_dn) Ldap.Base "(objectClass=*)" [Ldap.group_attr config] Hu) as [err Herr].
  congruence.
Qed.

End LdapLogins.

(** ** Device codes *)

Section DeviceCodes.
Context `{JwtLibs, TokenLibs} (form : list (string * string) -> string) (u64_field : Json -> string -> option Z)
  (providers : gmap string Oidc.OidcProviderConfig) (config : Device.DeviceOidcConfig) (iss aud : string) (cfg : Config).

Abbreviation start := (Device.start form u64_field providers config).
Abbreviation poll := (Device.poll form providers config iss aud cfg).

Lemma run_gets_bind {S E A B} (g : S -> A) (f : A -> eff S E B) s : (gets g ≫= f) s = f (g s) s.
Proof. done. Qed.

Lemma resolve_states web s r s' : Device.resolve_endpoints providers config web s = (r, s') -> s'.(Device.device_states) = s.(Device.device_states).
Proof.
  unfold Device.resolve_endpoints. destruct (Device.endpoints s); [by intros [= <- <-]|].
  destruct (match _ with Some _ => _ | None => _ end) as [e|e]; by intros [= <- <-].
Qed.

Lemma ask_provider_capped web e r : Device.ask_provider form u64_field config web e = Ok r -> r.(Device.ds_expires_in) <= 600.
Proof.
  unfold Device.ask_provider. intros (a & _ & Hr)%result_bind_ok. destruct (negb _); [done|].
  destruct (an_json a ≫= _) as [x|] eqn:Hj; simplify_eq/=. apply result_bind_ok in Hj as (v & _ & Hs).
  unfold Device.started in Hs. repeat (apply result_bind_ok in Hs as (? & _ & Hs)). injection Hs as <-. cbn. unfold Device.MAX_DEVICE_CODE_TTL_SECS. lia.
Qed.

(** A start adds the code it answers and nothing else. *)
Lemma start_states web now s r s' code st :
  start web now s = (r, s') -> s'.(Device.device_states) !! code = Some st ->
  s.(Device.device_states) !! code = Some st \/
  exists x, r = Ok x /\ x.(Device.ds_device_code) = code /\ st.(Device.expires_at) <= now + 600 * NANOS.
Proof.
  unfold Device.start. rewrite run_bind. destruct (Device.resolve_endpoints _ _ web s) as [e s1] eqn:He.
  apply resolve_states in He. destruct e as [e|]; [|intros [= <- <-]; rewrite He; by left].
  rewrite run_lift_bind. destruct (Device.ask_provider _ _ _ _ _) as [x|] eqn:Hx; [|intros [= <- <-]; rewrite He; by left].
  apply ask_provider_capped in Hx. rewrite run_bind. cbn [modify]. intros [= <- <-].
  cbn [Device.device_states Device.set_states]. rewrite He. intros [[<- <-]|[Hne Hl]]%lookup_insert_Some.
  - right. exists x. split_and!; [done..|]. cbn. unfold NANOS. lia.
  - apply map_lookup_filter_Some in Hl as [Hl _]. by left.
Qed.

Lemma provider_error_states {A} code st error description s (r : result _ A) s' :
  Device.provider_error code st error description s = (r, s') ->
  (s'.(Device.device_states) = s.(Device.device_states) \/ s'.(Device.device_states) = delete code s.(Device.device_states)) /\
  exists e, r = Err e.
Proof.
  unfold Device.provider_error. destruct (decide _); [intros [= <- <-]; eauto|]. destruct (decide _); [intros [= <- <-]; eauto|].
  destruct (decide _); [|intros [= <- <-]; eauto]. rewrite run_bind. cbn. intros [= <- <-]. cbn. eauto.
Qed.

(** A poll that ends in an error and leaves the codes alone. *)
Local Ltac refused He := intros [= <- <-]; split; [left; first [exact He|done]|done].

(** A poll that answers a token has removed its code; any other leaves it or removes it. *)
Lemma poll_states web now code s r s' :
  poll web now code s = (r, s') ->
  (s'.(Device.device_states) = s.(Device.device_states) \/ s'.(Device.device_states) = delete code s.(Device.device_states)) /\
  (forall b, r = Ok b -> s'.(Device.device_states) = delete code s.(Device.device_states)).
Proof.
  unfold Device.poll, Device.eff. rewrite run_gets_bind, run_lift_bind.
  destruct (Device.device_states s !! code ≫= _) as [st|]; cbn [ok_or]; [|refused tt].
  rewrite run_bind. destruct (Device.resolve_endpoints _ _ web s) as [e s1] eqn:He. apply resolve_states in He.
  destruct e as [e|]; [|refused He]. rewrite run_lift_bind.
  destruct (Device.exchange _ _ _ _ _) as [[[id error] description]|]; [|refused He].
  cbn [fst snd]. destruct error as [error|].
  - intros [Hs [x ->]]%provider_error_states. rewrite He in Hs. split; [done|by intros b].
  - rewrite run_lift_bind. destruct id as [id|]; cbn [ok_or]; [|refused He]. rewrite run_bind.
    unfold Device.validate_id. destruct (Oidc.validate_id_token _ _ _ _ _ _) as [[o|] c]; cbn [fst snd];
      [|refused He].
    rewrite run_bind. cbn. intros [= <- <-]. cbn. rewrite He. eauto.
Qed.

(** Whatever happens to a code but a new start that answers it. *)
Inductive quiet (code : string) : Device.DeviceFlow -> Device.DeviceFlow -> Prop :=
| quiet_start web now s r s' :
    start web now s = (r, s') -> (forall x, r = Ok x -> x.(Device.ds_device_code) <> code) -> quiet code s s'
| quiet_poll web now code' s r s' : poll web now code' s = (r, s') -> quiet code s s'.

Lemma quiet_keeps code s s' st :
  rtc (quiet code) s s' -> s'.(Device.device_states) !! code = Some st -> s.(Device.device_states) !! code = Some st.
Proof.
  induction 1 as [|s1 s2 s3 Hq _ IH]; [done|]. intros Hs%IH. destruct Hq as [web now s1 r s2 Hst Hne|web now code' s1 r s2 Hp].
  - destruct (start_states _ _ _ _ _ _ _ Hst Hs) as [?|(x & Hx & Hc & _)]; [done|]. by destruct (Hne x Hx).
  - destruct (poll_states _ _ _ _ _ _ Hp) as [[Heq|Heq] _]; rewrite Heq in Hs; [done|].
    by apply lookup_delete_Some in Hs as [_ Hs].
Qed.

Lemma poll_gone web now code s :
  (forall st, s.(Device.device_states) !! code = Some st -> st.(Device.expires_at) <= now) ->
  poll web now code s = (Err Device.DeviceCodeExpired, s).
Proof.
  intros Hs. unfold Device.poll, Device.eff. rewrite run_gets_bind, run_lift_bind.
  destruct (Device.device_states s !! code) as [st|]; [|done]. cbn [mbind option_bind]. unfold Device.live.
  specialize (Hs st eq_refl). by rewrite (proj2 (Z.ltb_ge _ _) Hs).
Qed.

(** A device code gives one token: after a poll that answered a token every later one
    for the code is refused as expired, unless the provider hands the code out anew. *)
Theorem device_code_used_once web now code s b s1 s2 web' later :
  poll web now code s = (Ok b, s1) -> rtc (quiet code) s1 s2 ->
  poll web' later code s2 = (Err Device.DeviceCodeExpired, s2).
Proof.
  intros Hp Hq. apply poll_gone. intros st Hst. apply (quiet_keeps _ _ _ _ Hq) in Hst.
  destruct (poll_states _ _ _ _ _ _ Hp) as [_ Hd]. rewrite (Hd b eq_refl), lookup_delete_eq in Hst. done.
Qed.

(** A device code lives ten minutes at most, whatever lifetime the provider states. *)
Theorem device_code_expires web now s x s1 s2 web' later :
  start web now s = (Ok x, s1) -> rtc (quiet x.(Device.ds_device_code)) s1 s2 -> now + 600 * NANOS <= later ->
  s.(Device.device_states) !! x.(Device.ds_device_code) = None ->
  poll web' later x.(Device.ds_device_code) s2 = (Err Device.DeviceCodeExpired, s2).
Proof.
  intros Hst Hq Hl Hnew. apply poll_gone. intros st Hs. apply (quiet_keeps _ _ _ _ Hq) in Hs.
  destruct (start_states _ _ _ _ _ _ _ Hst Hs) as [Hold|(y & _ & _ & Hle)]; [congruence|lia].
Qed.

End DeviceCodes.

(** ** A directory

    A server with one account and a searcher, over connections that are open or ended. *)

Module AuthDemo.

Definition ann : Ldap.Entry :=
  {| Ldap.en_dn := "uid=ann,dc=acme"; Ldap.en_attrs := {["memberOf" := ["cn=dev,dc=acme"]]} |}.

#[local] Instance directory : Ldap.LdapLib := {|
  Ldap.Conn := bool;
  Ldap.with_settings := fun _ _ _ => Ok true;
  Ldap.simple_bind := fun c dn password =>
    (if c then Ok (if decide (password = "secret") then 0 else 49) else Err "closed", c);
  Ldap.search := fun c _ _ _ _ => (if c then Ok [ann] else Err "closed", c);
  Ldap.unbind := fun _ => (Ok tt, false);
|}.

#[local] Instance directory_laws : Ldap.LdapLaws.
Proof. intros c c' base scope filter attrs [= <-]. by exists "closed". Qed.

Definition config (mode : Ldap.LdapBindMode) : Ldap.LdapConfig :=
  {| Ldap.l_url := "ldap://dc"; Ldap.bind_mode := mode; Ldap.group_attribute := None;
     Ldap.group_policy_map := {["cn=dev,dc=acme" := ["read"]]}; Ldap.group_tenant_map := {["cn=dev,dc=acme" := "acme"]};
     Ldap.default_tenant_id := None; Ldap.l_default_policies := []; Ldap.tls_mode := None |}.

Abbreviation direct := (Ldap.DirectBind "uid={username},dc=acme").
Abbreviation searched := (Ldap.SearchThenBind "cn=svc" "secret" "dc=acme" "(uid={username})").

(** The same account, the same password, the two modes. *)
Example direct_bind_logs_in :
  Ldap.authenticate (config direct) (fun _ => "") "ann" "secret" =
  Ok {| Ldap.lr_dn := "uid=ann,dc=acme"; Ldap.lr_tenant_id := "acme"; Ldap.lr_policies := ["read"] |}.
Proof. vm_compute. reflexivity. Qed.

Example search_then_bind_fails :
  Ldap.authenticate (config searched) (fun _ => "") "ann" "secret" = Err (Ldap.SearchError "closed").
Proof. vm_compute. reflexivity. Qed.

(** The characters of search filters are not among the ones refused. *)
Example filter_characters_pass : Ldap.sanitise_username "*)(uid:dn:ann" = Ok "*)(uid:dn:ann".
Proof. vm_compute. reflexivity. Qed.

Lemma search_then_bind_never_succeeds_witness :
  ~ exists r, Ldap.authenticate (config searched) (fun _ => "") "ann" "secret" = Ok r.
Proof.
  intros [r Hr]. revert Hr.
  by apply (search_then_bind_never_succeeds (config searched) (fun _ => "") "cn=svc" "secret" "dc=acme" "(uid={username})" "ann" "secret" r).
Defined.

End AuthDemo.
