(* ===== verification/Operator.v ===== *)
(** * The Kubernetes operator

    [services/k8s-operator/src]: the resources ([crd.rs], [Module Crd]), their errors
    ([error.rs]) and the two reconcilers, [Module Secrets] ([controller.rs]) and
    [Module Policies] ([policy_controller.rs]).

    What is outside is the interface [Outside] over a state: the cluster's API server
    and the servers a request is sent to, each of which may change that state and may
    fail. A reconciler is a computation over it. [traced] adds a record of every call to
    any outside; [Attached] is the policy engine of [PolicyEngine] behind its router,
    which shows what the two components do together. A reconciler works on the copy of
    the resource the watch gave it, which may be older than the server's. *)

From Stdlib Require Import Lia Ascii.
From S2P Require Import Prelude Effects Json Envelope Policy Auth PolicyEngine SecretEngine Federation.

(** ** crd.rs *)

Module Crd.

Record ServiceAccountRef := { sar_name : string; sar_namespace : option string }.
Record SecretKeyRef := { skr_name : string; skr_key : option string }.
Record AuthSpec := { service_account_ref : option ServiceAccountRef; token_secret_ref : option SecretKeyRef }.

Inductive SecretType := Opaque | Tls | DockerConfigJson.

Definition secret_type_str (t : SecretType) : string :=
  match t with
  | Opaque => "Opaque"
  | Tls => "kubernetes.io/tls"
  | DockerConfigJson => "kubernetes.io/dockerconfigjson"
  end.

Record TargetSpec := { t_name : option string; t_namespace : option string; secret_type : SecretType }.
Record DataMapping := { vault_key : string; secret_key : string }.

Record VaultSecretSpec := {
  path : string;
  target : option TargetSpec;
  refresh_interval : option Z;
  vault_endpoint : option string;
  s_auth : option AuthSpec;
  data_mappings : option (list DataMapping);
}.

Inductive ConditionStatus := CTrue | CFalse | CUnknown.

Record Condition := {
  condition_type : string;
  c_status : ConditionStatus;
  c_reason : string;
  c_message : string;
  last_transition_time : string;
  c_observed_generation : option Z;
}.

Record VaultSecretStatus := {
  conditions : list Condition;
  s_last_sync_time : option string;
  s_observed_generation : option Z;
  secret_version : option Z;
}.

Definition secret_synced (generation version : Z) (now : string) : VaultSecretStatus :=
  {| conditions := [{| condition_type := "Synced"; c_status := CTrue; c_reason := "SecretApplied";
                       c_message := "Secret successfully synced from wslvault."; last_transition_time := now;
                       c_observed_generation := Some generation |}];
     s_last_sync_time := Some now; s_observed_generation := Some generation; secret_version := Some version |}.

Definition secret_failed (generation : Z) (reason message now : string) : VaultSecretStatus :=
  {| conditions := [{| condition_type := "Synced"; c_status := CFalse; c_reason := reason; c_message := message;
                       last_transition_time := now; c_observed_generation := Some generation |}];
     s_last_sync_time := None; s_observed_generation := Some generation; secret_version := None |}.

Inductive PolicyCapability := Read | Write | Delete | List | Create | Update | Deny.

Definition capability_str (c : PolicyCapability) : string :=
  match c with
  | Read => "read" | Write => "write" | Delete => "delete" | List => "list"
  | Create => "create" | Update => "update" | Deny => "deny"
  end.

(** [to_lowercase] as in [PolicyEngine.parse_capabilities]. *)
Definition capability_from_str (s : string) : option PolicyCapability :=
  let s := Str.to_ascii_lowercase s in
  if decide (s = "read") then Some Read
  else if decide (s = "write") then Some Write
  else if decide (s = "delete") then Some Delete
  else if decide (s = "list") then Some List
  else if decide (s = "create") then Some Create
  else if decide (s = "update") then Some Update
  else if decide (s = "deny") then Some Deny
  else None.

Record PolicyRuleSpec := { rule_name : string; rule_paths : list string; rule_capabilities : list PolicyCapability }.

Record VaultPolicySpec := {
  policy_name : string;
  p_tenant_id : string;
  policy_engine_endpoint : option string;
  p_auth : option AuthSpec;
  p_rules : list PolicyRuleSpec;
}.

Record VaultPolicyStatus := {
  synced : bool;
  p_last_sync_time : option string;
  p_observed_generation : option Z;
  p_message : option string;
}.

Definition policy_synced (generation : Z) (policy_name now : string) : VaultPolicyStatus :=
  {| synced := true; p_last_sync_time := Some now; p_observed_generation := Some generation;
     p_message := Some ("Policy '" +:+ policy_name +:+ "' successfully synced to the policy-engine.") |}.

Definition policy_failed (generation : Z) (message : string) : VaultPolicyStatus :=
  {| synced := false; p_last_sync_time := None; p_observed_generation := Some generation; p_message := Some message |}.

(** A resource as the watch delivers it. *)
Record ObjectMeta := {
  m_name : string;
  m_namespace : option string;
  m_uid : option string;
  generation : option Z;
  deletion_timestamp : bool;
  finalizers : option (list string);
}.

Record VaultSecret := { vs_meta : ObjectMeta; vs_spec : VaultSecretSpec }.
Record VaultPolicy := { vp_meta : ObjectMeta; vp_spec : VaultPolicySpec }.

Definition namespace_of (m : ObjectMeta) : string := default "default" m.(m_namespace).
Definition generation_of (m : ObjectMeta) : Z := default 0 m.(generation).

End Crd.

Import Crd.

(** ** error.rs *)

Inductive OperatorError :=
| KubeApi (e : string)
| JsonError (e : string)
| VaultHttp (status : Z) (message : string)
| HttpTransport (e : string)
| UnexpectedResponseFormat (e : string)
| MissingField (e : string)
| Base64Decode (e : string)
| ApplyTargetSecret (name namespace source : string)
| CrdInstall (e : string)
| Generic (e : string).

Definition is_transient (e : OperatorError) : bool :=
  match e with
  | KubeApi _ | HttpTransport _ | ApplyTargetSecret _ _ _ | Generic _ => true
  | VaultHttp status _ => 500 <=? status
  | MissingField _ | UnexpectedResponseFormat _ | Base64Decode _ | JsonError _ | CrdInstall _ => false
  end.

Definition show_error (show_int : Z -> string) (e : OperatorError) : string :=
  match e with
  | KubeApi e => "Kubernetes API error: " +:+ e
  | JsonError e => "JSON (de)serialization error: " +:+ e
  | VaultHttp status message => "wslvault HTTP error (status " +:+ show_int status +:+ "): " +:+ message
  | HttpTransport e => "HTTP transport error: " +:+ e
  | UnexpectedResponseFormat e => "unexpected secret-engine response format: " +:+ e
  | MissingField e => "missing required field: " +:+ e
  | Base64Decode e => "base64 decode error: " +:+ e
  | ApplyTargetSecret name ns source =>
      "failed to apply target secret '" +:+ name +:+ "' in namespace '" +:+ ns +:+ "': " +:+ source
  | CrdInstall e => "CRD installation error: " +:+ e
  | Generic e => "operator error: " +:+ e
  end.

(** ** The outside *)

Inductive Method := GET | PUT | DELETE.

Record Request := {
  rq_method : Method;
  rq_url : string;
  rq_headers : list (string * string);
  rq_json : option PolicyDocumentDto;
}.

Record OwnerReference := {
  api_version : string;
  o_kind : string;
  o_name : string;
  o_uid : string;
  block_owner_deletion : bool;
  o_controller : bool;
}.

(** The manifest that is applied. *)
Record Secret := {
  s_labels : gmap string string;
  owner_references : list OwnerReference;
  s_type : string;
  s_data : gmap string string;
}.

(** Requests to other services, and the calls of the Kubernetes client, by namespace
    and name: the data of a secret, server-side apply of a whole secret, a merge patch
    of the finalizers of a policy resource, and the two status patches. *)
Class Outside (W : Type) := {
  send : Request -> W -> result string Answer * W;
  get_secret : string -> string -> W -> result string (option (gmap string string)) * W;
  apply_secret : string -> string -> Secret -> W -> result string () * W;
  patch_finalizers : string -> string -> list string -> W -> result string () * W;
  patch_policy_status : string -> string -> VaultPolicyStatus -> W -> result string () * W;
  patch_secret_status : string -> string -> VaultSecretStatus -> W -> result string () * W;
}.

Inductive Action := Requeue (seconds : Z) | AwaitChange.

Section Shared.
Context `{Outside W}.

Abbreviation eff := (eff W OperatorError).

(** A call whose failure is a value, and one whose failure ends the computation. *)
Definition outcome {A} (m : W -> result string A * W) : eff (result string A) := fun w => let '(r, w') := m w in (Ok r, w').
Definition raise {A} (f : string -> OperatorError) (m : W -> result string A * W) : eff A := fun w =>
  let '(r, w') := m w in (match r with Ok a => Ok a | Err e => Err (f e) end, w').

(** The token of a secret reference, else the operator's own. *)
Definition token_for (auth : option AuthSpec) (own : option string) (namespace : string) : eff (option string) :=
  match auth ≫= token_secret_ref with
  | None => mret own
  | Some r =>
      found ← outcome (get_secret namespace r.(skr_name));
      mret (match found with
            | Ok data =>
                match (d ← data; d !! default "token" r.(skr_key)) with
                | Some bytes => if Str.utf8_valid bytes then Some (Str.trim bytes) else own
                | None => own
                end
            | Err _ => own
            end)
  end.

(** The answer of a server, an error outside of 2xx. *)
Definition success (show_code : Z -> string) (a : Answer) : result OperatorError Answer :=
  if (200 <=? a.(an_status)) && (a.(an_status) <? 300) then Ok a
  else Err (VaultHttp a.(an_status) (match a.(an_text) with Ok t => t | Err _ => "HTTP " +:+ show_code a.(an_status) end)).

Definition bearer (token : option string) : list (string * string) :=
  match token with Some t => [("authorization", "Bearer " +:+ t)] | None => [] end.

End Shared.

(** ** controller.rs *)

Module Secrets.

Definition DEFAULT_REFRESH_INTERVAL_SECS : Z := 60.
Definition DEFAULT_ERROR_BACKOFF_SECS : Z := 30.
Definition MAX_ERROR_BACKOFF_SECS : Z := 300.

Record OperatorContext := {
  default_vault_endpoint : string;
  default_vault_token : option string;
  default_tenant_id : option string;
  default_policies : option string;
}.

Record VaultGetSecretResponse := { data : string; version : Z }.

Section Reconciler.
Context `{Outside W, Primitives} (show_code : Z -> string) (show_int : Z -> string)
  (parse_object : string -> result string (gmap string Json)) (to_vec : Json -> string) (ctx : OperatorContext).

Abbreviation eff := (eff W OperatorError).

Definition as_u64 (v : Json) : option Z :=
  match v with JInt n => if (0 <=? n) && (n <? 2 ^ 64) then Some n else None | _ => None end.

Definition read_response (a : Answer) : result OperatorError VaultGetSecretResponse :=
  body ← match a.(an_json) with
         | Ok v => Ok v
         | Err e => Err (UnexpectedResponseFormat ("could not parse JSON: " +:+ e))
         end;
  data ← ok_or (get_field body "data" ≫= as_str) (UnexpectedResponseFormat "response missing 'data' field");
  Ok {| data := data; version := as_u32 (default 0 (get_field body "version" ≫= as_u64)) |}.

Definition secret_request (endpoint path : string) (token : option string) : Request :=
  {| rq_method := GET; rq_url := endpoint +:+ "/v1/secrets/" +:+ path;
     rq_headers := bearer token
       ++ match ctx.(default_tenant_id) with Some t => [("x-tenant-id", t)] | None => [] end
       ++ match ctx.(default_policies) with Some p => [("x-policies", p)] | None => [] end
       ++ [("x-principal-id", "wslvault-operator")];
     rq_json := None |}.

Definition fetch_secret_from_vault (endpoint path : string) (token : option string) : eff VaultGetSecretResponse :=
  response ← raise HttpTransport (send (secret_request endpoint path token));
  a ← lift (success show_code response);
  lift (read_response a).

Definition value_to_bytes (v : Json) : string := match v with JStr s => s | other => to_vec other end.

Fixpoint apply_mappings (m : gmap string Json) (l : list DataMapping) (acc : gmap string string) :
    result OperatorError (gmap string string) :=
  match l with
  | [] => Ok acc
  | d :: l =>
      v ← ok_or (m !! d.(vault_key))
            (MissingField ("data_mapping vault_key '" +:+ d.(vault_key) +:+ "' not found in secret response"));
      apply_mappings m l (<[d.(secret_key) := value_to_bytes v]> acc)
  end.

Definition build_secret_data (raw_data_b64 : string) (mappings : option (list DataMapping)) :
    result OperatorError (gmap string string) :=
  decoded ← match b64_decode raw_data_b64 with Ok d => Ok d | Err e => Err (Base64Decode e) end;
  m ← match parse_object decoded with
      | Ok m => Ok m
      | Err e => Err (UnexpectedResponseFormat ("decoded secret data is not a JSON object: " +:+ e))
      end;
  match mappings with
  | Some (d :: l) => apply_mappings m (d :: l) ∅
  | _ => Ok (value_to_bytes <$> m)
  end.

Definition resolve_target (vs_name vs_namespace : string) (target : option TargetSpec) : string * string * string :=
  match target with
  | Some t => (default vs_name t.(t_name), default vs_namespace t.(t_namespace), secret_type_str t.(secret_type))
  | None => (vs_name, vs_namespace, "Opaque")
  end.

Definition build_owner_reference (vs : VaultSecret) : result OperatorError OwnerReference :=
  uid ← ok_or vs.(vs_meta).(m_uid) (MissingField "metadata.uid");
  Ok {| api_version := "wslvault.io/v1alpha1"; o_kind := "VaultSecret"; o_name := vs.(vs_meta).(m_name); o_uid := uid;
        block_owner_deletion := true; o_controller := true |}.

Definition manifest (secret_type : string) (data : gmap string string) (owner_ref : OwnerReference) : Secret :=
  {| s_labels := {["app.kubernetes.io/managed-by" := "k8s-operator.wslvault.io"; "wslvault.io/synced" := "true"]};
     owner_references := [owner_ref]; s_type := secret_type; s_data := data |}.

Definition apply_kubernetes_secret (name namespace secret_type : string) (data : gmap string string) (owner_ref : OwnerReference) : eff () :=
  raise (ApplyTargetSecret name namespace) (apply_secret namespace name (manifest secret_type data owner_ref)).

Definition patch_status (vs : VaultSecret) (status : VaultSecretStatus) : eff () :=
  _ ← outcome (patch_secret_status (namespace_of vs.(vs_meta)) vs.(vs_meta).(m_name) status);
  mret tt.

Definition condition_reason (e : OperatorError) : string :=
  match e with
  | VaultHttp status _ => if status =? 404 then "SecretNotFound" else if 500 <=? status then "VaultServerError" else "VaultClientError"
  | HttpTransport _ => "NetworkError"
  | MissingField _ => "InvalidSpec"
  | UnexpectedResponseFormat _ => "UnexpectedResponse"
  | Base64Decode _ => "DecodeError"
  | ApplyTargetSecret _ _ _ => "KubeApplyFailed"
  | KubeApi _ => "KubeApiError"
  | JsonError _ => "SerializationError"
  | CrdInstall _ => "CrdInstallError"
  | Generic _ => "ReconcileError"
  end.

Definition failed (vs : VaultSecret) (now : string) (e : OperatorError) (backoff : Z) : eff Action :=
  _ ← patch_status vs (secret_failed (generation_of vs.(vs_meta)) (condition_reason e) (show_error show_int e) now);
  mret (Requeue backoff).

Definition endpoint_for (spec : VaultSecretSpec) : string :=
  Str.trim_end "/" (default ctx.(default_vault_endpoint) spec.(vault_endpoint)).

Definition resolve_auth_token (vs : VaultSecret) : eff (option string) :=
  token_for vs.(vs_spec).(s_auth) ctx.(default_vault_token) (namespace_of vs.(vs_meta)).

Definition reconcile (vs : VaultSecret) (now : string) : eff Action :=
  let spec := vs.(vs_spec) in
  token ← resolve_auth_token vs;
  fetched ← attempt (fetch_secret_from_vault (endpoint_for spec) spec.(path) token);
  match fetched with
  | Err e => failed vs now e (if is_transient e then DEFAULT_ERROR_BACKOFF_SECS else MAX_ERROR_BACKOFF_SECS)
  | Ok response =>
      match build_secret_data response.(data) spec.(data_mappings) with
      | Err e => failed vs now e MAX_ERROR_BACKOFF_SECS
      | Ok secret_data =>
          let '(target_name, target_namespace, secret_type) :=
            resolve_target vs.(vs_meta).(m_name) (namespace_of vs.(vs_meta)) spec.(target) in
          owner_ref ← lift (build_owner_reference vs);
          applied ← attempt (apply_kubernetes_secret target_name target_namespace secret_type secret_data owner_ref);
          match applied with
          | Err e => failed vs now e DEFAULT_ERROR_BACKOFF_SECS
          | Ok _ =>
              _ ← patch_status vs (secret_synced (generation_of vs.(vs_meta)) response.(version) now);
              mret (Requeue (default DEFAULT_REFRESH_INTERVAL_SECS spec.(refresh_interval)))
          end
      end
  end.

Definition error_policy (e : OperatorError) : Action := Requeue DEFAULT_ERROR_BACKOFF_SECS.

End Reconciler.
End Secrets.

(** ** policy_controller.rs *)

Module Policies.

Definition POLICY_FINALIZER : string := "wslvault.io/policy-protection".
Definition DEFAULT_POLICY_ENGINE_ENDPOINT : string := "http://policy-engine:8082".
Definition DEFAULT_ERROR_BACKOFF_SECS : Z := 30.
Definition PERMANENT_ERROR_BACKOFF_SECS : Z := 300.
Definition RESYNC_INTERVAL_SECS : Z := 300.

Record PolicyOperatorContext := { default_endpoint : string; own_token : option string }.

(** [POLICY_ENGINE_ENDPOINT] *)
Definition default_policy_engine_endpoint (var : option string) : string :=
  match var with
  | Some s => if Str.is_empty s then DEFAULT_POLICY_ENGINE_ENDPOINT else s
  | None => DEFAULT_POLICY_ENGINE_ENDPOINT
  end.

Fixpoint check_capabilities (rule : string) (l : list PolicyCapability) : result string () :=
  match l with
  | [] => Ok tt
  | c :: l =>
      match capability_from_str (capability_str c) with
      | None => Err ("rule '" +:+ rule +:+ "' contains unknown capability '" +:+ capability_str c +:+ "'")
      | Some _ => check_capabilities rule l
      end
  end.

Fixpoint validate_rules (l : list PolicyRuleSpec) : result string () :=
  match l with
  | [] => Ok tt
  | r :: l =>
      if bool_decide (r.(rule_paths) = []) then Err ("rule '" +:+ r.(rule_name) +:+ "' must have at least one path")
      else if negb (0 <? len r.(rule_capabilities)) then Err ("rule '" +:+ r.(rule_name) +:+ "' must have at least one capability")
      else _ ← check_capabilities r.(rule_name) r.(rule_capabilities); validate_rules l
  end.

Definition validate_capabilities (spec : VaultPolicySpec) : result string () := validate_rules spec.(p_rules).

Definition build_policy_document_dto (spec : VaultPolicySpec) : PolicyDocumentDto :=
  {| dto_name := spec.(policy_name);
     dto_rules := map (fun r => {| dto_paths := r.(rule_paths); dto_capabilities := map capability_str r.(rule_capabilities) |}) spec.(p_rules) |}.

Definition has_finalizer (vp : VaultPolicy) : bool := bool_decide (POLICY_FINALIZER ∈ default [] vp.(vp_meta).(finalizers)).

Section Reconciler.
Context `{Outside W} (show_code : Z -> string) (show_int : Z -> string) (ctx : PolicyOperatorContext).

Abbreviation eff := (eff W OperatorError).

Definition policy_request (method : Method) (endpoint tenant_id policy_name : string) (token : option string)
    (body : option PolicyDocumentDto) : Request :=
  {| rq_method := method; rq_url := endpoint +:+ "/v1/policies/" +:+ policy_name;
     rq_headers := ("x-tenant-id", tenant_id) :: bearer token; rq_json := body |}.

Definition upsert_policy (endpoint tenant_id policy_name : string) (dto : PolicyDocumentDto) (token : option string) : eff () :=
  response ← raise HttpTransport (send (policy_request PUT endpoint tenant_id policy_name token (Some dto)));
  _ ← lift (success show_code response);
  mret tt.

Definition delete_policy (endpoint tenant_id policy_name : string) (token : option string) : eff () :=
  response ← raise HttpTransport (send (policy_request DELETE endpoint tenant_id policy_name token None));
  _ ← lift (success show_code response);
  mret tt.

Definition resolve_policy_engine_endpoint (spec : VaultPolicySpec) : string :=
  Str.trim_end "/" (default ctx.(default_endpoint) spec.(policy_engine_endpoint)).

Definition resolve_auth_token (vp : VaultPolicy) : eff (option string) :=
  token_for vp.(vp_spec).(p_auth) ctx.(own_token) (namespace_of vp.(vp_meta)).

Definition patch_status (vp : VaultPolicy) (status : VaultPolicyStatus) : eff () :=
  _ ← outcome (patch_policy_status (namespace_of vp.(vp_meta)) vp.(vp_meta).(m_name) status);
  mret tt.

Definition add_finalizer (vp : VaultPolicy) : eff () :=
  let fs := default [] vp.(vp_meta).(finalizers) in
  raise KubeApi (patch_finalizers (namespace_of vp.(vp_meta)) vp.(vp_meta).(m_name)
    (if bool_decide (POLICY_FINALIZER ∈ fs) then fs else fs ++ [POLICY_FINALIZER])).

Definition remove_finalizer (vp : VaultPolicy) : eff () :=
  raise KubeApi (patch_finalizers (namespace_of vp.(vp_meta)) vp.(vp_meta).(m_name)
    (filter (fun f => f <> POLICY_FINALIZER) (default [] vp.(vp_meta).(finalizers)))).

Definition handle_delete (vp : VaultPolicy) : eff Action :=
  let spec := vp.(vp_spec) in
  token ← resolve_auth_token vp;
  deleted ← attempt (delete_policy (resolve_policy_engine_endpoint spec) spec.(p_tenant_id) spec.(policy_name) token);
  let gone := _ ← remove_finalizer vp; mret AwaitChange in
  match deleted with
  | Ok _ => gone
  | Err (VaultHttp 404 _) => gone
  | Err e =>
      _ ← patch_status vp (policy_failed (generation_of vp.(vp_meta)) (show_error show_int e));
      mret (Requeue DEFAULT_ERROR_BACKOFF_SECS)
  end.

Definition reconcile (vp : VaultPolicy) (now : string) : eff Action :=
  let spec := vp.(vp_spec) in
  let gen := generation_of vp.(vp_meta) in
  if vp.(vp_meta).(deletion_timestamp) then handle_delete vp
  else if negb (has_finalizer vp) then _ ← add_finalizer vp; mret (Requeue 1)
  else match validate_capabilities spec with
  | Err message => _ ← patch_status vp (policy_failed gen message); mret (Requeue PERMANENT_ERROR_BACKOFF_SECS)
  | Ok _ =>
      token ← resolve_auth_token vp;
      upserted ← attempt (upsert_policy (resolve_policy_engine_endpoint spec) spec.(p_tenant_id) spec.(policy_name)
                            (build_policy_document_dto spec) token);
      match upserted with
      | Ok _ =>
          _ ← patch_status vp (policy_synced gen spec.(policy_name) now);
          mret (Requeue RESYNC_INTERVAL_SECS)
      | Err e =>
          _ ← patch_status vp (policy_failed gen (show_error show_int e));
          mret (Requeue (if is_transient e then DEFAULT_ERROR_BACKOFF_SECS else PERMANENT_ERROR_BACKOFF_SECS))
      end
  end.

Definition error_policy (e : OperatorError) : Action := Requeue DEFAULT_ERROR_BACKOFF_SECS.

End Reconciler.
End Policies.

(** ** What a reconciler did

    Every call with its answer, in order, over any outside. *)

Inductive Event :=
| Sent (r : Request) (a : result string Answer)
| GotSecret (ns name : string) (a : result string (option (gmap string string)))
| Applied (ns name : string) (s : Secret) (a : result string ())
| PatchedFinalizers (ns name : string) (l : list string) (a : result string ())
| PolicyStatus (ns name : string) (st : VaultPolicyStatus) (a : result string ())
| SecretStatus (ns name : string) (st : VaultSecretStatus) (a : result string ()).

Definition logged {W A} (f : result string A -> Event) (m : W -> result string A * W) (s : W * list Event) :
    result string A * (W * list Event) :=
  let '(r, w) := m s.1 in (r, (w, s.2 ++ [f r])).

#[global] Instance traced `{Outside W} : Outside (W * list Event) := {|
  send rq := logged (Sent rq) (send rq);
  get_secret ns n := logged (GotSecret ns n) (get_secret ns n);
  apply_secret ns n s := logged (Applied ns n s) (apply_secret ns n s);
  patch_finalizers ns n l := logged (PatchedFinalizers ns n l) (patch_finalizers ns n l);
  patch_policy_status ns n st := logged (PolicyStatus ns n st) (patch_policy_status ns n st);
  patch_secret_status ns n st := logged (SecretStatus ns n st) (patch_secret_status ns n st);
|}.

Definition reads_token (e : Event) : Prop := match e with GotSecret _ _ _ => True | _ => False end.

Section Traces.
Context `{Outside W}.
Implicit Types (w : W) (l : list Event).

Lemma token_traced auth own ns w l :
  exists t w1 pre, token_for auth own ns (w, l) = (Ok t, (w1, l ++ pre)) /\ Forall reads_token pre /\
    (auth ≫= token_secret_ref = None -> t = own /\ w1 = w /\ pre = []).
Proof.
  unfold token_for. destruct (auth ≫= token_secret_ref) as [r|].
  - rewrite run_bind. unfold outcome. cbn [get_secret traced]. unfold logged. cbn [fst snd].
    destruct (get_secret _ _ w) as [found w1]. eexists _, w1, [_]. split; [reflexivity|]. split; [by repeat constructor|done].
  - exists own, w, []. rewrite app_nil_r. by repeat constructor.
Qed.

Definition answered (show_code : Z -> string) (r : result string Answer) : result OperatorError Answer :=
  match r with Ok a => success show_code a | Err e => Err (HttpTransport e) end.

(** A request, its record, and what the caller makes of the answer. *)
Lemma exchange_traced {A} show_code rq (k : Answer -> result OperatorError A) w l :
  (response ← raise HttpTransport (send rq); a ← lift (success show_code response); lift (k a)) (w, l) =
  let '(r, w1) := send rq w in (answered show_code r ≫= k, (w1, l ++ [Sent rq r])).
Proof.
  rewrite run_bind. unfold raise. cbn [send traced]. unfold logged. cbn [fst snd].
  destruct (send rq w) as [[a|e] w1]; [|done]. rewrite run_lift_bind. cbn [answered]. by destruct (success show_code a).
Qed.

Lemma answered_ok show_code r a : answered show_code r = Ok a -> r = Ok a /\ 200 <= a.(an_status) < 300.
Proof.
  destruct r as [a'|]; [|done]. cbn. unfold success. destruct (_ && _) eqn:Hs; [|done]. intros [= <-].
  apply andb_true_iff in Hs as [Hlo%Z.leb_le Hhi%Z.ltb_lt]. done.
Qed.

Lemma answered_http show_code r st m : answered show_code r = Err (VaultHttp st m) -> exists a, r = Ok a /\ a.(an_status) = st.
Proof. destruct r as [a'|]; [|done]. cbn. unfold success. destruct (_ && _); [done|]. intros [= <- _]. eauto. Qed.

Lemma policy_status_traced vp st w l :
  exists w1 a, Policies.patch_status vp st (w, l) = (Ok tt, (w1, l ++ [PolicyStatus (namespace_of vp.(vp_meta)) vp.(vp_meta).(m_name) st a])).
Proof.
  unfold Policies.patch_status. rewrite run_bind. unfold outcome. cbn [patch_policy_status traced]. unfold logged. cbn [fst snd].
  destruct (patch_policy_status _ _ _ w) as [a w1]. by exists w1, a.
Qed.

Lemma secret_status_traced vs st w l :
  exists w1 a, Secrets.patch_status vs st (w, l) = (Ok tt, (w1, l ++ [SecretStatus (namespace_of vs.(vs_meta)) vs.(vs_meta).(m_name) st a])).
Proof.
  unfold Secrets.patch_status. rewrite run_bind. unfold outcome. cbn [patch_secret_status traced]. unfold logged. cbn [fst snd].
  destruct (patch_secret_status _ _ _ w) as [a w1]. by exists w1, a.
Qed.

End Traces.

(** ** Policy resources *)

Section PolicyTraces.
Context `{Outside W} (show_code show_int : Z -> string) (ctx : Policies.PolicyOperatorContext).

Abbreviation reconcile := (Policies.reconcile show_code show_int ctx).

Definition ok_status (a : Answer) : Prop := 200 <= a.(an_status) < 300.

Lemma upsert_traced endpoint t n dto token (w : W) l :
  Policies.upsert_policy show_code endpoint t n dto token (w, l) =
  let rq := Policies.policy_request PUT endpoint t n token (Some dto) in
  let '(r, w1) := send rq w in (answered show_code r ≫= (fun _ => Ok tt), (w1, l ++ [Sent rq r])).
Proof. exact (exchange_traced show_code _ (fun _ => Ok tt) w l). Qed.

Lemma delete_traced endpoint t n token (w : W) l :
  Policies.delete_policy show_code endpoint t n token (w, l) =
  let rq := Policies.policy_request DELETE endpoint t n token None in
  let '(r, w1) := send rq w in (answered show_code r ≫= (fun _ => Ok tt), (w1, l ++ [Sent rq r])).
Proof. exact (exchange_traced show_code _ (fun _ => Ok tt) w l). Qed.

(** The requests for a resource. *)
Definition put_of (vp : VaultPolicy) (token : option string) : Request :=
  Policies.policy_request PUT (Policies.resolve_policy_engine_endpoint ctx vp.(vp_spec)) vp.(vp_spec).(p_tenant_id)
    vp.(vp_spec).(policy_name) token (Some (Policies.build_policy_document_dto vp.(vp_spec))).
Definition delete_of (vp : VaultPolicy) (token : option string) : Request :=
  Policies.policy_request DELETE (Policies.resolve_policy_engine_endpoint ctx vp.(vp_spec)) vp.(vp_spec).(p_tenant_id)
    vp.(vp_spec).(policy_name) token None.

(** What a reconciliation may do, as a list of calls. *)
Inductive policy_run (vp : VaultPolicy) (now : string) : list Event -> Prop :=
| run_removed pre token a fs r :
    vp.(vp_meta).(deletion_timestamp) = true -> Forall reads_token pre -> ok_status a \/ a.(an_status) = 404 ->
    fs = filter (fun f => f <> Policies.POLICY_FINALIZER) (default [] vp.(vp_meta).(finalizers)) ->
    policy_run vp now (pre ++ [Sent (delete_of vp token) (Ok a);
                               PatchedFinalizers (namespace_of vp.(vp_meta)) vp.(vp_meta).(m_name) fs r])
| run_kept pre token a m r :
    vp.(vp_meta).(deletion_timestamp) = true -> Forall reads_token pre ->
    policy_run vp now (pre ++ [Sent (delete_of vp token) a;
                               PolicyStatus (namespace_of vp.(vp_meta)) vp.(vp_meta).(m_name) (policy_failed (generation_of vp.(vp_meta)) m) r])
| run_protected fs r :
    vp.(vp_meta).(deletion_timestamp) = false -> Policies.has_finalizer vp = false ->
    fs = default [] vp.(vp_meta).(finalizers) ++ [Policies.POLICY_FINALIZER] ->
    policy_run vp now [PatchedFinalizers (namespace_of vp.(vp_meta)) vp.(vp_meta).(m_name) fs r]
| run_invalid m r :
    vp.(vp_meta).(deletion_timestamp) = false -> Policies.has_finalizer vp = true -> Policies.validate_capabilities vp.(vp_spec) = Err m ->
    policy_run vp now [PolicyStatus (namespace_of vp.(vp_meta)) vp.(vp_meta).(m_name) (policy_failed (generation_of vp.(vp_meta)) m) r]
| run_synced pre token a r :
    vp.(vp_meta).(deletion_timestamp) = false -> Policies.has_finalizer vp = true -> Policies.validate_capabilities vp.(vp_spec) = Ok tt ->
    Forall reads_token pre -> ok_status a ->
    policy_run vp now (pre ++ [Sent (put_of vp token) (Ok a);
                               PolicyStatus (namespace_of vp.(vp_meta)) vp.(vp_meta).(m_name)
                                 (policy_synced (generation_of vp.(vp_meta)) vp.(vp_spec).(policy_name) now) r])
| run_refused pre token a m r :
    vp.(vp_meta).(deletion_timestamp) = false -> Policies.has_finalizer vp = true -> Policies.validate_capabilities vp.(vp_spec) = Ok tt ->
    Forall reads_token pre -> (forall a', a = Ok a' -> ~ ok_status a') ->
    policy_run vp now (pre ++ [Sent (put_of vp token) a;
                               PolicyStatus (namespace_of vp.(vp_meta)) vp.(vp_meta).(m_name) (policy_failed (generation_of vp.(vp_meta)) m) r]).

Lemma finalizers_traced (vp : VaultPolicy) fs (act : Action) (w : W) l :
  exists r w1, (_ ← raise KubeApi (patch_finalizers (namespace_of vp.(vp_meta)) vp.(vp_meta).(m_name) fs); mret act) (w, l) =
    (match r with Ok _ => Ok act | Err e => Err (KubeApi e) end, (w1, l ++ [PatchedFinalizers (namespace_of vp.(vp_meta)) vp.(vp_meta).(m_name) fs r])).
Proof.
  rewrite run_bind. unfold raise. cbn [patch_finalizers traced]. unfold logged. cbn [fst snd].
  destruct (patch_finalizers _ _ _ w) as [r w1]. exists r, w1. by destruct r.
Qed.

Lemma handle_delete_run vp now (w : W) r w' es :
  vp.(vp_meta).(deletion_timestamp) = true -> Policies.handle_delete show_code show_int ctx vp (w, []) = (r, (w', es)) -> policy_run vp now es.
Proof.
  intros Hd. unfold Policies.handle_delete, Policies.resolve_auth_token. rewrite run_bind.
  destruct (token_traced vp.(vp_spec).(p_auth) ctx.(Policies.own_token) (namespace_of vp.(vp_meta)) w []) as (t & w1 & pre & -> & Hpre & _).
  rewrite run_bind. unfold attempt. rewrite delete_traced. cbn zeta.
  destruct (send _ w1) as [a w2] eqn:Hs. fold (delete_of vp t) in Hs |- *.
  assert (forall x, (x = Ok tt \/ exists m, x = Err (VaultHttp 404 m)) -> answered show_code a ≫= (fun _ => Ok tt) = x ->
          exists a', a = Ok a' /\ (ok_status a' \/ a'.(an_status) = 404)) as Hgone.
  { intros x Hx Ha. destruct (answered show_code a) as [a'|e] eqn:Han; cbn in Ha.
    - apply answered_ok in Han as [-> Hok]. exists a'. by split; [|left].
    - subst x. destruct Hx as [Hx|[m Hx]]; simplify_eq. apply answered_http in Han as (a' & -> & Hst). eauto. }
  destruct (answered show_code a ≫= _) as [[]|e] eqn:Ha.
  - destruct (Hgone _ (or_introl eq_refl) eq_refl) as (a' & -> & Hok).
    destruct (finalizers_traced vp (filter (fun f => f <> Policies.POLICY_FINALIZER) (default [] vp.(vp_meta).(finalizers))) AwaitChange w2
                (([] ++ pre) ++ [Sent (delete_of vp t) (Ok a')])) as (r' & w3 & Hf).
    unfold Policies.remove_finalizer. rewrite Hf. intros [= _ _ <-]. rewrite <- !(assoc_L _). by apply run_removed.
  - assert (forall m, (_ ← Policies.patch_status vp (policy_failed (generation_of vp.(vp_meta)) m); mret (Requeue Policies.DEFAULT_ERROR_BACKOFF_SECS))
              (w2, ([] ++ pre) ++ [Sent (delete_of vp t) a]) = (r, (w', es)) -> policy_run vp now es) as Hkept.
    { intros m. rewrite run_bind. edestruct (policy_status_traced vp) as (w3 & x & ->). intros [= _ _ <-].
      rewrite <- !(assoc_L _). by apply run_kept. }
    destruct e as [| |st m| | | | | | |]; try apply Hkept.
    destruct (decide (st = 404)) as [->|Hne].
    + destruct (Hgone _ (or_intror (ex_intro _ m eq_refl)) eq_refl) as (a' & -> & Hok).
      edestruct (finalizers_traced vp) as (r' & w3 & Hf). unfold Policies.remove_finalizer. rewrite Hf. intros [= _ _ <-].
      rewrite <- !(assoc_L _). by apply run_removed.
    + intros Hr. apply (Hkept (show_error show_int (VaultHttp st m))). rewrite <- Hr.
      repeat (case_match; try done); lia.
Qed.

(** Whatever the servers answer, a reconciliation of a policy resource makes one
    of six sequences of calls. In particular the finalizer is taken off only after the
    engine acknowledged the deletion or did not know the policy; a policy is sent only
    for a valid resource that carries the finalizer; and the resource is reported as
    synced only after the engine accepted the document of its rules. *)
Theorem policy_reconcile_runs vp now (w : W) r w' es :
  reconcile vp now (w, []) = (r, (w', es)) -> policy_run vp now es.
Proof.
  unfold Policies.reconcile. destruct (deletion_timestamp _) eqn:Hd; [by apply handle_delete_run|].
  destruct (Policies.has_finalizer vp) eqn:Hf; cbn [negb].
  2: { unfold Policies.add_finalizer. unfold Policies.has_finalizer in Hf. rewrite Hf.
       edestruct (finalizers_traced vp) as (r' & w3 & ->). intros [= _ _ <-]. by apply run_protected. }
  destruct (Policies.validate_capabilities vp.(vp_spec)) as [[]|m] eqn:Hv.
  2: { rewrite run_bind. edestruct (policy_status_traced vp) as (w3 & x & ->). intros [= _ _ <-]. by apply run_invalid. }
  unfold Policies.resolve_auth_token. rewrite run_bind.
  destruct (token_traced vp.(vp_spec).(p_auth) ctx.(Policies.own_token) (namespace_of vp.(vp_meta)) w []) as (t & w1 & pre & -> & Hpre & _).
  rewrite run_bind. unfold attempt. rewrite upsert_traced. cbn zeta. destruct (send _ w1) as [a w2] eqn:Hs. fold (put_of vp t) in Hs |- *.
  destruct (answered show_code a) as [a'|e] eqn:Ha; cbn [mbind result_bind]; rewrite run_bind;
    edestruct (policy_status_traced vp) as (w3 & x & ->); intros [= _ _ <-]; rewrite <- !(assoc_L _).
  - apply answered_ok in Ha as [-> Hok]. by apply run_synced.
  - apply run_refused; try done. intros a' -> [Hlo Hhi]. cbn in Ha. unfold success in Ha.
    by rewrite (proj2 (Z.leb_le _ _) Hlo), (proj2 (Z.ltb_lt _ _) Hhi) in Ha.
Qed.

End PolicyTraces.

(** ** Secret resources *)

Section SecretTraces.
Context `{Outside W, Primitives} (show_code show_int : Z -> string)
  (parse_object : string -> result string (gmap string Json)) (to_vec : Json -> string) (ctx : Secrets.OperatorContext).

Abbreviation reconcile := (Secrets.reconcile show_code show_int parse_object to_vec ctx).

Definition get_of (vs : VaultSecret) (token : option string) : Request :=
  Secrets.secret_request ctx (Secrets.endpoint_for ctx vs.(vs_spec)) vs.(vs_spec).(path) token.

Lemma fetch_traced vs token (w : W) l :
  Secrets.fetch_secret_from_vault show_code ctx (Secrets.endpoint_for ctx vs.(vs_spec)) vs.(vs_spec).(path) token (w, l) =
  let '(r, w1) := send (get_of vs token) w in
  (answered show_code r ≫= Secrets.read_response, (w1, l ++ [Sent (get_of vs token) r])).
Proof. exact (exchange_traced show_code _ Secrets.read_response w l). Qed.

(** What the secret of a resource is to be, for an answer of the vault. *)
Definition wanted (vs : VaultSecret) (a : Answer) (ns n : string) (s : Secret) (version : Z) : Prop :=
  exists response data owner,
    ok_status a /\ Secrets.read_response a = Ok response /\
    Secrets.build_secret_data parse_object to_vec response.(Secrets.data) vs.(vs_spec).(data_mappings) = Ok data /\
    Secrets.build_owner_reference vs = Ok owner /\
    Secrets.resolve_target vs.(vs_meta).(m_name) (namespace_of vs.(vs_meta)) vs.(vs_spec).(target) = (n, ns, s.(s_type)) /\
    s = Secrets.manifest s.(s_type) data owner /\ version = response.(Secrets.version).

(** The token that was used, and how it was read. *)
Definition token_run (vs : VaultSecret) (pre : list Event) (token : option string) : Prop :=
  Forall reads_token pre /\
  (vs.(vs_spec).(s_auth) ≫= token_secret_ref = None -> token = ctx.(Secrets.default_vault_token) /\ pre = []).

Inductive secret_run (vs : VaultSecret) (now : string) : list Event -> Prop :=
| srun_unfetched pre token a reason m r :
    token_run vs pre token ->
    secret_run vs now (pre ++ [Sent (get_of vs token) a;
      SecretStatus (namespace_of vs.(vs_meta)) vs.(vs_meta).(m_name) (secret_failed (generation_of vs.(vs_meta)) reason m now) r])
| srun_ownerless pre token a :
    token_run vs pre token -> vs.(vs_meta).(m_uid) = None ->
    secret_run vs now (pre ++ [Sent (get_of vs token) a])
| srun_unapplied pre token a ns n s version e reason m r :
    token_run vs pre token -> wanted vs a ns n s version ->
    secret_run vs now (pre ++ [Sent (get_of vs token) (Ok a); Applied ns n s (Err e);
      SecretStatus (namespace_of vs.(vs_meta)) vs.(vs_meta).(m_name) (secret_failed (generation_of vs.(vs_meta)) reason m now) r])
| srun_synced pre token a ns n s version r :
    token_run vs pre token -> wanted vs a ns n s version ->
    secret_run vs now (pre ++ [Sent (get_of vs token) (Ok a); Applied ns n s (Ok tt);
      SecretStatus (namespace_of vs.(vs_meta)) vs.(vs_meta).(m_name) (secret_synced (generation_of vs.(vs_meta)) version now) r]).

Lemma failed_traced vs now e backoff (w : W) l :
  exists w1 r reason m, Secrets.failed show_int vs now e backoff (w, l) =
    (Ok (Requeue backoff), (w1, l ++ [SecretStatus (namespace_of vs.(vs_meta)) vs.(vs_meta).(m_name) (secret_failed (generation_of vs.(vs_meta)) reason m now) r])).
Proof. unfold Secrets.failed. rewrite run_bind. edestruct (secret_status_traced vs) as (w1 & a & ->). by repeat eexists. Qed.

Lemma apply_traced name ns ty data owner (w : W) l :
  exists r w1, attempt (Secrets.apply_kubernetes_secret name ns ty data owner) (w, l) =
    (Ok (match r with Ok _ => Ok tt | Err e => Err (ApplyTargetSecret name ns e) end), (w1, l ++ [Applied ns name (Secrets.manifest ty data owner) r])).
Proof.
  unfold attempt, Secrets.apply_kubernetes_secret, raise. cbn [apply_secret traced]. unfold logged. cbn [fst snd].
  destruct (apply_secret _ _ _ w) as [r w1]. exists r, w1. by destruct r as [[]|].
Qed.

(** Whatever the servers answer, a reconciliation of a secret resource writes at
    most one secret, the one the resource names, after an answer of the vault that it
    is made of; it reports the resource as synced, with the vault's version, only after
    that write succeeded, and otherwise writes no secret or reports the failure. *)
Theorem secret_reconcile_runs vs now (w : W) r w' es :
  reconcile vs now (w, []) = (r, (w', es)) -> secret_run vs now es.
Proof.
  unfold Secrets.reconcile, Secrets.resolve_auth_token. rewrite run_bind.
  destruct (token_traced vs.(vs_spec).(s_auth) ctx.(Secrets.default_vault_token) (namespace_of vs.(vs_meta)) w []) as (t & w1 & pre & -> & Hpre & Hown).
  assert (token_run vs pre t) as Htok by (split; [done|]; intros Ha; by destruct (Hown Ha) as (? & _ & ?)).
  rewrite run_bind. unfold attempt at 1. rewrite fetch_traced. destruct (send _ w1) as [a w2].
  destruct (answered show_code a ≫= _) as [response|e] eqn:Ha.
  2: { edestruct (failed_traced vs) as (? & ? & ? & ? & ->). intros [= _ _ <-]. rewrite <- !(assoc_L _). by apply srun_unfetched. }
  destruct (Secrets.build_secret_data _ _ _ _) as [data|e] eqn:Hb.
  2: { edestruct (failed_traced vs) as (? & ? & ? & ? & ->). intros [= _ _ <-]. rewrite <- !(assoc_L _). by apply srun_unfetched. }
  destruct (Secrets.resolve_target _ _ _) as [[n ns] ty] eqn:Ht. rewrite run_lift_bind.
  destruct (Secrets.build_owner_reference vs) as [owner|e] eqn:Ho.
  2: { intros [= _ _ <-]. apply srun_ownerless; [done|]. unfold Secrets.build_owner_reference in Ho. by destruct (m_uid _). }
  apply result_bind_ok in Ha as (a' & Ha & Hr). apply answered_ok in Ha as [-> Hok].
  assert (wanted vs a' ns n (Secrets.manifest ty data owner) response.(Secrets.version)) as Hw by by exists response, data, owner.
  rewrite run_bind. edestruct (apply_traced n ns) as (x & w3 & ->). destruct x as [[]|e].
  - rewrite run_bind. edestruct (secret_status_traced vs) as (? & ? & ->). intros [= _ _ <-]. rewrite <- !(assoc_L _). by eapply srun_synced.
  - edestruct (failed_traced vs) as (? & ? & ? & ? & ->). intros [= _ _ <-]. rewrite <- !(assoc_L _). by eapply srun_unapplied.
Qed.

(** A resource that names its endpoint and no token of its own makes the operator
    send its own token there: whoever may create a resource can have it. *)
Theorem own_token_follows_the_resource vs now endpoint token (w : W) r w' es :
  vs.(vs_spec).(s_auth) = None -> vs.(vs_spec).(vault_endpoint) = Some endpoint -> ctx.(Secrets.default_vault_token) = Some token ->
  reconcile vs now (w, []) = (r, (w', es)) ->
  exists rq a rest, es = Sent rq a :: rest /\
    rq.(rq_url) = Str.trim_end "/" endpoint +:+ "/v1/secrets/" +:+ vs.(vs_spec).(path) /\
    ("authorization", "Bearer " +:+ token) ∈ rq.(rq_headers).
Proof.
  intros Hauth Hend Htok Hr%secret_reconcile_runs.
  assert (exists a rest, es = Sent (get_of vs (Some token)) a :: rest) as (a & rest & ->).
  { destruct Hr as [pre t a reason m r' Ht|pre t a Ht _|pre t a ns n s v e reason m r' Ht _|pre t a ns n s v r' Ht _];
      destruct Ht as [_ Ht]; rewrite Hauth, Htok in Ht; destruct (Ht eq_refl) as [-> ->]; cbn; eauto. }
  exists (get_of vs (Some token)), a, rest. split; [done|]. unfold get_of, Secrets.endpoint_for. rewrite Hend.
  split; [done|]. cbn. by left.
Qed.

End SecretTraces.

(** ** What the vault holds is what the cluster gets *)

Section SecretRoundTrip.
Context `{Outside W, PrimitiveLaws} (show_code show_int : Z -> string)
  (parse_object : string -> result string (gmap string Json)) (to_vec : Json -> string) (ctx : Secrets.OperatorContext).

(** Where the vault answers a document as its own handlers do (base64 of the
    document, and its version) and the cluster takes the secret, the secret holds
    exactly the members of the document, and the resource shows that version. *)
Theorem vault_document_reaches_cluster vs now uid doc m v a n ns ty (w w1 w2 : W) :
  vs.(vs_spec).(s_auth) = None -> default [] vs.(vs_spec).(data_mappings) = [] -> vs.(vs_meta).(m_uid) = Some uid ->
  send (get_of ctx vs ctx.(Secrets.default_vault_token)) w = (Ok a, w1) -> ok_status a ->
  (exists body, a.(an_json) = Ok body /\ get_field body "data" = Some (JStr (b64_encode doc)) /\ get_field body "version" = Some (JInt v)) ->
  0 <= v < 2 ^ 32 -> parse_object doc = Ok m ->
  Secrets.resolve_target vs.(vs_meta).(m_name) (namespace_of vs.(vs_meta)) vs.(vs_spec).(target) = (n, ns, ty) ->
  apply_secret ns n (Secrets.manifest ty (Secrets.value_to_bytes to_vec <$> m)
    {| api_version := "wslvault.io/v1alpha1"; o_kind := "VaultSecret"; o_name := vs.(vs_meta).(m_name); o_uid := uid;
       block_owner_deletion := true; o_controller := true |}) w1 = (Ok tt, w2) ->
  Secrets.reconcile show_code show_int parse_object to_vec ctx vs now w =
    (Ok (Requeue (default 60 vs.(vs_spec).(refresh_interval))),
     (patch_secret_status (namespace_of vs.(vs_meta)) vs.(vs_meta).(m_name) (secret_synced (generation_of vs.(vs_meta)) v now) w2).2).
Proof.
  intros Hauth Hmap Huid Hsend [Hlo Hhi] (body & Hj & Hd & Hv) Hrange Hparse Ht Happly.
  unfold Secrets.reconcile, Secrets.resolve_auth_token. rewrite run_bind, Hauth. unfold token_for. cbn [mbind option_bind].
  change ((mret (M := eff W OperatorError) (Secrets.default_vault_token ctx)) w) with (Ok (Secrets.default_vault_token ctx) : result OperatorError (option string), w).
  cbv beta iota. rewrite run_bind. unfold attempt at 1, Secrets.fetch_secret_from_vault. rewrite run_bind. unfold raise at 1.
  fold (get_of ctx vs (Secrets.default_vault_token ctx)). rewrite Hsend. cbv beta iota. rewrite run_lift_bind. unfold success.
  rewrite (proj2 (Z.leb_le _ _) Hlo), (proj2 (Z.ltb_lt _ _) Hhi). cbn [andb]. unfold lift, Secrets.read_response.
  rewrite Hj. cbn [mbind result_bind]. rewrite Hd, Hv. cbn [mbind option_bind as_str ok_or result_bind Secrets.as_u64].
  assert ((0 <=? v) && (v <? 2 ^ 64) = true) as ->.
  { apply andb_true_iff. split; [apply Z.leb_le; apply Hrange|]. apply Z.ltb_lt. by eapply Z.lt_trans; [apply Hrange|]. }
  cbn [from_option id Secrets.data Secrets.version]. unfold as_u32, id. rewrite (wrap_small 32 v Hrange).
  unfold Secrets.build_secret_data. rewrite b64_round_trip. cbn [mbind result_bind]. rewrite Hparse. cbn [mbind result_bind].
  assert (match vs.(vs_spec).(data_mappings) with Some (d :: l) => Secrets.apply_mappings to_vec m (d :: l) ∅ | _ => Ok (Secrets.value_to_bytes to_vec <$> m) end
          = Ok (Secrets.value_to_bytes to_vec <$> m)) as -> by (by destruct (data_mappings _) as [[]|]).
  rewrite Ht. unfold Secrets.build_owner_reference. rewrite Huid. cbn [ok_or mbind result_bind]. rewrite run_bind.
  change (lift (Ok ?o) w1) with (Ok o : result OperatorError OwnerReference, w1). cbv beta iota.
  rewrite run_bind. unfold attempt, Secrets.apply_kubernetes_secret, raise. rewrite Happly. cbv beta iota.
  rewrite run_bind. unfold Secrets.patch_status. rewrite run_bind. unfold outcome.
  by destruct (patch_secret_status _ _ _ w2) as [x w3].
Qed.

End SecretRoundTrip.

(** ** The operator and the policy engine

    The service of [PolicyEngine] at the address [base], behind the router and the
    gateway check of [services/policy-engine/src/http.rs]; requests to other addresses
    and the calls of the Kubernetes client go to [K]. *)

Definition unreserved (a : ascii) : bool := Str.is_ascii_alphanumeric a || bool_decide (a ∈ ["-"; "."; "_"; "~"]%char).

(** A name that is itself in a URL and is not another route. *)
Definition plain_segment (s : string) : bool :=
  Str.forallb unreserved s && bool_decide (s ∉ [""; "."; ".."; "authorize"]).

(** The path of a URL ends at its query or its fragment. *)
Fixpoint path_part (s : string) : string :=
  match s with
  | EmptyString => EmptyString
  | String a s' => if bool_decide (a ∈ ["?"; "#"]%char) then EmptyString else String a (path_part s')
  end.

Lemma path_part_plain s : plain_segment s = true -> path_part s = s.
Proof.
  unfold plain_segment. intros [Hs _]%andb_true_iff. induction s as [|a s IH]; [done|]. cbn in Hs |- *.
  apply andb_true_iff in Hs as [Ha Hs]. rewrite IH by done. case_bool_decide as Hq; [|done]. exfalso.
  apply elem_of_cons in Hq as [->|Hq]; [done|]. by apply list_elem_of_singleton in Hq as ->.
Qed.

Record Attached (K S : Type) := { a_kube : K; a_engine : AppState S }.
Arguments a_kube {K S}.
Arguments a_engine {K S}.

(** *** The document of a resource *)

Definition capability_of (c : PolicyCapability) : Model.Capability :=
  match c with
  | Read => Model.Read | Write => Model.Write | Delete => Model.Delete | List => Model.List
  | Create => Model.Create | Update => Model.Update | Deny => Model.Deny
  end.

Definition rule_of (r : PolicyRuleSpec) : Model.PolicyRule :=
  {| Model.paths := r.(rule_paths); Model.capabilities := list_to_set (map capability_of r.(rule_capabilities)) |}.

(** The document of its rules under the name [n]. *)
Definition document_of (n : string) (spec : VaultPolicySpec) : Model.PolicyDocument :=
  {| Model.name := n; Model.rules := map rule_of spec.(p_rules) |}.

#[global] Instance capability_of_inj : Inj (=) (=) capability_of.
Proof. by intros [] []. Qed.

Lemma capability_str_verb c : capability_str c = verb_of_capability (capability_of c).
Proof. by destruct c. Qed.

(** The engine reads the operator's document as it is meant. *)
Lemma dto_document n spec :
  dto_to_doc {| dto_name := n; dto_rules := (Policies.build_policy_document_dto spec).(dto_rules) |} = Ok (document_of n spec).
Proof.
  unfold dto_to_doc, document_of. cbn [dto_rules dto_name Policies.build_policy_document_dto].
  set (unknown := fun other => "unknown capability: " +:+ other). clearbody unknown.
  assert (parse_rules unknown (map (fun r => {| dto_paths := r.(rule_paths); dto_capabilities := map capability_str r.(rule_capabilities) |}) spec.(p_rules))
          = Ok (map rule_of spec.(p_rules))) as ->; [|done].
  induction spec.(p_rules) as [|r l IH]; [done|]. cbn [map parse_rules dto_capabilities dto_paths].
  assert (map capability_str r.(rule_capabilities) = verb_of_capability <$> map capability_of r.(rule_capabilities)) as ->.
  { induction r.(rule_capabilities) as [|c cs IHc]; [done|]. cbn. rewrite capability_str_verb. by f_equal. }
  rewrite parse_capabilities_verbs. cbn [mbind result_bind]. rewrite IH. done.
Qed.

Definition matches (r : PolicyRuleSpec) (resource : string) : Prop :=
  exists p, p ∈ r.(rule_paths) /\ Glob.glob_spec (Glob.segments p) (Glob.segments resource).

Lemma rule_grants c r : capability_of c ∈ (rule_of r).(Model.capabilities) <-> c ∈ r.(rule_capabilities).
Proof.
  cbn. rewrite elem_of_list_to_set, !list_elem_of_In, in_map_iff. split; [|by exists c].
  intros (c' & Hc%(inj capability_of) & Hin). by subst.
Qed.

(** A holder of the policy [n] alone is allowed exactly what a rule of the resource
    grants and no matching rule denies. *)
Definition decides (cp : Evaluator.CompiledPolicies) (tid n : string) (spec : VaultPolicySpec) : Prop :=
  forall c resource,
    Evaluator.evaluate cp tid [n] (capability_str c) resource = Model.Allow <->
    (exists r, r ∈ spec.(p_rules) /\ matches r resource /\ c ∈ r.(rule_capabilities)) /\
    (forall r, r ∈ spec.(p_rules) -> matches r resource -> Deny ∉ r.(rule_capabilities)).

(** What a compiled document decides. *)
Lemma compiled_decides cp tid n spec :
  Evaluator.policies cp !! (tid, n) = Some (document_of n spec).(Model.rules) -> decides cp tid n spec.
Proof.
  intros Hcp c resource. rewrite Evaluator.evaluate_allow. unfold Evaluator.allows.
  assert (forall rule, Evaluator.applies cp tid [n] resource rule <->
            exists r, rule = rule_of r /\ r ∈ spec.(p_rules) /\ matches r resource) as Happ.
  { intros rule. unfold Evaluator.applies. cbn. split.
    - intros (n' & rs & Hn & Hl & Hin & Hm). apply list_elem_of_singleton in Hn as ->. rewrite Hcp in Hl. injection Hl as <-.
      apply list_elem_of_In, in_map_iff in Hin as (r & <- & Hin). exists r. by rewrite list_elem_of_In.
    - intros (r & -> & Hin & Hm). exists n, (map rule_of spec.(p_rules)).
      rewrite Hcp, list_elem_of_In. split_and!; [by left|done| |done].
      rewrite list_elem_of_In. apply in_map_iff. exists r. by rewrite <- list_elem_of_In. }
  assert (Model.from_action (capability_str c) = Some (capability_of c)) as -> by by destruct c.
  setoid_rewrite Happ. split.
  - intros (req & [= <-] & (rule & (r & -> & Hin & Hm) & Hc) & Hdeny). split; [exists r; by rewrite <- rule_grants|].
    intros r' Hin' Hm' Hd. apply (Hdeny (rule_of r')); [by exists r'|]. by apply (rule_grants Deny).
  - intros [(r & Hin & Hm & Hc) Hdeny]. exists (capability_of c). split; [done|]. split; [exists (rule_of r); rewrite rule_grants; eauto|].
    intros rule (r' & -> & Hin' & Hm') Hd. apply (Hdeny r' Hin' Hm'). by apply (rule_grants Deny).
Qed.

(** A document the store has taken is what the next rebuild compiles. *)
Lemma stored_decides {S} `{PolicyTable S} (state : AppState S) tid n spec :
  named (table state.(store)) -> answers state.(store) = true -> tenant_row tid = Some tid ->
  table (install state tid (document_of n spec)).(store) !! (tid, n) = Some (document_of n spec) /\
  (answers (install state tid (document_of n spec)).(store) = true ->
   decides (compile (install state tid (document_of n spec)).(store)) tid n spec).
Proof.
  intros Hn Ha Ht. set (s' := (install state tid (document_of n spec)).(store)).
  assert (table s' = <[(tid, n) := document_of n spec]> (table state.(store))) as Hput.
  { unfold s'. cbn. by rewrite table_put, Ht, Ha. }
  split; [by rewrite Hput, lookup_insert_eq|]. intros Ha'. apply compiled_decides.
  rewrite (compile_listed (table s')).
  - unfold snapshot_of. by rewrite lookup_fmap, Hput, lookup_insert_eq.
  - rewrite Hput. by apply (named_insert _ tid (document_of n spec)).
  - intros. by apply table_all.
Qed.

Section Attachment.
Context `{Outside K} {S : Type} `{PolicyStoreBackend S} {auth : Authenticator} (env : Env) (gw : option string) (base : string)
  (body_text : PolicyEngine.Body -> string) (body_json : PolicyEngine.Body -> Json).

Definition engine_reply (rq : Request) (state : AppState S) : option (PolicyEngine.Response * AppState S) :=
  match Str.strip_prefix (base +:+ "/v1/policies/") rq.(rq_url) with
  | Some rest =>
      let name := path_part rest in
      let headers : HeaderMap := list_to_map rq.(rq_headers) in
      if negb (plain_segment name) then None
      else if negb (is_authorized (gateway_expected gw) (headers !! "x-gateway-auth"))
      then Some ((401, BMessage "request must originate from the WSLVault gateway"), state)
      else match rq.(rq_method), rq.(rq_json) with
           | PUT, Some dto => Some (http_upsert_policy env state headers name dto)
           | DELETE, _ => Some (http_delete_policy env state headers name)
           | GET, _ => Some (http_get_policy state headers name, state)
           | PUT, None => None
           end
  | None => None
  end.

Definition on_kube {A} (m : K -> result string A * K) (w : Attached K S) : result string A * Attached K S :=
  let '(r, k) := m w.(a_kube) in (r, {| a_kube := k; a_engine := w.(a_engine) |}).

#[local] Instance attached : Outside (Attached K S) := {|
  send rq w :=
    match engine_reply rq w.(a_engine) with
    | Some ((status, body), e) =>
        (Ok {| an_status := status; an_text := Ok (body_text body); an_json := Ok (body_json body) |}, {| a_kube := w.(a_kube); a_engine := e |})
    | None => on_kube (send rq) w
    end;
  get_secret ns n := on_kube (get_secret ns n);
  apply_secret ns n s := on_kube (apply_secret ns n s);
  patch_finalizers ns n l := on_kube (patch_finalizers ns n l);
  patch_policy_status ns n st := on_kube (patch_policy_status ns n st);
  patch_secret_status ns n st := on_kube (patch_secret_status ns n st);
|}.

Context (show_code show_int : Z -> string) (ctx : Policies.PolicyOperatorContext).

Abbreviation reconcile := (Policies.reconcile show_code show_int ctx).
Abbreviation engine_after rq e := (match engine_reply rq e with Some (_, e') => e' | None => e end).

Lemma on_kube_engine {A} (m : K -> result string A * K) w : (on_kube m w).2.(a_engine) = w.(a_engine).
Proof. unfold on_kube. by destruct (m _). Qed.

Lemma send_engine rq (w : Attached K S) : (send rq w).2.(a_engine) = engine_after rq w.(a_engine).
Proof. cbn [send attached]. destruct (engine_reply rq _) as [[[st b] e]|]; [done|apply on_kube_engine]. Qed.

Lemma logged_engine {A} (f : result string A -> Event) (m : Attached K S -> result string A * Attached K S) s :
  (logged f m s).2.1.(a_engine) = (m s.1).2.(a_engine).
Proof. unfold logged. by destruct (m s.1). Qed.

Lemma token_keeps_engine auth' own ns (w : Attached K S) l r w1 l1 :
  token_for auth' own ns (w, l) = (r, (w1, l1)) -> w1.(a_engine) = w.(a_engine).
Proof.
  unfold token_for. destruct (auth' ≫= _) as [x|]; [|by intros [= _ <- _]]. rewrite run_bind. unfold outcome.
  pose proof (logged_engine (GotSecret ns x.(skr_name)) (get_secret ns x.(skr_name)) (w, l)) as Hl.
  cbn [get_secret traced]. destruct (logged _ _ (w, l)) as [found [w2 l2]]. intros [= _ <- _]. cbn [fst snd] in Hl. rewrite Hl.
  apply on_kube_engine.
Qed.

Lemma status_keeps_engine vp st (w : Attached K S) l r w1 l1 :
  Policies.patch_status vp st (w, l) = (r, (w1, l1)) -> w1.(a_engine) = w.(a_engine).
Proof.
  unfold Policies.patch_status. rewrite run_bind. unfold outcome.
  pose proof (logged_engine (PolicyStatus (namespace_of vp.(vp_meta)) vp.(vp_meta).(m_name) st)
    (patch_policy_status (namespace_of vp.(vp_meta)) vp.(vp_meta).(m_name) st) (w, l)) as Hl.
  cbn [patch_policy_status traced]. destruct (logged _ _ (w, l)) as [a [w2 l2]]. intros [= _ <- _]. cbn [fst snd] in Hl. rewrite Hl.
  apply on_kube_engine.
Qed.

Lemma finalizers_keep_engine vp fs (act : Action) (w : Attached K S) l r w1 l1 :
  (_ ← raise KubeApi (patch_finalizers (namespace_of vp.(vp_meta)) vp.(vp_meta).(m_name) fs); mret act) (w, l) = (r, (w1, l1)) ->
  w1.(a_engine) = w.(a_engine).
Proof.
  rewrite run_bind. unfold raise.
  pose proof (logged_engine (PatchedFinalizers (namespace_of vp.(vp_meta)) vp.(vp_meta).(m_name) fs)
    (patch_finalizers (namespace_of vp.(vp_meta)) vp.(vp_meta).(m_name) fs) (w, l)) as Hl.
  cbn [patch_finalizers traced]. destruct (logged _ _ (w, l)) as [a [w2 l2]]. cbn [fst snd] in Hl.
  destruct a; intros [= _ <- _]; rewrite Hl; apply on_kube_engine.
Qed.

Lemma reads_no_status pre ns n st a : Forall reads_token pre -> PolicyStatus ns n st a ∉ pre.
Proof. rewrite Forall_forall. intros Hp Hin. by apply (Hp _ Hin). Qed.

(** A run reports success only where a policy was sent. *)
Lemma synced_run vp now es ns n st a :
  policy_run ctx vp now es -> PolicyStatus ns n st a ∈ es -> st.(synced) = true ->
  vp.(vp_meta).(deletion_timestamp) = false /\ Policies.has_finalizer vp = true /\ Policies.validate_capabilities vp.(vp_spec) = Ok tt.
Proof.
  intros Hrun Hin Hs.
  destruct Hrun as [pre t x fs r Hd Hp|pre t x m r Hd Hp|fs r Hd Hf|m r Hd Hf Hv|pre t x r Hd Hf Hv Hp|pre t x m r Hd Hf Hv Hp]; [| | | |done..];
    rewrite ?elem_of_app, ?elem_of_cons, ?elem_of_nil in Hin; try pose proof (reads_no_status pre ns n st a Hp);
    destruct_or? Hin; simplify_eq; try done.
Qed.

Lemma delete_engine vp (w : Attached K S) r w' es :
  Policies.handle_delete show_code show_int ctx vp (w, []) = (r, (w', es)) ->
  exists token, w'.(a_engine) = engine_after (delete_of ctx vp token) w.(a_engine).
Proof.
  unfold Policies.handle_delete, Policies.resolve_auth_token. rewrite run_bind.
  destruct (token_traced vp.(vp_spec).(p_auth) ctx.(Policies.own_token) (namespace_of vp.(vp_meta)) w []) as (t & w1 & pre & Ht & _).
  rewrite Ht. apply token_keeps_engine in Ht. rewrite run_bind. unfold attempt. rewrite delete_traced. cbn zeta.
  pose proof (send_engine (delete_of ctx vp t) w1) as Hse. fold (delete_of ctx vp t).
  destruct (send (delete_of ctx vp t) w1) as [a w2]. cbn [snd] in Hse. intros Hr. exists t. rewrite <- Ht, <- Hse.
  assert (forall m b, (_ ← Policies.patch_status vp (policy_failed (generation_of vp.(vp_meta)) m); mret (Requeue b))
            (w2, ([] ++ pre) ++ [Sent (delete_of ctx vp t) a]) = (r, (w', es)) -> w'.(a_engine) = w2.(a_engine)) as Hk.
  { intros m b. rewrite run_bind. destruct (Policies.patch_status _ _ _) as [x [w3 l3]] eqn:Hx. apply status_keeps_engine in Hx.
    destruct x; intros [= _ <- _]; done. }
  destruct (answered show_code a ≫= _) as [[]|e]; [by eapply finalizers_keep_engine|].
  destruct e as [| |st m| | | | | | |]; try (by eapply Hk).
  destruct (decide (st = 404)) as [->|Hne]; [by eapply finalizers_keep_engine|].
  apply (Hk (show_error show_int (VaultHttp st m)) Policies.DEFAULT_ERROR_BACKOFF_SECS). rewrite <- Hr. repeat (case_match; try done); lia.
Qed.

(** What a reconciliation does to the engine: the request of the resource, or nothing. *)
Lemma reconcile_engine vp now (w : Attached K S) r w' es :
  reconcile vp now (w, []) = (r, (w', es)) ->
  exists token,
    w'.(a_engine) =
      (if vp.(vp_meta).(deletion_timestamp) then engine_after (delete_of ctx vp token) w.(a_engine)
       else if Policies.has_finalizer vp && is_ok (Policies.validate_capabilities vp.(vp_spec))
            then engine_after (put_of ctx vp token) w.(a_engine) else w.(a_engine)) /\
    (forall ns n st a resp e', PolicyStatus ns n st a ∈ es -> st.(synced) = true ->
       engine_reply (put_of ctx vp token) w.(a_engine) = Some (resp, e') ->
       200 <= resp.1 < 300 /\ exists ans, Sent (put_of ctx vp token) (Ok ans) ∈ es /\ ans.(an_status) = resp.1).
Proof.
  intros Hr. assert (Hrun := Hr). apply policy_reconcile_runs in Hrun. revert Hr. unfold Policies.reconcile.
  destruct (deletion_timestamp _) eqn:Hd.
  { intros [t Ht]%delete_engine. exists t. split; [done|]. intros ns n st a resp e' Hin Hs.
    apply (synced_run _ _ _ _ _ _ _ Hrun Hin) in Hs as [? _]. congruence. }
  destruct (Policies.has_finalizer vp) eqn:Hf; cbn [negb andb].
  2: { intros Hr. apply finalizers_keep_engine in Hr. exists None. split; [done|]. intros ns n st a resp e' Hin Hs.
       apply (synced_run _ _ _ _ _ _ _ Hrun Hin) in Hs as (_ & ? & _). congruence. }
  destruct (Policies.validate_capabilities vp.(vp_spec)) as [[]|m] eqn:Hv; cbn [is_ok].
  2: { rewrite run_bind. destruct (Policies.patch_status _ _ _) as [x [w3 l3]] eqn:Hx. apply status_keeps_engine in Hx.
       intros Hr. exists None. split; [by destruct x; injection Hr as _ <- _|]. intros ns n st a resp e' Hin Hs.
       apply (synced_run _ _ _ _ _ _ _ Hrun Hin) in Hs as (_ & _ & ?). congruence. }
  clear Hrun. unfold Policies.resolve_auth_token. rewrite run_bind.
  destruct (token_traced vp.(vp_spec).(p_auth) ctx.(Policies.own_token) (namespace_of vp.(vp_meta)) w []) as (t & w1 & pre & Ht & Hpre & _).
  rewrite Ht. apply token_keeps_engine in Ht. rewrite run_bind. unfold attempt. rewrite upsert_traced. cbn zeta. fold (put_of ctx vp t).
  pose proof (send_engine (put_of ctx vp t) w1) as Hse. rewrite <- Ht. intros Hr. exists t. revert Hr.
  destruct (send (put_of ctx vp t) w1) as [a w2] eqn:Hsend. cbn [snd] in Hse. rewrite <- Hse. clear Hse.
  destruct (answered show_code a) as [a'|e] eqn:Ha; cbn [mbind result_bind]; rewrite run_bind;
    match goal with |- context [Policies.patch_status vp ?st ?s] => destruct (Policies.patch_status vp st s) as [x [w3 l3]] eqn:Hx end;
    assert (Hx' := Hx); apply status_keeps_engine in Hx';
    match type of Hx with Policies.patch_status _ ?st (?w, ?l) = _ => destruct (policy_status_traced vp st w l) as (w4 & y & Hy) end;
    rewrite Hx in Hy; injection Hy as -> -> ->; intros [= _ <- <-]; (split; [done|]);
    intros ns n st z resp e' Hin Hs Hrep; rewrite <- !(assoc_L _) in Hin; cbn in Hin;
    rewrite elem_of_app, !elem_of_cons, elem_of_nil in Hin; pose proof (reads_no_status pre ns n st z Hpre);
    destruct_or? Hin; simplify_eq; try done.
  apply answered_ok in Ha as [-> Hok]. cbn [send attached] in Hsend. rewrite Hrep in Hsend. destruct resp as [status body].
  injection Hsend as <- _. split; [exact Hok|].
  exists {| an_status := status; an_text := Ok (body_text body); an_json := Ok (body_json body) |}. split; [|done].
  rewrite <- !(assoc_L _). apply elem_of_app. right. by left.
Qed.

(** *** Resources the engine at [base] serves *)

(** The name a resource's requests arrive under: up to a question mark or a hash
    sign, since the operator puts the name into the URL as it is. *)
Definition wire_name (vp : VaultPolicy) : string := path_part vp.(vp_spec).(policy_name).

Definition served (vp : VaultPolicy) : Prop :=
  Policies.resolve_policy_engine_endpoint ctx vp.(vp_spec) = base /\ plain_segment (wire_name vp) = true.

Abbreviation headers_of rq := (list_to_map rq.(rq_headers) : HeaderMap).
Abbreviation through rq := (is_authorized (gateway_expected gw) (headers_of rq !! "x-gateway-auth")).

Lemma put_reply vp token e :
  served vp ->
  engine_reply (put_of ctx vp token) e =
  Some (if through (put_of ctx vp token)
        then http_upsert_policy env e (headers_of (put_of ctx vp token)) (wire_name vp) (Policies.build_policy_document_dto vp.(vp_spec))
        else ((401, BMessage "request must originate from the WSLVault gateway"), e)).
Proof.
  intros [Hend Hplain]. unfold engine_reply. cbn [put_of Policies.policy_request rq_url rq_method rq_json]. rewrite Hend.
  rewrite (proj2 (Str.strip_prefix_Some _ _ vp.(vp_spec).(policy_name))) by by rewrite Str.app_assoc.
  fold (wire_name vp). rewrite Hplain. cbn [negb]. by destruct (is_authorized _ _).
Qed.

Lemma delete_reply vp token e :
  served vp ->
  engine_reply (delete_of ctx vp token) e =
  Some (if through (delete_of ctx vp token)
        then http_delete_policy env e (headers_of (delete_of ctx vp token)) (wire_name vp)
        else ((401, BMessage "request must originate from the WSLVault gateway"), e)).
Proof.
  intros [Hend Hplain]. unfold engine_reply. cbn [delete_of Policies.policy_request rq_url rq_method rq_json]. rewrite Hend.
  rewrite (proj2 (Str.strip_prefix_Some _ _ vp.(vp_spec).(policy_name))) by by rewrite Str.app_assoc.
  fold (wire_name vp). rewrite Hplain. cbn [negb]. by destruct (is_authorized _ _).
Qed.

Lemma upsert_inv headers e n spec :
  let '(resp, e') := http_upsert_policy env e headers n (Policies.build_policy_document_dto spec) in
  (resp.1 = 200 /\ exists tid, admin_caller_tenant env headers = Ok tid /\ e' = install e tid (document_of n spec)) \/
  ((resp.1 = 401 \/ resp.1 = 403) /\ e' = e).
Proof.
  unfold http_upsert_policy. destruct (admin_caller_tenant env headers) as [tid|resp] eqn:Ha.
  - rewrite dto_document. left. eauto.
  - right. split; [|done]. unfold admin_caller_tenant in Ha. destruct (resolve headers); [|injection Ha as <-; by left].
    destruct (negb _); [|done]. injection Ha as <-. by right.
Qed.

(** C34. Take a resource that points at this engine ([served]) and whose policy name
    consists of plain URL characters, at least up to a question mark or hash sign. When
    it is reported as synced it is in force, under that part of its name: the whole of
    it where there is no such sign; otherwise see [question_mark_in_name]. The policy was
    sent with some token and answered with success; the engine installed the document
    of its rules under that name for the tenant of that token, and a holder of that
    name alone is allowed there exactly what a rule of the resource grants and no
    matching rule denies. Where the store knows the tenant by its id and answered, the
    document is stored, and the next rebuild of the engine that gets an answer decides
    the same; a store that did not answer has lost it without an error. *)
Theorem synced_policy_is_in_force vp now (w : Attached K S) r w' es ns n st a :
  served vp -> reconcile vp now (w, []) = (r, (w', es)) -> PolicyStatus ns n st a ∈ es -> st.(synced) = true ->
  exists token ans tid,
    Sent (put_of ctx vp token) (Ok ans) ∈ es /\ 200 <= ans.(an_status) < 300 /\
    admin_caller_tenant env (headers_of (put_of ctx vp token)) = Ok tid /\
    w'.(a_engine) = install w.(a_engine) tid (document_of (wire_name vp) vp.(vp_spec)) /\
    decides w'.(a_engine).(compiled) tid (wire_name vp) vp.(vp_spec) /\
    (plain_segment vp.(vp_spec).(policy_name) = true -> wire_name vp = vp.(vp_spec).(policy_name)) /\
    forall T : PolicyTable S,
      named (table w.(a_engine).(store)) -> answers w.(a_engine).(store) = true -> tenant_row tid = Some tid ->
      table w'.(a_engine).(store) !! (tid, wire_name vp) = Some (document_of (wire_name vp) vp.(vp_spec)) /\
      (answers w'.(a_engine).(store) = true -> decides (compile w'.(a_engine).(store)) tid (wire_name vp) vp.(vp_spec)).
Proof.
  intros Hserved Hr Hin Hs. assert (Hrun := Hr). apply policy_reconcile_runs in Hrun.
  destruct (synced_run _ _ _ _ _ _ _ Hrun Hin Hs) as (Hd & Hf & Hv). apply reconcile_engine in Hr as (token & He & Hst).
  rewrite Hd, Hf, Hv in He. cbn [andb is_ok] in He. rewrite (put_reply vp token _ Hserved) in He, Hst.
  pose proof (upsert_inv (headers_of (put_of ctx vp token)) w.(a_engine) (wire_name vp) vp.(vp_spec)) as Hinv.
  specialize (Hst ns n st a). destruct (is_authorized _ _); [|specialize (Hst _ _ Hin Hs eq_refl); cbn in Hst; lia].
  destruct (http_upsert_policy _ _ _ _ _) as [resp e']. destruct (Hst _ _ Hin Hs eq_refl) as ([Hlo Hhi] & ans & Hsent & Hans).
  destruct Hinv as [(_ & tid & Ha & ->)|[[Hc|Hc] _]]; [|lia|lia]. exists token, ans, tid. rewrite He, Hans. split_and!; try done.
  - apply compiled_decides. cbn. by rewrite lookup_insert_eq.
  - apply path_part_plain.
  - intros T. apply stored_decides.
Qed.

(** *** The tenant of a resource *)

Definition with_tenant (t : string) (vp : VaultPolicy) : VaultPolicy :=
  {| vp_meta := vp.(vp_meta);
     vp_spec := {| policy_name := vp.(vp_spec).(policy_name); p_tenant_id := t;
                   policy_engine_endpoint := vp.(vp_spec).(policy_engine_endpoint); p_auth := vp.(vp_spec).(p_auth);
                   p_rules := vp.(vp_spec).(p_rules) |} |}.

(** Callers are known by their token alone, as [Auth.resolve_identity] knows them while
    the gateway's headers are not trusted. *)
Definition token_only : Prop := forall h1 h2 : HeaderMap,
  h1 !! "x-vault-token" = h2 !! "x-vault-token" -> h1 !! "authorization" = h2 !! "authorization" -> resolve h1 = resolve h2.

Lemma tenant_header_unread (t t' k : string) (l : list (string * string)) :
  k <> "x-tenant-id" -> (list_to_map (("x-tenant-id", t) :: l) : HeaderMap) !! k = (list_to_map (("x-tenant-id", t') :: l) : HeaderMap) !! k.
Proof. intros Hk. cbn. by rewrite !lookup_insert_ne by done. Qed.

Lemma same_engine_reply vp t token e :
  token_only -> served vp ->
  engine_reply (put_of ctx vp token) e = engine_reply (put_of ctx (with_tenant t vp) token) e /\
  engine_reply (delete_of ctx vp token) e = engine_reply (delete_of ctx (with_tenant t vp) token) e.
Proof.
  intros Honly Hs. assert (served (with_tenant t vp)) as Hs' by done.
  rewrite !put_reply, !delete_reply by done.
  assert (forall h1 h2, h1 = ("x-tenant-id", vp.(vp_spec).(p_tenant_id)) :: bearer token -> h2 = ("x-tenant-id", t) :: bearer token ->
            resolve (list_to_map h1) = resolve (list_to_map h2) /\
            (list_to_map h1 : HeaderMap) !! "x-gateway-auth" = (list_to_map h2 : HeaderMap) !! "x-gateway-auth") as Hh.
  { intros h1 h2 -> ->. split; [apply Honly|]; by apply tenant_header_unread. }
  unfold http_upsert_policy, http_delete_policy, admin_caller_tenant.
  cbn [put_of delete_of Policies.policy_request rq_headers with_tenant vp_spec p_tenant_id].
  destruct (Hh _ _ eq_refl eq_refl) as [-> ->]. done.
Qed.

(** The tenant a resource names plays no part: where callers are known by their
    token, a reconciliation does the same for any other tenant in its place. Every
    policy lands in the tenant of the operator's token, and two resources of different
    tenants with one policy name overwrite each other. *)
Theorem tenant_of_resource_is_ignored vp t now (w : Attached K S) :
  token_only -> served vp -> reconcile vp now w = reconcile (with_tenant t vp) now w.
Proof.
  intros Honly Hs.
  assert (forall token w, send (put_of ctx vp token) w = send (put_of ctx (with_tenant t vp) token) w) as Hput.
  { intros token w1. cbn [send attached]. rewrite (put_reply (with_tenant t vp)) by done.
    destruct (same_engine_reply vp t token w1.(a_engine) Honly Hs) as [-> _]. by rewrite (put_reply (with_tenant t vp)) by done. }
  assert (forall token w, send (delete_of ctx vp token) w = send (delete_of ctx (with_tenant t vp) token) w) as Hdel.
  { intros token w1. cbn [send attached]. rewrite (delete_reply (with_tenant t vp)) by done.
    destruct (same_engine_reply vp t token w1.(a_engine) Honly Hs) as [_ ->]. by rewrite (delete_reply (with_tenant t vp)) by done. }
  unfold Policies.reconcile, Policies.handle_delete. cbn [with_tenant vp_meta vp_spec policy_name p_tenant_id].
  destruct (deletion_timestamp _); [|destruct (negb (Policies.has_finalizer vp)) eqn:Hf;
    [by unfold Policies.has_finalizer in *; cbn [with_tenant vp_meta]; rewrite Hf|]].
  - rewrite !run_bind. unfold Policies.resolve_auth_token. cbn [with_tenant vp_meta vp_spec p_auth].
    destruct (token_for _ _ _ w) as [[token|] w1]; [|done]. rewrite !run_bind. unfold attempt, Policies.delete_policy. rewrite !run_bind.
    unfold raise. specialize (Hdel token w1). unfold delete_of in Hdel. cbn [with_tenant vp_spec policy_name p_tenant_id] in Hdel.
    rewrite Hdel. done.
  - unfold Policies.has_finalizer in *. cbn [with_tenant vp_meta]. rewrite Hf. unfold Policies.validate_capabilities. cbn [p_rules].
    destruct (Policies.validate_rules _); [|done].
    rewrite !run_bind. unfold Policies.resolve_auth_token. cbn [with_tenant vp_meta vp_spec p_auth].
    destruct (token_for _ _ _ w) as [[token|] w1]; [|done]. rewrite !run_bind. unfold attempt, Policies.upsert_policy. rewrite !run_bind.
    unfold raise. specialize (Hput token w1). unfold put_of in Hput. cbn [with_tenant vp_spec policy_name p_tenant_id] in Hput.
    rewrite Hput. done.
Qed.

(** *** Deleted and renamed resources *)

Lemma upsert_elsewhere `{!LawfulBackend S} e headers name dto t n :
  n <> name ->
  docs (http_upsert_policy env e headers name dto).2.(store) !! (t, n) = docs e.(store) !! (t, n) /\
  Evaluator.policies (http_upsert_policy env e headers name dto).2.(compiled) !! (t, n) = Evaluator.policies e.(compiled) !! (t, n).
Proof.
  intros Hn. unfold http_upsert_policy. destruct (admin_caller_tenant env headers) as [tid|]; [|done].
  unfold dto_to_doc. destruct (parse_rules _ _) as [rs|]; [|done]. cbn. rewrite docs_put. cbn.
  by rewrite !lookup_insert_ne by congruence.
Qed.

Lemma delete_elsewhere `{!LawfulBackend S} e headers name t n :
  n <> name ->
  docs (http_delete_policy env e headers name).2.(store) !! (t, n) = docs e.(store) !! (t, n) /\
  Evaluator.policies (http_delete_policy env e headers name).2.(compiled) !! (t, n) = Evaluator.policies e.(compiled) !! (t, n).
Proof.
  intros Hn. unfold http_delete_policy. destruct (admin_caller_tenant env headers) as [tid|]; [|done].
  pose proof (docs_delete e.(store) tid name) as Hd.
  destruct (PolicyEngine.delete_policy _ _ _) as [[d|] s']; cbn [fst snd store compiled Evaluator.remove Evaluator.policies] in *;
    rewrite Hd, lookup_delete_ne by congruence; [|done]. by rewrite lookup_delete_ne by congruence.
Qed.

(** A reconciliation of a resource with another policy name. *)
Inductive other_resource (n : string) : Attached K S -> Attached K S -> Prop :=
| other_reconciled vp now w r w' es :
    served vp -> wire_name vp <> n -> reconcile vp now (w, []) = (r, (w', es)) -> other_resource n w w'.

(** A policy outlives the resource that made it when that is given another policy
    name: whatever the operator reconciles from then on, deletions included, the
    document under the old name stays and keeps deciding. *)
Theorem renamed_policy_stays `{!LawfulBackend S} n t (w w' : Attached K S) :
  rtc (other_resource n) w w' ->
  docs w'.(a_engine).(store) !! (t, n) = docs w.(a_engine).(store) !! (t, n) /\
  Evaluator.policies w'.(a_engine).(compiled) !! (t, n) = Evaluator.policies w.(a_engine).(compiled) !! (t, n).
Proof.
  induction 1 as [|w1 w2 w3 Hs _ IH]; [done|]. destruct IH as [-> ->]. clear w3.
  destruct Hs as [vp now w r w' es Hserved Hn Hr]. apply reconcile_engine in Hr as (token & -> & _).
  rewrite (delete_reply vp token _ Hserved), (put_reply vp token _ Hserved).
  destruct (deletion_timestamp _); [|destruct (_ && _); [|done]]; destruct (is_authorized _ _); try done.
  - pose proof (delete_elsewhere w.(a_engine) (headers_of (delete_of ctx vp token)) (wire_name vp) t n) as Hd.
    destruct (http_delete_policy _ _ _ _) as [resp e']. by apply Hd.
  - pose proof (upsert_elsewhere w.(a_engine) (headers_of (put_of ctx vp token)) (wire_name vp)
                  (Policies.build_policy_document_dto vp.(vp_spec)) t n) as Hu.
    destruct (http_upsert_policy _ _ _ _ _) as [resp e']. by apply Hu.
Qed.

(** Where the engine's store does not report what it deleted, as the one in
    PostgreSQL does not, a deleted resource is let go while its policy still decides:
    the row goes, the engine answers 404, the operator takes that for done and lifts
    the finalizer, and the compiled policies are what they were. *)
Theorem deleted_resource_keeps_deciding vp now (w : Attached K S) tid x k :
  served vp -> vp.(vp_meta).(deletion_timestamp) = true -> vp.(vp_spec).(p_auth) = None ->
  let rq := delete_of ctx vp ctx.(Policies.own_token) in
  through rq = true -> admin_caller_tenant env (headers_of rq) = Ok tid ->
  (PolicyEngine.delete_policy w.(a_engine).(store) tid (wire_name vp)).1 = None ->
  patch_finalizers (namespace_of vp.(vp_meta)) vp.(vp_meta).(m_name)
    (filter (fun f => f <> Policies.POLICY_FINALIZER) (default [] vp.(vp_meta).(finalizers))) w.(a_kube) = (x, k) ->
  reconcile vp now w =
    (match x with Ok _ => Ok AwaitChange | Err e => Err (KubeApi e) end,
     {| a_kube := k;
        a_engine := {| store := (PolicyEngine.delete_policy w.(a_engine).(store) tid (wire_name vp)).2;
                       compiled := w.(a_engine).(compiled) |} |}).
Proof.
  intros Hs Hd Hauth rq Hgw Hadm Hnone Hk. unfold Policies.reconcile. rewrite Hd. unfold Policies.handle_delete, Policies.resolve_auth_token.
  rewrite run_bind, Hauth. unfold token_for. cbn [mbind option_bind].
  change ((mret (M := eff (Attached K S) OperatorError) (Policies.own_token ctx)) w) with (Ok (Policies.own_token ctx) : result OperatorError (option string), w).
  cbv beta iota. rewrite run_bind. unfold attempt, Policies.delete_policy. rewrite run_bind. unfold raise at 1.
  fold (delete_of ctx vp (Policies.own_token ctx)). fold rq. cbn [send attached]. unfold rq at 1. rewrite (delete_reply vp _ _ Hs). fold rq. rewrite Hgw.
  unfold http_delete_policy. rewrite Hadm. destruct (PolicyEngine.delete_policy _ _ _) as [d s']. cbn [fst snd] in *. subst d.
  cbv beta iota. rewrite run_lift_bind. cbn [success an_status an_text Z.leb Z.ltb Z.compare Pos.compare Pos.compare_cont andb].
  unfold Policies.remove_finalizer. rewrite run_bind. unfold raise. cbn [patch_finalizers attached]. unfold on_kube. cbn [a_kube]. rewrite Hk. by destruct x.
Qed.

End Attachment.

(** Callers of the engine, as [wslvault-core] resolves them without trusting headers. *)
Lemma resolve_identity_is_token_only dh ed hs fetch b64 rev dbg env now cache :
  gateway_headers_trusted env = false ->
  token_only (auth := {| resolve h := (resolve_identity dh ed hs fetch b64 rev dbg env now cache h).1 |}).
Proof.
  intros Hoff h1 h2 Hx Ha. cbn.
  by destruct (resolve_identity_token_only dh ed hs fetch b64 rev dbg env now cache h1 h2 Hoff Hx Ha) as [-> _].
Qed.

(** The store in PostgreSQL never reports what it deleted. *)
Lemma pg_delete_reports_nothing uuid_canon s t n : (pg_delete_policy uuid_canon s t n).1 = None.
Proof. unfold pg_delete_policy. by destruct (uuid_canon t). Qed.

(** ** A cluster *)

Module OperatorDemo.

(** A cluster that takes everything and has no secrets. *)
#[local] Instance cluster : Outside () := {|
  send _ w := (Err "no route", w);
  get_secret _ _ w := (Err "not found", w);
  apply_secret _ _ _ w := (Ok tt, w);
  patch_finalizers _ _ _ w := (Ok tt, w);
  patch_policy_status _ _ _ w := (Ok tt, w);
  patch_secret_status _ _ _ w := (Ok tt, w);
|}.

#[local] Instance callers : Authenticator := {|
  resolve headers :=
    match headers !! "authorization" with
    | Some "Bearer op" => Ok {| tenant_id := "t1"; principal_id := "operator"; policies := ["root"]; expires_at := None; superuser := false |}
    | _ => Err "no token"
    end |}.

Definition engine : AppState PolicyStore := {| store := {| inner := ∅ |}; compiled := Evaluator.new |}.
Definition start : Attached () PolicyStore := {| a_kube := tt; a_engine := engine |}.
Definition context : Policies.PolicyOperatorContext := {| Policies.default_endpoint := "http://policy-engine:8082/"; Policies.own_token := Some "op" |}.

Definition resource (tenant : string) (cap : PolicyCapability) : VaultPolicy :=
  {| vp_meta := {| m_name := "app"; m_namespace := Some "prod"; m_uid := Some "u1"; generation := Some 3; deletion_timestamp := false;
                   finalizers := Some [Policies.POLICY_FINALIZER] |};
     vp_spec := {| policy_name := "readers"; p_tenant_id := tenant; policy_engine_endpoint := None; p_auth := None;
                   p_rules := [{| rule_name := "r"; rule_paths := ["app/**"]; rule_capabilities := [cap] |}] |} |}.

Abbreviation base := "http://policy-engine:8082".
Abbreviation outside := (attached closed_env None base (fun _ => "") (fun _ => JNull)).

Definition run (vp : VaultPolicy) (s : Attached () PolicyStore * list Event) :=
  Policies.reconcile (H := @traced _ outside) (fun _ => "") (fun _ => "") context vp "now" s.

Definition read_run := run (resource "t2" Read) (start, []).

Lemma synced_policy_is_in_force_witness :
  exists token ans tid,
    Sent (put_of context (resource "t2" Read) token) (Ok ans) ∈ read_run.2.2 /\ 200 <= ans.(an_status) < 300 /\
    admin_caller_tenant closed_env (list_to_map (put_of context (resource "t2" Read) token).(rq_headers)) = Ok tid /\
    read_run.2.1.(a_engine) = install engine tid (document_of "readers" (resource "t2" Read).(vp_spec)) /\
    decides read_run.2.1.(a_engine).(compiled) tid "readers" (resource "t2" Read).(vp_spec) /\
    (plain_segment "readers" = true -> wire_name (resource "t2" Read) = "readers") /\
    forall T : PolicyTable PolicyStore,
      named (table engine.(store)) -> answers engine.(store) = true -> tenant_row tid = Some tid ->
      table read_run.2.1.(a_engine).(store) !! (tid, "readers") = Some (document_of "readers" (resource "t2" Read).(vp_spec)) /\
      (answers read_run.2.1.(a_engine).(store) = true ->
       decides (compile read_run.2.1.(a_engine).(store)) tid "readers" (resource "t2" Read).(vp_spec)).
Proof.
  apply (synced_policy_is_in_force closed_env None base (fun _ => "") (fun _ => JNull) (fun _ => "") (fun _ => "") context
           (resource "t2" Read) "now" start read_run.1 read_run.2.1 read_run.2.2 "prod" "app" (policy_synced 3 "readers" "now") (Ok tt)).
  - split; vm_compute; reflexivity.
  - vm_compute. reflexivity.
  - vm_compute. right. left.
  - reflexivity.
Defined.

(** The policy of a resource called [a?b] is written as [a], over any of that name,
    and the resource is reported as synced. *)
Example question_mark_in_name :
  let vp := {| vp_meta := (resource "t2" Read).(vp_meta);
               vp_spec := {| policy_name := "a?b"; p_tenant_id := "t2"; policy_engine_endpoint := None; p_auth := None;
                             p_rules := (resource "t2" Read).(vp_spec).(p_rules) |} |} in
  let '(_, (w, es)) := run vp (start, []) in
  inner w.(a_engine).(store) = {[("t1", "a") := document_of "a" vp.(vp_spec)]} /\
  List.last es (PolicyStatus "" "" (policy_failed 0 "") (Ok tt)) = PolicyStatus "prod" "app" (policy_synced 3 "a?b" "now") (Ok tt).
Proof. vm_compute. split; reflexivity. Qed.

(** Two resources of two tenants and one policy name: one document, in the tenant of
    the token, that of the later. *)
Example tenants_share_a_policy :
  inner (run (resource "t3" Write) (run (resource "t2" Read) (start, [])).2).2.1.(a_engine).(store) =
  {[("t1", "readers") := document_of "readers" (resource "t3" Write).(vp_spec)]}.
Proof. vm_compute. reflexivity. Qed.

End OperatorDemo.
